(* ===== verification/_CoqProject ===== *)
-Q . S2P
Prelude.v
JsString.v
JsNumber.v
Utf8.v
Base64.v
Virtual.v
Regex.v
Json.v
Binding.v
Url.v
TransportPolicy.v
Browser.v
RtcStream.v
ControlClient.v
ConnectionPolicy.v
Handshake.v
DirectConnection.v
ControllerSw.v
Compat.v
Loader.v
Build.v
AppPolicy.v
ApiClient.v
Page.v
BindingPanel.v
Portal.v
ClassicUi.v
RemoteDesk.v
Yuv.v
OpusText.v
OpusWide.v
OpusValue.v
YuvCanvas.v
YuvWebGl.v
OpusCxx.v
OpusTty.v
OpusMemfs.v
OpusPath.v
OpusErrno.v
OpusNode.v
OpusFs.v
OpusFiles.v
OpusDevices.v
OpusEnviron.v
OpusFsApi.v
OpusTree.v
OpusLazy.v
OpusAsync.v
OpusExit.v
OpusSyscalls.v
OpusStat.v
OpusDate.v
OpusStrftime.v
OpusTable.v
OpusRuntime.v
OpusLoad.v
OpusWorker.v
EpoxyHeap.v
OpusShell.v
OgvDemuxer.v
OgvRuntime.v
OgvVideo.v
OgvAudio.v
OgvLoad.v
OgvLoader.v
OgvProxy.v
