(* ===== verification/Prelude.v ===== *)
(** * SCWebVPN browser client: verification development (root file)

    SCWebVPN publishes services of a home network.  A controller keeps accounts and
    signalling, an Agent in the home network holds the services, and a browser page
    reaches the Agent over a direct WebRTC connection: no relay, no proxying by the
    controller.  This library models the browser's side ([web/src], [web/scripts]) and the
    remote desktop page of the LAN integration ([integrations/lan-remote-access]), with
    the JavaScript runtime of its Opus decoder, the demuxers and decoders of ogv.js, and
    the object table of the vendored Epoxy bindings.

    ** How the parts interact

    [app.ts] reads the host name: the portal lists services, a service host or a temporary
    host connects.  [connect] creates a [DirectConnection] ([connection.ts]), which asks
    the controller for STUN servers, exchanges one offer and one answer free of relay
    candidates, and opens two data channels.  The Wisp channel becomes a pair of streams
    ([rtc-stream.ts]), authenticates and carries an Epoxy client ([compat.ts]), over which
    Scramjet ([scramjet.ts], [controller-sw.js]) loads the remote page under the synthetic
    authority of [virtual.ts]; [transport-policy.ts] decides what goes in and out.  The
    control channel carries diagnostics and temporary targets.  The binding panel shows
    one-time codes ([binding.ts]).  The remote desktop page ([classic-ui.js]) drives a
    RustDesk client; pictures are decoded by ogv.js and go through [yuv.js], sound through
    the worker at the end of [libopus.js].

    ** Files

    Platform.  [Prelude]: errors and the error monad, machine integers of JavaScript,
    generic lemmas and automation.  [JsString], [JsNumber], [Utf8], [Base64], [Regex],
    [Json], [Url], [Browser]: strings of UTF-16 units, text as a number, the encodings, a backtracking matcher for the
    regular expressions of the source, JSON, the URL standard for special schemes, data
    channel states and ordered maps.

    [web/src].
    - [Virtual]: [virtual.ts], with [virtualHostname] of [internal/agent/policy.go].
    - [Binding]: [binding.ts].   [TransportPolicy]: [transport-policy.ts].
    - [RtcStream]: [rtc-stream.ts] as an event machine; [wisp] is its state, [step] an event.
    - [connection.ts]: [ConnectionPolicy] (pure checks), [Handshake] (the awaited promises),
      [ControlClient] (class [ControlClient]), [DirectConnection] (class
      [DirectConnection], with [connect] and [restart] as suspended activations),
      [ApiClient] (the requests to the controller).
    - [ControllerSw]: [controller-sw.js].   [Loader]: [scramjet.ts].
    - [Compat]: [compat.ts], modules [Client], [FetchQueue], [Response], [WebSocket].
    - [app.ts]: [AppPolicy] (pure functions), [Page] (connection state of the page),
      [BindingPanel] (code panel), [Portal] (everything else, over the two).
    - [Build]: [web/scripts/build.ts].   [EpoxyHeap]: the handle table of
      [web/vendor/epoxy/epoxy_client.js].

    Remote desktop.  [ClassicUi] and [RemoteDesk]: [classic-ui.js], by part and as one
    machine.  [Yuv]: [yuv.js].  [YuvCanvas], [YuvWebGl]: the two ways of
    drawing of [yuv-canvas-1.2.6.js].

    [libopus.js].
    - [OpusText], [OpusWide], [OpusValue]: memory, strings, typed values, [ccall].
    - [OpusCxx]: C++ exception records, the stack cookie, the imports that act on memory.
    - [OpusPath]: [PATH], [PATH_FS].  [OpusNode]: nodes and name table.  [OpusMemfs]:
      contents of files.  [OpusFs]: the operations of [FS].  [OpusFiles]: whole files.
      [OpusTty], [OpusDevices]: terminals, devices, standard streams.  [OpusFsApi]:
      listing, mounts, mapping, helpers.  [OpusTree]: the consistency of names and
      directories.  [OpusErrno]: error objects.  [OpusLazy]: files read in chunks from a
      server.  [OpusAsync]: modules [Sync] ([syncfs]), [Preload] and [Database], which
      wait for answers.  [OpusSyscalls], [OpusEnviron]: what the module imports.
      [OpusStat]: the structure of [doStat].
    - [OpusDate], [OpusStrftime]: dates.  [OpusTable]: the function table.
    - [OpusLoad]: fetching and instantiating the module.  [OpusRuntime]: dependencies and
      start-up.  [OpusShell]: the environment with its readers and ends (module
      [Environment]), the options (module [Options]) and the exports (module [Exports]) of
      the module object.  [OpusExit]: closing streams and the check for output that was not
      flushed.  [OpusWorker]: encoder, decoder and the message listener.

    [ogvjs-1.8.6].  The modules of ogv.js come from one minified text with small
    differences; each file names the module it was read from.
    - [OgvDemuxer]: the WebM and Ogg demuxers.  [OgvVideo]: the video decoders, with the
      frames shared between decoder and player.  [OgvAudio]: the audio decoders.
    - [OgvRuntime]: growing the memory, printing, catching [longjmp].  [OgvLoad]: loading
      a module, which departs from the loading of [libopus.js].
    - [OgvLoader]: how the page gets the class of a decoder, by a script element or in a
      worker.  [OgvProxy]: the messages between a decoder in a worker and its proxy on the
      page, with both sides running at once.

    ** Shape of the models

    Pure code is a function on [jsstr], [Z] and the JSON and URL records; code that may
    throw returns a [result].  An object with callbacks is a record, an [event] type and a
    function [step]; theorems about it quantify over every list of events.  A call
    suspended at an [await] is a value naming the point it waits at, resumed by the event
    that brings the reply, so that calls interleave as in the source.  The file system of
    libopus runs in a state monad that keeps the state when an exception is thrown.  What
    the page asks of code outside the repository is recorded as output; what that code
    answers is an event or a parameter (a class or a section variable) with its documented
    behaviour as laws, instantiated in the witnesses.

    ** What the theorems show

    - Privacy and confinement: descriptions free of relay candidates
      ([no_relay_description], [rejectRelay_covers_agent]), connections only to what the
      page names ([connects_confined]), URLs, redirects, cookies and headers
      ([virtualURL_confined], [location_confined], [set_cookie_drops_domains],
      [sanitize_forwards_end_to_end], [agentTransportURL_authority]), the order of the
      logout ([logout_clears_origin]).
    - Agreement with the Agent: one host name on both sides
      ([virtualHostname_agrees_with_agent], [virtualHostname_injective]), requests the
      Agent accepts ([request_on_the_wire]).
    - Handshakes and state machines: [authenticateWisp_gate], [authenticateControl_gate],
      [restarts_bounded], [page_consistent], [loads_use_own_transport],
      [fetches_have_client], [passwords_sent_once].
    - Streams and requests: [delivery_in_order], [write_backpressure], [frames_in_order],
      [response_matches], [request_settles].
    - The Opus runtime: contents of files against plain lists, the name table against
      buckets, [writeFile_readFile], [lookups_agree_with_directories], vectored calls, the
      stat structure ([doStat_structure]), descriptors by name ([proc_fd_links]),
      [environment_spec], [exports_callable],
      [lazy_file_reads] (a file in chunks against the file), [addFunction_spec],
      [references_counted], [load_outcome], [syncfs_calls_back], [initialised_once],
      [start_not_missed], [calls_return], [strftime_reads_format], [ccall_stack].
    - Pictures: the colour of every pixel against the direct formula ([convert_formula],
      [Yuv]) and the shader against the same formula ([sinks_agree]); the planes a frame is
      drawn from with WebGL ([draws_current_frame], [stripe_reads_plane]); a decoded
      picture in its frame, whatever the frame held before ([frame_shows_picture]), while frames the player holds stay ([held_frames_unchanged]).
    - Media: packets and input through a demuxer ([packets_in_order],
      [input_reaches_module]), samples ([audio_channels]), the sizes asked of the engine
      ([resize_heap_bounds]), the promise of a module ([ready_settles]), the callbacks of
      the loader ([callbacks_accounted]); for decoders in workers the order of calls
      ([calls_in_order]), the answers and their callbacks ([answers_matched]), the
      properties the page sees ([properties_follow]) and the place of every buffer
      ([buffers_in_one_place]).
    - Errors of the code: theorems of the form "the code does otherwise" accompany the
      places where it departs from what it means to do, such as
      [failed_entry_cannot_retry]; they are stated next to the code they concern.

    ** Bounds and fuel

    Recursion that is not structural has a fuel that the callers set from the data:
    [scan_end] and the string readers the length of the memory, [decode_uri] the length of
    the text, chains of the name table the number of nodes, [addDays] the number of days
    (a year is at most one step), the expansion of mounts the length of the path, wide
    strings [wide_fuel].  Lemmas next to these functions show that it is enough.
    [lookupPath] is the exception: links that lead into themselves do recurse without
    limit in the code, so its fuel stands for the engine's stack and running out of it is
    the RangeError of an overflow.  [calls_return] bounds the steps of the start-up code by
    a measure.  The page waits at most 601 turns for its video decoder.  Integers are [Z]
    with the conversions of ECMAScript ([to_int32], [to_uint32]) where the code has bit
    operations or typed arrays; positions and sizes are taken to stay below 2^53, where
    the numbers of JavaScript are exact.  The rounding of a graphics card is a parameter of
    the shader that converts colours, with its error as a hypothesis ([accurate]).

    ** Not modelled, and assumptions

    - Time stamps of files; printing functions are taken to return; environment names are
      not array indexes; the vectors a system call is given lie in the memory; a cast to
      a TypeScript type is a partial reader of the value.
    - Code that is not in the repository: WebRTC, fetch, service workers, Scramjet, the
      Epoxy and Opus WebAssembly modules, the RustDesk client.
    - Of [libopus.js]: the table of imports and the assignments of generated functions to
      variables.
    - Of ogv.js: the player and its bundles (minified lines with other libraries in
      them, which the page does not use), the builds with threads, [cpuTime].  A WebAssembly module is a
      parameter: its answers, the imports it calls and the memory it leaves.
    - The other generated bindings of [epoxy_client.js], the Agent and the controller (Go,
      apart from the rules named above), scripts, packaging, style and markup. *)

From stdpp Require Import base list numbers strings.
From Stdlib Require Import ZArith Lia.
Local Open Scope Z_scope.

(** ** Errors and the error monad

    A JavaScript function that may throw returns a [result].  Errors the source
    builds carry their message; errors thrown by the platform (a DOMException of
    [atob], a TypeError of a closed stream) have an implementation-defined
    text, so only their class is kept. *)

Inductive jserror :=
| ErrorMsg (message : list Z)
| TypeErrorMsg (message : list Z)
| ErrnoError (errno : Z)              (* [FS.ErrnoError] of the Opus runtime *)
| ErrnoErrorAt (errno : Z) (node : nat) (* the same, with the node it carries *)
| PlatformError (class : string).

Inductive result (A : Type) :=
| Ok (a : A)
| Throw (e : jserror).
Arguments Ok {A} _.
Arguments Throw {A} _.

Definition rbind {A B} (m : result A) (k : A -> result B) : result B :=
  match m with
  | Ok a => k a
  | Throw e => Throw e
  end.

Definition rmap {A B} (f : A -> B) (m : result A) : result B :=
  rbind m (fun a => Ok (f a)).

Definition is_ok {A} (m : result A) : bool :=
  match m with Ok _ => true | Throw _ => false end.

(** [Array.prototype.map] with a callback that may throw. *)
Fixpoint rmapM {A B} (f : A -> result B) (l : list A) : result (list B) :=
  match l with
  | [] => Ok []
  | x :: l' => rbind (f x) (fun y => rbind (rmapM f l') (fun ys => Ok (y :: ys)))
  end.

Declare Scope js_scope.
Delimit Scope js_scope with js_op.
Notation "'let?' x := m 'in' k" := (rbind m (fun x => k))
  (at level 10, x pattern, m at level 100, k at level 200) : js_scope.
Open Scope js_scope.

#[export] Instance jserror_eq_dec : EqDecision jserror.
Proof. solve_decision. Defined.

#[export] Instance result_eq_dec {A} `{EqDecision A} : EqDecision (result A).
Proof. solve_decision. Defined.

(** ** Machine integers

    The bitwise operators of JavaScript convert their operands to 32 bits. *)

Definition to_uint32 (x : Z) : Z := x mod 2 ^ 32.
Definition to_int32 (x : Z) : Z :=
  let u := x mod 2 ^ 32 in if u <? 2 ^ 31 then u else u - 2 ^ 32.

Definition js_shl (a n : Z) : Z := to_int32 (Z.shiftl (to_int32 a) (to_uint32 n mod 32)).
Definition js_ushr (a n : Z) : Z := Z.shiftr (to_uint32 a) (to_uint32 n mod 32).
Definition js_sar (a n : Z) : Z := Z.shiftr (to_int32 a) (to_uint32 n mod 32).
Definition js_or (a b : Z) : Z := Z.lor (to_int32 a) (to_int32 b).
Definition js_and (a b : Z) : Z := Z.land (to_int32 a) (to_int32 b).

(** ** Tactics and hint databases *)

Create HintDb jsdb.
Create Rewrite HintDb regex.

(** Case analysis on the scrutinee of the first [match] or [if] of the goal. *)
Ltac destr_goal :=
  match goal with
  | |- context [match ?x with _ => _ end] => destruct x eqn:?
  end.

(** The same in a hypothesis. *)
Ltac destr_in H :=
  match type of H with
  | context [match ?x with _ => _ end] => destruct x eqn:?
  end.

(** Boolean tests of the code turned into the propositions they decide. *)
Ltac bool_prop :=
  repeat match goal with
  | H : _ && _ = true |- _ => apply andb_true_iff in H; destruct H
  | H : _ || _ = false |- _ => apply orb_false_iff in H; destruct H
  | H : _ && _ = false |- _ => apply andb_false_iff in H
  | H : _ || _ = true |- _ => apply orb_true_iff in H
  | H : negb _ = true |- _ => apply negb_true_iff in H
  | H : negb _ = false |- _ => apply negb_false_iff in H
  | H : (_ =? _) = true |- _ => apply Z.eqb_eq in H
  | H : (_ =? _) = false |- _ => apply Z.eqb_neq in H
  | H : (_ <=? _) = true |- _ => apply Z.leb_le in H
  | H : (_ <=? _) = false |- _ => apply Z.leb_gt in H
  | H : (_ <? _) = true |- _ => apply Z.ltb_lt in H
  | H : (_ <? _) = false |- _ => apply Z.ltb_ge in H
  | H : bool_decide _ = true |- _ => apply bool_decide_eq_true in H
  | H : bool_decide _ = false |- _ => apply bool_decide_eq_false in H
  end.

(** ** Lemmas on results *)

Lemma rbind_Ok {A B} (m : result A) (k : A -> result B) (b : B) :
  rbind m k = Ok b <-> exists a, m = Ok a /\ k a = Ok b.
Proof.
  split.
  - destruct m as [a|e]; cbn; [eauto | discriminate].
  - intros (a & -> & H). exact H.
Qed.

Lemma rmapM_Ok {A B} (f : A -> result B) (l : list A) (ys : list B) :
  rmapM f l = Ok ys <-> Forall2 (fun x y => f x = Ok y) l ys.
Proof.
  revert ys. induction l as [|x l IH]; intros ys; cbn.
  - split; intros H; inv H; constructor.
  - rewrite rbind_Ok. split.
    + intros (y & Hy & H). apply rbind_Ok in H as (ys' & Hys & H). inv H.
      constructor; [done | by apply IH].
    + intros H. inv H. eexists; split; [eassumption|].
      apply rbind_Ok. eexists; split; [by apply IH | done].
Qed.

(** ** Lemmas on 32-bit integers *)

Lemma to_uint32_range x : 0 <= to_uint32 x < 2 ^ 32.
Proof. apply Z.mod_pos_bound. lia. Qed.

Lemma to_int32_range x : - 2 ^ 31 <= to_int32 x < 2 ^ 31.
Proof.
  unfold to_int32. pose proof (Z.mod_pos_bound x (2 ^ 32)).
  case_match; bool_prop; lia.
Qed.

Lemma to_int32_mod x : to_int32 x mod 2 ^ 32 = x mod 2 ^ 32.
Proof.
  unfold to_int32. case_match.
  - apply Z.mod_mod. lia.
  - rewrite <- (Z.mod_add _ 1) by lia.
    replace (x mod 2 ^ 32 - 2 ^ 32 + 1 * 2 ^ 32) with (x mod 2 ^ 32) by lia.
    apply Z.mod_mod. lia.
Qed.

Lemma to_int32_small x : - 2 ^ 31 <= x < 2 ^ 31 -> to_int32 x = x.
Proof.
  intros H. unfold to_int32. destruct (Z_lt_dec x 0) as [Hn|Hn].
  - rewrite <- (Z.mod_add x 1), Z.mod_small by lia. case_match; bool_prop; lia.
  - rewrite Z.mod_small by lia. case_match; bool_prop; lia.
Qed.

Lemma to_uint32_small x : 0 <= x < 2 ^ 32 -> to_uint32 x = x.
Proof. intros. unfold to_uint32. by apply Z.mod_small. Qed.

#[export] Hint Resolve to_uint32_range to_int32_range : jsdb.

(** A low bit of a number survives the 32-bit conversions. *)
Lemma to_int32_testbit x i : 0 <= i < 32 -> Z.testbit (to_int32 x) i = Z.testbit x i.
Proof.
  intros Hi. rewrite <- (Z.mod_pow2_bits_low (to_int32 x) 32) by lia.
  rewrite to_int32_mod. apply Z.mod_pow2_bits_low. lia.
Qed.

Lemma to_uint32_testbit x i : 0 <= i < 32 -> Z.testbit (to_uint32 x) i = Z.testbit x i.
Proof. intros Hi. unfold to_uint32. apply Z.mod_pow2_bits_low. lia. Qed.

(** The low [k] bits of a number depend only on the number modulo [2 ^ k]. *)
Lemma land_ones_mod_eq a b k :
  0 <= k -> a mod 2 ^ k = b mod 2 ^ k -> Z.land a (Z.ones k) = Z.land b (Z.ones k).
Proof. intros Hk H. by rewrite !Z.land_ones. Qed.

(** Appending [k] low bits by arithmetic or by [|]. *)
Lemma shiftl_add_lor x y k :
  0 <= k -> 0 <= y < 2 ^ k -> x * 2 ^ k + y = Z.lor (Z.shiftl x k) y.
Proof.
  intros Hk Hy.
  assert (Hand : Z.land (Z.shiftl x k) y = 0).
  { apply Z.bits_inj'. intros n Hn. rewrite Z.land_spec, Z.shiftl_spec, Z.bits_0 by lia.
    destruct (Z_lt_dec n k); [by rewrite Z.testbit_neg_r by lia|].
    rewrite <- (Z.mod_small y (2 ^ k)), Z.mod_pow2_bits_high by lia.
    apply andb_false_r. }
  by rewrite <- Z.lxor_lor, <- Z.add_nocarry_lxor, Z.shiftl_mul_pow2.
Qed.

(** The bitwise operators on small non-negative numbers, as arithmetic. *)
Lemma js_sar_small a n : 0 <= a < 2 ^ 31 -> 0 <= n < 32 -> js_sar a n = a / 2 ^ n.
Proof.
  intros Ha Hn. unfold js_sar. rewrite to_int32_small, to_uint32_small by lia.
  rewrite Z.mod_small by lia. by rewrite Z.shiftr_div_pow2 by lia.
Qed.

Lemma js_and_ones a k : 0 <= a < 2 ^ 31 -> 0 <= k < 31 -> js_and a (2 ^ k - 1) = a mod 2 ^ k.
Proof.
  intros Ha Hk. unfold js_and.
  assert (0 < 2 ^ k <= 2 ^ 31) by (split; [lia|apply Z.pow_le_mono_r; lia]).
  rewrite !to_int32_small by lia. rewrite Z.sub_1_r, <- Z.ones_equiv. by rewrite Z.land_ones by lia.
Qed.

Lemma js_or_add h y k :
  0 <= k < 31 -> 0 <= h -> 0 <= y < 2 ^ k -> h * 2 ^ k + y < 2 ^ 31 -> js_or (h * 2 ^ k) y = h * 2 ^ k + y.
Proof.
  intros Hk Hh Hy Hb. unfold js_or. rewrite !to_int32_small by nia. rewrite shiftl_add_lor by lia.
  by rewrite Z.shiftl_mul_pow2 by lia.
Qed.

Lemma js_shl_small a n : 0 <= a -> 0 <= n < 32 -> a * 2 ^ n < 2 ^ 31 -> js_shl a n = a * 2 ^ n.
Proof.
  intros Ha Hn Hb. assert (0 < 2 ^ n) by lia. assert (a < 2 ^ 31) by nia. unfold js_shl.
  rewrite (to_int32_small a), (to_uint32_small n) by lia. rewrite Z.mod_small by lia.
  rewrite Z.shiftl_mul_pow2 by lia. apply to_int32_small. nia.
Qed.
