(* ===== verification/JsString.v ===== *)
(** * JavaScript strings

    A JavaScript string is a sequence of UTF-16 code units, here a [list Z] of
    numbers below 2^16.  This file holds the string literals (UTF-8 source text
    read as UTF-16), the methods of [String.prototype] the source uses, and the
    lemmas the components share. *)

From stdpp Require Import base list numbers strings sets.
From Stdlib Require Import ZArith Lia Strings.Byte.
From S2P Require Import Prelude.
Local Open Scope Z_scope.

Abbreviation jsstr := (list Z).

(** ** Literals *)

(** Code points as UTF-16 code units. *)
Definition utf16_encode (c : Z) : jsstr :=
  if c <? 0x10000 then [c]
  else [0xD800 + (c - 0x10000) / 0x400; 0xDC00 + (c - 0x10000) mod 0x400].

(** The code points of a well-formed UTF-8 text. *)
Fixpoint utf8_points (bs : list Z) : list Z :=
  match bs with
  | [] => []
  | b0 :: r0 =>
      if b0 <? 0x80 then b0 :: utf8_points r0
      else match r0 with
      | [] => []
      | b1 :: r1 =>
          if b0 <? 0xE0 then (b0 - 0xC0) * 64 + (b1 - 0x80) :: utf8_points r1
          else match r1 with
          | [] => []
          | b2 :: r2 =>
              if b0 <? 0xF0 then ((b0 - 0xE0) * 64 + (b1 - 0x80)) * 64 + (b2 - 0x80) :: utf8_points r2
              else match r2 with
              | [] => []
              | b3 :: r3 =>
                  (((b0 - 0xF0) * 64 + (b1 - 0x80)) * 64 + (b2 - 0x80)) * 64 + (b3 - 0x80)
                    :: utf8_points r3
              end
          end
      end
  end.

Definition bytes_of (s : string) : list Z :=
  map (fun b => Z.of_N (Byte.to_N b)) (String.list_byte_of_string s).

(** A string literal of the source. *)
Definition js (s : string) : jsstr := concat (map utf16_encode (utf8_points (bytes_of s))).

(** A literal that holds double quotes, written with backquotes. *)
Definition jsq (s : string) : jsstr := map (fun c => if c =? 96 then 34 else c) (js s).

(** ** Characters *)

Definition is_upper (c : Z) : bool := (65 <=? c) && (c <=? 90).
Definition is_lower (c : Z) : bool := (97 <=? c) && (c <=? 122).
Definition is_digit (c : Z) : bool := (48 <=? c) && (c <=? 57).
Definition is_ascii (c : Z) : bool := (0 <=? c) && (c <? 128).

Definition lower_char (c : Z) : Z := if is_upper c then c + 32 else c.
Definition upper_char (c : Z) : Z := if is_lower c then c - 32 else c.

(** WhiteSpace and LineTerminator of ECMA-262: what [\s] matches and what
    [String.prototype.trim] removes. *)
Definition is_space (c : Z) : bool :=
  ((9 <=? c) && (c <=? 13)) || (c =? 32) || (c =? 0xA0) || (c =? 0x1680)
  || ((0x2000 <=? c) && (c <=? 0x200A)) || (c =? 0x2028) || (c =? 0x2029)
  || (c =? 0x202F) || (c =? 0x205F) || (c =? 0x3000) || (c =? 0xFEFF).

(** LineTerminator: what [.] does not match. *)
Definition is_line_terminator (c : Z) : bool :=
  (c =? 10) || (c =? 13) || (c =? 0x2028) || (c =? 0x2029).

(** A [\w] character. *)
Definition is_word (c : Z) : bool := is_digit c || is_upper c || is_lower c || (c =? 95).

(** ** Case mapping

    On an ASCII string [toLowerCase] and [toUpperCase] act letter by letter.  On
    other strings they use the Unicode tables of the engine, which are the
    operations of this class. *)

Class UnicodeCase := {
  unicode_lower : jsstr -> jsstr;
  unicode_upper : jsstr -> jsstr
}.

Definition ascii_only (s : jsstr) : bool := forallb is_ascii s.

Definition toLowerCase `{UnicodeCase} (s : jsstr) : jsstr :=
  if ascii_only s then map lower_char s else unicode_lower s.

Definition toUpperCase `{UnicodeCase} (s : jsstr) : jsstr :=
  if ascii_only s then map upper_char s else unicode_upper s.

(** A table with no case pairs outside ASCII; used where an engine is needed. *)
Definition ascii_case : UnicodeCase :=
  {| unicode_lower := map lower_char; unicode_upper := map upper_char |}.

(** ** Methods of String.prototype *)

Fixpoint startsWith (s p : jsstr) {struct p} : bool :=
  match p, s with
  | [], _ => true
  | _ :: _, [] => false
  | c :: p', d :: s' => (c =? d) && startsWith s' p'
  end.

Definition endsWith (s p : jsstr) : bool := startsWith (rev s) (rev p).

Definition str_eqb (s t : jsstr) : bool := bool_decide (s = t).

Definition includes_char (s : jsstr) (c : Z) : bool := existsb (Z.eqb c) s.

Fixpoint trim_start (s : jsstr) : jsstr :=
  match s with
  | c :: s' => if is_space c then trim_start s' else s
  | [] => []
  end.

Definition trim (s : jsstr) : jsstr := rev (trim_start (rev (trim_start s))).

(** [s.split(c)] for a separator of one code unit. *)
Fixpoint split_char (c : Z) (s : jsstr) : list jsstr :=
  match s with
  | [] => [[]]
  | d :: s' =>
      if d =? c then [] :: split_char c s'
      else match split_char c s' with
           | w :: ws => (d :: w) :: ws
           | [] => [[d]]
           end
  end.

(** [s.replace(/c/g, d)] for single code units. *)
Definition replace_char (c d : Z) (s : jsstr) : jsstr :=
  map (fun x => if x =? c then d else x) s.

(** [s.indexOf(c)] for one code unit, [-1] when absent. *)
Fixpoint indexOf (c : Z) (s : jsstr) : Z :=
  match s with
  | [] => -1
  | d :: s' => if d =? c then 0 else let i := indexOf c s' in if i <? 0 then -1 else 1 + i
  end.

(** [s.slice(n)] and [s.slice(0, -n)] for [n >= 0]. *)
Definition slice_from (s : jsstr) (n : Z) : jsstr := drop (Z.to_nat n) s.
Definition slice_end (s : jsstr) (n : Z) : jsstr := take (length s - Z.to_nat n) s.

Definition str_len (s : jsstr) : Z := Z.of_nat (length s).

(** The decimal digits of a natural number, as [String(n)] prints an integer. *)
Fixpoint dec_digits (fuel : nat) (n : Z) : jsstr :=
  match fuel with
  | O => []
  | S f => if n <? 10 then [48 + n] else dec_digits f (n / 10) ++ [48 + n mod 10]
  end.

(** An integer of [k] decimal digits needs fuel [k]; [Z.log2] bounds it. *)
Definition string_of_Z (n : Z) : jsstr :=
  if n <? 0 then 45 :: dec_digits (S (Z.to_nat (Z.log2 (- n)))) (- n)
  else dec_digits (S (Z.to_nat (Z.log2 n))) n.

(** ** Lemmas *)

Lemma startsWith_spec s p : startsWith s p = true <-> exists t, s = p ++ t.
Proof.
  revert s. induction p as [|c p IH]; intros s; cbn.
  - split; [intros _; by exists s | done].
  - destruct s as [|d s]; [split; [done | intros (t & H); discriminate]|].
    rewrite andb_true_iff, Z.eqb_eq, IH. split.
    + intros (-> & t & ->). by exists t.
    + intros (t & H). injection H as -> ->. eauto.
Qed.

Lemma endsWith_spec s p : endsWith s p = true <-> exists t, s = t ++ p.
Proof.
  unfold endsWith. rewrite startsWith_spec. split; intros (t & H).
  - exists (rev t). apply (f_equal (@rev Z)) in H.
    rewrite rev_involutive, rev_app_distr, rev_involutive in H. done.
  - exists (rev t). by rewrite H, rev_app_distr.
Qed.

Lemma str_eqb_eq s t : str_eqb s t = true <-> s = t.
Proof. unfold str_eqb. apply bool_decide_eq_true. Qed.

Lemma str_eqb_neq s t : str_eqb s t = false <-> s <> t.
Proof. unfold str_eqb. apply bool_decide_eq_false. Qed.

Lemma str_eqb_refl s : str_eqb s s = true.
Proof. by apply str_eqb_eq. Qed.

Lemma includes_char_spec s c : includes_char s c = true <-> c ∈ s.
Proof.
  unfold includes_char. rewrite existsb_exists. split.
  - intros (x & Hx & E). apply Z.eqb_eq in E as ->. by apply list_elem_of_In.
  - intros H. exists c. split; [by apply list_elem_of_In | apply Z.eqb_refl].
Qed.

Lemma split_char_ne c s : split_char c s <> [].
Proof. destruct s as [|d s]; cbn; [done|]. case_match; [done|]. by case_match. Qed.

(** Splitting loses nothing: joining the parts with the separator gives the
    string back. *)
Fixpoint join_char (c : Z) (ws : list jsstr) : jsstr :=
  match ws with
  | [] => []
  | [w] => w
  | w :: ws' => w ++ c :: join_char c ws'
  end.

Lemma join_split c s : join_char c (split_char c s) = s.
Proof.
  induction s as [|d s IH]; cbn; [done|].
  pose proof (split_char_ne c s). destruct (split_char c s) as [|w ws]; [done|].
  destruct (d =? c) eqn:E.
  - apply Z.eqb_eq in E as ->. by rewrite <- IH.
  - rewrite <- IH. by destruct ws.
Qed.

Lemma split_char_no_sep c s : Forall (fun w => c ∉ w) (split_char c s).
Proof.
  induction s as [|d s IH]; cbn.
  - repeat constructor. apply not_elem_of_nil.
  - destruct (d =? c) eqn:E.
    + constructor; [apply not_elem_of_nil | done].
    + destruct (split_char c s) as [|w ws]; inv IH.
      * repeat constructor. apply Z.eqb_neq in E. set_solver.
      * constructor; [apply Z.eqb_neq in E; set_solver | done].
Qed.

Lemma lower_char_idem c : lower_char (lower_char c) = lower_char c.
Proof.
  unfold lower_char, is_upper. repeat case_match; bool_prop; lia.
Qed.

Lemma map_lower_idem s : map lower_char (map lower_char s) = map lower_char s.
Proof. rewrite map_map. apply map_ext. apply lower_char_idem. Qed.

Lemma ascii_only_app s t : ascii_only (s ++ t) = ascii_only s && ascii_only t.
Proof. apply forallb_app. Qed.

Lemma slice_end_app s p : slice_end (s ++ p) (str_len p) = s.
Proof.
  unfold slice_end, str_len. rewrite length_app, Nat2Z.id.
  replace (length s + length p - length p)%nat with (length s) by lia.
  by rewrite take_app_length.
Qed.

#[export] Hint Resolve str_eqb_refl : jsdb.

Lemma dec_digits_digit f : forall n, 0 <= n -> forallb is_digit (dec_digits f n) = true.
Proof.
  induction f as [|f IH]; intros n Hn; cbn [dec_digits]; [done|]. destruct (Z.ltb_spec n 10) as [H|H].
  - cbn. unfold is_digit. lia.
  - rewrite forallb_app, IH by (apply Z.div_pos; lia). cbn. unfold is_digit. pose proof (Z.mod_pos_bound n 10). lia.
Qed.

(** The fuel of [string_of_Z] is enough. *)
Lemma log2_lt_pow10 n : 0 <= n -> n < 10 ^ Z.of_nat (S (Z.to_nat (Z.log2 n))).
Proof.
  intros Hn. pose proof (Z.log2_nonneg n). rewrite Nat2Z.inj_succ, Z2Nat.id by lia.
  destruct (Z.eq_dec n 0) as [->|]; [cbn; lia|].
  apply Z.lt_le_trans with (2 ^ Z.succ (Z.log2 n)); [apply Z.log2_spec; lia|].
  apply Z.pow_le_mono_l. lia.
Qed.

(** ** Trimming and splitting *)

(** No white space at either end. *)
Definition no_edge_space (s : jsstr) : Prop :=
  match head s with Some c => is_space c = false | None => True end
  /\ match last s with Some c => is_space c = false | None => True end.

Lemma trim_start_length s : (length (trim_start s) <= length s)%nat.
Proof. induction s as [|c s IH]; cbn; [done|]. case_match; cbn; lia. Qed.

Lemma trim_start_fix s :
  trim_start s = s <-> match head s with Some c => is_space c = false | None => True end.
Proof.
  destruct s as [|c s]; [done|]. cbn [trim_start head]. destruct (is_space c) eqn:E; [|done].
  split; [|done]. intros H. pose proof (trim_start_length s) as L. rewrite H in L. cbn in L. lia.
Qed.

Lemma trim_fix s : trim s = s <-> no_edge_space s.
Proof.
  unfold trim, no_edge_space. rewrite <- head_reverse.
  assert (Hrev : reverse s = rev s) by (unfold reverse; by rewrite rev_alt).
  rewrite Hrev, <- !trim_start_fix. split.
  - intros H.
    assert (Hs : trim_start s = s).
    { pose proof (trim_start_length s) as L1. pose proof (trim_start_length (rev (trim_start s))) as L2.
      apply (f_equal length) in H as L3. rewrite !length_rev in *.
      destruct s as [|c s]; [done|]. cbn [trim_start] in *. case_match; [|done].
      pose proof (trim_start_length s). cbn in *. lia. }
    split; [done|]. rewrite Hs in H. apply (f_equal (@rev Z)) in H. by rewrite rev_involutive in H.
  - intros [H1 H2]. by rewrite H1, H2, rev_involutive.
Qed.

Lemma trim_start_split s : exists w, s = w ++ trim_start s /\ forallb is_space w = true.
Proof.
  induction s as [|c s IH]; [by exists []|]. cbn. destruct (is_space c) eqn:E; [|by exists []].
  destruct IH as (w & Hw & Hf). exists (c :: w). cbn. rewrite E, Hf. by rewrite <- Hw.
Qed.

Lemma trim_split s : exists w1 w2, s = w1 ++ trim s ++ w2 /\ forallb is_space w1 = true /\ forallb is_space w2 = true.
Proof.
  unfold trim. destruct (trim_start_split s) as (w1 & H1 & F1).
  destruct (trim_start_split (rev (trim_start s))) as (w2 & H2 & F2).
  exists w1, (rev w2). split; [|split; [done|]].
  - rewrite H1 at 1. f_equal. rewrite <- rev_app_distr, <- H2. by rewrite rev_involutive.
  - apply forallb_forall. intros c Hc. apply in_rev in Hc. rewrite rev_involutive in Hc || idtac.
    rewrite forallb_forall in F2. by apply F2.
Qed.

(** A part of a text, between separators or the ends of the text. *)
Lemma join_char_context c l1 line l2 :
  exists u v, join_char c (l1 ++ line :: l2) = u ++ line ++ v
    /\ (u = [] \/ exists u', u = u' ++ [c]) /\ (v = [] \/ exists v', v = c :: v').
Proof.
  induction l1 as [|w l1 (u & v & IH & Hu & Hv)].
  - cbn [app]. destruct l2 as [|w2 l2].
    + exists [], []. rewrite app_nil_r. auto.
    + exists [], (c :: join_char c (w2 :: l2)). split; [done|]. split; [by left|]. right. by eexists.
  - exists (w ++ c :: u), v. split; [|split; [|done]].
    + assert (Hne : l1 ++ line :: l2 <> []) by (by destruct l1).
      cbn [app]. rewrite <- app_assoc. cbn [app]. rewrite <- IH.
      cbn [join_char]. by destruct (l1 ++ line :: l2).
    + right. destruct Hu as [-> | [u' ->]]; [by exists w|]. exists (w ++ c :: u'). by rewrite <- app_assoc.
Qed.

Lemma split_char_context c s line :
  line ∈ split_char c s ->
  exists u v, s = u ++ line ++ v /\ (u = [] \/ exists u', u = u' ++ [c]) /\ (v = [] \/ exists v', v = c :: v').
Proof.
  intros (l1 & l2 & E)%list_elem_of_split. destruct (join_char_context c l1 line l2) as (u & v & H & ?).
  rewrite <- E, join_split in H. by exists u, v.
Qed.

(** The white space at the edges decides what [trim] leaves. *)
Lemma trim_start_spaces w s : forallb is_space w = true -> trim_start (w ++ s) = trim_start s.
Proof. induction w as [|c w IH]; cbn; [done|]. destruct (is_space c); [done|]. done. Qed.

Lemma trim_unique w1 core w2 :
  forallb is_space w1 = true -> forallb is_space w2 = true -> no_edge_space core -> trim (w1 ++ core ++ w2) = core.
Proof.
  intros F1 F2 Hn. pose proof (proj2 (trim_fix core) Hn) as Ht. unfold trim in *.
  assert (F2' : forallb is_space (rev w2) = true) by (rewrite forallb_forall in F2 |- *; intros c Hc%in_rev; by apply F2).
  rewrite trim_start_spaces by done. destruct core as [|c core].
  - rewrite app_nil_l. replace (trim_start w2) with (@nil Z); [done|].
    rewrite <- (app_nil_r w2). by rewrite trim_start_spaces.
  - assert (E : trim_start ((c :: core) ++ w2) = (c :: core) ++ w2) by (apply trim_start_fix; exact (proj1 Hn)).
    rewrite E, rev_app_distr, trim_start_spaces by done.
    rewrite (proj2 (trim_start_fix (c :: core)) (proj1 Hn)) in Ht. exact Ht.
Qed.

Lemma trim_no_edge s : no_edge_space (trim s).
Proof.
  assert (Hh : forall t, match head (trim_start t) with Some c => is_space c = false | None => True end).
  { intros t. induction t as [|c t IH]; cbn; [done|]. by destruct (is_space c) eqn:E. }
  unfold no_edge_space, trim. destruct (trim_start_split (rev (trim_start s))) as (w & Hw & _).
  set (t := trim_start (rev (trim_start s))) in *. split.
  - pose proof (Hh s) as H. apply (f_equal (@rev Z)) in Hw. rewrite rev_involutive, rev_app_distr in Hw. rewrite Hw in H.
    by destruct (rev t).
  - rewrite <- head_reverse. unfold reverse. rewrite <- rev_alt, rev_involutive. apply Hh.
Qed.

(** The parts of a split text are exactly its maximal pieces without a separator. *)
Definition piece_of (c : Z) (s w : jsstr) : Prop :=
  c ∉ w /\ exists u v, s = u ++ w ++ v /\ (u = [] \/ exists u', u = u' ++ [c]) /\ (v = [] \/ exists v', v = c :: v').

Lemma split_char_none c w : c ∉ w -> split_char c w = [w].
Proof.
  induction w as [|d w IH]; cbn; [done|]. intros H%not_elem_of_cons. destruct H as [Hd Hw].
  rewrite (proj2 (Z.eqb_neq d c)) by done. by rewrite IH.
Qed.

Lemma split_char_app c u v : split_char c (u ++ c :: v) = split_char c u ++ split_char c v.
Proof.
  induction u as [|d u IH]; cbn; [by rewrite Z.eqb_refl|]. destruct (d =? c); [by rewrite IH|].
  rewrite IH. pose proof (split_char_ne c u). by destruct (split_char c u).
Qed.

Lemma split_char_pieces c s w : w ∈ split_char c s <-> piece_of c s w.
Proof.
  split.
  - intros H. split; [|by apply split_char_context]. pose proof (split_char_no_sep c s) as F. rewrite Forall_forall in F. by apply F.
  - intros (Hw & u & v & -> & Hu & Hv).
    assert (E : w ∈ split_char c (w ++ v)).
    { destruct Hv as [->|[v' ->]]; [rewrite app_nil_r|rewrite split_char_app]; rewrite (split_char_none _ _ Hw); set_solver. }
    destruct Hu as [->|[u' ->]]; [done|]. rewrite <- app_assoc. cbn [app]. rewrite split_char_app. set_solver.
Qed.
