(* ===== verification/JsNumber.v ===== *)
(** * Numbers from texts

    [+s] of ECMAScript: white space around, an empty text, prefixes for other bases, signs,
    fractions and exponents.  The value is kept as a fraction; what an array is indexed with
    is the double nearest to it. *)

From stdpp Require Import base list numbers strings.
From Stdlib Require Import ZArith Lia.
From S2P Require Import Prelude JsString.
Local Open Scope Z_scope.

(** ** Digits *)

Definition digit_value (c : Z) : Z :=
  if is_digit c then c - 48 else if is_lower c then c - 87 else if is_upper c then c - 55 else 99.

(** The digits a text begins with, added to [acc]; how many there are, and the rest. *)
Fixpoint digits (base acc : Z) (n : Z) (s : jsstr) : Z * Z * jsstr :=
  match s with
  | [] => (acc, n, [])
  | c :: r => if digit_value c <? base then digits base (base * acc + digit_value c) (n + 1) r else (acc, n, s)
  end.

(** ** Literals *)

(** A sign, and what follows it. *)
Definition sign (s : jsstr) : bool * jsstr :=
  match s with
  | c :: r => if c =? 43 then (false, r) else if c =? 45 then (true, r) else (false, s)
  | [] => (false, [])
  end.

(** What follows the digits of a decimal literal: nothing, or an exponent. *)
Definition exponent (s : jsstr) : option Z :=
  match s with
  | [] => Some 0
  | c :: r =>
      if (c =? 101) || (c =? 69) then
        let '(neg, r) := sign r in
        match digits 10 0 0 r with
        | (x, n, []) => if n =? 0 then None else Some (if neg then - x else x)
        | _ => None
        end
      else None
  end.

(** Mantissa and exponent of ten of a literal without sign. *)
Definition decimal (s : jsstr) : option (Z * Z) :=
  let '(a, na, s) := digits 10 0 0 s in
  let '(b, nb, s) := match s with c :: r => if c =? 46 then digits 10 a 0 r else (a, 0, s) | [] => (a, 0, []) end in
  if na + nb =? 0 then None
  else match exponent s with Some e => Some (b, e - nb) | None => None end.

Inductive jsnumber := NaN | Infinite | Fraction (negative : bool) (num den : Z).

Definition in_base (base : Z) (s : jsstr) : jsnumber :=
  match digits base 0 0 s with
  | (x, n, []) => if n =? 0 then NaN else Fraction false x 1
  | _ => NaN
  end.

Definition signed_decimal (s : jsstr) : jsnumber :=
  let '(neg, s) := sign s in
  if str_eqb s (js "Infinity") then Infinite
  else match decimal s with
       | Some (m, e) => if 0 <=? e then Fraction neg (m * 10 ^ e) 1 else Fraction neg m (10 ^ (- e))
       | None => NaN
       end.

Definition toNumber (s : jsstr) : jsnumber :=
  let s := trim s in
  match s with
  | [] => Fraction false 0 1
  | z :: c :: r =>
      if (z =? 48) && ((c =? 120) || (c =? 88)) then in_base 16 r
      else if (z =? 48) && ((c =? 111) || (c =? 79)) then in_base 8 r
      else if (z =? 48) && ((c =? 98) || (c =? 66)) then in_base 2 r
      else signed_decimal s
  | _ => signed_decimal s
  end.

(** ** Indexes *)

(** Whether the double nearest to [num/den] is the number [k], for [k] below 2^52: the doubles next to it are
    2^(p-52) away where 2^p is the power of two below it, half of that on the side of smaller numbers where [k] is a
    power of two; a number in the middle goes to [k], whose last bit is zero.  The smallest double is 2^-1074. *)
Definition nearest_double (num den k : Z) : bool :=
  if k =? 0 then num * 2 ^ 1075 <=? den
  else
    let p := Z.log2 k in
    let above := 2 ^ (53 - p) in
    let below := if k =? 2 ^ p then 2 ^ (54 - p) else 2 ^ (53 - p) in
    ((num - k * den) * above <=? den) && ((k * den - num) * below <=? den).

(** The index that a text names in an array of at most 2^32 elements; [-0] names the first. *)
Definition array_index (s : jsstr) : option Z :=
  match toNumber s with
  | Fraction neg num den =>
      let k := (2 * num + den) / (2 * den) in
      if nearest_double num den k && (negb neg || (k =? 0)) && (k <? 2 ^ 32 - 1) then Some k else None
  | _ => None
  end.

(** ** Decimal numbers are read back *)

Lemma digits_app base s t : forall acc n, Forall (fun c => digit_value c < base) s ->
  digits base acc n (s ++ t) = let '(a, m, _) := digits base acc n s in digits base a m t.
Proof.
  induction s as [|c s IH]; intros acc n H; [done|]. apply Forall_cons in H as [Hc H]. cbn [app digits].
  rewrite (proj2 (Z.ltb_lt _ _)) by done. by apply IH.
Qed.

Lemma decimal_digit c : is_digit c = true -> digit_value c = c - 48 /\ digit_value c < 10 /\ is_space c = false.
Proof. unfold digit_value. intros H. rewrite H. unfold is_digit in H. bool_prop. split; [done|]. split; [lia|]. unfold is_space. bool_prop. lia. Qed.

Lemma digits_dec f : forall n, 0 <= n < 10 ^ Z.of_nat f -> (0 < f)%nat ->
  exists k, 0 < k /\ digits 10 0 0 (dec_digits f n) = (n, k, []).
Proof.
  induction f as [|f IH]; intros n Hn Hf; [lia|]. cbn [dec_digits]. destruct (Z.ltb_spec n 10) as [H|H].
  - exists 1. destruct (decimal_digit (48 + n)) as (E & Hlt & _); [unfold is_digit; lia|]. cbn [digits]. rewrite (proj2 (Z.ltb_lt _ _)), E by done.
    split; [done|]. repeat f_equal; lia.
  - rewrite Nat2Z.inj_succ, Z.pow_succ_r in Hn by lia. destruct f as [|f]; [cbn in Hn; lia|].
    destruct (IH (n / 10)) as (k & Hk & E); [Z.to_euclidean_division_equations; lia|lia|]. exists (k + 1). split; [lia|].
    rewrite digits_app, E.
    + destruct (decimal_digit (48 + n mod 10)) as (Ed & Hlt & _); [unfold is_digit; Z.to_euclidean_division_equations; lia|].
      cbn [digits]. rewrite (proj2 (Z.ltb_lt _ _)), Ed by done. repeat f_equal. Z.to_euclidean_division_equations; lia.
    + apply Forall_forall. intros c Hc. pose proof (dec_digits_digit (S f) (n / 10) ltac:(apply Z.div_pos; lia)) as Hd.
      rewrite forallb_forall in Hd. apply (decimal_digit c), Hd. by apply list_elem_of_In.
Qed.

Lemma trim_digits s : forallb is_digit s = true -> trim s = s.
Proof.
  assert (H : forall s, forallb is_digit s = true -> trim_start s = s).
  { intros [|c t] H; [done|]. cbn in *. apply andb_prop in H as [H _]. by destruct (decimal_digit c H) as (_ & _ & ->). }
  intros Hs. unfold trim. rewrite (H s Hs), H, rev_involutive; [done|]. rewrite forallb_forall in *. intros c Hc. apply Hs. by apply in_rev.
Qed.

(** The text of an index names the index. *)
Theorem array_index_print n : 0 <= n < 2 ^ 32 - 1 -> array_index (string_of_Z n) = Some n.
Proof.
  intros Hn. unfold string_of_Z. rewrite (proj2 (Z.ltb_ge n 0)) by lia. set (f := S (Z.to_nat (Z.log2 n))).
  destruct (digits_dec f n) as (k & Hk & E); [split; [lia|apply log2_lt_pow10; lia]|lia|].
  assert (Hd : forallb is_digit (dec_digits f n) = true) by (apply dec_digits_digit; lia).
  destruct (dec_digits f n) as [|c r] eqn:Ed; [cbn in E; injection E; lia|]. rewrite <- Ed in *.
  pose proof Hd as Hc. rewrite Ed in Hc. cbn [forallb] in Hc. apply andb_prop in Hc as [Hc Hr]. unfold is_digit in Hc. bool_prop.
  assert (Hx : signed_decimal (dec_digits f n) = Fraction false n 1).
  { unfold signed_decimal, sign. rewrite Ed. rewrite !(proj2 (Z.eqb_neq c _)) by lia. rewrite <- Ed.
    rewrite (proj2 (str_eqb_neq _ _)); [|rewrite Ed; intros [= -> _]; done]. unfold decimal. rewrite E. cbn. rewrite (proj2 (Z.eqb_neq _ _)) by lia. cbn. f_equal. lia. }
  assert (Hn' : toNumber (dec_digits f n) = Fraction false n 1).
  { unfold toNumber. rewrite trim_digits by done. rewrite Ed. destruct r as [|d r]; [by rewrite <- Ed|]. cbn [forallb] in Hr. apply andb_prop in Hr as [Hr _].
    unfold is_digit in Hr. bool_prop. rewrite !(proj2 (Z.eqb_neq d _)), !andb_false_r by lia. by rewrite <- Ed. }
  unfold array_index. rewrite Hn'. replace ((2 * n + 1) / (2 * 1)) with n by (Z.to_euclidean_division_equations; lia).
  assert (Hd1 : nearest_double n 1 n = true).
  { unfold nearest_double. destruct (Z.eqb_spec n 0) as [->|]; [done|]. replace (n - n * 1) with 0 by lia. replace (n * 1 - n) with 0 by lia. done. }
  rewrite Hd1. cbn [negb orb andb]. by rewrite (proj2 (Z.ltb_lt _ _)) by lia.
Qed.

Example index_texts :
  map array_index [js "12"; js " 7 "; js "0x1F"; js "1e1"; js "2.0"; js "-0"; js ".5"; js "-1"; js "1a"; js "1.00000000000000000001"; js ""; js "0b101"]
  = [Some 12; Some 7; Some 31; Some 10; Some 2; Some 0; None; None; None; Some 1; Some 0; Some 5].
Proof. vm_compute. reflexivity. Qed.
