(* ===== verification/Utf8.v ===== *)
(** * UTF-8 and UTF-16

    The conversions of the platform between code points, UTF-16 code units and
    UTF-8 bytes: what [TextEncoder] and [TextDecoder] compute, with the lemmas
    that relate them. *)

From stdpp Require Import base list numbers strings.
From Stdlib Require Import ZArith Lia.
From S2P Require Import Prelude JsString.
Local Open Scope Z_scope.


(** UTF-16 code units as code points; a lone surrogate becomes U+FFFD. *)
Fixpoint code_points (s : jsstr) : list Z :=
  match s with
  | [] => []
  | c :: s' =>
      if (0xD800 <=? c) && (c <=? 0xDBFF) then
        match s' with
        | d :: s'' =>
            if (0xDC00 <=? d) && (d <=? 0xDFFF)
            then (0x10000 + (c - 0xD800) * 0x400 + (d - 0xDC00)) :: code_points s''
            else 0xFFFD :: code_points s'
        | [] => [0xFFFD]
        end
      else if (0xDC00 <=? c) && (c <=? 0xDFFF) then 0xFFFD :: code_points s'
      else c :: code_points s'
  end.

Definition utf8_encode (c : Z) : list Z :=
  if c <? 0x80 then [c]
  else if c <? 0x800 then [0xC0 + c / 64; 0x80 + c mod 64]
  else if c <? 0x10000 then [0xE0 + c / 4096; 0x80 + c / 64 mod 64; 0x80 + c mod 64]
  else [0xF0 + c / 262144; 0x80 + c / 4096 mod 64; 0x80 + c / 64 mod 64; 0x80 + c mod 64].

Lemma utf8_encode_bytes c : 0 <= c < 0x110000 -> Forall (fun b => 0 <= b < 256) (utf8_encode c).
Proof.
  intros Hc. unfold utf8_encode. repeat case_match; bool_prop; repeat constructor;
    Z.to_euclidean_division_equations; lia.
Qed.

(** Unicode scalar values. *)
Definition scalar (c : Z) : Prop := 0 <= c < 0xD800 \/ 0xE000 <= c < 0x110000.

Definition utf8 (cps : list Z) : list Z := concat (map utf8_encode cps).
Definition utf16 (cps : list Z) : jsstr := concat (map utf16_encode cps).

(** [new TextEncoder().encode(s)]. *)
Definition text_encode (s : jsstr) : list Z := utf8 (code_points s).

(** ** The UTF-8 decoder of the Encoding standard

    The state is the code point under construction, the number of bytes still
    needed and the bounds for the next one; [None] is a decoding error. *)

Record decoder := { cp : Z; needed : nat; lower : Z; upper : Z }.

Definition fresh : decoder := {| cp := 0; needed := 0; lower := 0x80; upper := 0xBF |}.

Definition lead (b : Z) : decoder * list (option Z) :=
  if b <=? 0x7F then (fresh, [Some b])
  else if (0xC2 <=? b) && (b <=? 0xDF) then ({| cp := b mod 32; needed := 1; lower := 0x80; upper := 0xBF |}, [])
  else if (0xE0 <=? b) && (b <=? 0xEF) then
    ({| cp := b mod 16; needed := 2; lower := if b =? 0xE0 then 0xA0 else 0x80; upper := if b =? 0xED then 0x9F else 0xBF |}, [])
  else if (0xF0 <=? b) && (b <=? 0xF4) then
    ({| cp := b mod 8; needed := 3; lower := if b =? 0xF0 then 0x90 else 0x80; upper := if b =? 0xF4 then 0x8F else 0xBF |}, [])
  else (fresh, [None]).

Definition decode_byte (d : decoder) (b : Z) : decoder * list (option Z) :=
  match needed d with
  | O => lead b
  | S n =>
      if (b <? lower d) || (upper d <? b) then
        let '(d', out) := lead b in (d', None :: out)
      else
        let c := cp d * 64 + b mod 64 in
        match n with
        | O => (fresh, [Some c])
        | S _ => ({| cp := c; needed := n; lower := 0x80; upper := 0xBF |}, [])
        end
  end.

Fixpoint decode_bytes (d : decoder) (bs : list Z) : list (option Z) :=
  match bs with
  | [] => match needed d with O => [] | S _ => [None] end
  | b :: bs' => let '(d', out) := decode_byte d b in out ++ decode_bytes d' bs'
  end.

Definition utf8_decode (bs : list Z) : list (option Z) := decode_bytes fresh bs.

(** [new TextDecoder('utf8').decode(bytes)]: a leading byte order mark is removed
    and an error becomes U+FFFD. *)
Definition strip_bom (cps : list Z) : list Z :=
  match cps with c :: r => if c =? 0xFEFF then r else cps | [] => [] end.

Definition text_decode (bs : list Z) : jsstr :=
  utf16 (strip_bom (map (fun o => match o with Some c => c | None => 0xFFFD end) (utf8_decode bs))).

(** With [ignoreBOM] and [fatal]: the mark is kept and an error throws. *)
Definition text_decode_fatal (bs : list Z) : result jsstr :=
  let out := utf8_decode bs in
  if forallb (fun o => match o with Some _ => true | None => false end) out
  then Ok (utf16 (map (fun o => match o with Some c => c | None => 0 end) out))
  else Throw (PlatformError "TypeError").

(** ** Lemmas *)

Lemma scalar_range c : scalar c -> 0 <= c < 0x110000.
Proof. unfold scalar. lia. Qed.

Lemma utf8_app a b : utf8 (a ++ b) = utf8 a ++ utf8 b.
Proof. unfold utf8. by rewrite map_app, concat_app. Qed.

Lemma code_points_utf16 cps : Forall scalar cps -> code_points (utf16 cps) = cps.
Proof.
  induction 1 as [|c cps Hc _ IH]; [done|]. unfold utf16 in *. cbn [map concat]. unfold utf16_encode, scalar in *.
  destruct (c <? 0x10000) eqn:E; bool_prop; cbn [app code_points].
  - repeat (rewrite ?(proj2 (Z.leb_gt _ _)) by lia; cbn [andb]).
    destruct ((0xD800 <=? c) && (c <=? 0xDBFF)) eqn:E1; bool_prop; [lia|].
    destruct ((0xDC00 <=? c) && (c <=? 0xDFFF)) eqn:E2; bool_prop; [lia|]. by rewrite IH.
  - set (h := 0xD800 + (c - 0x10000) / 0x400). set (l := 0xDC00 + (c - 0x10000) mod 0x400).
    assert (Hh : 0xD800 <= h <= 0xDBFF) by (subst h; Z.to_euclidean_division_equations; lia).
    assert (Hl : 0xDC00 <= l <= 0xDFFF) by (subst l; Z.to_euclidean_division_equations; lia).
    rewrite !(proj2 (Z.leb_le _ _)) by lia. cbn [andb]. rewrite IH. f_equal. subst h l.
    Z.to_euclidean_division_equations; lia.
Qed.

(** Comparisons decided by [lia]. *)
Ltac zbool :=
  repeat (match goal with
  | |- context [?a <=? ?b] => first [rewrite (proj2 (Z.leb_le a b)) by lia | rewrite (proj2 (Z.leb_gt a b)) by lia]
  | |- context [?a <? ?b] => first [rewrite (proj2 (Z.ltb_lt a b)) by lia | rewrite (proj2 (Z.ltb_ge a b)) by lia]
  | |- context [?a =? ?b] => first [rewrite (proj2 (Z.eqb_eq a b)) by lia | rewrite (proj2 (Z.eqb_neq a b)) by lia]
  end; cbn [andb orb negb]).

Lemma decode_cont n c lo hi b :
  lo <= b <= hi -> 0x80 <= b <= 0xBF ->
  decode_byte {| cp := c; needed := S n; lower := lo; upper := hi |} b =
  match n with
  | O => (fresh, [Some (c * 64 + (b - 0x80))])
  | S _ => ({| cp := c * 64 + (b - 0x80); needed := n; lower := 0x80; upper := 0xBF |}, [])
  end.
Proof.
  intros Hb Hc. unfold decode_byte. cbn [needed lower upper cp]. zbool.
  by replace (b mod 64) with (b - 0x80) by (Z.to_euclidean_division_equations; lia).
Qed.

Lemma decode_encode_one c rest :
  scalar c -> decode_bytes fresh (utf8_encode c ++ rest) = Some c :: decode_bytes fresh rest.
Proof.
  unfold scalar, utf8_encode. intros Hc.
  destruct (c <? 0x80) eqn:E1; bool_prop; [|destruct (c <? 0x800) eqn:E2; bool_prop; [|destruct (c <? 0x10000) eqn:E3; bool_prop]].
  - cbn. unfold decode_byte, lead. cbn [needed fresh]. by zbool.
  - assert (exists q r, c / 64 = q /\ c mod 64 = r /\ c = 64 * q + r /\ 0 <= r < 64) as (q & r & -> & -> & -> & Hr)
      by (eexists _, _; repeat split; Z.to_euclidean_division_equations; lia).
    cbn [app decode_bytes]. unfold decode_byte at 1, lead. cbn [needed fresh]. zbool. cbn [app].
    rewrite decode_cont by lia. cbn [app]. do 2 f_equal.
    replace ((0xC0 + q) mod 32) with q by (Z.to_euclidean_division_equations; lia). lia.
  - assert (exists q r s, c / 4096 = q /\ c / 64 mod 64 = r /\ c mod 64 = s /\ c = 4096 * q + 64 * r + s /\ 0 <= r < 64 /\ 0 <= s < 64)
      as (q & r & s & -> & -> & -> & -> & Hr & Hs) by (eexists _, _, _; repeat split; Z.to_euclidean_division_equations; lia).
    cbn [app decode_bytes]. unfold decode_byte at 1, lead. cbn [needed fresh].
    destruct (Z.eqb_spec (0xE0 + q) 0xE0); destruct (Z.eqb_spec (0xE0 + q) 0xED); try (exfalso; lia); zbool; cbn [app];
      rewrite decode_cont by lia; cbn [app]; rewrite decode_cont by lia; cbn [app]; do 2 f_equal;
      replace ((0xE0 + q) mod 16) with q by (Z.to_euclidean_division_equations; lia); lia.
  - assert (exists p q r s, c / 262144 = p /\ c / 4096 mod 64 = q /\ c / 64 mod 64 = r /\ c mod 64 = s
              /\ c = 262144 * p + 4096 * q + 64 * r + s /\ 0 <= q < 64 /\ 0 <= r < 64 /\ 0 <= s < 64)
      as (p & q & r & s & -> & -> & -> & -> & -> & Hq & Hr & Hs)
      by (eexists _, _, _, _; repeat split; Z.to_euclidean_division_equations; lia).
    cbn [app decode_bytes]. unfold decode_byte at 1, lead. cbn [needed fresh].
    destruct (Z.eqb_spec (0xF0 + p) 0xF0); destruct (Z.eqb_spec (0xF0 + p) 0xF4); try (exfalso; lia); zbool; cbn [app];
      do 3 (rewrite decode_cont by lia; cbn [app]); do 2 f_equal;
      replace ((0xF0 + p) mod 8) with p by (Z.to_euclidean_division_equations; lia); lia.
Qed.

Lemma utf8_decode_encode cps : Forall scalar cps -> utf8_decode (utf8 cps) = map Some cps.
Proof.
  unfold utf8_decode, utf8. induction 1 as [|c cps Hc _ IH]; [done|]. cbn [map concat].
  by rewrite decode_encode_one, IH.
Qed.

(** What is encoded is decoded again, up to a byte order mark. *)
Lemma text_decode_encode cps : Forall scalar cps -> text_decode (utf8 cps) = utf16 (strip_bom cps).
Proof. intros H. unfold text_decode. by rewrite utf8_decode_encode, map_map, map_id. Qed.

Lemma text_decode_fatal_encode cps : Forall scalar cps -> text_decode_fatal (utf8 cps) = Ok (utf16 cps).
Proof.
  intros H. unfold text_decode_fatal. rewrite utf8_decode_encode, map_map, map_id by done.
  replace (forallb _ (map Some cps)) with true; [done|]. clear H. by induction cps.
Qed.
