(* ===== verification/Base64.v ===== *)
(** * Base64: [atob], [btoa] and the URL alphabet

    [atob] and [btoa] follow the forgiving-base64 algorithms of the WHATWG
    Infra and HTML standards; the source reaches them from [virtualHostname],
    [localBinaryDataResponse], [randomControlID] and [ws_key].  Binary strings
    are strings whose code units are bytes. *)

From stdpp Require Import base list numbers strings sets.
From Stdlib Require Import ZArith Lia.
From S2P Require Import Prelude JsString.
Local Open Scope Z_scope.

Definition is_byte (b : Z) : Prop := 0 <= b < 256.
Definition is_byteb (b : Z) : bool := (0 <=? b) && (b <? 256).

(** ** The alphabet *)

Definition b64_char (d : Z) : Z :=
  if d <? 26 then 65 + d
  else if d <? 52 then 97 + (d - 26)
  else if d <? 62 then 48 + (d - 52)
  else if d =? 62 then 43 else 47.

Definition b64_digit (c : Z) : option Z :=
  if is_upper c then Some (c - 65)
  else if is_lower c then Some (c - 97 + 26)
  else if is_digit c then Some (c - 48 + 52)
  else if c =? 43 then Some 62
  else if c =? 47 then Some 63
  else None.

(** ** Sextets and bytes *)

Fixpoint b64_sextets (bs : list Z) : list Z :=
  match bs with
  | x :: y :: z :: r =>
      x / 4 :: (x mod 4) * 16 + y / 16 :: (y mod 16) * 4 + z / 64 :: z mod 64 :: b64_sextets r
  | [x; y] => [x / 4; (x mod 4) * 16 + y / 16; (y mod 16) * 4]
  | [x] => [x / 4; (x mod 4) * 16]
  | [] => []
  end.

Fixpoint b64_bytes (ds : list Z) : list Z :=
  match ds with
  | a :: b :: c :: d :: r =>
      a * 4 + b / 16 :: (b mod 16) * 16 + c / 4 :: (c mod 4) * 64 + d :: b64_bytes r
  | [a; b; c] => [a * 4 + b / 16; (b mod 16) * 16 + c / 4]
  | [a; b] => [a * 4 + b / 16]
  | [_] | [] => []
  end.

(** ** [atob] *)

Definition is_ascii_space (c : Z) : bool :=
  (c =? 9) || (c =? 10) || (c =? 12) || (c =? 13) || (c =? 32).

(** Up to two trailing ['='] of a string whose length is a multiple of 4. *)
Definition strip_padding (s : jsstr) : jsstr :=
  if Z.of_nat (length s) mod 4 =? 0
  then match rev s with
       | 61 :: 61 :: r => rev r
       | 61 :: r => rev r
       | _ => s
       end
  else s.

Fixpoint b64_digits (s : jsstr) : option (list Z) :=
  match s with
  | [] => Some []
  | c :: s' =>
      match b64_digit c, b64_digits s' with
      | Some d, Some ds => Some (d :: ds)
      | _, _ => None
      end
  end.

Definition atob (s : jsstr) : result jsstr :=
  let s1 := strip_padding (List.filter (fun c => negb (is_ascii_space c)) s) in
  if Z.of_nat (length s1) mod 4 =? 1 then Throw (PlatformError "InvalidCharacterError")
  else match b64_digits s1 with
       | Some ds => Ok (b64_bytes ds)
       | None => Throw (PlatformError "InvalidCharacterError")
       end.

(** ** [btoa] *)

Definition b64_pad (n : nat) : jsstr :=
  match (n mod 3)%nat with
  | 1%nat => [61; 61]
  | 2%nat => [61]
  | _ => []
  end.

Definition btoa (s : jsstr) : result jsstr :=
  if forallb is_byteb s then Ok (map b64_char (b64_sextets s) ++ b64_pad (length s))
  else Throw (PlatformError "InvalidCharacterError").

(** ** The URL alphabet: ['-'] and ['_'] for ['+'] and ['/'], no padding *)

Definition url_char (c : Z) : Z := if c =? 43 then 45 else if c =? 47 then 95 else c.

Definition base64url (bs : list Z) : jsstr := map (fun d => url_char (b64_char d)) (b64_sextets bs).

(** ** Lemmas: the alphabet *)

Lemma b64_digit_char d : 0 <= d < 64 -> b64_digit (b64_char d) = Some d.
Proof.
  intros Hd. unfold b64_digit, b64_char, is_upper, is_lower, is_digit.
  repeat case_match; bool_prop; first [f_equal; lia | exfalso; lia].
Qed.

Lemma b64_char_ascii d : 0 <= d < 64 -> 43 <= b64_char d <= 122 /\ b64_char d <> 61.
Proof. intros Hd. unfold b64_char. repeat case_match; bool_prop; lia. Qed.

(** The URL characters: letters, digits, ['-'] and ['_']. *)
Definition is_url_char (c : Z) : bool :=
  is_upper c || is_lower c || is_digit c || (c =? 45) || (c =? 95).

Lemma url_char_ok d : 0 <= d < 64 -> is_url_char (url_char (b64_char d)) = true.
Proof.
  intros Hd. unfold is_url_char, url_char, b64_char, is_upper, is_lower, is_digit.
  repeat case_match; bool_prop; lia.
Qed.

Lemma b64_digit_range c d : b64_digit c = Some d -> 0 <= d < 64.
Proof.
  unfold b64_digit, is_upper, is_lower, is_digit.
  repeat case_match; bool_prop; intros [= <-]; lia.
Qed.

(** ** Lemmas: sextets *)

(** Induction by groups of three, the shape of the encoder. *)
Lemma list_ind3 {A} (P : list A -> Prop) :
  P [] -> (forall x, P [x]) -> (forall x y, P [x; y]) ->
  (forall x y z r, P r -> P (x :: y :: z :: r)) -> forall l, P l.
Proof.
  intros H0 H1 H2 H3. fix go 1.
  intros [|x [|y [|z r]]]; [apply H0 | apply H1 | apply H2 | apply H3, go].
Qed.

Lemma sextets_range bs : Forall is_byte bs -> Forall (fun d => 0 <= d < 64) (b64_sextets bs).
Proof.
  induction bs as [|x|x y|x y z r IH] using list_ind3; intros H; cbn [b64_sextets];
    repeat match goal with H : Forall _ (_ :: _) |- _ => inv H end;
    repeat constructor; unfold is_byte in *; try (Z.to_euclidean_division_equations; lia); auto.
Qed.

Lemma bytes_sextets bs : Forall is_byte bs -> b64_bytes (b64_sextets bs) = bs.
Proof.
  induction bs as [|x|x y|x y z r IH] using list_ind3; intros H; cbn [b64_sextets b64_bytes];
    repeat match goal with H : Forall _ (_ :: _) |- _ => inv H end;
    [done | | |rewrite IH by done];
    unfold is_byte in *; repeat f_equal; Z.to_euclidean_division_equations; lia.
Qed.

Lemma sextets_length bs :
  (3 * length (b64_sextets bs) = 4 * length bs + match (length bs mod 3)%nat with 0 => 0 | 1 => 2 | _ => 1 end)%nat.
Proof.
  induction bs as [|x|x y|x y z r IH] using list_ind3; cbn [b64_sextets length]; try done.
  replace (S (S (S (length r))) mod 3)%nat with (length r mod 3)%nat; [lia|].
  replace (S (S (S (length r)))) with (length r + 1 * 3)%nat by lia.
  by rewrite Nat.Div0.mod_add.
Qed.

Lemma b64_digits_chars ds :
  Forall (fun d => 0 <= d < 64) ds -> b64_digits (map b64_char ds) = Some ds.
Proof.
  induction 1 as [|d ds Hd _ IH]; cbn; [done|].
  by rewrite b64_digit_char, IH.
Qed.

Lemma b64_digits_range s ds : b64_digits s = Some ds -> Forall (fun d => 0 <= d < 64) ds.
Proof.
  revert ds. induction s as [|c s IH]; cbn; intros ds H; [by inv H|].
  repeat case_match; inv H. constructor; eauto using b64_digit_range.
Qed.

Lemma b64_bytes_byte ds :
  Forall (fun d => 0 <= d < 64) ds -> Forall is_byte (b64_bytes ds).
Proof.
  assert (Hind : forall n l, (length l <= n)%nat -> Forall (fun d => 0 <= d < 64) l -> Forall is_byte (b64_bytes l)).
  { induction n as [|n IH]; intros [|a [|b [|c [|d r]]]] Hn Hl; cbn in Hn; try lia;
      cbn [b64_bytes]; repeat match goal with H : Forall _ (_ :: _) |- _ => inv H end;
      repeat constructor; unfold is_byte; try (Z.to_euclidean_division_equations; lia).
    apply IH; [lia | done]. }
  intros H. by apply (Hind (length ds)).
Qed.

Lemma b64_char_not_space d : 0 <= d < 64 -> is_ascii_space (b64_char d) = false.
Proof. intros H. pose proof (b64_char_ascii d H). unfold is_ascii_space. lia. Qed.

Lemma filter_b64 ds :
  Forall (fun d => 0 <= d < 64) ds ->
  List.filter (fun c => negb (is_ascii_space c)) (map b64_char ds) = map b64_char ds.
Proof.
  induction 1 as [|d ds Hd _ IH]; cbn; [done|].
  by rewrite b64_char_not_space, IH.
Qed.

(** ['='] is not a digit, so stripping stops at the first digit from the end. *)
Lemma rev_b64_hd ds c r :
  Forall (fun d => 0 <= d < 64) ds -> rev (map b64_char ds) = c :: r -> c <> 61.
Proof.
  intros H E. rewrite <- map_rev in E. apply Forall_rev in H.
  destruct (rev ds) as [|d l]; [done|]. inv H. cbn in E. inv E.
  by apply b64_char_ascii.
Qed.

Lemma strip_padding_app ds k :
  Forall (fun d => 0 <= d < 64) ds -> (k <= 2)%nat ->
  (Z.of_nat (length ds + k) mod 4 = 0) ->
  strip_padding (map b64_char ds ++ repeat 61 k) = map b64_char ds.
Proof.
  intros H Hk Hm. unfold strip_padding.
  rewrite length_app, length_map, repeat_length.
  rewrite (proj2 (Z.eqb_eq _ _) Hm), rev_app_distr.
  destruct k as [|[|[|k]]]; [| | |lia]; cbn [repeat rev app].
  - rewrite app_nil_r. destruct (rev (map b64_char ds)) as [|c r] eqn:E; [done|].
    pose proof (rev_b64_hd _ _ _ H E). by repeat case_match; simplify_eq.
  - destruct (rev (map b64_char ds)) as [|c r] eqn:E.
    + apply (f_equal (@rev Z)) in E. rewrite rev_involutive in E. by rewrite E.
    + pose proof (rev_b64_hd _ _ _ H E).
      apply (f_equal (@rev Z)) in E. rewrite rev_involutive in E. rewrite E.
      repeat case_match; simplify_eq; done.
  - apply rev_involutive.
Qed.

Lemma strip_padding_none s : Z.of_nat (length s) mod 4 <> 0 -> strip_padding s = s.
Proof. intros H. unfold strip_padding. by rewrite (proj2 (Z.eqb_neq _ _) H). Qed.

(** ** Decoding what was encoded *)

(** [atob] of a text that is, white space aside, digits followed by [k] padding
    characters, when the padded length is a multiple of 4. *)
Lemma atob_spaced s ds k :
  List.filter (fun c => negb (is_ascii_space c)) s = map b64_char ds ++ repeat 61 k ->
  Forall (fun d => 0 <= d < 64) ds -> (k <= 2)%nat ->
  Z.of_nat (length ds + k) mod 4 = 0 ->
  atob s = Ok (b64_bytes ds).
Proof.
  intros Hf H Hk Hm. unfold atob.
  rewrite Hf, strip_padding_app, length_map, b64_digits_chars by done.
  case_match; [|done]. bool_prop. exfalso. Z.to_euclidean_division_equations; lia.
Qed.

Lemma atob_padded ds k :
  Forall (fun d => 0 <= d < 64) ds -> (k <= 2)%nat ->
  Z.of_nat (length ds + k) mod 4 = 0 ->
  atob (map b64_char ds ++ repeat 61 k) = Ok (b64_bytes ds).
Proof.
  intros H Hk Hm. apply (atob_spaced _ ds k); try done.
  rewrite List.filter_app, filter_b64 by done. f_equal.
  clear Hm. induction k as [|k IH]; cbn; [done|]. rewrite IH by lia. done.
Qed.

Lemma b64_pad_repeat n : b64_pad n = repeat 61 ((3 - n mod 3) mod 3)%nat.
Proof.
  unfold b64_pad. pose proof (Nat.mod_upper_bound n 3).
  by destruct (n mod 3)%nat as [|[|[|]]]; [| | |lia].
Qed.

Lemma sextets_padded bs :
  Z.of_nat (length (b64_sextets bs) + (3 - length bs mod 3) mod 3) mod 4 = 0.
Proof.
  pose proof (sextets_length bs) as H. pose proof (Nat.mod_upper_bound (length bs) 3).
  pose proof (Nat.div_mod_eq (length bs) 3).
  destruct (length bs mod 3)%nat as [|[|[|]]]; [| | |lia]; cbn [Nat.sub Nat.modulo Nat.divmod fst snd];
    Z.to_euclidean_division_equations; lia.
Qed.

Lemma atob_btoa bs :
  Forall is_byte bs -> rbind (btoa bs) atob = Ok bs.
Proof.
  intros H. unfold btoa.
  assert (Hb : forallb is_byteb bs = true).
  { apply forallb_forall. intros x Hx. rewrite List.Forall_forall in H.
    specialize (H x Hx). unfold is_byte, is_byteb in *. lia. }
  rewrite Hb. cbn [rbind]. rewrite b64_pad_repeat, atob_padded.
  - by rewrite bytes_sextets.
  - by apply sextets_range.
  - pose proof (Nat.mod_upper_bound (3 - length bs mod 3) 3). lia.
  - apply sextets_padded.
Qed.

(** The two replacements of the source turn the URL alphabet back. *)
Lemma unurl_char d : 0 <= d < 64 ->
  (fun x => if x =? 95 then 47 else x) ((fun x => if x =? 45 then 43 else x) (url_char (b64_char d)))
  = b64_char d.
Proof.
  intros H. cbv beta. unfold url_char, b64_char. repeat case_match; bool_prop; lia.
Qed.

Lemma unurl_base64url bs :
  Forall is_byte bs ->
  replace_char 95 47 (replace_char 45 43 (base64url bs)) = map b64_char (b64_sextets bs).
Proof.
  intros H. unfold replace_char, base64url. rewrite !map_map.
  apply map_ext_in. intros d Hd. apply unurl_char.
  pose proof (sextets_range bs H) as Hr. rewrite List.Forall_forall in Hr. by apply Hr.
Qed.

Lemma base64url_chars bs :
  Forall is_byte bs -> Forall (fun c => is_url_char c = true) (base64url bs).
Proof.
  intros H. unfold base64url. apply List.Forall_map.
  eapply List.Forall_impl; [|by apply sextets_range]. apply url_char_ok.
Qed.

Lemma base64url_inj bs1 bs2 :
  Forall is_byte bs1 -> Forall is_byte bs2 -> base64url bs1 = base64url bs2 -> bs1 = bs2.
Proof.
  intros H1 H2 E.
  apply (f_equal (fun s => replace_char 95 47 (replace_char 45 43 s))) in E.
  rewrite !unurl_base64url in E by done.
  apply (f_equal b64_digits) in E.
  rewrite !b64_digits_chars in E by (by apply sextets_range). injection E as E.
  rewrite <- (bytes_sextets bs1), <- (bytes_sextets bs2) by done. by rewrite E.
Qed.

(** Everything [atob] returns is a binary string. *)
Lemma atob_bytes s bs : atob s = Ok bs -> Forall is_byte bs.
Proof.
  unfold atob. case_match; [done|]. case_match; [|done]. intros [= <-].
  eauto using b64_bytes_byte, b64_digits_range.
Qed.

(** A digit string is the encoding of its digits. *)
Lemma b64_digits_inv s ds : b64_digits s = Some ds -> s = map b64_char ds.
Proof.
  revert ds. induction s as [|c s IH]; cbn; intros ds H; [by inv H|].
  destruct (b64_digit c) as [d|] eqn:Ed; [|done].
  destruct (b64_digits s) as [ds'|]; [|done]. inv H. cbn. f_equal; [|by apply IH].
  revert Ed. unfold b64_digit, b64_char, is_upper, is_lower, is_digit.
  repeat case_match; intros [= <-]; bool_prop; repeat case_match; bool_prop; lia.
Qed.

(** The number of bytes determines the number of digits. *)
Lemma b64_bytes_length ds :
  (length (b64_bytes ds) = 3 * (length ds / 4) + (length ds mod 4 - 1))%nat.
Proof.
  assert (Hind : forall n l, (length l <= n)%nat ->
            (length (b64_bytes l) = 3 * (length l / 4) + (length l mod 4 - 1))%nat).
  { induction n as [|n IH]; intros [|a [|b [|c [|d r]]]] Hn; cbn [length] in *; try lia;
      cbn [b64_bytes length]; try reflexivity.
    rewrite IH by lia.
    replace (S (S (S (S (length r))))) with (length r + 1 * 4)%nat by lia.
    rewrite Nat.div_add, Nat.Div0.mod_add by lia. lia. }
  by apply (Hind (length ds)).
Qed.
