(* ===== verification/Virtual.v ===== *)
(** * The synthetic authority of a service ([web/src/virtual.ts])

    [virtualHostname] turns a 128-bit service identifier (base64url) into the
    host name the browser sends over Wisp.  The loop keeps its accumulator in a
    32-bit integer that overflows after four bytes; the theorems show that the
    label is nevertheless the RFC 4648 base32 text of the 16 bytes, that it is
    the name the OpenWrt Agent computes ([internal/agent/policy.go]) and that
    distinct services never share a name. *)

From stdpp Require Import base list numbers strings sets.
From Stdlib Require Import ZArith Lia.
From S2P Require Import Prelude JsString Base64.
Local Open Scope Z_scope.

(** ** The code *)

Definition alphabet : jsstr := js "ABCDEFGHIJKLMNOPQRSTUVWXYZ234567".

(** [alphabet[i]], appended to a string. *)
Definition alphabet_at (i : Z) : jsstr :=
  match alphabet !! Z.to_nat i with
  | Some c => [c]
  | None => js "undefined"
  end.

(** [while (bits >= 5) { label += alphabet[(value >>> (bits - 5)) & 31]; bits -= 5; }] *)
Fixpoint emit_groups (fuel : nat) (value bits : Z) (label : jsstr) : Z * jsstr :=
  match fuel with
  | O => (bits, label)
  | S f =>
      if 5 <=? bits
      then emit_groups f value (bits - 5)
             (label ++ alphabet_at (js_and (js_ushr value (bits - 5)) 31))
      else (bits, label)
  end.

(** The body of [for (const byte of bytes)]: the inner loop runs at most
    [bits] times. *)
Definition absorb_byte (st : Z * Z * jsstr) (byte : Z) : Z * Z * jsstr :=
  let '(value, bits, label) := st in
  let value := js_or (js_shl value 8) byte in
  let bits := bits + 8 in
  let '(bits, label) := emit_groups (Z.to_nat bits) value bits label in
  (value, bits, label).

Definition base32_label (bytes : list Z) : jsstr :=
  let '(value, bits, label) := fold_left absorb_byte bytes (0, 0, []) in
  if bits =? 0 then label
  else label ++ alphabet_at (js_and (js_shl value (5 - bits)) 31).

Definition virtualHostname `{UnicodeCase} (id : jsstr) : result jsstr :=
  let? binary := atob (replace_char 95 47 (replace_char 45 43 id) ++ js "==") in
  let bytes := map (fun c => c mod 256) binary in
  if negb (length bytes =? 16)%nat then Throw (ErrorMsg (js "服务标识不是 128 位值"))
  else Ok (js "s-" ++ toLowerCase (base32_label bytes) ++ js ".webvpn.invalid").

(** ** The Agent's side: [virtualHostname] of [internal/agent/policy.go]

    [base64.RawURLEncoding.DecodeString] skips CR and LF and ignores the unused
    low bits of the last digit.  [base32.StdEncoding] without padding writes the
    bytes, read as one big-endian number and filled up with zero bits, in base 32. *)

Definition rawurl_digit (c : Z) : option Z :=
  if is_upper c then Some (c - 65)
  else if is_lower c then Some (c - 97 + 26)
  else if is_digit c then Some (c - 48 + 52)
  else if c =? 45 then Some 62
  else if c =? 95 then Some 63
  else None.

Definition rawurl_decode (s : jsstr) : option (list Z) :=
  let s := List.filter (fun c => negb ((c =? 10) || (c =? 13))) s in
  match mapM rawurl_digit s with
  | Some ds => if Z.of_nat (length ds) mod 4 =? 1 then None else Some (b64_bytes ds)
  | None => None
  end.

(** The [k] least significant base-32 digits of [n], most significant first. *)
Fixpoint digits32 (n : Z) (k : nat) : list Z :=
  match k with
  | O => []
  | S k' => digits32 (n / 32) k' ++ [n mod 32]
  end.

Definition be_value (bytes : list Z) : Z := fold_left (fun acc b => acc * 256 + b) bytes 0.

(** Number of base-32 digits of [n] bytes and zero bits added to fill them. *)
Definition base32_len (n : nat) : nat := ((8 * n + 4) / 5)%nat.
Definition base32_fill (n : nat) : Z := 5 * Z.of_nat (base32_len n) - 8 * Z.of_nat n.

Definition base32_char (d : Z) : Z := if d <? 26 then 65 + d else 50 + (d - 26).

Definition rfc4648_base32 (bytes : list Z) : jsstr :=
  map base32_char
    (digits32 (be_value bytes * 2 ^ base32_fill (length bytes)) (base32_len (length bytes))).

Definition agent_virtualHostname (serviceID : jsstr) : option jsstr :=
  match rawurl_decode serviceID with
  | Some raw => Some (js "s-" ++ map lower_char (rfc4648_base32 raw) ++ js ".webvpn.invalid")
  | None => None
  end.

(** ** The loop computes base 32 *)

Lemma alphabet_at_char i : 0 <= i < 32 -> alphabet_at i = [base32_char i].
Proof.
  intros H. assert (Hi : i = Z.of_nat (Z.to_nat i)) by lia.
  assert (Hn : (Z.to_nat i < 32)%nat) by lia. rewrite Hi. revert Hn.
  generalize (Z.to_nat i) as n. intros n Hn.
  do 32 (destruct n as [|n]; [vm_compute; reflexivity|]). lia.
Qed.

Lemma land31 x : Z.land x 31 = x mod 32.
Proof. change 31 with (Z.ones 5). by rewrite Z.land_ones. Qed.

(** Reading five bits of the 32-bit accumulator reads them of the exact value. *)
Lemma five_bits value V s :
  value mod 2 ^ 32 = V mod 2 ^ 32 -> 0 <= s -> s + 5 <= 32 ->
  js_and (js_ushr value s) 31 = (V / 2 ^ s) mod 32.
Proof.
  intros Hv Hs H5. unfold js_and, js_ushr. rewrite (to_int32_small 31) by lia.
  rewrite (to_uint32_small s), (Z.mod_small s 32) by lia.
  rewrite <- (Z.shiftr_div_pow2 V), <- land31 by lia.
  apply Z.bits_inj'. intros n Hn. rewrite !Z.land_spec.
  change 31 with (Z.ones 5). destruct (Z_lt_dec n 5) as [Hn5|Hn5].
  - rewrite to_int32_testbit, !Z.shiftr_spec by lia. f_equal.
    rewrite to_uint32_testbit by lia.
    rewrite <- (Z.mod_pow2_bits_low value 32), Hv, Z.mod_pow2_bits_low by lia. done.
  - by rewrite Z.ones_spec_high, !andb_false_r by lia.
Qed.

(** The inner loop moves the pending groups of five bits to the label. *)
Lemma emit_groups_spec fuel value V bits label k :
  value mod 2 ^ 32 = V mod 2 ^ 32 ->
  0 <= bits <= 32 -> (Z.to_nat bits <= fuel)%nat ->
  label = map base32_char (digits32 (V / 2 ^ bits) k) ->
  exists j, emit_groups fuel value bits label
            = (bits - 5 * Z.of_nat j, map base32_char (digits32 (V / 2 ^ (bits - 5 * Z.of_nat j)) (k + j)))
            /\ 0 <= bits - 5 * Z.of_nat j < 5.
Proof.
  revert bits label k. induction fuel as [|f IH]; intros bits label k Hv Hb Hf Hl; cbn [emit_groups].
  - exists 0%nat. rewrite Hl. replace (bits - 5 * Z.of_nat 0) with bits by lia.
    split; [do 3 f_equal; lia | lia].
  - destruct (Z.leb_spec 5 bits) as [H5|H5].
    + destruct (IH (bits - 5) (label ++ alphabet_at (js_and (js_ushr value (bits - 5)) 31)) (S k))
        as (j & Hj & Hr); [done|lia|lia| |].
      * rewrite (five_bits value V) by (done || lia).
        rewrite alphabet_at_char by (apply Z.mod_pos_bound; lia).
        cbn [digits32]. rewrite map_app, Hl. cbn [map]. do 3 f_equal.
        rewrite Z.div_div by lia. f_equal.
        replace 32 with (2 ^ 5) by done. rewrite <- Z.pow_add_r by lia. f_equal; lia.
      * exists (S j). rewrite Hj. split; [|lia].
        replace (bits - 5 * Z.of_nat (S j)) with (bits - 5 - 5 * Z.of_nat j) by lia.
        do 3 f_equal. lia.
    + exists 0%nat. rewrite Hl. replace (bits - 5 * Z.of_nat 0) with bits by lia.
      split; [do 3 f_equal; lia | lia].
Qed.

(** [(value << 8) | byte] keeps the exact value modulo 2^32. *)
Lemma shl8_or_byte value V byte :
  value mod 2 ^ 32 = V mod 2 ^ 32 -> is_byte byte ->
  js_or (js_shl value 8) byte mod 2 ^ 32 = (V * 256 + byte) mod 2 ^ 32.
Proof.
  intros Hv Hb. unfold is_byte in Hb.
  assert (Hlow : forall i, 0 <= i < 32 -> Z.testbit value i = Z.testbit V i).
  { intros i Hi. rewrite <- (Z.mod_pow2_bits_low value 32), Hv, Z.mod_pow2_bits_low by lia. done. }
  assert (Hsum : V * 256 + byte = Z.lor (Z.shiftl V 8) byte).
  { replace 256 with (2 ^ 8) by done. apply shiftl_add_lor; lia. }
  rewrite Hsum. apply Z.bits_inj'. intros n Hn.
  destruct (Z_lt_dec n 32); [|by rewrite !Z.mod_pow2_bits_high by lia].
  rewrite !Z.mod_pow2_bits_low by lia. unfold js_or, js_shl.
  rewrite (to_uint32_small 8), (Z.mod_small 8 32) by lia.
  rewrite !Z.lor_spec, !to_int32_testbit, !Z.shiftl_spec by lia. f_equal.
  destruct (Z_lt_dec n 8); [by rewrite !Z.testbit_neg_r by lia|].
  rewrite to_int32_testbit by lia. apply Hlow. lia.
Qed.

(** The last, partial group. *)
Lemma last_group value V s :
  value mod 2 ^ 32 = V mod 2 ^ 32 -> 0 <= s < 5 ->
  js_and (js_shl value s) 31 = (V * 2 ^ s) mod 32.
Proof.
  intros Hv Hs. unfold js_and, js_shl. rewrite (to_int32_small 31) by lia.
  rewrite (to_uint32_small s), (Z.mod_small s 32), <- land31, <- Z.shiftl_mul_pow2 by lia.
  change 31 with (Z.ones 5).
  apply Z.bits_inj'. intros n Hn. rewrite !Z.land_spec.
  destruct (Z_lt_dec n 5); [|by rewrite Z.ones_spec_high, !andb_false_r by lia].
  rewrite !to_int32_testbit, !Z.shiftl_spec by lia. f_equal.
  destruct (Z_lt_dec n s); [by rewrite !Z.testbit_neg_r by lia|].
  rewrite to_int32_testbit by lia.
  rewrite <- (Z.mod_pow2_bits_low value 32), Hv, Z.mod_pow2_bits_low by lia. done.
Qed.

(** The loop invariant: the label holds the leading groups, the accumulator the
    exact value modulo 2^32, and fewer than five bits are pending. *)
Lemma absorb_bytes bytes :
  Forall is_byte bytes ->
  exists value bits k,
    fold_left absorb_byte bytes (0, 0, [])
      = (value, bits, map base32_char (digits32 (be_value bytes / 2 ^ bits) k))
    /\ value mod 2 ^ 32 = be_value bytes mod 2 ^ 32
    /\ 0 <= bits < 5 /\ 8 * Z.of_nat (length bytes) = 5 * Z.of_nat k + bits.
Proof.
  induction bytes as [|b bytes IH] using rev_ind; intros H.
  - exists 0, 0, 0%nat. by repeat split.
  - apply Forall_app in H as [H Hb]. inv Hb.
    destruct (IH H) as (value & bits & k & Hf & Hv & Hr & Hk).
    rewrite fold_left_app, Hf. unfold be_value in *. rewrite fold_left_app. cbn [fold_left].
    set (V := fold_left (fun acc b => acc * 256 + b) bytes 0) in *.
    pose proof (shl8_or_byte value V b Hv ltac:(done)) as Hv'.
    destruct (emit_groups_spec (Z.to_nat (bits + 8)) (js_or (js_shl value 8) b) (V * 256 + b)
                (bits + 8) (map base32_char (digits32 (V / 2 ^ bits) k)) k) as (j & Hj & Hr'); [done|lia|lia| |].
    + do 2 f_equal. rewrite Z.pow_add_r, (Z.mul_comm (2 ^ bits)), <- Z.div_div by lia.
      f_equal. unfold is_byte in *. Z.to_euclidean_division_equations; lia.
    + unfold absorb_byte. rewrite Hj. do 3 eexists. split; [reflexivity|].
      rewrite length_app. cbn [length]. repeat split; try done; lia.
Qed.

Lemma base32_label_rfc bytes :
  Forall is_byte bytes -> base32_label bytes = rfc4648_base32 bytes.
Proof.
  intros H. destruct (absorb_bytes bytes H) as (value & bits & k & Hf & Hv & Hr & Hk).
  unfold base32_label. rewrite Hf. unfold rfc4648_base32, base32_fill, base32_len.
  case_match; bool_prop.
  - subst bits. replace ((8 * length bytes + 4) / 5)%nat with k.
    + replace (5 * Z.of_nat k - _) with 0 by lia. by rewrite Z.mul_1_r, Z.div_1_r.
    + apply Nat.div_unique with 4%nat; lia.
  - replace ((8 * length bytes + 4) / 5)%nat with (S k)
      by (apply Nat.div_unique with (Z.to_nat (bits - 1)); lia).
    replace (5 * Z.of_nat (S k) - _) with (5 - bits) by lia.
    rewrite (last_group value (be_value bytes)) by (done || lia).
    rewrite alphabet_at_char by (apply Z.mod_pos_bound; lia).
    cbn [digits32]. rewrite map_app. cbn [map]. do 3 f_equal.
    replace 32 with (2 ^ bits * 2 ^ (5 - bits)) at 1
      by (rewrite <- Z.pow_add_r by lia; replace (bits + (5 - bits)) with 5 by lia; done).
    by rewrite Z.div_mul_cancel_r by (apply Z.pow_nonzero; lia).
Qed.

(** ** Decoding the identifier *)

Lemma rawurl_digit_char c d :
  rawurl_digit c = Some d ->
  0 <= d < 64 /\ (fun x => if x =? 95 then 47 else x) ((fun x => if x =? 45 then 43 else x) c) = b64_char d.
Proof.
  unfold rawurl_digit, b64_char, is_upper, is_lower, is_digit.
  repeat case_match; intros [= <-]; bool_prop; split; try lia;
    repeat case_match; bool_prop; lia.
Qed.

(** The browser's replacements and [atob]'s white-space removal see the digits
    Go's decoder sees. *)
Lemma replaced_digits id ds :
  mapM rawurl_digit (List.filter (fun c => negb ((c =? 10) || (c =? 13))) id) = Some ds ->
  Forall (fun d => 0 <= d < 64) ds /\
  List.filter (fun c => negb (is_ascii_space c)) (replace_char 95 47 (replace_char 45 43 id))
  = map b64_char ds.
Proof.
  revert ds. induction id as [|c id IH]; intros ds; cbn [List.filter].
  - intros [= <-]. done.
  - destruct ((c =? 10) || (c =? 13)) eqn:Ec; cbn [negb].
    + intros H. destruct (IH _ H) as [Hr Hf]. split; [done|].
      unfold replace_char in *. cbn [map List.filter].
      assert (c = 10 \/ c = 13) as [-> | ->] by lia; cbn; exact Hf.
    + cbn [mapM]. intros H. apply bind_Some in H as (d & Hd & H).
      apply bind_Some in H as (ds' & Hds & H). inv H.
      destruct (IH _ Hds) as [Hr Hf]. destruct (rawurl_digit_char c d Hd) as [Hdr Hc].
      split; [by constructor|]. unfold replace_char in *. cbn [map List.filter].
      cbv beta in Hc. rewrite Hc, b64_char_not_space by done. cbn [negb]. by rewrite Hf.
Qed.

Lemma atob_rawurl id raw :
  rawurl_decode id = Some raw -> length raw = 16%nat ->
  atob (replace_char 95 47 (replace_char 45 43 id) ++ js "==") = Ok raw /\ Forall is_byte raw.
Proof.
  unfold rawurl_decode. destruct (mapM _ _) as [ds|] eqn:E; [|done].
  case_match; [done|]. intros [= <-] Hlen.
  destruct (replaced_digits id ds E) as [Hr Hf].
  rewrite b64_bytes_length in Hlen.
  assert (length ds = 22)%nat as H22.
  { pose proof (Nat.div_mod_eq (length ds) 4). pose proof (Nat.mod_upper_bound (length ds) 4). lia. }
  split; [|by apply b64_bytes_byte].
  apply (atob_spaced _ ds 2); [|done|lia|by rewrite H22].
  rewrite List.filter_app, Hf. reflexivity.
Qed.

Lemma map_mod_bytes bs : Forall is_byte bs -> map (fun c => c mod 256) bs = bs.
Proof.
  induction 1 as [|b bs Hb _ IH]; cbn; [done|].
  rewrite IH, Z.mod_small by done. done.
Qed.

Lemma base32_char_ascii d : 0 <= d < 32 -> is_ascii (base32_char d) = true.
Proof. intros H. unfold base32_char, is_ascii. case_match; bool_prop; lia. Qed.

Lemma digits32_range n k : Forall (fun d => 0 <= d < 32) (digits32 n k).
Proof.
  revert n. induction k as [|k IH]; intros n; cbn; [constructor|].
  apply Forall_app. split; [apply IH|]. repeat constructor; apply Z.mod_pos_bound; lia.
Qed.

Lemma digits32_length n k : length (digits32 n k) = k.
Proof. revert n. induction k as [|k IH]; intros n; cbn; [done|]. rewrite length_app, IH. cbn. lia. Qed.

Lemma rfc_ascii bytes : ascii_only (rfc4648_base32 bytes) = true.
Proof.
  unfold ascii_only, rfc4648_base32. apply forallb_forall. intros c Hc.
  apply in_map_iff in Hc as (d & <- & Hd). apply base32_char_ascii.
  pose proof (digits32_range (be_value bytes * 2 ^ base32_fill (length bytes)) (base32_len (length bytes))) as H.
  rewrite List.Forall_forall in H. by apply H.
Qed.

(** ** What [virtualHostname] returns *)

Lemma virtualHostname_spec `{UnicodeCase} id bytes :
  atob (replace_char 95 47 (replace_char 45 43 id) ++ js "==") = Ok bytes ->
  virtualHostname id =
    if (length bytes =? 16)%nat
    then Ok (js "s-" ++ map lower_char (rfc4648_base32 bytes) ++ js ".webvpn.invalid")
    else Throw (ErrorMsg (js "服务标识不是 128 位值")).
Proof.
  intros Ha. unfold virtualHostname. rewrite Ha. cbn [rbind].
  rewrite map_mod_bytes by (by eapply atob_bytes).
  destruct (length bytes =? 16)%nat; cbn [negb]; [|done].
  rewrite base32_label_rfc by (by eapply atob_bytes).
  unfold toLowerCase. by rewrite rfc_ascii.
Qed.

(** ** Injectivity *)

Lemma be_value_app l b : be_value (l ++ [b]) = be_value l * 256 + b.
Proof. unfold be_value. by rewrite fold_left_app. Qed.

Lemma be_value_bound l : Forall is_byte l -> 0 <= be_value l < 256 ^ Z.of_nat (length l).
Proof.
  induction l as [|b l IH] using rev_ind; intros H; [cbn; lia|].
  apply Forall_app in H as [H Hb]. inv Hb. specialize (IH H).
  rewrite be_value_app, length_app. cbn [length]. rewrite Nat2Z.inj_add, Z.pow_add_r by lia.
  unfold is_byte in *. lia.
Qed.

Lemma be_value_inj l1 l2 :
  Forall is_byte l1 -> Forall is_byte l2 -> length l1 = length l2 ->
  be_value l1 = be_value l2 -> l1 = l2.
Proof.
  revert l2. induction l1 as [|b1 l1 IH] using rev_ind; intros l2 H1 H2 Hl Hv.
  - destruct l2; [done | cbn in Hl; lia].
  - destruct l2 as [|b2 l2 _] using rev_ind; [rewrite length_app in Hl; cbn in Hl; lia|].
    apply Forall_app in H1 as [H1 Hb1], H2 as [H2 Hb2]. inv Hb1. inv Hb2.
    rewrite !be_value_app in Hv. rewrite !length_app in Hl. cbn in Hl.
    unfold is_byte in *. rewrite (IH l2) by (done || lia). do 2 f_equal. lia.
Qed.

Lemma digits32_inj k n m :
  0 <= n < 32 ^ Z.of_nat k -> 0 <= m < 32 ^ Z.of_nat k ->
  digits32 n k = digits32 m k -> n = m.
Proof.
  revert n m. induction k as [|k IH]; intros n m Hn Hm E; [cbn in *; lia|].
  cbn [digits32] in E. apply app_inj_tail in E as [E1 E2].
  rewrite Nat2Z.inj_succ, Z.pow_succ_r in * by lia.
  apply IH in E1; [| Z.to_euclidean_division_equations; lia ..].
  Z.to_euclidean_division_equations; lia.
Qed.

Lemma lower_base32_inj d1 d2 :
  0 <= d1 < 32 -> 0 <= d2 < 32 ->
  lower_char (base32_char d1) = lower_char (base32_char d2) -> d1 = d2.
Proof.
  intros H1 H2. unfold lower_char, base32_char, is_upper. repeat case_match; bool_prop; lia.
Qed.

Lemma map_inj_on {A B} (P : A -> Prop) (f : A -> B) l1 l2 :
  (forall x y, P x -> P y -> f x = f y -> x = y) ->
  Forall P l1 -> Forall P l2 -> map f l1 = map f l2 -> l1 = l2.
Proof.
  intros Hf H1. revert l2. induction H1 as [|x l1 Hx _ IH]; intros [|y l2] H2 E; cbn in E; try done.
  injection E as E1 E2. inv H2. f_equal; auto.
Qed.

Lemma rfc_lower_inj b1 b2 :
  Forall is_byte b1 -> Forall is_byte b2 -> length b1 = 16%nat -> length b2 = 16%nat ->
  map lower_char (rfc4648_base32 b1) = map lower_char (rfc4648_base32 b2) -> b1 = b2.
Proof.
  intros H1 H2 L1 L2 E. apply be_value_inj; [done|done|congruence|].
  unfold rfc4648_base32 in E. rewrite !map_map, L1, L2 in E.
  apply (map_inj_on (fun d => 0 <= d < 32)) in E; [|apply lower_base32_inj|apply digits32_range ..].
  apply digits32_inj in E; [change (2 ^ base32_fill 16) with 4 in E; lia | |];
    change (2 ^ base32_fill 16) with 4; change (32 ^ Z.of_nat (base32_len 16)) with (4 * 256 ^ 16).
  - pose proof (be_value_bound b1 H1) as B. rewrite L1 in B. cbn [Z.of_nat] in B. lia.
  - pose proof (be_value_bound b2 H2) as B. rewrite L2 in B. lia.
Qed.

(** ** Properties *)

(** C3. The browser and the Agent agree on the name of every service: whenever Go's
    decoder reads a 16-byte identifier, both functions return the same host. *)
Theorem virtualHostname_agrees_with_agent `{UnicodeCase} (id : jsstr) (raw : list Z) :
  rawurl_decode id = Some raw -> length raw = 16%nat ->
  exists host, virtualHostname id = Ok host /\ agent_virtualHostname id = Some host.
Proof.
  intros Hd Hl. destruct (atob_rawurl id raw Hd Hl) as [Ha Hb].
  eexists. split.
  - rewrite (virtualHostname_spec _ _ Ha), Hl. reflexivity.
  - unfold agent_virtualHostname. by rewrite Hd.
Qed.

Theorem virtualHostname_agrees_witness :
  exists host, virtualHostname (H := ascii_case) (js "AQIDBAUGBwgJCgsMDQ4PEA") = Ok host
               /\ agent_virtualHostname (js "AQIDBAUGBwgJCgsMDQ4PEA") = Some host.
Proof.
  apply (virtualHostname_agrees_with_agent (H := ascii_case) _ [1;2;3;4;5;6;7;8;9;10;11;12;13;14;15;16]);
    vm_compute; reflexivity.
Defined.

Example virtualHostname_test :
  virtualHostname (H := ascii_case) (js "AQIDBAUGBwgJCgsMDQ4PEA")
  = Ok (js "s-aebagbafaydqqcikbmga2dqpca.webvpn.invalid").
Proof. vm_compute. reflexivity. Qed.

(** C13. Names identify services: two identifiers with the same host name decode to
    the same 16 bytes. *)
Theorem virtualHostname_injective `{UnicodeCase} (id1 id2 host : jsstr) :
  virtualHostname id1 = Ok host -> virtualHostname id2 = Ok host ->
  exists bytes, length bytes = 16%nat
    /\ atob (replace_char 95 47 (replace_char 45 43 id1) ++ js "==") = Ok bytes
    /\ atob (replace_char 95 47 (replace_char 45 43 id2) ++ js "==") = Ok bytes.
Proof.
  intros H1 H2.
  destruct (atob (replace_char 95 47 (replace_char 45 43 id1) ++ js "==")) as [b1|] eqn:A1;
    [|unfold virtualHostname in H1; by rewrite A1 in H1].
  destruct (atob (replace_char 95 47 (replace_char 45 43 id2) ++ js "==")) as [b2|] eqn:A2;
    [|unfold virtualHostname in H2; by rewrite A2 in H2].
  rewrite (virtualHostname_spec _ _ A1) in H1. rewrite (virtualHostname_spec _ _ A2) in H2.
  destruct (length b1 =? 16)%nat eqn:L1; [|done]. destruct (length b2 =? 16)%nat eqn:L2; [|done].
  apply Nat.eqb_eq in L1, L2. exists b1. split; [done|]. split; [done|]. f_equal.
  assert (E : map lower_char (rfc4648_base32 b1) = map lower_char (rfc4648_base32 b2)).
  { injection H1 as <-. injection H2 as E. by apply app_inv_tail in E. }
  symmetry. eauto using rfc_lower_inj, atob_bytes.
Qed.

Theorem virtualHostname_injective_witness :
  exists bytes, length bytes = 16%nat
    /\ atob (replace_char 95 47 (replace_char 45 43 (js "AQIDBAUGBwgJCgsMDQ4PEA")) ++ js "==") = Ok bytes
    /\ atob (replace_char 95 47 (replace_char 45 43 (js "AQIDBAUGBwgJCgsMDQ4PEB")) ++ js "==") = Ok bytes.
Proof.
  apply (virtualHostname_injective (H := ascii_case) _ _ (js "s-aebagbafaydqqcikbmga2dqpca.webvpn.invalid"));
    vm_compute; reflexivity.
Defined.

(** A character of a base32 label in lower case. *)
Definition is_label_char (c : Z) : bool := is_lower c || ((50 <=? c) && (c <=? 55)).

(** The two outcomes of [virtualHostname]. *)
Lemma virtualHostname_forms `{UnicodeCase} (id : jsstr) :
  match virtualHostname id with
  | Ok host => exists label, host = js "s-" ++ label ++ js ".webvpn.invalid"
                 /\ length label = 26%nat /\ forallb is_label_char label = true
  | Throw e => e = ErrorMsg (js "服务标识不是 128 位值") \/ e = PlatformError "InvalidCharacterError"
  end.
Proof.
  destruct (atob (replace_char 95 47 (replace_char 45 43 id) ++ js "==")) as [b|e] eqn:A.
  - rewrite (virtualHostname_spec _ _ A). destruct (length b =? 16)%nat eqn:L; [|by left].
    apply Nat.eqb_eq in L. eexists. split; [reflexivity|].
    unfold rfc4648_base32. rewrite !length_map, digits32_length, L. split; [done|].
    apply forallb_forall. intros c Hc. rewrite map_map in Hc. apply in_map_iff in Hc as (d & <- & Hd).
    pose proof (digits32_range (be_value b * 2 ^ base32_fill 16) (base32_len 16)) as Hr.
    rewrite List.Forall_forall in Hr. specialize (Hr d Hd).
    unfold is_label_char, lower_char, base32_char, is_upper, is_lower. repeat case_match; bool_prop; lia.
  - unfold virtualHostname. rewrite A. cbn [rbind]. right. revert A. unfold atob.
    repeat case_match; congruence.
Qed.

(** The result is always the fixed suffix under one DNS label of 28 characters
    drawn from [a-z], [2-7] and the leading [s-]; every other decoding throws. *)
Theorem virtualHostname_shape `{UnicodeCase} (id : jsstr) :
  match virtualHostname id with
  | Ok host => exists label, host = js "s-" ++ label ++ js ".webvpn.invalid"
                 /\ length label = 26%nat /\ forallb is_label_char label = true
  | Throw e => e = ErrorMsg (js "服务标识不是 128 位值") \/ e = PlatformError "InvalidCharacterError"
  end.
Proof. apply virtualHostname_forms. Qed.
