(* ===== verification/Regex.v ===== *)
(** * Regular expressions

    The regular expressions of the source use character classes, sequence,
    alternatives, greedy and lazy repetition of a class, the anchors [^] and [$] (without
    the [m] flag), the word boundary [\b] and capture groups.  A matcher state
    holds the text already passed (reversed), the text ahead and the captures.
    [run] lists the states a pattern can reach, in the order a backtracking
    engine tries them; [exec] takes the first match at the leftmost start. *)

From stdpp Require Import base list numbers strings sets.
From Stdlib Require Import ZArith Lia.
From S2P Require Import Prelude JsString.
Local Open Scope Z_scope.

Inductive regex :=
| RSet (f : Z -> bool)          (* one character of a class *)
| RStar (f : Z -> bool)         (* greedy [class]* *)
| REps
| RSeq (a b : regex)
| RAlt (a b : regex)
| RBol                          (* ^ *)
| REol                          (* $ *)
| RWordB                        (* \b *)
| RGroup (a : regex)            (* ( ... ) *)
| RLazy (f : Z -> bool).        (* lazy [class]*? *)

Record rstate := RState {
  passed : jsstr;               (* reversed *)
  ahead : jsstr;
  caps : list jsstr
}.

Definition word_at (c : option Z) : bool :=
  match c with Some c => is_word c | None => false end.

(** Greedy repetition: the longest first. *)
Fixpoint run_star (f : Z -> bool) (p a : jsstr) (cs : list jsstr) : list rstate :=
  match a with
  | c :: a' =>
      if f c then run_star f (c :: p) a' cs ++ [RState p a cs] else [RState p a cs]
  | [] => [RState p [] cs]
  end.

Fixpoint run (r : regex) (s : rstate) : list rstate :=
  match r with
  | RSet f =>
      match ahead s with
      | c :: a => if f c then [RState (c :: passed s) a (caps s)] else []
      | [] => []
      end
  | RStar f => run_star f (passed s) (ahead s) (caps s)
  | REps => [s]
  | RSeq a b => flat_map (run b) (run a s)
  | RAlt a b => run a s ++ run b s
  | RBol => match passed s with [] => [s] | _ => [] end
  | REol => match ahead s with [] => [s] | _ => [] end
  | RWordB =>
      if eqb (word_at (head (passed s))) (word_at (head (ahead s))) then [] else [s]
  | RGroup a =>
      map (fun s' => RState (passed s') (ahead s')
                       (caps s' ++ [rev (take (length (passed s') - length (passed s)) (passed s'))]))
          (run a s)
  | RLazy f => rev (run_star f (passed s) (ahead s) (caps s))
  end.

(** The first match that starts at the leftmost possible position: the text
    before it (reversed) and the state after it. *)
Fixpoint exec_from (r : regex) (p a : jsstr) : option (jsstr * rstate) :=
  match run r (RState p a []) with
  | s :: _ => Some (p, s)
  | [] => match a with
          | c :: a' => exec_from r (c :: p) a'
          | [] => None
          end
  end.

Definition exec (r : regex) (s : jsstr) : option (jsstr * rstate) := exec_from r [] s.

(** [r.test(s)] *)
Definition test (r : regex) (s : jsstr) : bool :=
  match exec r s with Some _ => true | None => false end.

(** [s.match(r)[1]], the first capture of the first match. *)
Definition match1 (r : regex) (s : jsstr) : option jsstr :=
  match exec r s with
  | Some (_, st) => head (caps st)
  | None => None
  end.

(** [s.replace(r, "")] with the [g] flag, for a pattern that never matches the
    empty text: every match is removed, and the search goes on behind it. *)
Fixpoint delete_all_from (fuel : nat) (r : regex) (p a : jsstr) : jsstr :=
  match fuel with
  | O => a
  | S f =>
      match run r (RState p a []) with
      | s :: _ =>
          if (length (ahead s) <? length a)%nat then delete_all_from f r (passed s) (ahead s)
          else match a with
               | c :: a' => c :: delete_all_from f r (c :: p) a'
               | [] => []
               end
      | [] => match a with
              | c :: a' => c :: delete_all_from f r (c :: p) a'
              | [] => []
              end
      end
  end.

Definition delete_all (r : regex) (s : jsstr) : jsstr := delete_all_from (S (length s)) r [] s.

(** ** Building patterns *)

(** A literal character, with and without the [i] flag.  Without the [u] flag
    case folding never relates an ASCII character to another one, so the ASCII
    case pairs are exact for an ASCII literal. *)
Definition chr (c : Z) : Z -> bool := fun d => d =? c.
Definition chr_i (c : Z) : Z -> bool := fun d => lower_char d =? lower_char c.

Fixpoint lit (f : Z -> Z -> bool) (s : jsstr) : regex :=
  match s with
  | [] => REps
  | c :: s' => RSeq (RSet (f c)) (lit f s')
  end.

Definition rplus (f : Z -> bool) : regex := RSeq (RSet f) (RStar f).

Fixpoint rseq (l : list regex) : regex :=
  match l with
  | [] => REps
  | [r] => r
  | r :: l' => RSeq r (rseq l')
  end.

(** ** The language of a pattern *)

(** [Matches r p t a]: with [p] (reversed) before it and [a] behind it, the text
    [t] can be consumed by [r]. *)
Inductive Matches : regex -> jsstr -> jsstr -> jsstr -> Prop :=
| MSet f p c a : f c = true -> Matches (RSet f) p [c] a
| MStar f p t a : forallb f t = true -> Matches (RStar f) p t a
| MEps p a : Matches REps p [] a
| MSeq r1 r2 p t1 t2 a :
    Matches r1 p t1 (t2 ++ a) -> Matches r2 (rev t1 ++ p) t2 a -> Matches (RSeq r1 r2) p (t1 ++ t2) a
| MAltL r1 r2 p t a : Matches r1 p t a -> Matches (RAlt r1 r2) p t a
| MAltR r1 r2 p t a : Matches r2 p t a -> Matches (RAlt r1 r2) p t a
| MBol a : Matches RBol [] [] a
| MEol p : Matches REol p [] []
| MWordB p a : word_at (head p) <> word_at (head a) -> Matches RWordB p [] a
| MGroup r p t a : Matches r p t a -> Matches (RGroup r) p t a
| MLazy f p t a : forallb f t = true -> Matches (RLazy f) p t a.

Lemma run_star_spec f p a cs s :
  In s (run_star f p a cs) <->
  exists t, a = t ++ ahead s /\ passed s = rev t ++ p /\ forallb f t = true /\ caps s = cs.
Proof.
  revert p. induction a as [|c a IH]; intros p; cbn.
  - split.
    + intros [<-|[]]. by exists [].
    + intros (t & Ht & Hp & _ & Hc). symmetry in Ht. apply app_nil in Ht as [-> Ht].
      left. destruct s; cbn in *; congruence.
  - destruct (f c) eqn:E.
    + rewrite in_app_iff, IH. split.
      * intros [(t & -> & Hp & Hf & Hc) | [<-|[]]].
        -- exists (c :: t). cbn. rewrite Hp, E, Hf, <- app_assoc. done.
        -- by exists [].
      * intros ([|d t] & Ht & Hp & Hf & Hc); cbn in *.
        -- right. left. destruct s; cbn in *; congruence.
        -- injection Ht as -> ->. left. exists t. rewrite <- app_assoc in Hp.
           bool_prop. done.
    + split.
      * intros [<-|[]]. by exists [].
      * intros ([|d t] & Ht & Hp & Hf & Hc); cbn in *.
        -- left. destruct s; cbn in *; congruence.
        -- injection Ht as -> ->. bool_prop. congruence.
Qed.

(** The matcher is sound: every state it lists comes from a match. *)
Lemma run_sound r s s' :
  In s' (run r s) -> exists t, ahead s = t ++ ahead s' /\ passed s' = rev t ++ passed s
                               /\ Matches r (passed s) t (ahead s').
Proof.
  revert s s'. induction r as [f|f| |r1 IH1 r2 IH2|r1 IH1 r2 IH2| | | |r IH|f]; intros s s' H; cbn in H.
  - destruct (ahead s) as [|c a] eqn:E; [done|]. destruct (f c) eqn:Ef; [|done].
    destruct H as [<-|[]]. exists [c]. by repeat constructor.
  - apply run_star_spec in H as (t & Ha & Hp & Hf & _). exists t. by repeat constructor.
  - destruct H as [<-|[]]. exists []. by repeat constructor.
  - apply in_flat_map in H as (s1 & H1 & H2).
    destruct (IH1 _ _ H1) as (t1 & Ha1 & Hp1 & M1). destruct (IH2 _ _ H2) as (t2 & Ha2 & Hp2 & M2).
    exists (t1 ++ t2). rewrite Ha1, Ha2, Hp2, Hp1, rev_app_distr, <- !app_assoc.
    split; [done|]. split; [done|]. constructor; [by rewrite <- Ha2 | by rewrite <- Hp1].
  - apply in_app_iff in H as [H|H]; [destruct (IH1 _ _ H) as (t & ?) | destruct (IH2 _ _ H) as (t & ?)];
      exists t; naive_solver eauto using MAltL, MAltR.
  - destruct (passed s) eqn:E; [|done]. destruct H as [<-|[]]. exists []. rewrite E. by repeat constructor.
  - destruct (ahead s) eqn:E; [|done]. destruct H as [<-|[]]. exists []. rewrite E. by repeat constructor.
  - destruct (eqb _ _) eqn:E; [done|]. destruct H as [<-|[]]. exists [].
    apply eqb_false_iff in E. by repeat constructor.
  - apply in_map_iff in H as (s1 & <- & H1). destruct (IH _ _ H1) as (t & Ha & Hp & M).
    exists t. cbn. by repeat constructor.
  - apply in_rev, run_star_spec in H as (t & Ha & Hp & Hf & _). exists t. by repeat constructor.
Qed.

(** The matcher is complete: every match is among its states. *)
Lemma run_complete r p t a cs :
  Matches r p t a -> exists cs', In (RState (rev t ++ p) a cs') (run r (RState p (t ++ a) cs)).
Proof.
  intros M. revert cs. induction M; intros cs; cbn.
  - rewrite H. exists cs. by left.
  - exists cs. apply run_star_spec. by exists t.
  - exists cs. by left.
  - destruct (IHM1 cs) as (cs1 & H1). destruct (IHM2 cs1) as (cs2 & H2).
    exists cs2. apply in_flat_map. rewrite rev_app_distr, <- !app_assoc. eauto.
  - destruct (IHM cs) as (cs1 & H1). exists cs1. apply in_app_iff. by left.
  - destruct (IHM cs) as (cs1 & H1). exists cs1. apply in_app_iff. by right.
  - exists cs. by left.
  - exists cs. by left.
  - exists cs. destruct (eqb _ _) eqn:E; [|by left]. apply eqb_prop in E. done.
  - destruct (IHM cs) as (cs1 & H1). eexists. apply in_map_iff. exists (RState (rev t ++ p) a cs1). done.
  - exists cs. rewrite <- in_rev. apply run_star_spec. by exists t.
Qed.

(** ** [test] decides whether some part of the text matches *)

Lemma exec_from_some r p a :
  is_Some (exec_from r p a) <->
  exists u t v, a = u ++ t ++ v /\ Matches r (rev u ++ p) t v.
Proof.
  revert p. induction a as [|c a IH]; intros p; cbn.
  - destruct (run r (RState p [] [])) as [|s l] eqn:E.
    + split; [intros [x Hx]; done|]. intros (u & t & v & Ha & M). symmetry in Ha.
      apply app_nil in Ha as [-> Ha]. apply app_nil in Ha as [-> ->].
      destruct (run_complete _ _ _ _ [] M) as (cs & Hin). cbn in Hin. by rewrite E in Hin.
    + split; [|intros _; by eexists]. intros _.
      destruct (run_sound r (RState p [] []) s) as (t & Ha & _ & M); [rewrite E; by left|].
      exists [], t, (ahead s). done.
  - destruct (run r (RState p (c :: a) [])) as [|s l] eqn:E.
    + rewrite IH. split.
      * intros (u & t & v & -> & M). exists (c :: u), t, v. cbn. by rewrite <- app_assoc.
      * intros ([|d u] & t & v & Ha & M).
        -- cbn in Ha, M. destruct (run_complete _ _ _ _ [] M) as (cs & Hin).
           rewrite <- Ha, E in Hin. done.
        -- cbn in Ha. injection Ha as -> ->. exists u, t, v. cbn in M. by rewrite <- app_assoc in M.
    + split; [|intros _; by eexists]. intros _.
      destruct (run_sound r (RState p (c :: a) []) s) as (t & Ha & _ & M); [rewrite E; by left|].
      exists [], t, (ahead s). done.
Qed.

Lemma test_spec r s :
  test r s = true <-> exists u t v, s = u ++ t ++ v /\ Matches r (rev u) t v.
Proof.
  unfold test, exec. pose proof (exec_from_some r [] s) as H.
  setoid_rewrite app_nil_r in H. rewrite <- H.
  destruct (exec_from r [] s); split; intros X; done.
Qed.

(** ** The language of the building blocks *)

Lemma Matches_seq r1 r2 p t a :
  Matches (RSeq r1 r2) p t a <->
  exists t1 t2, t = t1 ++ t2 /\ Matches r1 p t1 (t2 ++ a) /\ Matches r2 (rev t1 ++ p) t2 a.
Proof.
  split; [intros H; inv H; eauto|]. intros (t1 & t2 & -> & H1 & H2). by constructor.
Qed.

Lemma Matches_set f p t a : Matches (RSet f) p t a <-> exists c, t = [c] /\ f c = true.
Proof. split; [intros H; inv H; eauto|]. intros (c & -> & H). by constructor. Qed.

Lemma Matches_star f p t a : Matches (RStar f) p t a <-> forallb f t = true.
Proof. split; [intros H; by inv H | by constructor]. Qed.

Lemma Matches_lazy f p t a : Matches (RLazy f) p t a <-> forallb f t = true.
Proof. split; [intros H; by inv H | by constructor]. Qed.

Lemma Matches_eps p t a : Matches REps p t a <-> t = [].
Proof. split; [intros H; by inv H | intros ->; constructor]. Qed.

Lemma Matches_bol p t a : Matches RBol p t a <-> p = [] /\ t = [].
Proof. split; [intros H; by inv H | intros [-> ->]; constructor]. Qed.

Lemma Matches_eol p t a : Matches REol p t a <-> t = [] /\ a = [].
Proof. split; [intros H; by inv H | intros [-> ->]; constructor]. Qed.

Lemma Matches_wordb p t a :
  Matches RWordB p t a <-> t = [] /\ word_at (head p) <> word_at (head a).
Proof. split; [intros H; by inv H | intros [-> H]; by constructor]. Qed.

Lemma Matches_alt r1 r2 p t a :
  Matches (RAlt r1 r2) p t a <-> Matches r1 p t a \/ Matches r2 p t a.
Proof. split; [intros H; inv H; eauto | intros [H|H]; by constructor]. Qed.

Lemma Matches_group r p t a : Matches (RGroup r) p t a <-> Matches r p t a.
Proof. split; [intros H; by inv H | by constructor]. Qed.

Lemma Matches_lit f s p t a :
  Matches (lit f s) p t a <-> Forall2 (fun c d => f c d = true) s t.
Proof.
  revert p t. induction s as [|c s IH]; intros p t; cbn [lit].
  - rewrite Matches_eps. split; [intros -> | intros H; by inv H]. constructor.
  - rewrite Matches_seq. setoid_rewrite Matches_set. setoid_rewrite IH. split.
    + intros (t1 & t2 & -> & (d & -> & Hd) & H2). by constructor.
    + intros H. inv H. eexists [_], _. eauto.
Qed.

Lemma Matches_rplus f p t a :
  Matches (rplus f) p t a <-> t <> [] /\ forallb f t = true.
Proof.
  unfold rplus. rewrite Matches_seq. setoid_rewrite Matches_set. setoid_rewrite Matches_star. split.
  - intros (t1 & t2 & -> & (d & -> & Hd) & H2). cbn. by rewrite Hd, H2.
  - intros [Hne Hf]. destruct t as [|d t]; [done|]. cbn in Hf. bool_prop.
    exists [d], t. eauto.
Qed.

(** A case-sensitive literal matches only itself, a case-insensitive one its
    case variants. *)
Lemma lit_chr s t : Forall2 (fun c d => chr c d = true) s t <-> t = s.
Proof.
  split.
  - induction 1 as [|c d s t H _ IH]; [done|]. unfold chr in H. bool_prop. congruence.
  - intros ->. induction s; constructor; [apply Z.eqb_refl | done].
Qed.

Lemma lit_chr_i s t :
  Forall2 (fun c d => chr_i c d = true) s t <-> map lower_char t = map lower_char s.
Proof.
  split.
  - induction 1 as [|c d s t H _ IH]; [done|]. unfold chr_i in H. bool_prop. cbn. congruence.
  - revert t. induction s as [|c s IH]; intros [|d t] H; cbn in H; try discriminate; [constructor|].
    injection H as H1 H2. constructor; [unfold chr_i; by rewrite H1, Z.eqb_refl | auto].
Qed.

#[export] Hint Rewrite Matches_seq Matches_set Matches_star Matches_lazy Matches_eps Matches_bol Matches_eol
  Matches_wordb Matches_alt Matches_group Matches_lit Matches_rplus lit_chr lit_chr_i : regex.

(** ** The capture of a pattern with one group *)

Fixpoint group_free (r : regex) : bool :=
  match r with
  | RGroup _ => false
  | RSeq a b | RAlt a b => group_free a && group_free b
  | _ => true
  end.

Lemma run_caps r s s' : group_free r = true -> In s' (run r s) -> caps s' = caps s.
Proof.
  revert s s'. induction r as [f|f| |r1 IH1 r2 IH2|r1 IH1 r2 IH2| | | |r IH|f]; intros s s' Hg H; cbn in H, Hg.
  - destruct (ahead s) as [|c a]; [done|]. destruct (f c); [|done]. by destruct H as [<-|[]].
  - by apply run_star_spec in H as (t & _ & _ & _ & Hc).
  - by destruct H as [<-|[]].
  - bool_prop. apply in_flat_map in H as (s1 & H1' & H2'). rewrite (IH2 _ _ H1 H2'). by apply IH1.
  - bool_prop. apply in_app_iff in H as [H|H]; eauto.
  - destruct (passed s); [|done]. by destruct H as [<-|[]].
  - destruct (ahead s); [|done]. by destruct H as [<-|[]].
  - destruct (eqb _ _); [done|]. by destruct H as [<-|[]].
  - done.
  - by apply in_rev, run_star_spec in H as (t & _ & _ & _ & Hc).
Qed.

Lemma exec_from_run r p a q st :
  exec_from r p a = Some (q, st) -> exists u b, a = u ++ b /\ q = rev u ++ p /\ In st (run r (RState q b [])).
Proof.
  revert p. induction a as [|c a IH]; intros p; cbn; destruct (run r _) as [|s l] eqn:E; try done.
  - intros [= <- <-]. exists [], []. split; [done|]. split; [done|]. rewrite E. by left.
  - intros H. apply IH in H as (u & b & -> & -> & Hin). exists (c :: u), b. cbn. by rewrite <- app_assoc.
  - intros [= <- <-]. exists [], (c :: a). split; [done|]. split; [done|]. rewrite E. by left.
Qed.

(** [match1] of a pattern [r1 (r) r2] is a text [r] matches between matches of [r1]
    and [r2]. *)
Lemma match1_group r1 r r2 s g :
  group_free r1 = true -> group_free r = true -> group_free r2 = true ->
  match1 (RSeq r1 (RSeq (RGroup r) r2)) s = Some g ->
  exists u t1 t2 v, s = u ++ t1 ++ g ++ t2 ++ v
    /\ Matches r1 (rev u) t1 (g ++ t2 ++ v) /\ Matches r (rev t1 ++ rev u) g (t2 ++ v)
    /\ Matches r2 (rev g ++ rev t1 ++ rev u) t2 v.
Proof.
  intros G1 G G2. unfold match1, exec. destruct (exec_from _ [] s) as [[q st]|] eqn:E; [|done].
  apply exec_from_run in E as (u & b & -> & -> & Hin). rewrite app_nil_r in Hin. cbn [run] in Hin.
  apply in_flat_map in Hin as (s1 & H1 & Hin). apply in_flat_map in Hin as (s2 & H2 & H3).
  apply in_map_iff in H2 as (s2' & <- & H2).
  pose proof (run_caps _ _ _ G1 H1) as C1. pose proof (run_caps _ _ _ G H2) as C2. pose proof (run_caps _ _ _ G2 H3) as C3.
  apply run_sound in H1 as (t1 & A1 & P1 & M1). apply run_sound in H2 as (t & A2 & P2 & M2).
  apply run_sound in H3 as (t2 & A3 & P3 & M3). cbn in A1, P1, M1, A3, P3, M3, C1, C3.
  rewrite C3, C2, C1. cbn. intros [= <-].
  assert (Ht : rev (take (length (passed s2') - length (passed s1)) (passed s2')) = t).
  { rewrite P2, length_app, length_rev. replace (length t + length (passed s1) - length (passed s1))%nat with (length t) by lia.
    rewrite <- (length_rev t), take_app_length. apply rev_involutive. }
  rewrite Ht. exists u, t1, t2, (ahead st). rewrite <- P1, <- P2, <- A3, <- A2, <- A1. done.
Qed.

Lemma match1_some r1 r r2 s :
  group_free r1 = true -> group_free r = true -> group_free r2 = true ->
  test (RSeq r1 (RSeq (RGroup r) r2)) s = true -> is_Some (match1 (RSeq r1 (RSeq (RGroup r) r2)) s).
Proof.
  intros G1 G G2. unfold test, match1, exec. destruct (exec_from _ [] s) as [[q st]|] eqn:E; [|done]. intros _.
  apply exec_from_run in E as (u & b & _ & _ & Hin). cbn [run] in Hin.
  apply in_flat_map in Hin as (s1 & H1 & Hin). apply in_flat_map in Hin as (s2 & H2 & H3).
  apply in_map_iff in H2 as (s2' & <- & H2). pose proof (run_caps _ _ _ G2 H3) as C3.
  rewrite C3. cbn. rewrite (run_caps _ _ _ G H2), (run_caps _ _ _ G1 H1). cbn. by eexists.
Qed.
