(* ===== verification/Json.v ===== *)
(** * JSON

    [JSON.parse] and [JSON.stringify] as the source uses them.  A parsed number
    is kept as the exact decimal [m * 10^e] of its text: the source passes such
    numbers on without computing with them.  [stringify] covers the values the
    source sends: strings, integers and objects of these. *)

From stdpp Require Import base list numbers strings sets.
From Stdlib Require Import ZArith Lia.
From S2P Require Import Prelude JsString.
Local Open Scope Z_scope.

Inductive json :=
| JNull
| JBool (b : bool)
| JNum (m e : Z)
| JStr (s : jsstr)
| JArr (l : list json)
| JObj (fields : list (jsstr * json)).

(** ** Property access

    [v.name] for a name that no prototype defines: the last member with that
    name, [None] for [undefined].  Primitives and arrays have no such property. *)

Fixpoint last_field (name : jsstr) (fs : list (jsstr * json)) (acc : option json) : option json :=
  match fs with
  | [] => acc
  | (n, v) :: fs' => last_field name fs' (if str_eqb n name then Some v else acc)
  end.

Definition get_prop (v : json) (name : jsstr) : option json :=
  match v with
  | JObj fs => last_field name fs None
  | _ => None
  end.

(** [!v]: a number is falsy when it rounds to zero, that is at most half the
    least positive double. *)
Definition falsy (v : option json) : bool :=
  match v with
  | None | Some JNull | Some (JBool false) | Some (JStr []) => true
  | Some (JNum m e) => if 0 <=? e then m =? 0 else Z.abs m * 2 ^ 1075 <=? 10 ^ (- e)
  | _ => false
  end.

(** ** Parsing *)

Definition is_json_space (c : Z) : bool := (c =? 9) || (c =? 10) || (c =? 13) || (c =? 32).

Fixpoint skip_ws (s : jsstr) : jsstr :=
  match s with
  | c :: s' => if is_json_space c then skip_ws s' else s
  | [] => []
  end.

Definition hex_digit (c : Z) : option Z :=
  if is_digit c then Some (c - 48)
  else if (97 <=? c) && (c <=? 102) then Some (c - 87)
  else if (65 <=? c) && (c <=? 70) then Some (c - 55)
  else None.

Definition hex4 (a b c d : Z) : option Z :=
  match hex_digit a, hex_digit b, hex_digit c, hex_digit d with
  | Some a, Some b, Some c, Some d => Some (((a * 16 + b) * 16 + c) * 16 + d)
  | _, _, _, _ => None
  end.

(** The character a one-letter escape stands for. *)
Definition simple_escape (c : Z) : option Z :=
  if (c =? 34) || (c =? 92) || (c =? 47) then Some c
  else if c =? 98 then Some 8
  else if c =? 102 then Some 12
  else if c =? 110 then Some 10
  else if c =? 114 then Some 13
  else if c =? 116 then Some 9
  else None.

(** The characters of a string behind its opening quote. *)
Fixpoint parse_chars (s : jsstr) : option (jsstr * jsstr) :=
  match s with
  | [] => None
  | c :: s1 =>
      if c =? 34 then Some ([], s1)
      else if c <? 32 then None
      else if c =? 92 then
        match s1 with
        | [] => None
        | x :: s2 =>
            if x =? 117 then
              match s2 with
              | a :: b :: d :: e :: s3 =>
                  match hex4 a b d e, parse_chars s3 with
                  | Some u, Some (t, r) => Some (u :: t, r)
                  | _, _ => None
                  end
              | _ => None
              end
            else
              match simple_escape x, parse_chars s2 with
              | Some u, Some (t, r) => Some (u :: t, r)
              | _, _ => None
              end
        end
      else
        match parse_chars s1 with
        | Some (t, r) => Some (c :: t, r)
        | None => None
        end
  end.

(** The longest run of decimal digits, as a number and its length. *)
Fixpoint take_digits (s : jsstr) (acc : Z) (n : Z) : Z * Z * jsstr :=
  match s with
  | c :: s' => if is_digit c then take_digits s' (acc * 10 + (c - 48)) (n + 1) else (acc, n, s)
  | [] => (acc, n, [])
  end.

(** The fraction and exponent behind the integer part [m]. *)
Definition parse_exponent (neg : bool) (m e : Z) (s : jsstr) : option (json * jsstr) :=
  let m := if neg then - m else m in
  match s with
  | c :: s1 =>
      if (c =? 101) || (c =? 69) then
        let '(sg, s2) := match s1 with
                         | 43 :: r => (1, r)
                         | 45 :: r => (-1, r)
                         | _ => (1, s1)
                         end in
        let '(x, n, r) := take_digits s2 0 0 in
        if n =? 0 then None else Some (JNum m (e + sg * x), r)
      else Some (JNum m e, s)
  | [] => Some (JNum m e, s)
  end.

Definition parse_fraction (neg : bool) (m : Z) (s : jsstr) : option (json * jsstr) :=
  match s with
  | 46 :: s1 =>
      let '(m', n, r) := take_digits s1 m 0 in
      if n =? 0 then None else parse_exponent neg m' (- n) r
  | _ => parse_exponent neg m 0 s
  end.

Definition parse_number (s : jsstr) : option (json * jsstr) :=
  let '(neg, s1) := match s with 45 :: r => (true, r) | _ => (false, s) end in
  match s1 with
  | 48 :: s2 => parse_fraction neg 0 s2
  | c :: _ =>
      if is_digit c then let '(m, _, r) := take_digits s1 0 0 in parse_fraction neg m r else None
  | [] => None
  end.

Definition strip_prefix (p s : jsstr) : option jsstr :=
  if startsWith s p then Some (drop (length p) s) else None.

(** Values, array elements and object members; each call reads at least one
    character before it calls again, so the length of the text is enough fuel. *)
Fixpoint parse_value (fuel : nat) (s : jsstr) : option (json * jsstr) :=
  match fuel with
  | O => None
  | S f =>
      match skip_ws s with
      | [] => None
      | c :: r =>
          if c =? 34 then
            match parse_chars r with Some (t, r') => Some (JStr t, r') | None => None end
          else if c =? 123 then
            match skip_ws r with
            | 125 :: r' => Some (JObj [], r')
            | _ => match parse_members f r with Some (fs, r') => Some (JObj fs, r') | None => None end
            end
          else if c =? 91 then
            match skip_ws r with
            | 93 :: r' => Some (JArr [], r')
            | _ => match parse_elements f r with Some (l, r') => Some (JArr l, r') | None => None end
            end
          else if (c =? 45) || is_digit c then parse_number (c :: r)
          else
            match strip_prefix (js "true") (c :: r) with
            | Some r' => Some (JBool true, r')
            | None =>
            match strip_prefix (js "false") (c :: r) with
            | Some r' => Some (JBool false, r')
            | None =>
            match strip_prefix (js "null") (c :: r) with
            | Some r' => Some (JNull, r')
            | None => None
            end end end
      end
  end
with parse_elements (fuel : nat) (s : jsstr) : option (list json * jsstr) :=
  match fuel with
  | O => None
  | S f =>
      match parse_value f s with
      | Some (v, r) =>
          match skip_ws r with
          | 44 :: r' =>
              match parse_elements f r' with Some (l, r'') => Some (v :: l, r'') | None => None end
          | 93 :: r' => Some ([v], r')
          | _ => None
          end
      | None => None
      end
  end
with parse_members (fuel : nat) (s : jsstr) : option (list (jsstr * json) * jsstr) :=
  match fuel with
  | O => None
  | S f =>
      match skip_ws s with
      | 34 :: r =>
          match parse_chars r with
          | Some (name, r1) =>
              match skip_ws r1 with
              | 58 :: r2 =>
                  match parse_value f r2 with
                  | Some (v, r3) =>
                      match skip_ws r3 with
                      | 44 :: r4 =>
                          match parse_members f r4 with
                          | Some (fs, r5) => Some ((name, v) :: fs, r5)
                          | None => None
                          end
                      | 125 :: r4 => Some ([(name, v)], r4)
                      | _ => None
                      end
                  | None => None
                  end
              | _ => None
              end
          | None => None
          end
      | _ => None
      end
  end.

(** [JSON.parse(s)]; [None] is the SyntaxError. *)
Definition parse (s : jsstr) : option json :=
  match parse_value (2 * length s + 2) s with
  | Some (v, r) => match skip_ws r with [] => Some v | _ => None end
  | None => None
  end.

(** ** Printing *)

Definition hex_char (d : Z) : Z := if d <? 10 then 48 + d else 87 + d.

Definition unicode_escape (c : Z) : jsstr :=
  [92; 117; hex_char (c / 4096); hex_char (c / 256 mod 16); hex_char (c / 16 mod 16); hex_char (c mod 16)].

Definition is_high_surrogate (c : Z) : bool := (0xD800 <=? c) && (c <=? 0xDBFF).
Definition is_low_surrogate (c : Z) : bool := (0xDC00 <=? c) && (c <=? 0xDFFF).

(** QuoteJSONString: short escapes, control characters and lone surrogates
    escaped, everything else as it is. *)
Definition quote_char (c : Z) : jsstr :=
  if c =? 8 then [92; 98]
  else if c =? 9 then [92; 116]
  else if c =? 10 then [92; 110]
  else if c =? 12 then [92; 102]
  else if c =? 13 then [92; 114]
  else if c =? 34 then [92; 34]
  else if c =? 92 then [92; 92]
  else if c <? 32 then unicode_escape c
  else if is_high_surrogate c || is_low_surrogate c then unicode_escape c
  else [c].

Fixpoint quote_chars (s : jsstr) : jsstr :=
  match s with
  | [] => []
  | c :: s' =>
      match s' with
      | d :: s'' =>
          if is_high_surrogate c && is_low_surrogate d then c :: d :: quote_chars s''
          else quote_char c ++ quote_chars s'
      | [] => quote_char c
      end
  end.

Definition quote (s : jsstr) : jsstr := 34 :: quote_chars s ++ [34].

(** What the source serialises. *)
Inductive outgoing :=
| OStr (s : jsstr)
| OInt (n : Z)
| OObj (fields : list (jsstr * outgoing)).

Fixpoint stringify (o : outgoing) : jsstr :=
  match o with
  | OStr s => quote s
  | OInt n => string_of_Z n
  | OObj fs =>
      123 :: (fix members (fs : list (jsstr * outgoing)) : jsstr :=
                match fs with
                | [] => []
                | [(n, v)] => quote n ++ 58 :: stringify v
                | (n, v) :: fs' => quote n ++ 58 :: stringify v ++ 44 :: members fs'
                end) fs ++ [125]
  end.

Fixpoint to_json (o : outgoing) : json :=
  match o with
  | OStr s => JStr s
  | OInt n => JNum n 0
  | OObj fs => JObj (map (fun '(n, v) => (n, to_json v)) fs)
  end.

(** ** Reading back what was printed *)

(** The members of an object, as [stringify] prints them. *)
Fixpoint print_members (fs : list (jsstr * outgoing)) : jsstr :=
  match fs with
  | [] => []
  | [(n, v)] => quote n ++ 58 :: stringify v
  | (n, v) :: fs' => quote n ++ 58 :: stringify v ++ 44 :: print_members fs'
  end.

Lemma stringify_obj fs : stringify (OObj fs) = 123 :: print_members fs ++ [125].
Proof.
  reflexivity.
Qed.

(** Code units are 16-bit numbers; the integers the source sends are ports. *)
Definition is_unit (c : Z) : Prop := 0 <= c < 65536.

Inductive wf_out : outgoing -> Prop :=
| wf_OStr s : Forall is_unit s -> wf_out (OStr s)
| wf_OInt n : 0 <= n -> wf_out (OInt n)
| wf_OObj fs : Forall (fun p => Forall is_unit (fst p) /\ wf_out (snd p)) fs -> wf_out (OObj fs).

Lemma hex_digit_char d : 0 <= d < 16 -> hex_digit (hex_char d) = Some d.
Proof.
  intros H. unfold hex_digit, hex_char, is_digit.
  repeat case_match; bool_prop; first [f_equal; lia | lia].
Qed.

Lemma hex4_escape c : is_unit c ->
  hex4 (hex_char (c / 4096)) (hex_char (c / 256 mod 16)) (hex_char (c / 16 mod 16)) (hex_char (c mod 16))
  = Some c.
Proof.
  intros H. unfold is_unit in H. unfold hex4.
  rewrite !hex_digit_char by (Z.to_euclidean_division_equations; lia).
  f_equal. Z.to_euclidean_division_equations; lia.
Qed.

(** One printed character is read back as that character. *)
Lemma parse_quote_char c r : is_unit c ->
  parse_chars (quote_char c ++ r)
  = match parse_chars r with Some (t, r') => Some (c :: t, r') | None => None end.
Proof.
  intros H. pose proof (hex4_escape c H) as Hx. unfold quote_char.
  repeat (case_match; [bool_prop; subst; reflexivity|]).
  case_match; [cbn - [hex4]; rewrite Hx; by repeat case_match|].
  case_match; [cbn - [hex4]; rewrite Hx; by repeat case_match|].
  bool_prop. cbn [app parse_chars]. repeat case_match; bool_prop; try lia; congruence.
Qed.

Lemma parse_plain_char c r : 256 <= c ->
  parse_chars (c :: r)
  = match parse_chars r with Some (t, r') => Some (c :: t, r') | None => None end.
Proof. intros H. cbn [parse_chars]. repeat case_match; bool_prop; try lia; congruence. Qed.

Lemma parse_quote_chars s r : Forall is_unit s -> parse_chars (quote_chars s ++ 34 :: r) = Some (s, r).
Proof.
  assert (Hind : forall n s, (length s <= n)%nat -> Forall is_unit s ->
                 parse_chars (quote_chars s ++ 34 :: r) = Some (s, r)).
  { induction n as [|n IH]; intros [|c [|d s']] Hn H; cbn [length] in Hn; try lia; try reflexivity;
      inv H.
    - cbn [quote_chars]. rewrite parse_quote_char by done. reflexivity.
    - cbn [quote_chars]. destruct (is_high_surrogate c && is_low_surrogate d) eqn:E.
      + inv H3. unfold is_high_surrogate, is_low_surrogate in E. bool_prop.
        cbn [app]. rewrite !parse_plain_char, IH by (done || lia). done.
      + change (quote_char c ++ _) with (quote_char c ++ quote_chars (d :: s')).
        rewrite <- app_assoc, parse_quote_char, IH by (done || cbn; lia). done. }
  intros H. by apply (Hind (length s)).
Qed.

(** Decimal digits. *)
Definition no_digit (s : jsstr) : Prop := match s with c :: _ => is_digit c = false | [] => True end.

Lemma take_digits_stop s acc n : no_digit s -> take_digits s acc n = (acc, n, s).
Proof. destruct s as [|c s]; cbn; [done|]. by intros ->. Qed.

(** Reading the printed digits of [n] in front of any text. *)
Lemma take_digits_dec f : forall n acc k s,
  0 <= n < 10 ^ Z.of_nat f -> (0 < f)%nat ->
  exists j, take_digits (dec_digits f n ++ s) acc k
            = take_digits s (acc * 10 ^ Z.of_nat (length (dec_digits f n)) + n) (k + j) /\ 0 < j.
Proof.
  induction f as [|f IH]; intros n acc k s Hn Hf; [lia|]. cbn [dec_digits].
  destruct (Z.ltb_spec n 10) as [H10|H10].
  - exists 1. cbn [app take_digits length]. unfold is_digit at 1.
    replace (_ && _) with true by lia. split; [|lia]. f_equal; cbn; lia.
  - rewrite Nat2Z.inj_succ, Z.pow_succ_r in Hn by lia.
    destruct f as [|f']; [cbn in Hn; lia|].
    rewrite <- app_assoc. cbn [app].
    destruct (IH (n / 10) acc k (48 + n mod 10 :: s)) as (j & Hj & Hj0);
      [Z.to_euclidean_division_equations; lia | lia |].
    rewrite Hj. exists (j + 1). cbn [take_digits]. unfold is_digit at 1.
    replace (_ && _) with true by (Z.to_euclidean_division_equations; lia).
    split; [|lia]. rewrite length_app. cbn [length].
    rewrite Nat2Z.inj_add, Z.pow_add_r by lia.
    f_equal; [Z.to_euclidean_division_equations; lia | lia].
Qed.

Lemma dec_digits_head f : forall n, 0 < n < 10 ^ Z.of_nat f ->
  exists c l, dec_digits f n = c :: l /\ 49 <= c <= 57.
Proof.
  induction f as [|f IH]; intros n Hn; [cbn in Hn; lia|]. cbn [dec_digits].
  destruct (Z.ltb_spec n 10); [exists (48 + n), []; split; [done|lia]|].
  rewrite Nat2Z.inj_succ, Z.pow_succ_r in Hn by lia.
  destruct (IH (n / 10)) as (c & l & -> & Hc); [Z.to_euclidean_division_equations; lia|].
  eexists c, _. split; [reflexivity | done].
Qed.

Lemma log2_digits n : 0 <= n -> n < 10 ^ Z.of_nat (S (Z.to_nat (Z.log2 n))).
Proof.
  intros Hn. pose proof (Z.log2_nonneg n).
  rewrite Nat2Z.inj_succ, Z2Nat.id by lia.
  destruct (Z.eq_dec n 0) as [->|]; [cbn; lia|].
  apply Z.lt_le_trans with (2 ^ Z.succ (Z.log2 n)); [apply Z.log2_spec; lia|].
  apply Z.pow_le_mono_l. lia.
Qed.

(** A text that cannot continue a number. *)
Definition num_end (r : jsstr) : Prop :=
  match r with
  | c :: _ => is_digit c = false /\ c <> 46 /\ c <> 101 /\ c <> 69
  | [] => True
  end.

Lemma parse_fraction_end m r : num_end r -> parse_fraction false m r = Some (JNum m 0, r).
Proof.
  destruct r as [|c r]; [done|]. intros (Hd & H46 & H101 & H69).
  unfold parse_fraction, parse_exponent. rewrite (proj2 (Z.eqb_neq c 101) H101), (proj2 (Z.eqb_neq c 69) H69).
  cbn [orb]. repeat case_match; simplify_eq; try done.
Qed.

Lemma parse_number_int n r :
  0 <= n -> num_end r -> parse_number (string_of_Z n ++ r) = Some (JNum n 0, r).
Proof.
  intros Hn Hr. unfold string_of_Z. rewrite (proj2 (Z.ltb_ge n 0) Hn).
  destruct (Z.eq_dec n 0) as [->|Hn0]; [by apply parse_fraction_end|].
  pose proof (log2_digits n Hn) as Hlog.
  set (f := S (Z.to_nat (Z.log2 n))) in *.
  destruct (dec_digits_head f n) as (c & l & E & Hc); [lia|].
  destruct (take_digits_dec f n 0 0 r) as (j & Hj & _); [lia|lia|].
  rewrite E in Hj |- *. cbn [app] in Hj |- *.
  unfold parse_number.
  assert (Hcase : forall A (x y z : A), match c with 45 => x | _ => y end = y) by
    (intros; repeat case_match; try done; subst; lia).
  assert (Hd : is_digit c = true) by (unfold is_digit; lia).
  assert (Hstop : take_digits r (0 * 10 ^ Z.of_nat (length (c :: l)) + n) (0 + j)
                  = (0 * 10 ^ Z.of_nat (length (c :: l)) + n, 0 + j, r)).
  { apply take_digits_stop. destruct r; [done | apply Hr]. }
  rewrite Hstop in Hj. clear Hstop Hcase.
  assert (Hgen : (if is_digit c then let '(m, _, r0) := take_digits (c :: l ++ r) 0 0 in parse_fraction false m r0
                  else None) = Some (JNum n 0, r)).
  { rewrite Hd, Hj. rewrite Z.mul_0_l. by apply parse_fraction_end. }
  clear Hj E Hd. revert Hgen. generalize (l ++ r) as t. intros t Hgen.
  assert (c = 49 \/ c = 50 \/ c = 51 \/ c = 52 \/ c = 53 \/ c = 54 \/ c = 55 \/ c = 56 \/ c = 57) as D by lia.
  repeat destruct D as [-> | D]; [exact Hgen ..|]. subst c. exact Hgen.
Qed.

(** Fuel enough to read a printed value. *)
Fixpoint need (o : outgoing) : nat :=
  match o with
  | OStr _ | OInt _ => 1
  | OObj fs => S ((fix go (fs : list (jsstr * outgoing)) : nat :=
                     match fs with [] => O | (_, v) :: fs' => S (need v + go fs') end) fs)
  end.

Fixpoint need_members (fs : list (jsstr * outgoing)) : nat :=
  match fs with [] => O | (_, v) :: fs' => S (need v + need_members fs') end.

Lemma need_obj fs : need (OObj fs) = S (need_members fs).
Proof. reflexivity. Qed.

(** Induction on values, with the hypothesis for every member. *)
Lemma outgoing_ind' (P : outgoing -> Prop) :
  (forall s, P (OStr s)) -> (forall n, P (OInt n)) ->
  (forall fs, Forall (fun p => P (snd p)) fs -> P (OObj fs)) -> forall o, P o.
Proof.
  intros Hs Hi Ho. fix go 1. intros [s|n|fs]; [apply Hs | apply Hi|]. apply Ho.
  induction fs as [|[n v] fs IH]; constructor; [apply go | apply IH].
Qed.

Lemma skip_ws_nonspace c s : is_json_space c = false -> skip_ws (c :: s) = c :: s.
Proof. cbn. by intros ->. Qed.

Lemma parse_str f s r :
  Forall is_unit s -> parse_value (S f) (quote s ++ r) = Some (JStr s, r).
Proof.
  intros H. unfold quote. cbn [app parse_value skip_ws]. cbn - [parse_chars].
  rewrite <- app_assoc. cbn [app]. by rewrite parse_quote_chars.
Qed.

Lemma parse_int f n r :
  0 <= n -> num_end r -> parse_value (S f) (string_of_Z n ++ r) = Some (JNum n 0, r).
Proof.
  intros Hn Hr. pose proof (parse_number_int n r Hn Hr) as HP. revert HP.
  unfold string_of_Z. rewrite (proj2 (Z.ltb_ge n 0) Hn).
  assert (exists c l, dec_digits (S (Z.to_nat (Z.log2 n))) n = c :: l /\ 48 <= c <= 57) as (c & l & E & Hc).
  { destruct (Z.eq_dec n 0) as [->|]; [by exists 48, []|].
    destruct (dec_digits_head (S (Z.to_nat (Z.log2 n))) n) as (c & l & E & Hc);
      [pose proof (log2_digits n Hn); lia|]. exists c, l. split; [done|lia]. }
  rewrite E. cbn [app parse_value]. intros HP.
  rewrite skip_ws_nonspace by (unfold is_json_space; lia).
  rewrite (proj2 (Z.eqb_neq c 34)), (proj2 (Z.eqb_neq c 123)), (proj2 (Z.eqb_neq c 91)) by lia.
  replace ((c =? 45) || is_digit c) with true by (unfold is_digit; lia). exact HP.
Qed.

(** A value whose round trip is known, in front of any text that does not
    continue a number. *)
Definition reads_back (o : outgoing) : Prop :=
  forall f r, (need o <= f)%nat -> num_end r -> parse_value f (stringify o ++ r) = Some (to_json o, r).

Lemma parse_print_members r fs :
  fs <> [] -> Forall (fun p => Forall is_unit (fst p) /\ reads_back (snd p)) fs ->
  forall f, (need_members fs <= f)%nat ->
  parse_members f (print_members fs ++ 125 :: r) = Some (map (fun '(n, v) => (n, to_json v)) fs, r).
Proof.
  induction fs as [|[n v] fs IHfs]; intros Hne H f Hf; [done|].
  inv H. destruct H2 as [Hn Hv]. cbn [fst snd need_members] in *.
  destruct f as [|f]; [lia|].
  assert (Hstep : forall r', parse_members (S f) (quote n ++ 58 :: r')
     = match parse_value f r' with
       | Some (v, r3) =>
           match skip_ws r3 with
           | 44 :: r4 => match parse_members f r4 with
                         | Some (fs, r5) => Some ((n, v) :: fs, r5) | None => None end
           | 125 :: r4 => Some ([(n, v)], r4)
           | _ => None
           end
       | None => None
       end).
  { intros r'. cbn [parse_members]. unfold quote. cbn [app].
    rewrite skip_ws_nonspace, <- app_assoc by done. cbn [app].
    by rewrite parse_quote_chars by done. }
  destruct fs as [|p fs].
  - cbn [print_members]. rewrite <- app_assoc. cbn [app]. by rewrite Hstep, Hv by (done || lia).
  - change (print_members ((n, v) :: p :: fs))
      with (quote n ++ 58 :: stringify v ++ 44 :: print_members (p :: fs)).
    rewrite <- app_assoc. cbn [app]. rewrite Hstep, <- app_assoc. cbn [app].
    rewrite Hv by (done || lia). rewrite skip_ws_nonspace by done.
    by rewrite IHfs by (done || lia).
Qed.

Lemma parse_stringify o : wf_out o -> reads_back o.
Proof.
  induction o as [s|n|fs IH] using outgoing_ind'; intros Hwf f r Hf Hr; inv Hwf.
  - destruct f as [|f]; [cbn in Hf; lia|]. by apply parse_str.
  - destruct f as [|f]; [cbn in Hf; lia|]. by apply parse_int.
  - rewrite need_obj in Hf. destruct f as [|f]; [lia|].
    destruct fs as [|[n v] fs]; [reflexivity|].
    assert (Hm : parse_members f (print_members ((n, v) :: fs) ++ 125 :: r)
                 = Some (map (fun '(n, v) => (n, to_json v)) ((n, v) :: fs), r)).
    { apply parse_print_members; [done| |lia].
      apply Forall_forall. intros p Hp. rewrite Forall_forall in IH, H0.
      destruct (H0 p Hp). split; [done | by apply IH]. }
    rewrite stringify_obj. cbn [app parse_value].
    rewrite <- app_assoc, skip_ws_nonspace by done. cbn [app].
    destruct fs as [|[? ?] ?]; by rewrite Hm.
Qed.

Lemma need_length o : wf_out o -> (need o <= length (stringify o))%nat.
Proof.
  induction o as [s|n|fs IH] using outgoing_ind'; intros Hwf; inv Hwf.
  - cbn. lia.
  - cbn [need stringify]. unfold string_of_Z. rewrite (proj2 (Z.ltb_ge n 0)) by done.
    cbn [dec_digits]. case_match; [done|]. rewrite length_app. cbn. lia.
  - rewrite need_obj, stringify_obj. cbn [length]. rewrite length_app. cbn [length].
    enough (need_members fs <= length (print_members fs) + 1)%nat by lia.
    induction fs as [|[n v] [|p fs] IHfs]; inv IH; inv H0; cbn [fst snd] in *; [cbn; lia| |];
      destruct H4 as [_ Hv]; specialize (H2 Hv).
    + cbn [print_members need_members]. rewrite length_app. cbn [length quote].
      rewrite length_app. cbn [length]. lia.
    + change (print_members ((n, v) :: p :: fs))
        with (quote n ++ 58 :: stringify v ++ 44 :: print_members (p :: fs)).
      specialize (IHfs H3 H5). cbn [need_members] in *. rewrite length_app. cbn [length].
      rewrite length_app. cbn [length] in *. lia.
Qed.

(** [JSON.parse] reads back every value the source serialises. *)
Lemma parse_roundtrip o : wf_out o -> parse (stringify o) = Some (to_json o).
Proof.
  intros H. unfold parse. pose proof (need_length o H).
  rewrite <- (app_nil_r (stringify o)) at 2.
  rewrite parse_stringify by (done || lia). done.
Qed.
