(* ===== verification/Binding.v ===== *)
(** * One-time binding codes ([web/src/binding.ts])

    [parseBindingCode] checks the controller's answer before the page shows it.
    [Date.parse] is a function of the engine for texts outside the ISO format;
    it is the operation of the class [DateParse], [None] standing for NaN. *)

From stdpp Require Import base list numbers strings sets.
From Stdlib Require Import ZArith Lia.
From S2P Require Import Prelude JsString Regex Json.
Local Open Scope Z_scope.

Class DateParse := { date_parse : jsstr -> option Z }.

(** ** The code *)

Record BindingCode := { code : jsstr; expiresAt : Z }.

Definition invalid_code : jserror := ErrorMsg (js "控制面返回了无效的绑定码").
Definition expired_code : jserror := ErrorMsg (js "控制面返回了已失效的绑定码").

(** [/[\r\n\0]/] *)
Definition control_re : regex := RSet (fun c => (c =? 13) || (c =? 10) || (c =? 0)).

(** [!value || typeof value !== 'object'] *)
Definition not_object (value : json) : bool :=
  match value with JObj _ | JArr _ => false | _ => true end.

Definition parseBindingCode `{DateParse} (value : json) (now : Z) : result BindingCode :=
  if not_object value then Throw invalid_code
  else
    match get_prop value (js "code") with
    | Some (JStr c) =>
        if (str_len c <? 16) || (256 <? str_len c) || negb (str_eqb (trim c) c) || test control_re c
        then Throw invalid_code
        else
          let expiresAt := match get_prop value (js "expires_at") with
                           | Some (JStr e) => date_parse e
                           | _ => None
                           end in
          match expiresAt with
          | Some t => if t <=? now then Throw expired_code else Ok {| code := c; expiresAt := t |}
          | None => Throw expired_code
          end
    | _ => Throw invalid_code
    end.

(** ** Control characters *)

Lemma control_re_spec s : test control_re s = false <-> 13 ∉ s /\ 10 ∉ s /\ 0 ∉ s.
Proof.
  rewrite <- not_true_iff_false, test_spec. unfold control_re. setoid_rewrite Matches_set. split.
  - intros H.
    assert (Hc : forall c, (c =? 13) || (c =? 10) || (c =? 0) = true -> c ∉ s).
    { intros c Hc E. apply H. apply list_elem_of_split in E as (u & v & ->).
      exists u, [c], v. split; [done|]. by exists c. }
    by repeat split; apply Hc.
  - intros (H13 & H10 & H0) (u & t & v & -> & c & -> & Hc). bool_prop.
    assert (c = 13 \/ c = 10 \/ c = 0) as D by lia.
    destruct D as [-> | [-> | ->]]; [apply H13|apply H10|apply H0]; set_solver.
Qed.

(** ** Properties *)

(** What an accepted answer satisfies. *)
Definition acceptable `{DateParse} (value : json) (now : Z) (bc : BindingCode) : Prop :=
  get_prop value (js "code") = Some (JStr (code bc))
  /\ 16 <= str_len (code bc) <= 256
  /\ no_edge_space (code bc)
  /\ 13 ∉ code bc /\ 10 ∉ code bc /\ 0 ∉ code bc
  /\ exists e, get_prop value (js "expires_at") = Some (JStr e) /\ date_parse e = Some (expiresAt bc)
  /\ now < expiresAt bc.

Lemma get_prop_object v n x : get_prop v n = Some x -> not_object v = false.
Proof. by destruct v. Qed.

(** C8. [parseBindingCode] accepts exactly the answers with a 16 to 256 character
    code free of surrounding white space and of CR, LF and NUL, and an expiry
    later than now; it returns that code and that expiry. *)
Theorem parseBindingCode_accepts `{DateParse} (value : json) (now : Z) (bc : BindingCode) :
  parseBindingCode value now = Ok bc <-> acceptable value now bc.
Proof.
  unfold parseBindingCode, acceptable. split.
  - destruct (not_object value); [done|].
    destruct (get_prop value (js "code")) as [[| | |c| |]|]; try done.
    destruct (_ || _) eqn:E; [done|]. bool_prop.
    destruct (get_prop value (js "expires_at")) as [[| | |e| |]|]; try done.
    destruct (date_parse e) as [t|] eqn:Ed; [|done]. case_match; [done|]. intros [= <-]. bool_prop.
    apply control_re_spec in H1 as (? & ? & ?). apply str_eqb_eq, trim_fix in H2.
    cbn. repeat split; try done; try lia; try apply H2. exists e. repeat split; [done|lia].
  - destruct bc as [c t]; cbn. intros (Hc & Hl & Hs & H13 & H10 & H0 & e & He & Hd & Ht).
    rewrite (get_prop_object _ _ _ Hc), Hc, He, Hd.
    rewrite (proj2 (control_re_spec c)), (proj2 (trim_fix c)), str_eqb_refl by done.
    rewrite (proj2 (Z.ltb_ge (str_len c) 16)), (proj2 (Z.ltb_ge 256 (str_len c))) by lia. cbn [orb negb].
    by rewrite (proj2 (Z.leb_gt t now)) by lia.
Qed.

(** Every refusal is one of the two documented errors, and the second one (an
    expired or unreadable expiry) is reported only for a well-formed code. *)
Theorem parseBindingCode_refuses `{DateParse} (value : json) (now : Z) :
  match parseBindingCode value now with
  | Ok _ => True
  | Throw e =>
      e = invalid_code
      \/ (e = expired_code /\ exists c, get_prop value (js "code") = Some (JStr c)
          /\ 16 <= str_len c <= 256 /\ no_edge_space c
          /\ forall x t, get_prop value (js "expires_at") = Some (JStr x) -> date_parse x = Some t -> t <= now)
  end.
Proof.
  unfold parseBindingCode. destruct (not_object value); [by left|].
  destruct (get_prop value (js "code")) as [[| | |c| |]|]; try by left.
  destruct (_ || _) eqn:E; [by left|]. bool_prop. apply str_eqb_eq, trim_fix in H2.
  assert (Hw : 16 <= str_len c <= 256) by lia.
  assert (Hexp : (forall x t, get_prop value (js "expires_at") = Some (JStr x) ->
            date_parse x = Some t -> t <= now) -> expired_code = invalid_code
      \/ (expired_code = expired_code /\ exists c0, Some (JStr c) = Some (JStr c0)
          /\ 16 <= str_len c0 <= 256 /\ no_edge_space c0
          /\ forall x t, get_prop value (js "expires_at") = Some (JStr x) -> date_parse x = Some t -> t <= now)).
  { intros Hx. right. split; [done|]. by exists c. }
  revert Hexp.
  destruct (get_prop value (js "expires_at")) as [[| | |e| |]|]; intros Hexp; try (apply Hexp; congruence).
  destruct (date_parse e) as [t|] eqn:Ed; [destruct (t <=? now) eqn:Et; [|done]; bool_prop|];
    apply Hexp; intros x t' [= <-] Hx; rewrite Ed in Hx; [injection Hx as <-|]; done.
Qed.
