(* ===== verification/Url.v ===== *)
(** * URLs

    The [URL] class of the WHATWG URL standard, as far as the source uses it: the
    record of a parsed URL, its getters and serialisation, the setters the source
    calls, and the parser for the special schemes http, https, ws, wss and ftp
    with an optional base of such a scheme.  Host parsing (IDNA, IPv4 and IPv6
    text forms) and the schemes that are not special are operations of the
    browser, gathered in the class [UrlPlatform]. *)

From stdpp Require Import base list numbers strings sets.
From Stdlib Require Import ZArith Lia.
From S2P Require Import Prelude JsString Utf8.
Local Open Scope Z_scope.

Record url := mkUrl {
  scheme : jsstr;               (* without the colon *)
  username : jsstr;
  password : jsstr;
  host : jsstr;
  port : option Z;              (* [None] is null: the default port *)
  path : list jsstr;            (* segments; an opaque path is not a list *)
  opaque : option jsstr;        (* [Some p] for an opaque path *)
  query : option jsstr;
  fragment : option jsstr
}.

#[export] Instance url_eq_dec : EqDecision url.
Proof. solve_decision. Defined.

(** What the browser supplies: the host parser (fails or returns the serialised
    host) and parsing of a text whose scheme is not special (or is [file]). *)
Class UrlPlatform := {
  host_parse : jsstr -> option jsstr;
  parse_other : jsstr -> option url
}.

(** ** Schemes and ports *)

Definition default_port (s : jsstr) : option Z :=
  if str_eqb s (js "http") then Some 80
  else if str_eqb s (js "https") then Some 443
  else if str_eqb s (js "ws") then Some 80
  else if str_eqb s (js "wss") then Some 443
  else if str_eqb s (js "ftp") then Some 21
  else None.

(** Special schemes other than [file]. *)
Definition is_special (s : jsstr) : bool :=
  match default_port s with Some _ => true | None => false end.

Definition normalize_port (s : jsstr) (p : Z) : option Z :=
  if bool_decide (default_port s = Some p) then None else Some p.

(** The port a request to the URL goes to. *)
Definition effective_port (u : url) : option Z :=
  match port u with Some p => Some p | None => default_port (scheme u) end.

(** ** Getters *)

Definition get_protocol (u : url) : jsstr := scheme u ++ js ":".
Definition get_port (u : url) : jsstr :=
  match port u with Some p => string_of_Z p | None => [] end.
Fixpoint join_path (segs : list jsstr) : jsstr :=
  match segs with
  | [] => []
  | s :: r => 47 :: s ++ join_path r
  end.
Definition get_pathname (u : url) : jsstr :=
  match opaque u with Some p => p | None => join_path (path u) end.
Definition get_search (u : url) : jsstr :=
  match query u with Some (c :: q) => 63 :: c :: q | _ => [] end.
Definition get_hash (u : url) : jsstr :=
  match fragment u with Some (c :: f) => 35 :: c :: f | _ => [] end.

(** Serialisation. *)
Definition href (u : url) : jsstr :=
  scheme u ++ js ":"
  ++ (match opaque u with
      | Some p => p
      | None =>
          js "//"
          ++ (match username u, password u with
              | [], [] => []
              | us, [] => us ++ js "@"
              | us, pw => us ++ js ":" ++ pw ++ js "@"
              end)
          ++ host u
          ++ (match port u with Some p => js ":" ++ string_of_Z p | None => [] end)
          ++ join_path (path u)
      end)
  ++ (match query u with Some q => 63 :: q | None => [] end)
  ++ (match fragment u with Some f => 35 :: f | None => [] end).

(** ** Setters *)

Definition with_scheme (u : url) (s : jsstr) : url :=
  mkUrl s (username u) (password u) (host u) (port u) (path u) (opaque u) (query u) (fragment u).
Definition with_port (u : url) (p : option Z) : url :=
  mkUrl (scheme u) (username u) (password u) (host u) p (path u) (opaque u) (query u) (fragment u).
Definition with_path (u : url) (p : list jsstr) : url :=
  mkUrl (scheme u) (username u) (password u) (host u) (port u) p (opaque u) (query u) (fragment u).
Definition with_query (u : url) (q : option jsstr) : url :=
  mkUrl (scheme u) (username u) (password u) (host u) (port u) (path u) (opaque u) q (fragment u).
Definition with_fragment (u : url) (f : option jsstr) : url :=
  mkUrl (scheme u) (username u) (password u) (host u) (port u) (path u) (opaque u) (query u) f.

(** [u.protocol = s + ':'] for a special scheme [s]: ignored unless the URL is
    special too; a port that is the new default becomes null. *)
Definition set_scheme (u : url) (s : jsstr) : url :=
  if negb (eqb (is_special (scheme u)) (is_special s)) then u
  else with_scheme (with_port u (match port u with Some p => normalize_port s p | None => None end)) s.

(** The decimal number of the leading digits. *)
Fixpoint leading_digits (s : jsstr) (acc : option Z) : option Z :=
  match s with
  | c :: s' =>
      if is_digit c
      then leading_digits s' (Some ((match acc with Some a => a | None => 0 end) * 10 + (c - 48)))
      else acc
  | [] => acc
  end.

(** [u.port = s] on a URL with a host. *)
Definition set_port (u : url) (s : jsstr) : url :=
  match s with
  | [] => with_port u None
  | _ => match leading_digits s None with
         | Some p => if p <=? 65535 then with_port u (normalize_port (scheme u) p) else u
         | None => u
         end
  end.

(** ** Percent encoding *)

Definition hex_upper (d : Z) : Z := if d <? 10 then 48 + d else 55 + d.
Definition percent (b : Z) : jsstr := [37; hex_upper (b / 16); hex_upper (b mod 16)].

Definition encode_point (set : Z -> bool) (c : Z) : jsstr :=
  if set c then concat (map percent (utf8_encode c)) else [c].
Definition encode (set : Z -> bool) (s : list Z) : jsstr := concat (map (encode_point set) s).

Definition c0_set (c : Z) : bool := (c <? 0x20) || (0x7E <? c).
Definition fragment_set (c : Z) : bool :=
  c0_set c || (c =? 32) || (c =? 34) || (c =? 60) || (c =? 62) || (c =? 96).
Definition query_set (c : Z) : bool :=
  c0_set c || (c =? 32) || (c =? 34) || (c =? 35) || (c =? 60) || (c =? 62).
Definition special_query_set (c : Z) : bool := query_set c || (c =? 39).
Definition path_set (c : Z) : bool :=
  query_set c || (c =? 63) || (c =? 94) || (c =? 96) || (c =? 123) || (c =? 125).
Definition userinfo_set (c : Z) : bool :=
  path_set c || (c =? 47) || (c =? 58) || (c =? 59) || (c =? 61) || (c =? 64)
  || (c =? 91) || (c =? 92) || (c =? 93) || (c =? 124).

(** ** The parser *)

Definition is_slash (c : Z) : bool := (c =? 47) || (c =? 92).

(** The text up to the first character of a set, and the rest. *)
Fixpoint span_until (f : Z -> bool) (s : list Z) : list Z * list Z :=
  match s with
  | c :: s' => if f c then ([], s) else let '(a, b) := span_until f s' in (c :: a, b)
  | [] => ([], [])
  end.

Fixpoint drop_slashes (s : list Z) : list Z :=
  match s with
  | c :: s' => if is_slash c then drop_slashes s' else s
  | [] => []
  end.

(** Leading and trailing C0 controls and spaces, and tabs and newlines anywhere. *)
Fixpoint drop_c0 (s : list Z) : list Z :=
  match s with
  | c :: s' => if c <=? 0x20 then drop_c0 s' else s
  | [] => []
  end.
Definition clean (s : list Z) : list Z :=
  List.filter (fun c => negb ((c =? 9) || (c =? 10) || (c =? 13))) (rev (drop_c0 (rev (drop_c0 s)))).

Definition is_single_dot (s : jsstr) : bool :=
  let l := map lower_char s in str_eqb l (js ".") || str_eqb l (js "%2e").
Definition is_double_dot (s : jsstr) : bool :=
  let l := map lower_char s in
  str_eqb l (js "..") || str_eqb l (js ".%2e") || str_eqb l (js "%2e.") || str_eqb l (js "%2e%2e").

Definition shorten (p : list jsstr) : list jsstr := removelast p.

(** The segments of a path text (its leading slash already read), appended to the
    segments [p]; dot segments are resolved as they are read. *)
Fixpoint parse_segments (fuel : nat) (p : list jsstr) (s : list Z) : list jsstr :=
  match fuel with
  | O => p
  | S f =>
      let '(seg, r) := span_until is_slash s in
      let seg := encode path_set seg in
      match r with
      | [] =>
          if is_double_dot seg then shorten p ++ [[]]
          else if is_single_dot seg then p ++ [[]]
          else p ++ [seg]
      | _ :: r' =>
          if is_double_dot seg then parse_segments f (shorten p) r'
          else if is_single_dot seg then parse_segments f p r'
          else parse_segments f (p ++ [seg]) r'
      end
  end.

(** Path, query and fragment of the rest of the text. *)
Definition parse_tail (u : url) (p : list jsstr) (s : list Z) : url :=
  let '(pt, r) := span_until (fun c => (c =? 63) || (c =? 35)) s in
  let u := with_path u (parse_segments (S (length pt)) p pt) in
  match r with
  | 63 :: r' =>
      let '(q, r'') := span_until (fun c => c =? 35) r' in
      let u := with_query u (Some (encode special_query_set q)) in
      match r'' with
      | _ :: f => with_fragment u (Some (encode fragment_set f))
      | [] => u
      end
  | 35 :: f => with_fragment u (Some (encode fragment_set f))
  | _ => u
  end.

(** The path start state of a special URL: one leading slash is skipped. *)
Definition parse_path_start (u : url) (s : list Z) : url :=
  parse_tail u [] (match s with c :: s' => if is_slash c then s' else s | [] => [] end).

(** The host ends at the first ':' outside brackets. *)
Fixpoint split_port (brackets : bool) (s : list Z) : list Z * option (list Z) :=
  match s with
  | [] => ([], None)
  | c :: s' =>
      if (c =? 58) && negb brackets then ([], Some s')
      else
        let b := if c =? 91 then true else if c =? 93 then false else brackets in
        let '(h, p) := split_port b s' in (c :: h, p)
  end.

Definition parse_port (sch : jsstr) (s : list Z) : option (option Z) :=
  match s with
  | [] => Some None
  | _ => if forallb is_digit s
         then match leading_digits s None with
              | Some p => if p <=? 65535 then Some (normalize_port sch p) else None
              | None => None
              end
         else None
  end.

(** The last '@' of the authority ends the credentials. *)
Definition split_userinfo (s : list Z) : option (list Z) * list Z :=
  let '(h, u) := span_until (fun c => c =? 64) (rev s) in
  match u with
  | _ :: u' => (Some (rev u'), rev h)
  | [] => (None, s)
  end.

(** Authority, path, query and fragment behind the slashes. *)
Definition parse_authority `{UrlPlatform} (sch : jsstr) (s : list Z) : option url :=
  let '(auth, rest) := span_until (fun c => is_slash c || (c =? 63) || (c =? 35)) s in
  let '(cred, hp) := split_userinfo auth in
  let '(us, pw) := match cred with
                   | None => ([], [])
                   | Some c =>
                       let '(a, b) := span_until (fun c => c =? 58) c in
                       (encode userinfo_set a, match b with _ :: b' => encode userinfo_set b' | [] => [] end)
                   end in
  let '(h, p) := split_port false hp in
  match h with
  | [] => None
  | _ =>
      match host_parse h, parse_port sch (match p with Some t => t | None => [] end) with
      | Some hs, Some pt => Some (parse_path_start (mkUrl sch us pw hs pt [] None None None) rest)
      | _, _ => None
      end
  end.

(** The scheme of an absolute URL text: letters, digits, plus, minus and full
    stop after a letter, up to a colon. *)
Definition scheme_char (c : Z) : bool :=
  is_upper c || is_lower c || is_digit c || (c =? 43) || (c =? 45) || (c =? 46).
Definition split_scheme (s : list Z) : option (jsstr * list Z) :=
  match s with
  | c :: _ =>
      if is_upper c || is_lower c then
        match span_until (fun c => negb (scheme_char c)) s with
        | (a, 58 :: r) => Some (map lower_char a, r)
        | _ => None
        end
      else None
  | [] => None
  end.

(** A reference without a scheme against a special base. *)
Definition parse_relative `{UrlPlatform} (base : url) (s : list Z) : option url :=
  let u := with_fragment base None in
  match s with
  | [] => Some u
  | c :: s' =>
      if is_slash c then
        match s' with
        | d :: s'' => if is_slash d then parse_authority (scheme base) (drop_slashes s'')
                      else Some (parse_tail (with_query u None) [] s')
        | [] => Some (parse_tail (with_query u None) [] s')
        end
      else if c =? 63 then
        let '(q, r) := span_until (fun c => c =? 35) s' in
        let u := with_query u (Some (encode special_query_set q)) in
        Some (match r with _ :: f => with_fragment u (Some (encode fragment_set f)) | [] => u end)
      else if c =? 35 then Some (with_fragment u (Some (encode fragment_set s')))
      else Some (parse_tail (with_query u None) (shorten (path u)) s)
  end.

(** [new URL(text, base)]; [None] is the TypeError. *)
Definition parse_url `{UrlPlatform} (text : jsstr) (base : option url) : option url :=
  let s := clean (code_points text) in
  match split_scheme s with
  | Some (sch, r) =>
      if is_special sch then
        match base, r with
        | Some b, 47 :: 47 :: _ => parse_authority sch (drop_slashes r)
        | Some b, _ => if str_eqb (scheme b) sch then parse_relative b r
                       else parse_authority sch (drop_slashes r)
        | None, _ => parse_authority sch (drop_slashes r)
        end
      else parse_other text
  | None => match base with Some b => parse_relative b s | None => None end
  end.

(** A host parser for plain lower-case domain names; used for examples. *)
Definition plain_host (h : jsstr) : option jsstr :=
  if forallb (fun c => is_lower c || is_upper c || is_digit c || (c =? 45) || (c =? 46)) h
  then Some (map lower_char h) else None.
Definition plain_platform : UrlPlatform :=
  {| host_parse := plain_host; parse_other := fun _ => None |}.

Example parse_url_1 :
  option_map href (parse_url (H := plain_platform) (js " HTTPS://User:p@Ex.org:443/a/./b/../c d?q='#é ") None)
  = Some (js "https://User:p@ex.org/a/c%20d?q=%27#%C3%A9").
Proof. vm_compute. reflexivity. Qed.

(** ** Lemmas: decimal numbers *)

Lemma leading_digits_dec f : forall n acc s,
  0 <= n < 10 ^ Z.of_nat f -> (0 < f)%nat ->
  leading_digits (dec_digits f n ++ s) acc
  = leading_digits s (Some ((match acc with Some a => a | None => 0 end)
                            * 10 ^ Z.of_nat (length (dec_digits f n)) + n)).
Proof.
  induction f as [|f IH]; intros n acc s Hn Hf; [lia|]. cbn [dec_digits].
  destruct (Z.ltb_spec n 10) as [H10|H10].
  - cbn [app leading_digits length]. unfold is_digit at 1. replace (_ && _) with true by lia.
    do 2 f_equal. cbn. lia.
  - rewrite Nat2Z.inj_succ, Z.pow_succ_r in Hn by lia.
    destruct f as [|f']; [cbn in Hn; lia|]. rewrite <- app_assoc. cbn [app].
    rewrite IH by (Z.to_euclidean_division_equations; lia). cbn [leading_digits].
    unfold is_digit at 1. replace (_ && _) with true by (Z.to_euclidean_division_equations; lia).
    do 2 f_equal. rewrite length_app. cbn [length]. rewrite Nat2Z.inj_add, Z.pow_add_r by lia.
    Z.to_euclidean_division_equations; lia.
Qed.

(** A port printed by the getter is read back by the setter. *)
Lemma leading_digits_print p : 0 <= p -> leading_digits (string_of_Z p) None = Some p.
Proof.
  intros Hp. unfold string_of_Z. rewrite (proj2 (Z.ltb_ge p 0) Hp).
  rewrite <- (app_nil_r (dec_digits _ _)), leading_digits_dec; [cbn; f_equal; lia| |lia].
  split; [done|]. by apply log2_lt_pow10.
Qed.

Lemma string_of_Z_nonempty p : 0 <= p -> string_of_Z p <> [].
Proof.
  intros Hp E. pose proof (leading_digits_print p Hp) as H. by rewrite E in H.
Qed.

(** ** Lemmas: what the parser produces

    A text is printable when it holds only the characters from U+0021 to U+007E. *)

Definition printable (s : jsstr) : Prop := Forall (fun c => 0x21 <= c <= 0x7E) s.

(** A set whose complement is printable. *)
Definition covers (set : Z -> bool) : Prop := forall c, set c = false -> 0x21 <= c <= 0x7E.

Lemma covers_fragment : covers fragment_set.
Proof. intros c. unfold fragment_set, c0_set. lia. Qed.
Lemma covers_query : covers special_query_set.
Proof. intros c. unfold special_query_set, query_set, c0_set. lia. Qed.
Lemma covers_path : covers path_set.
Proof. intros c. unfold path_set, query_set, c0_set. lia. Qed.
#[export] Hint Resolve covers_fragment covers_query covers_path : jsdb.

Lemma percent_char b c : 0 <= b < 256 -> In c (percent b) ->
  c = 37 \/ 48 <= c <= 57 \/ 65 <= c <= 70.
Proof.
  intros Hb. cbn. unfold hex_upper. intros [<-|[<-|[<-|[]]]]; [lia| |];
    case_match; bool_prop; Z.to_euclidean_division_equations; lia.
Qed.

(** Every character of an encoded text is a hexadecimal escape or one that the
    set lets through. *)
Lemma encode_char set s c :
  Forall (fun x => 0 <= x < 0x110000) s -> In c (encode set s) ->
  (c = 37 \/ 48 <= c <= 57 \/ 65 <= c <= 70) \/ (set c = false /\ In c s).
Proof.
  intros Hs H. unfold encode in H. apply in_concat in H as (l & Hl & Hc).
  apply in_map_iff in Hl as (x & <- & Hx). unfold encode_point in Hc.
  destruct (set x) eqn:E.
  - left. apply in_concat in Hc as (l & Hl & Hc). apply in_map_iff in Hl as (b & <- & Hb).
    rewrite List.Forall_forall in Hs. pose proof (utf8_encode_bytes x (Hs x Hx)) as Hu.
    rewrite List.Forall_forall in Hu. eapply percent_char; eauto.
  - right. destruct Hc as [<-|[]]. done.
Qed.

Lemma encode_printable set s :
  covers set -> Forall (fun x => 0 <= x < 0x110000) s -> printable (encode set s).
Proof.
  intros Hset Hs. apply List.Forall_forall. intros c Hc.
  apply encode_char in Hc as [?|[H _]]; [lia| |done]. by apply Hset.
Qed.

(** A text none of whose characters is in the set is unchanged. *)
Lemma encode_id set s : Forall (fun c => set c = false) s -> encode set s = s.
Proof.
  induction 1 as [|c s Hc _ IH]; [done|]. unfold encode in *. cbn. by rewrite IH; unfold encode_point; rewrite Hc.
Qed.

Lemma encode_set_false set s :
  (forall c, c = 37 \/ 48 <= c <= 57 \/ 65 <= c <= 70 -> set c = false) ->
  Forall (fun x => 0 <= x < 0x110000) s -> Forall (fun c => set c = false) (encode set s).
Proof.
  intros Hhex Hs. apply List.Forall_forall. intros c Hc.
  apply encode_char in Hc as [?|[? _]]; auto.
Qed.

(** ** A path that is already normal is read back as it is *)

(** A segment the parser leaves alone. *)
Definition normal_segment (s : jsstr) : Prop :=
  Forall (fun c => path_set c = false /\ is_slash c = false) s
  /\ is_single_dot s = false /\ is_double_dot s = false.

Lemma span_until_app f s c r :
  Forall (fun x => f x = false) s -> f c = true -> span_until f (s ++ c :: r) = (s, c :: r).
Proof. induction 1 as [|x s Hx _ IH]; intros Hc; cbn; [by rewrite Hc|]. by rewrite Hx, IH. Qed.

Lemma span_until_all f s : Forall (fun x => f x = false) s -> span_until f s = (s, []).
Proof. induction 1 as [|x s Hx _ IH]; cbn; [done|]. by rewrite Hx, IH. Qed.

Lemma parse_segments_normal segs : segs <> [] -> Forall normal_segment segs ->
  forall fuel p, (length segs <= fuel)%nat ->
  parse_segments fuel p (tail (join_path segs)) = p ++ segs.
Proof.
  induction segs as [|s segs IH]; intros Hne H fuel p Hf; [done|].
  inv H. destruct H2 as (Hc & Hs & Hd). destruct fuel as [|f]; [cbn in Hf; lia|].
  assert (Hslash : Forall (fun x => is_slash x = false) s)
    by (eapply Forall_impl; [exact Hc | by intros ? []]).
  assert (Henc : encode path_set s = s)
    by (apply encode_id; eapply Forall_impl; [exact Hc | by intros ? []]).
  cbn [join_path tail parse_segments]. destruct segs as [|s' segs].
  - rewrite app_nil_r, span_until_all, Henc, Hd, Hs by done. done.
  - cbn [join_path]. rewrite span_until_app, Henc, Hd, Hs by done.
    specialize (IH ltac:(done) H3 f (p ++ [s])). cbn [join_path tail] in IH.
    rewrite IH by (cbn in *; lia). by rewrite <- app_assoc.
Qed.

Lemma join_path_chars segs c :
  In c (join_path segs) -> c = 47 \/ exists s, In s segs /\ In c s.
Proof.
  induction segs as [|s segs IH]; cbn; [done|]. intros [<-|H]; [by left|].
  apply in_app_iff in H as [H|H]; [right; eauto|].
  destruct (IH H) as [->|(s' & ? & ?)]; eauto.
Qed.

(** The pathname, search and hash of a URL, concatenated, as the source does. *)
Definition tail_text (u : url) : jsstr := get_pathname u ++ get_search u ++ get_hash u.

(** A URL whose parts are in the form the parser leaves them in. *)
Record normal_url (u : url) : Prop := {
  nu_opaque : opaque u = None;
  nu_path : path u <> [];
  nu_segments : Forall normal_segment (path u);
  nu_query : match query u with Some q => Forall (fun c => special_query_set c = false) q | None => True end;
  nu_fragment : match fragment u with Some f => Forall (fun c => fragment_set c = false) f | None => True end
}.

Definition drop_empty (q : option jsstr) : option jsstr :=
  match q with Some [] => None | _ => q end.

Lemma parse_tail_normal b u :
  normal_url u ->
  parse_tail (with_query (with_fragment b None) None) [] (tail (tail_text u))
  = with_fragment (with_query (with_path b (path u)) (drop_empty (query u))) (drop_empty (fragment u)).
Proof.
  intros [Ho Hne Hsegs Hq Hf]. unfold tail_text, get_pathname. rewrite Ho.
  destruct (path u) as [|s segs] eqn:Ep; [done|]. cbn [join_path app tail].
  set (pt := s ++ join_path segs).
  assert (Hpt : Forall (fun c => (c =? 63) || (c =? 35) = false) pt).
  { apply List.Forall_forall. intros c Hc.
    assert (Hj : In c (join_path (s :: segs))) by (cbn; right; done).
    apply join_path_chars in Hj as [->|(s' & Hs' & Hc')]; [done|].
    rewrite List.Forall_forall in Hsegs. destruct (Hsegs s' Hs') as (Hcs & _ & _).
    rewrite List.Forall_forall in Hcs. destruct (Hcs c Hc') as [H _].
    revert H. unfold path_set, query_set. lia. }
  assert (Hseg : parse_segments (S (length pt)) [] pt = s :: segs).
  { pose proof (parse_segments_normal (s :: segs) ltac:(done) Hsegs (S (length pt)) []) as HP.
    cbn [join_path tail app] in HP. apply HP. subst pt. clear.
    cbn. rewrite length_app. induction segs; cbn; [lia|]. rewrite length_app. lia. }
  unfold parse_tail, get_search, get_hash.
  destruct (query u) as [[|q0 q]|]; destruct (fragment u) as [[|f0 f]|]; cbn [app drop_empty];
    rewrite ?app_nil_r;
    first [rewrite span_until_all by done | rewrite span_until_app by done]; rewrite Hseg;
    repeat match goal with
    | |- context [span_until ?g ((?x :: ?l) ++ ?c :: ?r)] =>
        rewrite (span_until_app g (x :: l) c r)
          by (done || (eapply Forall_impl; [eassumption|]; intros ?; unfold special_query_set, query_set; lia))
    | |- context [span_until ?g (?x :: ?l ++ ?c :: ?r)] =>
        change (x :: l ++ c :: r) with ((x :: l) ++ c :: r)
    | |- context [span_until ?g (?x :: ?l)] =>
        rewrite (span_until_all g (x :: l))
          by (eapply Forall_impl; [eassumption|]; intros ?; unfold special_query_set, query_set; lia)
    end;
    rewrite ?encode_id by done; reflexivity.
Qed.

(** ** Texts of printable characters *)

Lemma code_points_printable s : printable s -> code_points s = s.
Proof.
  induction 1 as [|c s Hc _ IH]; cbn [code_points]; [done|].
  replace ((0xD800 <=? c) && (c <=? 0xDBFF)) with false by lia.
  replace ((0xDC00 <=? c) && (c <=? 0xDFFF)) with false by lia. by rewrite IH.
Qed.

Lemma drop_c0_printable s : printable s -> drop_c0 s = s.
Proof. intros H. destruct H as [|c s Hc _]; cbn; [done|]. by replace (c <=? 32) with false by lia. Qed.

Lemma clean_printable s : printable s -> clean s = s.
Proof.
  intros H. unfold clean.
  rewrite (drop_c0_printable s H), (drop_c0_printable (rev s)), rev_involutive
    by (by apply List.Forall_rev).
  induction H as [|c s Hc _ IH]; cbn; [done|].
  replace ((c =? 9) || (c =? 10) || (c =? 13)) with false by lia. cbn. by rewrite IH.
Qed.

Lemma set_false_printable set s : covers set -> Forall (fun c => set c = false) s -> printable s.
Proof. intros Hset H. eapply Forall_impl; [exact H|]. apply Hset. Qed.

Lemma join_path_printable segs : Forall normal_segment segs -> printable (join_path segs).
Proof.
  intros H. apply List.Forall_forall. intros c Hc. rewrite List.Forall_forall in H.
  apply join_path_chars in Hc as [->|(s & Hs & Hc)]; [lia|].
  destruct (H s Hs) as (Hcs & _ & _). rewrite List.Forall_forall in Hcs.
  apply covers_path. by apply Hcs.
Qed.

Lemma tail_text_printable u : normal_url u -> printable (tail_text u).
Proof.
  intros [Ho Hne Hsegs Hq Hf]. unfold tail_text, get_pathname, get_search, get_hash. rewrite Ho.
  unfold printable in *. rewrite !Forall_app. split; [by apply join_path_printable|]. split.
  - destruct (query u) as [[|q0 q]|]; [constructor| |constructor]. constructor; [lia|].
    by apply (set_false_printable _ _ covers_query).
  - destruct (fragment u) as [[|q0 q]|]; [constructor| |constructor]. constructor; [lia|].
    by apply (set_false_printable _ _ covers_fragment).
Qed.

(** The pathname does not start with two slashes. *)
Definition single_slash (u : url) : bool :=
  match path u with [] :: _ :: _ => false | _ => true end.

(** Resolving the path, query and fragment of one URL against another keeps the
    base's authority, when the path does not look like an authority. *)
Lemma parse_reference `{UrlPlatform} b u :
  normal_url u -> single_slash u = true ->
  parse_url (tail_text u) (Some b)
  = Some (with_fragment (with_query (with_path b (path u)) (drop_empty (query u))) (drop_empty (fragment u))).
Proof.
  intros Hn Hs. unfold parse_url.
  pose proof (tail_text_printable u Hn) as Hp. rewrite code_points_printable, clean_printable by done.
  pose proof (parse_tail_normal b u Hn) as Ht.
  assert (Hhd : exists s, tail_text u = 47 :: s /\ match s with c :: _ => is_slash c = false | [] => True end).
  { destruct Hn as [Ho Hne Hsegs _ _]. unfold tail_text, get_pathname. rewrite Ho.
    unfold single_slash in Hs. destruct (path u) as [|seg segs]; [done|].
    inv Hsegs. destruct H2 as (Hc & _). cbn [join_path app]. eexists. split; [reflexivity|].
    destruct Hc as [|c seg [_ Hc] _]; [|done]. destruct segs; [|done]. cbn.
    unfold get_search, get_hash.
    destruct (query u) as [[|]|]; destruct (fragment u) as [[|]|]; done. }
  destruct Hhd as (s & E & Hc). rewrite E in Ht |- *. cbn [split_scheme].
  change (is_upper 47 || is_lower 47) with false. cbn [parse_relative tail] in *.
  change (is_slash 47) with true. cbv beta iota. rewrite <- Ht.
  destruct s as [|c s]; [done|]. by rewrite Hc.
Qed.

(** ** The parser returns normal URLs *)

Definition points (s : list Z) : Prop := Forall (fun x => 0 <= x < 0x110000) s.

Lemma span_until_spec f s a b :
  span_until f s = (a, b) -> s = a ++ b /\ Forall (fun x => f x = false) a.
Proof.
  revert a b. induction s as [|c s IH]; cbn; intros a b H; [by inv H|].
  destruct (f c) eqn:E; [by inv H|]. destruct (span_until f s) as [a' b'].
  inv H. destruct (IH a' b eq_refl) as [-> HF]. split; [done|]. by constructor.
Qed.

Lemma encode_normal s :
  points s -> Forall (fun c => is_slash c = false) s ->
  Forall (fun c => path_set c = false /\ is_slash c = false) (encode path_set s).
Proof.
  intros Hs Hsl. apply List.Forall_forall. intros c Hc.
  apply encode_char in Hc as [D|[Hset Hin]]; [|split; [done|]|done].
  - unfold path_set, query_set, c0_set, is_slash. lia.
  - rewrite List.Forall_forall in Hsl. by apply Hsl.
Qed.

Lemma Forall_removelast {A} (P : A -> Prop) l : Forall P l -> Forall P (removelast l).
Proof.
  induction 1 as [|x l Hx Hl IH]; cbn; [done|]. destruct l; [done|]. by constructor.
Qed.

Lemma empty_normal : normal_segment [].
Proof. by repeat split. Qed.

Lemma parse_segments_ok fuel : forall p s,
  points s -> (length s < fuel)%nat -> Forall normal_segment p ->
  parse_segments fuel p s <> [] /\ Forall normal_segment (parse_segments fuel p s).
Proof.
  induction fuel as [|f IH]; intros p s Hs Hl Hp; [lia|]. cbn [parse_segments].
  destruct (span_until is_slash s) as [seg r] eqn:E. apply span_until_spec in E as [-> Hseg].
  apply Forall_app in Hs as [Hs Hr].
  pose proof (encode_normal seg Hs Hseg) as Hn. set (e := encode path_set seg) in *.
  assert (Hsh : Forall normal_segment (shorten p)) by (by apply Forall_removelast).
  rewrite length_app in Hl.
  destruct r as [|c r]; [|inv Hr; cbn in Hl; assert (length r < f)%nat by lia];
    destruct (is_double_dot e) eqn:Ed; [|destruct (is_single_dot e) eqn:Es| |destruct (is_single_dot e) eqn:Es];
    first [ split; [by intros [? ?]%app_nil|]; apply Forall_app; split; auto;
            repeat constructor; auto using empty_normal
          | apply IH; auto; apply Forall_app; repeat constructor; auto ].
Qed.

Lemma parse_tail_ok u p s :
  points s -> Forall normal_segment p -> opaque u = None -> query u = None -> fragment u = None ->
  normal_url (parse_tail u p s).
Proof.
  intros Hs Hp Ho Hq Hf. unfold parse_tail.
  destruct (span_until _ s) as [pt r] eqn:E. apply span_until_spec in E as [-> _].
  apply Forall_app in Hs as [Hs Hr].
  destruct (parse_segments_ok (S (length pt)) p pt Hs ltac:(lia) Hp) as [Hne Hn].
  assert (Hqs : forall q, points q -> Forall (fun c => special_query_set c = false) (encode special_query_set q)).
  { intros. apply encode_set_false; [|done]. intros c D. unfold special_query_set, query_set, c0_set. lia. }
  assert (Hfs : forall q, points q -> Forall (fun c => fragment_set c = false) (encode fragment_set q)).
  { intros. apply encode_set_false; [|done]. intros c D. unfold fragment_set, c0_set. lia. }
  assert (Hbase : forall q f, match q with Some q => Forall (fun c => special_query_set c = false) q | None => True end ->
            match f with Some f => Forall (fun c => fragment_set c = false) f | None => True end ->
            normal_url (with_fragment (with_query (with_path u (parse_segments (S (length pt)) p pt)) q) f)).
  { intros. by constructor. }
  assert (Hbare : normal_url (with_path u (parse_segments (S (length pt)) p pt)))
    by (constructor; cbn; rewrite ?Hq, ?Hf; done).
  destruct r as [|c r]; [done|]. inv Hr.
  destruct (Z.eq_dec c 63) as [->|H63]; [|destruct (Z.eq_dec c 35) as [->|H35]].
  - destruct (span_until _ r) as [q r'] eqn:E'. apply span_until_spec in E' as [-> _].
    match goal with H : Forall _ (q ++ r') |- _ => apply Forall_app in H as [Hq' Hr'] end.
    destruct r' as [|d f].
    + replace (with_query _ _) with (with_fragment (with_query (with_path u (parse_segments (S (length pt)) p pt))
        (Some (encode special_query_set q))) None) by (unfold with_fragment, with_query, with_path; cbn; by rewrite Hf).
      apply Hbase; auto.
    + inv Hr'. apply Hbase; auto.
  - replace (with_fragment _ _) with (with_fragment (with_query (with_path u (parse_segments (S (length pt)) p pt)) None)
      (Some (encode fragment_set r))) by (unfold with_fragment, with_query, with_path; cbn; by rewrite Hq).
    apply Hbase; auto.
  - repeat case_match; simplify_eq; done.
Qed.

Lemma parse_tail_scheme u p s : scheme (parse_tail u p s) = scheme u.
Proof. unfold parse_tail. repeat case_match; reflexivity. Qed.

Lemma parse_authority_ok `{UrlPlatform} sch s u :
  points s -> parse_authority sch s = Some u -> normal_url u /\ scheme u = sch.
Proof.
  intros Hs. unfold parse_authority.
  destruct (span_until _ s) as [auth rest] eqn:E. apply span_until_spec in E as [-> _].
  apply Forall_app in Hs as [_ Hr].
  destruct (split_userinfo auth) as [cred hp].
  destruct (match cred with Some _ => _ | None => _ end) as [us pw].
  destruct (split_port false hp) as [h p]. destruct h as [|h0 h]; [done|].
  destruct (host_parse (h0 :: h)) as [hs|]; [|done]. destruct (parse_port _ _) as [pt|]; [|done].
  intros [= <-]. unfold parse_path_start. split; [|apply parse_tail_scheme].
  apply parse_tail_ok; try done.
  destruct rest as [|c rest]; [done|]. inv Hr. case_match; [done|by constructor].
Qed.

Lemma drop_slashes_points s : points s -> points (drop_slashes s).
Proof. induction 1 as [|c s Hc Hs IH]; cbn; [constructor|]. case_match; [done|by constructor]. Qed.

Lemma encode_query_ok s : points s -> Forall (fun c => special_query_set c = false) (encode special_query_set s).
Proof.
  intros. apply encode_set_false; [|done]. intros c D. unfold special_query_set, query_set, c0_set. lia.
Qed.

Lemma encode_fragment_ok s : points s -> Forall (fun c => fragment_set c = false) (encode fragment_set s).
Proof.
  intros. apply encode_set_false; [|done]. intros c D. unfold fragment_set, c0_set. lia.
Qed.

Lemma parse_relative_ok `{UrlPlatform} b s u :
  normal_url b -> points s -> parse_relative b s = Some u -> normal_url u /\ scheme u = scheme b.
Proof.
  intros Hb Hs. pose proof Hb as [Ho Hne Hsegs Hq Hf]. unfold parse_relative.
  destruct s as [|c s]; [intros [= <-]; by repeat constructor|]. inv Hs.
  destruct (is_slash c).
  { destruct s as [|d s]; [intros [= <-]; split; [by apply parse_tail_ok | by rewrite parse_tail_scheme]|].
    destruct (is_slash d); [|intros [= <-]; split; [by apply parse_tail_ok | by rewrite parse_tail_scheme]].
    apply parse_authority_ok. apply drop_slashes_points. by inv H3. }
  destruct (c =? 63).
  { destruct (span_until _ s) as [q r] eqn:E. apply span_until_spec in E as [-> _].
    apply Forall_app in H3 as [Hq' Hr]. intros [= <-].
    destruct r as [|d f]; [|inv Hr]; split; try done; constructor; cbn; auto using encode_query_ok, encode_fragment_ok. }
  destruct (c =? 35).
  { intros [= <-]. split; [|done]. constructor; cbn; auto using encode_fragment_ok. }
  intros [= <-]. split; [|by rewrite parse_tail_scheme].
  apply parse_tail_ok; try done; [by constructor | by apply Forall_removelast].
Qed.

Lemma code_points_points s : Forall (fun c => 0 <= c < 65536) s -> points (code_points s).
Proof.
  assert (Hind : forall n s, (length s <= n)%nat -> Forall (fun c => 0 <= c < 65536) s -> points (code_points s)).
  { induction n as [|n IH]; intros [|c t] Hn Ht; cbn [length] in Hn; try lia; [constructor..|]. inv Ht.
    cbn [code_points]. case_match; [|case_match; constructor; try lia; apply IH; done || lia].
    bool_prop. destruct t as [|d t']; [repeat constructor; lia|].
    match goal with H : Forall _ (_ :: _) |- _ => inv H end. cbn in Hn.
    case_match; bool_prop; constructor; try lia; apply IH; try done; try (cbn; lia). by constructor. }
  intros H. by apply (Hind (length s)).
Qed.

Lemma clean_points s : points s -> points (clean s).
Proof.
  intros H. unfold clean, points in *. apply List.Forall_forall. intros c Hc.
  apply List.filter_In in Hc as [Hc _]. apply in_rev in Hc.
  assert (Hd : forall l x, In x (drop_c0 l) -> In x l).
  { induction l as [|y l IH]; cbn; [done|]. intros x. case_match; [auto|done]. }
  apply Hd, in_rev, Hd in Hc. rewrite List.Forall_forall in H. by apply H.
Qed.

(** A text parsed against a normal base gives a normal URL, unless its own
    scheme is one that is not special. *)
Lemma parse_url_normal `{UrlPlatform} text b u :
  Forall (fun c => 0 <= c < 65536) text -> normal_url b -> is_special (scheme b) = true ->
  (forall v, parse_other text = Some v -> is_special (scheme v) = false) ->
  parse_url text (Some b) = Some u -> is_special (scheme u) = true -> normal_url u.
Proof.
  intros Ht Hb Hsb Hother. unfold parse_url.
  pose proof (clean_points _ (code_points_points _ Ht)) as Hp.
  set (s := clean (code_points text)) in *.
  destruct (split_scheme s) as [[sch r]|] eqn:E.
  - assert (Hr : points r).
    { unfold split_scheme in E. destruct s as [|c s']; [done|]. case_match; [|done].
      destruct (span_until _ _) as [a b'] eqn:E'. apply span_until_spec in E' as [E' _].
      destruct b' as [|x b']; [done|]. assert (x = 58 /\ b' = r) as [-> ->] by (repeat case_match; by simplify_eq).
      rewrite E' in Hp. apply Forall_app in Hp as [_ Hp]. by inv Hp. }
    destruct (is_special sch); [|intros H1 H2; rewrite (Hother _ H1) in H2; done].
    assert (Ha : parse_authority sch (drop_slashes r) = Some u -> normal_url u)
      by (intros Hx; by apply (parse_authority_ok _ _ _ (drop_slashes_points _ Hr) Hx)).
    assert (Hrel : parse_relative b r = Some u -> normal_url u)
      by (intros Hx; by apply (parse_relative_ok _ _ _ Hb Hr Hx)).
    intros HP _. destruct (str_eqb (scheme b) sch); repeat case_match; auto.
  - intros HP _. by apply (parse_relative_ok _ _ _ Hb Hp HP).
Qed.
