(* ===== verification/TransportPolicy.v ===== *)
(** * Transport policy ([web/src/transport-policy.ts])

    [agentTransportURL] moves TLS from the browser to the Agent;
    [sanitizeUpstreamHeaders] filters the headers of an upstream response, points
    redirects back at the synthetic origin and drops cookie domains. *)

From stdpp Require Import base list numbers strings sets.
From Stdlib Require Import ZArith Lia.
From S2P Require Import Prelude JsString Regex Url.
Local Open Scope Z_scope.

Abbreviation RawHeaders := (list (jsstr * jsstr)).

(** ** The code *)

Definition hopByHop : list jsstr :=
  [js "connection"; js "keep-alive"; js "proxy-authenticate"; js "proxy-authorization";
   js "proxy-connection"; js "te"; js "trailer"; js "transfer-encoding"; js "upgrade"].

(** [set.has(x)] *)
Definition has (l : list jsstr) (x : jsstr) : bool := existsb (str_eqb x) l.

(** [remote.port || '443'] *)
Definition port_or_443 (remote : url) : jsstr :=
  match get_port remote with [] => js "443" | p => p end.

(** [new URL(remote)] parses the serialisation of [remote], which gives an equal
    URL: the target starts as a copy. *)
Definition agentTransportURL (remote : url) : url :=
  let target := remote in
  if str_eqb (get_protocol target) (js "https:")
  then set_port (set_scheme target (js "http")) (port_or_443 remote)
  else if str_eqb (get_protocol target) (js "wss:")
  then set_port (set_scheme target (js "ws")) (port_or_443 remote)
  else target.

(** [/;\s*domain=[^;]*/gi] *)
Definition domain_re : regex :=
  rseq [RSet (chr 59); RStar is_space; lit chr_i (js "domain="); RStar (fun c => negb (c =? 59))].

(** The header names listed by the [Connection] headers. *)
Definition nominated `{UnicodeCase} (headers : RawHeaders) : list jsstr :=
  flat_map (fun '(_, value) => map (fun name => toLowerCase (trim name)) (split_char 44 value))
    (List.filter (fun '(name, _) => str_eqb (toLowerCase name) (js "connection")) headers).

(** [new URL(text, base)], throwing. *)
Definition new_URL `{UrlPlatform} (text : jsstr) (base : url) : result url :=
  match parse_url text (Some base) with
  | Some u => Ok u
  | None => Throw (PlatformError "TypeError")
  end.

Definition rewrite_header `{UnicodeCase} `{UrlPlatform} (remote : url) (h : jsstr * jsstr)
  : result (jsstr * jsstr) :=
  let '(name, value) := h in
  let lower := toLowerCase name in
  if str_eqb lower (js "location") then
    let? target := new_URL value remote in
    let? back := new_URL (get_pathname target ++ get_search target ++ get_hash target) remote in
    Ok (name, href back)
  else if str_eqb lower (js "set-cookie") then Ok (name, delete_all domain_re value)
  else Ok (name, value).

Definition forwarded `{UnicodeCase} (headers : RawHeaders) : RawHeaders :=
  let nom := nominated headers in
  List.filter (fun '(name, _) =>
            let lower := toLowerCase name in negb (has hopByHop lower) && negb (has nom lower)) headers.

Definition sanitizeUpstreamHeaders `{UnicodeCase} `{UrlPlatform} (headers : RawHeaders) (remote : url)
  : result RawHeaders :=
  rmapM (rewrite_header remote) (forwarded headers).

(** ** The authority of the transport URL *)

(** A URL as the parser leaves it: a port in range that is not the default. *)
Definition port_ok (u : url) : Prop :=
  match port u with
  | Some p => 0 <= p <= 65535 /\ default_port (scheme u) <> Some p
  | None => True
  end.

Lemma effective_normalize s p u :
  scheme u = s -> default_port s <> None ->
  effective_port (with_port u (normalize_port s p)) = Some p.
Proof.
  intros <- Hd. unfold effective_port, normalize_port. cbn. by case_bool_decide.
Qed.

(** Setting the port to the printed effective port of a secure URL. *)
Lemma secure_port (u : url) (d : jsstr) :
  port_ok u -> is_special (scheme u) = true -> is_special d = true ->
  default_port (scheme u) = Some 443 ->
  effective_port (set_port (set_scheme u d) (port_or_443 u)) = effective_port u
  /\ scheme (set_port (set_scheme u d) (port_or_443 u)) = d.
Proof.
  intros Hp Hsu Hsd Hdef. unfold set_scheme. rewrite Hsu, Hsd. cbn [eqb negb].
  set (v := with_scheme _ d).
  assert (Hv : scheme v = d) by done.
  assert (Hd : default_port d <> None) by (unfold is_special in Hsd; by destruct (default_port d)).
  assert (exists p, leading_digits (port_or_443 u) None = Some p /\ p <= 65535
                    /\ effective_port u = Some p /\ port_or_443 u <> []) as (p & Hl & Hr & He & Hne).
  { unfold port_or_443, get_port, effective_port, port_ok in *. destruct (port u) as [p|].
    - exists p. destruct (string_of_Z p) as [|c l] eqn:E.
      + exfalso. apply (string_of_Z_nonempty p ltac:(lia)). exact E.
      + rewrite <- E, leading_digits_print by lia. repeat split; [lia|congruence].
    - exists 443. rewrite Hdef. by vm_compute. }
  unfold set_port. destruct (port_or_443 u) as [|c l]; [done|]. rewrite Hl.
  rewrite (proj2 (Z.leb_le p 65535) Hr), Hv. split; [|done].
  rewrite (effective_normalize d p v) by done. done.
Qed.

(** The parts of a URL that a request carries besides scheme and port. *)
Definition same_target (u v : url) : Prop :=
  username u = username v /\ password u = password v /\ host u = host v
  /\ path u = path v /\ opaque u = opaque v /\ query u = query v /\ fragment u = fragment v.

Lemma set_port_same u s : same_target (set_port u s) u.
Proof. unfold set_port, same_target. repeat case_match; done. Qed.

Lemma set_scheme_same u s : same_target (set_scheme u s) u.
Proof. unfold set_scheme, same_target. repeat case_match; done. Qed.

Lemma same_target_trans u v w : same_target u v -> same_target v w -> same_target u w.
Proof. unfold same_target. intuition congruence. Qed.

(** The scheme of the connection between browser and Agent. *)
Definition plain_scheme (s : jsstr) : jsstr :=
  if str_eqb s (js "https") then js "http" else if str_eqb s (js "wss") then js "ws" else s.

Lemma protocol_eqb u s : str_eqb (get_protocol u) (s ++ js ":") = str_eqb (scheme u) s.
Proof.
  unfold get_protocol, str_eqb. apply bool_decide_ext. split; [|congruence].
  intros E. by apply app_inv_tail in E.
Qed.

(** C14. The transport URL reaches the same host and the same effective port with the
    same credentials, path, query and fragment, over http or ws instead of https
    or wss. *)
Theorem agentTransportURL_authority (remote : url) :
  port_ok remote ->
  let target := agentTransportURL remote in
  effective_port target = effective_port remote
  /\ scheme target = plain_scheme (scheme remote)
  /\ same_target target remote.
Proof.
  intros Hp. cbv zeta. unfold agentTransportURL, plain_scheme.
  change (js "https:") with (js "https" ++ js ":"). change (js "wss:") with (js "wss" ++ js ":").
  rewrite !protocol_eqb.
  destruct (str_eqb (scheme remote) (js "https")) eqn:E1;
    [|destruct (str_eqb (scheme remote) (js "wss")) eqn:E2; [|done]].
  - apply str_eqb_eq in E1. destruct (secure_port remote (js "http")) as [H1 H2]; try done; try by rewrite E1.
    split; [done|]. split; [done|]. eauto using same_target_trans, set_port_same, set_scheme_same.
  - apply str_eqb_eq in E2. destruct (secure_port remote (js "ws")) as [H1 H2]; try done; try by rewrite E2.
    split; [done|]. split; [done|]. eauto using same_target_trans, set_port_same, set_scheme_same.
Qed.

Definition test_url (sch : string) (p : option Z) : url :=
  mkUrl (js sch) [] [] (js "s-test.webvpn.invalid") p [js "path"] None None None.

Theorem agentTransportURL_authority_witness :
  effective_port (agentTransportURL (test_url "https" (Some 80))) = Some 80
  /\ scheme (agentTransportURL (test_url "https" (Some 80))) = js "http".
Proof.
  pose proof (agentTransportURL_authority (test_url "https" (Some 80))) as H.
  destruct H as (H1 & H2 & _); [split; [lia | vm_compute; discriminate]|].
  split; [rewrite H1; reflexivity | rewrite H2; vm_compute; reflexivity].
Defined.

Example agentTransportURL_test1 :
  href (agentTransportURL (test_url "https" None)) = js "http://s-test.webvpn.invalid:443/path".
Proof. vm_compute. reflexivity. Qed.
Example agentTransportURL_test2 :
  href (agentTransportURL (test_url "wss" None)) = js "ws://s-test.webvpn.invalid:443/path".
Proof. vm_compute. reflexivity. Qed.
Example agentTransportURL_test3 :
  href (agentTransportURL (test_url "http" None)) = js "http://s-test.webvpn.invalid/path".
Proof. vm_compute. reflexivity. Qed.

(** ** Header filtering *)

Lemma has_spec l x : has l x = true <-> x ∈ l.
Proof.
  unfold has. rewrite existsb_exists. split.
  - intros (y & Hy & E). apply str_eqb_eq in E as ->. by apply list_elem_of_In.
  - intros H. exists x. split; [by apply list_elem_of_In | apply str_eqb_refl].
Qed.

Lemma rewrite_header_name `{UnicodeCase} `{UrlPlatform} remote h h' :
  rewrite_header remote h = Ok h' ->
  fst h' = fst h
  /\ (toLowerCase (fst h) <> js "location" -> toLowerCase (fst h) <> js "set-cookie" -> h' = h).
Proof.
  destruct h as [name value]. unfold rewrite_header. cbn [fst].
  destruct (str_eqb _ (js "location")) eqn:E1.
  - intros E. apply rbind_Ok in E as (t & _ & E). apply rbind_Ok in E as (b & _ & E). inv E.
    split; [done|]. intros Hn. by apply str_eqb_eq in E1.
  - destruct (str_eqb _ (js "set-cookie")) eqn:E2; intros E; inv E; [|done].
    split; [done|]. intros _ Hn. by apply str_eqb_eq in E2.
Qed.

(** What is dropped, said without the code.  The hop-by-hop headers are those of RFC 2616, section 13.5.1, and
    [Proxy-Connection]. *)
Definition hop_by_hop (name : jsstr) : Prop :=
  name = js "connection" \/ name = js "keep-alive" \/ name = js "proxy-authenticate" \/ name = js "proxy-authorization"
  \/ name = js "proxy-connection" \/ name = js "te" \/ name = js "trailer" \/ name = js "transfer-encoding" \/ name = js "upgrade".

(** A Connection header, in any case, nominates what stands between its commas without the white space around it. *)
Definition nominates `{UnicodeCase} (headers : RawHeaders) (name : jsstr) : Prop :=
  exists field value w1 option w2, (field, value) ∈ headers /\ toLowerCase field = js "connection"
    /\ piece_of 44 value (w1 ++ option ++ w2) /\ forallb is_space w1 = true /\ forallb is_space w2 = true
    /\ no_edge_space option /\ name = toLowerCase option.

(** The response [out] relays the headers that are not dropped, in their order, and only a Location or a Set-Cookie gets
    another value. *)
Inductive relayed `{UnicodeCase} (dropped : jsstr -> Prop) : RawHeaders -> RawHeaders -> Prop :=
| relayed_nil : relayed dropped [] []
| relayed_drop name value headers out :
    dropped (toLowerCase name) -> relayed dropped headers out -> relayed dropped ((name, value) :: headers) out
| relayed_keep name value value' headers out :
    ~ dropped (toLowerCase name) ->
    (toLowerCase name <> js "location" -> toLowerCase name <> js "set-cookie" -> value' = value) ->
    relayed dropped headers out -> relayed dropped ((name, value) :: headers) ((name, value') :: out).

Lemma hopByHop_spec x : has hopByHop x = true <-> hop_by_hop x.
Proof. rewrite has_spec. unfold hopByHop, hop_by_hop. rewrite !elem_of_cons, elem_of_nil. tauto. Qed.

Lemma nominated_spec `{UnicodeCase} headers x : has (nominated headers) x = true <-> nominates headers x.
Proof.
  rewrite has_spec, list_elem_of_In. unfold nominated, nominates. rewrite in_flat_map. split.
  - intros ([field value] & [Hin Hf]%List.filter_In & (p & <- & Hp%list_elem_of_In)%in_map_iff).
    apply str_eqb_eq in Hf. apply split_char_pieces in Hp.
    destruct (trim_split p) as (w1 & w2 & E & F1 & F2). exists field, value, w1, (trim p), w2.
    rewrite <- E. split; [by apply list_elem_of_In|]. repeat (split; [done|]). split; [apply trim_no_edge|done].
  - intros (field & value & w1 & o & w2 & Hin%list_elem_of_In & Hf & Hp%split_char_pieces & F1 & F2 & Hn & ->).
    exists (field, value). split; [apply List.filter_In; split; [done|by apply str_eqb_eq]|].
    apply in_map_iff. exists (w1 ++ o ++ w2). split; [by rewrite trim_unique|by apply list_elem_of_In].
Qed.

Lemma forwarded_relays `{UnicodeCase} `{UrlPlatform} remote nom (headers out : RawHeaders) :
  rmapM (rewrite_header remote) (List.filter (fun '(name, _) =>
    let lower := toLowerCase name in negb (has hopByHop lower) && negb (has nom lower)) headers) = Ok out ->
  relayed (fun name => has hopByHop name = true \/ has nom name = true) headers out.
Proof.
  revert out. induction headers as [|[name value] headers IH]; intros out; cbn [List.filter].
  - intros [= <-]. constructor.
  - destruct (has hopByHop (toLowerCase name)) eqn:E1; [intros; apply relayed_drop; auto|].
    destruct (has nom (toLowerCase name)) eqn:E2; [intros; apply relayed_drop; auto|]. cbn [negb andb].
    intros Hs%rmapM_Ok. inversion Hs as [|? [name' value'] ? out' Hh Ho]; subst. apply rmapM_Ok in Ho.
    destruct (rewrite_header_name _ _ _ Hh) as [E Hv]. cbn in E, Hv. subst name'. apply relayed_keep; [|..|by apply IH].
    + rewrite E1, E2. by intros [?|?].
    + intros H1 H2. specialize (Hv H1 H2). by injection Hv.
Qed.

Lemma relayed_iff `{UnicodeCase} (P Q : jsstr -> Prop) headers out :
  (forall x, P x <-> Q x) -> relayed P headers out -> relayed Q headers out.
Proof.
  intros HPQ. induction 1 as [|? ? ? ? Hd _ IH|? ? ? ? ? Hd Hv _ IH]; [constructor|apply relayed_drop; [by apply HPQ|done]|].
  apply relayed_keep; [by rewrite <- HPQ|done|done].
Qed.

(** C5. A sanitised response relays, in their order, exactly the headers that are not hop-by-hop and that no Connection
    header nominates, and only a Location or a Set-Cookie gets another value. *)
Theorem sanitize_forwards_end_to_end `{UnicodeCase} `{UrlPlatform}
    (headers out : RawHeaders) (remote : url) :
  sanitizeUpstreamHeaders headers remote = Ok out ->
  relayed (fun name => hop_by_hop name \/ nominates headers name) headers out.
Proof.
  intros Hs%forwarded_relays. eapply relayed_iff; [|exact Hs]. intros x. cbv beta. rewrite <- hopByHop_spec, <- nominated_spec. done.
Qed.

Definition test_headers : RawHeaders :=
  [(js "Location", js "https://192.168.1.1/admin?next=1");
   (js "Set-Cookie", js "sid=value; Domain=router.lan; Secure; HttpOnly");
   (js "Connection", js "X-Internal-Hop");
   (js "X-Internal-Hop", js "drop");
   (js "Content-Type", js "text/html")].

Definition test_sanitized : RawHeaders :=
  [(js "Location", js "https://s-test.webvpn.invalid/admin?next=1");
   (js "Set-Cookie", js "sid=value; Secure; HttpOnly");
   (js "Content-Type", js "text/html")].

(** Digits and full stops, so that addresses are hosts too. *)
Example sanitize_test :
  sanitizeUpstreamHeaders (H := ascii_case) (H0 := plain_platform) test_headers (test_url "https" None)
  = Ok test_sanitized.
Proof. vm_compute. reflexivity. Qed.

Theorem sanitize_forwards_witness :
  relayed (H := ascii_case) (fun name => hop_by_hop name \/ nominates (H := ascii_case) test_headers name) test_headers test_sanitized.
Proof.
  apply (sanitize_forwards_end_to_end (H := ascii_case) (H0 := plain_platform) test_headers test_sanitized
           (test_url "https" None)).
  vm_compute. reflexivity.
Defined.

(** ** Cookie domains *)

(** An attribute that assigns a domain. *)
Definition is_domain (attr : jsstr) : bool :=
  startsWith (map lower_char (trim_start attr)) (js "domain=").

(** A cookie text without its domain attributes; the first part is the cookie. *)
Definition without_domains (s : jsstr) : jsstr :=
  match split_char 59 s with
  | first :: attrs => first ++ concat (map (fun a => 59 :: a) (List.filter (fun a => negb (is_domain a)) attrs))
  | [] => []
  end.

(** The literal either matches at one place or not at all. *)
Lemma run_lit_i l : map lower_char l = l -> forall s,
  run (lit chr_i l) s =
  if startsWith (map lower_char (ahead s)) l
  then [RState (rev (take (length l) (ahead s)) ++ passed s) (drop (length l) (ahead s)) (caps s)]
  else [].
Proof.
  induction l as [|c l IH]; intros Hl [p a cs]; cbn [lit run startsWith length]; [done|].
  cbn in Hl. injection Hl as Hc Hl. cbn [ahead passed caps].
  destruct a as [|d a]; cbn [map]; [done|]. 
  assert (Hd : chr_i c d = (c =? lower_char d)) by (unfold chr_i; by rewrite Hc, Z.eqb_sym).
  rewrite Hd. destruct (c =? lower_char d); cbn [flat_map andb]; [|done].
  rewrite app_nil_r, IH by done. cbn [ahead passed caps take drop rev].
  case_match; [|done]. by rewrite <- app_assoc.
Qed.

(** [\s*] in front of the literal: only the longest run of spaces can work,
    because the literal does not start with a space. *)
Lemma run_spaces_lit c l p a cs :
  map lower_char (c :: l) = c :: l ->
  (forall x, lower_char x = c -> is_space x = false) ->
  exists p', flat_map (run (lit chr_i (c :: l))) (run_star is_space p a cs)
             = run (lit chr_i (c :: l)) (RState p' (trim_start a) cs).
Proof.
  intros Hl Hc. revert p. induction a as [|x a IH]; intros p.
  - exists p. cbn [run_star flat_map trim_start]. by rewrite app_nil_r.
  - cbn [run_star trim_start]. destruct (is_space x) eqn:E.
    + destruct (IH (x :: p)) as (p' & Hp'). exists p'. rewrite flat_map_app, Hp'.
      cbn [flat_map]. rewrite run_lit_i by done. rewrite (run_lit_i (c :: l) Hl (RState p (x :: a) cs)).
      cbn [ahead map startsWith]. destruct (Z.eqb_spec c (lower_char x)) as [Ex|]; [|by rewrite !app_nil_r].
      rewrite Hc in E by done. done.
    + exists p. cbn [flat_map]. by rewrite app_nil_r.
Qed.

(** The head of a greedy run is the longest one. *)
Lemma run_star_head f p a cs :
  exists p' l, run_star f p a cs = RState p' (snd (span_until (fun c => negb (f c)) a)) cs :: l.
Proof.
  revert p. induction a as [|c a IH]; intros p; cbn [run_star span_until].
  - exists p, []. done.
  - destruct (f c); cbn [negb].
    + destruct (IH (c :: p)) as (p' & l & ->). destruct (span_until _ a) as [x y].
      eexists p', _. reflexivity.
    + exists p, []. done.
Qed.

(** The parts of [w ++ r], where [w] holds no separator and [r] is empty or
    starts with one. *)
Lemma split_char_parts c s w ws :
  split_char c s = w :: ws ->
  c ∉ w /\ s = w ++ (match ws with [] => [] | _ => c :: join_char c ws end)
  /\ (ws <> [] -> split_char c (join_char c ws) = ws).
Proof.
  revert w ws. induction s as [|d s IH]; cbn; intros w ws H.
  - inv H. split; [apply not_elem_of_nil|]. done.
  - destruct (d =? c) eqn:E.
    + apply Z.eqb_eq in E as ->. inv H. split; [apply not_elem_of_nil|].
      pose proof (split_char_ne c s). rewrite join_split. cbn.
      split; [by destruct (split_char c s)|done].
    + pose proof (split_char_ne c s). destruct (split_char c s) as [|w' ws'] eqn:Es; [done|]. inv H.
      destruct (IH w' ws eq_refl) as (Hw & -> & Hs). apply Z.eqb_neq in E.
      split; [set_solver|]. split; [by destruct ws|done].
Qed.

Lemma flat_map_flat_map {A B C} (f : B -> list C) (g : A -> list B) l :
  flat_map f (flat_map g l) = flat_map (fun x => flat_map f (g x)) l.
Proof. induction l as [|x l IH]; cbn; [done|]. by rewrite flat_map_app, IH. Qed.

(** A text that is empty or starts with the separator. *)
Definition at_separator (r : jsstr) : Prop := match r with [] => True | c :: _ => c = 59 end.

Lemma startsWith_before x r l :
  59 ∉ l -> at_separator r -> startsWith (x ++ r) l = startsWith x l.
Proof.
  revert x. induction l as [|c l IH]; intros x Hl Hr; [by destruct x|].
  apply not_elem_of_cons in Hl as [Hc Hl]. destruct x as [|d x]; cbn; [|by rewrite IH].
  destruct r as [|e r]; [done|]. cbn in Hr. subst e.
  by rewrite (proj2 (Z.eqb_neq c 59)) by congruence.
Qed.

Lemma trim_start_before w r :
  at_separator r -> 59 ∉ w -> trim_start (w ++ r) = trim_start w ++ r.
Proof.
  intros Hr. induction w as [|c w IH]; intros Hw; cbn.
  - destruct r as [|e r]; [done|]. cbn in Hr. by subst e.
  - apply not_elem_of_cons in Hw as [_ Hw]. case_match; [auto|done].
Qed.

Lemma trim_start_subset c w : c ∈ trim_start w -> c ∈ w.
Proof. induction w as [|d w IH]; cbn; [done|]. case_match; set_solver. Qed.

Lemma domain_lit_lower : map lower_char (js "domain=") = js "domain=".
Proof. vm_compute. reflexivity. Qed.

Lemma lower_d_not_space x : lower_char x = 100 -> is_space x = false.
Proof. unfold lower_char, is_upper, is_space. case_match; bool_prop; lia. Qed.

(** At a separator the pattern consumes exactly the next attribute if it is a
    domain, and matches nothing otherwise. *)
Lemma run_domain p w r :
  59 ∉ w -> at_separator r ->
  if is_domain w
  then exists p' l, run domain_re (RState p (59 :: w ++ r) []) = RState p' r [] :: l
  else run domain_re (RState p (59 :: w ++ r) []) = [].
Proof.
  intros Hw Hr. pose proof domain_lit_lower as Hlow. pose proof lower_d_not_space as Hns.
  change (js "domain=") with (100 :: [111; 109; 97; 105; 110; 61]) in *.
  set (tl := [111; 109; 97; 105; 110; 61]) in *.
  set (any := RStar (fun c => negb (c =? 59))).
  destruct (run_spaces_lit 100 tl (59 :: p) (w ++ r) [] Hlow Hns) as (p1 & E1).
  assert (E : run domain_re (RState p (59 :: w ++ r) [])
              = flat_map (run any) (run (lit chr_i (100 :: tl)) (RState p1 (trim_start (w ++ r)) []))).
  { rewrite <- E1, flat_map_flat_map. cbn [domain_re rseq run ahead passed caps]. unfold chr at 1.
    change (59 =? 59) with true. cbn [flat_map]. rewrite app_nil_r. reflexivity. }
  rewrite E, run_lit_i by done. cbn [ahead passed caps].
  rewrite trim_start_before by done.
  assert (Hsep : at_separator (map lower_char r)) by (destruct r; [done|]; cbn in *; by subst).
  rewrite map_app, startsWith_before by (done || (intros H; subst tl; set_solver)).
  change (startsWith (map lower_char (trim_start w)) (100 :: tl)) with (is_domain w).
  destruct (is_domain w) eqn:Ed; [|done].
  cbn [flat_map]. rewrite app_nil_r. unfold any. cbn [run ahead passed caps].
  edestruct (run_star_head (fun c => negb (c =? 59))) as (p' & l & ->). exists p', l. do 2 f_equal.
  assert (Hlen : (length (100%Z :: tl) <= length (trim_start w))%nat).
  { apply startsWith_spec in Ed as (t & Et). apply (f_equal length) in Et.
    rewrite length_map, length_app in Et. change (js "domain=") with (100 :: tl) in Et. lia. }
  rewrite drop_app_le by done.
  assert (Hd : Forall (fun x => negb (negb (x =? 59)) = false) (drop (length (100 :: tl)) (trim_start w))).
  { apply Forall_forall. intros x Hx. rewrite negb_involutive. apply Z.eqb_neq. intros ->.
    apply Hw, trim_start_subset. rewrite <- (take_drop (length (100 :: tl)) (trim_start w)).
    apply elem_of_app. by right. }
  destruct r as [|e r]; [by rewrite app_nil_r, span_until_all|].
  cbn in Hr. subst e. by rewrite span_until_app by done.
Qed.

Lemma delete_all_from_domain fuel : forall p a,
  (length a < fuel)%nat -> delete_all_from fuel domain_re p a = without_domains a.
Proof.
  induction fuel as [|f IH]; intros p a Hf; [lia|]. unfold without_domains.
  destruct a as [|c a]; [reflexivity|]. cbn [length] in Hf. cbn [split_char].
  destruct (split_char 59 a) as [|w ws] eqn:Es; [by apply split_char_ne in Es|].
  destruct (split_char_parts 59 a w ws Es) as (Hw & Ha & Hs).
  destruct (Z.eqb_spec c 59) as [->|Hc].
  - set (r := match ws with [] => [] | _ => 59 :: join_char 59 ws end) in *.
    assert (Hr : at_separator r) by (subst r; by destruct ws).
    pose proof (run_domain p w r Hw Hr) as Hrun. rewrite <- Ha in Hrun. cbn [delete_all_from].
    cbn [List.filter]. destruct (is_domain w) eqn:Ed; cbn [negb].
    + destruct Hrun as (p' & l & ->). cbn [ahead passed].
      rewrite Ha at 1. cbn [length]. rewrite length_app.
      rewrite (proj2 (Nat.ltb_lt _ _)) by lia.
      rewrite IH by (rewrite Ha, length_app in Hf; lia).
      unfold without_domains. subst r. destruct ws as [|w1 ws]; [done|].
      cbn [split_char]. rewrite Z.eqb_refl, Hs by done. done.
    + rewrite Hrun, IH by lia. unfold without_domains. by rewrite Es.
  - cbn [delete_all_from]. assert (Hrun : run domain_re (RState p (c :: a) []) = []).
    { cbn [domain_re rseq run ahead]. unfold chr. by rewrite (proj2 (Z.eqb_neq c 59) Hc). }
    rewrite Hrun, IH by lia. unfold without_domains. by rewrite Es.
Qed.



(** ** Redirects *)

(** C27. A Location header whose target has a special scheme and whose path does not
    start with two slashes is pointed at the synthetic origin: scheme, host, port
    and credentials are those of the requested URL, and path, query and fragment
    those of the redirect. *)
Theorem location_confined `{UnicodeCase} `{UrlPlatform} (remote target : url) (name value : jsstr) :
  toLowerCase name = js "location" ->
  Forall (fun c => 0 <= c < 65536) value ->
  normal_url remote -> is_special (scheme remote) = true ->
  (forall v, parse_other value = Some v -> is_special (scheme v) = false) ->
  parse_url value (Some remote) = Some target -> is_special (scheme target) = true ->
  single_slash target = true ->
  rewrite_header remote (name, value)
  = Ok (name, href (with_fragment (with_query (with_path remote (path target)) (drop_empty (query target)))
                      (drop_empty (fragment target)))).
Proof.
  intros Hn Hv Hr Hs Hother Ht Hts Hss. unfold rewrite_header. rewrite Hn, str_eqb_refl.
  unfold new_URL. rewrite Ht. cbn [rbind].
  pose proof (parse_url_normal value remote target Hv Hr Hs Hother Ht Hts) as Hnt.
  pose proof (parse_reference remote target Hnt Hss) as Hp. unfold tail_text in Hp. by rewrite Hp.
Qed.

Lemma forallb_forall_bound (s : jsstr) :
  forallb (fun c => (0 <=? c) && (c <? 65536)) s = true -> List.Forall (fun c => 0 <= c < 65536) s.
Proof.
  intros H. apply List.Forall_forall. intros c Hc. rewrite forallb_forall in H. specialize (H c Hc). lia.
Qed.

Lemma test_url_normal sch p : normal_url (test_url sch p).
Proof.
  constructor; cbn; try done. repeat constructor; vm_compute; reflexivity.
Qed.

Theorem location_confined_witness :
  rewrite_header (H := ascii_case) (H0 := plain_platform) (test_url "https" None)
    (js "Location", js "https://192.168.1.1/admin?next=1")
  = Ok (js "Location", js "https://s-test.webvpn.invalid/admin?next=1").
Proof.
  etransitivity.
  - apply (location_confined (H := ascii_case) (H0 := plain_platform) (test_url "https" None)
             (mkUrl (js "https") [] [] (js "192.168.1.1") None [js "admin"] None (Some (js "next=1")) None)).
    + vm_compute. reflexivity.
    + apply forallb_forall_bound. vm_compute. reflexivity.
    + apply test_url_normal.
    + vm_compute. reflexivity.
    + discriminate.
    + vm_compute. reflexivity.
    + vm_compute. reflexivity.
    + vm_compute. reflexivity.
  - vm_compute. reflexivity.
Defined.

(** The guard on the path is needed: an upstream redirect whose path starts with
    two slashes is resolved as a scheme-relative reference, and the rewritten
    Location leaves the synthetic origin. *)
Theorem location_escapes :
  rewrite_header (H := ascii_case) (H0 := plain_platform) (test_url "https" None)
    (js "Location", js "https://192.168.1.1//evil.example/x")
  = Ok (js "Location", js "https://evil.example/x").
Proof. vm_compute. reflexivity. Qed.
