(* ===== verification/Browser.v ===== *)
(** * Browser objects shared by the components

    The ready state of a data channel, and a JavaScript [Map] with string keys:
    an association list in insertion order, in which [set] on an existing key
    keeps its place. *)

From stdpp Require Import base list numbers strings sets.
From Stdlib Require Import ZArith Lia.
From S2P Require Import Prelude JsString.
Local Open Scope Z_scope.

Inductive readyState := Connecting | Open | Closing | Closed.
#[export] Instance readyState_eq_dec : EqDecision readyState.
Proof. solve_decision. Defined.

(** ** Map *)

Section Map.
Context {A : Type}.

Fixpoint map_get (k : jsstr) (m : list (jsstr * A)) : option A :=
  match m with
  | [] => None
  | (k', v) :: m' => if str_eqb k' k then Some v else map_get k m'
  end.

Fixpoint map_set (k : jsstr) (v : A) (m : list (jsstr * A)) : list (jsstr * A) :=
  match m with
  | [] => [(k, v)]
  | (k', v') :: m' => if str_eqb k' k then (k', v) :: m' else (k', v') :: map_set k v m'
  end.

Definition map_delete (k : jsstr) (m : list (jsstr * A)) : list (jsstr * A) :=
  List.filter (fun p => negb (str_eqb (fst p) k)) m.

Lemma map_get_elem k v m : map_get k m = Some v -> (k, v) ∈ m.
Proof.
  induction m as [|[k' v'] m IH]; cbn; [done|]. destruct (str_eqb k' k) eqn:E.
  - apply str_eqb_eq in E as ->. intros [= ->]. by left.
  - intros H. right. by apply IH.
Qed.

Lemma map_delete_elem k m p : p ∈ map_delete k m <-> p ∈ m /\ fst p <> k.
Proof.
  unfold map_delete. rewrite !list_elem_of_In, List.filter_In, negb_true_iff, str_eqb_neq. done.
Qed.

Lemma map_set_elem k v m p : p ∈ map_set k v m -> p = (k, v) \/ p ∈ m.
Proof.
  induction m as [|[k' v'] m IH]; cbn; [set_solver|]. destruct (str_eqb k' k) eqn:E.
  - apply str_eqb_eq in E as ->. set_solver.
  - rewrite elem_of_cons. intros [->|H]; [set_solver|]. destruct (IH H); set_solver.
Qed.

Lemma map_set_new k v m : (k, v) ∈ map_set k v m.
Proof.
  induction m as [|[k' v'] m IH]; cbn; [by left|]. destruct (str_eqb k' k) eqn:E.
  - apply str_eqb_eq in E as ->. by left.
  - by right.
Qed.

Lemma map_set_keep k v m p : p ∈ m -> fst p <> k -> p ∈ map_set k v m.
Proof.
  induction m as [|[k' v'] m IH]; cbn; [set_solver|]. intros Hin Hk. destruct (str_eqb k' k) eqn:E.
  - apply str_eqb_eq in E as ->. apply elem_of_cons in Hin as [->|H]; [done|by right].
  - apply elem_of_cons in Hin as [->|H]; [by left|right; by apply IH].
Qed.

End Map.
