(* ===== verification/RtcStream.v ===== *)
(** * Wisp over a data channel ([web/src/rtc-stream.ts])

    [RTCWispTransport] turns an RTCDataChannel into a readable and a writable
    stream.  The state holds the channel as the browser keeps it, the controller
    of the readable stream, the object's own fields and the write in progress; an
    event is a message or state change of the channel, a call of the stream's
    consumer, or a write. *)

From stdpp Require Import base list numbers strings sets.
From Stdlib Require Import ZArith Lia.
From S2P Require Import Prelude JsString Browser.
Local Open Scope Z_scope.

(** ** Data *)

(** The bytes of an ArrayBuffer. *)
Abbreviation bytes := (list Z).

(** What a message event carries: an ArrayBuffer, a view of one, or anything else
    (a string or a Blob). *)
Inductive message :=
| MBuffer (b : bytes)
| MView (b : bytes) (byteOffset byteLength : nat)
| MOther.

Record channel := {
  ready : readyState;
  bufferedAmount : Z;
  lowQueued : bool;             (* a bufferedamountlow event is queued *)
  closeQueued : bool            (* a close event is queued *)
}.

(** The controller of the readable stream.  [closeRequested] is set when the
    stream is closed while packets are still queued. *)
Inductive stream_state := SReadable | SClosed | SErrored (e : jserror).

Record controller := {
  sstate : stream_state;
  queue : list bytes;
  closeRequested : bool
}.

Record transport := {
  readController : option controller;
  pending : list bytes;
  closed : bool
}.

(** The write call in progress, waiting for the buffer to drain. *)
Record state := {
  chan : channel;
  tr : transport;
  waiting : option bytes
}.

Inductive output :=
| Enqueued (b : bytes)          (* handed to the readable stream *)
| Sent (b : bytes)
| WriteDone
| WriteFailed (e : jserror)
| HandlerThrew (e : jserror).   (* an exception escaped an event handler *)

(** ** The code *)

Definition highWaterMark : Z := 4 * 2 ^ 20.
Definition lowWaterMark : Z := 1 * 2 ^ 20.

(** ReadableStreamDefaultController: [enqueue], [close] and [error]. *)
Definition can_close_or_enqueue (c : controller) : bool :=
  match sstate c with SReadable => negb (closeRequested c) | _ => false end.

Definition ctl_enqueue (c : controller) (b : bytes) : controller * list output :=
  if can_close_or_enqueue c
  then ({| sstate := SReadable; queue := queue c ++ [b]; closeRequested := false |}, [Enqueued b])
  else (c, [HandlerThrew (PlatformError "TypeError")]).

Definition ctl_close (c : controller) : controller * list output :=
  if can_close_or_enqueue c
  then match queue c with
       | [] => ({| sstate := SClosed; queue := []; closeRequested := true |}, [])
       | q => ({| sstate := SReadable; queue := q; closeRequested := true |}, [])
       end
  else (c, [HandlerThrew (PlatformError "TypeError")]).

Definition ctl_error (c : controller) (e : jserror) : controller :=
  match sstate c with
  | SReadable => {| sstate := SErrored e; queue := []; closeRequested := closeRequested c |}
  | _ => c
  end.

(** The bytes of a view. *)
Definition view_bytes (b : bytes) (off len : nat) : bytes := take len (drop off b).

Definition enqueue (t : transport) (packet : bytes) : transport * list output :=
  match readController t with
  | Some c =>
      let '(c', out) := ctl_enqueue c packet in
      ({| readController := Some c'; pending := pending t; closed := closed t |}, out)
  | None => ({| readController := None; pending := pending t ++ [packet]; closed := closed t |}, [])
  end.

Definition close (t : transport) : transport * list output :=
  if closed t then (t, [])
  else
    match readController t with
    | Some c =>
        let '(c', out) := ctl_close c in
        ({| readController := Some c'; pending := pending t; closed := true |}, out)
    | None => ({| readController := None; pending := pending t; closed := true |}, [])
    end.

Definition abort (t : transport) (e : jserror) : transport :=
  if closed t then t
  else {| readController := option_map (fun c => ctl_error c e) (readController t);
          pending := pending t; closed := true |}.

Definition receive (t : transport) (value : message) : transport * list output :=
  if closed t then (t, [])
  else
    match value with
    | MBuffer b => enqueue t b
    | MView b off len => enqueue t (view_bytes b off len)
    | MOther => (abort t (TypeErrorMsg (js "Wisp transport received a non-binary packet")), [])
    end.

(** The constructor: the stream runs [start] at once, so the controller is set and
    the (empty) backlog is moved into the stream before any event. *)
Definition start (t : transport) (c : controller) : transport * list output :=
  let '(c', out) := fold_left (fun '(c, out) b => let '(c', o) := ctl_enqueue c b in (c', out ++ o))
                      (pending t) (c, []) in
  ({| readController := Some c'; pending := []; closed := closed t |}, out).

Definition fresh_controller : controller :=
  {| sstate := SReadable; queue := []; closeRequested := false |}.

Definition new_RTCWispTransport : transport :=
  fst (start {| readController := None; pending := []; closed := false |} fresh_controller).

(** [channel.close()] *)
Definition channel_close (c : channel) : channel :=
  match ready c with
  | Connecting | Open => {| ready := Closing; bufferedAmount := bufferedAmount c;
                            lowQueued := lowQueued c; closeQueued := closeQueued c |}
  | _ => c
  end.

(** The body of [write]: wait while the buffer is above the high-water mark, then
    send if the channel is open. *)
Definition write_step (s : state) (packet : bytes) : state * list output :=
  if highWaterMark <? bufferedAmount (chan s)
  then ({| chan := chan s; tr := tr s; waiting := Some packet |}, [])
  else if bool_decide (ready (chan s) = Open)
  then ({| chan := {| ready := Open; bufferedAmount := bufferedAmount (chan s) + Z.of_nat (length packet);
                      lowQueued := lowQueued (chan s); closeQueued := closeQueued (chan s) |};
           tr := tr s; waiting := None |}, [Sent packet; WriteDone])
  else ({| chan := chan s; tr := tr s; waiting := None |},
        [WriteFailed (ErrorMsg (js "RTCDataChannel is not open"))]).

(** ** Events *)

Inductive event :=
| EMessage (m : message)
| EDrain (n : Z)                (* the network accepts [n] buffered bytes *)
| EChannelClosed                (* the channel reaches the closed state *)
| EOnClose | EOnError | EOnLow  (* the events the code listens to *)
| ERead                         (* the consumer takes a packet *)
| ECancel                       (* the consumer cancels the stream *)
| EWrite (b : bytes)
| EWriterClose | EWriterAbort.

Definition set_tr (s : state) (p : transport * list output) : state * list output :=
  ({| chan := chan s; tr := fst p; waiting := waiting s |}, snd p).

Definition set_chan (s : state) (c : channel) : state :=
  {| chan := c; tr := tr s; waiting := waiting s |}.

(** The consumer's side of the stream. *)
Definition consumer_read (c : controller) : option controller :=
  match sstate c, queue c with
  | SReadable, _ :: q =>
      Some {| sstate := match q with [] => if closeRequested c then SClosed else SReadable | _ => SReadable end;
              queue := q; closeRequested := closeRequested c |}
  | _, _ => None
  end.

Definition consumer_cancel (c : controller) : option controller :=
  match sstate c with
  | SReadable => Some {| sstate := SClosed; queue := []; closeRequested := closeRequested c |}
  | _ => None
  end.

(** One event; [None] when the event cannot happen in this state.  Messages are
    delivered only on an open channel, queued events only after their cause, and a
    closed channel no longer drains. *)
Definition step (s : state) (e : event) : option (state * list output) :=
  match e with
  | EMessage m =>
      if bool_decide (ready (chan s) = Open) then Some (set_tr s (receive (tr s) m)) else None
  | EDrain n =>
      if (0 <=? n) && (n <=? bufferedAmount (chan s)) && negb (bool_decide (ready (chan s) = Closed)) then
        let b := bufferedAmount (chan s) in
        let c := {| ready := ready (chan s); bufferedAmount := b - n;
                    lowQueued := lowQueued (chan s) || ((lowWaterMark <? b) && (b - n <=? lowWaterMark));
                    closeQueued := closeQueued (chan s) |} in
        Some (set_chan s c, [])
      else None
  | EChannelClosed =>
      match ready (chan s) with
      | Closed => None
      | _ => Some (set_chan s {| ready := Closed; bufferedAmount := bufferedAmount (chan s);
                                 lowQueued := lowQueued (chan s); closeQueued := true |}, [])
      end
  | EOnClose =>
      if closeQueued (chan s) then
        let s := set_chan s {| ready := ready (chan s); bufferedAmount := bufferedAmount (chan s);
                               lowQueued := lowQueued (chan s); closeQueued := false |} in
        let '(s', out) := set_tr s (close (tr s)) in
        match waiting s' with
        | Some _ => Some ({| chan := chan s'; tr := tr s'; waiting := None |},
                          out ++ [WriteFailed (ErrorMsg (js "RTCDataChannel closed"))])
        | None => Some (s', out)
        end
      else None
  | EOnError => Some (set_tr s (abort (tr s) (ErrorMsg (js "RTCDataChannel failed")), []))
  | EOnLow =>
      if lowQueued (chan s) then
        let s := set_chan s {| ready := ready (chan s); bufferedAmount := bufferedAmount (chan s);
                               lowQueued := false; closeQueued := closeQueued (chan s) |} in
        match waiting s with
        | Some packet => Some (write_step s packet)
        | None => Some (s, [])
        end
      else None
  | ERead =>
      match readController (tr s) with
      | Some c => match consumer_read c with
                  | Some c' => Some (set_tr s ({| readController := Some c'; pending := pending (tr s);
                                                  closed := closed (tr s) |}, []))
                  | None => None
                  end
      | None => None
      end
  | ECancel =>
      match readController (tr s) with
      | Some c => match consumer_cancel c with
                  | Some c' => Some (set_tr (set_chan s (channel_close (chan s)))
                                       ({| readController := Some c'; pending := pending (tr s);
                                           closed := closed (tr s) |}, []))
                  | None => None
                  end
      | None => None
      end
  | EWrite b => match waiting s with None => Some (write_step s b) | Some _ => None end
  | EWriterClose | EWriterAbort =>
      match waiting s with None => Some (set_chan s (channel_close (chan s)), []) | Some _ => None end
  end.

Definition init : state :=
  {| chan := {| ready := Open; bufferedAmount := 0; lowQueued := false; closeQueued := false |};
     tr := new_RTCWispTransport; waiting := None |}.

(** A run of events from the initial state, with everything it put out. *)
Inductive run : list event -> state -> list output -> Prop :=
| run_nil : run [] init []
| run_snoc es e s s' out o : run es s out -> step s e = Some (s', o) -> run (es ++ [e]) s' (out ++ o).

(** ** Delivery *)

(** The packets a sequence of events should deliver: the payloads of the binary
    messages up to the first close, error or non-binary message. *)
Fixpoint payloads (es : list event) : list bytes :=
  match es with
  | [] => []
  | EMessage (MBuffer b) :: r => b :: payloads r
  | EMessage (MView b off len) :: r => view_bytes b off len :: payloads r
  | EMessage MOther :: _ | EOnClose :: _ | EOnError :: _ => []
  | _ :: r => payloads r
  end.

Definition enqueued (out : list output) : list bytes :=
  omap (fun o => match o with Enqueued b => Some b | _ => None end) out.

Definition terminal (e : event) : bool :=
  match e with EMessage MOther | EOnClose | EOnError => true | _ => false end.

Definition payload (e : event) : list bytes :=
  match e with
  | EMessage (MBuffer b) => [b]
  | EMessage (MView b off len) => [view_bytes b off len]
  | _ => []
  end.

Lemma payloads_snoc es e :
  payloads (es ++ [e]) = payloads es ++ (if existsb terminal es then [] else payload e).
Proof.
  induction es as [|x es IH]; [by destruct e as [[]| | | | | | | | | |]|].
  cbn [app payloads existsb]. destruct x as [[]| | | | | | | | | |]; cbn [terminal orb]; rewrite ?IH; done.
Qed.

(** The state after construction and all events: the stream has its controller,
    nothing is held back, and while the object is open on an open channel the
    controller accepts packets. *)
Record inv (es : list event) (s : state) : Prop := {
  inv_ctl : exists c, readController (tr s) = Some c
              /\ (closed (tr s) = false -> ready (chan s) = Open -> can_close_or_enqueue c = true);
  inv_pending : pending (tr s) = [];
  inv_closed : closed (tr s) = existsb terminal es
}.

Lemma inv_init : inv [] init.
Proof. constructor; try done. eexists. split; [reflexivity|]. done. Qed.

(** What an event does to the object and its stream, whatever the channel does. *)
Definition effect (t : transport) (e : event) : transport * list output :=
  let with_ctl f := match readController t with
                    | Some c => match f c with
                                | Some c' => {| readController := Some c'; pending := pending t; closed := closed t |}
                                | None => t
                                end
                    | None => t
                    end in
  match e with
  | EMessage m => receive t m
  | EOnClose => close t
  | EOnError => (abort t (ErrorMsg (js "RTCDataChannel failed")), [])
  | ERead => (with_ctl consumer_read, [])
  | ECancel => (with_ctl consumer_cancel, [])
  | _ => (t, [])
  end.

Lemma write_step_effect s b :
  tr (fst (write_step s b)) = tr s /\ ready (chan (fst (write_step s b))) = ready (chan s)
  /\ enqueued (snd (write_step s b)) = [].
Proof. unfold write_step. repeat case_match; bool_prop; done. Qed.

Lemma channel_close_ready c : ready (channel_close c) <> Open.
Proof. unfold channel_close. destruct (ready c) eqn:E; cbn; congruence. Qed.

Lemma step_effect s e s' o :
  step s e = Some (s', o) ->
  tr s' = fst (effect (tr s) e) /\ enqueued o = enqueued (snd (effect (tr s) e))
  /\ (ready (chan s') = Open -> ready (chan s) = Open)
  /\ match e with EMessage _ => ready (chan s) = Open | ECancel => ready (chan s') <> Open | _ => True end.
Proof.
  destruct s as [ch t w]. destruct e; cbn; intros Hs.
  - destruct (bool_decide _) eqn:E; [|done]. bool_prop. by inv Hs.
  - destruct (_ && _); [|done]. by inv Hs.
  - destruct (ready ch); inv Hs; done.
  - destruct (closeQueued ch); [|done]. destruct w; inv Hs; cbn; [|done].
    unfold enqueued. by rewrite omap_app, app_nil_r.
  - by inv Hs.
  - destruct (lowQueued ch); [|done]. destruct w as [p|]; [|by inv Hs].
    pose proof (write_step_effect (set_chan {| chan := ch; tr := t; waiting := Some p |}
       {| ready := ready ch; bufferedAmount := bufferedAmount ch; lowQueued := false; closeQueued := closeQueued ch |}) p)
      as (H1 & H2 & H3). injection Hs as Hs. rewrite Hs in *. cbn [fst snd] in *. rewrite H1, H2, H3. done.
  - destruct (readController t) as [c|]; [|done]. destruct (consumer_read c); [|done]. by inv Hs.
  - destruct (readController t) as [c|]; [|done]. destruct (consumer_cancel c); [|done]. inv Hs. cbn.
    pose proof (channel_close_ready ch). done.
  - destruct w; [done|]. pose proof (write_step_effect {| chan := ch; tr := t; waiting := None |} b) as (H1 & H2 & H3).
    injection Hs as Hs. rewrite Hs in *. cbn [fst snd] in *. rewrite H1, H2, H3. done.
  - destruct w; [done|]. inv Hs. cbn. pose proof (channel_close_ready ch). done.
  - destruct w; [done|]. inv Hs. cbn. pose proof (channel_close_ready ch). done.
Qed.

(** Every event leaves a controller, no backlog, and the [closed] flag set exactly
    by the terminal events; a packet reaches the stream iff it is the payload of a
    message received while the object is open. *)
Lemma effect_inv c cl e :
  (match e with EMessage _ => cl = false -> can_close_or_enqueue c = true | _ => True end) ->
  exists c', effect {| readController := Some c; pending := []; closed := cl |} e
             = ({| readController := Some c'; pending := []; closed := cl || terminal e |},
                snd (effect {| readController := Some c; pending := []; closed := cl |} e))
    /\ enqueued (snd (effect {| readController := Some c; pending := []; closed := cl |} e))
       = (if cl then [] else payload e)
    /\ (cl || terminal e = false -> e <> ECancel ->
        can_close_or_enqueue c = true -> can_close_or_enqueue c' = true).
Proof.
  intros Hm. destruct e as [m| | | | | | | | | |]; cbn;
    try (exists c; destruct cl; by rewrite ?orb_true_r, ?orb_false_r).
  - unfold receive. destruct cl; cbn; [by exists c|].
    destruct m; cbn; unfold ctl_enqueue; rewrite ?Hm by done; eexists; (split; [reflexivity|done]).
  - unfold close. destruct cl; cbn; [by exists c|]. unfold ctl_close.
    destruct (can_close_or_enqueue c); [destruct (queue c)|]; eexists; (split; [reflexivity|done]).
  - unfold abort. destruct cl; cbn; eexists; (split; [reflexivity|done]).
  - rewrite orb_false_r. destruct (consumer_read c) as [c'|] eqn:E; [|exists c; by destruct cl].
    exists c'. split; [done|]. split; [by destruct cl|]. intros _ _.
    revert E. unfold consumer_read, can_close_or_enqueue.
    destruct (sstate c), (queue c) as [|? []]; intros [= <-]; cbn; by destruct (closeRequested c).
  - rewrite orb_false_r. destruct (consumer_cancel c) as [c'|]; [exists c'|exists c]; by destruct cl.
Qed.

Lemma step_inv es e s s' o :
  inv es s -> step s e = Some (s', o) ->
  inv (es ++ [e]) s' /\ enqueued o = (if existsb terminal es then [] else payload e).
Proof.
  intros [(c & Hc & Hcan) Hp Hcl] Hs.
  destruct (step_effect s e s' o Hs) as (Htr & Ho & Hr & Hm).
  destruct s as [ch [rc pe cl] w]. cbn in *. subst rc pe.
  destruct (effect_inv c cl e) as (c' & He & Hq & Hk).
  { destruct e; try done. intros Hf. by apply Hcan. }
  rewrite He in Htr. cbn in Htr. rewrite Ho, Hq, <- Hcl. split; [|done].
  constructor; rewrite Htr; cbn; [|done|by rewrite existsb_app, Hcl; cbn; rewrite orb_false_r].
  exists c'. split; [done|]. intros Hf Ho'. apply Hk; [done| |].
  - intros ->. done.
  - apply orb_false_iff in Hf as [Hf _]. by apply Hcan, Hr.
Qed.

Lemma run_inv es s out : run es s out -> inv es s /\ enqueued out = payloads es.
Proof.
  induction 1 as [|es e s s' out o _ [IHi IHo] Hs]; [split; [apply inv_init|done]|].
  destruct (step_inv es e s s' o IHi Hs) as [Hi Ho]. split; [done|].
  rewrite payloads_snoc, <- IHo, <- Ho. apply omap_app.
Qed.

(** Runs are executable. *)
Definition exec (es : list event) : option (state * list output) :=
  fold_left (fun acc e => match acc with
                          | Some (s, out) => match step s e with
                                             | Some (s', o) => Some (s', out ++ o)
                                             | None => None
                                             end
                          | None => None
                          end) es (Some (init, [])).

Lemma rtc_exec_run es s out : exec es = Some (s, out) -> run es s out.
Proof.
  revert s out. induction es as [|e es IH] using rev_ind; intros s out H; [inv H; constructor|].
  unfold exec in H. rewrite fold_left_app in H. cbn in H. fold (exec es) in H.
  destruct (exec es) as [[s0 out0]|]; [|done]. destruct (step s0 e) as [[s1 o]|] eqn:E; [|done].
  inv H. econstructor; eauto.
Qed.

(** C6. Nothing is lost, duplicated, reordered or invented between the channel and
    the readable stream: after any sequence of events the packets handed to the
    stream are the payloads of the binary messages received before the first
    close, error or non-binary message, in order. *)
Theorem delivery_in_order (es : list event) (s : state) (out : list output) :
  run es s out -> enqueued out = payloads es.
Proof. intros H. by destruct (run_inv _ _ _ H). Qed.

Definition demo_events : list event :=
  [EMessage (MBuffer [1; 2]); EMessage (MView [9; 8; 7; 6] 1 2); EWrite [5]; ERead; EMessage MOther;
   EMessage (MBuffer [3])].

Theorem delivery_witness :
  exists s out, run demo_events s out /\ enqueued out = payloads demo_events
                /\ payloads demo_events = [[1; 2]; [8; 7]].
Proof.
  assert (H : exists s out, exec demo_events = Some (s, out)).
  { eexists _, _. vm_compute. reflexivity. }
  destruct H as (s & out & H). exists s, out. apply rtc_exec_run in H. split; [done|].
  split; [exact (delivery_in_order _ _ _ H) | reflexivity].
Defined.

(** ** Back-pressure and the order of writes *)

Definition write_of (e : event) : list bytes := match e with EWrite b => [b] | _ => [] end.
Definition writes (es : list event) : list bytes := flat_map write_of es.
Definition longest (es : list event) : Z :=
  fold_right Z.max 0 (map (fun b => Z.of_nat (length b)) (writes es)).

Definition sent (out : list output) : list bytes :=
  omap (fun o => match o with Sent b => Some b | _ => None end) out.
Definition failures (out : list output) : nat :=
  length (List.filter (fun o => match o with WriteFailed _ => true | _ => false end) out).

Lemma longest_app es1 es2 : longest (es1 ++ es2) = Z.max (longest es1) (longest es2).
Proof.
  unfold longest, writes. rewrite flat_map_app, map_app, fold_right_app.
  induction (map _ (flat_map write_of es1)) as [|x l IH]; cbn; [|rewrite IH; lia].
  induction (map _ _) as [|y l' IH]; cbn; lia.
Qed.

(** The write in progress is the last one written, and every write has one
    outcome: sent, failed or waiting. *)
Record winv (es : list event) (s : state) (out : list output) : Prop := {
  winv_buffer : 0 <= bufferedAmount (chan s) <= highWaterMark + longest es;
  winv_waiting : match waiting s with Some p => Z.of_nat (length p) <= longest es | None => True end;
  winv_order : (sent out ++ option_list (waiting s)) `sublist_of` writes es;
  winv_count : (length (sent out) + failures out + length (option_list (waiting s)) = length (writes es))%nat
}.

(** What a step does for the writer: wait, send, or fail. *)
Lemma write_step_cases s p :
  let '(s', o) := write_step s p in
  (waiting s' = Some p /\ chan s' = chan s /\ sent o = [] /\ failures o = 0%nat)
  \/ (waiting s' = None /\ sent o = [p] /\ failures o = 0%nat
      /\ bufferedAmount (chan s') = bufferedAmount (chan s) + Z.of_nat (length p)
      /\ bufferedAmount (chan s) <= highWaterMark /\ ready (chan s) = Open)
  \/ (waiting s' = None /\ chan s' = chan s /\ sent o = [] /\ failures o = 1%nat).
Proof.
  unfold write_step. destruct (Z.ltb_spec highWaterMark (bufferedAmount (chan s))); [by left|].
  destruct (bool_decide (ready (chan s) = Open)) eqn:E; bool_prop; right; [left|right]; done.
Qed.

Lemma sent_app o1 o2 : sent (o1 ++ o2) = sent o1 ++ sent o2.
Proof. apply omap_app. Qed.

Lemma failures_app o1 o2 : failures (o1 ++ o2) = (failures o1 + failures o2)%nat.
Proof. unfold failures. by rewrite List.filter_app, length_app. Qed.

Lemma close_out t : sent (snd (close t)) = [] /\ failures (snd (close t)) = 0%nat.
Proof. unfold close, ctl_close. repeat case_match; simplify_eq; done. Qed.

Lemma receive_out t m : sent (snd (receive t m)) = [] /\ failures (snd (receive t m)) = 0%nat.
Proof. unfold receive, enqueue, ctl_enqueue. repeat case_match; simplify_eq; done. Qed.

(** A write step from a state whose writer is free. *)
Lemma winv_write es s out p es' s' o :
  0 <= bufferedAmount (chan s) <= highWaterMark + longest es ->
  (sent out ++ [p]) `sublist_of` writes (es ++ es') ->
  (length (sent out) + failures out + 1 = length (writes (es ++ es')))%nat ->
  Z.of_nat (length p) <= longest (es ++ es') -> longest es <= longest (es ++ es') ->
  write_step s p = (s', o) -> winv (es ++ es') s' (out ++ o).
Proof.
  intros Hb Ho Hc Hl Hl' Hw. pose proof (write_step_cases s p) as H. rewrite Hw in H.
  destruct H as [(Hw' & Hch & Hs & Hf)|[(Hw' & Hs & Hf & Hb' & Hle & _)|(Hw' & Hch & Hs & Hf)]];
    constructor; rewrite ?Hw', ?Hch, ?Hb', ?sent_app, ?failures_app, ?Hs, ?Hf, ?app_nil_r;
    cbn; rewrite ?app_nil_r, ?length_app; cbn [length]; try lia; try done.
  etrans; [|exact Ho]. apply sublist_inserts_r. reflexivity.
Qed.

(** A step that does not touch the writer and puts out neither packets nor
    failures. *)
Lemma winv_quiet es e s out s' o :
  winv es s out -> write_of e = [] -> waiting s' = waiting s ->
  0 <= bufferedAmount (chan s') <= bufferedAmount (chan s) ->
  sent o = [] -> failures o = 0%nat -> winv (es ++ [e]) s' (out ++ o).
Proof.
  intros [Hb Hw Ho Hc] He Hw' Hb' Hs Hf.
  assert (Hwr : writes (es ++ [e]) = writes es)
    by (unfold writes; rewrite flat_map_app; cbn; by rewrite He, !app_nil_r).
  assert (Hlo : longest (es ++ [e]) = longest es) by (unfold longest; by rewrite Hwr).
  constructor; rewrite ?Hwr, ?Hlo, ?Hw', ?sent_app, ?failures_app, ?Hs, ?Hf, ?app_nil_r; done || lia.
Qed.

Lemma winv_step es e s out s' o :
  winv es s out -> step s e = Some (s', o) -> winv (es ++ [e]) s' (out ++ o).
Proof.
  intros Hi Hs. pose proof Hi as [Hb Hw Ho Hc]. destruct s as [ch t w].
  destruct e; cbn in Hs.
  - destruct (bool_decide _); [|done]. inv Hs. destruct (receive_out t m).
    apply winv_quiet with {| chan := ch; tr := t; waiting := w |}; auto. cbn in *. lia.
  - destruct (_ && _) eqn:E; [|done]. inv Hs. bool_prop.
    apply winv_quiet with {| chan := ch; tr := t; waiting := w |}; auto. cbn in *. lia.
  - destruct (ready ch); inv Hs; (apply winv_quiet with {| chan := ch; tr := t; waiting := w |}; auto; cbn in *; lia).
  - destruct (closeQueued ch); [|done]. destruct (close_out t) as [Hs1 Hf1].
    destruct w as [p|]; inv Hs; [|apply winv_quiet with {| chan := ch; tr := t; waiting := None |}; auto; cbn in *; lia].
    assert (Hwr : writes (es ++ [EOnClose]) = writes es) by (unfold writes; by rewrite flat_map_app, app_nil_r).
    assert (Hlo : longest (es ++ [EOnClose]) = longest es) by (unfold longest; by rewrite Hwr).
    constructor; rewrite ?Hwr, ?Hlo, ?sent_app, ?failures_app, ?Hs1, ?Hf1; cbn in *; rewrite ?app_nil_r; try done; try lia.
    etrans; [|exact Ho]. apply sublist_inserts_r. reflexivity.
  - inv Hs. apply winv_quiet with {| chan := ch; tr := t; waiting := w |}; auto. cbn in *. lia.
  - destruct (lowQueued ch); [|done]. destruct w as [p|];
      [|inv Hs; apply winv_quiet with {| chan := ch; tr := t; waiting := None |}; auto; cbn in *; lia].
    injection Hs as Hs.
    assert (Hwr : writes (es ++ [EOnLow]) = writes es) by (unfold writes; by rewrite flat_map_app, app_nil_r).
    assert (Hlo : longest (es ++ [EOnLow]) = longest es) by (unfold longest; by rewrite Hwr).
    eapply winv_write; [| | | | |exact Hs]; rewrite ?Hwr, ?Hlo; cbn in *; try done; lia.
  - destruct (readController t) as [c|]; [|done]. destruct (consumer_read c); [|done]. inv Hs.
    apply winv_quiet with {| chan := ch; tr := t; waiting := w |}; auto. cbn in *. lia.
  - destruct (readController t) as [c|]; [|done]. destruct (consumer_cancel c); [|done]. inv Hs.
    apply winv_quiet with {| chan := ch; tr := t; waiting := w |}; auto.
    cbn in *. unfold channel_close. destruct (ready ch); cbn; lia.
  - destruct w; [done|]. injection Hs as Hs.
    assert (Hwr : writes (es ++ [EWrite b]) = writes es ++ [b]) by (unfold writes; by rewrite flat_map_app).
    eapply winv_write; [| | | | |exact Hs]; rewrite ?Hwr, ?longest_app, ?length_app; cbn in *; try lia.
    rewrite app_nil_r in Ho. by apply sublist_app.
  - destruct w; [done|]. inv Hs. apply winv_quiet with {| chan := ch; tr := t; waiting := None |}; auto.
    cbn in *. unfold channel_close. destruct (ready ch); cbn; lia.
  - destruct w; [done|]. inv Hs. apply winv_quiet with {| chan := ch; tr := t; waiting := None |}; auto.
    cbn in *. unfold channel_close. destruct (ready ch); cbn; lia.
Qed.

Lemma run_winv es s out : run es s out -> winv es s out.
Proof.
  induction 1 as [|es e s s' out o _ IH Hs]; [|by eapply winv_step].
  constructor; cbn; try done; unfold highWaterMark; lia.
Qed.

(** C9. Back-pressure: the channel never buffers more than the high-water mark plus
    one packet, and the packets sent are, in order, the packets written; every
    write is sent, has failed or is the one still waiting. *)
Theorem write_backpressure (es : list event) (s : state) (out : list output) :
  run es s out ->
  0 <= bufferedAmount (chan s) <= highWaterMark + longest es
  /\ (sent out ++ option_list (waiting s)) `sublist_of` writes es
  /\ (length (sent out) + failures out + length (option_list (waiting s)) = length (writes es))%nat.
Proof. intros H. by destruct (run_winv _ _ _ H). Qed.

Theorem write_backpressure_witness :
  exists s out, run demo_events s out
    /\ 0 <= bufferedAmount (chan s) <= highWaterMark + longest demo_events.
Proof.
  assert (H : exists s out, exec demo_events = Some (s, out)).
  { eexists _, _. vm_compute. reflexivity. }
  destruct H as (s & out & H). exists s, out. apply rtc_exec_run in H. split; [done|].
  destruct (write_backpressure _ _ _ H) as [Hb _]. exact Hb.
Defined.

(** ** A write on a closed, full channel *)

(** The channel is closed, its close event has been delivered, and its buffer is
    still above the high-water mark: nothing can wake a waiting write. *)
Definition stuck (p : bytes) (s : state) : Prop :=
  waiting s = Some p /\ ready (chan s) = Closed /\ closeQueued (chan s) = false
  /\ lowQueued (chan s) = false /\ highWaterMark < bufferedAmount (chan s).

Lemma stuck_step p s e s' o :
  stuck p s -> step s e = Some (s', o) -> stuck p s' /\ sent o = [] /\ failures o = 0%nat.
Proof.
  intros (Hw & Hr & Hc & Hl & Hb) Hs. destruct s as [ch t w]. cbn in *. subst w.
  destruct e; cbn in Hs; try rewrite Hr in Hs; try rewrite Hc in Hs; try rewrite Hl in Hs; try done.
  - rewrite andb_false_r in Hs. done.
  - inv Hs. done.
  - destruct (readController t) as [c|]; [|done]. destruct (consumer_read c); [|done]. inv Hs. done.
  - destruct (readController t) as [c|]; [|done]. destruct (consumer_cancel c); [|done]. inv Hs.
    unfold stuck, channel_close. cbn. by rewrite Hr.
Qed.

Inductive steps : state -> list event -> state -> list output -> Prop :=
| steps_nil s : steps s [] s []
| steps_cons s e s1 o es s2 out :
    step s e = Some (s1, o) -> steps s1 es s2 out -> steps s (e :: es) s2 (o ++ out).

Lemma stuck_forever p s es s' out :
  steps s es s' out -> stuck p s -> waiting s' = Some p /\ sent out = [] /\ failures out = 0%nat.
Proof.
  induction 1 as [s|s e s1 o es s2 out Hs _ IH]; intros Hst; [by destruct Hst|].
  destruct (stuck_step p s e s1 o Hst Hs) as (H1 & H2 & H3). destruct (IH H1) as (H4 & H5 & H6).
  by rewrite sent_app, failures_app, H2, H3, H5, H6.
Qed.

(** A write can wait for ever: write a packet larger than the high-water mark, let
    the channel close before it drains, and write again.  The second write is
    accepted, and no later event sends it or rejects it, because the code looks
    at the buffer before it looks at the state of the channel. *)
Theorem write_after_close_hangs (big p : bytes) :
  highWaterMark < Z.of_nat (length big) ->
  exists s out, run [EWrite big; EChannelClosed; EOnClose; EWrite p] s out
    /\ waiting s = Some p
    /\ forall es s' out', steps s es s' out' ->
         waiting s' = Some p /\ sent out' = [] /\ failures out' = 0%nat.
Proof.
  intros Hbig.
  set (ch1 := {| ready := Closed; bufferedAmount := Z.of_nat (length big); lowQueued := false; closeQueued := false |}).
  set (t1 := fst (close new_RTCWispTransport)).
  set (s1 := {| chan := ch1; tr := t1; waiting := Some p |}).
  assert (Hst : stuck p s1) by (by repeat split).
  exists s1, [Sent big; WriteDone]. split; [|split; [done|]].
  - apply (run_snoc [EWrite big; EChannelClosed; EOnClose] (EWrite p)
             {| chan := ch1; tr := t1; waiting := None |} s1 [Sent big; WriteDone] []).
    + apply (run_snoc [EWrite big; EChannelClosed] EOnClose
               (set_chan {| chan := ch1; tr := new_RTCWispTransport; waiting := None |}
                  {| ready := Closed; bufferedAmount := Z.of_nat (length big); lowQueued := false; closeQueued := true |})
               _ [Sent big; WriteDone] []); [|reflexivity].
      eapply (run_snoc [EWrite big] EChannelClosed _ _ [Sent big; WriteDone] []);
        [apply (run_snoc [] (EWrite big) init _ [] [Sent big; WriteDone] run_nil); reflexivity | reflexivity].
    + cbn. unfold write_step. cbn. by rewrite (proj2 (Z.ltb_lt _ _) Hbig).
  - intros es s' out' H. by apply (stuck_forever p s1 es).
Qed.

Theorem write_after_close_hangs_witness :
  exists s out, run [EWrite (repeat 0 (Z.to_nat (highWaterMark + 1))); EChannelClosed; EOnClose; EWrite [7]] s out
    /\ waiting s = Some [7]
    /\ forall es s' out', steps s es s' out' ->
         waiting s' = Some [7] /\ sent out' = [] /\ failures out' = 0%nat.
Proof.
  apply (write_after_close_hangs (repeat 0 (Z.to_nat (highWaterMark + 1))) [7]).
  rewrite repeat_length, Z2Nat.id; unfold highWaterMark; lia.
Defined.
