(* ===== verification/ControlClient.v ===== *)
(** * The control channel client ([ControlClient] of [web/src/connection.ts])

    Diagnostic and temporary-target requests over the control channel.  Each
    request has a random identifier, an entry in the [pending] map, a five second
    timer and a promise; an answer, the timer, or the end of the channel settles
    the promise.  Promises and timers are numbered by the request that made them.
    Time is a number of milliseconds that only advances. *)

From stdpp Require Import base list numbers strings sets gmap.
From Stdlib Require Import ZArith Lia.
From S2P Require Import Prelude JsString Base64 Regex Json Browser.
Local Open Scope Z_scope.

(** ** Identifiers *)

(** [.replace(/=+$/, '')] *)
Fixpoint strip_equals (s : jsstr) : jsstr :=
  match s with
  | [] => []
  | c :: s' => match strip_equals s' with
               | [] => if c =? 61 then [] else [c]
               | t => c :: t
               end
  end.

Definition randomControlID (value : list Z) : result jsstr :=
  let? encoded := btoa value in
  Ok (strip_equals (replace_char 47 95 (replace_char 43 45 encoded))).

(** What [crypto.getRandomValues] can put into the array. *)
Definition valid_random (value : list Z) : bool :=
  bool_decide (length value = 12%nat) && forallb is_byteb value.

(** The Agent's [controlIDPattern]: [^[A-Za-z0-9_-]{1,32}$]. *)
Definition agent_control_id (id : jsstr) : bool :=
  forallb is_url_char id && (1 <=? str_len id) && (str_len id <=? 32).

(** ** State *)

Inductive outcome :=
| Resolved (value : json)
| Rejected (error : jserror).

(** A value of the [pending] map; [promise] stands for its [resolve] and [reject]. *)
Record entry := { promise : nat; timer : nat; expectedType : jsstr }.

(** What the timer's callback captured, and when it is due. *)
Record live_timer := { t_id : jsstr; t_promise : nat; t_due : Z }.

Record client := {
  ready : readyState;
  pending : list (jsstr * entry);
  timers : gmap nat live_timer;
  settled : gmap nat outcome;
  issued : nat;
  now : Z
}.

Inductive output :=
| Sent (text : jsstr)
| Settled (p : nat) (o : outcome).

(** ** The code *)

Definition requestTimeout : Z := 5000.

(** [resolve] and [reject]: only the first call has an effect. *)
Definition settle (c : client) (p : nat) (o : outcome) : client * list output :=
  match settled c !! p with
  | Some _ => (c, [])
  | None =>
      ({| ready := ready c; pending := pending c; timers := timers c;
          settled := <[p := o]> (settled c); issued := issued c; now := now c |}, [Settled p o])
  end.

Definition set_pending (c : client) (m : list (jsstr * entry)) : client :=
  {| ready := ready c; pending := m; timers := timers c; settled := settled c; issued := issued c; now := now c |}.

Definition set_timers (c : client) (m : gmap nat live_timer) : client :=
  {| ready := ready c; pending := pending c; timers := m; settled := settled c; issued := issued c; now := now c |}.

Definition set_ready (c : client) (r : readyState) : client :=
  {| ready := r; pending := pending c; timers := timers c; settled := settled c; issued := issued c; now := now c |}.

Definition clearTimeout (c : client) (t : nat) : client := set_timers c (delete t (timers c)).

(** [this.channel.close()] *)
Definition close_channel (c : client) : client :=
  match ready c with Connecting | Open => set_ready c Closing | _ => c end.

Definition new_promise (c : client) : client :=
  {| ready := ready c; pending := pending c; timers := timers c; settled := settled c;
     issued := S (issued c); now := now c |}.

Definition channel_unavailable : jserror := ErrorMsg (js "诊断通道不可用").
Definition request_timed_out : jserror := ErrorMsg (js "诊断请求超时").
Definition channel_closed : jserror := ErrorMsg (js "诊断通道已关闭").
Definition channel_failed : jserror := ErrorMsg (js "诊断通道发生错误").

(** [request(value, expectedType)]; [full] says that the channel's buffer is full,
    so that [send] throws inside the promise's executor. *)
Definition request (c : client) (value : list (jsstr * outgoing)) (expected : jsstr)
    (random : list Z) (full : bool) : result (client * list output) :=
  let p := issued c in
  if negb (bool_decide (ready c = Open)) then Ok (settle (new_promise c) p (Rejected channel_unavailable))
  else
    let? id := randomControlID random in
    let c := new_promise c in
    let c := set_timers c (<[p := {| t_id := id; t_promise := p; t_due := now c + requestTimeout |}]> (timers c)) in
    let c := set_pending c (map_set id {| promise := p; timer := p; expectedType := expected |} (pending c)) in
    Ok (if full then settle c p (Rejected (PlatformError "OperationError"))
        else (c, [Sent (stringify (OObj (value ++ [(js "id", OStr id)])))])).

(** The callers of [request]. *)
Definition diagnostic_result : jsstr := js "diagnostic_result".
Definition temporary_result : jsstr := js "temporary_result".

Definition dns_request (name : jsstr) : list (jsstr * outgoing) :=
  [(js "type", OStr (js "dns")); (js "name", OStr name)].
Definition ping_request : list (jsstr * outgoing) := [(js "type", OStr (js "diagnostic_ping"))].

Record TemporaryTarget := { host : jsstr; port : Z; kind : jsstr }.

Definition temporary_request (target : TemporaryTarget) : list (jsstr * outgoing) :=
  [(js "type", OStr (js "temporary_target")); (js "host", OStr (host target));
   (js "port", OInt (port target)); (js "kind", OStr (kind target))].

Definition dns (c : client) (name : jsstr) := request c (dns_request name) diagnostic_result.
Definition ping (c : client) := request c ping_request diagnostic_result.
Definition configureTemporary_request (c : client) (target : TemporaryTarget) :=
  request c (temporary_request target) temporary_result.

(** [None] is [undefined], for a code outside the table. *)
Definition temporaryFailure (code : jsstr) : option jsstr :=
  if str_eqb code (js "ok") then Some []
  else if str_eqb code (js "blocked") then Some (js "临时目标被 OpenWrt Agent 安全策略拒绝")
  else if str_eqb code (js "unavailable") then Some (js "OpenWrt Agent 无法验证该临时目标")
  else if str_eqb code (js "busy") then Some (js "OpenWrt Agent 正在处理其他临时请求，请稍后重试")
  else if str_eqb code (js "invalid_request") then Some (js "临时目标配置无效或已被设置")
  else None.

(** [v === name] for a string constant. *)
Definition is_str (v : option json) (name : jsstr) : bool :=
  match v with Some (JStr s) => str_eqb s name | _ => false end.

(** What [configureTemporary] does with the settled request; an error built from
    [undefined] has an empty message. *)
Definition configureTemporary_outcome (o : outcome) : result unit :=
  match o with
  | Rejected e => Throw e
  | Resolved v =>
      match get_prop v (js "code") with
      | Some (JStr code) =>
          if str_eqb code (js "ok") then Ok tt
          else Throw (ErrorMsg (default [] (temporaryFailure code)))
      | _ => Throw (ErrorMsg [])
      end
  end.

Definition known_codes : list jsstr :=
  [js "ok"; js "blocked"; js "unavailable"; js "busy"; js "invalid_request"].

Definition known_code (v : option json) : bool :=
  match v with Some (JStr s) => existsb (str_eqb s) known_codes | _ => false end.

(** A message event's data: text, or anything else. *)
Inductive data := Text (s : jsstr) | Binary.

Definition receive (c : client) (value : data) : client * list output :=
  match value with
  | Binary => (close_channel c, [])
  | Text s =>
      if 512 <? str_len s then (close_channel c, [])
      else
        match parse s with
        | None => (close_channel c, [])
        | Some response =>
            let ty := get_prop response (js "type") in
            let id := get_prop response (js "id") in
            if negb (is_str ty diagnostic_result) && negb (is_str ty temporary_result) || falsy id
            then (close_channel c, [])
            else if negb (known_code (get_prop response (js "code"))) then (close_channel c, [])
            else
              match id with
              | Some (JStr id) =>
                  match map_get id (pending c) with
                  | None => (c, [])
                  | Some e =>
                      if negb (is_str ty (expectedType e)) then (close_channel c, [])
                      else
                        let c := clearTimeout c (timer e) in
                        let c := set_pending c (map_delete id (pending c)) in
                        settle c (promise e) (Resolved response)
                  end
              | _ => (c, [])
              end
        end
  end.

(** The loop of [failAll] over the values of the map. *)
Fixpoint fail_entries (c : client) (es : list (jsstr * entry)) (error : jserror) : client * list output :=
  match es with
  | [] => (c, [])
  | (_, e) :: es' =>
      let c := clearTimeout c (timer e) in
      let '(c, out) := settle c (promise e) (Rejected error) in
      let '(c, out') := fail_entries c es' error in
      (c, out ++ out')
  end.

Definition failAll (c : client) (error : jserror) : client * list output :=
  let '(c, out) := fail_entries c (pending c) error in
  (set_pending c [], out).

(** The callback of [window.setTimeout]. *)
Definition timer_callback (c : client) (tm : live_timer) : client * list output :=
  let c := set_pending c (map_delete (t_id tm) (pending c)) in
  settle c (t_promise tm) (Rejected request_timed_out).

(** ** Events *)

Inductive event :=
| ERequest (value : list (jsstr * outgoing)) (expected : jsstr) (random : list Z) (full : bool)
| EMessage (d : data)
| EClosed | EOnClose | EOnError
| ETick (d : Z)
| ETimer (t : nat).

(** One event; [None] when it cannot happen.  Messages arrive on an open channel,
    the close event follows the closed state, and a timer fires once it is due,
    but perhaps later. *)
Definition step (c : client) (e : event) : option (client * list output) :=
  match e with
  | ERequest value expected random full =>
      if valid_random random then
        match request c value expected random full with Ok r => Some r | Throw _ => None end
      else None
  | EMessage d => if bool_decide (ready c = Open) then Some (receive c d) else None
  | EClosed => Some (set_ready c Closed, [])
  | EOnClose => if bool_decide (ready c = Closed) then Some (failAll c channel_closed) else None
  | EOnError => Some (failAll c channel_failed)
  | ETick d =>
      if 0 <=? d
      then Some ({| ready := ready c; pending := pending c; timers := timers c; settled := settled c;
                    issued := issued c; now := now c + d |}, [])
      else None
  | ETimer t =>
      match timers c !! t with
      | Some tm => if t_due tm <=? now c then Some (timer_callback (clearTimeout c t) tm) else None
      | None => None
      end
  end.

Definition new_ControlClient : client :=
  {| ready := Open; pending := []; timers := ∅; settled := ∅; issued := 0; now := 0 |}.

(** A run of events from construction, with everything it put out. *)
Inductive run : list event -> client -> list output -> Prop :=
| run_nil : run [] new_ControlClient []
| run_snoc es e c c' out o : run es c out -> step c e = Some (c', o) -> run (es ++ [e]) c' (out ++ o).

(** ** Identifiers: lemmas *)

Lemma strip_equals_none s : Forall (fun c => c <> 61) s -> strip_equals s = s.
Proof.
  induction 1 as [|c s Hc _ IH]; cbn; [done|]. rewrite IH.
  destruct s; [|done]. by rewrite (proj2 (Z.eqb_neq c 61)).
Qed.

Lemma randomControlID_ok value :
  valid_random value = true -> randomControlID value = Ok (base64url value).
Proof.
  unfold valid_random, randomControlID, btoa. intros H. bool_prop. rewrite H0. cbn [rbind]. f_equal.
  assert (Hb : Forall is_byte value).
  { apply List.Forall_forall. intros x Hx. rewrite forallb_forall in H0. specialize (H0 x Hx).
    unfold is_byteb, is_byte in *. lia. }
  rewrite H. change (b64_pad 12) with (@nil Z). rewrite app_nil_r.
  assert (Hu : replace_char 47 95 (replace_char 43 45 (map b64_char (b64_sextets value))) = base64url value).
  { unfold replace_char, base64url. rewrite !map_map. apply map_ext_in. intros d Hd.
    pose proof (sextets_range value Hb) as Hr. rewrite List.Forall_forall in Hr. specialize (Hr d Hd).
    unfold url_char, b64_char. repeat case_match; bool_prop; lia. }
  rewrite Hu. apply strip_equals_none. eapply List.Forall_impl; [|by apply base64url_chars].
  intros c. cbv beta. unfold is_url_char, is_upper, is_lower, is_digit. intros Hc. bool_prop. lia.
Qed.

(** The identifier of a request, from its random bytes. *)
Definition control_id (random : list Z) : jsstr := base64url random.

Lemma request_ok c value expected random full :
  valid_random random = true -> is_ok (request c value expected random full) = true.
Proof.
  intros H. unfold request. destruct (negb _); [done|]. by rewrite randomControlID_ok.
Qed.

(** ** The history of a run *)

(** Time, identifier and expected answer of each request, in order of issue. *)
Record asked := { a_time : Z; a_id : jsstr; a_expected : jsstr }.

Fixpoint requests (t : Z) (es : list event) : list asked :=
  match es with
  | [] => []
  | ETick d :: r => requests (t + d) r
  | ERequest _ ex random _ :: r =>
      {| a_time := t; a_id := control_id random; a_expected := ex |} :: requests t r
  | _ :: r => requests t r
  end.

Fixpoint clock (es : list event) : Z :=
  match es with
  | [] => 0
  | ETick d :: r => d + clock r
  | _ :: r => clock r
  end.

Lemma clock_app es es' : clock (es ++ es') = clock es + clock es'.
Proof. induction es as [|[] es IH]; cbn; lia. Qed.

Lemma requests_app es es' : forall t, requests t (es ++ es') = requests t es ++ requests (t + clock es) es'.
Proof.
  induction es as [|e es IH]; intros t; cbn; [by rewrite Z.add_0_r|].
  destruct e; cbn; rewrite IH; try done. by rewrite Z.add_assoc.
Qed.

Definition settled_promise (o : output) : option nat :=
  match o with Settled p _ => Some p | _ => None end.

Lemma elem_of_settled p (out : list output) : p ∈ omap settled_promise out <-> exists o, Settled p o ∈ out.
Proof.
  rewrite list_elem_of_omap. split.
  - intros ([] & Hin & [= ->]). by eexists.
  - intros (o & Hin). by exists (Settled p o).
Qed.

(** ** The invariant

    [rs] is the history and [hole] a promise whose timer has just been cleared and
    that the next statement settles. *)

Record inv (rs : list asked) (hole : option nat) (c : client) (out : list output) : Prop := {
  inv_issued : issued c = length rs;
  inv_settled : forall p o, settled c !! p = Some o <-> Settled p o ∈ out;
  inv_once : NoDup (omap settled_promise out);
  inv_range : forall p, is_Some (settled c !! p) -> (p < issued c)%nat;
  inv_timer : forall t tm, timers c !! t = Some tm ->
    t_promise tm = t
    /\ exists a, rs !! t = Some a /\ t_id tm = a_id a /\ t_due tm = a_time a + requestTimeout;
  inv_pending : forall id e, (id, e) ∈ pending c ->
    timer e = promise e
    /\ exists a, rs !! promise e = Some a /\ a_id a = id /\ a_expected a = expectedType e;
  inv_live : forall p, (p < issued c)%nat -> hole <> Some p ->
    is_Some (settled c !! p) \/ is_Some (timers c !! p)
}.

Lemma inv_new : inv [] None new_ControlClient [].
Proof.
  constructor; cbn; intros; try done; try lia.
  - rewrite lookup_empty. split; [done|]. intros H. inv H.
  - constructor.
  - rewrite lookup_empty in H. by destruct H.
  - by inv H.
Qed.

Lemma inv_clearTimeout rs c out t : inv rs None c out -> inv rs (Some t) (clearTimeout c t) out.
Proof.
  intros [? ? ? ? Ht ? Hl]. constructor; cbn; try done.
  - intros t' tm H. apply lookup_delete_Some in H as [_ H]. by apply Ht.
  - intros p Hp Hne. rewrite lookup_delete_ne by congruence. by apply Hl.
Qed.

Lemma inv_set_pending rs hole c out m :
  inv rs hole c out -> (forall p, p ∈ m -> p ∈ pending c) -> inv rs hole (set_pending c m) out.
Proof. intros [] Hm. constructor; cbn; try done. intros id e He. eauto. Qed.

Lemma inv_settle rs hole c out p o :
  inv rs hole c out -> hole = None \/ hole = Some p -> (p < length rs)%nat ->
  inv rs None (fst (settle c p o)) (out ++ snd (settle c p o)).
Proof.
  intros [Hi Hs Ho Hr Ht Hp Hl] Hh Hlt. unfold settle. destruct (settled c !! p) as [o'|] eqn:E; cbn.
  - rewrite app_nil_r. constructor; try done. intros q Hq _. destruct (decide (q = p)) as [->|Hne].
    + left. by exists o'.
    + apply Hl; [done|]. destruct Hh as [->| ->]; congruence.
  - constructor; cbn; try done.
    + intros q x. rewrite elem_of_app, list_elem_of_singleton. rewrite <- Hs.
      destruct (decide (q = p)) as [->|Hne].
      * rewrite lookup_insert_eq, E. split; [intros [= ->]; by right|]. by intros [H|[= ->]].
      * rewrite lookup_insert_ne by done. split; [by left|]. by intros [H|[= -> _]].
    + rewrite omap_app. cbn. apply NoDup_app. split; [done|]. split; [|apply NoDup_singleton].
      intros q Hq. apply elem_of_settled in Hq as (x & Hx). apply Hs in Hx.
      rewrite list_elem_of_singleton. intros ->. congruence.
    + intros q Hq. destruct (decide (q = p)) as [->|Hne]; [lia|].
      rewrite lookup_insert_ne in Hq by done. by apply Hr.
    + intros q Hq _. destruct (decide (q = p)) as [->|Hne]; [left; rewrite lookup_insert_eq; by eexists|].
      rewrite lookup_insert_ne by done. apply Hl; [done|]. destruct Hh as [->| ->]; congruence.
Qed.

(** [clearTimeout] followed by [resolve] or [reject] of the same request. *)
Lemma inv_clear_settle rs c out p o :
  inv rs None c out -> (p < length rs)%nat ->
  inv rs None (fst (settle (clearTimeout c p) p o)) (out ++ snd (settle (clearTimeout c p) p o)).
Proof. intros H Hp. eapply inv_settle; [by apply inv_clearTimeout|by right|done]. Qed.

Lemma settle_pending c p o : pending (fst (settle c p o)) = pending c.
Proof. unfold settle. by destruct (settled c !! p). Qed.

Lemma inv_fail_entries rs error l : forall c out,
  inv rs None c out -> (forall p, p ∈ l -> p ∈ pending c) ->
  inv rs None (fst (fail_entries c l error)) (out ++ snd (fail_entries c l error)).
Proof.
  induction l as [|[id e] l IH]; intros c out H Hl; cbn [fail_entries fst snd]; [by rewrite app_nil_r|].
  destruct (inv_pending _ _ _ _ H id e (Hl _ (list_elem_of_here _ _))) as (Et & a & Ha & _).
  apply lookup_lt_Some in Ha. rewrite Et.
  pose proof (inv_clear_settle rs c out (promise e) (Rejected error) H Ha) as H1.
  pose proof (settle_pending (clearTimeout c (promise e)) (promise e) (Rejected error)) as Hpe.
  destruct (settle _ _ _) as [c1 o1] eqn:E. cbn [fst snd] in *.
  specialize (IH c1 (out ++ o1) H1).
  destruct (fail_entries c1 l error) as [c2 o2]. cbn [fst snd] in *. rewrite app_assoc. apply IH.
  intros p Hp. rewrite Hpe. cbn. apply Hl. by right.
Qed.

Lemma fail_entries_keeps error l : forall c, pending (fst (fail_entries c l error)) = pending c
  /\ issued (fst (fail_entries c l error)) = issued c /\ now (fst (fail_entries c l error)) = now c.
Proof.
  induction l as [|[id e] l IH]; intros c; cbn [fail_entries]; [done|].
  unfold settle. destruct (settled _ !! _); specialize (IH (clearTimeout c (timer e))) as IH1.
  - destruct (fail_entries _ _ _) as [c2 o2]. by cbn in *.
  - match goal with |- context [fail_entries ?x l error] => specialize (IH x) end.
    destruct (fail_entries _ _ _) as [c2 o2]. by cbn in *.
Qed.

Lemma inv_failAll rs c out error :
  inv rs None c out -> inv rs None (fst (failAll c error)) (out ++ snd (failAll c error)).
Proof.
  intros H. unfold failAll. pose proof (inv_fail_entries rs error (pending c) c out H (fun _ x => x)) as H1.
  destruct (fail_entries c (pending c) error) as [c1 o1]. cbn [fst snd] in *.
  apply inv_set_pending; [done|]. intros p Hp. inv Hp.
Qed.

Lemma inv_close_channel rs hole c out : inv rs hole c out -> inv rs hole (close_channel c) out.
Proof. intros []. unfold close_channel. by destruct (ready c); constructor. Qed.

Lemma inv_receive rs c out d :
  inv rs None c out -> inv rs None (fst (receive c d)) (out ++ snd (receive c d)).
Proof.
  intros H. assert (Hc := inv_close_channel _ _ _ _ H). unfold receive.
  destruct d as [s|]; [|by rewrite app_nil_r]. destruct (512 <? str_len s); [by rewrite app_nil_r|].
  destruct (parse s) as [v|]; [|by rewrite app_nil_r]. cbv zeta.
  destruct (_ || _); [by rewrite app_nil_r|]. destruct (negb _); [by rewrite app_nil_r|].
  destruct (get_prop v (js "id")) as [[| | |id| |]|]; try by rewrite app_nil_r.
  destruct (map_get id (pending c)) as [e|] eqn:Eg; [|by rewrite app_nil_r].
  destruct (negb _); [by rewrite app_nil_r|].
  apply map_get_elem in Eg. destruct (inv_pending _ _ _ _ H _ _ Eg) as (-> & a & Ha & _).
  eapply inv_settle; [apply inv_set_pending; [by apply inv_clearTimeout|]|by right|by eapply lookup_lt_Some].
  intros p Hp. by apply map_delete_elem in Hp as [? _].
Qed.

Lemma inv_timer_fires rs c out t tm :
  inv rs None c out -> timers c !! t = Some tm ->
  inv rs None (fst (timer_callback (clearTimeout c t) tm)) (out ++ snd (timer_callback (clearTimeout c t) tm)).
Proof.
  intros H Ht. destruct (inv_timer _ _ _ _ H _ _ Ht) as (Ep & a & Ha & _). unfold timer_callback.
  rewrite Ep. eapply inv_settle; [apply inv_set_pending; [by apply inv_clearTimeout|]|by right|by eapply lookup_lt_Some].
  intros p Hp. by apply map_delete_elem in Hp as [? _].
Qed.

(** A request extends the history; its own promise is the hole. *)
Lemma inv_new_promise rs c out a :
  inv rs None c out -> inv (rs ++ [a]) (Some (length rs)) (new_promise c) out.
Proof.
  intros [Hi Hs Ho Hr Ht Hp Hl]. constructor; cbn; try done.
  - rewrite length_app. cbn. lia.
  - intros p H. specialize (Hr p H). lia.
  - intros t tm H. destruct (Ht t tm H) as (? & b & Hb & ?). split; [done|]. exists b. split; [|done].
    by apply lookup_app_l_Some.
  - intros id e H. destruct (Hp id e H) as (? & b & Hb & ?). split; [done|]. exists b. split; [|done].
    by apply lookup_app_l_Some.
  - intros p Hlt Hne. assert (p <> length rs) by congruence. apply Hl; [lia|done].
Qed.

(** The timer and the entry of a request. *)
Definition enter (c : client) (id : jsstr) (expected : jsstr) (p : nat) : client :=
  set_pending
    (set_timers c (<[p := {| t_id := id; t_promise := p; t_due := now c + requestTimeout |}]> (timers c)))
    (map_set id {| promise := p; timer := p; expectedType := expected |} (pending c)).

Lemma inv_enter rs c out id expected p :
  inv rs (Some p) c out ->
  rs !! p = Some {| a_time := now c; a_id := id; a_expected := expected |} ->
  inv rs None (enter c id expected p) out.
Proof.
  intros [Hi Hs Ho Hr Ht Hp Hl] Ha. constructor; cbn; try done.
  - intros t tm H. destruct (decide (t = p)) as [->|Hne].
    + rewrite lookup_insert_eq in H. inv H. split; [done|]. by eexists.
    + rewrite lookup_insert_ne in H by done. by apply Ht.
  - intros i e H. apply map_set_elem in H as [[= -> ->]|H]; [|by apply Hp]. split; [done|]. by eexists.
  - intros q Hq _. destruct (decide (q = p)) as [->|Hne].
    + right. rewrite lookup_insert_eq. by eexists.
    + rewrite lookup_insert_ne by done. apply Hl; congruence.
Qed.

Lemma inv_request rs c out value expected random full c' o :
  inv rs None c out -> valid_random random = true ->
  request c value expected random full = Ok (c', o) ->
  inv (rs ++ [{| a_time := now c; a_id := control_id random; a_expected := expected |}]) None c' (out ++ o).
Proof.
  intros H Hv. unfold request.
  set (a := {| a_time := now c; a_id := control_id random; a_expected := expected |}).
  assert (Hlen : (length rs < length (rs ++ [a]))%nat) by (rewrite length_app; cbn; lia).
  pose proof (inv_new_promise rs c out a H) as Hn. pose proof (inv_issued _ _ _ _ H) as Hi.
  destruct (negb _).
  - intros [= E]. rewrite <- (app_nil_r (rs ++ [a])) in Hlen.
    pose proof (inv_settle _ _ _ _ (issued c) (Rejected channel_unavailable) Hn) as H1.
    rewrite E in H1. apply H1; [right; congruence|]. rewrite app_nil_r in Hlen. lia.
  - rewrite randomControlID_ok by done. cbn [rbind]. intros [= E].
    assert (He : inv (rs ++ [a]) None (enter (new_promise c) (control_id random) expected (issued c)) out).
    { apply inv_enter; [by rewrite Hi|]. rewrite Hi. by rewrite lookup_app_r, Nat.sub_diag by lia. }
    unfold enter in He. fold (control_id random) in E. destruct full.
    + pose proof (inv_settle _ _ _ _ (issued c) (Rejected (PlatformError "OperationError")) He) as H1.
      match type of H1 with context [settle ?x ?y ?z] => change (settle x y z = (c', o)) in E end.
      rewrite E in H1. apply H1; [by left|]. lia.
    + inv E. destruct He as [A B C D F G I]. constructor; try done.
      * intros p x. rewrite B, elem_of_app, list_elem_of_singleton. split; [by left|]. by intros [?|?].
      * rewrite omap_app. cbn. by rewrite app_nil_r.
Qed.

Lemma failAll_keeps c error : now (fst (failAll c error)) = now c.
Proof.
  unfold failAll. pose proof (fail_entries_keeps error (pending c) c) as (_ & _ & H).
  by destruct (fail_entries c (pending c) error) as [c1 o1].
Qed.

Lemma settle_now c p o : now (fst (settle c p o)) = now c.
Proof. unfold settle. by destruct (settled c !! p). Qed.

Lemma close_channel_now c : now (close_channel c) = now c.
Proof. unfold close_channel. by destruct (ready c). Qed.

Lemma receive_now c d : now (fst (receive c d)) = now c.
Proof.
  unfold receive. repeat (case_match; try apply close_channel_now; try done). by rewrite settle_now.
Qed.

Lemma request_now c value expected random full c' o :
  request c value expected random full = Ok (c', o) -> now c' = now c.
Proof.
  unfold request. destruct (negb _).
  - intros [= E]. apply (f_equal (fun r => now (fst r))) in E. rewrite settle_now in E. by symmetry.
  - destruct (randomControlID random); cbn [rbind]; [|done]. intros [= E]. destruct full.
    + apply (f_equal (fun r => now (fst r))) in E. rewrite settle_now in E. by symmetry.
    + by inv E.
Qed.

(** Every event preserves the invariant. *)
Lemma inv_step es c out e c' o :
  inv (requests 0 es) None c out -> now c = clock es -> step c e = Some (c', o) ->
  inv (requests 0 (es ++ [e])) None c' (out ++ o) /\ now c' = clock (es ++ [e]).
Proof.
  intros H Hn. rewrite clock_app, requests_app. destruct e as [v ex r f|d| | | |d|t]; cbn [step requests clock].
  - destruct (valid_random r) eqn:Hv; [|done]. destruct (request c v ex r f) as [[c1 o1]|] eqn:Er; [|done].
    intros [= -> ->]. rewrite (request_now _ _ _ _ _ _ _ Er), Z.add_0_l, <- Hn.
    split; [by eapply inv_request|lia].
  - destruct (bool_decide _); [|done]. intros [= E].
    pose proof (inv_receive _ _ _ d H) as H1. pose proof (receive_now c d) as H2. rewrite E in H1, H2.
    rewrite app_nil_r. split; [done|]. cbn in H2. lia.
  - intros [= <- <-]. rewrite !app_nil_r. split; [|cbn; lia]. by destruct H.
  - destruct (bool_decide _); [|done]. intros [= E]. pose proof (inv_failAll _ _ _ channel_closed H) as H1.
    pose proof (failAll_keeps c channel_closed) as H2. rewrite E in H1, H2. rewrite app_nil_r. split; [done|]. cbn in H2; lia.
  - intros [= E]. pose proof (inv_failAll _ _ _ channel_failed H) as H1.
    pose proof (failAll_keeps c channel_failed) as H2. rewrite E in H1, H2. rewrite app_nil_r. split; [done|]. cbn in H2; lia.
  - destruct (0 <=? d); [|done]. intros [= <- <-]. rewrite !app_nil_r. split; [by destruct H|cbn; lia].
  - destruct (timers c !! t) as [tm|] eqn:Et; [|done]. destruct (_ <=? _); [|done]. intros [= E].
    pose proof (inv_timer_fires _ _ _ _ _ H Et) as H1.
    assert (H2 : now (fst (timer_callback (clearTimeout c t) tm)) = now c) by (unfold timer_callback; by rewrite settle_now).
    rewrite E in H1, H2. rewrite app_nil_r. split; [done|]. cbn in H2; lia.
Qed.

Lemma inv_run es c out : run es c out -> inv (requests 0 es) None c out /\ now c = clock es.
Proof.
  induction 1 as [|es e c c' out o _ [IH IHn] Hs]; [by split; [apply inv_new|]|].
  by apply (inv_step es c out e c' o).
Qed.

(** ** Every request settles, once *)

(** The settlements of promise [p] in an output. *)
Definition settlements (p : nat) (out : list output) : list outcome :=
  omap (fun o => match o with Settled q x => if bool_decide (q = p) then Some x else None | _ => None end) out.

Lemma settlements_unique p o out :
  NoDup (omap settled_promise out) -> Settled p o ∈ out -> settlements p out = [o].
Proof.
  intros Hn Hin. apply list_elem_of_split in Hin as (l1 & l2 & ->).
  rewrite omap_app in Hn. cbn in Hn. apply NoDup_app in Hn as (_ & Hn & Hn2).
  apply NoDup_cons in Hn2 as [Hp _].
  assert (Hz : forall l, p ∉ omap settled_promise l -> settlements p l = []).
  { intros l. induction l as [|[x|q x] l IH]; cbn; intros Hl; [done|by apply IH|].
    apply not_elem_of_cons in Hl as [? ?]. rewrite bool_decide_false by congruence. by apply IH. }
  unfold settlements. rewrite omap_app. cbn. rewrite bool_decide_true by done.
  fold (settlements p l1) (settlements p l2). rewrite (Hz l1), (Hz l2); [done|done|].
  intros H. apply (Hn p H). by left.
Qed.

(** C10. Every request is answered: once five seconds have passed since it was made
    and the timers that are due have run, its promise has been settled, exactly
    once, whatever messages, errors and other requests came in between. *)
Theorem request_settles (es : list event) (c : client) (out : list output) (p : nat) (a : asked) :
  run es c out -> requests 0 es !! p = Some a ->
  a_time a + requestTimeout <= now c ->
  (forall t tm, timers c !! t = Some tm -> now c < t_due tm) ->
  exists o, settlements p out = [o].
Proof.
  intros Hr Ha Hle Hdue. apply inv_run in Hr as [[Hi Hs Ho Hrg Ht Hp Hl] Hn].
  destruct (Hl p) as [[o Hso]|[tm Htm]]; [rewrite Hi; by eapply lookup_lt_Some|done| |].
  - exists o. apply settlements_unique; [done|]. by apply Hs.
  - destruct (Ht p tm Htm) as (_ & b & Hb & _ & Hd). specialize (Hdue _ _ Htm).
    rewrite Ha in Hb. inv Hb. lia.
Qed.

(** The same run by evaluation. *)
Fixpoint exec_from (c : client) (out : list output) (es : list event) : option (client * list output) :=
  match es with
  | [] => Some (c, out)
  | e :: es' => match step c e with Some (c', o) => exec_from c' (out ++ o) es' | None => None end
  end.

Lemma control_exec_run es c out : exec_from new_ControlClient [] es = Some (c, out) -> run es c out.
Proof.
  assert (G : forall es es0 c0 out0, run es0 c0 out0 -> exec_from c0 out0 es = Some (c, out) -> run (es0 ++ es) c out).
  { induction es0 as [|e es0 IH]; intros es1 c0 out0 H0; cbn.
    - intros [= <- <-]. by rewrite app_nil_r.
    - destruct (step c0 e) as [[c1 o1]|] eqn:E; [|done]. intros H.
      change (e :: es0) with ([e] ++ es0). rewrite app_assoc. eapply IH; [|exact H]. by econstructor. }
  intros H. by apply (G es [] _ _ run_nil).
Qed.

Definition zeros : list Z := repeat 0 12.
Definition ones : list Z := repeat 1 12.

(** Two requests; the second is answered, the first is not. *)
Definition demo : list event :=
  [ERequest (dns_request (js "nas.lan")) diagnostic_result zeros false;
   ETick 100;
   ERequest ping_request diagnostic_result ones false;
   EMessage (Text (jsq "{`type`:`diagnostic_result`,`id`:`AQEBAQEBAQEBAQEB`,`code`:`ok`,`rtt_ms`:3}"));
   ETick 4900; ETimer 0].

Theorem request_settles_witness :
  exists c out, run demo c out
    /\ (exists o, settlements 0 out = [o]) /\ settlements 0 out = [Rejected request_timed_out].
Proof.
  destruct (exec_from new_ControlClient [] demo) as [[c out]|] eqn:E; [|by vm_compute in E].
  exists c, out. pose proof (control_exec_run _ _ _ E) as Hr. split; [done|].
  assert (Hc : now c = 5000 /\ timers c = ∅ /\ settlements 0 out = [Rejected request_timed_out]).
  { vm_compute in E. inv E. by repeat split. }
  destruct Hc as (Hn & Ht & Ho). split; [|done].
  apply (request_settles demo c out 0 {| a_time := 0; a_id := control_id zeros; a_expected := diagnostic_result |} Hr eq_refl).
  - rewrite Hn. done.
  - intros t tm H. rewrite Ht, lookup_empty in H. done.
Defined.

(** ** Answers *)

Definition no_result (out : list output) : Prop := forall p v, Settled p (Resolved v) ∉ out.

Lemma settle_rejected c p e : no_result (snd (settle c p (Rejected e))).
Proof. unfold settle. destruct (settled c !! p); cbn; intros q v; set_solver. Qed.

Lemma fail_entries_no_result error l : forall c, no_result (snd (fail_entries c l error)).
Proof.
  induction l as [|[id e] l IH]; intros c; cbn [fail_entries]; [intros p v; set_solver|].
  pose proof (settle_rejected (clearTimeout c (timer e)) (promise e) error) as H1.
  destruct (settle _ _ _) as [c1 o1]. specialize (IH c1).
  destruct (fail_entries c1 l error) as [c2 o2]. cbn in *. intros p v. rewrite elem_of_app. intros [H|H].
  - by apply (H1 p v). - by apply (IH p v).
Qed.

Lemma failAll_no_result c error : no_result (snd (failAll c error)).
Proof.
  unfold failAll. pose proof (fail_entries_no_result error (pending c) c) as H.
  by destruct (fail_entries c (pending c) error) as [c1 o1].
Qed.

Lemma request_no_result c value expected random full c' o :
  request c value expected random full = Ok (c', o) -> no_result o.
Proof.
  unfold request. destruct (negb _).
  - intros [= E]. apply (f_equal snd) in E. cbn in E. subst o. apply settle_rejected.
  - destruct (randomControlID random); cbn [rbind]; [|done]. intros [= E]. destruct full.
    + apply (f_equal snd) in E. cbn [snd] in E. subst o. apply settle_rejected.
    + inv E. intros p v. set_solver.
Qed.

(** An answer that [receive] may hand to the request [a]. *)
Definition answers (text : jsstr) (v : json) (a : asked) : Prop :=
  parse text = Some v /\ str_len text <= 512
  /\ get_prop v (js "id") = Some (JStr (a_id a))
  /\ get_prop v (js "type") = Some (JStr (a_expected a))
  /\ exists code, get_prop v (js "code") = Some (JStr code) /\ code ∈ known_codes.

Lemma is_str_eq v s : is_str v s = true -> v = Some (JStr s).
Proof. destruct v as [[]|]; cbn; try done. by intros ->%str_eqb_eq. Qed.

Lemma known_code_spec v : known_code v = true -> exists code, v = Some (JStr code) /\ code ∈ known_codes.
Proof.
  destruct v as [[| | |s| |]|]; cbn [known_code]; try done. intros H. exists s. split; [done|].
  apply existsb_exists in H as (x & Hx & ->%str_eqb_eq). by apply list_elem_of_In.
Qed.

Lemma receive_resolves rs c out d p v :
  inv rs None c out -> Settled p (Resolved v) ∈ snd (receive c d) ->
  exists text a, d = Text text /\ rs !! p = Some a /\ answers text v a.
Proof.
  intros H. unfold receive. destruct d as [s|]; [|set_solver].
  destruct (512 <? str_len s) eqn:El; [set_solver|].
  destruct (parse s) as [r|] eqn:Ep; [|set_solver]. cbv zeta.
  destruct (_ || _); [set_solver|]. destruct (negb (known_code _)) eqn:Ek; [set_solver|].
  destruct (get_prop r (js "id")) as [[| | |id| |]|] eqn:Eid; try set_solver.
  destruct (map_get id (pending c)) as [e|] eqn:Eg; [|set_solver].
  destruct (negb (is_str _ _)) eqn:Et; [set_solver|]. bool_prop.
  apply map_get_elem in Eg. destruct (inv_pending _ _ _ _ H _ _ Eg) as (_ & a & Ha & Hai & Hae).
  unfold settle. destruct (settled _ !! _); [set_solver|]. cbn [snd]. rewrite list_elem_of_singleton.
  intros [= -> ->]. exists s, a. split; [done|]. split; [done|].
  split; [done|]. split; [lia|]. split; [by rewrite Hai|]. split; [|by apply known_code_spec].
  rewrite Hae. by apply is_str_eq.
Qed.

Lemma step_resolves rs c out e c' o p v :
  inv rs None c out -> step c e = Some (c', o) -> Settled p (Resolved v) ∈ o ->
  exists text a, e = EMessage (Text text) /\ rs !! p = Some a /\ answers text v a.
Proof.
  intros H Hs Hin. destruct e as [va ex r f|d| | | |d|t]; cbn [step] in Hs.
  - destruct (valid_random r); [|done]. destruct (request c va ex r f) as [[c1 o1]|] eqn:E; [|done]. inv Hs.
    exfalso. by eapply request_no_result.
  - destruct (bool_decide _); [|done]. injection Hs as E. rewrite <- (f_equal snd E : _ = o) in Hin.
    destruct (receive_resolves _ _ _ _ _ _ H Hin) as (text & a & -> & ?). by exists text, a.
  - inv Hs. set_solver.
  - destruct (bool_decide _); [|done]. injection Hs as E. rewrite <- (f_equal snd E : _ = o) in Hin.
    exfalso. by eapply failAll_no_result.
  - injection Hs as E. rewrite <- (f_equal snd E : _ = o) in Hin. exfalso. by eapply failAll_no_result.
  - destruct (0 <=? d); inv Hs. set_solver.
  - destruct (timers c !! t) as [tm|]; [|done]. destruct (_ <=? _); [|done]. injection Hs as E.
    rewrite <- (f_equal snd E : _ = o) in Hin. exfalso. by eapply settle_rejected.
Qed.

(** C7. Only a matching answer resolves a request: the value a request is resolved
    with is the JSON of a text message of at most 512 units, received after the
    request was made, that names the request's identifier, has the answer type
    the request asked for and one of the five known codes. *)
Theorem response_matches (es : list event) (c : client) (out : list output) (p : nat) (v : json) :
  run es c out -> Settled p (Resolved v) ∈ out ->
  exists before after text a, es = before ++ EMessage (Text text) :: after
    /\ requests 0 before !! p = Some a /\ answers text v a.
Proof.
  induction 1 as [|es e c c' out o Hr IH Hs]; [set_solver|].
  rewrite elem_of_app. intros [Hin|Hin].
  - destruct (IH Hin) as (es1 & es2 & text & a & -> & Ha & Hans).
    exists es1, (es2 ++ [e]), text, a. by rewrite <- app_assoc.
  - apply inv_run in Hr as [Hi _]. destruct (step_resolves _ _ _ _ _ _ _ _ Hi Hs Hin) as (text & a & -> & Ha & Hans).
    by exists es, [], text, a.
Qed.

Theorem response_matches_witness :
  exists c out v, run demo c out /\ Settled 1 (Resolved v) ∈ out
    /\ exists before after text a, demo = before ++ EMessage (Text text) :: after
       /\ requests 0 before !! 1%nat = Some a /\ answers text v a.
Proof.
  destruct (exec_from new_ControlClient [] demo) as [[c out]|] eqn:E; [|by vm_compute in E].
  pose proof (control_exec_run _ _ _ E) as Hr.
  assert (Hv : exists v, Settled 1 (Resolved v) ∈ out).
  { vm_compute in E. inv E. eexists. apply list_elem_of_In. cbn. right. right. left. reflexivity. }
  destruct Hv as [v Hv]. exists c, out, v. split; [done|]. split; [done|].
  exact (response_matches demo c out 1 v Hr Hv).
Defined.

(** ** The end of the channel *)

(** With distinct identifiers every live timer belongs to a pending entry. *)
Definition covered (c : client) : Prop :=
  forall t tm, timers c !! t = Some tm ->
    exists e, (t_id tm, e) ∈ pending c /\ timer e = t.

Lemma distinct_ids rs i j a b :
  NoDup (map a_id rs) -> rs !! i = Some a -> rs !! j = Some b -> a_id a = a_id b -> i = j.
Proof.
  intros Hn Ha Hb E. eapply NoDup_lookup; [exact Hn|rewrite list_lookup_fmap, Ha; reflexivity|].
  rewrite list_lookup_fmap, Hb. cbn. by rewrite E.
Qed.

Lemma settle_timers c p o : timers (fst (settle c p o)) = timers c.
Proof. unfold settle. by destruct (settled c !! p). Qed.

Lemma covered_settle c p o : covered c -> covered (fst (settle c p o)).
Proof. unfold covered. by rewrite settle_timers, settle_pending. Qed.

Lemma covered_close_channel c : covered c -> covered (close_channel c).
Proof. unfold close_channel. by destruct (ready c). Qed.

(** Removing a timer together with the entry of its identifier. *)
Lemma covered_remove rs c out t id a :
  inv rs None c out -> NoDup (map a_id rs) -> covered c -> rs !! t = Some a -> a_id a = id ->
  covered (set_pending (clearTimeout c t) (map_delete id (pending c))).
Proof.
  intros H Hn Hc Ha Hid t' tm. cbn. intros [Hne Ht]%lookup_delete_Some.
  destruct (Hc t' tm Ht) as (e & He & Hte). exists e. split; [|done].
  apply map_delete_elem. split; [done|]. cbn. intros E.
  destruct (inv_timer _ _ _ _ H _ _ Ht) as (_ & b & Hb & Hbi & _).
  apply Hne. eapply distinct_ids; [done|exact Ha|exact Hb|congruence].
Qed.

Lemma fail_entries_timers error l : forall c t tm,
  timers (fst (fail_entries c l error)) !! t = Some tm ->
  timers c !! t = Some tm /\ forall p, p ∈ l -> timer (snd p) <> t.
Proof.
  induction l as [|[id e] l IH]; intros c t tm; cbn [fail_entries]; [intros H; split; [done|set_solver]|].
  pose proof (settle_timers (clearTimeout c (timer e)) (promise e) (Rejected error)) as Hs.
  destruct (settle _ _ _) as [c1 o1]. specialize (IH c1 t tm). destruct (fail_entries c1 l error) as [c2 o2].
  cbn in *. intros H. destruct (IH H) as [H1 H2]. rewrite Hs in H1. apply lookup_delete_Some in H1 as [Hne H1].
  split; [done|]. intros p [->|Hp]%elem_of_cons; [done|by apply H2].
Qed.

Lemma failAll_clears c error : covered c -> timers (fst (failAll c error)) = ∅.
Proof.
  intros Hc. unfold failAll. pose proof (fail_entries_timers error (pending c) c) as H.
  destruct (fail_entries c (pending c) error) as [c1 o1]. cbn in *.
  apply map_empty. intros t. destruct (timers c1 !! t) as [tm|] eqn:E; [|done].
  destruct (H t tm E) as [H1 H2]. destruct (Hc t tm H1) as (e & He & Hte).
  by destruct (H2 _ He).
Qed.

Lemma covered_failAll c error : covered c -> covered (fst (failAll c error)).
Proof. intros Hc t tm. rewrite failAll_clears by done. by rewrite lookup_empty. Qed.

Lemma covered_request rs c out value expected random full c' o :
  inv rs None c out -> covered c -> valid_random random = true -> control_id random ∉ map a_id rs ->
  request c value expected random full = Ok (c', o) -> covered c'.
Proof.
  intros H Hc Hv Hnew. unfold request. destruct (negb _).
  - intros [= E]. rewrite <- (f_equal fst E : _ = c'). by apply covered_settle.
  - rewrite randomControlID_ok by done. cbn [rbind]. fold (control_id random).
    assert (He : covered (enter (new_promise c) (control_id random) expected (issued c))).
    { intros t tm. cbn. destruct (decide (t = issued c)) as [->|Hne].
      - rewrite lookup_insert_eq. intros [= <-]. eexists. split; [apply map_set_new|done].
      - rewrite lookup_insert_ne by done. intros Ht. destruct (Hc t tm Ht) as (e & Hin & Hte).
        exists e. split; [|done]. apply map_set_keep; [done|]. cbn. intros E.
        destruct (inv_timer _ _ _ _ H _ _ Ht) as (_ & b & Hb & Hbi & _). apply Hnew.
        rewrite <- E, Hbi. apply list_elem_of_fmap. exists b. split; [done|]. by eapply list_elem_of_lookup_2. }
    intros [= E]. destruct full; rewrite <- (f_equal fst E : _ = c'); [by apply covered_settle|done].
Qed.

Lemma covered_receive rs c out d :
  inv rs None c out -> NoDup (map a_id rs) -> covered c -> covered (fst (receive c d)).
Proof.
  intros H Hn Hc. assert (Hcc := covered_close_channel c Hc). unfold receive.
  destruct d as [s|]; [|done]. destruct (512 <? str_len s); [done|].
  destruct (parse s) as [v|]; [|done]. cbv zeta. destruct (_ || _); [done|]. destruct (negb _); [done|].
  destruct (get_prop v (js "id")) as [[| | |id| |]|]; try done.
  destruct (map_get id (pending c)) as [e|] eqn:Eg; [|done]. destruct (negb _); [done|].
  apply map_get_elem in Eg. destruct (inv_pending _ _ _ _ H _ _ Eg) as (-> & a & Ha & Hai & _).
  apply covered_settle. by apply (covered_remove rs c out (promise e) id a).
Qed.

Lemma covered_run es c out : run es c out -> NoDup (map a_id (requests 0 es)) -> covered c.
Proof.
  induction 1 as [|es e c c' out o Hr IH Hs]; [intros _ t tm; cbn; by rewrite lookup_empty|].
  rewrite requests_app, map_app. intros [Hn [Hd _]]%NoDup_app. specialize (IH Hn).
  apply inv_run in Hr as [Hi Ht]. destruct e as [va ex r f|d| | | |d|t]; cbn [step] in Hs.
  - destruct (valid_random r) eqn:Hv; [|done]. destruct (request c va ex r f) as [[c1 o1]|] eqn:E; [|done]. inv Hs.
    eapply covered_request; [exact Hi|done|exact Hv| |exact E]. intros Hin. apply (Hd _ Hin). cbn. by left.
  - destruct (bool_decide _); [|done]. injection Hs as E. rewrite <- (f_equal fst E : _ = c').
    by eapply covered_receive.
  - by inv Hs.
  - destruct (bool_decide _); [|done]. injection Hs as E. rewrite <- (f_equal fst E : _ = c'). by apply covered_failAll.
  - injection Hs as E. rewrite <- (f_equal fst E : _ = c'). by apply covered_failAll.
  - destruct (0 <=? d); by inv Hs.
  - destruct (timers c !! t) as [tm|] eqn:Et; [|done]. destruct (_ <=? _); [|done]. injection Hs as E.
    rewrite <- (f_equal fst E : _ = c'). destruct (inv_timer _ _ _ _ Hi _ _ Et) as (Hp & a & Ha & Hai & _).
    apply covered_settle. by apply (covered_remove (requests 0 es) c out t (t_id tm) a).
Qed.

(** When the channel closes or fails, nothing stays pending: as long as the
    random identifiers are distinct, the handler of the close or error event
    leaves every request made so far settled exactly once, no entry and no
    running timer. *)
Theorem close_settles_all (es : list event) (e : event) (c : client) (out : list output) :
  run (es ++ [e]) c out -> e = EOnClose \/ e = EOnError -> NoDup (map a_id (requests 0 es)) ->
  pending c = [] /\ timers c = ∅
  /\ forall p, (p < length (requests 0 es))%nat -> exists o, settlements p out = [o].
Proof.
  intros Hr He Hn. pose proof (inv_run _ _ _ Hr) as [Hi _]. inversion Hr as [E|es' e' c0 c' out' o Hr' Hs Heq]; subst.
  { by destruct es. }
  apply app_inj_tail in Heq as [-> ->]. pose proof (covered_run _ _ _ Hr' Hn) as Hc.
  assert (Hf : exists error, failAll c0 error = (c, o)).
  { destruct He as [-> | ->]; cbn [step] in Hs; [destruct (bool_decide _); [|done]|]; injection Hs as E; by eexists. }
  destruct Hf as [error Hf]. pose proof (failAll_clears c0 error Hc) as Ht. rewrite Hf in Ht. cbn in Ht.
  split; [|split; [done|]].
  { revert Hf. unfold failAll. destruct (fail_entries c0 _ _). by intros [= <- _]. }
  intros p Hp. destruct Hi as [Hiss Hset Honce _ _ _ Hlive].
  assert (Hrq : requests 0 (es ++ [e]) = requests 0 es).
  { rewrite requests_app. destruct He as [-> | ->]; apply app_nil_r. }
  destruct (Hlive p) as [[x Hx]|[tm Htm]]; [by rewrite Hiss, Hrq|done| |].
  - exists x. apply settlements_unique; [done|]. by apply Hset.
  - rewrite Ht, lookup_empty in Htm. done.
Qed.

Definition demo_close : list event :=
  [ERequest (dns_request (js "nas.lan")) diagnostic_result zeros false;
   ERequest ping_request diagnostic_result ones true; EClosed].

Theorem close_settles_all_witness :
  exists c out, run (demo_close ++ [EOnClose]) c out /\ pending c = [] /\ timers c = ∅
    /\ (forall p, (p < 2)%nat -> exists o, settlements p out = [o])
    /\ settlements 0 out = [Rejected channel_closed].
Proof.
  destruct (exec_from new_ControlClient [] (demo_close ++ [EOnClose])) as [[c out]|] eqn:E; [|by vm_compute in E].
  pose proof (control_exec_run _ _ _ E) as Hr. exists c, out. split; [done|].
  assert (Ho : settlements 0 out = [Rejected channel_closed]) by (vm_compute in E; by inv E).
  destruct (close_settles_all demo_close EOnClose c out Hr) as (H1 & H2 & H3); [by left| |done].
  apply (bool_decide_unpack _). vm_compute. done.
Defined.

(** ** The message on the wire *)

Lemma valid_random_bytes random : valid_random random = true -> Forall is_byte random /\ length random = 12%nat.
Proof.
  unfold valid_random. intros H. bool_prop. split; [|done]. apply List.Forall_forall. intros x Hx.
  rewrite forallb_forall in H0. specialize (H0 x Hx). unfold is_byteb, is_byte in *. lia.
Qed.

Lemma control_id_agent random : valid_random random = true -> agent_control_id (control_id random) = true.
Proof.
  intros [Hb Hl]%valid_random_bytes. unfold agent_control_id, control_id, str_len.
  assert (Hlen : length (base64url random) = 16%nat).
  { unfold base64url. rewrite length_map. pose proof (sextets_length random) as Hs. rewrite Hl in Hs. cbn [Nat.modulo Nat.divmod fst snd Nat.sub] in Hs. lia. }
  rewrite Hlen. apply andb_true_iff. split; [|done]. rewrite andb_true_r. apply forallb_forall. intros x Hx.
  pose proof (base64url_chars random Hb) as Hc. rewrite List.Forall_forall in Hc. by apply Hc.
Qed.

Lemma control_id_units random : valid_random random = true -> Forall is_unit (control_id random).
Proof.
  intros [Hb _]%valid_random_bytes. eapply List.Forall_impl; [|by apply base64url_chars].
  intros x. cbv beta. unfold is_url_char, is_upper, is_lower, is_digit, is_unit. intros H. bool_prop. lia.
Qed.

Definition members (value : list (jsstr * outgoing)) : list (jsstr * json) :=
  map (fun '(n, v) => (n, to_json v)) value.

(** C28. What a request puts on the wire: on an open channel one text message is sent,
    [JSON.parse] reads it back to the request's members followed by its
    identifier, the identifier is one the Agent's pattern accepts, and no other
    twelve random bytes give the same identifier. *)
Theorem request_on_the_wire (c : client) (value : list (jsstr * outgoing)) (expected : jsstr) (random : list Z) :
  ready c = Open -> valid_random random = true -> wf_out (OObj value) ->
  exists c' text id, step c (ERequest value expected random false) = Some (c', [Sent text])
    /\ parse text = Some (JObj (members value ++ [(js "id", JStr id)]))
    /\ agent_control_id id = true
    /\ forall random', valid_random random' = true -> randomControlID random' = Ok id -> random' = random.
Proof.
  intros Ho Hv Hw. cbn [step]. rewrite Hv. unfold request.
  rewrite bool_decide_true by done. cbn [negb]. rewrite randomControlID_ok by done. cbn [rbind].
  eexists _, _, (control_id random). split; [reflexivity|]. split.
  - rewrite parse_roundtrip.
    + cbn [to_json]. by rewrite map_app.
    + inv Hw. constructor. apply Forall_app. split; [done|]. constructor; [|constructor].
      split; [|constructor; by apply control_id_units]. cbn.
      repeat (constructor; [unfold is_unit; lia|]). constructor.
  - split; [by apply control_id_agent|]. intros r' Hr'. rewrite randomControlID_ok by done. intros [= E].
    apply base64url_inj; try done; by apply valid_random_bytes.
Qed.

Theorem request_on_the_wire_witness :
  exists c' text id,
    step new_ControlClient (ERequest (dns_request (js "nas.lan")) diagnostic_result ones false) = Some (c', [Sent text])
    /\ parse text = Some (JObj (members (dns_request (js "nas.lan")) ++ [(js "id", JStr id)]))
    /\ agent_control_id id = true
    /\ forall random', valid_random random' = true -> randomControlID random' = Ok id -> random' = ones.
Proof.
  apply (request_on_the_wire new_ControlClient (dns_request (js "nas.lan")) diagnostic_result ones eq_refl eq_refl).
  constructor. repeat constructor; unfold is_unit; vm_compute; intuition congruence.
Defined.
