(* ===== verification/ConnectionPolicy.v ===== *)
(** * Connection policy ([web/src/connection.ts])

    The checks that keep the connection direct: STUN addresses without
    credentials, session descriptions without relay candidates, and a selected
    candidate pair that is direct and UDP; with the messages for failures and the
    reading of a controller answer. *)

From stdpp Require Import base list numbers strings sets.
From Stdlib Require Import ZArith Lia SpecFloat.
From S2P Require Import Prelude JsString Regex Json.
Local Open Scope Z_scope.

(** ** STUN addresses *)

(** [/^stun:[^@\s]+$/i] *)
Definition stun_re : regex :=
  rseq [RBol; lit chr_i (js "stun:"); rplus (fun c => negb ((c =? 64) || is_space c)); REol].

Definition stun_error : jserror := ErrorMsg (js "浏览器 ICE 配置只允许无凭据 stun: 地址").

Definition validateSTUN (values : list jsstr) : result unit :=
  if (length values =? 0)%nat || existsb (fun value => negb (test stun_re value)) values
  then Throw stun_error else Ok tt.

(** ** Session descriptions *)

(** [/\btyp\s+relay\b/i] *)
Definition relay_re : regex :=
  rseq [RWordB; lit chr_i (js "typ"); rplus is_space; lit chr_i (js "relay"); RWordB].

Definition relay_error : jserror := ErrorMsg (js "连接描述包含被禁止的 relay candidate").

Definition rejectRelay (sdp : jsstr) : result unit :=
  if test relay_re sdp then Throw relay_error else Ok tt.

(** The Agent's check of one description ([ValidateDescription]), on ASCII text:
    a candidate line, trimmed and in lower case, that contains [typ relay] as two
    fields. *)
Definition has_prefix (s p : jsstr) : bool := startsWith s p.

Fixpoint contains (s p : jsstr) : bool :=
  startsWith s p || match s with [] => false | _ :: s' => contains s' p end.

Definition agent_relay_line (rawLine : jsstr) : bool :=
  let line := map lower_char (trim rawLine) in
  has_prefix line (js "a=candidate:") && contains ([32] ++ line ++ [32]) (js " typ relay ").

Definition agent_rejects_relay (sdp : jsstr) : bool := existsb agent_relay_line (split_char 10 sdp).

(** ** Failure codes *)

(** A value read from an object literal with an arbitrary key: an own property, an
    inherited member of [Object.prototype], or [undefined]. *)
Inductive lookup_result := Own (text : jsstr) | Inherited | Undefined.

Definition object_prototype : list jsstr :=
  map js ["constructor"; "__defineGetter__"; "__defineSetter__"; "hasOwnProperty"; "__lookupGetter__";
          "__lookupSetter__"; "isPrototypeOf"; "propertyIsEnumerable"; "toString"; "valueOf"; "__proto__";
          "toLocaleString"]%string.

Fixpoint literal_lookup (table : list (jsstr * jsstr)) (key : jsstr) : lookup_result :=
  match table with
  | [] => if existsb (str_eqb key) object_prototype then Inherited else Undefined
  | (k, v) :: t => if str_eqb k key then Own v else literal_lookup t key
  end.

Definition failure_table : list (jsstr * jsstr) :=
  [(js "invalid_offer", js "Agent 拒绝了无效连接描述");
   (js "invalid_capability", js "临时会话授权无效");
   (js "service_blocked", js "Agent 未授权该服务");
   (js "peer_setup_failed", js "Agent 无法创建 P2P 连接");
   (js "restart_rejected", js "Agent 拒绝了 ICE 重启");
   (js "negotiation_failed", js "P2P 协商失败")].

(** [known[code] || '...'], where an inherited function or object is truthy; [None]
    stands for its text. *)
Definition failureMessage (code : option jsstr) : option jsstr :=
  match literal_lookup failure_table (default (js "agent_rejected") code) with
  | Own text => Some text
  | Inherited => None
  | Undefined => Some (js "Agent 拒绝了连接")
  end.

(** ** Reading an answer of the controller *)

(** The response as far as [api] looks at it: its status and, when the body is
    JSON, its value. *)
Record response := { status : Z; body : option json }.

Definition response_ok (r : response) : bool := (200 <=? status r) && (status r <=? 299).

(** [body?.error] when it is truthy and a string; other truthy values are printed
    by the engine. *)
Inductive api_error := Server (text : jsstr) | ServerOther | Status_text (text : jsstr).

Definition truthy_error (v : option json) : option api_error :=
  if falsy v then None
  else match v with Some (JStr s) => Some (Server s) | _ => Some ServerOther end.

Definition api (r : response) : json + api_error :=
  let body := if status r =? 204 then JNull else default (JObj []) (body r) in
  if response_ok r then inl body
  else inr (default (Status_text (js "控制面请求失败（" ++ string_of_Z (status r) ++ js "）"))
             (truthy_error (get_prop body (js "error")))).

(** ** The selected candidate pair *)

Record stat := {
  s_type : jsstr;
  s_state : jsstr;
  nominated : bool;
  selected : bool;
  localCandidateId : jsstr;
  remoteCandidateId : jsstr;
  currentRoundTripTime : option spec_float;   (* [None]: absent or not a number *)
  candidateType : jsstr;
  protocol : option jsstr
}.

Abbreviation stats_report := (list (jsstr * stat)).

Fixpoint stats_get (id : jsstr) (r : stats_report) : option stat :=
  match r with
  | [] => None
  | (k, v) :: r' => if str_eqb k id then Some v else stats_get id r'
  end.

Definition allowedCandidateTypes : list jsstr := [js "host"; js "srflx"; js "prflx"].

Definition allowed (t : jsstr) : bool := existsb (str_eqb t) allowedCandidateTypes.

(** A rounded number: an integer or an infinity. *)
Inductive rounded := Whole (n : Z) | Infinite (negative : bool).

Record DirectStats := {
  localType : jsstr;
  remoteType : jsstr;
  d_protocol : jsstr;
  rttMS : option rounded;
  hostCandidate : bool;
  srflxCandidate : bool
}.

(** [Math.round]: the nearest integer, halves rounded up; [None] for NaN. *)
Definition math_round (x : spec_float) : option rounded :=
  match x with
  | S754_zero _ => Some (Whole 0)
  | S754_finite s m e =>
      let v := if s then Zneg m else Zpos m in
      Some (Whole (if 0 <=? e then v * 2 ^ e else (2 * v + 2 ^ (- e)) / 2 ^ (1 - e)))
  | S754_infinity s => Some (Infinite s)
  | S754_nan => None
  end.

Definition is_finite (x : spec_float) : bool :=
  match x with S754_zero _ | S754_finite _ _ _ => true | _ => false end.

(** The double 1000, and the product of two doubles. *)
Definition thousand : spec_float := S754_finite false 8796093022208000 (-43).
Definition double_mul (x y : spec_float) : spec_float := SFmul 53 1024 x y.

(** [Math.round(rtt * 1000)] of a finite [rtt], [null] otherwise. *)
Definition rtt_ms (rtt : option spec_float) : option rounded :=
  match rtt with
  | Some x => if is_finite x then math_round (double_mul x thousand) else None
  | None => None
  end.

Definition chosen (entry : stat) : bool :=
  str_eqb (s_type entry) (js "candidate-pair") && str_eqb (s_state entry) (js "succeeded")
  && (nominated entry || selected entry).

(** The [forEach] keeps the last entry that qualifies. *)
Definition select_pair (r : stats_report) : option stat :=
  fold_left (fun acc '(_, entry) => if chosen entry then Some entry else acc) r None.

(** [local.protocol || remote.protocol || ''] *)
Definition or_string (a : option jsstr) (b : jsstr) : jsstr :=
  match a with Some (c :: s) => c :: s | _ => b end.

Definition selectedPair `{UnicodeCase} (r : stats_report) (gatheredTypes : list jsstr) : result DirectStats :=
  match select_pair r with
  | None => Throw (ErrorMsg (js "无法确认已选择的 P2P candidate pair"))
  | Some best =>
      match stats_get (localCandidateId best) r, stats_get (remoteCandidateId best) r with
      | Some local, Some remote =>
          if negb (allowed (candidateType local)) || negb (allowed (candidateType remote))
          then Throw (ErrorMsg (js "candidate pair 不满足无中继约束"))
          else
            let proto := toLowerCase (or_string (protocol local) (or_string (protocol remote) [])) in
            if negb (str_eqb proto (js "udp")) then Throw (ErrorMsg (js "当前连接不是 P2P UDP"))
            else Ok {| localType := candidateType local; remoteType := candidateType remote;
                       d_protocol := js "UDP"; rttMS := rtt_ms (currentRoundTripTime best);
                       hostCandidate := existsb (str_eqb (js "host")) gatheredTypes;
                       srflxCandidate := existsb (str_eqb (js "srflx")) gatheredTypes |}
      | _, _ => Throw (ErrorMsg (js "candidate pair 不满足无中继约束"))
      end
  end.

(** The status line after a pair is selected. *)
Definition direct_status (stats : DirectStats) : jsstr :=
  js "P2P UDP · " ++ (if str_eqb (localType stats) (js "host") && str_eqb (remoteType stats) (js "host")
                      then js "局域网直连" else js "公网映射直连").

(** ** STUN addresses: theorem *)

(** An address with the scheme [stun] and no user part or white space. *)
Definition plain_stun (v : jsstr) : Prop :=
  exists p r, v = p ++ r /\ map lower_char p = js "stun:" /\ r <> []
              /\ Forall (fun c => c <> 64 /\ is_space c = false) r.

Lemma stun_re_spec v : test stun_re v = true <-> plain_stun v.
Proof.
  rewrite test_spec. unfold stun_re, plain_stun. cbn [rseq]. setoid_rewrite Matches_seq.
  setoid_rewrite Matches_bol. setoid_rewrite Matches_seq. setoid_rewrite Matches_lit. setoid_rewrite lit_chr_i.
  setoid_rewrite Matches_seq. setoid_rewrite Matches_rplus. setoid_rewrite Matches_eol.
  change (map lower_char (js "stun:")) with (js "stun:"). split.
  - intros (u & t & w & -> & t1 & t2 & -> & [Hu ->] & t3 & t4 & -> & H3 & t5 & t6 & -> & [Hne Hf] & -> & ->).
    apply (f_equal (@rev Z)) in Hu. rewrite rev_involutive in Hu. subst u. cbn [app].
    exists t3, t5. rewrite !app_nil_r. split; [done|]. split; [done|]. split; [done|].
    apply List.Forall_forall. intros c Hc. rewrite forallb_forall in Hf. specialize (Hf c Hc). bool_prop. done.
  - intros (p & r & -> & Hp & Hne & Hr). exists [], (p ++ r), []. split; [by rewrite app_nil_r|].
    exists [], (p ++ r). split; [done|]. split; [done|]. exists p, r. split; [done|]. split; [done|].
    exists r, []. rewrite app_nil_r. split; [done|]. split; [|done]. split; [done|].
    apply forallb_forall. intros c Hc. rewrite List.Forall_forall in Hr. destruct (Hr c Hc) as [H1 ->].
    by rewrite (proj2 (Z.eqb_neq c 64)).
Qed.

(** The ICE configuration is accepted exactly when it is a non-empty list of
    [stun:] addresses without user part or white space: no other scheme, hence no
    relay server, and no credentials ever reach the peer connection. *)
Theorem validateSTUN_accepts (values : list jsstr) :
  validateSTUN values = Ok tt <-> values <> [] /\ Forall plain_stun values.
Proof.
  unfold validateSTUN. destruct (length values =? 0)%nat eqn:El.
  - apply Nat.eqb_eq in El. apply length_zero_iff_nil in El as ->. cbn. split; [done|]. by intros [].
  - apply Nat.eqb_neq in El. cbn [orb]. destruct (existsb _ values) eqn:Ex.
    + split; [done|]. intros [_ Hf]. apply existsb_exists in Ex as (v & Hv & Ht). bool_prop.
      rewrite List.Forall_forall in Hf. apply Hf in Hv. apply stun_re_spec in Hv. congruence.
    + split; [intros _|done]. split; [by intros ->|]. apply List.Forall_forall. intros v Hv. apply stun_re_spec.
      apply not_false_iff_true. intros Ht. assert (existsb (fun value => negb (test stun_re value)) values = true); [|congruence].
      apply existsb_exists. exists v. by rewrite Ht.
Qed.

(** ** Relay candidates: theorem *)

Lemma space_not_word c : is_space c = true -> is_word c = false.
Proof. unfold is_space, is_word, is_digit, is_upper, is_lower. intros H. lia. Qed.

(** The character before a position and the one behind it. *)
Definition ends_nonword (s : jsstr) : Prop := word_at (head (rev s)) = false.
Definition starts_nonword (s : jsstr) : Prop := word_at (head s) = false.

Lemma ends_nonword_app s t : ends_nonword s -> ends_nonword t -> ends_nonword (s ++ t).
Proof. unfold ends_nonword. rewrite rev_app_distr. by destruct (rev t). Qed.

Lemma starts_nonword_app s t : starts_nonword s -> starts_nonword t -> starts_nonword (s ++ t).
Proof. unfold starts_nonword. by destruct s. Qed.

Lemma ends_nonword_snoc s c : is_word c = false -> ends_nonword (s ++ [c]).
Proof. unfold ends_nonword. by rewrite rev_app_distr. Qed.

Lemma spaces_nonword w : forallb is_space w = true -> ends_nonword w /\ starts_nonword w.
Proof.
  intros H. rewrite forallb_forall in H. split.
  - unfold ends_nonword. destruct (rev w) as [|c r] eqn:E; [done|]. cbn. apply space_not_word, H.
    apply in_rev. rewrite E. by left.
  - unfold starts_nonword. destruct w as [|c r]; [done|]. cbn. apply space_not_word, H. by left.
Qed.

(** A relay field in a text is found by the browser's pattern. *)
Lemma relay_found u m v :
  ends_nonword u -> starts_nonword v -> map lower_char m = js "typ relay" -> test relay_re (u ++ m ++ v) = true.
Proof.
  intros Hu Hv Hm. apply test_spec. exists u, m, v. split; [done|].
  change (js "typ relay") with (js "typ" ++ [32] ++ js "relay") in Hm.
  apply map_eq_app in Hm as (a & m2 & -> & Ha & Hm). apply map_eq_app in Hm as (sp & b & -> & Hsp & Hb).
  assert (Hs : sp = [32]).
  { destruct sp as [|c [|]]; try discriminate. cbn in Hsp. injection Hsp as Hc.
    revert Hc. unfold lower_char, is_upper. case_match; bool_prop; intros; f_equal; lia. }
  subst sp. unfold relay_re. cbn [rseq]. apply Matches_seq. exists [], (a ++ [32] ++ b).
  assert (Hw : forall c d, lower_char c = d -> is_lower d = true -> is_word c = true).
  { intros c d. unfold lower_char, is_word, is_upper, is_lower, is_digit. intros <-. case_match; intros; lia. }
  split; [done|]. split.
  { apply Matches_wordb. split; [done|]. rewrite Hu. destruct a as [|c a]; [done|]. cbn in Ha. injection Ha as Hc _.
    cbn. by rewrite (Hw c _ Hc). }
  apply Matches_seq. exists a, ([32] ++ b). split; [done|]. split; [by apply Matches_lit, lit_chr_i|].
  apply Matches_seq. exists [32], b. split; [done|]. split; [apply Matches_rplus; done|].
  apply Matches_seq. exists b, []. split; [by rewrite app_nil_r|]. split; [by apply Matches_lit, lit_chr_i|].
  apply Matches_wordb. split; [done|]. rewrite Hv.
  change (js "relay") with (js "rela" ++ [121]) in Hb. apply map_eq_app in Hb as (b1 & b2 & -> & _ & Hb2).
  destruct b2 as [|c [|]]; try discriminate. cbn in Hb2. injection Hb2 as Hc.
  rewrite !rev_app_distr. cbn. by rewrite (Hw c _ Hc).
Qed.

Lemma contains_split s p : contains s p = true -> exists x y, s = x ++ p ++ y.
Proof.
  induction s as [|c s IH]; cbn [contains]; intros H; apply orb_true_iff in H as [H|H].
  - apply startsWith_spec in H as (y & ->). by exists [], y.
  - done.
  - apply startsWith_spec in H as (y & ->). by exists [], y.
  - destruct (IH H) as (x & y & ->). by exists (c :: x), y.
Qed.

Lemma exists_last_or_nil (y : jsstr) : y = [] \/ exists y0 d, y = y0 ++ [d].
Proof. destruct y as [|d y] using rev_ind; [by left|]. right. by exists y, d. Qed.

(** A field of a line, set off by spaces or the ends of the line. *)
Lemma padded_field t m x y :
  32 :: t ++ [32] = x ++ 32 :: m ++ 32 :: y ->
  exists x1 y1, t = x1 ++ m ++ y1 /\ ends_nonword x1 /\ starts_nonword y1.
Proof.
  intros E.
  assert (Hx : exists x1, t ++ [32] = x1 ++ m ++ 32 :: y /\ ends_nonword x1).
  { destruct x as [|c x]; cbn in E; [injection E as E|injection E as _ E].
    - exists []. done.
    - exists (x ++ [32]). rewrite E, <- app_assoc. split; [done|]. by apply ends_nonword_snoc. }
  destruct Hx as (x1 & E1 & Hx). destruct (exists_last_or_nil y) as [-> | (y0 & d & ->)].
  - rewrite app_assoc in E1. apply app_inj_tail in E1 as [-> _]. exists x1, []. rewrite app_nil_r. done.
  - exists x1, (32 :: y0). split; [|done].
    replace (x1 ++ m ++ 32 :: y0 ++ [d]) with ((x1 ++ m ++ 32 :: y0) ++ [d]) in E1 by (by rewrite <- !app_assoc).
    by apply app_inj_tail in E1 as [-> _].
Qed.

Lemma agent_relay_found sdp : agent_rejects_relay sdp = true -> test relay_re sdp = true.
Proof.
  unfold agent_rejects_relay. intros (line & Hin & Hl)%existsb_exists.
  apply list_elem_of_In, split_char_context in Hin as (u & v & -> & Hu & Hv).
  unfold agent_relay_line in Hl. bool_prop. destruct (trim_split line) as (w1 & w2 & Hline & F1 & F2).
  set (t := trim line) in *. apply contains_split in H0 as (x & y & E).
  replace ([32] ++ map lower_char t ++ [32]) with (map lower_char (32 :: t ++ [32])) in E by (cbn; by rewrite map_app).
  apply map_eq_app in E as (x' & r & E & _ & Er). apply map_eq_app in Er as (m & y' & -> & Em & _).
  change (js " typ relay ") with ([32] ++ js "typ relay" ++ [32]) in Em.
  apply map_eq_app in Em as (s1 & r & -> & Es1 & Em). apply map_eq_app in Em as (m1 & s2 & -> & Em1 & Es2).
  assert (Hsp : forall l, map lower_char l = [32] -> l = [32]).
  { intros [|c [|]]; cbn; try done. intros [= Hc]. f_equal. revert Hc. unfold lower_char, is_upper. case_match; bool_prop; lia. }
  rewrite (Hsp _ Es1), (Hsp _ Es2) in E. cbn [app] in E. rewrite <- app_assoc in E. cbn [app] in E.
  destruct (padded_field _ _ _ _ E) as (x1 & y1 & Ht & Hx1 & Hy1). rewrite Hline, Ht.
  replace (u ++ (w1 ++ (x1 ++ m1 ++ y1) ++ w2) ++ v) with ((u ++ w1 ++ x1) ++ m1 ++ (y1 ++ w2 ++ v))
    by (by rewrite <- !app_assoc).
  apply relay_found; [| |done].
  - apply ends_nonword_app; [|apply ends_nonword_app; [exact (proj1 (spaces_nonword w1 F1))|done]].
    destruct Hu as [-> | [u' ->]]; [done|by apply ends_nonword_snoc].
  - apply starts_nonword_app; [done|]. apply starts_nonword_app; [exact (proj2 (spaces_nonword w2 F2))|].
    by destruct Hv as [-> | [v' ->]].
Qed.

(** C29. The browser is at least as strict as the Agent: every description in which the
    Agent finds a relay candidate is rejected by the browser, wherever the line
    stands and however it is spaced or capitalised. *)
Theorem rejectRelay_covers_agent (sdp : jsstr) :
  agent_rejects_relay sdp = true -> rejectRelay sdp = Throw relay_error.
Proof. intros H. unfold rejectRelay. by rewrite agent_relay_found. Qed.

Definition relay_sdp : jsstr :=
  js "v=0" ++ [13; 10] ++ js "a=Candidate:1 1 UDP 1 192.0.2.1 9 TYP Relay" ++ [13; 10].

Theorem rejectRelay_covers_agent_witness :
  agent_rejects_relay relay_sdp = true /\ rejectRelay relay_sdp = Throw relay_error.
Proof. split; [vm_compute; reflexivity|]. apply (rejectRelay_covers_agent relay_sdp). vm_compute. reflexivity. Defined.

(** ** The selected pair: theorem *)

Lemma select_pair_some (r : stats_report) (best : stat) :
  select_pair r = Some best -> exists id : jsstr, (id, best) ∈ r /\ chosen best = true.
Proof.
  unfold select_pair.
  assert (G : forall r' acc, fold_left (fun acc '(_, entry) => if chosen entry then Some entry else acc) r' acc = Some best ->
            acc = Some best \/ exists id : jsstr, (id, best) ∈ r' /\ chosen best = true).
  { induction r' as [|[k e] r' IH]; cbn; intros acc H; [by left|]. apply IH in H as [H|(id & H & Hc)].
    - destruct (chosen e) eqn:Ec; [|by left]. injection H as ->. right. exists k. split; [by left|done].
    - right. exists id. split; [by right|done]. }
  intros H. by apply G in H as [H|H].
Qed.

Lemma allowed_elem t : allowed t = true <-> t ∈ allowedCandidateTypes.
Proof.
  unfold allowed. rewrite existsb_exists. setoid_rewrite str_eqb_eq. rewrite list_elem_of_In.
  split; [by intros (x & Hx & ->)|by exists t].
Qed.

(** The connection is reported as direct only when it is: a result means that the
    report has a succeeded pair, nominated or selected, whose two ends are in the
    report, are host, server-reflexive or peer-reflexive candidates (never a
    relay), and use UDP; every other report is refused with one of three
    errors. *)
Theorem selectedPair_direct `{UnicodeCase} (r : stats_report) (types : list jsstr) :
  match selectedPair r types with
  | Ok d =>
      localType d ∈ allowedCandidateTypes /\ remoteType d ∈ allowedCandidateTypes
      /\ localType d <> js "relay" /\ remoteType d <> js "relay"
      /\ exists (id : jsstr) (best local remote : stat),
           (id, best) ∈ r /\ chosen best = true
           /\ stats_get (localCandidateId best) r = Some local /\ candidateType local = localType d
           /\ stats_get (remoteCandidateId best) r = Some remote /\ candidateType remote = remoteType d
           /\ toLowerCase (or_string (protocol local) (or_string (protocol remote) [])) = js "udp"
  | Throw e =>
      e = ErrorMsg (js "无法确认已选择的 P2P candidate pair")
      \/ e = ErrorMsg (js "candidate pair 不满足无中继约束") \/ e = ErrorMsg (js "当前连接不是 P2P UDP")
  end.
Proof.
  unfold selectedPair. destruct (select_pair r) as [best|] eqn:Es; [|by left].
  destruct (stats_get (localCandidateId best) r) as [local|] eqn:El; [|right; by left].
  destruct (stats_get (remoteCandidateId best) r) as [remote|] eqn:Er; [|right; by left].
  destruct (_ || _) eqn:Ea; [right; by left|]. cbv zeta. destruct (negb (str_eqb _ _)) eqn:Eu; [right; by right|].
  bool_prop. apply allowed_elem in H0, H1. apply str_eqb_eq in Eu. cbn [localType remoteType].
  assert (Hrel : forall t, t ∈ allowedCandidateTypes -> t <> js "relay").
  { intros t Ht ->. apply allowed_elem in Ht. by vm_compute in Ht. }
  repeat (split; [by auto|]). apply select_pair_some in Es as (id & Hin & Hc).
  exists id, best, local, remote. done.
Qed.
