(* ===== verification/Handshake.v ===== *)
(** * Waiting for the peer and the channels ([web/src/connection.ts])

    The promises [connect] awaits: a channel opening, ICE gathering, the peer
    connecting, and the authentication of the Wisp and control channels.  A
    promise keeps the first value it is settled with; listeners and timers are
    part of the state, so that an event without a listener does nothing.  An
    [async] function goes on directly after the event that settles what it
    awaits, before the next event. *)

From stdpp Require Import base list numbers strings sets.
From Stdlib Require Import ZArith Lia.
From S2P Require Import Prelude JsString Browser.
Local Open Scope Z_scope.

Abbreviation promise := (option (result unit)).

Definition settle (p : promise) (r : result unit) : promise :=
  match p with Some _ => p | None => Some r end.

(** ** One expected text message *)

(** What a channel can deliver: text or binary data, or its close event; and the
    timer of [window.setTimeout]. *)
Inductive event := Message (data : option jsstr) | Close | Timeout.
#[export] Instance event_eq_dec : EqDecision event.
Proof. solve_decision. Defined.

Record waiter := {
  value : promise;
  timer : bool;
  onMessage : bool;
  onClose : bool
}.

Definition auth_timeout : jserror := ErrorMsg (js "DataChannel 鉴权超时").
Definition auth_invalid : jserror := ErrorMsg (js "DataChannel 返回了无效鉴权消息").
Definition auth_closed : jserror := ErrorMsg (js "DataChannel 在鉴权期间关闭").

Definition finish (w : waiter) (error : option jserror) : waiter :=
  {| value := settle (value w) (match error with Some e => Throw e | None => Ok tt end);
     timer := false; onMessage := false; onClose := false |}.

Definition textMessage : waiter := {| value := None; timer := true; onMessage := true; onClose := true |}.

Definition textMessage_event (expected : jsstr) (w : waiter) (e : event) : waiter :=
  match e with
  | Message data =>
      if onMessage w
      then finish w (if bool_decide (data = Some expected) then None else Some auth_invalid)
      else w
  | Close => if onClose w then finish w (Some auth_closed) else w
  | Timeout => if timer w then finish w (Some auth_timeout) else w
  end.

(** ** Authentication *)

Definition authOK : jsstr := js "webvpn-auth-ok-v1".
Definition authReady : jsstr := js "webvpn-auth-ready-v1".
Definition auth_request (capability : jsstr) : jsstr := js "webvpn-auth-v1:" ++ capability.
Definition ping_text : jsstr := jsq "{`type`:`ping`}".
Definition pong_text : jsstr := jsq "{`type`:`pong`}".

Inductive action := Send (text : jsstr) | NewTransport | NewControl.

Inductive stage :=
| Authenticating (w : waiter)
| Ponging (w : waiter)
| Done
| Failed (e : jserror).

(** The two functions up to their first [await]. *)
Definition authenticateWisp_start (capability : jsstr) : stage * list action :=
  (Authenticating textMessage, [Send (auth_request capability)]).

Definition authenticateControl_start (capability : jsstr) : stage * list action :=
  (Authenticating textMessage, [Send (auth_request capability)]).

(** What runs once the awaited promise is settled. *)
Definition authenticateWisp_resume (s : stage) : stage * list action :=
  match s with
  | Authenticating w =>
      match value w with
      | Some (Ok _) => (Done, [NewTransport; Send authReady])
      | Some (Throw e) => (Failed e, [])
      | None => (s, [])
      end
  | _ => (s, [])
  end.

Definition authenticateControl_resume (s : stage) : stage * list action :=
  match s with
  | Authenticating w =>
      match value w with
      | Some (Ok _) => (Ponging textMessage, [Send ping_text])
      | Some (Throw e) => (Failed e, [])
      | None => (s, [])
      end
  | Ponging w =>
      match value w with
      | Some (Ok _) => (Done, [NewControl])
      | Some (Throw e) => (Failed e, [])
      | None => (s, [])
      end
  | _ => (s, [])
  end.

Definition deliver (s : stage) (e : event) : stage :=
  match s with
  | Authenticating w => Authenticating (textMessage_event authOK w e)
  | Ponging w => Ponging (textMessage_event pong_text w e)
  | _ => s
  end.

Fixpoint run (resume : stage -> stage * list action) (s : stage) (es : list event) : stage * list action :=
  match es with
  | [] => (s, [])
  | e :: es' =>
      let '(s1, a1) := resume (deliver s e) in
      let '(s2, a2) := run resume s1 es' in
      (s2, a1 ++ a2)
  end.

Definition authenticateWisp (capability : jsstr) (es : list event) : stage * list action :=
  let '(s, a) := authenticateWisp_start capability in
  let '(s', a') := run authenticateWisp_resume s es in (s', a ++ a').

Definition authenticateControl (capability : jsstr) (es : list event) : stage * list action :=
  let '(s, a) := authenticateControl_start capability in
  let '(s', a') := run authenticateControl_resume s es in (s', a ++ a').

(** ** The other promises *)

Inductive channel_event := ChOpen | ChClose | ChError.

Definition open_start (ready : readyState) : promise :=
  if bool_decide (ready = Open) then Some (Ok tt) else None.

(** The listeners stay, but only the first event settles the promise. *)
Definition open_event (p : promise) (e : channel_event) : promise :=
  match e with
  | ChOpen => settle p (Ok tt)
  | ChClose => settle p (Throw (ErrorMsg (js "DataChannel 未能建立")))
  | ChError => settle p (Throw (ErrorMsg (js "DataChannel 建立失败")))
  end.

Inductive gatheringState := GNew | GGathering | GComplete.

Record gather := { gathered_value : promise; onGathering : bool }.

Definition gathered (s : gatheringState) : gather :=
  match s with
  | GComplete => {| gathered_value := Some (Ok tt); onGathering := false |}
  | _ => {| gathered_value := None; onGathering := true |}
  end.

Definition gathered_changed (g : gather) (s : gatheringState) : gather :=
  if onGathering g
  then match s with
       | GComplete => {| gathered_value := settle (gathered_value g) (Ok tt); onGathering := false |}
       | _ => g
       end
  else g.

Inductive connectionState := CNew | CConnecting | CConnected | CDisconnected | CFailed | CClosed.
#[export] Instance connectionState_eq_dec : EqDecision connectionState.
Proof. solve_decision. Defined.

Record connecting := { connected_value : promise; connectTimer : bool; onState : bool }.

Definition connected (s : connectionState) : connecting :=
  if bool_decide (s = CConnected)
  then {| connected_value := Some (Ok tt); connectTimer := false; onState := false |}
  else {| connected_value := None; connectTimer := true; onState := true |}.

Definition connect_finish (c : connecting) (error : option jserror) : connecting :=
  {| connected_value := settle (connected_value c) (match error with Some e => Throw e | None => Ok tt end);
     connectTimer := false; onState := false |}.

Definition connected_changed (c : connecting) (s : connectionState) : connecting :=
  if onState c
  then match s with
       | CConnected => connect_finish c None
       | CClosed | CFailed => connect_finish c (Some (ErrorMsg (js "P2P 连接失败")))
       | _ => c
       end
  else c.

Definition connected_timeout (c : connecting) : connecting :=
  if connectTimer c then connect_finish c (Some (ErrorMsg (js "P2P 连接超时"))) else c.

(** ** Properties *)

(** A settled handshake ignores every later event. *)
Definition final (s : stage) : bool := match s with Done | Failed _ => true | _ => false end.

Lemma run_final resume s es :
  final s = true -> resume = authenticateWisp_resume \/ resume = authenticateControl_resume ->
  run resume s es = (s, []).
Proof.
  intros Hf Hr. induction es as [|e es IH]; [done|]. cbn [run].
  assert (H : resume (deliver s e) = (s, [])) by (destruct Hr as [-> | ->]; by destruct s).
  by rewrite H, IH.
Qed.

Lemma run_cons resume s e es s1 a1 s2 a2 :
  resume (deliver s e) = (s1, a1) -> run resume s1 es = (s2, a2) -> run resume s (e :: es) = (s2, a1 ++ a2).
Proof. intros H1 H2. cbn [run]. by rewrite H1, H2. Qed.

(** What the first event does to a waiting handshake. *)
Definition verdict (expected : jsstr) (e : event) : result unit :=
  match e with
  | Message data => if bool_decide (data = Some expected) then Ok tt else Throw auth_invalid
  | Close => Throw auth_closed
  | Timeout => Throw auth_timeout
  end.

Lemma textMessage_verdict expected e : value (textMessage_event expected textMessage e) = Some (verdict expected e).
Proof. destruct e as [data| |]; cbn; [|done|done]. by case_bool_decide. Qed.

Lemma verdict_ok expected e : verdict expected e = Ok tt <-> e = Message (Some expected).
Proof.
  destruct e as [data| |]; cbn; [|done|done]. case_bool_decide; split; congruence.
Qed.

Lemma wisp_first_event e es :
  run authenticateWisp_resume (Authenticating textMessage) (e :: es)
  = match verdict authOK e with
    | Ok _ => (Done, [NewTransport; Send authReady])
    | Throw error => (Failed error, [])
    end.
Proof.
  pose proof (textMessage_verdict authOK e) as H. destruct (verdict authOK e) as [[]|error].
  - rewrite <- (app_nil_r [NewTransport; _]). eapply run_cons; [cbn [deliver authenticateWisp_resume authenticateControl_resume]; by rewrite H|]. apply run_final; auto.
  - rewrite <- (app_nil_r []). eapply run_cons; [cbn [deliver authenticateWisp_resume authenticateControl_resume]; by rewrite H|]. apply run_final; auto.
Qed.

(** C2. A Wisp transport is built on a channel, and the Agent told to start, exactly
    when the first thing that happens after the capability was sent is the
    Agent's acknowledgement; anything else (another message, binary data, the
    close of the channel, five seconds of silence) fails the handshake and
    nothing more is ever sent. *)
Theorem authenticateWisp_gate (capability : jsstr) (es : list event) :
  match es with
  | [] => authenticateWisp capability es = (Authenticating textMessage, [Send (auth_request capability)])
  | e :: _ =>
      if bool_decide (e = Message (Some authOK))
      then authenticateWisp capability es = (Done, [Send (auth_request capability); NewTransport; Send authReady])
      else exists error, authenticateWisp capability es = (Failed error, [Send (auth_request capability)])
  end.
Proof.
  destruct es as [|e es]; [done|]. unfold authenticateWisp, authenticateWisp_start. rewrite wisp_first_event.
  case_bool_decide as E.
  - by rewrite (proj2 (verdict_ok authOK e) E).
  - destruct (verdict authOK e) as [[]|error] eqn:Ev; [by apply verdict_ok in Ev|]. by exists error.
Qed.

Lemma control_first_event e es :
  run authenticateControl_resume (Authenticating textMessage) (e :: es)
  = match verdict authOK e with
    | Ok _ => let '(s, a) := run authenticateControl_resume (Ponging textMessage) es in (s, Send ping_text :: a)
    | Throw error => (Failed error, [])
    end.
Proof.
  pose proof (textMessage_verdict authOK e) as H. destruct (verdict authOK e) as [[]|error].
  - destruct (run authenticateControl_resume (Ponging textMessage) es) as [s a] eqn:Er.
    change (Send ping_text :: a) with ([Send ping_text] ++ a). eapply run_cons; [cbn [deliver authenticateWisp_resume authenticateControl_resume]; by rewrite H|done].
  - rewrite <- (app_nil_r []). eapply run_cons; [cbn [deliver authenticateWisp_resume authenticateControl_resume]; by rewrite H|]. apply run_final; auto.
Qed.

Lemma control_second_event e es :
  run authenticateControl_resume (Ponging textMessage) (e :: es)
  = match verdict pong_text e with
    | Ok _ => (Done, [NewControl])
    | Throw error => (Failed error, [])
    end.
Proof.
  pose proof (textMessage_verdict pong_text e) as H. destruct (verdict pong_text e) as [[]|error].
  - rewrite <- (app_nil_r [NewControl]). eapply run_cons; [cbn [deliver authenticateWisp_resume authenticateControl_resume]; by rewrite H|]. apply run_final; auto.
  - rewrite <- (app_nil_r []). eapply run_cons; [cbn [deliver authenticateWisp_resume authenticateControl_resume]; by rewrite H|]. apply run_final; auto.
Qed.

(** The control client exists exactly when the channel's first two events are the
    Agent's acknowledgement and its pong; the ping is sent only after the
    acknowledgement, and after a failure nothing is sent. *)
Theorem authenticateControl_gate (capability : jsstr) (es : list event) :
  let r := authenticateControl capability es in
  (NewControl ∈ snd r <-> exists rest, es = Message (Some authOK) :: Message (Some pong_text) :: rest)
  /\ (fst r = Done <-> NewControl ∈ snd r)
  /\ (Send ping_text ∈ snd r -> exists rest, es = Message (Some authOK) :: rest)
  /\ NewTransport ∉ snd r.
Proof.
  cbv zeta. unfold authenticateControl, authenticateControl_start.
  assert (Hping : Send (auth_request capability) <> Send ping_text) by (intros [= E]; by vm_compute in E).
  destruct es as [|e1 es]; [cbn; set_solver|]. rewrite control_first_event.
  destruct (verdict authOK e1) as [[]|error] eqn:E1.
  - apply verdict_ok in E1 as ->. destruct es as [|e2 es]; [cbn; set_solver|].
    rewrite control_second_event. destruct (verdict pong_text e2) as [[]|error] eqn:E2.
    + apply verdict_ok in E2 as ->. cbn. set_solver.
    + assert (e2 <> Message (Some pong_text)) by (intros E%verdict_ok; congruence). cbn. set_solver.
  - assert (e1 <> Message (Some authOK)) by (intros E%verdict_ok; congruence). cbn. set_solver.
Qed.
