(* ===== verification/DirectConnection.v ===== *)
(** * The direct connection ([DirectConnection] of [web/src/connection.ts])

    The object's fields, and the activations of its asynchronous methods
    [connect] and [restart].  An activation is suspended at an [await]; an event
    resumes it with the reply of what it awaits, and it runs to its next [await].
    The return of an awaited method of the class is a suspension of its own, since
    other callbacks may run before its caller goes on.  Peers are numbered in the
    order [connect] creates them. *)

From stdpp Require Import base list numbers strings sets gmap.
From Stdlib Require Import ZArith Lia.
From S2P Require Import Prelude JsString Regex Json Browser ConnectionPolicy Handshake.
Local Open Scope Z_scope.

Definition maxRestarts : Z := 2.

Record Description := { d_type : jsstr; sdp : jsstr }.

(** ** State *)

(** The fields of the object. *)
Record fields := {
  peer : option nat;
  signalID : jsstr;
  browserSessionID : jsstr;
  capability : jsstr;
  serviceID : jsstr;
  restartCount : Z;
  restarting : bool;
  closed : bool;
  candidateTypes : list jsstr
}.

(** Where an activation is suspended. *)
Inductive pc :=
| AwCreateOffer | AwSetLocal | AwGather
| AwOffered (offer : Description)
| AwPost
| AwPoll (id : jsstr) (deadline : Z)
| AwPollDelay (id : jsstr) (deadline wake : Z)
| AwAnswered (id : jsstr) (answer : Description)
| AwSetRemote (id : jsstr)
| AwOpen | AwAuth | AwTemporary
| AwConnected (id : jsstr)
| AwStats
| AwPair (stats : DirectStats)
| AwThrown (e : jserror)
| AwRetry (wake : Z).

Record task := {
  for_restart : bool;
  t_service : jsstr;            (* the argument of [connect] *)
  t_temporary : bool;
  t_peer : nat;
  at_ : pc
}.

(** What an awaited operation answers. *)
Inductive reply :=
| ROk
| RErr (e : jserror)
| RLocal (d : option Description)
| RCreated (id session cap : jsstr)
| RPending
| RAnswered (d : Description)
| RRefused (code : option jsstr)
| RReport (r : stats_report).

(** The body of the request that creates a connection; a restart also names the
    session, the capability and the signal it restarts. *)
Record post_body := {
  service_id : jsstr;
  resume_of : option (jsstr * jsstr * jsstr);
  offer : Description
}.

Inductive output :=
| Status (message : jsstr)
| Stats (value : option DirectStats)
| Failed (e : jserror)
| PeerClosed (p : nat)
| RestartIce (p : nat)
| Post (b : post_body)
| Get (id : jsstr)
| SetRemote (p : nat) (d : Description)
| Authenticate (cap : jsstr)
| ConfigureTemporary
| ConnectDone
| ConnectFailed (e : jserror).

(** ** Methods without [await] *)

Definition set_restarting (f : fields) (b : bool) : fields :=
  {| peer := peer f; signalID := signalID f; browserSessionID := browserSessionID f; capability := capability f;
     serviceID := serviceID f; restartCount := restartCount f; restarting := b; closed := closed f;
     candidateTypes := candidateTypes f |}.

Definition close (f : fields) : fields * list output :=
  ({| peer := None; signalID := []; browserSessionID := []; capability := []; serviceID := [];
      restartCount := 0; restarting := restarting f; closed := true; candidateTypes := candidateTypes f |},
   (match peer f with Some p => [PeerClosed p] | None => [] end) ++ [Stats None]).

Definition fail (f : fields) (e : jserror) : fields * list output :=
  let '(f, out) := close f in (f, out ++ [Failed e]).

(** ** The methods, one segment per [await]

    A segment gives the fields, the next suspension ([None] when the activation
    ends) and what was done. *)

Abbreviation segment := (fields * option pc * list output)%type.

Definition collecting : jsstr := js "正在收集候选".

(** [connect] up to the first [await] of [localOffer]; [p] is the new peer, or
    [made] the exception of its constructor. *)
Definition connect_start (f : fields) (p : nat) (service : jsstr) (made : option jserror) : segment :=
  let '(f, out) := close f in
  let opened (q : option nat) :=
    {| peer := q; signalID := signalID f; browserSessionID := browserSessionID f; capability := capability f;
       serviceID := service; restartCount := restartCount f; restarting := restarting f; closed := false;
       candidateTypes := [] |} in
  match made with
  | None => (opened (Some p), Some AwCreateOffer, out ++ [Status collecting])
  | Some e => (opened None, None, out ++ [Status collecting; ConnectFailed e])
  end.

Definition restarts_exhausted : jserror := ErrorMsg (js "ICE 重启次数已耗尽").
Definition restart_status (n : Z) : jsstr :=
  js "ICE 重启中（" ++ string_of_Z n ++ js "/" ++ string_of_Z maxRestarts ++ js "）".

(** [restart] up to its first [await], with the peer it works on. *)
Definition restart_start (f : fields) : fields * option (nat * pc) * list output :=
  match peer f with
  | None => (f, None, [])
  | Some p =>
      if closed f || restarting f then (f, None, [])
      else if maxRestarts <=? restartCount f then
        let '(f, out) := fail f restarts_exhausted in (f, None, out)
      else
        let n := restartCount f + 1 in
        ({| peer := peer f; signalID := signalID f; browserSessionID := browserSessionID f;
            capability := capability f; serviceID := serviceID f; restartCount := n; restarting := true;
            closed := closed f; candidateTypes := [] |},
         Some (p, AwCreateOffer), [Status (restart_status n); RestartIce p])
  end.

(** The [catch] and [finally] of [restart]; [connect] has none, so its promise is
    rejected. *)
Definition throw_to (t : task) (f : fields) (now : Z) (e : jserror) : segment :=
  if for_restart t then
    if (restartCount f <? maxRestarts) && negb (closed f) then (f, Some (AwRetry (now + 900)), [])
    else let '(f, out) := fail f e in (set_restarting f false, None, out)
  else (f, None, [ConnectFailed e]).

Definition no_description : jserror := ErrorMsg (js "浏览器未生成有效的连接描述").
Definition answer_timeout : jserror := ErrorMsg (js "等待 OpenWrt Agent 应答超时").

(** The end of [localOffer]. *)
Definition local_description (d : option Description) : pc :=
  match d with
  | None => AwThrown no_description
  | Some d =>
      match sdp d with
      | [] => AwThrown no_description
      | _ => match rejectRelay (sdp d) with Throw e => AwThrown e | Ok _ => AwOffered d end
      end
  end.

(** The loop of [waitForAnswer]. *)
Definition wait_loop (f : fields) (now : Z) (id : jsstr) (deadline : Z) : segment :=
  if negb (closed f) && (now <? deadline) then (f, Some (AwPoll id deadline), [Get id])
  else (f, Some (AwThrown answer_timeout), []).

Definition refusal (code : option jsstr) : jserror :=
  match failureMessage code with Some m => ErrorMsg m | None => PlatformError "Object.prototype" end.

(** The request body of [connect] and of [restart]. *)
Definition request_body (t : task) (f : fields) (d : Description) : post_body :=
  if for_restart t
  then {| service_id := serviceID f; resume_of := Some (browserSessionID f, capability f, signalID f); offer := d |}
  else {| service_id := t_service t; resume_of := None; offer := d |}.

Definition set_session (f : fields) (id session cap : jsstr) : fields :=
  {| peer := peer f; signalID := id; browserSessionID := session; capability := cap; serviceID := serviceID f;
     restartCount := restartCount f; restarting := restarting f; closed := closed f;
     candidateTypes := candidateTypes f |}.

(** The last statements of both methods. *)
Definition finish (t : task) (f : fields) (stats : DirectStats) : segment :=
  let out := [Stats (Some stats); Status (direct_status stats)] in
  if for_restart t then (set_restarting f false, None, out) else (f, None, out ++ [ConnectDone]).

Definition establishing : jsstr := js "正在建立 P2P".

(** One activation resumed with a reply; [None] when the reply does not answer what
    it awaits, or a delay is not over.  [AwRetry], which calls [restart] again, is
    [retry] below. *)
Definition resume `{UnicodeCase} (t : task) (f : fields) (now : Z) (r : reply) : option segment :=
  match at_ t, r with
  | AwCreateOffer, ROk => Some (f, Some AwSetLocal, [])
  | AwSetLocal, ROk => Some (f, Some AwGather, [])
  | AwGather, RLocal d => Some (f, Some (local_description d), [])
  | (AwCreateOffer | AwSetLocal | AwGather | AwPoll _ _ | AwStats), RErr e => Some (f, Some (AwThrown e), [])
  | AwOffered d, ROk => Some (f, Some AwPost, [Post (request_body t f d)])
  | AwPost, RCreated id session cap =>
      let f := if for_restart t then f else set_session f id session cap in
      Some (wait_loop f now id (now + 45000))
  | AwPoll id deadline, RAnswered d => Some (f, Some (AwAnswered id d), [])
  | AwPoll id deadline, RRefused code => Some (f, Some (AwThrown (refusal code)), [])
  | AwPoll id deadline, RPending => Some (f, Some (AwPollDelay id deadline (now + 500)), [])
  | AwPollDelay id deadline wake, ROk => if wake <=? now then Some (wait_loop f now id deadline) else None
  | AwAnswered id d, ROk =>
      match rejectRelay (sdp d) with
      | Throw e => Some (throw_to t f now e)
      | Ok _ => Some (f, Some (AwSetRemote id), [SetRemote (t_peer t) d])
      end
  | AwSetRemote id, ROk =>
      if for_restart t then Some (f, Some (AwConnected id), [])
      else Some (f, Some AwOpen, [Status establishing])
  | AwOpen, ROk =>
      Some (f, Some AwAuth, [Authenticate (capability f); Authenticate (capability f); Authenticate (capability f)])
  | AwAuth, ROk => if t_temporary t then Some (f, Some AwTemporary, [ConfigureTemporary]) else Some (f, Some AwStats, [])
  | AwTemporary, ROk => Some (f, Some AwStats, [])
  | AwConnected id, ROk => Some (set_session f id (browserSessionID f) (capability f), Some AwStats, [])
  | AwStats, RReport report =>
      Some (f, Some (match selectedPair report (candidateTypes f) with
                     | Ok stats => AwPair stats
                     | Throw e => AwThrown e
                     end), [])
  | AwPair stats, ROk => Some (finish t f stats)
  | AwThrown e, ROk => Some (throw_to t f now e)
  | (AwPost | AwSetRemote _ | AwOpen | AwAuth | AwTemporary | AwConnected _), RErr e => Some (throw_to t f now e)
  | _, _ => None
  end.

(** After the 900 ms of the [catch]: [restart] is called again, and the [finally]
    of the outer call runs when it returns. *)
Definition retry (f : fields) : fields * option (nat * pc) * list output :=
  let '(f, next, out) := restart_start (set_restarting f false) in
  match next with
  | Some _ => (f, next, out)
  | None => (set_restarting f false, None, out)
  end.

(** The listener of [icecandidate]. *)
Definition on_candidate (f : fields) (ty : option jsstr) : fields * list output :=
  match ty with
  | None | Some [] => (f, [])
  | Some ty =>
      let types := if existsb (str_eqb ty) (candidateTypes f) then candidateTypes f else candidateTypes f ++ [ty] in
      let f := {| peer := peer f; signalID := signalID f; browserSessionID := browserSessionID f;
                  capability := capability f; serviceID := serviceID f; restartCount := restartCount f;
                  restarting := restarting f; closed := closed f; candidateTypes := types |} in
      if str_eqb ty (js "relay") then fail f (ErrorMsg (js "检测到被禁止的 relay candidate")) else (f, [])
  end.

(** The listener of [connectionstatechange]: whether it starts the timer. *)
Definition on_state (f : fields) (p : nat) (st : connectionState) : bool :=
  negb (closed f) && bool_decide (peer f = Some p)
  && (bool_decide (st = CDisconnected) || bool_decide (st = CFailed)).

(** ** The object among its peers and activations *)

Record conn := {
  obj : fields;
  tasks : gmap nat task;
  issued : nat;
  peers : list connectionState;
  stateTimers : list (nat * Z);
  clock : Z
}.

Inductive event :=
| EConnect (service : jsstr) (temporary : bool) (made : option jserror)
| ERestart
| EClose
| EResume (k : nat) (r : reply)
| ECandidate (p : nat) (ty : option jsstr)
| EState (p : nat) (st : connectionState)
| EStateTimer (i : nat)
| ETick (d : Z).

(** [peer.close()] puts the peer into its final state. *)
Definition close_peers (out : list output) (ps : list connectionState) : list connectionState :=
  fold_left (fun ps o => match o with PeerClosed p => <[p := CClosed]> ps | _ => ps end) out ps.

Definition update (c : conn) (f : fields) (ts : gmap nat task) (out : list output) : conn :=
  {| obj := f; tasks := ts; issued := issued c; peers := close_peers out (peers c);
     stateTimers := stateTimers c; clock := clock c |}.

Definition add_task (c : conn) (t : task) : conn :=
  {| obj := obj c; tasks := <[issued c := t]> (tasks c); issued := S (issued c); peers := peers c;
     stateTimers := stateTimers c; clock := clock c |}.

Definition call_restart (c : conn) : conn * list output :=
  let '(f, next, out) := restart_start (obj c) in
  let c := update c f (tasks c) out in
  match next with
  | Some (p, a) =>
      (add_task c {| for_restart := true; t_service := []; t_temporary := false; t_peer := p; at_ := a |}, out)
  | None => (c, out)
  end.

Definition set_at (t : task) (p : nat) (a : pc) : task :=
  {| for_restart := for_restart t; t_service := t_service t; t_temporary := t_temporary t; t_peer := p; at_ := a |}.

(** One event; [None] when it cannot happen: a reply that answers nothing, an event
    of a peer that is closed, a timer that is not due. *)
Definition step `{UnicodeCase} (c : conn) (e : event) : option (conn * list output) :=
  match e with
  | EConnect service temporary made =>
      let p := length (peers c) in
      let '(f, next, out) := connect_start (obj c) p service made in
      let c := update c f (tasks c) out in
      Some (match next with
            | Some a =>
                (add_task {| obj := obj c; tasks := tasks c; issued := issued c; peers := peers c ++ [CNew];
                             stateTimers := stateTimers c; clock := clock c |}
                   {| for_restart := false; t_service := service; t_temporary := temporary; t_peer := p; at_ := a |}, out)
            | None => (c, out)
            end)
  | ERestart => Some (call_restart c)
  | EClose => let '(f, out) := close (obj c) in Some (update c f (tasks c) out, out)
  | EResume k r =>
      match tasks c !! k with
      | None => None
      | Some t =>
          match at_ t, r with
          | AwRetry wake, ROk =>
              if wake <=? clock c then
                let '(f, next, out) := retry (obj c) in
                Some (update c f (match next with
                                  | Some (p, a) => <[k := set_at t p a]> (tasks c)
                                  | None => delete k (tasks c)
                                  end) out, out)
              else None
          | _, _ =>
              match resume t (obj c) (clock c) r with
              | Some (f, next, out) =>
                  Some (update c f (match next with
                                    | Some a => <[k := set_at t (t_peer t) a]> (tasks c)
                                    | None => delete k (tasks c)
                                    end) out, out)
              | None => None
              end
          end
      end
  | ECandidate p ty =>
      match peers c !! p with
      | Some CClosed | None => None
      | Some _ => let '(f, out) := on_candidate (obj c) ty in Some (update c f (tasks c) out, out)
      end
  | EState p st =>
      match peers c !! p with
      | Some CClosed | None => None
      | Some _ =>
          Some ({| obj := obj c; tasks := tasks c; issued := issued c; peers := <[p := st]> (peers c);
                   stateTimers := if on_state (obj c) p st then stateTimers c ++ [(p, clock c + 1500)] else stateTimers c;
                   clock := clock c |}, [])
      end
  | EStateTimer i =>
      match stateTimers c !! i with
      | Some (p, due) =>
          if due <=? clock c then
            let c := {| obj := obj c; tasks := tasks c; issued := issued c; peers := peers c;
                        stateTimers := delete i (stateTimers c); clock := clock c |} in
            if bool_decide (peer (obj c) = Some p) && negb (bool_decide (peers c !! p = Some CConnected))
            then Some (call_restart c) else Some (c, [])
          else None
      | None => None
      end
  | ETick d =>
      if 0 <=? d
      then Some ({| obj := obj c; tasks := tasks c; issued := issued c; peers := peers c;
                    stateTimers := stateTimers c; clock := clock c + d |}, [])
      else None
  end.

(** The constructor. *)
Definition new_fields : fields :=
  {| peer := None; signalID := []; browserSessionID := []; capability := []; serviceID := []; restartCount := 0;
     restarting := false; closed := false; candidateTypes := [] |}.

Definition init : conn :=
  {| obj := new_fields; tasks := ∅; issued := 0; peers := []; stateTimers := []; clock := 0 |}.

Definition new_DirectConnection (stunURLs : list jsstr) : result conn :=
  let? _ := validateSTUN stunURLs in Ok init.

Inductive run `{UnicodeCase} : list event -> conn -> list output -> Prop :=
| run_nil : run [] init []
| run_snoc es e c c' out o : run es c out -> step c e = Some (c', o) -> run (es ++ [e]) c' (out ++ o).

(** ** No relay candidate leaves or enters *)

Definition clean (d : Description) : Prop := rejectRelay (sdp d) = Ok tt.

Definition clean_pc (a : pc) : Prop := match a with AwOffered d => clean d | _ => True end.

Definition clean_output (o : output) : Prop :=
  match o with Post b => clean (offer b) | SetRemote _ d => clean d | _ => True end.

(** What the parts of a segment satisfy. *)
Definition clean_segment (s : segment) : Prop :=
  Forall clean_output (snd s) /\ forall a, snd (fst s) = Some a -> clean_pc a.

Lemma clean_fail f e : Forall clean_output (snd (fail f e)).
Proof. unfold fail, close. destruct (peer f); by repeat constructor. Qed.

Lemma clean_throw_to t f now e : clean_segment (throw_to t f now e).
Proof.
  unfold throw_to, clean_segment. destruct (for_restart t).
  - destruct (_ && _); [split; [constructor|]; by intros a [= <-]|].
    pose proof (clean_fail f e) as H. destruct (fail f e) as [f' out]. by split.
  - split; [by repeat constructor|done].
Qed.

Lemma clean_wait_loop f now id deadline : clean_segment (wait_loop f now id deadline).
Proof. unfold wait_loop, clean_segment. destruct (_ && _); split; repeat constructor; by intros a [= <-]. Qed.

Lemma clean_local d : clean_pc (local_description d).
Proof.
  unfold local_description. destruct d as [d|]; [|done]. destruct (sdp d) eqn:E; [done|]. rewrite <- E.
  destruct (rejectRelay (sdp d)) as [[]|] eqn:Er; done.
Qed.

Lemma clean_finish t f stats : clean_segment (finish t f stats).
Proof. unfold finish, clean_segment. destruct (for_restart t); split; by repeat constructor. Qed.

Lemma clean_resume `{UnicodeCase} t f now r s :
  clean_pc (at_ t) -> resume t f now r = Some s -> clean_segment s.
Proof.
  intros Hc. unfold resume.
  destruct (at_ t) eqn:Ea; destruct r; try discriminate; intros Hs;
    repeat match type of Hs with
    | Some _ = Some _ => injection Hs as <-
    | (if ?b then _ else _) = _ => destruct b eqn:?; try discriminate
    | match rejectRelay ?x with _ => _ end = _ => destruct (rejectRelay x) as [[]|] eqn:?
    end; auto using clean_throw_to, clean_wait_loop, clean_finish.
  all: split; [cbn; repeat constructor|cbn; intros a [= <-]; auto using clean_local]; try done.
  - cbn. unfold request_body. by destruct (for_restart t).
  - by destruct (selectedPair r (candidateTypes f)).
Qed.

Lemma clean_restart_start f :
  Forall clean_output (snd (restart_start f)) /\ forall p a, snd (fst (restart_start f)) = Some (p, a) -> clean_pc a.
Proof.
  unfold restart_start. destruct (peer f) as [p|]; [|by split]. destruct (_ || _); [by split|].
  destruct (_ <=? _).
  - pose proof (clean_fail f restarts_exhausted) as H. destruct (fail f restarts_exhausted) as [f' out]. by split.
  - split; [by repeat constructor|]. cbn. by intros q a [= _ <-].
Qed.

Lemma clean_retry f :
  Forall clean_output (snd (retry f)) /\ forall p a, snd (fst (retry f)) = Some (p, a) -> clean_pc a.
Proof.
  unfold retry. pose proof (clean_restart_start (set_restarting f false)) as [H1 H2].
  destruct (restart_start _) as [[f' [[p a]|]] out]; by split.
Qed.

Lemma clean_on_candidate f ty : Forall clean_output (snd (on_candidate f ty)).
Proof.
  unfold on_candidate. destruct ty as [[|c ty]|]; try constructor. destruct (str_eqb _ _); [|constructor].
  apply clean_fail.
Qed.

Definition all_clean (c : conn) : Prop := forall k t, tasks c !! k = Some t -> clean_pc (at_ t).

Lemma all_clean_insert c f k t out :
  all_clean c -> clean_pc (at_ t) -> all_clean (update c f (<[k := t]> (tasks c)) out).
Proof.
  intros H Ht k' t'. cbn. destruct (decide (k' = k)) as [->|Hne].
  - rewrite lookup_insert_eq. by intros [= <-].
  - rewrite lookup_insert_ne by done. apply H.
Qed.

Lemma all_clean_delete c f k out : all_clean c -> all_clean (update c f (delete k (tasks c)) out).
Proof. intros H k' t'. cbn. intros [_ Ht]%lookup_delete_Some. by eapply H. Qed.

Lemma all_clean_add c t : all_clean c -> clean_pc (at_ t) -> all_clean (add_task c t).
Proof. intros H Ht. by apply (all_clean_insert c (obj c) (issued c) t []). Qed.

Lemma clean_call_restart c :
  all_clean c -> all_clean (fst (call_restart c)) /\ Forall clean_output (snd (call_restart c)).
Proof.
  intros H. unfold call_restart. pose proof (clean_restart_start (obj c)) as [H1 H2].
  destruct (restart_start (obj c)) as [[f [[p a]|]] out]; cbn in *; (split; [|done]); [|done].
  apply all_clean_add; [done|]. by eapply H2.
Qed.

Lemma clean_step `{UnicodeCase} c e c' o :
  all_clean c -> step c e = Some (c', o) -> all_clean c' /\ Forall clean_output o.
Proof.
  intros Hc. destruct e as [service tmp made| | |k r|p ty|p st|i|d]; cbn [step].
  - unfold connect_start, close. destruct made as [e|]; intros [= <- <-].
    + split; [done|]. destruct (peer (obj c)); by repeat constructor.
    + split; [by apply all_clean_add|]. destruct (peer (obj c)); by repeat constructor.
  - intros [= E]. pose proof (clean_call_restart c Hc) as H1. by rewrite E in H1.
  - intros [= <- <-]. split; [done|]. destruct (peer (obj c)); by repeat constructor.
  - destruct (tasks c !! k) as [t|] eqn:Et; [|done].
    assert (Hgen : match resume t (obj c) (clock c) r with
                   | Some (f, next, out) =>
                       Some (update c f (match next with
                                         | Some a => <[k := set_at t (t_peer t) a]> (tasks c)
                                         | None => delete k (tasks c)
                                         end) out, out)
                   | None => None
                   end = Some (c', o) -> all_clean c' /\ Forall clean_output o).
    { destruct (resume t (obj c) (clock c) r) as [[[f next] out]|] eqn:Er; [|done]. intros [= <- <-].
      destruct (clean_resume _ _ _ _ _ (Hc k t Et) Er) as [H1 H2]. split; [|done].
      destruct next as [a|]; [|by apply all_clean_delete]. apply all_clean_insert; [done|]. by apply H2. }
    destruct (at_ t); try exact Hgen. destruct r; try exact Hgen. clear Hgen.
    destruct (_ <=? _); [|done]. pose proof (clean_retry (obj c)) as [H1 H2].
    destruct (retry (obj c)) as [[f [[p a]|]] out]; intros [= <- <-]; (split; [|done]).
    + apply all_clean_insert; [done|]. by eapply H2.
    + by apply all_clean_delete.
  - assert (Hg : forall x, (let '(f, out) := on_candidate (obj c) ty in Some (update c f (tasks c) out, out)) = x ->
            x = Some (c', o) -> all_clean c' /\ Forall clean_output o).
    { intros x <-. pose proof (clean_on_candidate (obj c) ty) as H1. destruct (on_candidate (obj c) ty) as [f out].
      by intros [= <- <-]. }
    destruct (peers c !! p) as [[]|]; try done; intros Hs; by apply (Hg _ eq_refl).
  - destruct (peers c !! p) as [[]|]; try done; intros [= <- <-]; by split.
  - destruct (stateTimers c !! i) as [[p due]|]; [|done]. destruct (_ <=? _); [|done].
    destruct (_ && _); intros Hs; [|injection Hs as <- <-; by split].
    injection Hs as E. match type of E with call_restart ?x = _ => pose proof (clean_call_restart x Hc) as H1 end.
    by rewrite E in H1.
  - destruct (0 <=? d); [|done]. intros [= <- <-]. by split.
Qed.

Lemma clean_run `{UnicodeCase} es c out : run es c out -> all_clean c /\ Forall clean_output out.
Proof.
  induction 1 as [|es e c c' out o _ [IH1 IH2] Hs].
  - split; [|constructor]. intros k t. cbn. by rewrite lookup_empty.
  - destruct (clean_step _ _ _ _ IH1 Hs). split; [done|]. by apply Forall_app.
Qed.

Lemma clean_no_relay d : clean d -> test relay_re (sdp d) = false /\ agent_rejects_relay (sdp d) = false.
Proof.
  unfold clean, rejectRelay. intros H. destruct (test relay_re (sdp d)) eqn:E; [done|]. split; [done|].
  apply not_true_iff_false. intros Ha%agent_relay_found. congruence.
Qed.

(** C1. The connection stays direct whatever the interleaving: in every run, with any
    number of calls, replies, candidates, failures and restarts, every offer sent
    to the controller and every answer applied to a peer is free of relay
    candidates, both by the browser's pattern and by the Agent's rule. *)
Theorem no_relay_description `{UnicodeCase} (es : list event) (c : conn) (out : list output) :
  run es c out ->
  (forall b, Post b ∈ out -> test relay_re (sdp (offer b)) = false /\ agent_rejects_relay (sdp (offer b)) = false)
  /\ (forall p d, SetRemote p d ∈ out -> test relay_re (sdp d) = false /\ agent_rejects_relay (sdp d) = false).
Proof.
  intros [_ Ho]%clean_run. rewrite Forall_forall in Ho. split; intros *; intros Hin; apply clean_no_relay.
  - exact (Ho _ Hin).
  - exact (Ho _ Hin).
Qed.

(** ** Restarts are bounded and never overlap *)

Definition begun (out : list output) : Z :=
  Z.of_nat (length (List.filter (fun o => match o with RestartIce _ => true | _ => false end) out)).

Definition connects (es : list event) : Z :=
  Z.of_nat (length (List.filter (fun e => match e with EConnect _ _ _ => true | _ => false end) es)).

Lemma begun_app o1 o2 : begun (o1 ++ o2) = begun o1 + begun o2.
Proof. unfold begun. rewrite List.filter_app, length_app. lia. Qed.

Lemma connects_snoc es e :
  connects (es ++ [e]) = connects es + match e with EConnect _ _ _ => 1 | _ => 0 end.
Proof. unfold connects. rewrite List.filter_app, length_app. destruct e; cbn; lia. Qed.

(** The restarts the object may still begin. *)
Definition budget (f : fields) : Z := match peer f with Some _ => maxRestarts - restartCount f | None => 0 end.

(** What a statement of the code does to the restart bookkeeping: it begins [n]
    restarts, paid from the budget. *)
Definition spends (f f' : fields) (out : list output) : Prop :=
  0 <= restartCount f <= maxRestarts -> 0 <= restartCount f' <= maxRestarts /\ begun out + budget f' <= budget f.

Lemma spends_refl f out : begun out = 0 -> spends f f out.
Proof. intros H Hr. split; [done|]. lia. Qed.

Lemma budget_nonneg f : 0 <= restartCount f <= maxRestarts -> 0 <= budget f.
Proof. unfold budget. destruct (peer f); lia. Qed.

Lemma spends_fail f e : spends f (fst (fail f e)) (snd (fail f e)).
Proof.
  intros Hr. unfold fail, close, begun, budget, maxRestarts in *. destruct (peer f); cbn; lia.
Qed.

Lemma spends_restarting f b f' out : spends f f' out -> spends f (set_restarting f' b) out.
Proof. done. Qed.

Lemma spends_throw_to t f now e :
  spends f (fst (fst (throw_to t f now e))) (snd (throw_to t f now e)).
Proof.
  unfold throw_to. destruct (for_restart t); [|by apply spends_refl]. destruct (_ && _); [by apply spends_refl|].
  pose proof (spends_fail f e) as H. by destruct (fail f e) as [f' out].
Qed.

Lemma spends_wait_loop f now id deadline :
  spends f (fst (fst (wait_loop f now id deadline))) (snd (wait_loop f now id deadline)).
Proof. unfold wait_loop. destruct (_ && _); by apply spends_refl. Qed.

Lemma spends_resume `{UnicodeCase} t f now r f' next out :
  resume t f now r = Some (f', next, out) -> spends f f' out.
Proof.
  unfold resume.
  destruct (at_ t) eqn:Ea; destruct r; try discriminate; intros Hs;
    repeat match type of Hs with
    | (if ?b then _ else _) = _ => destruct b eqn:?; try discriminate
    | match rejectRelay ?x with _ => _ end = _ => destruct (rejectRelay x) as [[]|] eqn:?
    end;
    apply (inj Some) in Hs;
    match type of Hs with
    | throw_to ?t ?f ?n ?e = _ => pose proof (spends_throw_to t f n e) as G; rewrite Hs in G; exact G
    | wait_loop ?f ?n ?i ?d = _ =>
        pose proof (spends_wait_loop f n i d) as G; rewrite Hs in G; revert G; by destruct (for_restart t)
    | finish _ _ _ = _ => revert Hs; unfold finish; destruct (for_restart t); intros [= <- <- <-]; refine (spends_refl f _ _); reflexivity
    | _ => injection Hs as <- <- <-; refine (spends_refl f _ _); reflexivity
    end.
Qed.

Lemma spends_restart_start f :
  spends f (fst (fst (restart_start f))) (snd (restart_start f)).
Proof.
  unfold restart_start. destruct (peer f) as [p|] eqn:Ep; [|by apply spends_refl].
  destruct (_ || _); [by apply spends_refl|]. destruct (_ <=? _) eqn:El.
  - pose proof (spends_fail f restarts_exhausted) as H. by destruct (fail f restarts_exhausted) as [f' out].
  - intros Hr. bool_prop. unfold budget, begun. cbn. rewrite Ep. lia.
Qed.

Lemma spends_retry f : spends f (fst (fst (retry f))) (snd (retry f)).
Proof.
  unfold retry. pose proof (spends_restart_start (set_restarting f false)) as H.
  by destruct (restart_start _) as [[f' [[p a]|]] out].
Qed.

Lemma spends_on_candidate f ty : spends f (fst (on_candidate f ty)) (snd (on_candidate f ty)).
Proof.
  unfold on_candidate. destruct ty as [[|c ty]|]; try by apply spends_refl. destruct (str_eqb _ _).
  - match goal with |- context [fail ?g ?e] => pose proof (spends_fail g e) as H end. exact H.
  - refine (spends_refl f _ _). reflexivity.
Qed.

Lemma spends_call_restart c : spends (obj c) (obj (fst (call_restart c))) (snd (call_restart c)).
Proof.
  unfold call_restart. pose proof (spends_restart_start (obj c)) as H.
  by destruct (restart_start (obj c)) as [[f [[p a]|]] out].
Qed.

(** Only [connect] refills the budget. *)
Lemma spends_step `{UnicodeCase} c e c' o :
  step c e = Some (c', o) ->
  match e with
  | EConnect _ _ _ => 0 <= restartCount (obj c') <= maxRestarts /\ begun o + budget (obj c') <= maxRestarts
  | _ => spends (obj c) (obj c') o
  end.
Proof.
  destruct e as [service tmp made| | |k r|p ty|p st|i|d]; cbn [step].
  - unfold connect_start, close. destruct made as [e|]; intros [= <- <-];
      destruct (peer (obj c)); unfold begun, budget; cbn; unfold maxRestarts; lia.
  - intros [= E]. pose proof (spends_call_restart c) as H1. by rewrite E in H1.
  - intros [= <- <-] Hr. pose proof (budget_nonneg _ Hr). destruct (peer (obj c)); unfold begun, budget in *; cbn in *;
      unfold maxRestarts in *; lia.
  - destruct (tasks c !! k) as [t|] eqn:Et; [|done].
    assert (Hgen : match resume t (obj c) (clock c) r with
                   | Some (f, next, out) =>
                       Some (update c f (match next with
                                         | Some a => <[k := set_at t (t_peer t) a]> (tasks c)
                                         | None => delete k (tasks c)
                                         end) out, out)
                   | None => None
                   end = Some (c', o) -> spends (obj c) (obj c') o).
    { destruct (resume t (obj c) (clock c) r) as [[[f next] out]|] eqn:Er; [|done]. intros [= <- <-].
      by eapply spends_resume. }
    destruct (at_ t); try exact Hgen. destruct r; try exact Hgen. clear Hgen.
    destruct (_ <=? _); [|done]. pose proof (spends_retry (obj c)) as H1.
    by destruct (retry (obj c)) as [[f [[p a]|]] out]; intros [= <- <-].
  - pose proof (spends_on_candidate (obj c) ty) as H1. destruct (on_candidate (obj c) ty) as [f out].
    destruct (peers c !! p) as [[]|]; try done; by intros [= <- <-].
  - destruct (peers c !! p) as [[]|]; try done; intros [= <- <-]; by apply spends_refl.
  - destruct (stateTimers c !! i) as [[p due]|]; [|done]. destruct (_ <=? _); [|done].
    destruct (_ && _); intros Hs; [|injection Hs as <- <-; by apply spends_refl].
    injection Hs as E. match type of E with call_restart ?x = _ => pose proof (spends_call_restart x) as H1 end.
    by rewrite E in H1.
  - destruct (0 <=? d); [|done]. intros [= <- <-]. by apply spends_refl.
Qed.

Lemma restart_budget `{UnicodeCase} es c out :
  run es c out ->
  0 <= restartCount (obj c) <= maxRestarts /\ begun out + budget (obj c) <= maxRestarts * connects es.
Proof.
  induction 1 as [|es e c c' out o _ [IH1 IH2] Hs]; [done|].
  apply spends_step in Hs. rewrite begun_app, connects_snoc. pose proof (budget_nonneg _ IH1).
  destruct e; try (destruct (Hs IH1)); unfold maxRestarts in *; try lia.
Qed.

(** At most one activation of [restart] is suspended, and [restarting] says so. *)
Record exclusive (c : conn) : Prop := {
  ex_fresh : forall k, is_Some (tasks c !! k) -> (k < issued c)%nat;
  ex_flag : forall k t, tasks c !! k = Some t -> for_restart t = true -> restarting (obj c) = true;
  ex_one : forall k1 k2 t1 t2, tasks c !! k1 = Some t1 -> tasks c !! k2 = Some t2 ->
             for_restart t1 = true -> for_restart t2 = true -> k1 = k2;
  ex_retry : forall k t w, tasks c !! k = Some t -> at_ t = AwRetry w -> for_restart t = true
}.

Lemma exclusive_fields c f out :
  exclusive c -> restarting f = restarting (obj c) -> exclusive (update c f (tasks c) out).
Proof. intros [] H. constructor; cbn; try done. rewrite H. done. Qed.

Lemma exclusive_move c f k t t' out :
  exclusive c -> tasks c !! k = Some t -> for_restart t' = for_restart t ->
  (forall w, at_ t' = AwRetry w -> for_restart t = true) ->
  restarting f = restarting (obj c) \/ (for_restart t = true /\ restarting f = true) ->
  exclusive (update c f (<[k := t']> (tasks c)) out).
Proof.
  intros [Hf Hg Ho Hw] Ht Hk Ha Hr.
  assert (Hold : forall k0 t0, <[k := t']> (tasks c) !! k0 = Some t0 ->
            exists t1, tasks c !! k0 = Some t1 /\ for_restart t1 = for_restart t0).
  { intros k0 t0. destruct (decide (k0 = k)) as [->|Hne].
    - rewrite lookup_insert_eq. intros [= <-]. by exists t.
    - rewrite lookup_insert_ne by done. intros H. by exists t0. }
  constructor; cbn.
  - intros k0 [t0 H0]. destruct (Hold _ _ H0) as (t1 & H1 & _). apply Hf. by eexists.
  - intros k0 t0 H0 Hr0. destruct Hr as [-> | [_ ->]]; [|done]. destruct (Hold _ _ H0) as (t1 & H1 & E).
    eapply Hg; [exact H1|congruence].
  - intros k1 k2 t1 t2 H1 H2 R1 R2. destruct (Hold _ _ H1) as (u1 & U1 & E1). destruct (Hold _ _ H2) as (u2 & U2 & E2).
    eapply Ho; [exact U1|exact U2|congruence|congruence].
  - intros k0 t0 w. destruct (decide (k0 = k)) as [->|Hne].
    + rewrite lookup_insert_eq. intros [= <-] E. rewrite Hk. by eapply Ha.
    + rewrite lookup_insert_ne by done. apply Hw.
Qed.

Lemma exclusive_end c f k t out :
  exclusive c -> tasks c !! k = Some t ->
  restarting f = (if for_restart t then false else restarting (obj c)) ->
  exclusive (update c f (delete k (tasks c)) out).
Proof.
  intros [Hf Hg Ho Hw] Ht Hr. constructor; cbn.
  - intros k0 [t0 [_ H0]%lookup_delete_Some]. apply Hf. by eexists.
  - intros k0 t0 [Hne H0]%lookup_delete_Some R0. rewrite Hr. destruct (for_restart t) eqn:E; [|by eapply Hg].
    by destruct (Hne (Ho _ _ _ _ Ht H0 E R0)).
  - intros k1 k2 t1 t2 [_ H1]%lookup_delete_Some [_ H2]%lookup_delete_Some. by eapply Ho.
  - intros k0 t0 w [_ H0]%lookup_delete_Some. by apply (Hw k0).
Qed.

Lemma exclusive_add c t :
  exclusive c -> (forall w, at_ t <> AwRetry w) ->
  for_restart t = false \/ (restarting (obj c) = true /\ forall k u, tasks c !! k = Some u -> for_restart u = false) ->
  exclusive (add_task c t).
Proof.
  intros [Hf Hg Ho Hw] Ha Ht.
  assert (Hi : tasks c !! issued c = None).
  { destruct (tasks c !! issued c) as [u|] eqn:E; [|done]. assert (issued c < issued c)%nat by (apply Hf; by eexists). lia. }
  constructor; cbn.
  - intros k. destruct (decide (k = issued c)) as [->|Hne]; [lia|]. rewrite lookup_insert_ne by done.
    intros H%Hf. lia.
  - intros k u. destruct (decide (k = issued c)) as [->|Hne].
    + rewrite lookup_insert_eq. intros [= <-] R. destruct Ht as [Ht|[Ht _]]; congruence.
    + rewrite lookup_insert_ne by done. apply Hg.
  - intros k1 k2 t1 t2.
    destruct (decide (k1 = issued c)) as [->|H1]; destruct (decide (k2 = issued c)) as [->|H2];
      rewrite ?lookup_insert_eq, ?lookup_insert_ne by done; try done.
    + intros [= <-] E2 R1 R2. destruct Ht as [Ht|[_ Ht]]; [congruence|]. specialize (Ht _ _ E2). congruence.
    + intros E1 [= <-] R1 R2. destruct Ht as [Ht|[_ Ht]]; [congruence|]. specialize (Ht _ _ E1). congruence.
    + apply Ho.
  - intros k u w. destruct (decide (k = issued c)) as [->|Hne].
    + rewrite lookup_insert_eq. intros [= <-] E. by destruct (Ha w).
    + rewrite lookup_insert_ne by done. apply Hw.
Qed.

(** What the segments do to [restarting]. *)
Lemma fail_restarting f e : restarting (fst (fail f e)) = restarting f.
Proof. done. Qed.

Lemma restart_start_restarting f :
  match restart_start f with
  | (f', Some (_, a), _) => restarting f = false /\ restarting f' = true /\ a = AwCreateOffer
  | (f', None, _) => restarting f' = restarting f
  end.
Proof.
  unfold restart_start. destruct (peer f); [|done]. destruct (closed f || restarting f) eqn:E; [done|]. bool_prop.
  by destruct (_ <=? _).
Qed.

Lemma throw_to_restarting t f now e :
  restarting (fst (fst (throw_to t f now e)))
  = match snd (fst (throw_to t f now e)) with
    | Some _ => restarting f
    | None => if for_restart t then false else restarting f
    end.
Proof. unfold throw_to. destruct (for_restart t); [|done]. by destruct (_ && _). Qed.

Lemma resume_restarting `{UnicodeCase} t f now r f' next out :
  resume t f now r = Some (f', next, out) ->
  restarting f' = match next with
                  | Some _ => restarting f
                  | None => if for_restart t then false else restarting f
                  end.
Proof.
  unfold resume.
  destruct (at_ t) eqn:Ea; destruct r; try discriminate; intros Hs;
    repeat match type of Hs with
    | (if ?b then _ else _) = _ => destruct b eqn:?; try discriminate
    | match rejectRelay ?x with _ => _ end = _ => destruct (rejectRelay x) as [[]|] eqn:?
    end;
    apply (inj Some) in Hs;
    match type of Hs with
    | throw_to ?t ?f ?n ?e = _ => pose proof (throw_to_restarting t f n e) as G; rewrite Hs in G; exact G
    | wait_loop ?f ?n ?i ?d = _ =>
        revert Hs; unfold wait_loop; destruct (negb _ && _); intros [= <- <- <-]; by destruct (for_restart t)
    | finish _ _ _ = _ => revert Hs; unfold finish; destruct (for_restart t); by intros [= <- <- <-]
    | _ => by injection Hs as <- <- <-
    end.
Qed.

(** Only [restart] retries. *)
Lemma resume_retry `{UnicodeCase} t f now r f' w out :
  resume t f now r = Some (f', Some (AwRetry w), out) -> for_restart t = true.
Proof.
  unfold resume.
  destruct (at_ t) eqn:Ea; destruct r; try discriminate; intros Hs;
    repeat match type of Hs with
    | (if ?b then _ else _) = _ => destruct b eqn:?; try discriminate
    | match rejectRelay ?x with _ => _ end = _ => destruct (rejectRelay x) as [[]|] eqn:?
    end;
    apply (inj Some) in Hs;
    match type of Hs with
    | throw_to _ _ _ _ = _ => revert Hs; unfold throw_to; by destruct (for_restart t)
    | wait_loop _ _ _ _ = _ => revert Hs; unfold wait_loop; by destruct (negb _ && _)
    | finish _ _ _ = _ => revert Hs; unfold finish; by destruct (for_restart t)
    | _ => try discriminate
    end.
  - exfalso. revert Hs. unfold local_description. destruct d as [d|]; [|done]. destruct (sdp d); [done|].
    by destruct (rejectRelay _).
  - exfalso. by destruct (selectedPair r (candidateTypes f)).
Qed.

Lemma exclusive_call_restart c : exclusive c -> exclusive (fst (call_restart c)).
Proof.
  intros H. unfold call_restart. pose proof (restart_start_restarting (obj c)) as Hr.
  destruct (restart_start (obj c)) as [[f [[p a]|]] out]; cbn.
  - destruct Hr as (R1 & R2 & ->). assert (Hnone : forall k u, tasks c !! k = Some u -> for_restart u = false).
    { intros k u Hu. apply not_true_iff_false. intros R%(ex_flag c H k u Hu). congruence. }
    apply exclusive_add; [|done|right; by split]. destruct H as [Hf Hg Ho Hw]. by constructor.
  - by apply exclusive_fields.
Qed.

Lemma exclusive_step `{UnicodeCase} c e c' o : exclusive c -> step c e = Some (c', o) -> exclusive c'.
Proof.
  intros Hx. destruct e as [service tmp made| | |k r|p ty|p st|i|d]; cbn [step].
  - unfold connect_start, close. destruct made as [e|]; intros [= <- <-]; [by apply exclusive_fields|].
    apply exclusive_add; [|done|by left]. by destruct Hx.
  - intros [= E]. pose proof (exclusive_call_restart c Hx) as H1. by rewrite E in H1.
  - intros [= <- <-]. by apply exclusive_fields.
  - destruct (tasks c !! k) as [t|] eqn:Et; [|done].
    assert (Hgen : match resume t (obj c) (clock c) r with
                   | Some (f, next, out) =>
                       Some (update c f (match next with
                                         | Some a => <[k := set_at t (t_peer t) a]> (tasks c)
                                         | None => delete k (tasks c)
                                         end) out, out)
                   | None => None
                   end = Some (c', o) -> exclusive c').
    { destruct (resume t (obj c) (clock c) r) as [[[f next] out]|] eqn:Er; [|done]. intros [= <- <-].
      pose proof (resume_restarting _ _ _ _ _ _ _ Er) as Hr. destruct next as [a|].
      - eapply exclusive_move; [done|exact Et|done| |by left]. cbn. intros w ->. by eapply resume_retry.
      - eapply exclusive_end; [done|exact Et|done]. }
    destruct (at_ t) eqn:Ea; try exact Hgen. destruct r; try exact Hgen. clear Hgen.
    pose proof (ex_retry c Hx k t _ Et Ea) as Ef. destruct (_ <=? _); [|done]. unfold retry. pose proof (restart_start_restarting (set_restarting (obj c) false)) as Hr.
    destruct (restart_start _) as [[f [[p a]|]] out]; intros [= <- <-].
    + destruct Hr as (_ & Hr & ->). eapply exclusive_move; [done|exact Et|done|done|by right].
    + eapply exclusive_end; [done|exact Et|by rewrite Ef].
  - assert (Hr : restarting (fst (on_candidate (obj c) ty)) = restarting (obj c)).
    { unfold on_candidate. destruct ty as [[|ch ty]|]; try done. by destruct (str_eqb _ _). }
    destruct (on_candidate (obj c) ty) as [f out].
    destruct (peers c !! p) as [[]|]; try done; intros [= <- <-]; by apply exclusive_fields.
  - destruct (peers c !! p) as [[]|]; try done; intros [= <- <-]; by destruct Hx.
  - destruct (stateTimers c !! i) as [[p due]|]; [|done]. destruct (_ <=? _); [|done].
    set (c0 := {| obj := obj c; tasks := tasks c; issued := issued c; peers := peers c;
                  stateTimers := delete i (stateTimers c); clock := clock c |}).
    assert (Hc0 : exclusive c0) by (by destruct Hx).
    destruct (_ && _); intros Hs; [|by injection Hs as <- <-]. injection Hs as E.
    pose proof (exclusive_call_restart c0 Hc0) as H1. by rewrite E in H1.
  - destruct (0 <=? d); [|done]. intros [= <- <-]. by destruct Hx.
Qed.

Lemma exclusive_run `{UnicodeCase} es c out : run es c out -> exclusive c.
Proof.
  induction 1 as [|es e c c' out o _ IH Hs]; [|by eapply exclusive_step].
  constructor; cbn; intros *; rewrite ?lookup_empty; try done.
Qed.

(** C11. Restarts are bounded and never overlap: in every run at most two ICE restarts
    are begun for each call of [connect], the counter stays within its bound, at
    most one activation of [restart] is suspended at any time, and while it is
    the [restarting] flag is set. *)
Theorem restarts_bounded `{UnicodeCase} (es : list event) (c : conn) (out : list output) :
  run es c out ->
  begun out <= maxRestarts * connects es
  /\ 0 <= restartCount (obj c) <= maxRestarts
  /\ forall k1 k2 t1 t2, tasks c !! k1 = Some t1 -> tasks c !! k2 = Some t2 ->
       for_restart t1 = true -> for_restart t2 = true -> k1 = k2 /\ restarting (obj c) = true.
Proof.
  intros Hr. destruct (restart_budget _ _ _ Hr) as [H1 H2]. pose proof (budget_nonneg _ H1).
  split; [lia|]. split; [done|]. pose proof (exclusive_run _ _ _ Hr) as Hx. intros k1 k2 t1 t2 E1 E2 R1 R2.
  split; [by eapply (ex_one c Hx)|by eapply (ex_flag c Hx)].
Qed.

(** ** A restart that ends says why *)

Lemma throw_to_reports t f now e :
  for_restart t = true -> snd (fst (throw_to t f now e)) = None -> exists x, Failed x ∈ snd (throw_to t f now e).
Proof.
  intros Hf. unfold throw_to. rewrite Hf. destruct (_ && _); [done|]. unfold fail, close. cbn. intros _.
  exists e. destruct (peer f); cbn; set_solver.
Qed.

Lemma resume_reports `{UnicodeCase} t f now r f' out :
  for_restart t = true -> resume t f now r = Some (f', None, out) ->
  (exists d, Stats (Some d) ∈ out) \/ (exists x, Failed x ∈ out).
Proof.
  intros Hf. unfold resume.
  destruct (at_ t) eqn:Ea; destruct r; try discriminate; intros Hs;
    repeat match type of Hs with
    | (if ?b then _ else _) = _ => destruct b eqn:?; try discriminate
    | match rejectRelay ?x with _ => _ end = _ => destruct (rejectRelay x) as [[]|] eqn:?
    end;
    apply (inj Some) in Hs;
    match type of Hs with
    | throw_to ?t ?f ?n ?e = _ =>
        pose proof (throw_to_reports t f n e Hf) as G; rewrite Hs in G; right; by apply G
    | wait_loop _ _ _ _ = _ => revert Hs; unfold wait_loop; by destruct (negb _ && _)
    | finish _ _ _ = _ => revert Hs; unfold finish; rewrite Hf; intros [= <- <-]; left; eexists; by left
    | _ => discriminate
    end.
Qed.

Lemma retry_reports f f' out :
  retry f = (f', None, out) -> peer f = None \/ closed f = true \/ exists x, Failed x ∈ out.
Proof.
  unfold retry, restart_start. cbn. destruct (peer f) as [p|]; [|by left]. rewrite orb_false_r.
  destruct (closed f); [right; by left|]. destruct (_ <=? _); [|done]. intros [= <- <-]. right. right.
  exists restarts_exhausted. cbn. set_solver.
Qed.

(** No restart ends in silence: when an activation of [restart] finishes, the page
    has just been given either new statistics or a failure, unless the connection
    had already been closed or lost its peer. *)
Theorem restart_reports `{UnicodeCase} (c c' : conn) (k : nat) (t : task) (r : reply) (o : list output) :
  tasks c !! k = Some t -> for_restart t = true ->
  step c (EResume k r) = Some (c', o) -> tasks c' !! k = None ->
  (exists d, Stats (Some d) ∈ o) \/ (exists x, Failed x ∈ o)
  \/ peer (obj c) = None \/ closed (obj c) = true.
Proof.
  intros Et Hf. cbn [step]. rewrite Et.
  assert (Hgen : match resume t (obj c) (clock c) r with
                 | Some (f, next, out) =>
                     Some (update c f (match next with
                                       | Some a => <[k := set_at t (t_peer t) a]> (tasks c)
                                       | None => delete k (tasks c)
                                       end) out, out)
                 | None => None
                 end = Some (c', o) -> tasks c' !! k = None ->
                 (exists d, Stats (Some d) ∈ o) \/ (exists x, Failed x ∈ o)).
  { destruct (resume t (obj c) (clock c) r) as [[[f [a|]] out]|] eqn:Er; [| |done]; intros [= <- <-]; cbn.
    - by rewrite lookup_insert_eq.
    - intros _. by eapply resume_reports. }
  destruct (at_ t); try (intros H1 H2; destruct (Hgen H1 H2); auto; fail).
  destruct r; try (intros H1 H2; destruct (Hgen H1 H2); auto; fail). clear Hgen.
  destruct (_ <=? _); [|done]. destruct (retry (obj c)) as [[f [[p a]|]] out] eqn:Er; intros [= <- <-]; cbn.
  - by rewrite lookup_insert_eq.
  - intros _. destruct (retry_reports _ _ _ Er) as [?|[?|?]]; auto.
Qed.

(** ** Concrete runs *)

Fixpoint exec_from `{UnicodeCase} (c : conn) (out : list output) (es : list event) : option (conn * list output) :=
  match es with
  | [] => Some (c, out)
  | e :: es' => match step c e with Some (c', o) => exec_from c' (out ++ o) es' | None => None end
  end.

Lemma conn_exec_run `{UnicodeCase} es c out : exec_from init [] es = Some (c, out) -> run es c out.
Proof.
  assert (G : forall es es0 c0 out0, run es0 c0 out0 -> exec_from c0 out0 es = Some (c, out) -> run (es0 ++ es) c out).
  { induction es0 as [|e es0 IH]; intros es1 c0 out0 H0; cbn.
    - intros [= <- <-]. by rewrite app_nil_r.
    - destruct (step c0 e) as [[c1 o1]|] eqn:E; [|done]. intros Hx.
      change (e :: es0) with ([e] ++ es0). rewrite app_assoc. eapply IH; [|exact Hx]. by econstructor. }
  intros Hx. by apply (G es [] _ _ run_nil).
Qed.

Definition host_offer : Description := {| d_type := js "offer"; sdp := js "a=candidate:1 1 udp 1 10.0.0.2 9 typ host" |}.
Definition host_answer : Description := {| d_type := js "answer"; sdp := js "a=candidate:1 1 udp 1 10.0.0.1 9 typ host" |}.

Definition host_candidate : stat :=
  {| s_type := js "local-candidate"; s_state := []; nominated := false; selected := false; localCandidateId := [];
     remoteCandidateId := []; currentRoundTripTime := None; candidateType := js "host"; protocol := Some (js "udp") |}.

Definition host_report : stats_report :=
  [(js "L", host_candidate); (js "R", host_candidate);
   (js "P", {| s_type := js "candidate-pair"; s_state := js "succeeded"; nominated := true; selected := false;
               localCandidateId := js "L"; remoteCandidateId := js "R"; currentRoundTripTime := None;
               candidateType := []; protocol := None |})].

(** A connection of activation 0, established without a hitch. *)
Definition demo_connect : list event :=
  [EConnect (js "svc") false None; ECandidate 0 (Some (js "host"))]
  ++ map (EResume 0) [ROk; ROk; RLocal (Some host_offer); ROk; RCreated (js "c1") (js "s1") (js "cap");
                      RAnswered host_answer; ROk; ROk; ROk; ROk; RReport host_report; ROk].

(** It fails later, and activation 1 restarts it up to the wait for the answer. *)
Definition demo_restart : list event :=
  demo_connect ++ [EState 0 CFailed; ETick 1500; EStateTimer 0]
  ++ map (EResume 1) [ROk; ROk; RLocal (Some host_offer); ROk; RCreated (js "c2") (js "s1") (js "cap"); RPending].

(** The user disconnects while the restart waits for an answer. *)
Definition demo_disconnect : list event :=
  demo_restart ++ [EClose; ETick 500; EResume 1 ROk; EResume 1 ROk].

Theorem no_relay_witness :
  exists c out, run (H := ascii_case) demo_connect c out /\ ConnectDone ∈ out
    /\ forall b, Post b ∈ out -> test relay_re (sdp (offer b)) = false /\ agent_rejects_relay (sdp (offer b)) = false.
Proof.
  destruct (exec_from (H := ascii_case) init [] demo_connect) as [[c out]|] eqn:E; [|by vm_compute in E].
  pose proof (conn_exec_run _ _ _ E) as Hr. exists c, out. split; [done|].
  split; [|exact (proj1 (no_relay_description _ _ _ Hr))].
  vm_compute in E. injection E as <- <-. apply list_elem_of_In. cbn. tauto.
Defined.

Theorem restarts_bounded_witness :
  exists c out, run (H := ascii_case) demo_restart c out /\ begun out = 1 /\ begun out <= maxRestarts * connects demo_restart.
Proof.
  destruct (exec_from (H := ascii_case) init [] demo_restart) as [[c out]|] eqn:E; [|by vm_compute in E].
  pose proof (conn_exec_run _ _ _ E) as Hr. exists c, out. split; [done|].
  split; [|exact (proj1 (restarts_bounded _ _ _ Hr))].
  vm_compute in E. injection E as <- <-. reflexivity.
Defined.

(** The state in which activation 1 is about to be told that its answer timed out. *)
Definition demo_last : list event := demo_restart ++ [EClose; ETick 500; EResume 1 ROk].

Theorem restart_reports_witness :
  exists c c' o, (exists out, run (H := ascii_case) demo_last c out)
    /\ step (H := ascii_case) c (EResume 1 ROk) = Some (c', o)
    /\ ((exists d, Stats (Some d) ∈ o) \/ (exists x, Failed x ∈ o)
        \/ peer (obj c) = None \/ closed (obj c) = true).
Proof.
  destruct (exec_from (H := ascii_case) init [] demo_last) as [[c out]|] eqn:E; [|by vm_compute in E].
  pose proof (conn_exec_run _ _ _ E) as Hr. destruct (step (H := ascii_case) c (EResume 1 ROk)) as [[c' o]|] eqn:Es;
    [|exfalso; vm_compute in E; injection E as <- <-; by vm_compute in Es].
  exists c, c', o. split; [by exists out|]. split; [done|].
  assert (Ht : exists t, tasks c !! 1%nat = Some t /\ for_restart t = true /\ tasks c' !! 1%nat = None).
  { vm_compute in E. injection E as <- <-. eexists. split; [vm_compute; reflexivity|]. split; [done|].
    vm_compute in Es. injection Es as <- <-. done. }
  destruct Ht as (t & H1 & H2 & H3).
  exact (restart_reports (H := ascii_case) c c' 1 t ROk o H1 H2 Es H3).
Defined.

(** A failure is reported after the user disconnected: [close] does not end an activation of [restart].  The one that was waiting for
    an answer throws because the object is closed, its [catch] does not retry
    because the object is closed, and so it reports a failure. *)
Theorem failure_after_disconnect :
  exists c out, run (H := ascii_case) demo_disconnect c out
    /\ last out = Some (Failed answer_timeout)
    /\ forall e, e ∈ drop (length demo_restart) demo_disconnect -> e = EClose \/ e = ETick 500 \/ e = EResume 1 ROk.
Proof.
  destruct (exec_from (H := ascii_case) init [] demo_disconnect) as [[c out]|] eqn:E; [|by vm_compute in E].
  pose proof (conn_exec_run _ _ _ E) as Hr. exists c, out. split; [done|]. split.
  - vm_compute in E. injection E as <- <-. reflexivity.
  - intros e He. apply list_elem_of_In in He. cbn in He. intuition congruence.
Qed.
