(* ===== verification/ControllerSw.v ===== *)
(** * The service worker ([web/src/controller-sw.js])

    Requests under the proxy prefix are answered locally when they carry a binary
    data URL, and are routed to the Scramjet controller otherwise, with a bounded
    wait for the controller to know the frame.  The controller library is a
    parameter: whether it routes a request at each attempt, and its response. *)

From stdpp Require Import base list numbers strings sets.
From Stdlib Require Import ZArith Lia.
From S2P Require Import Prelude JsString Base64 Regex Json Url.
Local Open Scope Z_scope.

(** ** [decodeURIComponent] *)

(** One UTF-8 sequence of [n] octets, checked for overlong forms, surrogates and
    the upper limit. *)
Definition is_cont (b : Z) : bool := (0x80 <=? b) && (b <=? 0xBF).

Definition utf8_point (bs : list Z) : option Z :=
  match bs with
  | [a] => if a <? 0x80 then Some a else None
  | [a; b] =>
      let c := (a - 0xC0) * 64 + (b - 0x80) in
      if is_cont b && (0x80 <=? c) then Some c else None
  | [a; b; d] =>
      let c := (a - 0xE0) * 4096 + (b - 0x80) * 64 + (d - 0x80) in
      if is_cont b && is_cont d && (0x800 <=? c) && negb ((0xD800 <=? c) && (c <=? 0xDFFF)) then Some c else None
  | [a; b; d; e] =>
      let c := (a - 0xF0) * 262144 + (b - 0x80) * 4096 + (d - 0x80) * 64 + (e - 0x80) in
      if is_cont b && is_cont d && is_cont e && (0x10000 <=? c) && (c <=? 0x10FFFF) then Some c else None
  | _ => None
  end.

(** The number of octets a leading octet announces. *)
Definition sequence_length (b : Z) : option nat :=
  if b <? 0x80 then Some 1%nat
  else if b <? 0xC0 then None
  else if b <? 0xE0 then Some 2%nat
  else if b <? 0xF0 then Some 3%nat
  else if b <? 0xF8 then Some 4%nat
  else None.

Definition hex_value (c : Z) : option Z := hex_digit c.

(** [n] percent-encoded octets. *)
Fixpoint read_octets (n : nat) (s : jsstr) : option (list Z * jsstr) :=
  match n with
  | O => Some ([], s)
  | S n' =>
      match s with
      | 37 :: a :: b :: r =>
          match hex_value a, hex_value b with
          | Some x, Some y =>
              match read_octets n' r with Some (l, r') => Some (x * 16 + y :: l, r') | None => None end
          | _, _ => None
          end
      | _ => None
      end
  end.

(** [None] is the URIError.  Every step consumes a character, so the length of the
    text is enough fuel. *)
Fixpoint decode_uri (fuel : nat) (s : jsstr) : option jsstr :=
  match fuel, s with
  | _, [] => Some []
  | O, _ => None
  | S f, c :: r =>
      if c =? 37 then
        match read_octets 1 s with
        | Some ([b], _) =>
            match sequence_length b with
            | Some n =>
                match read_octets n s with
                | Some (bs, r') =>
                    match utf8_point bs with
                    | Some p => option_map (app (utf16_encode p)) (decode_uri f r')
                    | None => None
                    end
                | None => None
                end
            | None => None
            end
        | _ => None
        end
      else option_map (cons c) (decode_uri f r)
  end.

Definition decodeURIComponent (s : jsstr) : option jsstr := decode_uri (length s) s.

(** ** The code *)

Definition proxyPathPrefix : jsstr := js "/~/sj/".
Definition routeReviveMaxAttempts : nat := 20.
Definition routeReviveDelayMs : Z := 100.
Definition localBinaryDataMaxLength : Z := 1024 * 1024.

Definition not_slash (c : Z) : bool := negb (c =? 47).

(** [/^\/~\/sj\/[^/]+\/[^/]+\/(data:.+)$/] *)
Definition data_path_re : regex :=
  RSeq (rseq [RBol; lit chr proxyPathPrefix; rplus not_slash; RSet (chr 47); rplus not_slash; RSet (chr 47)])
       (RSeq (RGroup (RSeq (lit chr (js "data:")) (rplus (fun c => negb (is_line_terminator c))))) REol).

Definition is_base64_char (c : Z) : bool :=
  is_upper c || is_lower c || is_digit c || (c =? 43) || (c =? 47) || (c =? 61).

(** [/^data:application\/(?:octet-stream|wasm);base64,[A-Za-z0-9+/=]+$/] *)
Definition data_url_re : regex :=
  rseq [RBol; lit chr (js "data:application/");
        RAlt (lit chr (js "octet-stream")) (lit chr (js "wasm"));
        lit chr (js ";base64,"); rplus is_base64_char; REol].

Definition localBinaryDataURL (pathname : jsstr) : option jsstr :=
  match match1 data_path_re pathname with
  | None => None
  | Some m =>
      match decodeURIComponent m with
      | None => None
      | Some dataURL =>
          if localBinaryDataMaxLength <? str_len dataURL then None
          else if test data_url_re dataURL then Some dataURL else None
      end
  end.

Inductive body := Bytes (b : list Z) | TextBody (s : jsstr).

Record response := { r_body : body; status : Z; headers : list (jsstr * jsstr) }.

Definition no_store : jsstr * jsstr := (js "Cache-Control", js "no-store").

Definition plain_response (status : Z) (text : string) : response :=
  {| r_body := TextBody (js text); status := status;
     headers := [no_store; (js "Content-Type", js "text/plain; charset=utf-8")] |}.

Definition localBinaryDataResponse (dataURL : jsstr) : response :=
  let encoded := slice_from dataURL (indexOf 44 dataURL + 1) in
  match atob encoded with
  | Ok decoded =>
      {| r_body := Bytes (map (fun c => c mod 256) decoded); status := 200;
         headers := [no_store;
                     (js "Content-Type", if startsWith dataURL (js "data:application/wasm;")
                                         then js "application/wasm" else js "application/octet-stream")] |}
  | Throw _ => plain_response 400 "Invalid embedded binary data."
  end.

(** What the worker does with a request. *)
Inductive outcome :=
| Local (r : response)
| Routed (delay : Z)            (* by the controller, after waiting *)
| Unavailable (delay : Z) (r : response)
| Untouched.

(** The loop of [routeProxyRequest] from attempt [n], with the attempts left;
    [shouldRoute n] is what the controller answers at attempt [n]. *)
Fixpoint route_attempts (shouldRoute : nat -> bool) (n left : nat) (waited : Z) : outcome :=
  match left with
  | O => Unavailable waited (plain_response 503 "WebVPN proxy route is temporarily unavailable.")
  | S l => if shouldRoute n then Routed waited
           else route_attempts shouldRoute (S n) l (waited + routeReviveDelayMs)
  end.

Definition routeProxyRequest (shouldRoute : nat -> bool) : outcome :=
  route_attempts shouldRoute 0 routeReviveMaxAttempts 0.

(** The listener of [fetch]. *)
Definition on_fetch (origin location_origin pathname : jsstr) (shouldRoute : nat -> bool) : outcome :=
  if str_eqb origin location_origin && startsWith pathname proxyPathPrefix then
    match localBinaryDataURL pathname with
    | Some dataURL => Local (localBinaryDataResponse dataURL)
    | None => routeProxyRequest shouldRoute
    end
  else if shouldRoute 0%nat then Routed 0 else Untouched.

(** ** The wait for the controller *)

Lemma route_attempts_spec f : forall left n w,
  match route_attempts f n left w with
  | Routed d => exists k, (k < left)%nat /\ f (n + k)%nat = true /\ (forall j, (j < k)%nat -> f (n + j)%nat = false)
                          /\ d = w + Z.of_nat k * routeReviveDelayMs
  | Unavailable d r => (forall j, (j < left)%nat -> f (n + j)%nat = false) /\ d = w + Z.of_nat left * routeReviveDelayMs
                       /\ status r = 503
  | _ => False
  end.
Proof.
  induction left as [|l IH]; intros n w; cbn [route_attempts]; [repeat split; [lia|lia]|].
  destruct (f n) eqn:E.
  - exists 0%nat. rewrite Nat.add_0_r. repeat split; [lia|done|lia|lia].
  - specialize (IH (S n) (w + routeReviveDelayMs)).
    destruct (route_attempts f (S n) l _) as [r|d|d r|]; try done.
    + destruct IH as (k & Hk & Hf & Hb & ->). exists (S k). rewrite Nat.add_succ_r in *. repeat split; [lia|done| |lia].
      intros [|j] Hj; [by rewrite Nat.add_0_r|]. rewrite Nat.add_succ_r. apply Hb. lia.
    + destruct IH as (Hb & -> & Hs). repeat split; [|lia|done].
      intros [|j] Hj; [by rewrite Nat.add_0_r|]. rewrite Nat.add_succ_r. apply Hb. lia.
Qed.

(** A proxied request is never left waiting: it is routed at the first of at most
    twenty attempts, 100 ms apart, at which the controller knows it, and when
    none succeeds it is answered 503 after two seconds. *)
Theorem routeProxyRequest_bounded (shouldRoute : nat -> bool) :
  match routeProxyRequest shouldRoute with
  | Routed d => exists n, (n < 20)%nat /\ shouldRoute n = true
                  /\ (forall j, (j < n)%nat -> shouldRoute j = false) /\ d = 100 * Z.of_nat n
  | Unavailable d r => (forall j, (j < 20)%nat -> shouldRoute j = false) /\ d = 2000 /\ status r = 503
  | _ => False
  end.
Proof.
  pose proof (route_attempts_spec shouldRoute routeReviveMaxAttempts 0 0) as H. unfold routeProxyRequest.
  destruct (route_attempts _ _ _ _); try done.
  destruct H as (k & Hk & Hf & Hb & ->). exists k. unfold routeReviveMaxAttempts, routeReviveDelayMs in *.
  repeat split; [done|done|done|lia].
Qed.

(** ** Embedded binary data *)

Lemma data_path_spec s g :
  match1 data_path_re s = Some g ->
  exists a b t, s = proxyPathPrefix ++ a ++ 47 :: b ++ 47 :: g /\ a <> [] /\ b <> [] /\ 47 ∉ a /\ 47 ∉ b
                /\ g = js "data:" ++ t /\ t <> [].
Proof.
  intros H. apply match1_group in H as (u & t1 & t2 & v & -> & M1 & M & M2); try done.
  cbn [rseq] in M1. apply Matches_eol in M2. apply Matches_seq in M.
  apply Matches_seq in M1 as (x0 & y0 & -> & M0 & M1). apply Matches_bol in M0 as [Hu ->]. apply Matches_seq in M1 as (x1 & y1 & -> & M1 & N1).
  apply Matches_lit, lit_chr in M1 as ->. apply Matches_seq in N1 as (a & y2 & -> & Ma & N2).
  apply Matches_rplus in Ma as [Ha1 Ha2]. apply Matches_seq in N2 as (x3 & y3 & -> & M3 & N3).
  apply Matches_set in M3 as (c3 & -> & Hc3). apply Matches_seq in N3 as (b & y4 & -> & Mb & M4).
  apply Matches_rplus in Mb as [Hb1 Hb2]. apply Matches_set in M4 as (c4 & -> & Hc4).
  destruct M as (x5 & t & -> & M5 & M6). apply Matches_lit, lit_chr in M5 as ->. apply Matches_rplus in M6 as [Ht _].
  destruct M2 as [-> ->]. unfold chr in *. bool_prop. subst c3 c4.
  apply (f_equal (@rev Z)) in Hu. rewrite rev_involutive in Hu. subst u.
  exists a, b, t. rewrite !app_nil_r. split; [cbn [app]; rewrite <- !app_assoc; cbn [app]; by rewrite <- app_assoc|].
  assert (Hns : forall w, forallb not_slash w = true -> 47 ∉ w).
  { intros w Hw Hin. apply list_elem_of_In in Hin. rewrite forallb_forall in Hw. by specialize (Hw _ Hin). }
  repeat split; auto.
Qed.

Lemma slash_split (a b x y : jsstr) : 47 ∉ a -> 47 ∉ b -> a ++ 47 :: x = b ++ 47 :: y -> a = b /\ x = y.
Proof.
  revert b. induction a as [|c a IH]; intros [|d b] Ha Hb E; cbn in E; injection E; intros; subst.
  - done.
  - exfalso. apply Hb. by left.
  - exfalso. apply Ha. by left.
  - destruct (IH b) as [-> ->]; try done; set_solver.
Qed.

Definition plain_char (c : Z) : Prop := c <> 37 /\ is_line_terminator c = false.

Lemma data_path_complete a b t :
  a <> [] -> b <> [] -> 47 ∉ a -> 47 ∉ b -> t <> [] -> Forall plain_char t ->
  match1 data_path_re (proxyPathPrefix ++ a ++ 47 :: b ++ 47 :: js "data:" ++ t) = Some (js "data:" ++ t).
Proof.
  intros Ha Hb Hsa Hsb Ht Hp. set (s := proxyPathPrefix ++ _).
  assert (Hns : forall w, 47 ∉ w -> forallb not_slash w = true).
  { intros w Hw. apply forallb_forall. intros c Hc. apply negb_true_iff, Z.eqb_neq. intros ->. apply Hw. by apply list_elem_of_In. }
  assert (Htest : test data_path_re s = true).
  { apply test_spec. exists [], s, []. split; [by rewrite app_nil_r|]. unfold data_path_re. apply Matches_seq.
    exists (proxyPathPrefix ++ a ++ [47] ++ b ++ [47]), (js "data:" ++ t). split; [|split].
    - unfold s. by rewrite <- !app_assoc.
    - cbn [rseq]. apply Matches_seq. exists [], (proxyPathPrefix ++ a ++ [47] ++ b ++ [47]).
      split; [done|]. split; [by apply Matches_bol|]. apply Matches_seq. do 2 eexists. split; [reflexivity|].
      split; [by apply Matches_lit, lit_chr|]. apply Matches_seq. do 2 eexists. split; [reflexivity|].
      split; [by apply Matches_rplus; auto|]. apply Matches_seq. do 2 eexists. split; [reflexivity|].
      split; [apply Matches_set; by eexists|]. apply Matches_seq. do 2 eexists. split; [reflexivity|].
      split; [by apply Matches_rplus; auto|]. apply Matches_set. by eexists.
    - apply Matches_seq. exists (js "data:" ++ t), []. split; [by rewrite app_nil_r|]. split; [|by apply Matches_eol].
      apply Matches_group, Matches_seq. do 2 eexists. split; [reflexivity|]. split; [by apply Matches_lit, lit_chr|].
      apply Matches_rplus. split; [done|]. apply forallb_forall. intros c Hc. rewrite List.Forall_forall in Hp.
      destruct (Hp c Hc) as [_ Hl]. by rewrite Hl. }
  apply match1_some in Htest as [g Hg]; try done. fold data_path_re in Hg. rewrite Hg. f_equal.
  apply data_path_spec in Hg as (a' & b' & t' & E & Ha' & Hb' & Hsa' & Hsb' & -> & _).
  unfold s in E. apply app_inv_head in E. apply slash_split in E as [-> E]; try done.
  by apply slash_split in E as [_ E].
Qed.

Lemma decode_plain s : Forall (fun c => c <> 37) s -> decodeURIComponent s = Some s.
Proof.
  unfold decodeURIComponent. induction 1 as [|c s Hc _ IH]; [done|]. cbn [length decode_uri].
  rewrite (proj2 (Z.eqb_neq c 37)) by done. by rewrite IH.
Qed.

Definition data_prefix (wasm : bool) : jsstr :=
  if wasm then js "data:application/wasm;base64," else js "data:application/octet-stream;base64,".

Definition content_type (wasm : bool) : jsstr :=
  if wasm then js "application/wasm" else js "application/octet-stream".

Lemma data_url_spec d :
  test data_url_re d = true <->
  exists wasm p, d = data_prefix wasm ++ p /\ p <> [] /\ forallb is_base64_char p = true.
Proof.
  rewrite test_spec. unfold data_url_re. cbn [rseq]. split.
  - intros (u & t & v & -> & M). apply Matches_seq in M as (x0 & y0 & -> & M0 & M). apply Matches_bol in M0 as [Hu ->].
    apply Matches_seq in M as (x1 & y1 & -> & M1 & M). apply Matches_lit, lit_chr in M1 as ->.
    apply Matches_seq in M as (x2 & y2 & -> & M2 & M).
    apply Matches_seq in M as (x3 & y3 & -> & M3 & M). apply Matches_lit, lit_chr in M3 as ->.
    apply Matches_seq in M as (p & y4 & -> & M4 & M). apply Matches_rplus in M4 as [Hne Hf].
    apply Matches_eol in M as [-> ->]. apply (f_equal (@rev Z)) in Hu. rewrite rev_involutive in Hu. subst u.
    apply Matches_alt in M2 as [M2|M2]; apply Matches_lit, lit_chr in M2 as ->;
      [exists false, p|exists true, p]; rewrite !app_nil_r; split; [|done| |done];
      cbn [app rev]; rewrite ?app_assoc; f_equal; reflexivity.
  - intros (wasm & p & -> & Hne & Hf). exists [], (data_prefix wasm ++ p), []. split; [by rewrite app_nil_r|].
    set (k := if wasm then js "wasm" else js "octet-stream").
    replace (data_prefix wasm ++ p) with ([] ++ js "data:application/" ++ k ++ js ";base64," ++ p ++ [])
      by (rewrite app_nil_r; by destruct wasm).
    apply Matches_seq. do 2 eexists. split; [reflexivity|]. split; [by apply Matches_bol|].
    apply Matches_seq. do 2 eexists. split; [reflexivity|]. split; [by apply Matches_lit, lit_chr|].
    apply Matches_seq. do 2 eexists. split; [reflexivity|]. split.
    { apply Matches_alt. destruct wasm; [right|left]; by apply Matches_lit, lit_chr. }
    apply Matches_seq. do 2 eexists. split; [reflexivity|]. split; [by apply Matches_lit, lit_chr|].
    apply Matches_seq. do 2 eexists. split; [reflexivity|]. split; [by apply Matches_rplus|]. by apply Matches_eol.
Qed.

Lemma indexOf_app c p r : c ∉ p -> indexOf c (p ++ c :: r) = str_len p.
Proof.
  unfold str_len. induction p as [|d p IH]; intros Hn; cbn [app indexOf length].
  - by rewrite Z.eqb_refl.
  - apply not_elem_of_cons in Hn as [Hd Hn]. rewrite (proj2 (Z.eqb_neq d c)) by congruence. rewrite IH by done.
    rewrite (proj2 (Z.ltb_ge (Z.of_nat (length p)) 0)) by lia. lia.
Qed.

(** The payload is what follows the prefix, and the type what the prefix says. *)
Lemma response_payload wasm p :
  localBinaryDataResponse (data_prefix wasm ++ p)
  = match atob p with
    | Ok decoded => {| r_body := Bytes (map (fun c => c mod 256) decoded); status := 200;
                       headers := [no_store; (js "Content-Type", content_type wasm)] |}
    | Throw _ => plain_response 400 "Invalid embedded binary data."
    end.
Proof.
  unfold localBinaryDataResponse.
  assert (Hs : slice_from (data_prefix wasm ++ p) (indexOf 44 (data_prefix wasm ++ p) + 1) = p).
  { set (h := removelast (data_prefix wasm)). assert (Hh : data_prefix wasm = h ++ [44]) by (unfold h; by destruct wasm).
    rewrite Hh, <- app_assoc. cbn [app].
    rewrite indexOf_app by (apply (bool_decide_unpack _); unfold h; destruct wasm; vm_compute; done).
    unfold slice_from, str_len. replace (Z.to_nat (Z.of_nat (length h) + 1)) with (length (h ++ [44]))
      by (rewrite length_app; cbn; lia).
    change (h ++ 44 :: p) with (h ++ [44] ++ p). rewrite app_assoc. apply drop_app_length. }
  rewrite Hs. destruct (atob p); [|done].
  assert (Hw : startsWith (data_prefix wasm ++ p) (js "data:application/wasm;") = wasm) by (by destruct wasm).
  rewrite Hw. unfold content_type. reflexivity.
Qed.

(** Base64 text has no percent sign, slash-free prefix or line end to lose. *)
Lemma btoa_chars bs text : btoa bs = Ok text -> forallb is_base64_char text = true /\ (bs <> [] -> text <> []).
Proof.
  unfold btoa. destruct (forallb is_byteb bs) eqn:Eb; [|done]. intros [= <-]. split.
  - rewrite forallb_app. apply andb_true_iff. split.
    + apply forallb_forall. intros c (d & <- & Hd)%in_map_iff.
      assert (Hb : Forall is_byte bs).
      { apply List.Forall_forall. intros x Hx. rewrite forallb_forall in Eb. specialize (Eb x Hx).
        unfold is_byteb, is_byte in *. lia. }
      pose proof (sextets_range bs Hb) as Hr. rewrite List.Forall_forall in Hr. specialize (Hr d Hd).
      unfold is_base64_char, b64_char, is_upper, is_lower, is_digit. repeat case_match; bool_prop; lia.
    + unfold b64_pad. by destruct (length bs mod 3)%nat as [|[|[|]]].
  - destruct bs as [|x [|y [|z bs]]]; [done|done|done|done].
Qed.

Lemma base64_plain p : forallb is_base64_char p = true -> Forall plain_char p.
Proof.
  intros H. apply List.Forall_forall. intros c Hc. rewrite forallb_forall in H. specialize (H c Hc).
  revert H. unfold is_base64_char, plain_char, is_line_terminator, is_upper, is_lower, is_digit. intros H.
  split; [lia|]. bool_prop. lia.
Qed.

(** Embedded binaries survive: a same-origin request under the proxy prefix whose
    path ends in a data URL of one of the two binary types, holding the base64
    text of some bytes, is answered at once with exactly these bytes, status 200,
    the type the URL names and no caching. *)
Theorem embedded_binary_roundtrip (origin a b text : jsstr) (wasm : bool) (bs : list Z) (shouldRoute : nat -> bool) :
  a <> [] -> b <> [] -> 47 ∉ a -> 47 ∉ b ->
  bs <> [] -> btoa bs = Ok text -> str_len (data_prefix wasm ++ text) <= localBinaryDataMaxLength ->
  on_fetch origin origin (proxyPathPrefix ++ a ++ 47 :: b ++ 47 :: data_prefix wasm ++ text) shouldRoute
  = Local {| r_body := Bytes bs; status := 200;
             headers := [no_store; (js "Content-Type", content_type wasm)] |}.
Proof.
  intros Ha Hb Hsa Hsb Hbs Ht Hlen. destruct (btoa_chars _ _ Ht) as [Hch Hne].
  set (t := (if wasm then js "application/wasm;base64," else js "application/octet-stream;base64,") ++ text).
  assert (Hd : data_prefix wasm ++ text = js "data:" ++ t).
  { unfold t. rewrite app_assoc. f_equal. destruct wasm; vm_compute; reflexivity. }
  assert (Hp : Forall plain_char t).
  { apply Forall_app. split; [|by apply base64_plain]. apply List.Forall_forall. intros c Hc.
    assert (Hk : forallb (fun c => negb (c =? 37) && negb (is_line_terminator c))
                   (if wasm then js "application/wasm;base64," else js "application/octet-stream;base64,") = true)
      by (destruct wasm; vm_compute; reflexivity).
    rewrite forallb_forall in Hk. specialize (Hk c Hc). bool_prop. by split. }
  unfold on_fetch. rewrite str_eqb_refl. rewrite (proj2 (startsWith_spec _ _)) by (by eexists). cbn [andb].
  assert (Hu : localBinaryDataURL (proxyPathPrefix ++ a ++ 47 :: b ++ 47 :: data_prefix wasm ++ text)
               = Some (data_prefix wasm ++ text)).
  { unfold localBinaryDataURL. rewrite Hd. rewrite data_path_complete; try done; [|by intros [_ E]%app_nil; destruct (Hne Hbs)].
    rewrite <- Hd, decode_plain.
    - rewrite (proj2 (Z.ltb_ge _ _)) by done. rewrite (proj2 (data_url_spec (data_prefix wasm ++ text))); [done|]. exists wasm, text. auto.
    - rewrite Hd. apply Forall_app. split; [apply (bool_decide_unpack _); vm_compute; exact I|]. eapply List.Forall_impl; [|exact Hp]. by intros c []. }
  rewrite Hu, response_payload. f_equal.
  assert (Hb' : Forall is_byte bs).
  { unfold btoa in Ht. destruct (forallb is_byteb bs) eqn:Eb; [|done]. apply List.Forall_forall. intros x Hx.
    rewrite forallb_forall in Eb. specialize (Eb x Hx). unfold is_byteb, is_byte in *. lia. }
  pose proof (atob_btoa bs Hb') as Hat. rewrite Ht in Hat. cbn [rbind] in Hat. rewrite Hat. f_equal. f_equal.
  rewrite <- (map_id bs) at 2. apply map_ext_in. intros c Hc. rewrite List.Forall_forall in Hb'.
  apply Z.mod_small. by apply Hb'.
Qed.

Theorem embedded_binary_witness :
  on_fetch (js "https://a") (js "https://a") (js "/~/sj/f/g/data:application/wasm;base64,AGFzbQ==") (fun _ => false)
  = Local {| r_body := Bytes [0; 97; 115; 109]; status := 200;
             headers := [no_store; (js "Content-Type", content_type true)] |}.
Proof.
  refine (embedded_binary_roundtrip (js "https://a") (js "f") (js "g") (js "AGFzbQ==") true [0; 97; 115; 109] (fun _ => false) _ _ _ _ _ _ _);
    try (vm_compute; congruence); try (vm_compute; reflexivity).
  all: apply (bool_decide_unpack _); vm_compute; exact I.
Defined.

(** Only binary data is answered locally: a local answer is given only for the
    worker's own origin and a data URL of one of the two binary types with a
    non-empty base64 payload and at most one MiB in all; it is 200 with the
    payload's bytes and the type of the URL when the payload decodes, and 400
    otherwise, never cached. *)
Theorem local_answers_are_binary (origin location_origin pathname : jsstr) (shouldRoute : nat -> bool) (r : response) :
  on_fetch origin location_origin pathname shouldRoute = Local r ->
  origin = location_origin /\ no_store ∈ headers r
  /\ exists wasm p, p <> [] /\ forallb is_base64_char p = true
     /\ str_len (data_prefix wasm ++ p) <= localBinaryDataMaxLength
     /\ match atob p with
        | Ok decoded => r = {| r_body := Bytes (map (fun c => c mod 256) decoded); status := 200;
                               headers := [no_store; (js "Content-Type", content_type wasm)] |}
        | Throw _ => status r = 400
        end.
Proof.
  unfold on_fetch. destruct (_ && _) eqn:Eo; [|by destruct (shouldRoute 0%nat)]. bool_prop.
  destruct (localBinaryDataURL pathname) as [d|] eqn:Ed.
  2:{ intros H1. pose proof (route_attempts_spec shouldRoute routeReviveMaxAttempts 0 0) as H2.
      unfold routeProxyRequest in H1. by rewrite H1 in H2. }
  intros [= <-]. split; [by apply str_eqb_eq|].
  unfold localBinaryDataURL in Ed. destruct (match1 data_path_re pathname) as [m|]; [|done].
  destruct (decodeURIComponent m) as [d'|]; [|done]. destruct (_ <? _) eqn:El; [done|].
  destruct (test data_url_re d') eqn:Et; [|done]. injection Ed as <-. bool_prop.
  apply data_url_spec in Et as (wasm & p & -> & Hne & Hf). rewrite response_payload. split.
  - destruct (atob p); by left.
  - exists wasm, p. split; [done|]. split; [done|]. split; [done|]. by destruct (atob p).
Qed.

Theorem local_answers_witness :
  exists r, on_fetch (js "https://a") (js "https://a") (js "/~/sj/f/g/data:application/wasm;base64,A") (fun _ => false) = Local r
    /\ js "https://a" = js "https://a" /\ no_store ∈ headers r.
Proof.
  eexists. split; [vm_compute; reflexivity|].
  match goal with |- _ /\ no_store ∈ headers ?r =>
    destruct (local_answers_are_binary (js "https://a") (js "https://a")
                (js "/~/sj/f/g/data:application/wasm;base64,A") (fun _ => false) r) as (H1 & H2 & _)
  end; [vm_compute; reflexivity|]. split; [exact H1|exact H2].
Defined.
