(* ===== verification/Compat.v ===== *)
(** * The Scramjet transport over Epoxy ([web/src/compat.ts])

    [RTCEpoxyTransport] serialises the fetches of the proxied page on one Epoxy
    client, turns its responses into what Scramjet expects, and adapts its web
    sockets.  The Epoxy client is a parameter: what it answers are events. *)

From stdpp Require Import base list numbers strings sets.
From Stdlib Require Import ZArith Lia.
From S2P Require Import Prelude JsString Regex Url TransportPolicy.
Local Open Scope Z_scope.

Module FetchQueue.

(** ** The queue of fetches

    Request [k] is the [k]-th to reach the queue.  Its fetch is chained to the
    settling, either way, of the one before it. *)

Inductive stage := Waiting | Running | Settled (ok : bool).
#[export] Instance stage_eq_dec : EqDecision stage.
Proof. solve_decision. Defined.

Abbreviation state := (list stage).

Inductive event :=
| EEnqueue                      (* a call of [request] reaches the queue *)
| EStart (k : nat)              (* the callback of [fetchQueue.then] runs *)
| ESettle (k : nat) (ok : bool).

Inductive output := Started (k : nat) | Finished (k : nat) (ok : bool).

(** The promise [fetchQueue] held when request [k] was queued is settled. *)
Definition previous_settled (s : state) (k : nat) : bool :=
  match k with
  | O => true
  | S j => match s !! j with Some (Settled _) => true | _ => false end
  end.

Definition step (s : state) (e : event) : option (state * list output) :=
  match e with
  | EEnqueue => Some (s ++ [Waiting], [])
  | EStart k =>
      match s !! k with
      | Some Waiting => if previous_settled s k then Some (<[k := Running]> s, [Started k]) else None
      | _ => None
      end
  | ESettle k ok =>
      match s !! k with
      | Some Running => Some (<[k := Settled ok]> s, [Finished k ok])
      | _ => None
      end
  end.

Inductive run : list event -> state -> list output -> Prop :=
| run_nil : run [] [] []
| run_snoc es e s s' out o : run es s out -> step s e = Some (s', o) -> run (es ++ [e]) s' (out ++ o).

Definition started (out : list output) : list nat :=
  omap (fun o => match o with Started k => Some k | _ => None end) out.

(** The queue is a row of settled requests, perhaps one running, then waiting
    ones; the requests started are those up to the running one. *)
Record inv (s : state) (out : list output) (m : nat) : Prop := {
  queue_settled : forall k, (k < m)%nat -> exists ok, s !! k = Some (Settled ok);
  queue_waiting : forall k x, (m < k)%nat -> s !! k = Some x -> x = Waiting;
  queue_here : forall ok, s !! m <> Some (Settled ok);
  queue_started : started out = seq 0 (if bool_decide (s !! m = Some Running) then S m else m)
}.

Lemma started_app o1 o2 : started (o1 ++ o2) = started o1 ++ started o2.
Proof. apply omap_app. Qed.

Lemma queue_enqueue s out m : inv s out m -> inv (s ++ [Waiting]) (out ++ []) m.
Proof.
  intros [H1 H2 H3 H4]. rewrite app_nil_r.
  assert (Hle : (m <= length s)%nat).
  { destruct (decide (m <= length s)%nat); [done|]. destruct (H1 (length s)) as [ok E]; [lia|].
    apply lookup_lt_Some in E. lia. }
  assert (Hm : (s ++ [Waiting]) !! m = s !! m \/ s !! m = None /\ (s ++ [Waiting]) !! m = Some Waiting).
  { destruct (decide (m < length s)%nat) as [Hlt|Hge].
    - left. by apply lookup_app_l.
    - right. assert (m = length s) as -> by lia. split; [by apply lookup_ge_None_2|].
      by rewrite lookup_app_r, Nat.sub_diag by lia. }
  constructor.
  - intros k Hk. destruct (H1 k Hk) as [ok E]. exists ok. by apply lookup_app_l_Some.
  - intros k x Hk E. apply lookup_app_Some in E as [E|[_ E]]; [by eapply H2|].
    by apply list_lookup_singleton_Some in E as [_ <-].
  - intros ok. destruct Hm as [-> | [_ ->]]; [apply H3|done].
  - rewrite H4. destruct Hm as [-> | [-> ->]]; done.
Qed.

Lemma queue_start s out m k :
  inv s out m -> s !! k = Some Waiting -> previous_settled s k = true ->
  inv (<[k := Running]> s) (out ++ [Started k]) m.
Proof.
  intros [H1 H2 H3 H4] Hk Hp.
  assert (k = m) as ->.
  { destruct (lt_eq_lt_dec k m) as [[Hlt|?]|Hgt]; [|done|].
    - destruct (H1 k Hlt) as [ok E]. congruence.
    - destruct k as [|j]; [lia|]. cbn in Hp. destruct (s !! j) as [[]|] eqn:Ej; try done.
      destruct (decide (m = j)) as [->|Hne]; [by destruct (H3 ok)|]. assert (Settled ok = Waiting) by (eapply H2; [|done]; lia).
      done. }
  pose proof (lookup_lt_Some _ _ _ Hk) as Hlt. constructor.
  - intros j Hj. destruct (H1 j Hj) as [ok E]. exists ok. by rewrite list_lookup_insert_ne by lia.
  - intros j x Hj. rewrite list_lookup_insert_ne by lia. by apply H2.
  - intros ok. by rewrite list_lookup_insert_eq.
  - rewrite started_app, H4, list_lookup_insert_eq by done. rewrite bool_decide_false by congruence.
    rewrite bool_decide_true by done. by rewrite seq_S.
Qed.

Lemma queue_settle s out m k ok :
  inv s out m -> s !! k = Some Running -> inv (<[k := Settled ok]> s) (out ++ [Finished k ok]) (S m) /\ k = m.
Proof.
  intros [H1 H2 H3 H4] Hk.
  assert (k = m) as ->.
  { destruct (lt_eq_lt_dec k m) as [[Hlt|?]|Hgt]; [|done|].
    - destruct (H1 k Hlt) as [ok' E]. congruence.
    - assert (Running = Waiting) by (by eapply H2). done. }
  split; [|done]. pose proof (lookup_lt_Some _ _ _ Hk) as Hlt. constructor.
  - intros j Hj. destruct (decide (j = m)) as [->|Hne]; [exists ok; by apply list_lookup_insert_eq|].
    destruct (H1 j) as [ok' E]; [lia|]. exists ok'. by rewrite list_lookup_insert_ne by done.
  - intros j x Hj. rewrite list_lookup_insert_ne by lia. apply H2. lia.
  - intros ok'. rewrite list_lookup_insert_ne by lia. intros E. assert (Settled ok' = Waiting) by (eapply H2; [|done]; lia). done.
  - rewrite started_app. cbn. rewrite app_nil_r, H4, list_lookup_insert_ne, bool_decide_true by (done || lia).
    rewrite bool_decide_false; [done|]. intros E. assert (Running = Waiting) by (eapply H2; [|done]; lia). done.
Qed.

Lemma queue_run es s out : run es s out -> exists m, inv s out m.
Proof.
  induction 1 as [|es e s s' out o _ [m IH] Hs].
  - exists 0%nat. constructor; try done. intros k Hk. lia.
  - destruct e as [|k|k ok]; cbn in Hs.
    + injection Hs as <- <-. exists m. by apply queue_enqueue.
    + destruct (s !! k) as [[]|] eqn:E; try done. destruct (previous_settled s k) eqn:Ep; [|done].
      injection Hs as <- <-. exists m. by apply queue_start.
    + destruct (s !! k) as [[]|] eqn:E; try done. injection Hs as <- <-. exists (S m). by apply queue_settle.
Qed.

(** Fetches are serialised: whatever requests arrive and however their fetches
    end, the fetches are started in the order the requests reached the queue, at
    most one is in flight, and while a request waits either one is in flight or
    the next can start, so a failed fetch never blocks those behind it. *)
Theorem fetches_serialised (es : list event) (s : state) (out : list output) :
  run es s out ->
  started out = seq 0 (length (started out))
  /\ (forall i j, s !! i = Some Running -> s !! j = Some Running -> i = j)
  /\ ((exists k, s !! k = Some Waiting) ->
      (exists k, s !! k = Some Running) \/ exists k s' o, step s (EStart k) = Some (s', o)).
Proof.
  intros [m [H1 H2 H3 H4]]%queue_run. split; [rewrite H4 at 2; by rewrite length_seq, H4|].
  assert (Hrun : forall i, s !! i = Some Running -> i = m).
  { intros i Hi. destruct (lt_eq_lt_dec i m) as [[Hlt|?]|Hgt]; [|done|].
    - destruct (H1 i Hlt) as [ok E]. congruence.
    - assert (Running = Waiting) by (by eapply H2). done. }
  split; [intros i j Hi Hj; rewrite (Hrun i Hi); symmetry; by apply Hrun|].
  intros [k Hk]. destruct (s !! m) as [[| |ok]|] eqn:Em.
  - right. exists m. cbn. rewrite Em.
    assert (Hp : previous_settled s m = true).
    { destruct m as [|j]; [done|]. cbn. destruct (H1 j) as [ok ->]; [lia|done]. }
    rewrite Hp. by do 2 eexists.
  - left. by exists m.
  - by destruct (H3 ok).
  - exfalso. destruct (decide (k < m)%nat) as [Hlt|Hge].
    + destruct (H1 k Hlt) as [ok E]. congruence.
    + apply lookup_ge_None_1 in Em. apply lookup_lt_Some in Hk. lia.
Qed.

Theorem fetches_serialised_witness :
  exists s out, run [EEnqueue; EEnqueue; EStart 0; ESettle 0 false; EStart 1] s out
    /\ started out = seq 0 (length (started out)) /\ started out = [0; 1]%nat.
Proof.
  assert (Hr : run [EEnqueue; EEnqueue; EStart 0; ESettle 0 false; EStart 1] [Settled false; Running]
                 [Started 0; Finished 0 false; Started 1]).
  { apply (run_snoc [EEnqueue; EEnqueue; EStart 0; ESettle 0 false] _ [Settled false; Waiting] _ [Started 0; Finished 0 false] [Started 1]); [|done].
    apply (run_snoc [EEnqueue; EEnqueue; EStart 0] _ [Running; Waiting] _ [Started 0] [Finished 0 false]); [|done].
    apply (run_snoc [EEnqueue; EEnqueue] _ [Waiting; Waiting] _ [] [Started 0]); [|done].
    apply (run_snoc [EEnqueue] _ [Waiting] _ [] []); [|done]. apply (run_snoc [] _ [] _ [] []); [constructor|done]. }
  eexists _, _. split; [exact Hr|]. split; [exact (proj1 (fetches_serialised _ _ _ Hr))|reflexivity].
Defined.

End FetchQueue.

Module Client.

(** ** The Epoxy client behind the queue

    [init] may be called by the page and by every request; a request reaches the
    queue after its own [init] and, for a blob, after reading it. *)

Record options := {
  user_agent : jsstr;
  wisp_v2 : bool;
  udp_extension_required : bool;
  pem_files : list jsstr;
  disable_certificate_validation : bool
}.

Definition client_options (userAgent : jsstr) : options :=
  {| user_agent := userAgent; wisp_v2 := true; udp_extension_required := false; pem_files := []; disable_certificate_validation := false |}.

Inductive pc :=
| Loading (blob : option bool)     (* awaits [initEpoxy]; [None] for a call of [init] by the page *)
| Checked (blob : bool)            (* awaits its own, settled [init] *)
| Reading.                         (* awaits [body.arrayBuffer] *)

Record transport := {
  client : option nat;             (* [client], [Some] exactly when [ready] *)
  made : list options;             (* the clients made, with their options *)
  tasks : list (option pc);        (* the calls, [None] once they are done or queued *)
  queue : FetchQueue.state
}.

Definition ready (s : transport) : bool := bool_decide (is_Some (client s)).

Definition set_task (s : transport) (k : nat) (a : option pc) : transport :=
  {| client := client s; made := made s; tasks := <[k := a]> (tasks s); queue := queue s |}.

Definition add_task (s : transport) (a : option pc) : transport :=
  {| client := client s; made := made s; tasks := tasks s ++ [a]; queue := queue s |}.

(** The request is chained to the queue. *)
Definition enqueue (s : transport) (k : nat) : transport :=
  {| client := client s; made := made s; tasks := <[k := None]> (tasks s); queue := queue s ++ [FetchQueue.Waiting] |}.

Inductive event :=
| EInit                                        (* the page calls [init] *)
| ERequest (blob : bool)
| ELoaded (k : nat) (r : result unit)          (* [initEpoxy] settles for call [k] *)
| EChecked (k : nat)
| ERead (k : nat) (r : result unit)
| EQueue (e : FetchQueue.event).

(** A fetch that starts uses the client there is. *)
Definition step (userAgent : jsstr) (s : transport) (e : event) : option (transport * list (nat * option nat)) :=
  match e with
  | EInit => Some (add_task s (if ready s then None else Some (Loading None)), [])
  | ERequest blob => Some (add_task s (Some (if ready s then Checked blob else Loading (Some blob))), [])
  | ELoaded k r =>
      match tasks s !! k with
      | Some (Some (Loading blob)) =>
          match r with
          | Ok _ =>
              let s := {| client := Some (length (made s)); made := made s ++ [client_options userAgent]; tasks := tasks s; queue := queue s |} in
              Some (set_task s k (option_map Checked blob), [])
          | Throw _ => Some (set_task s k None, [])
          end
      | _ => None
      end
  | EChecked k =>
      match tasks s !! k with
      | Some (Some (Checked blob)) => Some (if blob then set_task s k (Some Reading) else enqueue s k, [])
      | _ => None
      end
  | ERead k r =>
      match tasks s !! k with
      | Some (Some Reading) => Some (match r with Ok _ => enqueue s k | Throw _ => set_task s k None end, [])
      | _ => None
      end
  | EQueue FetchQueue.EEnqueue => None
  | EQueue e =>
      match FetchQueue.step (queue s) e with
      | Some (q, out) =>
          Some ({| client := client s; made := made s; tasks := tasks s; queue := q |}, map (fun k => (k, client s)) (FetchQueue.started out))
      | None => None
      end
  end.

Definition new_transport : transport := {| client := None; made := []; tasks := []; queue := [] |}.

Inductive run (userAgent : jsstr) : list event -> transport -> list (nat * option nat) -> Prop :=
| run_nil : run userAgent [] new_transport []
| run_snoc es e s s' out o : run userAgent es s out -> step userAgent s e = Some (s', o) -> run userAgent (es ++ [e]) s' (out ++ o).

(** Whatever is past its [init] has a client, and the queue runs as in FetchQueue. *)
Record usable (s : transport) (out : list (nat * option nat)) : Prop := {
  us_tasks : forall k a, tasks s !! k = Some (Some a) -> match a with Loading _ => True | _ => is_Some (client s) end;
  us_queue : queue s <> [] -> is_Some (client s);
  us_made : Forall (fun o => disable_certificate_validation o = false /\ wisp_v2 o = true) (made s);
  us_client : forall c, client s = Some c -> (c < length (made s))%nat;
  us_out : Forall (fun p => is_Some (snd p)) out;
  us_run : exists es q, FetchQueue.run es (queue s) q /\ FetchQueue.started q = map fst out
}.

Lemma usable_task s out k a :
  usable s out -> match a with Some (Loading _) | None => True | Some _ => is_Some (client s) end -> usable (set_task s k a) out.
Proof.
  intros [H1 H2 H3 H4 H5 H6] Ha. constructor; try done. cbn. intros j b Hj. destruct (decide (j = k)) as [->|Hne].
  - apply list_lookup_insert_Some in Hj as [(_ & [= ->] & _)|(? & _)]; [by destruct b|done].
  - rewrite list_lookup_insert_ne in Hj by done. by eapply H1.
Qed.

Lemma usable_add s out a :
  usable s out -> match a with Some (Loading _) | None => True | Some _ => is_Some (client s) end -> usable (add_task s a) out.
Proof.
  intros [H1 H2 H3 H4 H5 H6] Ha. constructor; try done. cbn. intros j b [Hj|[_ Hj]]%lookup_app_Some; [by eapply H1|].
  apply list_lookup_singleton_Some in Hj as [_ [= ->]]. by destruct b.
Qed.

Lemma usable_enqueue s out k : usable s out -> is_Some (client s) -> usable (enqueue s k) out.
Proof.
  intros Hu Hc. destruct (usable_task _ _ k None Hu I) as [H1 H2 H3 H4 H5 (es & q & Hr & Hq)]. constructor; try done.
  exists (es ++ [FetchQueue.EEnqueue]), (q ++ []). split; [by econstructor|]. by rewrite app_nil_r.
Qed.

Lemma usable_loaded ua s out :
  usable s out -> usable {| client := Some (length (made s)); made := made s ++ [client_options ua]; tasks := tasks s; queue := queue s |} out.
Proof.
  intros [H1 H2 H3 H4 H5 H6]. constructor; cbn; try done.
  - intros k [] Hk; by eauto.
  - apply Forall_app. split; [done|]. by repeat constructor.
  - intros c [= <-]. rewrite length_app. cbn. lia.
Qed.

Lemma usable_step ua s out e s' o : usable s out -> step ua s e = Some (s', o) -> usable s' (out ++ o).
Proof.
  intros Hu. destruct e as [|blob|k r|k|k r|e]; cbn [step].
  - intros [= <- <-]. rewrite app_nil_r. apply usable_add; [done|]. by destruct (ready s).
  - intros [= <- <-]. rewrite app_nil_r. apply usable_add; [done|]. unfold ready. by case_bool_decide.
  - destruct (tasks s !! k) as [[[blob| |]|]|] eqn:Ek; try done. destruct r; intros [= <- <-]; rewrite app_nil_r; [|by apply usable_task].
    apply usable_task; [by apply usable_loaded|]. destruct blob; cbn; [by eexists|done].
  - destruct (tasks s !! k) as [[[|blob|]|]|] eqn:Ek; try done. intros [= <- <-]. rewrite app_nil_r. pose proof (us_tasks _ _ Hu _ _ Ek) as Hc.
    destruct blob; [by apply usable_task|by apply usable_enqueue].
  - destruct (tasks s !! k) as [[[]|]|] eqn:Ek; try done. intros [= <- <-]. rewrite app_nil_r. pose proof (us_tasks _ _ Hu _ _ Ek) as Hc.
    destruct r; [by apply usable_enqueue|by apply usable_task].
  - intros Hs. assert (Hq : exists q out', FetchQueue.step (queue s) e = Some (q, out') /\ queue s <> []
       /\ s' = {| client := client s; made := made s; tasks := tasks s; queue := q |} /\ o = map (fun k => (k, client s)) (FetchQueue.started out')).
    { destruct e as [|k|k ok]; [done| |]; cbn [FetchQueue.step] in *; destruct (queue s !! k) as [x|] eqn:Ek; try done;
        (assert (Hne : queue s <> []) by (intros E; by rewrite E in Ek)); repeat case_match; simplify_eq; by eexists _, _. }
    destruct Hq as (q & out' & Hst & Hne & -> & ->). destruct Hu as [H1 H2 H3 H4 H5 (es & q0 & Hr & Hq)]. constructor; cbn; try done.
    + intros _. by apply H2.
    + apply Forall_app. split; [done|]. apply Forall_forall. intros p Hp. apply list_elem_of_fmap in Hp as (k & -> & _). by apply H2.
    + exists (es ++ [e]), (q0 ++ out'). split; [by econstructor|]. rewrite FetchQueue.started_app, Hq, map_app, map_map, map_id. done.
Qed.

Lemma usable_run ua es s out : run ua es s out -> usable s out.
Proof.
  induction 1 as [|es e s s' out o _ IH Hs]; [|by eapply usable_step].
  constructor; try done. exists [], []. split; [constructor|done].
Qed.

(** Every fetch has a client that checks certificates: a fetch starts only when a client
    exists, every client made speaks Wisp 2 and validates certificates, and the
    fetches still start one after another, in the order of the queue. *)
Theorem fetches_have_client (ua : jsstr) (es : list event) (s : transport) (out : list (nat * option nat)) :
  run ua es s out ->
  Forall (fun p => is_Some (snd p)) out /\ map fst out = seq 0 (length out)
  /\ Forall (fun o => disable_certificate_validation o = false /\ wisp_v2 o = true) (made s)
  /\ (forall c, client s = Some c -> (c < length (made s))%nat).
Proof.
  intros [_ _ H3 H4 H5 (fes & q & Hr & Hq)]%usable_run. split; [done|]. split; [|done].
  destruct (FetchQueue.queue_run _ _ _ Hr) as [m [_ _ _ Hs]]. rewrite <- (length_map fst out), <- Hq, Hs, length_seq. done.
Qed.

Fixpoint exec (ua : jsstr) (s : transport) (es : list event) : option (transport * list (nat * option nat)) :=
  match es with
  | [] => Some (s, [])
  | e :: es' =>
      match step ua s e with
      | Some (s', o) => match exec ua s' es' with Some (s'', o') => Some (s'', o ++ o') | None => None end
      | None => None
      end
  end.

Lemma client_exec_run ua es : forall es0 s0 out0 s out,
  run ua es0 s0 out0 -> exec ua s0 es = Some (s, out) -> run ua (es0 ++ es) s (out0 ++ out).
Proof.
  induction es as [|e es IH]; intros es0 s0 out0 s out H0; cbn; [intros [= <- <-]; by rewrite !app_nil_r|].
  destruct (step ua s0 e) as [[s1 o]|] eqn:Es; [|done]. destruct (exec ua s1 es) as [[s2 o']|] eqn:E; [|done]. intros [= <- <-].
  rewrite app_assoc. change (e :: es) with ([e] ++ es). rewrite app_assoc. eapply IH; [|exact E]. by econstructor.
Qed.

(** Two requests before the client is loaded: both load one, the second stays. *)
Definition demo_requests : list event :=
  [ERequest false; ERequest true; ELoaded 0 (Ok tt); EChecked 0; EQueue (FetchQueue.EStart 0); ELoaded 1 (Ok tt); EChecked 1; ERead 1 (Ok tt);
   EQueue (FetchQueue.ESettle 0 true); EQueue (FetchQueue.EStart 1)].

Theorem fetches_have_client_witness :
  exists s, run (js "agent") demo_requests s [(0%nat, Some 0%nat); (1%nat, Some 1%nat)] /\ (1 < length (made s))%nat.
Proof.
  destruct (exec (js "agent") new_transport demo_requests) as [[s out]|] eqn:E; [|by vm_compute in E].
  pose proof (client_exec_run (js "agent") demo_requests [] new_transport [] s out (run_nil _) E) as Hr.
  destruct (fetches_have_client _ _ _ _ Hr) as (_ & _ & _ & Hc). exists s. vm_compute in E. injection E as <- <-. split; [exact Hr|]. by apply Hc.
Defined.

End Client.

Module Response.

(** ** The response handed to Scramjet *)

(** JavaScript values that occur in header tables, and [String(v)]. *)
Inductive value :=
| VStr (s : jsstr)
| VInt (n : Z)
| VNull
| VUndefined
| VArr (l : list value).

Fixpoint to_string (v : value) : jsstr :=
  match v with
  | VStr s => s
  | VInt n => string_of_Z n
  | VNull => js "null"
  | VUndefined => js "undefined"
  | VArr l =>
      (fix join (l : list value) : jsstr :=
         match l with
         | [] => []
         | [x] => match x with VNull | VUndefined => [] | _ => to_string x end
         | x :: r => (match x with VNull | VUndefined => [] | _ => to_string x end) ++ 44 :: join r
         end) l
  end.

(** [response.rawHeaders]: an array, a [Headers] object, another object with its
    own entries, or something else. *)
Inductive raw :=
| RawArray (items : list value)
| RawHeadersObject (entries : RawHeaders)
| RawObject (entries : list (jsstr * value))
| RawNone.

Definition array_item (item : value) : RawHeaders :=
  match item with
  | VArr (a :: b :: _) => [(to_string a, to_string b)]
  | _ => []
  end.

Definition object_item (entry : jsstr * value) : RawHeaders :=
  let '(name, v) := entry in
  flat_map (fun item => match item with VNull | VUndefined => [] | _ => [(name, to_string item)] end)
    (match v with VArr l => l | _ => [v] end).

Definition raw_values (r : raw) : RawHeaders :=
  match r with
  | RawArray items => flat_map array_item items
  | RawHeadersObject entries => entries
  | RawObject entries => flat_map object_item entries
  | RawNone => []
  end.

Definition responseHeaders `{UnicodeCase} `{UrlPlatform} (r : raw) (headers : RawHeaders) (remote : url) : result RawHeaders :=
  let values := raw_values r in
  let normalized := match values with [] => headers | _ => values end in
  sanitizeUpstreamHeaders normalized remote.

(** [/^(?:text\/html|application\/xhtml\+xml)(?:;|$)/i] *)
Definition html_re : regex :=
  rseq [RBol; RAlt (lit chr_i (js "text/html")) (lit chr_i (js "application/xhtml+xml"));
        RAlt (RSet (chr_i 59)) REol].

Definition content_type `{UnicodeCase} (headers : RawHeaders) : jsstr :=
  match List.find (fun '(name, _) => str_eqb (toLowerCase name) (js "content-type")) headers with
  | Some (_, v) => v
  | None => []
  end.

Inductive body_kind := Buffered | Streamed.

Definition body_of `{UnicodeCase} (headers : RawHeaders) : body_kind :=
  if test html_re (content_type headers) then Buffered else Streamed.

(** [Object.fromEntries(headers)]: a later entry of a name replaces the value of the
    earlier one, in its place. *)
Fixpoint set_entry (name v : jsstr) (o : RawHeaders) : RawHeaders :=
  match o with
  | [] => [(name, v)]
  | (n, w) :: o' => if str_eqb n name then (n, v) :: o' else (n, w) :: set_entry name v o'
  end.

Definition fromEntries (headers : RawHeaders) : RawHeaders :=
  fold_left (fun o '(n, v) => set_entry n v o) headers [].

(** What [request] passes to the client's [fetch]. *)
Record fetch_call := { f_url : jsstr; f_method : jsstr; f_headers : RawHeaders }.

Definition fetch_arguments (remote : url) (method : jsstr) (headers : RawHeaders) : fetch_call :=
  {| f_url := href (agentTransportURL remote); f_method := method; f_headers := fromEntries headers |}.

Record TransferrableResponse := { t_body : body_kind; t_headers : RawHeaders; t_status : Z; t_statusText : jsstr }.

(** The statements of [request] behind the fetch. *)
Definition transfer `{UnicodeCase} `{UrlPlatform} (r : raw) (headers : RawHeaders) (status : Z) (statusText : jsstr)
    (remote : url) : result TransferrableResponse :=
  let? list := responseHeaders r headers remote in
  Ok {| t_body := body_of list; t_headers := list; t_status := status; t_statusText := statusText |}.

(** ** HTML documents are buffered *)

(** A content type whose media type, before any parameter, is HTML or XHTML. *)
Definition html_type (v : jsstr) : Prop :=
  exists t rest, v = t ++ rest
    /\ (map lower_char t = js "text/html" \/ map lower_char t = js "application/xhtml+xml")
    /\ (rest = [] \/ exists params, rest = 59 :: params).

Lemma html_re_spec v : test html_re v = true <-> html_type v.
Proof.
  rewrite test_spec. unfold html_re, html_type. cbn [rseq]. split.
  - intros (u & t & w & -> & M). apply Matches_seq in M as (x0 & y0 & -> & M0 & M). apply Matches_bol in M0 as [Hu ->].
    apply (f_equal (@rev Z)) in Hu. rewrite rev_involutive in Hu. subst u.
    apply Matches_seq in M as (x1 & y1 & -> & M1 & M2). exists x1, (y1 ++ w). split; [cbn; by rewrite <- app_assoc|]. split.
    + apply Matches_alt in M1 as [M1|M1]; apply Matches_lit, lit_chr_i in M1; [left|right]; rewrite M1; vm_compute; reflexivity.
    + apply Matches_alt in M2 as [M2|M2].
      * apply Matches_set in M2 as (c & -> & Hc). right. exists w. cbn. f_equal.
        revert Hc. unfold chr_i, lower_char, is_upper. repeat case_match; bool_prop; lia.
      * apply Matches_eol in M2 as [-> ->]. by left.
  - intros (t & rest & -> & Ht & Hr).
    assert (HA : forall p a, Matches (RAlt (lit chr_i (js "text/html")) (lit chr_i (js "application/xhtml+xml"))) p t a).
    { intros p a. apply Matches_alt. destruct Ht as [Ht|Ht]; [left|right]; apply Matches_lit, lit_chr_i; rewrite Ht;
        vm_compute; reflexivity. }
    destruct Hr as [-> | [params ->]].
    + exists [], t, []. split; [by rewrite !app_nil_r|]. apply Matches_seq. exists [], t. split; [done|].
      split; [by apply Matches_bol|]. apply Matches_seq. exists t, []. split; [by rewrite app_nil_r|].
      split; [by apply HA|]. apply Matches_alt. right. by apply Matches_eol.
    + exists [], (t ++ [59]), params. split; [by rewrite <- app_assoc|]. apply Matches_seq. exists [], (t ++ [59]).
      split; [done|]. split; [by apply Matches_bol|]. apply Matches_seq. exists t, [59]. split; [done|].
      split; [by apply HA|]. apply Matches_alt. left. apply Matches_set. by exists 59.
Qed.

(** A proxied response keeps its status, carries the sanitised form of the
    upstream headers (the raw ones when the client provides any), and its body is
    buffered exactly when its first content type is HTML or XHTML, whatever the
    case and the parameters; every other body is streamed. *)
Theorem transfer_spec `{UnicodeCase} `{UrlPlatform} (r : raw) (headers : RawHeaders) (status : Z) (statusText : jsstr)
    (remote : url) (t : TransferrableResponse) :
  transfer r headers status statusText remote = Ok t ->
  t_status t = status /\ t_statusText t = statusText
  /\ sanitizeUpstreamHeaders (match raw_values r with [] => headers | v => v end) remote = Ok (t_headers t)
  /\ (t_body t = Buffered <-> html_type (content_type (t_headers t))).
Proof.
  unfold transfer, responseHeaders. intros (l & Hl & [= <-])%rbind_Ok. cbn. repeat split; [by destruct (raw_values r)| |].
  - unfold body_of. destruct (test html_re (content_type l)) eqn:E; [|done]. intros _. by apply html_re_spec.
  - intros Ht%html_re_spec. unfold body_of. by rewrite Ht.
Qed.

Theorem transfer_witness :
  exists t, transfer (H := ascii_case) (H0 := plain_platform)
      (RawObject [(js "Content-Type", VStr (js "Text/HTML; charset=utf-8")); (js "Set-Cookie", VArr [VStr (js "a=1"); VStr (js "b=2")])])
      [] 200 (js "OK") (test_url "https" None) = Ok t
    /\ t_status t = 200 /\ (t_body t = Buffered <-> html_type (content_type (H := ascii_case) (t_headers t)))
    /\ t_headers t = [(js "Content-Type", js "Text/HTML; charset=utf-8"); (js "Set-Cookie", js "a=1"); (js "Set-Cookie", js "b=2")].
Proof.
  destruct (transfer (H := ascii_case) (H0 := plain_platform)
      (RawObject [(js "Content-Type", VStr (js "Text/HTML; charset=utf-8")); (js "Set-Cookie", VArr [VStr (js "a=1"); VStr (js "b=2")])])
      [] 200 (js "OK") (test_url "https" None)) as [t|] eqn:E; [|by vm_compute in E].
  exists t. split; [done|]. destruct (transfer_spec (H := ascii_case) (H0 := plain_platform) _ _ _ _ _ _ E) as (H1 & _ & _ & H4).
  split; [done|]. split; [done|]. vm_compute in E. injection E as <-. vm_compute. reflexivity.
Defined.

End Response.

Module WebSocket.

(** ** Web sockets

    [connect] returns two asynchronous functions that first await the socket.  The
    reactions to a settled promise run in the order they were registered, so the
    microtasks form a queue; reading a [Blob] takes another await of its own. *)

Inductive data := Str (s : jsstr) | Buffer (b : list Z) | Blob (b : list Z).

Inductive call := Send (d : data) | Close (code : Z) (reason : option jsstr).

(** What reaches the Epoxy socket. *)
Inductive frame := Text (s : jsstr) | Binary (b : list Z) | Closing (code : Z) (reason : jsstr).

Inductive socket_state := Pending | Ready | Broken.

Inductive job := Resume (c : call) | SendBuffer (b : list Z).

Record state := {
  socket : socket_state;
  reactions : list call;        (* registered on the pending socket promise *)
  micro : list job;
  blobs : list (list Z);        (* blobs being read *)
  wire : list frame
}.

Inductive event :=
| ECall (c : call)
| EOpened | EFailed             (* the socket promise is settled *)
| EMicro                        (* the next microtask runs *)
| EBlob (i : nat).              (* a blob has been read *)

(** The call behind [(await socket)]. *)
Definition perform (s : state) (rest : list job) (j : job) : state :=
  let put f := {| socket := socket s; reactions := reactions s; micro := rest; blobs := blobs s; wire := wire s ++ [f] |} in
  match j with
  | Resume (Send (Str t)) => put (Text t)
  | Resume (Send (Buffer b)) => put (Binary b)
  | Resume (Send (Blob b)) =>
      {| socket := socket s; reactions := reactions s; micro := rest; blobs := blobs s ++ [b]; wire := wire s |}
  | Resume (Close code reason) => put (Closing code (default [] reason))
  | SendBuffer b => put (Binary b)
  end.

Definition step (s : state) (e : event) : option state :=
  match e with
  | ECall c =>
      match socket s with
      | Pending => Some {| socket := Pending; reactions := reactions s ++ [c]; micro := micro s; blobs := blobs s; wire := wire s |}
      | Ready => Some {| socket := Ready; reactions := reactions s; micro := micro s ++ [Resume c]; blobs := blobs s; wire := wire s |}
      | Broken => Some s
      end
  | EOpened =>
      match socket s with
      | Pending => Some {| socket := Ready; reactions := []; micro := micro s ++ map Resume (reactions s);
                           blobs := blobs s; wire := wire s |}
      | _ => None
      end
  | EFailed =>
      match socket s with
      | Pending => Some {| socket := Broken; reactions := []; micro := micro s; blobs := blobs s; wire := wire s |}
      | _ => None
      end
  | EMicro => match micro s with j :: rest => Some (perform s rest j) | [] => None end
  | EBlob i =>
      match blobs s !! i with
      | Some b => Some {| socket := socket s; reactions := reactions s; micro := micro s ++ [SendBuffer b];
                          blobs := delete i (blobs s); wire := wire s |}
      | None => None
      end
  end.

Definition init : state := {| socket := Pending; reactions := []; micro := []; blobs := []; wire := [] |}.

Inductive run : list event -> state -> Prop :=
| run_nil : run [] init
| run_snoc es e s s' : run es s -> step s e = Some s' -> run (es ++ [e]) s'.

(** The callbacks handed to [EpoxyHandlers]. *)
Inductive handler_event := HOpen | HClose | HError (e : jsstr) | HText (s : jsstr) | HBytes (b : list Z).
Inductive callback :=
| onopen (protocol extensions : jsstr) | onclose (code : Z) (reason : jsstr) | onerror (e : jsstr)
| onmessage (d : data).

Definition handle (h : handler_event) : callback :=
  match h with
  | HOpen => onopen [] []
  | HClose => onclose 1000 (js "Closed by remote")
  | HError e => onerror e
  | HText s => onmessage (Str s)
  | HBytes b => onmessage (Buffer b)
  end.

(** *** Order of the frames *)

Definition frame_of (c : call) : frame :=
  match c with
  | Send (Str s) => Text s
  | Send (Buffer b) | Send (Blob b) => Binary b
  | Close code reason => Closing code (default [] reason)
  end.

Definition is_blob (c : call) : bool := match c with Send (Blob _) => true | _ => false end.

Definition calls (es : list event) : list call :=
  omap (fun e => match e with ECall c => Some c | _ => None end) es.

Definition resumed (js : list job) : list call :=
  omap (fun j => match j with Resume c => Some c | SendBuffer _ => None end) js.

Lemma calls_snoc es e : calls (es ++ [e]) = calls es ++ match e with ECall c => [c] | _ => [] end.
Proof. unfold calls. rewrite omap_app. by destruct e. Qed.

Lemma resumed_map l : resumed (map Resume l) = l.
Proof. induction l as [|c l IH]; [done|]. unfold resumed in *. cbn. f_equal. exact IH. Qed.

Lemma resumed_nil : resumed [] = [].
Proof. done. Qed.

(** Without blobs: the frames sent, the queued calls and the waiting calls are, in
    this order, the calls made. *)
Record ordered (es : list event) (s : state) : Prop := {
  ord_jobs : Forall (fun j => exists c, j = Resume c /\ is_blob c = false) (micro s);
  ord_reactions : Forall (fun c => is_blob c = false) (reactions s);
  ord_blobs : blobs s = [];
  ord_ready : socket s = Ready -> reactions s = [];
  ord_pending : socket s = Pending -> micro s = [];
  ord_prefix : wire s ++ map frame_of (resumed (micro s) ++ reactions s) `prefix_of` map frame_of (calls es);
  ord_exact : socket s <> Broken -> wire s ++ map frame_of (resumed (micro s) ++ reactions s) = map frame_of (calls es)
}.

Lemma ordered_init : ordered [] init.
Proof. by constructor. Qed.

Lemma ordered_micro es s j rest :
  ordered es s -> micro s = j :: rest -> ordered (es ++ [EMicro]) (perform s rest j).
Proof.
  intros [H1 H2 H3 H4 H5 H6 H7] E. rewrite E in *. apply Forall_cons in H1 as [(c & -> & Hc) H1].
  assert (Hp : perform s rest (Resume c) = {| socket := socket s; reactions := reactions s; micro := rest;
                                              blobs := blobs s; wire := wire s ++ [frame_of c] |}).
  { by destruct c as [[]|]. }
  rewrite Hp. constructor; cbn [socket reactions micro blobs wire]; try done.
  - intros Hs. by specialize (H5 Hs).
  - rewrite calls_snoc, app_nil_r, <- app_assoc. exact H6.
  - rewrite calls_snoc, app_nil_r, <- app_assoc. exact H7.
Qed.

Lemma ordered_call es s c s' :
  ordered es s -> is_blob c = false -> step s (ECall c) = Some s' -> ordered (es ++ [ECall c]) s'.
Proof.
  intros [H1 H2 H3 H4 H5 H6 H7] Hc. cbn. destruct (socket s) eqn:Es; intros [= <-].
  - specialize (H5 eq_refl). rewrite H5, resumed_nil, app_nil_l in *.
    assert (Hx : wire s ++ map frame_of (reactions s ++ [c]) = map frame_of (calls (es ++ [ECall c]))).
    { rewrite calls_snoc, !map_app, app_assoc, H7 by done. done. }
    constructor; cbn [socket reactions micro blobs wire]; rewrite ?resumed_nil, ?app_nil_l; try done.
    + apply Forall_app. split; [done|]. by repeat constructor.
    + by rewrite Hx.
  - specialize (H4 eq_refl). rewrite H4 in *. rewrite app_nil_r in *.
    assert (Hx : wire s ++ map frame_of (resumed (micro s ++ [Resume c])) = map frame_of (calls (es ++ [ECall c]))).
    { unfold resumed at 1. rewrite omap_app. fold (resumed (micro s)). cbn.
      rewrite calls_snoc, !map_app, app_assoc, H7 by done. done. }
    constructor; cbn [socket reactions micro blobs wire]; rewrite ?app_nil_r; try done.
    + apply Forall_app. split; [done|]. constructor; [by exists c|constructor].
    + by rewrite Hx.
  - rewrite <- Es in *. constructor; try done.
    rewrite calls_snoc, (map_app _ (calls es)). by apply prefix_app_r.
Qed.

Lemma ordered_run es s : run es s -> Forall (fun c => is_blob c = false) (calls es) -> ordered es s.
Proof.
  induction 1 as [|es e s s' _ IH Hs]; [intros _; apply ordered_init|].
  rewrite calls_snoc. intros [Hb He]%Forall_app. specialize (IH Hb). destruct e as [c| | | |i].
  - inv He. by eapply ordered_call.
  - destruct IH as [H1 H2 H3 H4 H5 H6 H7]. cbn in Hs. destruct (socket s) eqn:Es; [|done|done]. injection Hs as <-.
    specialize (H5 eq_refl). rewrite H5, resumed_nil, app_nil_l in *. specialize (H7 ltac:(done)).
    constructor; cbn [socket reactions micro blobs wire]; rewrite ?calls_snoc, ?app_nil_l, ?app_nil_r, ?resumed_map; try done.
    apply List.Forall_forall. intros j (c & <- & Hc)%in_map_iff. exists c. split; [done|].
    rewrite List.Forall_forall in H2. by apply H2.
  - destruct IH as [H1 H2 H3 H4 H5 H6 H7]. cbn in Hs. destruct (socket s) eqn:Es; [|done|done]. injection Hs as <-.
    constructor; cbn [socket reactions micro blobs wire]; rewrite ?calls_snoc, ?app_nil_r; try done.
    rewrite map_app, app_assoc in H6. by eapply prefix_app_l.
  - cbn in Hs. destruct (micro s) as [|j rest] eqn:Em; [done|]. injection Hs as <-. by apply ordered_micro.
  - cbn in Hs. rewrite (ord_blobs _ _ IH) in Hs. done.
Qed.

(** Frames keep their order: as long as the page sends only text and buffers, what
    reaches the socket is a prefix of what the page sent and closed, in that
    order, and all of it once the socket is open and nothing is queued. *)
Theorem frames_in_order (es : list event) (s : state) :
  run es s -> Forall (fun c => is_blob c = false) (calls es) ->
  wire s `prefix_of` map frame_of (calls es)
  /\ (socket s = Ready -> micro s = [] -> wire s = map frame_of (calls es)).
Proof.
  intros Hr Hb. destruct (ordered_run _ _ Hr Hb) as [H1 H2 H3 H4 H5 H6 H7]. split.
  - etransitivity; [|exact H6]. by apply prefix_app_r.
  - intros Hs Hm. rewrite <- H7 by congruence. by rewrite Hm, (H4 Hs), app_nil_r.
Qed.

Fixpoint exec (s : state) (es : list event) : option state :=
  match es with
  | [] => Some s
  | e :: es' => match step s e with Some s' => exec s' es' | None => None end
  end.

Lemma ws_exec_run es : forall es0 s0 s, run es0 s0 -> exec s0 es = Some s -> run (es0 ++ es) s.
Proof.
  induction es as [|e es IH]; intros es0 s0 s H0; cbn.
  - intros [= <-]. by rewrite app_nil_r.
  - destruct (step s0 e) as [s1|] eqn:E; [|done]. intros H.
    change (e :: es) with ([e] ++ es). rewrite app_assoc. eapply IH; [|exact H]. by econstructor.
Qed.

Theorem frames_in_order_witness :
  exists s, run [ECall (Send (Str (js "a"))); EOpened; ECall (Send (Buffer [1])); EMicro; EMicro] s
    /\ wire s = map frame_of [Send (Str (js "a")); Send (Buffer [1])].
Proof.
  eexists. split; [apply (ws_exec_run _ [] init); [constructor|reflexivity]|].
  apply (frames_in_order [ECall (Send (Str (js "a"))); EOpened; ECall (Send (Buffer [1])); EMicro; EMicro]);
    [apply (ws_exec_run _ [] init); [constructor|reflexivity]|by repeat constructor|reflexivity|reflexivity].
Defined.

(** A blob is overtaken: a page that sends a blob and then a text sees them reach
    the socket in the other order, because only the blob waits to be read. *)
Theorem blob_overtaken (b : list Z) (t : jsstr) :
  exists s, run [EOpened; ECall (Send (Blob b)); ECall (Send (Str t)); EMicro; EMicro; EBlob 0; EMicro] s
    /\ wire s = [Text t; Binary b].
Proof. eexists. split; [apply (ws_exec_run _ [] init); [constructor|reflexivity]|reflexivity]. Qed.

End WebSocket.
