(* ===== verification/Loader.v ===== *)
(** * Loading a remote page ([web/src/scramjet.ts])

    [loadRemote] keeps one Scramjet controller for the page, hands it the transport
    of the latest connection and opens the remote address in a frame.  The
    controller library and the browser's service worker container are parameters:
    what they answer are events.  A call is a task suspended at an [await]. *)

From stdpp Require Import base list numbers strings sets gmap.
From Stdlib Require Import ZArith Lia.
From S2P Require Import Prelude JsString.
Local Open Scope Z_scope.

(** ** State *)

Inductive load_pc :=
| LRegister                    (* awaits [serviceWorker.register] *)
| LReady                       (* awaits [serviceWorker.ready] *)
| LWait.                       (* awaits [controller.wait] *)

Record load := { l_transport : nat; l_remote : jsstr; l_at : load_pc }.

Record loader := {
  controller : option nat;     (* the module's variable: an index of [transports] *)
  transports : list nat;       (* the transport of each controller made *)
  loads : gmap nat load;
  calls : nat
}.

(** What the calls do; [Went] with the transport the controller has at that moment. *)
Inductive output :=
| Controller (c transport : nat)
| SetTransport (c transport : nat)
| Went (k c transport : nat) (remote : jsstr)
| Loaded (k : nat) (r : result unit).

Definition not_ready : jserror := ErrorMsg (js "浏览器兼容服务未就绪").

Definition set_loads (s : loader) (m : gmap nat load) : loader :=
  {| controller := controller s; transports := transports s; loads := m; calls := calls s |}.

(** [controller.createFrame(element)] and [frame.go(remote.href)], and the end of the call. *)
Definition open_frame (s : loader) (k : nat) (remote : jsstr) : option (loader * list output) :=
  match controller s with
  | Some c => match transports s !! c with
              | Some t => Some (set_loads s (delete k (loads s)), [Went k c t remote; Loaded k (Ok tt)])
              | None => None
              end
  | None => None
  end.

(** A call up to its first [await], or to its end. *)
Definition loadRemote (s : loader) (transport : nat) (remote : jsstr) : option (loader * list output) :=
  let k := calls s in
  let s' := {| controller := controller s; transports := transports s; loads := loads s; calls := S (calls s) |} in
  match controller s with
  | None => Some (set_loads s' (<[k := {| l_transport := transport; l_remote := remote; l_at := LRegister |}]> (loads s)), [])
  | Some c =>
      let s' := {| controller := controller s; transports := <[c := transport]> (transports s); loads := loads s; calls := S (calls s) |} in
      match open_frame s' k remote with Some (s', out) => Some (s', SetTransport c transport :: out) | None => None end
  end.

(** The continuation of a call; [active]: the registration has an active worker. *)
Definition resume (s : loader) (k : nat) (r : result bool) : option (loader * list output) :=
  match loads s !! k with
  | None => None
  | Some l =>
      match r with
      | Throw e => match l_at l with LReady => None | _ => Some (set_loads s (delete k (loads s)), [Loaded k (Throw e)]) end
      | Ok active =>
          match l_at l with
          | LRegister => Some (set_loads s (<[k := {| l_transport := l_transport l; l_remote := l_remote l; l_at := LReady |}]> (loads s)), [])
          | LReady =>
              if active then
                let c := length (transports s) in
                Some ({| controller := Some c; transports := transports s ++ [l_transport l];
                         loads := <[k := {| l_transport := l_transport l; l_remote := l_remote l; l_at := LWait |}]> (loads s); calls := calls s |},
                      [Controller c (l_transport l)])
              else Some (set_loads s (delete k (loads s)), [Loaded k (Throw not_ready)])
          | LWait => open_frame s k (l_remote l)
          end
      end
  end.

Inductive event := ECall (transport : nat) (remote : jsstr) | EResume (k : nat) (r : result bool).

Definition step (s : loader) (e : event) : option (loader * list output) :=
  match e with ECall t u => loadRemote s t u | EResume k r => resume s k r end.

Definition loader_init : loader := {| controller := None; transports := []; loads := ∅; calls := 0 |}.

Inductive run : list event -> loader -> list output -> Prop :=
| run_nil : run [] loader_init []
| run_snoc es e s s' out o : run es s out -> step s e = Some (s', o) -> run (es ++ [e]) s' (out ++ o).

(** No call starts while another one is suspended. *)
Inductive sequential : list event -> loader -> list output -> Prop :=
| seq_nil : sequential [] loader_init []
| seq_snoc es e s s' out o :
    sequential es s out -> step s e = Some (s', o) -> match e with ECall _ _ => loads s = ∅ | _ => True end ->
    sequential (es ++ [e]) s' (out ++ o).

(** ** One controller, and each page through its own connection *)

(** The call [k] of a history. *)
Definition asked (es : list event) : list (nat * jsstr) := omap (fun e => match e with ECall t u => Some (t, u) | _ => None end) es.

Definition controllers (out : list output) : list nat := omap (fun o => match o with Controller c _ => Some c | _ => None end) out.

#[export] Instance load_pc_eq_dec : EqDecision load_pc.
Proof. solve_decision. Defined.

Record orderly (es : list event) (s : loader) (out : list output) : Prop := {
  ord_calls : length (asked es) = calls s;
  ord_one : loads s = ∅ \/ exists k l, loads s = {[k := l]} /\ asked es !! k = Some (l_transport l, l_remote l)
                                      /\ (if bool_decide (l_at l = LWait) then controller s = Some 0%nat /\ transports s = [l_transport l]
                                          else controller s = None);
  ord_controller : match controller s with None => transports s = [] | Some c => c = 0%nat /\ length (transports s) = 1%nat end;
  ord_made : controllers out = match controller s with None => [] | Some _ => [0%nat] end;
  ord_went : forall k c t u, Went k c t u ∈ out -> asked es !! k = Some (t, u)
}.
Lemma asked_app es es' : asked (es ++ es') = asked es ++ asked es'.
Proof. apply omap_app. Qed.

Lemma controllers_app o o' : controllers (o ++ o') = controllers o ++ controllers o'.
Proof. apply omap_app. Qed.

(** The histories of an event that asks nothing. *)
Lemma orderly_same es s out e s' o :
  orderly es s out -> asked [e] = [] -> calls s' = calls s ->
  (loads s' = ∅ \/ exists k l, loads s' = {[k := l]} /\ asked es !! k = Some (l_transport l, l_remote l)
     /\ (if bool_decide (l_at l = LWait) then controller s' = Some 0%nat /\ transports s' = [l_transport l] else controller s' = None)) ->
  match controller s' with None => transports s' = [] | Some c => c = 0%nat /\ length (transports s') = 1%nat end ->
  controllers out ++ controllers o = match controller s' with None => [] | Some _ => [0%nat] end ->
  (forall k c t u, Went k c t u ∈ o -> asked es !! k = Some (t, u)) ->
  orderly (es ++ [e]) s' (out ++ o).
Proof.
  intros [H1 H2 H3 H4 H5] Ea Ec Hl Ht Hm Hw.
  constructor; rewrite ?asked_app, ?controllers_app, ?Ea, ?app_nil_r; [congruence|done|done|done|].
  intros k c t u [Hin|Hin]%elem_of_app; [by eapply H5|by eapply Hw].
Qed.

Lemma orderly_call es s out t u s' o :
  orderly es s out -> loads s = ∅ -> loadRemote s t u = Some (s', o) -> orderly (es ++ [ECall t u]) s' (out ++ o).
Proof.
  intros [H1 H2 H3 H4 H5] Hnone. unfold loadRemote. destruct (controller s) as [c|] eqn:Ec.
  - destruct H3 as [-> Hlen]. destruct (transports s) as [|t0 [|]] eqn:Et; try done. cbn. intros [= <- <-].
    constructor; rewrite ?asked_app; cbn; rewrite ?length_app; cbn; [lia| |done|by rewrite controllers_app, H4|].
    + left. by rewrite Hnone, delete_empty.
    + intros k c' t' u' [Hin|Hin]%elem_of_app; [apply lookup_app_l_Some; by eapply H5|].
      apply elem_of_cons in Hin as [?|Hin]; [done|]. apply elem_of_cons in Hin as [[= -> _ -> ->]|Hin].
      * rewrite lookup_app_r by lia. by rewrite H1, Nat.sub_diag.
      * by apply list_elem_of_singleton in Hin.
  - intros [= <- <-]. constructor; rewrite ?asked_app; cbn; rewrite ?length_app, ?app_nil_r; cbn; [lia| |done|done|].
    + right. eexists (calls s), _. split; [by rewrite Hnone, insert_empty|]. cbn. split; [|done].
      rewrite lookup_app_r by lia. by rewrite H1, Nat.sub_diag.
    + intros k c t' u' Hin. apply lookup_app_l_Some. by eapply H5.
Qed.

Lemma orderly_resume es s out k r s' o :
  orderly es s out -> resume s k r = Some (s', o) -> orderly (es ++ [EResume k r]) s' (out ++ o).
Proof.
  intros Ho. pose proof Ho as [H1 H2 H3 H4 H5]. unfold resume. destruct (loads s !! k) as [l|] eqn:Ek; [|done].
  assert (Hone : loads s = {[k := l]} /\ asked es !! k = Some (l_transport l, l_remote l)
                 /\ (if bool_decide (l_at l = LWait) then controller s = Some 0%nat /\ transports s = [l_transport l] else controller s = None)).
  { destruct H2 as [E|(k' & l' & E & Hrest)]; rewrite E in Ek; [by rewrite lookup_empty in Ek|]. apply lookup_singleton_Some in Ek as [<- <-]. done. }
  clear H2. destruct Hone as (E & Ha & Hat).
  assert (Hend : delete k (loads s) = ∅) by (by rewrite E, delete_singleton_eq).
  destruct r as [active|e].
  - destruct (l_at l) eqn:Eat; cbn in Hat.
    + intros [= <- <-]. apply (orderly_same _ s); cbn; try done; [|by rewrite app_nil_r|by intros ? ? ? ? ?%not_elem_of_nil].
      right. eexists k, _. rewrite E, insert_singleton_eq. by repeat split.
    + rewrite Hat in *. destruct active; intros [= <- <-]; apply (orderly_same _ s); cbn; try done.
      * right. eexists k, _. rewrite E, insert_singleton_eq, H3. by repeat split.
      * by rewrite H3.
      * by rewrite H4, H3.
      * intros ? ? ? ?. by intros ?%list_elem_of_singleton.
      * by left.
      * by rewrite Hat.
      * by rewrite Hat, H4.
      * intros ? ? ? ?. by intros ?%list_elem_of_singleton.
    + destruct Hat as [Hc Ht]. unfold open_frame. rewrite Hc, Ht. cbn. intros [= <- <-]. apply (orderly_same _ s); cbn; try done.
      * by left.
      * by rewrite Hc, H4, Hc, app_nil_r.
      * intros k' c t u [[= -> _ -> ->]|Hin]%elem_of_cons; [done|by apply list_elem_of_singleton in Hin].
  - destruct (l_at l) eqn:Eat; try done; intros [= <- <-]; (apply (orderly_same es s out _ _ _ Ho); cbn; [done|done|by left|done| |]);
      try (by rewrite app_nil_r); intros ? ? ? ?; by intros ?%list_elem_of_singleton.
Qed.

Lemma orderly_run es s out : sequential es s out -> orderly es s out.
Proof.
  induction 1 as [|es e s s' out o _ IH Hs Hq].
  - constructor; try done; [by left|by intros ? ? ? ? ?%not_elem_of_nil].
  - destruct e as [t u|k r]; cbn in Hs; [by eapply orderly_call|by eapply orderly_resume].
Qed.

(** While calls do not overlap there is at most one controller, and every remote page
    is opened through the transport it was asked for. *)
Theorem loads_use_own_transport (es : list event) (s : loader) (out : list output) :
  sequential es s out ->
  (length (controllers out) <= 1)%nat /\ forall k c t u, Went k c t u ∈ out -> asked es !! k = Some (t, u).
Proof.
  intros [H1 H2 H3 H4 H5]%orderly_run. split; [|done]. rewrite H4. by destruct (controller s); cbn; lia.
Qed.

Fixpoint exec (s : loader) (es : list event) : option (loader * list output) :=
  match es with
  | [] => Some (s, [])
  | e :: es' =>
      match step s e with
      | Some (s', o) => match exec s' es' with Some (s'', o') => Some (s'', o ++ o') | None => None end
      | None => None
      end
  end.

(** The same for a history without overlapping calls. *)
Fixpoint exec_seq (s : loader) (es : list event) : option (loader * list output) :=
  match es with
  | [] => Some (s, [])
  | e :: es' =>
      if match e with ECall _ _ => bool_decide (loads s = ∅) | _ => true end then
        match step s e with
        | Some (s', o) => match exec_seq s' es' with Some (s'', o') => Some (s'', o ++ o') | None => None end
        | None => None
        end
      else None
  end.

Lemma exec_seq_run es : forall es0 s0 out0 s out,
  sequential es0 s0 out0 -> exec_seq s0 es = Some (s, out) -> sequential (es0 ++ es) s (out0 ++ out).
Proof.
  induction es as [|e es IH]; intros es0 s0 out0 s out H0; cbn; [intros [= <- <-]; by rewrite !app_nil_r|].
  destruct (match e with ECall _ _ => _ | _ => _ end) eqn:Ee; [|done]. destruct (step s0 e) as [[s1 o]|] eqn:Es; [|done].
  destruct (exec_seq s1 es) as [[s2 o']|] eqn:E; [|done]. intros [= <- <-]. rewrite app_assoc.
  change (e :: es) with ([e] ++ es). rewrite app_assoc. eapply IH; [|exact E]. econstructor; [done|done|]. destruct e; [by apply bool_decide_eq_true in Ee|done].
Qed.

(** Two pages, one after the other. *)
Definition demo_loads : list event := [ECall 1 (js "a"); EResume 0 (Ok true); EResume 0 (Ok true); EResume 0 (Ok true); ECall 2 (js "b")].

Theorem loads_use_own_witness :
  exists s out, sequential demo_loads s out /\ Went 1 0 2 (js "b") ∈ out /\ asked demo_loads !! 1%nat = Some (2%nat, js "b").
Proof.
  destruct (exec_seq loader_init demo_loads) as [[s out]|] eqn:E; [|by vm_compute in E].
  pose proof (exec_seq_run demo_loads [] loader_init [] s out seq_nil E) as Hr. exists s, out. vm_compute in E. injection E as <- <-.
  split; [exact Hr|]. split; [apply list_elem_of_In; cbn; tauto|].
  apply (proj2 (loads_use_own_transport _ _ _ Hr) 1%nat 0%nat 2%nat (js "b")). apply list_elem_of_In. cbn. tauto.
Defined.

(** Calls that overlap mix their connections: the second call gives its transport to
    the controller while the first one waits for it, and the first page is then
    opened through the second transport. *)
Theorem overlapping_loads_mix :
  exists s, exec loader_init [ECall 1 (js "a"); EResume 0 (Ok true); EResume 0 (Ok true); ECall 2 (js "b"); EResume 0 (Ok true)]
            = Some (s, [Controller 0 1; SetTransport 0 2; Went 1 0 2 (js "b"); Loaded 1 (Ok tt); Went 0 0 2 (js "a"); Loaded 0 (Ok tt)]).
Proof. eexists. reflexivity. Qed.

(** A controller whose [wait] failed is kept: the next page is opened on it without waiting. *)
Theorem failed_controller_kept (e : jserror) :
  exists s, exec loader_init [ECall 1 (js "a"); EResume 0 (Ok true); EResume 0 (Ok true); EResume 0 (Throw e); ECall 2 (js "b")]
            = Some (s, [Controller 0 1; Loaded 0 (Throw e); SetTransport 0 2; Went 1 0 2 (js "b"); Loaded 1 (Ok tt)]).
Proof. eexists. reflexivity. Qed.
