(* ===== verification/Build.v ===== *)
(** * The build script ([web/scripts/build.ts])

    The inputs the build checks and the files it copies next to the bundle.
    [node:path]'s [join], [existsSync] and the bundler are parameters. *)

From stdpp Require Import base list numbers strings.
From Stdlib Require Import ZArith Lia.
From S2P Require Import Prelude JsString.
Local Open Scope Z_scope.

(** [import.meta.dir.replace(/[\\/]scripts$/, '')] *)
Definition root_of (dir : jsstr) : jsstr :=
  if endsWith dir (js "/scripts") || endsWith dir (js "\scripts") then slice_end dir 8 else dir.

(** [source.includes(':')] *)
Definition has_drive (source : jsstr) : bool := includes_char source 58.

Inductive action := MakeDirectory (path : jsstr) | Bundle | Copy (from to : jsstr).

Definition no_epoxy : jserror := ErrorMsg (js "Pinned Epoxy source artifact is missing from web/vendor/epoxy.").
Definition missing_input (source : jsstr) : jserror := ErrorMsg (js "Required build input is missing: " ++ source).

Section Build.
Context (join : list jsstr -> jsstr) (exists_file : jsstr -> bool).

Definition epoxy_module (root : jsstr) : jsstr := join [join [root; js "vendor"; js "epoxy"]; js "epoxy_client.js"].
Definition epoxy_wasm (root : jsstr) : jsstr := join [join [root; js "vendor"; js "epoxy"]; js "epoxy_client_bg.wasm"].
Definition output (root : jsstr) : jsstr := join [root; js "dist"].
Definition modules (root : jsstr) : jsstr := join [root; js "node_modules"].

Definition copies (root : jsstr) : list (jsstr * jsstr) :=
  [(js "public/index.html", js "index.html");
   (js "public/style.css", js "style.css");
   (epoxy_wasm root, js "epoxy_client_bg.wasm");
   (join [modules root; js "@mercuryworkshop/scramjet/dist/scramjet.js"], js "compat/scramjet/scramjet.js");
   (join [modules root; js "@mercuryworkshop/scramjet/dist/scramjet.wasm"], js "compat/scramjet/scramjet.wasm");
   (join [modules root; js "@mercuryworkshop/scramjet-controller/dist/controller.inject.js"], js "compat/controller/controller.inject.js");
   (join [modules root; js "@mercuryworkshop/scramjet-controller/dist/controller.api.js"], js "compat/controller/controller.api.js");
   (join [modules root; js "@mercuryworkshop/scramjet-controller/dist/controller.sw.js"], js "compat/controller/controller.lib.js");
   (js "src/controller-sw.js", js "controller.sw.js")].

Definition absolute (root source : jsstr) : jsstr := if has_drive source then source else join [root; source].

(** The loop over the copies: what was done, and the error that ends it. *)
Fixpoint copy_loop (root : jsstr) (l : list (jsstr * jsstr)) : list action * result unit :=
  match l with
  | [] => ([], Ok tt)
  | (source, destination) :: l' =>
      if exists_file (absolute root source) then
        let '(done, r) := copy_loop root l' in (Copy (absolute root source) (join [output root; destination]) :: done, r)
      else ([], Throw (missing_input source))
  end.

(** [bundled]: whether the bundler succeeds; otherwise the process exits. *)
Definition build (dir : jsstr) (bundled : bool) : list action * result unit :=
  let root := root_of dir in
  if negb (exists_file (epoxy_module root)) || negb (exists_file (epoxy_wasm root)) then ([], Throw no_epoxy)
  else
    let made := [MakeDirectory (join [output root; js "compat"; js "controller"]); MakeDirectory (join [output root; js "compat"; js "scramjet"]); Bundle] in
    if negb bundled then (made, Throw (PlatformError "exit"))
    else let '(done, r) := copy_loop root (copies root) in (made ++ done, r).

(** The loop copies up to the first input that is missing. *)
Lemma copy_loop_spec root l :
  match copy_loop root l with
  | (done, Ok _) => done = map (fun '(s, d) => Copy (absolute root s) (join [output root; d])) l /\ Forall (fun p => exists_file (absolute root (fst p)) = true) l
  | (done, Throw e) => exists l1 s d l2, l = l1 ++ (s, d) :: l2 /\ done = map (fun '(s, d) => Copy (absolute root s) (join [output root; d])) l1
                        /\ exists_file (absolute root s) = false /\ e = missing_input s
  end.
Proof.
  induction l as [|[s d] l IH]; cbn; [done|]. destruct (exists_file (absolute root s)) eqn:E.
  - destruct (copy_loop root l) as [done [r|e]].
    + destruct IH as [-> IH]. split; [done|]. by constructor.
    + destruct IH as (l1 & s' & d' & l2 & -> & -> & H1 & H2). by exists ((s, d) :: l1), s', d', l2.
  - by exists [], s, d, l.
Qed.

(** The build is complete or says what is missing: it ends well exactly when the
    Epoxy files are there, the bundler succeeds and every input exists, and then
    all of them have been copied; otherwise nothing behind the first missing input
    has been copied. *)
Theorem build_complete (dir : jsstr) (bundled : bool) :
  let root := root_of dir in
  match build dir bundled with
  | (done, Ok _) =>
      bundled = true /\ exists_file (epoxy_module root) = true /\ exists_file (epoxy_wasm root) = true
      /\ Forall (fun p => exists_file (absolute root (fst p)) = true
                          /\ Copy (absolute root (fst p)) (join [output root; snd p]) ∈ done) (copies root)
  | (done, Throw e) =>
      e = no_epoxy /\ done = [] \/ e = PlatformError "exit" /\ bundled = false
      \/ exists l1 s d l2, copies root = l1 ++ (s, d) :: l2 /\ e = missing_input s /\ exists_file (absolute root s) = false
         /\ forall x y, Copy x y ∈ done <-> exists s' d', (s', d') ∈ l1 /\ x = absolute root s' /\ y = join [output root; d']
  end.
Proof.
  intros root. unfold build. fold root. destruct (exists_file (epoxy_module root)) eqn:E1; cbn [negb orb]; [|by left].
  destruct (exists_file (epoxy_wasm root)) eqn:E2; cbn [negb]; [|by left]. destruct bundled; cbn [negb]; [|by right; left].
  pose proof (copy_loop_spec root (copies root)) as Hl. destruct (copy_loop root (copies root)) as [done [r|e]].
  - destruct Hl as [-> Hl]. split; [done|]. split; [done|]. split; [done|]. rewrite Forall_forall in *. intros [s d] Hp.
    split; [by apply (Hl (s, d))|]. apply elem_of_app. right. apply list_elem_of_fmap. by exists (s, d).
  - destruct Hl as (l1 & s & d & l2 & H1 & -> & H2 & ->). right. right. exists l1, s, d, l2. split; [done|]. split; [done|]. split; [done|].
    intros x y. rewrite elem_of_app, list_elem_of_fmap. split.
    + intros [Hin|([s' d'] & [= -> ->] & Hin)]; [|by exists s', d'].
      exfalso. repeat (apply elem_of_cons in Hin as [?|Hin]; [done|]). by apply not_elem_of_nil in Hin.
    + intros (s' & d' & Hin & -> & ->). right. by exists (s', d').
Qed.

(** Without a drive letter in the path the build cannot succeed: [epoxy_client_bg.wasm]
    is named by its absolute path, which has no colon, and is joined to the root once
    more.  [join] is POSIX's on two absolute paths, and the doubled path does not exist. *)
Theorem build_needs_drive (dir : jsstr) (bundled : bool) :
  let root := root_of dir in
  has_drive (epoxy_wasm root) = false -> join [root; epoxy_wasm root] = root ++ epoxy_wasm root ->
  exists_file (root ++ epoxy_wasm root) = false ->
  exists done e, build dir bundled = (done, Throw e).
Proof.
  intros root Hd Hj He. unfold build. fold root. destruct (negb _ || negb _); [by do 2 eexists|]. destruct (negb bundled); [by do 2 eexists|].
  pose proof (copy_loop_spec root (copies root)) as Hl. destruct (copy_loop root (copies root)) as [done [r|e]]; [|by do 2 eexists].
  destruct Hl as [_ Hl]. rewrite Forall_forall in Hl. specialize (Hl (epoxy_wasm root, js "epoxy_client_bg.wasm")).
  unfold absolute in Hl. cbn [fst] in Hl. rewrite Hd, Hj, He in Hl. discriminate Hl. unfold copies. apply elem_of_cons; right. apply elem_of_cons; right. by left.
Qed.

End Build.

(** A POSIX file system with the repository under [/srv/web], and [join] on it. *)
Definition posix_join (l : list jsstr) : jsstr :=
  match l with
  | a :: l => a ++ concat (map (fun b => match b with 47 :: _ => b | _ => 47 :: b end) l)
  | [] => []
  end.

Theorem build_needs_drive_witness :
  exists done e, build posix_join (fun p => negb (startsWith p (js "/srv/web/srv"))) (js "/srv/web/scripts") true = (done, Throw e).
Proof.
  apply (build_needs_drive posix_join (fun p => negb (startsWith p (js "/srv/web/srv"))) (js "/srv/web/scripts") true); vm_compute; reflexivity.
Defined.
