(* ===== verification/AppPolicy.v ===== *)
(** * Targets, host names and texts of the page ([web/src/app.ts])

    The pure functions of the page: the service named by the host, the URL of a
    temporary target, the synthetic URL of a service, and the texts it shows. *)

From stdpp Require Import base list numbers strings sets.
From Stdlib Require Import ZArith Lia.
From S2P Require Import Prelude JsString Utf8 Base64 Virtual Json ControlClient ConnectionPolicy Url TransportPolicy.
Local Open Scope Z_scope.

(** ** Data *)

Inductive Kind := Http | Https | Guacamole.
#[export] Instance kind_eq_dec : EqDecision Kind.
Proof. solve_decision. Defined.

Definition kind_text (k : Kind) : jsstr :=
  match k with Http => js "http" | Https => js "https" | Guacamole => js "guacamole" end.

Record Service := {
  id : jsstr;
  agent_id : jsstr;
  slug : jsstr;
  display_name : jsstr;
  s_kind : Kind;
  enabled : bool;
  temporary : option bool
}.

(** ** The service named by the host *)

Definition host_suffix : jsstr := js ".vpn.example.com".

Definition requestedSlug `{UnicodeCase} (hostname : jsstr) : option jsstr :=
  let host := toLowerCase hostname in
  if negb (endsWith host host_suffix) then None
  else
    let prefix := slice_end host (str_len host_suffix) in
    match prefix with
    | [] => None
    | _ => if includes_char prefix 46 then None else Some prefix
    end.

(** ** Temporary targets *)

(** [Number(s)] for a text of decimal digits; NaN otherwise. *)
Definition number_of_digits (s : jsstr) : option Z :=
  if forallb is_digit s then leading_digits s None else None.

(** [Number(u.port || fallback)] *)
Definition port_number (u : url) (fallback : Z) : option Z :=
  match get_port u with [] => Some fallback | p => number_of_digits p end.

Definition url_kind (u : url) : option Kind :=
  if str_eqb (get_protocol u) (js "https:") then Some Https
  else if str_eqb (get_protocol u) (js "http:") then Some Http
  else None.

Definition incomplete_url : jserror := ErrorMsg (js "请输入完整的 HTTP 或 HTTPS 内网 URL").
Definition invalid_port : jserror := ErrorMsg (js "目标端口无效").
Definition wrong_kind (k : Kind) : jserror :=
  ErrorMsg (js "该临时入口只接受不含凭据的 " ++ map upper_char (kind_text k) ++ js " URL").

Definition parseTemporaryURL `{UrlPlatform} (value : jsstr) (expectedKind : Kind) : result url :=
  match parse_url (trim value) None with
  | None => Throw incomplete_url
  | Some target =>
      match url_kind target with
      | None => Throw (wrong_kind expectedKind)
      | Some k =>
          if negb (bool_decide (k = expectedKind)) || negb (str_eqb (username target) [])
             || negb (str_eqb (password target) []) || str_eqb (host target) []
          then Throw (wrong_kind expectedKind)
          else
            match port_number target (if bool_decide (k = Https) then 443 else 80) with
            | None => Throw invalid_port
            | Some port => if (port <? 1) || (65535 <? port) then Throw invalid_port else Ok target
            end
      end
  end.

Definition stripIPv6Brackets (host : jsstr) : jsstr :=
  if startsWith host (js "[") && endsWith host (js "]") then slice_end (slice_from host 1) 1 else host.

(** The target sent to the Agent, built from the parsed URL. *)
Definition temporary_target (remote : url) : option TemporaryTarget :=
  let https := str_eqb (get_protocol remote) (js "https:") in
  match port_number remote (if https then 443 else 80) with
  | Some p => Some {| ControlClient.host := stripIPv6Brackets (host remote); ControlClient.port := p;
                      ControlClient.kind := if https then js "https" else js "http" |}
  | None => None
  end.

(** ** The synthetic URL *)

Definition no_tabs (s : list Z) : list Z :=
  List.filter (fun c => negb ((c =? 9) || (c =? 10) || (c =? 13))) s.

(** The setters of [pathname], [search] and [hash] on a special URL. *)
Definition set_pathname (u : url) (s : jsstr) : url :=
  let t := no_tabs (code_points s) in
  let t := match t with c :: t' => if is_slash c then t' else t | [] => [] end in
  with_path u (parse_segments (S (length t)) [] t).

Definition set_search (u : url) (s : jsstr) : url :=
  match s with
  | [] => with_query u None
  | _ =>
      let t := no_tabs (code_points s) in
      with_query u (Some (encode special_query_set (match t with 63 :: t' => t' | _ => t end)))
  end.

Definition set_hash (u : url) (s : jsstr) : url :=
  match s with
  | [] => with_fragment u None
  | _ =>
      let t := no_tabs (code_points s) in
      with_fragment u (Some (encode fragment_set (match t with 35 :: t' => t' | _ => t end)))
  end.

Definition virtualURL `{UnicodeCase} `{UrlPlatform} (service : Service) (remote : option url) : result url :=
  let? hostname := virtualHostname (id service) in
  let scheme := match s_kind service with Https => js "https:" | _ => js "http:" end in
  match parse_url (scheme ++ js "//" ++ hostname ++ js "/") None with
  | None => Throw (PlatformError "TypeError")
  | Some result =>
      Ok (match remote with
          | Some r => set_hash (set_search (set_pathname result (get_pathname r)) (get_search r)) (get_hash r)
          | None => result
          end)
  end.

(** ** Texts *)

Definition diagnostic_table : list (jsstr * jsstr) :=
  [(js "blocked", js "目标不在当前服务的允许范围内");
   (js "unavailable", js "Agent 当前无法完成该诊断");
   (js "busy", js "诊断繁忙，请稍后重试");
   (js "invalid_request", js "请求格式无效")].

(** [None] for an inherited member of [Object.prototype]. *)
Definition diagnosticMessage (code : jsstr) : option jsstr :=
  match literal_lookup diagnostic_table code with
  | Own text => Some text
  | Inherited => None
  | Undefined => Some (js "未知结果")
  end.

(** The text under the name of a service. *)
Definition service_kind_text (s : Service) : jsstr :=
  match s_kind s with Guacamole => js "远程桌面与 SSH" | k => map upper_char (kind_text k) end.

(** The options of the agent selector. *)
Fixpoint unique (l seen : list jsstr) : list jsstr :=
  match l with
  | [] => []
  | x :: r => if existsb (str_eqb x) seen then unique r seen else x :: unique r (seen ++ [x])
  end.

Definition temporary_agents (catalog : list Service) : list jsstr := unique (map agent_id catalog) [].

Definition agent_options (catalog : list Service) : list (jsstr * jsstr) :=
  let agents := temporary_agents catalog in
  imap (fun index agentID =>
          (agentID, if (length agents =? 1)%nat then js "OpenWrt Agent"
                    else js "OpenWrt Agent " ++ string_of_Z (Z.of_nat index + 1))) agents.

(** The rows of [renderStats]. *)
Definition rounded_text (r : rounded) : jsstr :=
  match r with Whole n => string_of_Z n | Infinite false => js "Infinity" | Infinite true => js "-Infinity" end.

Definition stats_rows (stats : DirectStats) : list (jsstr * jsstr) :=
  [(js "host candidate", if hostCandidate stats then js "已获得" else js "未获得");
   (js "srflx candidate", if srflxCandidate stats then js "已获得" else js "未获得");
   (js "本地 candidate", localType stats);
   (js "远端 candidate", remoteType stats);
   (js "传输", d_protocol stats);
   (js "往返延迟", match rttMS stats with None => js "暂不可用" | Some r => rounded_text r ++ js " ms" end);
   (js "DataChannel", js "open");
   (js "丢包", js "RTCDataChannel 无独立统计")].

(** ** The host names a service *)

(** The page serves one service exactly when its host is a single label under the
    fixed suffix, and the service is that label, in lower case. *)
Theorem requestedSlug_spec `{UnicodeCase} (hostname s : jsstr) :
  requestedSlug hostname = Some s <->
  toLowerCase hostname = s ++ host_suffix /\ s <> [] /\ 46 ∉ s.
Proof.
  unfold requestedSlug. destruct (endsWith (toLowerCase hostname) host_suffix) eqn:E; cbn [negb].
  - apply endsWith_spec in E as (t & E). rewrite E, slice_end_app.
    assert (Hinj : t ++ host_suffix = s ++ host_suffix <-> t = s) by (split; [apply app_inv_tail|congruence]).
    rewrite Hinj. destruct t as [|c t]; [by split; [done|intros (<- & ? & _)]|].
    destruct (includes_char (c :: t) 46) eqn:Ei.
    + apply includes_char_spec in Ei. split; [done|]. by intros (<- & _ & Hn).
    + split; [intros [= <-]|by intros (<- & _)]. split; [done|]. split; [done|].
      intros Hin. apply includes_char_spec in Hin. congruence.
  - split; [done|]. intros (Hs & _). assert (endsWith (toLowerCase hostname) host_suffix = true); [|congruence].
    apply endsWith_spec. by exists s.
Qed.

(** ** Temporary targets *)

Lemma port_number_value u fallback n :
  port_number u fallback = Some n -> n = match port u with Some p => p | None => fallback end.
Proof.
  unfold port_number, get_port. destruct (port u) as [p|]; [|congruence].
  destruct (Z.ltb_spec p 0) as [Hn|Hp].
  - unfold string_of_Z. rewrite (proj2 (Z.ltb_lt p 0)) by done. done.
  - pose proof (string_of_Z_nonempty p Hp). destruct (string_of_Z p) as [|c s] eqn:E; [done|]. rewrite <- E.
    unfold number_of_digits. rewrite leading_digits_print by done. case_match; congruence.
Qed.

Lemma url_kind_scheme u k : url_kind u = Some k -> scheme u = kind_text k /\ k <> Guacamole.
Proof.
  unfold url_kind, get_protocol. change (js "https:") with (js "https" ++ js ":"). change (js "http:") with (js "http" ++ js ":").
  destruct (str_eqb _ (js "https" ++ _)) eqn:E1; [|destruct (str_eqb _ (js "http" ++ _)) eqn:E2; [|done]];
    intros [= <-]; [apply str_eqb_eq in E1|apply str_eqb_eq in E2]; split; try done; by eapply app_inv_tail.
Qed.

Lemma parseTemporaryURL_spec `{UrlPlatform} (value : jsstr) (expected : Kind) (u : url) :
  parseTemporaryURL value expected = Ok u ->
  expected <> Guacamole /\ scheme u = kind_text expected
  /\ username u = [] /\ password u = [] /\ host u <> []
  /\ exists t, temporary_target u = Some t
     /\ effective_port u = Some (ControlClient.port t) /\ 1 <= ControlClient.port t <= 65535
     /\ ControlClient.kind t = kind_text expected
     /\ ControlClient.host t = stripIPv6Brackets (host u).
Proof.
  unfold parseTemporaryURL. destruct (parse_url _ _) as [v|]; [|done]. destruct (url_kind v) as [k|] eqn:Ek; [|done].
  destruct (_ || _) eqn:Eo; [done|]. bool_prop. destruct (port_number v _) as [n|] eqn:En; [|done].
  destruct ((n <? 1) || (65535 <? n)) eqn:Er; [done|]. bool_prop. intros [= ->]. subst k.
  destruct (url_kind_scheme _ _ Ek) as [Hs Hg]. apply str_eqb_eq in H2, H3. apply str_eqb_neq in H1.
  repeat (split; [done|]). unfold temporary_target.
  assert (Hh : str_eqb (get_protocol u) (js "https:") = bool_decide (expected = Https)).
  { revert Ek. unfold url_kind. destruct (str_eqb (get_protocol u) (js "https:")).
    - intros [= E]. by rewrite bool_decide_true.
    - destruct (str_eqb (get_protocol u) (js "http:")); [|done]. intros [= E]. by rewrite bool_decide_false by congruence. }
  rewrite Hh, En. eexists. split; [reflexivity|]. cbn.
  assert (Hp : effective_port u = Some n).
  { apply port_number_value in En. unfold effective_port. rewrite Hs. destruct (port u); [congruence|].
    destruct expected; rewrite En; vm_compute; reflexivity || done. }
  split; [done|]. split; [lia|]. split; [by destruct expected|done].
Qed.

(** What the temporary entry accepts is what the Agent is told: an accepted address
    has the entry's scheme, a host, no credentials and a port from 1 to 65535, and
    the target sent to the Agent names that scheme and the port a request to the
    address goes to. *)
Theorem parseTemporaryURL_target `{UrlPlatform} (value : jsstr) (expected : Kind) (u : url) :
  parseTemporaryURL value expected = Ok u ->
  expected <> Guacamole /\ scheme u = kind_text expected
  /\ username u = [] /\ password u = [] /\ host u <> []
  /\ exists t, temporary_target u = Some t
     /\ effective_port u = Some (ControlClient.port t) /\ 1 <= ControlClient.port t <= 65535
     /\ ControlClient.kind t = kind_text expected
     /\ ControlClient.host t = stripIPv6Brackets (host u).
Proof. apply parseTemporaryURL_spec. Qed.

Definition nas_url : jsstr := js " https://nas.lan:8443/ui ".

Theorem parseTemporaryURL_witness :
  exists u t, parseTemporaryURL (H := plain_platform) nas_url Https = Ok u
    /\ temporary_target u = Some t /\ effective_port u = Some (ControlClient.port t) /\ ControlClient.port t = 8443.
Proof.
  destruct (parseTemporaryURL (H := plain_platform) nas_url Https) as [u|] eqn:E; [|by vm_compute in E].
  destruct (parseTemporaryURL_target (H := plain_platform) nas_url Https u E) as (_ & _ & _ & _ & _ & t & Ht & Hp & _).
  exists u, t. split; [done|]. split; [done|]. split; [done|].
  vm_compute in E. injection E as <-. vm_compute in Ht. by injection Ht as <-.
Defined.

(** ** The synthetic URL *)

(** A host name of letters, digits, hyphens and dots. *)
Definition plain_name (h : jsstr) : Prop :=
  h <> [] /\ Forall (fun c => is_lower c || is_digit c || (c =? 45) || (c =? 46) = true) h.

Lemma plain_name_char c :
  is_lower c || is_digit c || (c =? 45) || (c =? 46) = true ->
  0x21 <= c <= 0x7E /\ c <> 47 /\ c <> 92 /\ c <> 63 /\ c <> 35 /\ c <> 64 /\ c <> 58 /\ c <> 91 /\ c <> 93.
Proof. unfold is_lower, is_digit. intros H. lia. Qed.

Lemma split_port_plain h : Forall (fun c => is_lower c || is_digit c || (c =? 45) || (c =? 46) = true) h -> split_port false h = (h, None).
Proof.
  induction 1 as [|c h Hc _ IH]; [done|]. cbn [split_port]. apply plain_name_char in Hc.
  rewrite (proj2 (Z.eqb_neq c 58)), (proj2 (Z.eqb_neq c 91)), (proj2 (Z.eqb_neq c 93)) by lia. cbn. by rewrite IH.
Qed.

Lemma parse_authority_plain `{UrlPlatform} sch h :
  plain_name h -> host_parse h = Some h ->
  parse_authority sch (h ++ [47]) = Some (mkUrl sch [] [] h None [[]] None None None).
Proof.
  intros [Hne Hh] Hp. unfold parse_authority.
  assert (Hs : span_until (fun c => is_slash c || (c =? 63) || (c =? 35)) (h ++ [47]) = (h, [47])).
  { apply span_until_app; [|done]. eapply Forall_impl; [exact Hh|]. intros c Hc%plain_name_char. unfold is_slash. lia. }
  rewrite Hs. unfold split_userinfo. rewrite span_until_all.
  2:{ apply List.Forall_rev. eapply Forall_impl; [exact Hh|]. intros c Hc%plain_name_char. cbv beta. lia. }
  cbv iota. rewrite split_port_plain by done. destruct h as [|c h]; [done|]. rewrite Hp. reflexivity.
Qed.

Lemma printable_b s : forallb (fun c => (0x21 <=? c) && (c <=? 0x7E)) s = true -> printable s.
Proof.
  intros H. apply List.Forall_forall. intros c Hc. rewrite forallb_forall in H. specialize (H c Hc). lia.
Qed.

(** The URL text the page builds is read as it is meant. *)
Lemma parse_service_url `{UrlPlatform} https h :
  plain_name h -> host_parse h = Some h ->
  parse_url ((if https : bool then js "https:" else js "http:") ++ js "//" ++ h ++ js "/") None
  = Some (mkUrl (if https then js "https" else js "http") [] [] h None [[]] None None None).
Proof.
  intros Hh Hp. unfold parse_url.
  assert (Hpr : printable ((if https then js "https:" else js "http:") ++ js "//" ++ h ++ js "/")).
  { apply Forall_app. split; [destruct https; by apply printable_b|]. apply Forall_app. split; [by apply printable_b|].
    apply Forall_app. split; [|by apply printable_b].
    destruct Hh as [_ Hh]. eapply Forall_impl; [exact Hh|]. intros c Hc%plain_name_char. lia. }
  rewrite code_points_printable, clean_printable by done.
  assert (Hd : drop_slashes (47 :: 47 :: h ++ [47]) = h ++ [47]).
  { cbn [drop_slashes]. change (is_slash 47) with true. cbv iota.
    destruct Hh as [Hne Hh]. destruct Hh as [|c h Hc Hh]; [done|]. cbn [app drop_slashes].
    apply plain_name_char in Hc. unfold is_slash. by rewrite (proj2 (Z.eqb_neq c 47)), (proj2 (Z.eqb_neq c 92)) by lia. }
  assert (Hsch : split_scheme ((if https then js "https:" else js "http:") ++ js "//" ++ h ++ js "/")
                 = Some (if https then js "https" else js "http", 47 :: 47 :: h ++ [47])) by (destruct https; reflexivity).
  rewrite Hsch. assert (Hsp : is_special (if https then js "https" else js "http") = true) by (by destruct https).
  rewrite Hsp, Hd. by apply parse_authority_plain.
Qed.

Lemma set_pathname_normal u r : normal_url r -> set_pathname u (get_pathname r) = with_path u (path r).
Proof.
  intros [Ho Hne Hs _ _]. unfold set_pathname, get_pathname. rewrite Ho.
  pose proof (join_path_printable _ Hs) as Hp. rewrite code_points_printable by done.
  assert (Hnt : no_tabs (join_path (path r)) = join_path (path r)).
  { unfold no_tabs. clear -Hp. induction Hp as [|c s Hc _ IH]; cbn; [done|].
    replace ((c =? 9) || (c =? 10) || (c =? 13)) with false by lia. cbn. by rewrite IH. }
  rewrite Hnt. destruct (path r) as [|s segs] eqn:E; [done|]. cbn [join_path]. change (is_slash 47) with true. cbv iota zeta.
  f_equal. pose proof (parse_segments_normal (s :: segs) ltac:(done) Hs (S (length (s ++ join_path segs))) []) as HP.
  cbn [join_path tail app] in HP. apply HP. clear. cbn. rewrite length_app.
  induction segs; cbn; [lia|]. rewrite length_app. lia.
Qed.

Lemma no_tabs_printable s : printable s -> no_tabs s = s.
Proof.
  unfold no_tabs. induction 1 as [|c s Hc _ IH]; cbn; [done|].
  replace ((c =? 9) || (c =? 10) || (c =? 13)) with false by lia. cbn. by rewrite IH.
Qed.

Lemma set_search_normal u r : normal_url r -> set_search u (get_search r) = with_query u (drop_empty (query r)).
Proof.
  intros [_ _ _ Hq _]. unfold set_search, get_search. destruct (query r) as [[|c q]|]; [done| |done].
  assert (Hp : printable (63 :: c :: q)) by (constructor; [lia|by apply (set_false_printable _ _ covers_query)]).
  rewrite code_points_printable, no_tabs_printable by done. cbv iota zeta. by rewrite encode_id.
Qed.

Lemma set_hash_normal u r : normal_url r -> set_hash u (get_hash r) = with_fragment u (drop_empty (fragment r)).
Proof.
  intros [_ _ _ _ Hf]. unfold set_hash, get_hash. destruct (fragment r) as [[|c q]|]; [done| |done].
  assert (Hp : printable (35 :: c :: q)) by (constructor; [lia|by apply (set_false_printable _ _ covers_fragment)]).
  rewrite code_points_printable, no_tabs_printable by done. cbv iota zeta. by rewrite encode_id.
Qed.

Lemma virtual_name `{UnicodeCase} i h : virtualHostname i = Ok h -> plain_name h.
Proof.
  intros E. pose proof (virtualHostname_forms i) as Hf. rewrite E in Hf. destruct Hf as (label & -> & _ & Hl). split; [done|].
  apply Forall_app. split; [repeat constructor|]. apply Forall_app. split.
  - apply List.Forall_forall. intros c Hc. rewrite forallb_forall in Hl. specialize (Hl c Hc). revert Hl.
    unfold is_label_char, is_lower, is_digit. lia.
  - repeat constructor.
Qed.

(** C30. The page asks Scramjet for the service's own synthetic origin and nothing else:
    scheme by the service's kind, host the virtual host name, no credentials, the
    default port, and, for a temporary target, exactly the path, query and
    fragment the user typed, whatever host they were typed with.  The browser's
    host parser is assumed to leave the virtual host name as it is. *)
Theorem virtualURL_confined `{UnicodeCase} `{UrlPlatform} (service : Service) (h : jsstr) (remote : option url) :
  virtualHostname (id service) = Ok h -> host_parse h = Some h ->
  match remote with Some r => normal_url r | None => True end ->
  virtualURL service remote
  = Ok (mkUrl (if bool_decide (s_kind service = Https) then js "https" else js "http") [] [] h None
          (match remote with Some r => path r | None => [[]] end) None
          (match remote with Some r => drop_empty (query r) | None => None end)
          (match remote with Some r => drop_empty (fragment r) | None => None end)).
Proof.
  intros Hv Hp Hr. unfold virtualURL. rewrite Hv. cbn [rbind].
  pose proof (parse_service_url (bool_decide (s_kind service = Https)) h (virtual_name _ _ Hv) Hp) as Hu.
  assert (Hs : match s_kind service with Https => js "https:" | _ => js "http:" end
               = if bool_decide (s_kind service = Https) then js "https:" else js "http:") by (by destruct (s_kind service)).
  rewrite Hs, Hu. destruct remote as [r|]; [|done].
  rewrite set_pathname_normal, set_search_normal, set_hash_normal by done. reflexivity.
Qed.

Definition sample_service : Service :=
  {| id := js "AAAAAAAAAAAAAAAAAAAAAA"; agent_id := js "a"; slug := js "nas"; display_name := js "NAS"; s_kind := Https;
     enabled := true; temporary := None |}.

Theorem virtualURL_witness :
  exists h, virtualHostname (H := ascii_case) (id sample_service) = Ok h
    /\ virtualURL (H := ascii_case) (H0 := plain_platform) sample_service None
       = Ok (mkUrl (js "https") [] [] h None [[]] None None None).
Proof.
  eexists. split; [vm_compute; reflexivity|].
  etransitivity; [apply (virtualURL_confined (H := ascii_case) (H0 := plain_platform) sample_service
    (js "s-aaaaaaaaaaaaaaaaaaaaaaaaaa.webvpn.invalid") None); vm_compute; exact I || reflexivity|].
  vm_compute. reflexivity.
Defined.

(** ** The port the Agent expects

    The Agent refuses a stream whose port is not the virtual port of the service. *)

Definition agent_virtualPort (k : Kind) (tls : bool) : Z :=
  if bool_decide (k = Https) || bool_decide (k = Guacamole) && tls then 443 else 80.

Lemma virtual_transport_port `{UnicodeCase} `{UrlPlatform} service h :
  virtualHostname (id service) = Ok h -> host_parse h = Some h ->
  exists u, virtualURL service None = Ok u
    /\ effective_port (agentTransportURL u) = Some (if bool_decide (s_kind service = Https) then 443 else 80).
Proof.
  intros Hv Hp. unfold virtualURL. rewrite Hv. cbn [rbind].
  pose proof (parse_service_url (bool_decide (s_kind service = Https)) h (virtual_name _ _ Hv) Hp) as Hu.
  assert (Hs : match s_kind service with Https => js "https:" | _ => js "http:" end
               = if bool_decide (s_kind service = Https) then js "https:" else js "http:") by (by destruct (s_kind service)).
  rewrite Hs, Hu. eexists. split; [reflexivity|]. by destruct (bool_decide (s_kind service = Https)).
Qed.

(** The browser dials the port the Agent serves: for every http and https service,
    and a Guacamole service without TLS, the transport URL of the service goes to
    the Agent's virtual port. *)
Theorem virtual_port_agrees `{UnicodeCase} `{UrlPlatform} (service : Service) (tls : bool) (h : jsstr) :
  virtualHostname (id service) = Ok h -> host_parse h = Some h ->
  (s_kind service = Guacamole -> tls = false) ->
  exists u, virtualURL service None = Ok u
    /\ effective_port (agentTransportURL u) = Some (agent_virtualPort (s_kind service) tls).
Proof.
  intros Hv Hp Hk. destruct (virtual_transport_port _ _ Hv Hp) as (u & Hu & He). exists u. split; [done|].
  rewrite He. unfold agent_virtualPort. destruct (s_kind service); [done|done|]. by rewrite Hk.
Qed.

Theorem virtual_port_witness :
  exists u, virtualURL (H := ascii_case) (H0 := plain_platform) sample_service None = Ok u
    /\ effective_port (agentTransportURL u) = Some (agent_virtualPort (s_kind sample_service) true).
Proof.
  apply (virtual_port_agrees (H := ascii_case) (H0 := plain_platform) sample_service true
           (js "s-aaaaaaaaaaaaaaaaaaaaaaaaaa.webvpn.invalid")); [vm_compute; reflexivity|vm_compute; reflexivity|done].
Defined.

(** A Guacamole service behind TLS cannot be reached: the browser, which does not
    know about the TLS setting, dials port 80, and the Agent serves only 443. *)
Theorem guacamole_tls_unreachable `{UnicodeCase} `{UrlPlatform} (service : Service) (h : jsstr) :
  virtualHostname (id service) = Ok h -> host_parse h = Some h -> s_kind service = Guacamole ->
  exists u, virtualURL service None = Ok u
    /\ effective_port (agentTransportURL u) = Some 80 /\ agent_virtualPort (s_kind service) true = 443.
Proof.
  intros Hv Hp Hk. destruct (virtual_transport_port _ _ Hv Hp) as (u & Hu & He). exists u. split; [done|].
  rewrite He, Hk. done.
Qed.

Definition guacamole_service : Service :=
  {| id := js "AAAAAAAAAAAAAAAAAAAAAA"; agent_id := js "a"; slug := js "rdp"; display_name := js "RDP"; s_kind := Guacamole;
     enabled := true; temporary := None |}.

Theorem guacamole_tls_witness :
  exists u, virtualURL (H := ascii_case) (H0 := plain_platform) guacamole_service None = Ok u
    /\ effective_port (agentTransportURL u) = Some 80 /\ agent_virtualPort (s_kind guacamole_service) true = 443.
Proof.
  apply (guacamole_tls_unreachable (H := ascii_case) (H0 := plain_platform) guacamole_service
           (js "s-aaaaaaaaaaaaaaaaaaaaaaaaaa.webvpn.invalid")); [vm_compute; reflexivity|vm_compute; reflexivity|done].
Defined.
