(* ===== verification/ApiClient.v ===== *)
(** * Requests to the controller ([web/src/connection.ts])

    The functions that ask the controller for the configuration, the services, the
    presence of an Agent and a temporary service: the request each of them sends and
    what it makes of the answer, with [encodeURIComponent].  A cast to a TypeScript
    type is a partial reader of the JSON value; a body of another shape, which the
    code does not look for, is outside the model. *)

From stdpp Require Import base list numbers strings.
From Stdlib Require Import ZArith Lia.
From S2P Require Import Prelude JsString Utf8 Json Binding Url ControllerSw ConnectionPolicy AppPolicy.
Local Open Scope Z_scope.

(** ** [encodeURIComponent] *)

Definition unreserved (c : Z) : bool :=
  is_upper c || is_lower c || is_digit c || includes_char (js "-_.!~*'()") c.

Definition percent_encode (c : Z) : jsstr := concat (map percent (utf8_encode c)).

(** [None] is the URIError of a lone surrogate. *)
Fixpoint encodeURIComponent (s : jsstr) : option jsstr :=
  match s with
  | [] => Some []
  | c :: r =>
      if unreserved c then option_map (cons c) (encodeURIComponent r)
      else if is_low_surrogate c then None
      else if is_high_surrogate c then
        match r with
        | d :: r' =>
            if is_low_surrogate d
            then option_map (app (percent_encode (0x10000 + (c - 0xD800) * 0x400 + (d - 0xDC00)))) (encodeURIComponent r')
            else None
        | [] => None
        end
      else option_map (app (percent_encode c)) (encodeURIComponent r)
  end.

(** ** Requests *)

Record api_request := { path : jsstr; post : option jsstr }.   (* a POST with its body, or a GET *)

Definition config_request : api_request := {| path := js "/api/v1/browser/config"; post := None |}.
Definition services_request : api_request := {| path := js "/api/v1/browser/services"; post := None |}.
Definition binding_request : api_request := {| path := js "/api/v1/browser/binding-codes"; post := Some (js "{}") |}.
Definition current_request : api_request := {| path := js "/api/v1/browser/temporary-services/current"; post := None |}.
Definition logout_request : api_request := {| path := js "/api/v1/browser/logout"; post := Some (js "{}") |}.

Record temporary_input := { i_agent : jsstr; i_name : jsstr; i_kind : jsstr }.

Definition temporary_body (i : temporary_input) : outgoing :=
  OObj [(js "agent_id", OStr (i_agent i)); (js "display_name", OStr (i_name i)); (js "kind", OStr (i_kind i))].

Definition createTemporaryService_request (i : temporary_input) : api_request :=
  {| path := js "/api/v1/browser/temporary-services"; post := Some (stringify (temporary_body i)) |}.

(** [None]: [encodeURIComponent] throws. *)
Definition agent_request (agentID : jsstr) : option api_request :=
  option_map (fun e => {| path := js "/api/v1/browser/agents/" ++ e ++ js "/status"; post := None |}) (encodeURIComponent agentID).

(** ** Answers *)

(** The error [api] throws; a truthy [error] that is not a text is printed by the engine. *)
Definition api_failure (e : api_error) : jserror :=
  match e with Server t | Status_text t => ErrorMsg t | ServerOther => PlatformError "Error" end.

(** [api<T>]: [fetch] may reject, and the body is taken at the type [T]. *)
Definition api_as {T} (cast : json -> option T) (r : result response) : option (result T) :=
  match r with
  | Throw e => Some (Throw e)
  | Ok r => match api r with inl v => option_map Ok (cast v) | inr e => Some (Throw (api_failure e)) end
  end.

Definition as_string (v : option json) : option jsstr := match v with Some (JStr s) => Some s | _ => None end.
Definition as_bool (v : option json) : option bool := match v with Some (JBool b) => Some b | _ => None end.
Definition as_list {T} (cast : json -> option T) (v : option json) : option (list T) :=
  match v with Some (JArr l) => mapM cast l | _ => None end.

Definition as_kind (v : option json) : option Kind :=
  match as_string v with
  | Some s => if str_eqb s (js "http") then Some Http else if str_eqb s (js "https") then Some Https
              else if str_eqb s (js "guacamole") then Some Guacamole else None
  | None => None
  end.

Definition as_service (v : json) : option Service :=
  match as_string (get_prop v (js "id")), as_string (get_prop v (js "agent_id")), as_string (get_prop v (js "slug")),
        as_string (get_prop v (js "display_name")), as_kind (get_prop v (js "kind")), as_bool (get_prop v (js "enabled")),
        get_prop v (js "temporary") with
  | Some i, Some a, Some s, Some d, Some k, Some e, t =>
      match t with
      | None => Some {| id := i; agent_id := a; slug := s; display_name := d; s_kind := k; enabled := e; temporary := None |}
      | Some (JBool b) => Some {| id := i; agent_id := a; slug := s; display_name := d; s_kind := k; enabled := e; temporary := Some b |}
      | Some _ => None
      end
  | _, _, _, _, _, _, _ => None
  end.

Definition browserConfig (r : result response) : option (result (list jsstr)) :=
  option_map (fun v => let? urls := v in let? _ := validateSTUN urls in Ok urls)
    (api_as (fun v => as_list (fun u => as_string (Some u)) (get_prop v (js "stun_urls"))) r).

Definition services (r : result response) : option (result (list Service)) :=
  api_as (fun v => as_list as_service (get_prop v (js "services"))) r.

Definition createTemporaryService (r : result response) : option (result Service) := api_as as_service r.
Definition currentTemporaryService (r : result response) : option (result Service) := api_as as_service r.
Definition agentOnline (r : result response) : option (result bool) := api_as (fun v => as_bool (get_prop v (js "online"))) r.

(** [parseBindingCode] looks at a body of any shape. *)
Definition createBindingCode `{DateParse} (r : result response) (now : Z) : result BindingCode :=
  match r with
  | Throw e => Throw e
  | Ok r => match api r with inl v => parseBindingCode v now | inr e => Throw (api_failure e) end
  end.

(** ** The encoding is undone by [decodeURIComponent] *)

Lemma hex_value_upper d : 0 <= d < 16 -> hex_value (hex_upper d) = Some d.
Proof.
  intros Hd. rewrite <- (Z2Nat.id d) by lia. generalize (Z.to_nat d) as n, (Z2Nat.id d (proj1 Hd)). intros n E.
  do 16 (destruct n as [|n]; [reflexivity|]). lia.
Qed.

Lemma read_octets_percent bs rest :
  Forall (fun b => 0 <= b < 256) bs -> read_octets (length bs) (concat (map percent bs) ++ rest) = Some (bs, rest).
Proof.
  induction 1 as [|b bs Hb _ IH]; [done|]. cbn [length map concat percent app read_octets].
  rewrite !hex_value_upper by (Z.to_euclidean_division_equations; lia). rewrite IH. do 3 f_equal. Z.to_euclidean_division_equations; lia.
Qed.

Lemma read_octets_first bs b rest :
  Forall (fun b => 0 <= b < 256) (b :: bs) -> exists r, read_octets 1 (concat (map percent (b :: bs)) ++ rest) = Some ([b], r).
Proof.
  intros H. inv H. cbn [map concat]. rewrite <- app_assoc. eexists. by apply (read_octets_percent [b]); constructor.
Qed.

Lemma utf8_point_encode c : scalar c -> utf8_point (utf8_encode c) = Some c /\ sequence_length (hd 0 (utf8_encode c)) = Some (length (utf8_encode c)).
Proof.
  intros Hc. unfold scalar in Hc. unfold utf8_encode, utf8_point, sequence_length, is_cont.
  repeat case_match; cbn [hd length] in *; bool_prop; simplify_eq/=; split; try done; try f_equal; Z.to_euclidean_division_equations; lia.
Qed.

Lemma decode_uri_percent f c rest :
  scalar c -> decode_uri (S f) (percent_encode c ++ rest) = option_map (app (utf16_encode c)) (decode_uri f rest).
Proof.
  intros Hc. pose proof (utf8_encode_bytes c (scalar_range c Hc)) as Hb. destruct (utf8_point_encode c Hc) as [Hp Hl].
  unfold percent_encode. pose proof (read_octets_percent _ rest Hb) as Hr.
  destruct (utf8_encode c) as [|b bs] eqn:E; [done|]. destruct (read_octets_first bs b rest Hb) as [r H1].
  change (concat (map percent (b :: bs)) ++ rest) with (37 :: hex_upper (b / 16) :: hex_upper (b mod 16) :: concat (map percent bs) ++ rest) in *.
  cbn [decode_uri]. change (37 =? 37) with true. cbv iota. rewrite H1. cbn [hd] in Hl. rewrite Hl, Hr, Hp. done.
Qed.

(** A character the encoding may put out: none of them ends a path segment or a path. *)
Definition component_char (c : Z) : Prop := unreserved c = true \/ c = 37.

Lemma percent_encode_chars c : 0 <= c < 0x110000 -> Forall component_char (percent_encode c).
Proof.
  intros Hc. unfold percent_encode. pose proof (utf8_encode_bytes c Hc) as Hb. induction Hb as [|b bs Hb _ IH]; cbn [map concat]; [constructor|].
  assert (Hh : forall d, 0 <= d < 16 -> component_char (hex_upper d)).
  { intros d Hd. left. unfold unreserved, hex_upper, is_upper, is_digit. destruct (d <? 10) eqn:E; bool_prop.
    - replace ((48 <=? 48 + d) && (48 + d <=? 57)) with true by lia. by rewrite !orb_true_r.
    - by replace ((65 <=? 55 + d) && (55 + d <=? 90)) with true by lia. }
  apply Forall_app. split; [|exact IH]. constructor; [by right|]. repeat (constructor; [apply Hh; Z.to_euclidean_division_equations; lia|]). constructor.
Qed.

Lemma component_char_spec c : component_char c -> c <> 47 /\ c <> 63 /\ c <> 35.
Proof. intros [H| ->]; [|lia]. repeat split; intros ->; vm_compute in H; discriminate. Qed.

Lemma utf16_pair c d :
  is_high_surrogate c = true -> is_low_surrogate d = true ->
  scalar (0x10000 + (c - 0xD800) * 0x400 + (d - 0xDC00)) /\ utf16_encode (0x10000 + (c - 0xD800) * 0x400 + (d - 0xDC00)) = [c; d].
Proof.
  unfold is_high_surrogate, is_low_surrogate, scalar, utf16_encode. intros H1 H2. bool_prop. split; [lia|].
  case_match; bool_prop; [lia|]. f_equal; [|f_equal]; Z.to_euclidean_division_equations; lia.
Qed.

Lemma utf16_single c : is_unit c -> is_high_surrogate c = false -> is_low_surrogate c = false -> scalar c /\ utf16_encode c = [c].
Proof.
  unfold is_unit, is_high_surrogate, is_low_surrogate, scalar, utf16_encode. intros Hc H1 H2. bool_prop. split; [lia|]. case_match; bool_prop; [done|lia].
Qed.

(** An encoded identifier is read back as it was, and stays inside its path segment:
    it has no slash, question mark or number sign. *)
Theorem encodeURIComponent_roundtrip (s t : jsstr) :
  Forall is_unit s -> encodeURIComponent s = Some t ->
  decodeURIComponent t = Some s /\ Forall (fun c => c <> 47 /\ c <> 63 /\ c <> 35) t.
Proof.
  intros Hs He. enough (H : (forall f, (length t <= f)%nat -> decode_uri f t = Some s) /\ Forall component_char t).
  { destruct H as [Hd Hc]. split; [by apply Hd|]. eapply Forall_impl; [exact Hc|]. intros c. apply component_char_spec. }
  revert t He. remember (length s) as n eqn:En. revert s Hs En. induction (lt_wf n) as [n _ IH]. intros s Hs -> t He.
  destruct s as [|c r]; [injection He as <-; split; [by intros []|constructor]|]. inv Hs. cbn [encodeURIComponent] in He.
  destruct (unreserved c) eqn:Eu.
  - destruct (encodeURIComponent r) as [t'|] eqn:Er; [|done]. injection He as <-. destruct (IH (length r) ltac:(cbn; lia) r H2 eq_refl t' Er) as [Hd Hc].
    split; [|constructor; [by left|done]]. intros [|f] Hf; cbn [length] in *; [lia|]. cbn [decode_uri].
    replace (c =? 37) with false by (symmetry; apply Z.eqb_neq; intros ->; discriminate). by rewrite Hd by lia.
  - assert (Hcase : exists p r' t', scalar p /\ c :: r = utf16_encode p ++ r' /\ (length r' < length (c :: r))%nat /\ encodeURIComponent r' = Some t' /\ t = percent_encode p ++ t').
    { destruct (is_low_surrogate c) eqn:El; [done|]. destruct (is_high_surrogate c) eqn:Eh.
      - destruct r as [|d r]; [done|]. destruct (is_low_surrogate d) eqn:Ed; [|done].
        destruct (encodeURIComponent r) as [t'|] eqn:Er; [|done]. injection He as <-. destruct (utf16_pair c d Eh Ed) as [Hp Ep].
        eexists _, r, t'. split; [exact Hp|]. rewrite Ep. repeat split; [cbn; lia|exact Er].
      - destruct (encodeURIComponent r) as [t'|] eqn:Er; [|done]. injection He as <-. destruct (utf16_single c H1 Eh El) as [Hp Ep].
        exists c, r, t'. split; [exact Hp|]. rewrite Ep. repeat split; [cbn; lia|exact Er]. }
    destruct Hcase as (p & r' & t' & Hp & E & Hl & Er & ->).
    assert (Hr' : Forall is_unit r') by (assert (Ha : Forall is_unit (c :: r)) by (by constructor); rewrite E in Ha; by apply Forall_app in Ha as [_ Ha]).
    destruct (IH _ Hl r' Hr' eq_refl t' Er) as [Hd Hc]. split.
    + intros [|f] Hf; rewrite length_app in Hf.
      * exfalso. pose proof (utf8_point_encode p Hp) as [Hu _]. unfold percent_encode in Hf. destruct (utf8_encode p); [done|]. cbn in Hf. lia.
      * rewrite decode_uri_percent, Hd by (done || (unfold percent_encode in Hf; destruct (utf8_encode p) eqn:Ep; [by destruct (utf8_point_encode p Hp) as [Hu _]; rewrite Ep in Hu|cbn in Hf; rewrite ?length_app in Hf; lia])).
        cbn. by rewrite E.
    + apply Forall_app. split; [|done]. apply percent_encode_chars. by apply scalar_range.
Qed.

(** The text is a letter, a slash, the euro sign and a surrogate pair. *)
Theorem encodeURIComponent_witness :
  decodeURIComponent (js "a%2F%E2%82%AC%F0%9F%98%80") = Some [97; 47; 8364; 55357; 56832]
  /\ Forall (fun c => c <> 47 /\ c <> 63 /\ c <> 35) (js "a%2F%E2%82%AC%F0%9F%98%80").
Proof.
  apply (encodeURIComponent_roundtrip [97; 47; 8364; 55357; 56832]).
  - repeat constructor; unfold is_unit; lia.
  - vm_compute. reflexivity.
Defined.
