(* ===== verification/Page.v ===== *)
(** * The page ([web/src/app.ts])

    The state of the page (its current connection, control client and the elements
    it shows) over the [DirectConnection] objects it has created.  A call of
    [connect] is an activation suspended at an [await]; the hooks a connection
    calls, and the end of its own [connect], act on the page. *)

From stdpp Require Import base list numbers strings sets gmap.
From Stdlib Require Import ZArith Lia.
From S2P Require Import Prelude JsString ConnectionPolicy DirectConnection AppPolicy.
Local Open Scope Z_scope.

(** ** State *)

(** The text of the status line: a message, or the fixed explanation of a failure
    with its detail, or a failed initialisation. *)
Inductive status_line := SText (s : jsstr) | SFailed (e : jserror) | SInit (e : jserror).

Inductive app_pc :=
| PAgent (service : Service) (stun : list jsstr) (temp : bool)   (* awaits [agentOnline] *)
| PDirect (i : nat)                                              (* awaits [direct.connect] *)
| PSession (i : nat)                                             (* it has resolved *)
| PRefused (e : jserror)                                         (* it has rejected *)
| PTransport (i : nat)                                           (* awaits [transport.init] *)
| PLoad (i : nat).                                               (* awaits [loadRemote] *)

Record page := {
  direct : option nat;
  objs : list conn;
  activeService : option Service;
  control : option nat;
  status : status_line;
  details : option DirectStats;
  frameHidden : bool;
  restartDisabled : bool;
  disconnectDisabled : bool;
  diagnosticsDisabled : bool;
  calls : gmap nat app_pc;
  issued : nat
}.

(** ** Functions of the page *)

Section WithEngine.
Context `{UnicodeCase}.

Definition set_objs (p : page) (l : list conn) : page :=
  {| direct := direct p; objs := l; activeService := activeService p; control := control p; status := status p;
     details := details p; frameHidden := frameHidden p; restartDisabled := restartDisabled p;
     disconnectDisabled := disconnectDisabled p; diagnosticsDisabled := diagnosticsDisabled p;
     calls := calls p; issued := issued p |}.

Definition setStatus (p : page) (s : status_line) : page :=
  {| direct := direct p; objs := objs p; activeService := activeService p; control := control p; status := s;
     details := details p; frameHidden := frameHidden p; restartDisabled := restartDisabled p;
     disconnectDisabled := disconnectDisabled p; diagnosticsDisabled := diagnosticsDisabled p;
     calls := calls p; issued := issued p |}.

Definition renderStats (p : page) (v : option DirectStats) : page :=
  {| direct := direct p; objs := objs p; activeService := activeService p; control := control p; status := status p;
     details := v; frameHidden := frameHidden p; restartDisabled := restartDisabled p;
     disconnectDisabled := disconnectDisabled p; diagnosticsDisabled := diagnosticsDisabled p;
     calls := calls p; issued := issued p |}.

Definition set_calls (p : page) (m : gmap nat app_pc) : page :=
  {| direct := direct p; objs := objs p; activeService := activeService p; control := control p; status := status p;
     details := details p; frameHidden := frameHidden p; restartDisabled := restartDisabled p;
     disconnectDisabled := disconnectDisabled p; diagnosticsDisabled := diagnosticsDisabled p;
     calls := m; issued := issued p |}.

(** [direct?.close()], whose only hook is [stats(null)]. *)
Definition close_direct (p : page) : page :=
  match direct p with
  | Some d =>
      match objs p !! d with
      | Some c => let '(f, out) := close (obj c) in
                  renderStats (set_objs p (<[d := update c f (tasks c) out]> (objs p))) None
      | None => p
      end
  | None => p
  end.

(** The elements a failure and a disconnection leave behind. *)
Definition shut (p : page) (d : option nat) (a : option Service) (s : status_line) : page :=
  {| direct := d; objs := objs p; activeService := a; control := None; status := s; details := details p;
     frameHidden := true; restartDisabled := true; disconnectDisabled := true; diagnosticsDisabled := true;
     calls := calls p; issued := issued p |}.

Definition failP2P (p : page) (e : jserror) : page :=
  let p := close_direct p in shut p (direct p) (activeService p) (SFailed e).

(** The listener of the disconnect button. *)
Definition disconnect (p : page) : page :=
  shut (close_direct p) None None (SText (js "已断开。")).

(** Hooks and the end of [DirectConnection.connect], as object [i] calls them. *)
Definition settle_call (p : page) (i : nat) (a : app_pc) : page :=
  set_calls p ((fun x => match x with PDirect j => if bool_decide (i = j) then a else x | _ => x end) <$> calls p).

Definition hook (p : page) (i : nat) (o : output) : page :=
  match o with
  | Status m => setStatus p (SText m)
  | Stats v => renderStats p v
  | Failed e => failP2P p e
  | ConnectDone => settle_call p i (PSession i)
  | ConnectFailed e => settle_call p i (PRefused e)
  | _ => p
  end.

Definition hooks (p : page) (i : nat) (out : list output) : page := fold_left (fun p o => hook p i o) out p.

(** An event of object [i], and what it calls. *)
Definition object_event (p : page) (i : nat) (e : event) : option page :=
  match objs p !! i with
  | Some c =>
      match step c e with
      | Some (c', out) => Some (hooks (set_objs p (<[i := c']> (objs p))) i out)
      | None => None
      end
  | None => None
  end.

(** [connect(service, stunURLs, temporary)] up to [agentOnline]. *)
Definition connect_begin (p : page) (service : Service) (stun : list jsstr) (temp : bool) : page :=
  let p := close_direct p in
  {| direct := direct p; objs := objs p; activeService := Some service; control := control p;
     status := SText (js "正在连接 " ++ display_name service ++ js "…"); details := details p;
     frameHidden := true; restartDisabled := true; disconnectDisabled := false;
     diagnosticsDisabled := diagnosticsDisabled p;
     calls := <[issued p := PAgent service stun temp]> (calls p); issued := S (issued p) |}.

Definition agent_offline : jserror := ErrorMsg (js "OpenWrt Agent 当前离线").

(** After [agentOnline]: a rejection, or an exception of the constructor, leaves the
    function, since the [try] starts behind it. *)
Definition connect_online (p : page) (k : nat) (service : Service) (stun : list jsstr) (temp : bool)
    (r : result bool) (made : option jserror) : option page :=
  match r with
  | Throw _ => Some (set_calls p (delete k (calls p)))
  | Ok false => Some (failP2P (set_calls p (delete k (calls p))) agent_offline)
  | Ok true =>
      match new_DirectConnection stun with
      | Throw _ => Some (set_calls p (delete k (calls p)))
      | Ok c =>
          let i := length (objs p) in
          let p := {| direct := Some i; objs := objs p ++ [c]; activeService := activeService p; control := control p;
                      status := status p; details := details p; frameHidden := frameHidden p;
                      restartDisabled := restartDisabled p; disconnectDisabled := disconnectDisabled p;
                      diagnosticsDisabled := diagnosticsDisabled p; calls := <[k := PDirect i]> (calls p); issued := issued p |} in
          object_event p i (EConnect (id service) temp made)
      end
  end.

(** The rest of the [try], and its [catch]. *)
Definition connect_continue (p : page) (k : nat) (a : app_pc) (r : result unit) : option page :=
  match a, r with
  | PSession i, Ok _ =>
      Some {| direct := direct p; objs := objs p; activeService := activeService p; control := Some i; status := status p;
              details := details p; frameHidden := frameHidden p; restartDisabled := restartDisabled p;
              disconnectDisabled := disconnectDisabled p; diagnosticsDisabled := false;
              calls := <[k := PTransport i]> (calls p); issued := issued p |}
  | PTransport i, Ok _ => Some (set_calls p (<[k := PLoad i]> (calls p)))
  | PLoad i, Ok _ =>
      Some {| direct := direct p; objs := objs p; activeService := activeService p; control := control p; status := status p;
              details := details p; frameHidden := false; restartDisabled := false;
              disconnectDisabled := disconnectDisabled p; diagnosticsDisabled := diagnosticsDisabled p;
              calls := delete k (calls p); issued := issued p |}
  | PRefused e, Ok _ => Some (failP2P (set_calls p (delete k (calls p))) e)
  | (PTransport _ | PLoad _), Throw e => Some (failP2P (set_calls p (delete k (calls p))) e)
  | _, _ => None
  end.

(** ** Events *)

Inductive page_event :=
| EvConnect (service : Service) (stun : list jsstr) (temp : bool)
| EvAgent (k : nat) (r : result bool) (made : option jserror)
| EvContinue (k : nat) (r : result unit)
| EvObject (i : nat) (e : event)
| EvRestart
| EvDisconnect
| EvUnload
| EvStatus (s : status_line)   (* [setStatus] and [fail], outside [connect] *)
| EvFail (e : jserror).        (* [failP2P], outside [connect] *)

(** The calls of a connection's methods are made by the page only. *)
Definition internal (e : event) : bool :=
  match e with EConnect _ _ _ | ERestart | EClose => false | _ => true end.

Definition page_step (p : page) (e : page_event) : option page :=
  match e with
  | EvConnect service stun temp => Some (connect_begin p service stun temp)
  | EvAgent k r made =>
      match calls p !! k with
      | Some (PAgent service stun temp) => connect_online p k service stun temp r made
      | _ => None
      end
  | EvContinue k r =>
      match calls p !! k with Some a => connect_continue p k a r | None => None end
  | EvObject i e => if internal e then object_event p i e else None
  | EvRestart => match direct p with Some d => object_event p d ERestart | None => Some p end
  | EvDisconnect => Some (disconnect p)
  | EvUnload => Some (close_direct p)
  | EvStatus s => Some (setStatus p s)
  | EvFail e => Some (failP2P p e)
  end.

Definition page_init : page :=
  {| direct := None; objs := []; activeService := None; control := None; status := SText (js "正在检查浏览器与 Agent…"); details := None;
     frameHidden := true; restartDisabled := true; disconnectDisabled := true; diagnosticsDisabled := true;
     calls := ∅; issued := 0 |}.

Inductive page_run : list page_event -> page -> Prop :=
| page_nil : page_run [] page_init
| page_snoc es e p p' : page_run es p -> page_step p e = Some p' -> page_run (es ++ [e]) p'.

(** ** What the elements say *)

(** The diagnostics are enabled exactly while there is a control client, the frame
    is shown exactly while the restart button is enabled, and the current
    connection is one the page has created. *)
Record consistent (p : page) : Prop := {
  con_diag : diagnosticsDisabled p = true <-> control p = None;
  con_frame : frameHidden p = restartDisabled p;
  con_direct : forall d, direct p = Some d -> is_Some (objs p !! d)
}.

Lemma consistent_same p q :
  consistent p -> diagnosticsDisabled q = diagnosticsDisabled p -> control q = control p ->
  frameHidden q = frameHidden p -> restartDisabled q = restartDisabled p -> direct q = direct p ->
  (length (objs q) = length (objs p)) -> consistent q.
Proof.
  intros [H1 H2 H3] E1 E2 E3 E4 E5 E6. constructor; [by rewrite E1, E2|by rewrite E3, E4|].
  intros d. rewrite E5. intros Hd%H3. apply lookup_lt_is_Some. rewrite E6. by apply lookup_lt_is_Some.
Qed.

Lemma close_direct_keeps p :
  let q := close_direct p in
  diagnosticsDisabled q = diagnosticsDisabled p /\ control q = control p /\ frameHidden q = frameHidden p
  /\ restartDisabled q = restartDisabled p /\ direct q = direct p /\ length (objs q) = length (objs p).
Proof.
  cbv zeta. unfold close_direct. destruct (direct p) as [d|] eqn:E; [|done].
  destruct (objs p !! d) as [c|]; [|done]. cbn. by rewrite E, length_insert.
Qed.

Lemma consistent_close p : consistent p -> consistent (close_direct p).
Proof. intros Hc. destruct (close_direct_keeps p) as (?&?&?&?&?&?). by apply (consistent_same p). Qed.

Lemma consistent_failP2P p e : consistent p -> consistent (failP2P p e).
Proof. intros Hc%consistent_close. unfold failP2P, shut. constructor; cbn; [done|done|]. apply Hc. Qed.

Lemma consistent_hook p i o : consistent p -> consistent (hook p i o).
Proof. intros Hc. destruct o; cbn [hook]; try done; try (by apply (consistent_same p)). by apply consistent_failP2P. Qed.

Lemma consistent_hooks i out : forall p, consistent p -> consistent (hooks p i out).
Proof. induction out as [|o out IH]; intros p Hc; cbn; [done|]. apply IH. by apply consistent_hook. Qed.

Lemma consistent_object p i e q : consistent p -> object_event p i e = Some q -> consistent q.
Proof.
  intros Hc. unfold object_event. destruct (objs p !! i) as [c|]; [|done]. destruct (step c e) as [[c' out]|]; [|done].
  intros [= <-]. apply consistent_hooks. apply (consistent_same p); try done. cbn. by rewrite length_insert.
Qed.

Lemma consistent_online p k service stun temp r made q :
  consistent p -> connect_online p k service stun temp r made = Some q -> consistent q.
Proof.
  intros Hc. unfold connect_online. destruct r as [[]|e].
  - destruct (new_DirectConnection stun) as [c|]; [|intros [= <-]; by apply (consistent_same p)].
    apply consistent_object. destruct Hc as [H1 H2 H3]. constructor; cbn; [done|done|].
    intros d [= <-]. apply lookup_lt_is_Some. rewrite length_app. cbn. lia.
  - intros [= <-]. apply consistent_failP2P. by apply (consistent_same p).
  - intros [= <-]. by apply (consistent_same p).
Qed.

Lemma consistent_continue p k a r q : consistent p -> connect_continue p k a r = Some q -> consistent q.
Proof.
  intros Hc. unfold connect_continue.
  destruct a; destruct r; try discriminate; intros [= <-]; try (apply consistent_failP2P); try (by apply (consistent_same p));
    destruct Hc as [H1 H2 H3]; by constructor.
Qed.

Lemma consistent_step p e q : consistent p -> page_step p e = Some q -> consistent q.
Proof.
  intros Hc. destruct e as [service stun temp|k r made|k r|i e| | | |s|e]; cbn [page_step].
  - intros [= <-]. pose proof (consistent_close p Hc) as [H1 H2 H3]. by constructor.
  - destruct (calls p !! k) as [[]|]; try done. by apply consistent_online.
  - destruct (calls p !! k) as [a|]; [|done]. by apply consistent_continue.
  - destruct (internal e); [|done]. by apply consistent_object.
  - destruct (direct p) as [d|]; [by apply consistent_object|by intros [= <-]].
  - intros [= <-]. by constructor.
  - intros [= <-]. by apply consistent_close.
  - intros [= <-]. by apply (consistent_same p).
  - intros [= <-]. by apply consistent_failP2P.
Qed.

(** ** Calls that have ended stay ended *)

Definition later (p q : page) : Prop :=
  (issued p <= issued q)%nat /\ forall k, (k < issued p)%nat -> calls p !! k = None -> calls q !! k = None.

Lemma later_same p q : calls q = calls p -> issued q = issued p -> later p q.
Proof. intros E1 E2. split; [lia|]. by rewrite E1. Qed.

Lemma later_trans p q r : later p q -> later q r -> later p r.
Proof. intros [H1 H2] [H3 H4]. split; [lia|]. intros k Hk Hn. apply H4; [lia|by apply H2]. Qed.

Lemma close_direct_calls p : calls (close_direct p) = calls p /\ issued (close_direct p) = issued p.
Proof. unfold close_direct. destruct (direct p) as [d|]; [|done]. by destruct (objs p !! d). Qed.

Lemma later_failP2P p e : later p (failP2P p e).
Proof. apply later_same; cbn; apply close_direct_calls. Qed.

Lemma later_hook p i o : later p (hook p i o).
Proof.
  assert (Hs : forall a, later p (settle_call p i a)) by (intros a; split; [done|]; intros k _ Hk; cbn; by rewrite lookup_fmap, Hk).
  destruct o; cbn [hook]; try (by apply later_same); [apply later_failP2P|apply Hs..].
Qed.

Lemma later_hooks i out : forall p, later p (hooks p i out).
Proof. induction out as [|o out IH]; intros p; cbn; [by apply later_same|]. eapply later_trans; [apply later_hook|apply IH]. Qed.

Lemma later_object p i e q : object_event p i e = Some q -> later p q.
Proof.
  unfold object_event. destruct (objs p !! i) as [c|]; [|done]. destruct (step c e) as [[c' out]|]; [|done].
  intros [= <-]. eapply later_trans; [|apply later_hooks]. by apply later_same.
Qed.

Lemma later_set p q k (m : gmap nat app_pc) :
  calls q = m -> issued q = issued p -> (forall j, j <> k -> m !! j = calls p !! j) -> (calls p !! k <> None \/ m !! k = None) -> later p q.
Proof.
  intros <- E Hm Hk. split; [lia|]. intros j _ Hj. destruct (decide (j = k)) as [->|Hne]; [by destruct Hk|]. by rewrite Hm.
Qed.

Lemma later_delete p k : later p (set_calls p (delete k (calls p))).
Proof. apply (later_set _ _ k (delete k (calls p))); [done|done|intros; by rewrite lookup_delete_ne|right; apply lookup_delete_eq]. Qed.

Lemma later_online p k a service stun temp r made q :
  calls p !! k = Some a -> connect_online p k service stun temp r made = Some q -> later p q.
Proof.
  intros Hk. unfold connect_online. destruct r as [[]|e].
  - destruct (new_DirectConnection stun) as [c|]; [|intros [= <-]; apply later_delete].
    intros Hq%later_object. eapply later_trans; [|exact Hq].
    apply (later_set _ _ k (<[k := PDirect (length (objs p))]> (calls p))); [done|done|intros; by rewrite lookup_insert_ne|left; by rewrite Hk].
  - intros [= <-]. eapply later_trans; [apply later_delete|apply later_failP2P].
  - intros [= <-]. apply later_delete.
Qed.

Lemma later_continue p k a r q : calls p !! k = Some a -> connect_continue p k a r = Some q -> later p q.
Proof.
  intros Hk. unfold connect_continue. destruct a; destruct r; try discriminate; intros [= <-];
    try (by eapply later_trans; [apply later_delete|apply later_failP2P]);
    (eapply (later_set _ _ k); [reflexivity|done|cbn; intros; by rewrite ?lookup_insert_ne, ?lookup_delete_ne|left; by rewrite Hk]).
Qed.

Lemma later_step p e q : page_step p e = Some q -> later p q.
Proof.
  destruct e as [service stun temp|k r made|k r|i e| | | |s|e]; cbn [page_step].
  - intros [= <-]. destruct (close_direct_calls p) as [E1 E2]. split; cbn; rewrite ?E1, ?E2; [lia|].
    intros k Hk Hn. rewrite lookup_insert_ne by lia. done.
  - destruct (calls p !! k) as [[]|] eqn:E; try done. by eapply later_online.
  - destruct (calls p !! k) as [a|] eqn:E; [|done]. by apply later_continue.
  - destruct (internal e); [|done]. apply later_object.
  - destruct (direct p) as [d|]; [apply later_object|intros [= <-]; by apply later_same].
  - intros [= <-]. apply later_same; cbn; apply close_direct_calls.
  - intros [= <-]. apply later_same; apply close_direct_calls.
  - intros [= <-]. by apply later_same.
  - intros [= <-]. apply later_failP2P.
Qed.

End WithEngine.

Lemma consistent_run `{UnicodeCase} es p : page_run es p -> consistent p.
Proof. induction 1 as [|es e p p' _ IH Hs]; [by constructor|]. by eapply consistent_step. Qed.

(** C31. The page's controls tell the truth about each other in every reachable state:
    the diagnostic buttons are enabled exactly while there is a control client,
    the remote frame is shown exactly while the restart button is enabled, and the
    current connection is one of those created.  (The disconnect button is not part of
    it: [shown_without_disconnect].) *)
Theorem page_consistent `{UnicodeCase} (es : list page_event) (p : page) :
  page_run es p ->
  (diagnosticsDisabled p = false <-> exists i, control p = Some i)
  /\ (frameHidden p = false <-> restartDisabled p = false)
  /\ (forall d, direct p = Some d -> (d < length (objs p))%nat).
Proof.
  intros [H1 H2 H3]%consistent_run. split; [|split; [by rewrite H2|]].
  - destruct (diagnosticsDisabled p); split; try done.
    + intros [i Hi]. rewrite (proj1 H1 eq_refl) in Hi. done.
    + intros _. destruct (control p) as [i|]; [by exists i|]. by specialize (proj2 H1 eq_refl).
  - intros d Hd%H3. by apply lookup_lt_is_Some.
Qed.

Fixpoint page_exec `{UnicodeCase} (p : page) (es : list page_event) : option page :=
  match es with
  | [] => Some p
  | e :: es' => match page_step p e with Some p' => page_exec p' es' | None => None end
  end.

Lemma page_exec_run `{UnicodeCase} es : forall es0 p0 p, page_run es0 p0 -> page_exec p0 es = Some p -> page_run (es0 ++ es) p.
Proof.
  induction es as [|e es IH]; intros es0 p0 p H0; cbn.
  - intros [= <-]. by rewrite app_nil_r.
  - destruct (page_step p0 e) as [p1|] eqn:E; [|done]. intros Hx.
    change (e :: es) with ([e] ++ es). rewrite app_assoc. eapply IH; [|exact Hx]. by econstructor.
Qed.

(** A failure is final for the current connection: whatever the page was doing, it
    ends with the connection closed, its peer, session and capability gone, no
    control client, nothing shown and nothing to press, and the reason on the
    status line. *)
Theorem failure_is_final `{UnicodeCase} (es : list page_event) (p : page) (e : jserror) :
  page_run es p ->
  let q := failP2P p e in
  (forall d, direct q = Some d -> exists c, objs q !! d = Some c /\ closed (obj c) = true /\ peer (obj c) = None
                                     /\ capability (obj c) = [] /\ browserSessionID (obj c) = [])
  /\ control q = None /\ diagnosticsDisabled q = true /\ frameHidden q = true /\ restartDisabled q = true
  /\ disconnectDisabled q = true /\ status q = SFailed e.
Proof.
  intros Hr q. split; [|done]. intros d. unfold q, failP2P. cbn.
  destruct (consistent_run _ _ Hr) as [_ _ H3]. unfold close_direct. destruct (direct p) as [d'|] eqn:E; [|by rewrite E].
  destruct (H3 d' eq_refl) as [c Hc]. rewrite Hc. cbn. rewrite E. intros [= <-].
  eexists. split; [apply list_lookup_insert_eq; by eapply lookup_lt_Some|]. done.
Qed.

(** ** Concrete runs *)

Definition stun_urls : list jsstr := [js "stun:stun.example.com:3478"].

(** The replies that carry a connection of object [i] from its offer to the end, or
    up to the first poll for an answer. *)
Definition offer_and_post : list event :=
  map (EResume 0) [ROk; ROk; RLocal (Some host_offer); ROk; RCreated (js "c1") (js "s1") (js "cap")].
Definition answer_and_finish : list event :=
  map (EResume 0) [RAnswered host_answer; ROk; ROk; ROk; ROk; RReport host_report; ROk].

(** The user picks one service and, while it is connecting, another one, which is
    connected and shown. *)
Definition demo_two : list page_event :=
  [EvConnect sample_service stun_urls false; EvAgent 0 (Ok true) None]
  ++ map (EvObject 0) offer_and_post
  ++ [EvConnect guacamole_service stun_urls false; EvAgent 1 (Ok true) None]
  ++ map (EvObject 1) (offer_and_post ++ answer_and_finish)
  ++ [EvContinue 1 (Ok tt); EvContinue 1 (Ok tt); EvContinue 1 (Ok tt)].

(** The first connection's poll is answered: it is still pending. *)
Definition demo_stale : list page_event :=
  map (EvObject 0) [EResume 0 RPending; ETick 500; EResume 0 ROk; EResume 0 ROk] ++ [EvContinue 0 (Ok tt)].

Theorem page_consistent_witness :
  exists p, page_run (H := ascii_case) demo_two p /\ frameHidden p = false
    /\ (frameHidden p = false <-> restartDisabled p = false).
Proof.
  destruct (page_exec (H := ascii_case) page_init demo_two) as [p|] eqn:E; [|by vm_compute in E].
  pose proof (page_exec_run demo_two [] page_init p page_nil E) as Hr. exists p. split; [exact Hr|].
  split; [vm_compute in E; injection E as <-; reflexivity|].
  exact (proj1 (proj2 (page_consistent (H := ascii_case) _ _ Hr))).
Defined.

Theorem failure_is_final_witness :
  exists p, page_run (H := ascii_case) demo_two p /\ frameHidden (failP2P p agent_offline) = true
    /\ status (failP2P p agent_offline) = SFailed agent_offline.
Proof.
  destruct (page_exec (H := ascii_case) page_init demo_two) as [p|] eqn:E; [|by vm_compute in E].
  pose proof (page_exec_run demo_two [] page_init p page_nil E) as Hr. exists p. split; [exact Hr|].
  destruct (failure_is_final (H := ascii_case) _ _ agent_offline Hr) as (_ & _ & _ & H1 & _ & _ & H2). by split.
Defined.

(** A superseded connection takes down its successor: the user switches to another
    service while the first is connecting; the second is connected and shown, and
    then the first one's wait for an answer ends because it was closed.  Its
    failure closes the second connection and hides its frame, although nothing
    happened to it. *)
Theorem stale_failure_closes_successor :
  exists p q, page_run (H := ascii_case) demo_two p /\ page_run (H := ascii_case) (demo_two ++ demo_stale) q
    /\ direct p = Some 1%nat /\ frameHidden p = false
    /\ (exists c, objs p !! 1%nat = Some c /\ closed (obj c) = false)
    /\ direct q = Some 1%nat /\ frameHidden q = true /\ status q = SFailed answer_timeout
    /\ (exists c, objs q !! 1%nat = Some c /\ closed (obj c) = true).
Proof.
  destruct (page_exec (H := ascii_case) page_init demo_two) as [p|] eqn:E; [|by vm_compute in E].
  destruct (page_exec (H := ascii_case) p demo_stale) as [q|] eqn:E2; [|exfalso; vm_compute in E; injection E as <-; by vm_compute in E2].
  pose proof (page_exec_run demo_two [] page_init p page_nil E) as Hr.
  pose proof (page_exec_run demo_stale demo_two p q Hr E2) as Hr2.
  exists p, q. split; [exact Hr|]. split; [exact Hr2|]. clear Hr Hr2.
  vm_compute in E. injection E as <-. vm_compute in E2. injection E2 as <-.
  repeat split; eexists; (split; [reflexivity|done]).
Qed.

(** Disconnecting can be undone by an answer on its way: the user picks a service
    and disconnects while the Agent's status is being fetched; when it arrives, a
    connection is opened all the same, and becomes the current one. *)
Theorem disconnect_overridden `{UnicodeCase} (service : Service) :
  exists p q, page_run [EvConnect service stun_urls false; EvDisconnect] p /\ direct p = None
    /\ page_step p (EvAgent 0 (Ok true) None) = Some q
    /\ direct q = Some 0%nat
    /\ exists c, objs q !! 0%nat = Some c /\ peer (obj c) = Some 0%nat /\ closed (obj c) = false.
Proof.
  eexists _, _. split.
  - apply (page_exec_run [EvConnect service stun_urls false; EvDisconnect] [] page_init); [constructor|reflexivity].
  - split; [done|]. split; [reflexivity|]. split; [done|]. eexists. split; [reflexivity|]. done.
Qed.

(** It is then shown with no way to end it: the frame is there and the disconnect button, which only the start of a
    connection enables, is still disabled. *)
Definition demo_undone : list page_event :=
  [EvConnect sample_service stun_urls false; EvDisconnect; EvAgent 0 (Ok true) None]
  ++ map (EvObject 0) (offer_and_post ++ answer_and_finish)
  ++ [EvContinue 0 (Ok tt); EvContinue 0 (Ok tt); EvContinue 0 (Ok tt)].

Theorem shown_without_disconnect :
  exists p, page_run (H := ascii_case) demo_undone p /\ frameHidden p = false /\ disconnectDisabled p = true
    /\ exists c, objs p !! 0%nat = Some c /\ closed (obj c) = false.
Proof.
  destruct (page_exec (H := ascii_case) page_init demo_undone) as [p|] eqn:E; [|by vm_compute in E].
  exists p. split; [exact (page_exec_run demo_undone [] page_init p page_nil E)|].
  vm_compute in E. injection E as <-. repeat split. eexists. by split.
Qed.
