(* ===== verification/BindingPanel.v ===== *)
(** * The binding code panel ([web/src/app.ts])

    The code shown to the user, its expiry timer and the button that asks for a
    new one.  Requests may overlap, since hiding the page enables the button
    again; [window.setTimeout] keeps a signed 32-bit delay. *)

From stdpp Require Import base list numbers strings sets gmap.
From Stdlib Require Import ZArith Lia.
From S2P Require Import Prelude JsString Json Binding.
Local Open Scope Z_scope.

(** The code shown, with the expiry it was shown with. *)
Record panel := {
  shown : option BindingCode;
  message : option jserror;     (* an error in the place of the expiry *)
  resultHidden : bool;
  createDisabled : bool;
  expiryTimer : option nat;     (* [bindingExpiryTimer] *)
  timers : gmap nat Z;          (* live timers and when they are due *)
  requests : nat;               (* requests without an answer *)
  next : nat;
  clock : Z
}.

(** A delay above the 32-bit range, or negative, fires at once. *)
Definition timeout_due (now delay : Z) : Z :=
  if (delay <? 0) || (2147483647 <? delay) then now else now + delay.

Definition clearBindingCode (p : panel) : panel :=
  {| shown := None; message := None; resultHidden := true; createDisabled := false; expiryTimer := None;
     timers := match expiryTimer p with Some t => delete t (timers p) | None => timers p end;
     requests := requests p; next := next p; clock := clock p |}.

(** The click listener up to the request. *)
Definition create_click (p : panel) : panel :=
  let p := clearBindingCode p in
  {| shown := shown p; message := message p; resultHidden := resultHidden p; createDisabled := true;
     expiryTimer := expiryTimer p; timers := timers p; requests := S (requests p); next := next p; clock := clock p |}.

(** The answer, or the [catch]. *)
Definition create_answer (p : panel) (r : result BindingCode) : panel :=
  match r with
  | Ok issued =>
      {| shown := Some issued; message := None; resultHidden := false; createDisabled := createDisabled p;
         expiryTimer := Some (next p);
         timers := <[next p := timeout_due (clock p) (expiresAt issued - clock p)]> (timers p);
         requests := pred (requests p); next := S (next p); clock := clock p |}
  | Throw e =>
      {| shown := shown p; message := Some e; resultHidden := false; createDisabled := false;
         expiryTimer := expiryTimer p; timers := timers p; requests := pred (requests p); next := next p; clock := clock p |}
  end.

Inductive event := EClick | EAnswer (r : result BindingCode) | ETimer (t : nat) | EHide | ETick (d : Z).

Definition step (p : panel) (e : event) : option panel :=
  match e with
  | EClick => if createDisabled p then None else Some (create_click p)
  | EAnswer r => match requests p with O => None | S _ => Some (create_answer p r) end
  | ETimer t =>
      match timers p !! t with
      | Some due =>
          if due <=? clock p
          then Some (clearBindingCode {| shown := shown p; message := message p; resultHidden := resultHidden p;
                                         createDisabled := createDisabled p; expiryTimer := expiryTimer p;
                                         timers := delete t (timers p); requests := requests p; next := next p;
                                         clock := clock p |})
          else None
      | None => None
      end
  | EHide => Some (clearBindingCode p)
  | ETick d =>
      if 0 <=? d
      then Some {| shown := shown p; message := message p; resultHidden := resultHidden p;
                   createDisabled := createDisabled p; expiryTimer := expiryTimer p; timers := timers p;
                   requests := requests p; next := next p; clock := clock p + d |}
      else None
  end.

Definition panel_init : panel :=
  {| shown := None; message := None; resultHidden := true; createDisabled := false; expiryTimer := None; timers := ∅;
     requests := 0; next := 0; clock := 0 |}.

Inductive run : list event -> panel -> Prop :=
| run_nil : run [] panel_init
| run_snoc es e p p' : run es p -> step p e = Some p' -> run (es ++ [e]) p'.

(** ** A code is not shown after it expires *)

(** The timer of the code shown is running, and due no later than the code expires
    unless the code had expired when it arrived. *)
Definition guarded (p : panel) : Prop :=
  match shown p with
  | None => True
  | Some c => exists t due, expiryTimer p = Some t /\ timers p !! t = Some due /\ (due <= expiresAt c \/ due <= clock p)
  end.

Lemma timeout_due_bound now delay : timeout_due now delay <= now + delay \/ timeout_due now delay <= now.
Proof. unfold timeout_due. destruct (_ || _); lia. Qed.

Lemma guarded_run es p : run es p -> guarded p.
Proof.
  induction 1 as [|es e p p' _ IH Hs]; [done|]. destruct e as [|r|t| |d]; cbn in Hs.
  - destruct (createDisabled p); [done|]. by injection Hs as <-.
  - destruct (requests p); [done|]. injection Hs as <-. destruct r as [issued|e]; [|exact IH]. unfold guarded. cbn.
    eexists _, _. split; [done|]. split; [apply lookup_insert_eq|].
    destruct (timeout_due_bound (clock p) (expiresAt issued - clock p)); [left; lia|right; lia].
  - destruct (timers p !! t); [|done]. destruct (_ <=? _); [|done]. by injection Hs as <-.
  - by injection Hs as <-.
  - destruct (Z.leb_spec 0 d); [|done]. injection Hs as <-. unfold guarded in *. cbn. destruct (shown p); [|done].
    destruct IH as (t & due & H1 & H2 & H3). exists t, due. repeat split; try done. destruct H3; [by left|right; lia].
Qed.

(** A binding code never outlives itself on the page: whenever the timers that are
    due have run, a code that is shown has not expired, however requests, clicks,
    page hides and timers interleave. *)
Theorem code_hidden_by_expiry (es : list event) (p : panel) (c : BindingCode) :
  run es p -> shown p = Some c ->
  (forall t due, timers p !! t = Some due -> clock p < due) ->
  clock p < expiresAt c.
Proof.
  intros Hr%guarded_run Hs Hd. unfold guarded in Hr. rewrite Hs in Hr. destruct Hr as (t & due & _ & Ht & H).
  specialize (Hd t due Ht). lia.
Qed.

Definition demo_code : BindingCode := {| code := js "ABCDEFGHIJKLMNOP"; expiresAt := 60000 |}.

Theorem code_hidden_witness :
  exists p, run [EClick; ETick 50; EAnswer (Ok demo_code); ETick 100] p /\ shown p = Some demo_code
    /\ clock p < expiresAt demo_code.
Proof.
  set (p := {| shown := Some demo_code; message := None; resultHidden := false; createDisabled := true; expiryTimer := Some 0%nat;
               timers := <[0%nat := 60000]> ∅; requests := 0; next := 1; clock := 150 |}).
  assert (Hr : run [EClick; ETick 50; EAnswer (Ok demo_code); ETick 100] p).
  { apply (run_snoc [EClick; ETick 50; EAnswer (Ok demo_code)] (ETick 100)
             {| shown := Some demo_code; message := None; resultHidden := false; createDisabled := true; expiryTimer := Some 0%nat;
                timers := <[0%nat := 60000]> ∅; requests := 0; next := 1; clock := 50 |}); [|reflexivity].
    apply (run_snoc [EClick; ETick 50] (EAnswer (Ok demo_code))
             {| shown := None; message := None; resultHidden := true; createDisabled := true; expiryTimer := None;
                timers := ∅; requests := 1; next := 0; clock := 50 |}); [|reflexivity].
    apply (run_snoc [EClick] (ETick 50)
             {| shown := None; message := None; resultHidden := true; createDisabled := true; expiryTimer := None;
                timers := ∅; requests := 1; next := 0; clock := 0 |}); [|reflexivity].
    apply (run_snoc [] EClick panel_init); [constructor|reflexivity]. }
  exists p. split; [exact Hr|]. split; [done|]. apply (code_hidden_by_expiry _ _ demo_code Hr); [done|].
  intros t due. cbn. intros Ht. apply lookup_insert_Some in Ht as [[_ <-]|[_ Ht]]; [lia|].
  rewrite lookup_empty in Ht. done.
Defined.
