(* ===== verification/Portal.v ===== *)
(** * The whole page ([web/src/app.ts])

    What the page does around its connections: [initialize] on the portal, on the
    host of a service and on a temporary host, the service buttons, the creation of
    temporary entries, the connection to a temporary target, the diagnostics, the
    logout and the clearing of a temporary origin.  It drives the connections of
    Page.v and the panel of BindingPanel.v.  A listener that is suspended at an
    [await] is a task; what the page asks of its surroundings is a log. *)

From stdpp Require Import base list numbers strings sets gmap.
From Stdlib Require Import ZArith Lia.
From S2P Require Import Prelude JsString Json Binding Url ControlClient ConnectionPolicy DirectConnection AppPolicy ApiClient BindingPanel Page.
Local Open Scope Z_scope.

(** ** State *)

(** Who awaits a call of [connect]. *)
Inductive caller := FromPortal | FromInitialize | FromTemporary.

Inductive task :=
| AwaitTemporary                           (* [initialize] on a temporary host *)
| AwaitCatalog                             (* [initialize] elsewhere *)
| AwaitConfig (service : Service)          (* [connectFromPortal] *)
| AwaitConnect (k : nat) (c : caller)
| AwaitDns | AwaitPing
| AwaitLogout
| AwaitCreate
| ClearRegistrations (leave : bool)        (* [clearTemporaryOrigin], for the logout or not awaited *)
| ClearUnregister (leave : bool)
| ClearKeys (leave : bool)
| ClearDelete (leave : bool).

Inductive effect :=
| Asked (r : api_request)
| ConnectTo (service : Service) (temporary : option (TemporaryTarget * url))
| Diagnose (i : nat) (name : option jsstr)   (* [dns(name)] or [ping()] on the control client of a connection *)
| Unregister (registration : nat)
| DeleteCache (name : jsstr)
| Navigate (to : jsstr).

(** The text of the diagnostics: a text, an error, or a value the engine prints. *)
Inductive diagnostic_text := DText (s : jsstr) | DError (e : jserror) | DEngine.

Record view := {
  bindingPanelHidden : bool;
  servicesHidden : bool;
  createPanelHidden : bool;
  targetPanelHidden : bool;
  placeholder : jsstr;
  buttons : list Service;                  (* the service buttons, with what each connects to *)
  servicesText : option jsstr;             (* the text in their place *)
  agentOptions : list (jsstr * jsstr);
  temporaryCreateDisabled : bool;
  temporaryConnectDisabled : bool;
  diagnostic : diagnostic_text
}.

Record portal := {
  pg : page;
  panel_state : panel;
  temporaryService : option Service;
  temporarySTUNURLs : list jsstr;
  shows : view;
  suspended : gmap nat task;
  next_task : nat;
  finished : gmap nat (result unit);        (* the calls of [connect] that have ended *)
  effects : list effect
}.

Definition with_page (s : portal) (p : page) : portal :=
  {| pg := p; panel_state := panel_state s; temporaryService := temporaryService s; temporarySTUNURLs := temporarySTUNURLs s; shows := shows s;
     suspended := suspended s; next_task := next_task s; finished := finished s; effects := effects s |}.
Definition with_panel (s : portal) (p : panel) : portal :=
  {| pg := pg s; panel_state := p; temporaryService := temporaryService s; temporarySTUNURLs := temporarySTUNURLs s; shows := shows s;
     suspended := suspended s; next_task := next_task s; finished := finished s; effects := effects s |}.
Definition with_view (s : portal) (v : view) : portal :=
  {| pg := pg s; panel_state := panel_state s; temporaryService := temporaryService s; temporarySTUNURLs := temporarySTUNURLs s; shows := v;
     suspended := suspended s; next_task := next_task s; finished := finished s; effects := effects s |}.
Definition with_temporary (s : portal) (service : Service) (stun : list jsstr) : portal :=
  {| pg := pg s; panel_state := panel_state s; temporaryService := Some service; temporarySTUNURLs := stun; shows := shows s;
     suspended := suspended s; next_task := next_task s; finished := finished s; effects := effects s |}.
Definition emit (s : portal) (l : list effect) : portal :=
  {| pg := pg s; panel_state := panel_state s; temporaryService := temporaryService s; temporarySTUNURLs := temporarySTUNURLs s; shows := shows s;
     suspended := suspended s; next_task := next_task s; finished := finished s; effects := effects s ++ l |}.
Definition suspend (s : portal) (t : task) : portal :=
  {| pg := pg s; panel_state := panel_state s; temporaryService := temporaryService s; temporarySTUNURLs := temporarySTUNURLs s; shows := shows s;
     suspended := <[next_task s := t]> (suspended s); next_task := S (next_task s); finished := finished s; effects := effects s |}.
(** The task goes on to another [await], or ends. *)
Definition move (s : portal) (t : nat) (next : option task) : portal :=
  {| pg := pg s; panel_state := panel_state s; temporaryService := temporaryService s; temporarySTUNURLs := temporarySTUNURLs s; shows := shows s;
     suspended := match next with Some a => <[t := a]> (suspended s) | None => delete t (suspended s) end;
     next_task := next_task s; finished := finished s; effects := effects s |}.
Definition finish_call (s : portal) (k : nat) (r : result unit) : portal :=
  {| pg := pg s; panel_state := panel_state s; temporaryService := temporaryService s; temporarySTUNURLs := temporarySTUNURLs s; shows := shows s;
     suspended := suspended s; next_task := next_task s; finished := <[k := r]> (finished s); effects := effects s |}.

Definition show_diagnostic (s : portal) (d : diagnostic_text) : portal :=
  let v := shows s in
  with_view s {| bindingPanelHidden := bindingPanelHidden v; servicesHidden := servicesHidden v; createPanelHidden := createPanelHidden v;
                 targetPanelHidden := targetPanelHidden v; placeholder := placeholder v; buttons := buttons v; servicesText := servicesText v;
                 agentOptions := agentOptions v; temporaryCreateDisabled := temporaryCreateDisabled v;
                 temporaryConnectDisabled := temporaryConnectDisabled v; diagnostic := d |}.
Definition set_create_disabled (s : portal) (b : bool) : portal :=
  let v := shows s in
  with_view s {| bindingPanelHidden := bindingPanelHidden v; servicesHidden := servicesHidden v; createPanelHidden := createPanelHidden v;
                 targetPanelHidden := targetPanelHidden v; placeholder := placeholder v; buttons := buttons v; servicesText := servicesText v;
                 agentOptions := agentOptions v; temporaryCreateDisabled := b;
                 temporaryConnectDisabled := temporaryConnectDisabled v; diagnostic := diagnostic v |}.
Definition set_connect_disabled (s : portal) (b : bool) : portal :=
  let v := shows s in
  with_view s {| bindingPanelHidden := bindingPanelHidden v; servicesHidden := servicesHidden v; createPanelHidden := createPanelHidden v;
                 targetPanelHidden := targetPanelHidden v; placeholder := placeholder v; buttons := buttons v; servicesText := servicesText v;
                 agentOptions := agentOptions v; temporaryCreateDisabled := temporaryCreateDisabled v;
                 temporaryConnectDisabled := b; diagnostic := diagnostic v |}.

(** The elements as index.html has them. *)
Definition view_init : view :=
  {| bindingPanelHidden := false; servicesHidden := false; createPanelHidden := false; targetPanelHidden := true;
     placeholder := js "https://internal.example:443/path"; buttons := []; servicesText := Some (js "正在读取服务目录…"); agentOptions := [];
     temporaryCreateDisabled := true; temporaryConnectDisabled := false; diagnostic := DText (js "建立 P2P 后可用。") |}.

Definition portal_init : portal :=
  {| pg := page_init; panel_state := panel_init; temporaryService := None; temporarySTUNURLs := []; shows := view_init; suspended := ∅;
     next_task := 0; finished := ∅; effects := [] |}.

(** ** Texts *)

(** [a.join(', ')]: an absent element is empty; [None] when the engine prints one. *)
Fixpoint join_texts (l : list json) : option jsstr :=
  match l with
  | [] => Some []
  | v :: l' =>
      match v, join_texts l' with
      | (JStr _ | JNull), Some t => let x := match v with JStr x => x | _ => [] end in Some (match l' with [] => x | _ => x ++ js ", " ++ t end)
      | _, _ => None
      end
  end.

Definition code_of (v : json) : jsstr := match get_prop v (js "code") with Some (JStr s) => s | _ => [] end.

Definition refused_text (label : jsstr) (code : jsstr) : diagnostic_text :=
  match diagnosticMessage code with Some m => DText (label ++ m) | None => DEngine end.

(** The result of [control.dns(name)] in the [try] and the [catch] of the listener. *)
Definition dns_text (o : outcome) : diagnostic_text :=
  match o with
  | Rejected e => DError e
  | Resolved v =>
      if str_eqb (code_of v) (js "ok") then
        let shown := fun t : jsstr => DText (js "DNS：" ++ match t with [] => js "无结果" | _ => t end) in
        match get_prop v (js "addresses") with
        | None | Some JNull => shown []
        | Some (JArr l) => match join_texts l with Some t => shown t | None => DEngine end
        | Some _ => DError (PlatformError "TypeError")
        end
      else refused_text (js "DNS 诊断：") (code_of v)
  end.

(** A number as a text, when it is an integer that a double holds exactly. *)
Definition number_text (m e : Z) : option jsstr :=
  if (0 <=? e) && (e <? 16) && (Z.abs (m * 10 ^ e) <=? 2 ^ 53) then Some (string_of_Z (m * 10 ^ e)) else None.

Definition ping_text (o : outcome) : diagnostic_text :=
  match o with
  | Rejected e => DError e
  | Resolved v =>
      if str_eqb (code_of v) (js "ok") then
        let shown := fun t : option jsstr => match t with Some t => DText (js "Ping：" ++ t ++ js " ms") | None => DEngine end in
        match get_prop v (js "rtt_ms") with
        | None | Some JNull => shown (Some (js "0"))
        | Some (JNum m e) => shown (number_text m e)
        | Some (JStr t) => shown (Some t)
        | Some (JBool b) => shown (Some (if b then js "true" else js "false"))
        | Some _ => shown None
        end
      else refused_text (js "Ping 诊断：") (code_of v)
  end.

Definition unsupported : jserror := ErrorMsg (js "当前浏览器不支持所需的 WebRTC 或 Service Worker 能力").
Definition stale_entry : jserror := ErrorMsg (js "临时入口已失效").
Definition no_service : jserror := ErrorMsg (js "该服务不存在或当前不可用").

Definition is_temporary (requested : option jsstr) : bool :=
  match requested with Some r => startsWith r (js "tmp-") | None => false end.

(** ** Operations *)

Section WithEngine.
Context `{UnicodeCase} `{UrlPlatform}.

(** The page's surroundings: its host, whether the browser has what [initialize] asks for, and [caches]. *)
Variables (hostname : jsstr) (capable has_caches : bool).

Definition requested : option jsstr := requestedSlug hostname.

(** Functions of Page.v that always succeed. *)
Definition on_page (s : portal) (e : page_event) : portal := with_page s (default (pg s) (page_step (pg s) e)).

Definition fail (s : portal) (e : jserror) : portal := on_page s (EvStatus (SInit e)).

(** [connect(service, stunURLs, temporary)], awaited by [c]. *)
Definition connect (s : portal) (service : Service) (stun : list jsstr) (temp : option (TemporaryTarget * url)) (next : task -> portal -> portal) (c : caller) : portal :=
  let k := issued (pg s) in
  let s := on_page (emit s [ConnectTo service temp]) (EvConnect service stun (if temp then true else false)) in
  next (AwaitConnect k c) s.

(** [clearTemporaryOrigin], up to its first [await]; [leave]: the logout awaits it. *)
Definition clearTemporaryOrigin (leave : bool) (next : task -> portal -> portal) (s : portal) : portal := next (ClearRegistrations leave) s.

Definition new_task (t : task) (s : portal) : portal := suspend s t.
Definition go_on (t : nat) (a : task) (s : portal) : portal := move s t (Some a).

Definition leave_page (s : portal) : portal := emit s [Navigate (js "/auth/logout")].

(** The end of [clearTemporaryOrigin]. *)
Definition cleared (s : portal) (t : nat) (leave : bool) : portal :=
  let s := move s t None in if leave then leave_page s else s.

(** [renderServices] and [renderTemporaryAgents] *)
Definition render (s : portal) (catalog : list Service) : portal :=
  let v := shows s in
  with_view s {| bindingPanelHidden := bindingPanelHidden v; servicesHidden := servicesHidden v; createPanelHidden := createPanelHidden v;
                 targetPanelHidden := targetPanelHidden v; placeholder := placeholder v; buttons := catalog;
                 servicesText := match catalog with [] => Some (js "尚未配置可访问的内网服务。") | _ => None end;
                 agentOptions := agent_options catalog;
                 temporaryCreateDisabled := bool_decide (agent_options catalog = []);
                 temporaryConnectDisabled := temporaryConnectDisabled v; diagnostic := diagnostic v |}.

Definition entry_placeholder (service : Service) : jsstr :=
  kind_text (s_kind service) ++ js "://内网主机:" ++ (match s_kind service with Https => js "443" | _ => js "80" end) ++ js "/".

(** The panels of a temporary entry. *)
Definition show_entry (s : portal) (service : Service) : portal :=
  let v := shows s in
  with_view s {| bindingPanelHidden := bindingPanelHidden v; servicesHidden := true; createPanelHidden := true; targetPanelHidden := false;
                 placeholder := entry_placeholder service; buttons := buttons v; servicesText := servicesText v; agentOptions := agentOptions v;
                 temporaryCreateDisabled := temporaryCreateDisabled v; temporaryConnectDisabled := temporaryConnectDisabled v;
                 diagnostic := diagnostic v |}.

(** [initialize] up to its first [await]. *)
Definition initialize (s : portal) : portal :=
  if negb capable then fail s unsupported
  else
    let v := shows s in
    let s := with_view s {| bindingPanelHidden := bool_decide (is_Some requested); servicesHidden := servicesHidden v;
                            createPanelHidden := createPanelHidden v; targetPanelHidden := targetPanelHidden v; placeholder := placeholder v;
                            buttons := buttons v; servicesText := servicesText v; agentOptions := agentOptions v;
                            temporaryCreateDisabled := temporaryCreateDisabled v; temporaryConnectDisabled := temporaryConnectDisabled v;
                            diagnostic := diagnostic v |} in
    if is_temporary requested
    then new_task AwaitTemporary (emit s [Asked config_request; Asked current_request])
    else new_task AwaitCatalog (emit s [Asked config_request; Asked services_request]).

(** The [catch] of [initialize]; the clearing is not awaited. *)
Definition initialize_failed (s : portal) (e : jserror) : portal :=
  let s := if is_temporary requested then clearTemporaryOrigin false new_task s else s in fail s e.

Definition initialize_temporary (s : portal) (t : nat) (r : result (list jsstr * Service)) : portal :=
  let s := move s t None in
  match r with
  | Throw e => initialize_failed s e
  | Ok (stun_urls, service) =>
      if negb (default false (temporary service)) || negb (bool_decide (Some (slug service) = requested)) then initialize_failed s stale_entry
      else
        let s := show_entry (with_temporary s service stun_urls) service in
        on_page s (EvStatus (SText (js "临时入口已就绪；目标尚未发送给 OpenWrt Agent。")))
  end.

Definition initialize_catalog (s : portal) (t : nat) (r : result (list jsstr * list Service)) : portal :=
  let s := move s t None in
  match r with
  | Throw e => initialize_failed s e
  | Ok (stun_urls, catalog) =>
      let s := render s catalog in
      match requested with
      | None => s
      | Some r =>
          match List.find (fun service => str_eqb (slug service) r) catalog with
          | None => initialize_failed s no_service
          | Some selected => connect s selected stun_urls None (go_on t) FromInitialize
          end
      end
  end.

(** The continuation behind [await connect(...)]. *)
Definition returned (s : portal) (t : nat) (c : caller) (r : result unit) : portal :=
  let s := move s t None in
  match r, c with
  | Ok _, _ => s
  | Throw e, FromInitialize => initialize_failed s e
  | Throw _, FromPortal => s                              (* an unhandled rejection *)
  | Throw e, FromTemporary => set_connect_disabled (on_page s (EvFail e)) false
  end.

(** The listener of the connect button of a temporary entry. *)
Definition temporary_connect_click (s : portal) (value : jsstr) : option portal :=
  match temporaryService s with
  | None => Some s
  | Some service =>
      match parseTemporaryURL value (s_kind service) with
      | Throw e => Some (set_connect_disabled (on_page s (EvFail e)) false)
      | Ok remote =>
          match temporary_target remote with
          | Some target => Some (connect (set_connect_disabled s true) service (temporarySTUNURLs s) (Some (target, remote)) new_task FromTemporary)
          | None => None
          end
      end
  end.

(** The listener of the button that creates a temporary entry, with the values of its selectors. *)
Definition temporary_create_click (s : portal) (agent kindValue : jsstr) : portal :=
  let https := negb (str_eqb kindValue (js "http")) in
  let input := {| i_agent := agent; i_name := if https then js "临时 HTTPS 服务" else js "临时 HTTP 服务"; i_kind := if https then js "https" else js "http" |} in
  new_task AwaitCreate (emit (set_create_disabled s true) [Asked (createTemporaryService_request input)]).

(** [location.assign] throws when the text is no URL. *)
Definition created (s : portal) (t : nat) (r : result Service) : portal :=
  let s := move s t None in
  match r with
  | Throw e => set_create_disabled (fail s e) false
  | Ok service =>
      let to := js "https://" ++ slug service ++ js "." ++ hostname ++ js "/" in
      match parse_url to None with
      | Some _ => emit s [Navigate to]
      | None => set_create_disabled (fail s (PlatformError "SyntaxError")) false
      end
  end.

Definition dns_click (s : portal) (value : jsstr) : portal :=
  match control (pg s), trim value with
  | Some i, c :: name => new_task AwaitDns (emit (show_diagnostic s (DText (js "正在通过 Agent 解析…"))) [Diagnose i (Some (c :: name))])
  | _, _ => s
  end.

Definition ping_click (s : portal) : portal :=
  match control (pg s) with
  | Some i => new_task AwaitPing (emit (show_diagnostic s (DText (js "正在 Ping 当前授权服务…"))) [Diagnose i None])
  | None => s
  end.

Definition logout_click (s : portal) : portal :=
  let s := on_page s EvUnload in
  let s := with_panel s (clearBindingCode (panel_state s)) in
  new_task AwaitLogout (emit s [Asked logout_request]).

(** A rejected [fetch] ends the listener. *)
Definition logged_out (s : portal) (t : nat) (r : result unit) : portal :=
  match r with
  | Throw _ => move s t None
  | Ok _ => if is_temporary requested then clearTemporaryOrigin true (go_on t) s else leave_page (move s t None)
  end.

(** ** Events *)

Inductive portal_event :=
| PvTemporary (t : nat) (r : result (list jsstr * Service))
| PvCatalog (t : nat) (r : result (list jsstr * list Service))
| PvService (n : nat)                                (* a click on a service button *)
| PvConfig (t : nat) (r : result (list jsstr))
| PvReturn (t : nat)
| PvPage (e : page_event)
| PvPanel (e : BindingPanel.event)
| PvConnectClick (value : jsstr)
| PvCreateClick (agent kindValue : jsstr)
| PvCreated (t : nat) (r : result Service)
| PvDnsClick (value : jsstr)
| PvPingClick
| PvDiagnosed (t : nat) (o : outcome)
| PvLogoutClick
| PvLoggedOut (t : nat) (r : result unit)
| PvRegistrations (t : nat) (a : option (result (list nat)))   (* [None] without a worker container *)
| PvUnregistered (t : nat) (r : result (list bool))
| PvKeys (t : nat) (a : result (list jsstr))
| PvDeleted (t : nat) (r : result (list bool)).

(** [.catch(() => [])]: a listing that is rejected counts as an empty one. *)
Definition listed {A} (a : result (list A)) : list A := match a with Ok l => l | Throw _ => [] end.

(** [registrations || []] *)
Definition registered (a : option (result (list nat))) : list nat := match a with Some r => listed r | None => [] end.

(** The end of a call of [connect] that an event of the page brings: it throws what [agentOnline]
    or the constructor throws, and catches everything later. *)
Definition call_ends (p : page) (e : page_event) : option (nat * result unit) :=
  match e with
  | EvAgent k r made =>
      match calls p !! k with
      | Some (PAgent service stun temp) =>
          match r with
          | Throw e => Some (k, Throw e)
          | Ok false => Some (k, Ok tt)
          | Ok true => match new_DirectConnection stun with Throw e => Some (k, Throw e) | Ok _ => None end
          end
      | _ => None
      end
  | EvContinue k r =>
      match calls p !! k, r with
      | Some (PLoad _), _ | Some (PRefused _), Ok _ | Some (PTransport _), Throw _ => Some (k, Ok tt)
      | _, _ => None
      end
  | _ => None
  end.

(** A click needs an enabled button; the calls the portal makes itself are not events. *)
Definition from_outside (p : page) (e : page_event) : bool :=
  match e with
  | EvRestart => negb (restartDisabled p)
  | EvDisconnect => negb (disconnectDisabled p)
  | EvAgent _ _ _ | EvContinue _ _ | EvObject _ _ | EvUnload => true
  | EvConnect _ _ _ | EvStatus _ | EvFail _ => false
  end.

Definition page_event_step (s : portal) (e : page_event) : option portal :=
  if from_outside (pg s) e then
    match page_step (pg s) e with
    | Some p => let s' := with_page s p in Some (match call_ends (pg s) e with Some (k, r) => finish_call s' k r | None => s' end)
    | None => None
    end
  else None.

Definition portal_step (s : portal) (e : portal_event) : option portal :=
  match e with
  | PvTemporary t r => match suspended s !! t with Some AwaitTemporary => Some (initialize_temporary s t r) | _ => None end
  | PvCatalog t r => match suspended s !! t with Some AwaitCatalog => Some (initialize_catalog s t r) | _ => None end
  | PvService n =>
      match buttons (shows s) !! n with Some service => Some (new_task (AwaitConfig service) (emit s [Asked config_request])) | None => None end
  | PvConfig t r =>
      match suspended s !! t with
      | Some (AwaitConfig service) =>
          Some (match r with Ok stun => connect s service stun None (go_on t) FromPortal | Throw _ => move s t None end)
      | _ => None
      end
  | PvReturn t =>
      match suspended s !! t with
      | Some (AwaitConnect k c) => match finished s !! k with Some r => Some (returned s t c r) | None => None end
      | _ => None
      end
  | PvPage e => page_event_step s e
  | PvPanel e => option_map (with_panel s) (BindingPanel.step (panel_state s) e)
  | PvConnectClick value => if temporaryConnectDisabled (shows s) then None else temporary_connect_click s value
  | PvCreateClick agent kindValue => if temporaryCreateDisabled (shows s) then None else Some (temporary_create_click s agent kindValue)
  | PvCreated t r => match suspended s !! t with Some AwaitCreate => Some (created s t r) | _ => None end
  | PvDnsClick value => if diagnosticsDisabled (pg s) then None else Some (dns_click s value)
  | PvPingClick => if diagnosticsDisabled (pg s) then None else Some (ping_click s)
  | PvDiagnosed t o =>
      match suspended s !! t with
      | Some AwaitDns => Some (show_diagnostic (move s t None) (dns_text o))
      | Some AwaitPing => Some (show_diagnostic (move s t None) (ping_text o))
      | _ => None
      end
  | PvLogoutClick => Some (logout_click s)
  | PvLoggedOut t r => match suspended s !! t with Some AwaitLogout => Some (logged_out s t r) | _ => None end
  | PvRegistrations t a =>
      match suspended s !! t with
      | Some (ClearRegistrations leave) => Some (go_on t (ClearUnregister leave) (emit s (map Unregister (registered a))))
      | _ => None
      end
  | PvUnregistered t r =>
      match suspended s !! t with
      | Some (ClearUnregister leave) =>
          Some (match r with
                | Throw _ => move s t None
                | Ok _ => if has_caches then go_on t (ClearKeys leave) s else cleared s t leave
                end)
      | _ => None
      end
  | PvKeys t a =>
      match suspended s !! t with
      | Some (ClearKeys leave) => Some (go_on t (ClearDelete leave) (emit s (map DeleteCache (listed a))))
      | _ => None
      end
  | PvDeleted t r =>
      match suspended s !! t with
      | Some (ClearDelete leave) => Some (match r with Throw _ => move s t None | Ok _ => cleared s t leave end)
      | _ => None
      end
  end.

Inductive portal_run : list portal_event -> portal -> Prop :=
| portal_start : portal_run [] (initialize portal_init)
| portal_snoc es e s s' : portal_run es s -> portal_step s e = Some s' -> portal_run (es ++ [e]) s'.

(** ** What the page connects to *)

(** A service of a catalogue the page was given; never on a temporary host. *)
Definition offered (es : list portal_event) (service : Service) : Prop :=
  is_temporary requested = false /\ exists t stun catalog, PvCatalog t (Ok (stun, catalog)) ∈ es /\ service ∈ catalog.

(** The temporary service the host names. *)
Definition named_entry (es : list portal_event) (service : Service) : Prop :=
  is_temporary requested = true /\ temporary service = Some true /\ requested = Some (slug service)
  /\ exists t stun, PvTemporary t (Ok (stun, service)) ∈ es.

Definition permitted (es : list portal_event) (service : Service) (temp : option (TemporaryTarget * url)) : Prop :=
  match temp with
  | None => offered es service
  | Some (target, remote) =>
      named_entry es service
      /\ exists value, PvConnectClick value ∈ es /\ parseTemporaryURL value (s_kind service) = Ok remote /\ temporary_target remote = Some target
  end.

Definition task_ok (es : list portal_event) (a : task) : Prop :=
  match a with
  | AwaitTemporary => is_temporary requested = true
  | AwaitCatalog => is_temporary requested = false
  | AwaitConfig service => offered es service
  | _ => True
  end.

Record sound (es : list portal_event) (s : portal) : Prop := {
  snd_connect : forall service temp, ConnectTo service temp ∈ effects s -> permitted es service temp;
  snd_entry : forall service, temporaryService s = Some service -> named_entry es service;
  snd_buttons : forall service, service ∈ buttons (shows s) -> offered es service;
  snd_tasks : forall t a, suspended s !! t = Some a -> task_ok es a
}.

Lemma offered_app es es' service : offered es service -> offered (es ++ es') service.
Proof. intros (H1 & t & stun & l & H2 & H3). split; [done|]. exists t, stun, l. split; [|done]. apply elem_of_app. by left. Qed.

Lemma named_app es es' service : named_entry es service -> named_entry (es ++ es') service.
Proof. intros (H1 & H2 & H3 & t & stun & H4). repeat split; try done. exists t, stun. apply elem_of_app. by left. Qed.

Lemma sound_app es es' s : sound es s -> sound (es ++ es') s.
Proof.
  intros [H1 H2 H3 H4]. constructor.
  - intros service [[target remote]|] Hin%H1; cbn in *; [|by apply offered_app].
    destruct Hin as (Hn & value & Hv & Hp). split; [by apply named_app|]. exists value. split; [|done]. apply elem_of_app. by left.
  - intros service Hs%H2. by apply named_app.
  - intros service Hs%H3. by apply offered_app.
  - intros t a Ha%H4. destruct a; cbn in *; try done. by apply offered_app.
Qed.

Lemma sound_page es s p : sound es s -> sound es (with_page s p).
Proof. intros [H1 H2 H3 H4]. by constructor. Qed.

Lemma sound_on_page es s e : sound es s -> sound es (on_page s e).
Proof. apply sound_page. Qed.

Lemma sound_panel es s p : sound es s -> sound es (with_panel s p).
Proof. intros [H1 H2 H3 H4]. by constructor. Qed.

Lemma sound_view es s v : sound es s -> (forall service, service ∈ buttons v -> offered es service) -> sound es (with_view s v).
Proof. intros [H1 H2 H3 H4] Hv. by constructor. Qed.

Lemma sound_emit es s l : sound es s -> (forall service temp, ConnectTo service temp ∈ l -> permitted es service temp) -> sound es (emit s l).
Proof. intros [H1 H2 H3 H4] Hl. constructor; try done. intros service temp. cbn. intros [Hin|Hin]%elem_of_app; [by apply H1|by apply Hl]. Qed.

Lemma sound_emit_other es s l : sound es s -> Forall (fun x => match x with ConnectTo _ _ => False | _ => True end) l -> sound es (emit s l).
Proof. intros Hs Hl. apply sound_emit; [done|]. intros service temp Hin. rewrite Forall_forall in Hl. by specialize (Hl _ Hin). Qed.

Lemma sound_new_task es s a : sound es s -> task_ok es a -> sound es (new_task a s).
Proof.
  intros [H1 H2 H3 H4] Ha. constructor; try done. cbn. intros t b Hb. apply lookup_insert_Some in Hb as [[_ <-]|[_ Hb]]; [done|by eapply H4].
Qed.

Lemma sound_go_on es s t a : sound es s -> task_ok es a -> sound es (go_on t a s).
Proof.
  intros [H1 H2 H3 H4] Ha. constructor; try done. cbn. intros u b Hb. apply lookup_insert_Some in Hb as [[_ <-]|[_ Hb]]; [done|by eapply H4].
Qed.

Lemma sound_end es s t : sound es s -> sound es (move s t None).
Proof. intros [H1 H2 H3 H4]. constructor; try done. cbn. intros u b Hb. apply lookup_delete_Some in Hb as [_ Hb]. by eapply H4. Qed.

Lemma sound_finish es s k r : sound es s -> sound es (finish_call s k r).
Proof. intros [H1 H2 H3 H4]. by constructor. Qed.

Lemma sound_temporary es s service stun : sound es s -> named_entry es service -> sound es (with_temporary s service stun).
Proof. intros [H1 H2 H3 H4] Hn. constructor; try done. cbn. by intros ? [= <-]. Qed.

Lemma sound_fail es s e : sound es s -> sound es (fail s e).
Proof. apply sound_on_page. Qed.

Lemma sound_failed es s e : sound es s -> sound es (initialize_failed s e).
Proof. intros Hs. unfold initialize_failed. apply sound_fail. destruct (is_temporary requested); [by apply sound_new_task|done]. Qed.

Lemma sound_shown es s d : sound es s -> sound es (show_diagnostic s d).
Proof. intros Hs. apply sound_view; [done|]. apply Hs. Qed.

Lemma sound_create es s b : sound es s -> sound es (set_create_disabled s b).
Proof. intros Hs. apply sound_view; [done|]. apply Hs. Qed.

Lemma sound_connect_disabled es s b : sound es s -> sound es (set_connect_disabled s b).
Proof. intros Hs. apply sound_view; [done|]. apply Hs. Qed.

Lemma sound_connecting es s service stun temp next c :
  sound es s -> permitted es service temp -> (forall k s, sound es s -> sound es (next (AwaitConnect k c) s)) ->
  sound es (connect s service stun temp next c).
Proof.
  intros Hs Hp Hn. apply Hn, sound_on_page, sound_emit; [done|]. intros ? ?. by intros [= -> ->]%list_elem_of_singleton.
Qed.

Lemma sound_init : sound [] (initialize portal_init).
Proof.
  assert (Hi : sound [] portal_init) by (constructor; cbn; [intros ? ? []%not_elem_of_nil|done|intros ? []%not_elem_of_nil|intros ? ?; by rewrite lookup_empty]).
  unfold initialize. destruct (negb capable); [by apply sound_fail|].
  destruct (is_temporary requested) eqn:E; (apply sound_new_task; [|done]); (apply sound_emit_other; [|by repeat constructor]);
    (apply sound_view; [done|cbn; intros ? []%not_elem_of_nil]).
Qed.

Lemma last_event (es : list portal_event) e : e ∈ es ++ [e].
Proof. apply elem_of_app. right. by apply list_elem_of_singleton. Qed.

Lemma sound_temporary_answer es s t r :
  sound es s -> suspended s !! t = Some AwaitTemporary -> sound (es ++ [PvTemporary t r]) (initialize_temporary s t r).
Proof.
  intros Hs Ht. pose proof (snd_tasks _ _ Hs _ _ Ht) as Htmp. cbn in Htmp. apply (sound_app _ [PvTemporary t r]) in Hs. apply (sound_end _ _ t) in Hs.
  unfold initialize_temporary. destruct r as [[stun service]|e]; [|by apply sound_failed].
  destruct (negb _ || negb _) eqn:E; [by apply sound_failed|]. apply orb_false_iff in E as [E1%negb_false_iff E2%negb_false_iff]. apply bool_decide_eq_true in E2.
  apply sound_on_page, sound_view; [|apply Hs]. apply sound_temporary; [done|]. split; [done|].
  split; [by destruct (temporary service) as [[]|]|]. split; [done|]. exists t, stun. apply last_event.
Qed.

Lemma sound_catalog_answer es s t r :
  sound es s -> suspended s !! t = Some AwaitCatalog -> sound (es ++ [PvCatalog t r]) (initialize_catalog s t r).
Proof.
  intros Hs Ht. pose proof (snd_tasks _ _ Hs _ _ Ht) as Htmp. cbn in Htmp. apply (sound_app _ [PvCatalog t r]) in Hs. apply (sound_end _ _ t) in Hs.
  unfold initialize_catalog. destruct r as [[stun catalog]|e]; [|by apply sound_failed].
  assert (Hof : forall service, service ∈ catalog -> offered (es ++ [PvCatalog t (Ok (stun, catalog))]) service)
    by (intros service Hin; split; [done|]; exists t, stun, catalog; split; [apply last_event|done]).
  assert (Hr : sound (es ++ [PvCatalog t (Ok (stun, catalog))]) (render (move s t None) catalog)) by (by apply sound_view).
  destruct requested as [r|]; [|done]. destruct (List.find _ _) as [selected|] eqn:Ef; [|by apply sound_failed].
  apply sound_connecting; [done| |intros k s' Hs'; by apply sound_go_on]. apply Hof. apply find_some in Ef as [Ef _]. by apply list_elem_of_In.
Qed.

Lemma sound_temporary_click es s value s' :
  sound es s -> temporary_connect_click s value = Some s' -> sound (es ++ [PvConnectClick value]) s'.
Proof.
  intros Hs. pose proof (snd_entry _ _ (sound_app _ [PvConnectClick value] _ Hs)) as Hn. apply (sound_app _ [PvConnectClick value]) in Hs. unfold temporary_connect_click.
  destruct (temporaryService s) as [service|] eqn:Et; [|by intros [= <-]]. destruct (parseTemporaryURL _ _) as [remote|e] eqn:Ep.
  - destruct (temporary_target remote) as [target|] eqn:Eg; [|done]. intros [= <-].
    apply sound_connecting; [by apply sound_connect_disabled| |intros k s' Hs'; by apply sound_new_task].
    split; [by apply Hn|]. exists value. split; [apply last_event|done].
  - intros [= <-]. by apply sound_connect_disabled, sound_on_page.
Qed.

Lemma sound_page_event es s e s' : sound es s -> page_event_step s e = Some s' -> sound es s'.
Proof.
  intros Hs. unfold page_event_step. destruct (from_outside _ _); [|done]. destruct (page_step _ _) as [p|]; [|done].
  intros [= <-]. destruct (call_ends _ _) as [[k r]|]; [apply sound_finish|]; by apply sound_page.
Qed.

Lemma sound_cleared es s t leave : sound es s -> sound es (cleared s t leave).
Proof.
  intros Hs. unfold cleared. destruct leave; [|by apply sound_end]. apply sound_emit_other; [by apply sound_end|by repeat constructor].
Qed.

Lemma sound_returned es s t c r : sound es s -> sound es (returned s t c r).
Proof.
  intros Hs. apply (sound_end _ _ t) in Hs. unfold returned. destruct r, c; try done; [by apply sound_failed|].
  by apply sound_connect_disabled, sound_on_page.
Qed.

Lemma sound_created es s t r : sound es s -> sound es (created s t r).
Proof.
  intros Hs. apply (sound_end _ _ t) in Hs. unfold created. destruct r as [service|e]; [|by apply sound_create, sound_fail].
  destruct (parse_url _ _); [|by apply sound_create, sound_fail]. apply sound_emit_other; [done|by repeat constructor].
Qed.

Lemma sound_dns_click es s value : sound es s -> sound es (dns_click s value).
Proof.
  intros Hs. unfold dns_click. destruct (control (pg s)); [|done]. destruct (trim value); [done|].
  apply sound_new_task; [|done]. apply sound_emit_other; [by apply sound_shown|by repeat constructor].
Qed.

Lemma sound_ping_click es s : sound es s -> sound es (ping_click s).
Proof.
  intros Hs. unfold ping_click. destruct (control (pg s)); [|done].
  apply sound_new_task; [|done]. apply sound_emit_other; [by apply sound_shown|by repeat constructor].
Qed.

Lemma sound_logged_out es s t r : sound es s -> sound es (logged_out s t r).
Proof.
  intros Hs. unfold logged_out. destruct r; [|by apply sound_end]. destruct (is_temporary requested); [by apply sound_go_on|].
  apply sound_emit_other; [by apply sound_end|by repeat constructor].
Qed.

Lemma sound_map {A} es s (f : A -> effect) l :
  sound es s -> (forall x, match f x with ConnectTo _ _ => False | _ => True end) -> sound es (emit s (map f l)).
Proof. intros Hs Hf. apply sound_emit_other; [done|]. induction l; constructor; [apply Hf|done]. Qed.

Lemma sound_step es s e s' : sound es s -> portal_step s e = Some s' -> sound (es ++ [e]) s'.
Proof.
  intros Hs. pose proof (sound_app _ [e] _ Hs) as Ha.
  destruct e as [t r|t r|n|t r|t|e|e|value|agent kv|t r|value| |t o| |t r|t l|t r|t l|t r]; cbn [portal_step];
    try (destruct (suspended s !! t) as [a|] eqn:Et; [destruct a; try done|done]); try (intros [= <-]).
  - by apply sound_temporary_answer.
  - by apply sound_catalog_answer.
  - destruct (buttons (shows s) !! n) as [service|] eqn:Eb; [|done]. intros [= <-]. apply sound_new_task; [by apply sound_emit_other; [|repeat constructor]|].
    apply (snd_buttons _ _ Ha). by eapply list_elem_of_lookup_2.
  - pose proof (snd_tasks _ _ Ha _ _ Et) as Ho. destruct r as [stun|e]; [|by apply sound_end].
    apply sound_connecting; [done|done|intros k s' Hs'; by apply sound_go_on].
  - destruct (finished s !! k); [|done]. intros [= <-]. by apply sound_returned.
  - by apply sound_page_event.
  - destruct (BindingPanel.step _ _); [|done]. intros [= <-]. by apply sound_panel.
  - destruct (temporaryConnectDisabled _); [done|]. by apply sound_temporary_click.
  - destruct (temporaryCreateDisabled _); [done|]. intros [= <-]. apply sound_new_task; [|done].
    apply sound_emit_other; [by apply sound_create|by repeat constructor].
  - by apply sound_created.
  - destruct (diagnosticsDisabled _); [done|]. intros [= <-]. by apply sound_dns_click.
  - destruct (diagnosticsDisabled _); [done|]. intros [= <-]. by apply sound_ping_click.
  - by apply sound_shown, sound_end.
  - by apply sound_shown, sound_end.
  - apply sound_new_task; [|done]. apply sound_emit_other; [by apply sound_panel, sound_on_page|by repeat constructor].
  - by apply sound_logged_out.
  - apply sound_go_on; [|done]. by apply sound_map.
  - destruct r; [|by apply sound_end]. destruct has_caches; [by apply sound_go_on|by apply sound_cleared].
  - apply sound_go_on; [|done]. by apply sound_map.
  - destruct r; [by apply sound_cleared|by apply sound_end].
Qed.

Lemma sound_run es s : portal_run es s -> sound es s.
Proof. induction 1 as [|es e s s' _ IH Hs]; [exact sound_init|by eapply sound_step]. Qed.

(** C4. The page connects only where it may.  On a temporary host nothing is connected
    before the user presses the button, and then to the service the host names, for
    a target taken from an address the entry accepts: the service's own scheme, no
    credentials, a port from 1 to 65535.  On any other host connections carry no
    target and go to services of a catalogue the controller sent. *)
Theorem connects_confined (es : list portal_event) (s : portal) (service : Service) (temp : option (TemporaryTarget * url)) :
  portal_run es s -> ConnectTo service temp ∈ effects s ->
  match temp with
  | None => is_temporary requested = false /\ exists t stun catalog, PvCatalog t (Ok (stun, catalog)) ∈ es /\ service ∈ catalog
  | Some (target, remote) =>
      requested = Some (slug service) /\ startsWith (slug service) (js "tmp-") = true /\ temporary service = Some true
      /\ (exists t stun, PvTemporary t (Ok (stun, service)) ∈ es)
      /\ (exists value, PvConnectClick value ∈ es /\ parse_url (trim value) None = Some remote)
      /\ scheme remote = kind_text (s_kind service) /\ ControlClient.kind target = kind_text (s_kind service)
      /\ username remote = [] /\ password remote = []
      /\ ControlClient.host target = stripIPv6Brackets (Url.host remote)
      /\ effective_port remote = Some (ControlClient.port target) /\ 1 <= ControlClient.port target <= 65535
  end.
Proof.
  intros Hr%sound_run Hin%(snd_connect _ _ Hr). destruct temp as [[target remote]|]; [|done].
  destruct Hin as ((H1 & H2 & H3 & Hev) & value & Hclick & Hp & Ht).
  assert (Hv : parse_url (trim value) None = Some remote).
  { revert Hp. unfold parseTemporaryURL. destruct (parse_url _ _) as [u|]; [|done]. repeat case_match; try done; by intros [= ->]. }
  destruct (parseTemporaryURL_spec _ _ _ Hp) as (_ & Hs & Hu & Hpw & _ & target' & Ht' & Hport & Hrange & Hk & Hh).
  assert (target' = target) as -> by congruence. rewrite H3 in H1. repeat (split; [done || (by exists value)|]). done.
Qed.

(** ** Leaving *)

(** How far the listener of the logout button, as task [t], has come. *)
Definition logged (es : list portal_event) (l : list effect) (t : nat) : Prop :=
  Asked logout_request ∈ l /\ PvLoggedOut t (Ok tt) ∈ es.
Definition workers_asked (es : list portal_event) (l : list effect) (t : nat) : Prop :=
  logged es l t /\ exists a, PvRegistrations t a ∈ es /\ forall r, r ∈ registered a -> Unregister r ∈ l.
Definition workers_gone (es : list portal_event) (l : list effect) (t : nat) : Prop :=
  workers_asked es l t /\ exists done, PvUnregistered t (Ok done) ∈ es.
Definition caches_asked (es : list portal_event) (l : list effect) (t : nat) : Prop :=
  workers_gone es l t /\ exists a, PvKeys t a ∈ es /\ forall n, n ∈ listed a -> DeleteCache n ∈ l.
Definition caches_gone (es : list portal_event) (l : list effect) (t : nat) : Prop :=
  caches_asked es l t /\ exists done, PvDeleted t (Ok done) ∈ es.

Definition all_gone (es : list portal_event) (l : list effect) (t : nat) : Prop :=
  logged es l t /\ (is_temporary requested = true -> if has_caches then caches_gone es l t else workers_gone es l t).

Definition stage_ok (es : list portal_event) (l : list effect) (t : nat) (a : task) : Prop :=
  match a with
  | AwaitLogout => Asked logout_request ∈ l
  | ClearRegistrations true => logged es l t
  | ClearUnregister true => workers_asked es l t
  | ClearKeys true => has_caches = true /\ workers_gone es l t
  | ClearDelete true => has_caches = true /\ caches_asked es l t
  | _ => True
  end.

Definition logout_target : jsstr := js "/auth/logout".

Record leaving (es : list portal_event) (s : portal) : Prop := {
  lv_nav : Navigate logout_target ∈ effects s -> exists t, all_gone es (effects s) t;
  lv_tasks : forall t a, suspended s !! t = Some a -> stage_ok es (effects s) t a
}.

Lemma in_app_l {A} (x : A) l l' : x ∈ l -> x ∈ l ++ l'.
Proof. intros H'. apply elem_of_app. by left. Qed.

Lemma logged_app es es' l l' t : logged es l t -> logged (es ++ es') (l ++ l') t.
Proof. intros [H1 H2]. split; by apply in_app_l. Qed.

Lemma workers_asked_app es es' l l' t : workers_asked es l t -> workers_asked (es ++ es') (l ++ l') t.
Proof.
  intros (H1 & rs & H2 & H3). split; [by apply logged_app|]. exists rs. split; [by apply in_app_l|]. intros r Hr. apply in_app_l. by apply H3.
Qed.

Lemma workers_gone_app es es' l l' t : workers_gone es l t -> workers_gone (es ++ es') (l ++ l') t.
Proof. intros [H1 [d H2]]. split; [by apply workers_asked_app|exists d; by apply in_app_l]. Qed.

Lemma caches_asked_app es es' l l' t : caches_asked es l t -> caches_asked (es ++ es') (l ++ l') t.
Proof.
  intros (H1 & ns & H2 & H3). split; [by apply workers_gone_app|]. exists ns. split; [by apply in_app_l|]. intros n Hn. apply in_app_l. by apply H3.
Qed.

Lemma all_gone_app es es' l l' t : all_gone es l t -> all_gone (es ++ es') (l ++ l') t.
Proof.
  intros [H1 H2]. split; [by apply logged_app|]. intros Htmp. specialize (H2 Htmp).
  destruct has_caches; [destruct H2 as [H2 [d H3]]; split; [by apply caches_asked_app|exists d; by apply in_app_l]|by apply workers_gone_app].
Qed.

Lemma stage_ok_app es es' l l' t a : stage_ok es l t a -> stage_ok (es ++ es') (l ++ l') t a.
Proof.
  destruct a as [| | | | | | | |[]|[]|[]|[]]; cbn; try done; intros H'; try destruct H' as [H'' H']; try (split; [done|]);
    by first [apply in_app_l|apply logged_app|apply workers_asked_app|apply workers_gone_app|apply caches_asked_app].
Qed.

(** The parts of the state the logout depends on. *)
Lemma leaving_same es s s' :
  leaving es s -> effects s' = effects s -> (forall t a, suspended s' !! t = Some a -> suspended s !! t = Some a) -> leaving es s'.
Proof. intros [H1 H2] E Hs. constructor; rewrite E; [done|]. intros t a Ha. by apply H2, Hs. Qed.

Lemma leaving_app es es' s : leaving es s -> leaving (es ++ es') s.
Proof.
  intros [H1 H2]. constructor.
  - intros [t Ht]%H1. exists t. rewrite <- (app_nil_r (effects s)). by apply all_gone_app.
  - intros t a Ha%H2. rewrite <- (app_nil_r (effects s)). by apply stage_ok_app.
Qed.

Lemma leaving_emit es s l : leaving es s -> Forall (fun x => x <> Navigate logout_target) l -> leaving es (emit s l).
Proof.
  intros [H1 H2] Hl. constructor; cbn.
  - intros [Hin|Hin]%elem_of_app; [|rewrite Forall_forall in Hl; by destruct (Hl _ Hin)].
    destruct (H1 Hin) as [t Ht]. exists t. rewrite <- (app_nil_r es). by apply all_gone_app.
  - intros t a Ha%H2. rewrite <- (app_nil_r es). by apply stage_ok_app.
Qed.

Lemma leaving_new_task es s a : leaving es s -> (forall t, stage_ok es (effects s) t a) -> leaving es (new_task a s).
Proof.
  intros [H1 H2] Ha. constructor; [done|]. cbn. intros t b Hb. apply lookup_insert_Some in Hb as [[_ <-]|[_ Hb]]; [done|by apply H2].
Qed.

Lemma leaving_go_on es s t a : leaving es s -> stage_ok es (effects s) t a -> leaving es (go_on t a s).
Proof.
  intros [H1 H2] Ha. constructor; [done|]. cbn. intros u b Hb. apply lookup_insert_Some in Hb as [[<- <-]|[_ Hb]]; [done|by apply H2].
Qed.

Lemma leaving_end es s t : leaving es s -> leaving es (move s t None).
Proof. intros Hs. apply (leaving_same _ s); [done|done|]. cbn. intros u a Ha. by apply lookup_delete_Some in Ha as [_ Ha]. Qed.

Lemma leaving_leave es s t : leaving es s -> all_gone es (effects s) t -> leaving es (leave_page (move s t None)).
Proof.
  intros [H1 H2] Ht. rewrite <- (app_nil_r es). constructor; cbn.
  - intros _. exists t. by apply all_gone_app.
  - intros u a Ha. apply lookup_delete_Some in Ha as [_ Ha]. apply stage_ok_app. by apply H2.
Qed.

Lemma leaving_failed es s e : leaving es s -> leaving es (initialize_failed s e).
Proof.
  intros Hs. unfold initialize_failed. destruct (is_temporary requested); [|by apply (leaving_same _ s)].
  apply (leaving_same _ (new_task (ClearRegistrations false) s)); [by apply leaving_new_task|done|done].
Qed.

Lemma leaving_connect es s service stun temp next c :
  leaving es s -> (forall k s, leaving es s -> leaving es (next (AwaitConnect k c) s)) -> leaving es (connect s service stun temp next c).
Proof.
  intros Hs Hn. apply Hn. apply (leaving_same _ (emit s [ConnectTo service temp])); [|done|done]. apply leaving_emit; [done|by repeat constructor].
Qed.

Lemma leaving_init : leaving [] (initialize portal_init).
Proof.
  assert (Hi : forall v, leaving [] (with_view portal_init v)).
  { constructor; cbn; [by intros ?%not_elem_of_nil|intros t a; by rewrite lookup_empty]. }
  unfold initialize. destruct (negb capable); [by apply (leaving_same _ (with_view portal_init view_init))|].
  destruct (is_temporary requested) eqn:E; (apply leaving_new_task; [|done]); (apply leaving_emit; [apply Hi|by repeat constructor]).
Qed.

Lemma leaving_temporary es s t r : leaving es s -> leaving es (initialize_temporary s t r).
Proof.
  intros Hs%(leaving_end _ _ t). unfold initialize_temporary. destruct r as [[stun service]|e]; [|by apply leaving_failed].
  destruct (_ || _); [by apply leaving_failed|by apply (leaving_same _ (move s t None))].
Qed.

Lemma leaving_catalog es s t r : leaving es s -> leaving es (initialize_catalog s t r).
Proof.
  intros Hs%(leaving_end _ _ t). unfold initialize_catalog. destruct r as [[stun catalog]|e]; [|by apply leaving_failed].
  assert (Hr : leaving es (render (move s t None) catalog)) by (by apply (leaving_same _ (move s t None))).
  destruct requested; [|done]. destruct (List.find _ _); [|by apply leaving_failed].
  apply leaving_connect; [done|]. intros k s' Hs'. by apply leaving_go_on.
Qed.

Lemma leaving_returned es s t c r : leaving es s -> leaving es (returned s t c r).
Proof.
  intros Hs%(leaving_end _ _ t). unfold returned. destruct r, c; try done; [by apply leaving_failed|by apply (leaving_same _ (move s t None))].
Qed.

Lemma leaving_connect_click es s value s' : leaving es s -> temporary_connect_click s value = Some s' -> leaving es s'.
Proof.
  intros Hs. unfold temporary_connect_click. destruct (temporaryService s); [|by intros [= <-]].
  destruct (parseTemporaryURL _ _); [destruct (temporary_target _); [|done]|]; intros [= <-]; [|by apply (leaving_same _ s)].
  apply leaving_connect; [by apply (leaving_same _ s)|]. intros k s' Hs'. by apply leaving_new_task.
Qed.

Lemma leaving_created es s t r : leaving es s -> leaving es (created s t r).
Proof.
  intros Hs%(leaving_end _ _ t). unfold created. destruct r as [service|e]; [|by apply (leaving_same _ (move s t None))].
  destruct (parse_url _ _); [|by apply (leaving_same _ (move s t None))]. apply leaving_emit; [done|]. repeat constructor. discriminate.
Qed.

Lemma leaving_task es s v l a :
  leaving es s -> Forall (fun x => x <> Navigate logout_target) l -> (forall t l, stage_ok es l t a) -> leaving es (new_task a (emit (with_view s v) l)).
Proof. intros Hs Hl Ha. apply leaving_new_task; [|intros t; apply Ha]. apply leaving_emit; [|done]. by apply (leaving_same _ s). Qed.

Lemma leaving_logged_out es s t r :
  leaving es s -> suspended s !! t = Some AwaitLogout -> leaving (es ++ [PvLoggedOut t r]) (logged_out s t r).
Proof.
  intros Hs Ht. pose proof (lv_tasks _ _ Hs _ _ Ht) as Hq. cbn in Hq. apply (leaving_app _ [PvLoggedOut t r]) in Hs. unfold logged_out.
  destruct r as [[]|e]; [|by apply leaving_end]. assert (Hl : logged (es ++ [PvLoggedOut t (Ok tt)]) (effects s) t) by (split; [done|apply last_event]).
  destruct (is_temporary requested) eqn:E; [by apply leaving_go_on|]. apply leaving_leave; [done|]. split; [done|]. by rewrite E.
Qed.

Lemma leaving_cleared es s t leave :
  leaving es s -> (leave = true -> all_gone es (effects s) t) -> leaving es (cleared s t leave).
Proof. intros Hs Hg. unfold cleared. destruct leave; [apply leaving_leave; [done|by apply Hg]|by apply leaving_end]. Qed.

Lemma emitted {A} (f : A -> effect) (l : list A) fx x : x ∈ l -> f x ∈ fx ++ map f l.
Proof. intros Hx. apply elem_of_app. right. by apply list_elem_of_fmap_2. Qed.

Lemma leaving_map {A} es s (f : A -> effect) l :
  leaving es s -> (forall x, f x <> Navigate logout_target) -> leaving es (emit s (map f l)).
Proof. intros Hs Hf. apply leaving_emit; [done|]. induction l; constructor; [apply Hf|done]. Qed.

Lemma leaving_registrations es s t l leave :
  leaving es s -> suspended s !! t = Some (ClearRegistrations leave) ->
  leaving (es ++ [PvRegistrations t l]) (go_on t (ClearUnregister leave) (emit s (map Unregister (registered l)))).
Proof.
  intros Hs Ht. pose proof (lv_tasks _ _ Hs _ _ Ht) as Hq. apply (leaving_app _ [PvRegistrations t l]) in Hs.
  apply leaving_go_on; [by apply leaving_map|]. destruct leave; [|done]. split; [by apply logged_app|].
  exists l. split; [apply last_event|]. intros r Hr. by apply emitted.
Qed.

Lemma leaving_unregistered es s t r leave :
  leaving es s -> suspended s !! t = Some (ClearUnregister leave) ->
  leaving (es ++ [PvUnregistered t r])
    (match r with Throw _ => move s t None | Ok _ => if has_caches then go_on t (ClearKeys leave) s else cleared s t leave end).
Proof.
  intros Hs Ht. pose proof (lv_tasks _ _ Hs _ _ Ht) as Hq. apply (stage_ok_app _ [PvUnregistered t r] _ []) in Hq. rewrite app_nil_r in Hq.
  apply (leaving_app _ [PvUnregistered t r]) in Hs. destruct r as [done|e]; [|by apply leaving_end].
  assert (Hg : leave = true -> workers_gone (es ++ [PvUnregistered t (Ok done)]) (effects s) t) by (intros ->; split; [exact Hq|exists done; apply last_event]).
  destruct has_caches eqn:Ec.
  - apply leaving_go_on; [done|]. destruct leave; [|done]. split; [done|by apply Hg].
  - apply leaving_cleared; [done|]. intros Hleave. pose proof (Hg Hleave) as Hw. split; [by apply Hw|]. intros _. by rewrite Ec.
Qed.

Lemma leaving_keys es s t l leave :
  leaving es s -> suspended s !! t = Some (ClearKeys leave) ->
  leaving (es ++ [PvKeys t l]) (go_on t (ClearDelete leave) (emit s (map DeleteCache (listed l)))).
Proof.
  intros Hs Ht. pose proof (lv_tasks _ _ Hs _ _ Ht) as Hq. apply (leaving_app _ [PvKeys t l]) in Hs.
  apply leaving_go_on; [by apply leaving_map|]. destruct leave; [|done]. destruct Hq as [Hc Hq]. split; [done|]. split; [by apply workers_gone_app|].
  exists l. split; [apply last_event|]. intros r Hr. by apply emitted.
Qed.

Lemma leaving_deleted es s t r leave :
  leaving es s -> suspended s !! t = Some (ClearDelete leave) ->
  leaving (es ++ [PvDeleted t r]) (match r with Throw _ => move s t None | Ok _ => cleared s t leave end).
Proof.
  intros Hs Ht. pose proof (lv_tasks _ _ Hs _ _ Ht) as Hq. apply (stage_ok_app _ [PvDeleted t r] _ []) in Hq. rewrite app_nil_r in Hq.
  apply (leaving_app _ [PvDeleted t r]) in Hs. destruct r as [done|e]; [|by apply leaving_end].
  apply leaving_cleared; [done|]. intros ->. destruct Hq as [Hc Hq]. split; [by apply Hq|]. intros _. rewrite Hc. split; [exact Hq|exists done; apply last_event].
Qed.

Lemma leaving_step es s e s' : leaving es s -> portal_step s e = Some s' -> leaving (es ++ [e]) s'.
Proof.
  intros Hs. pose proof (leaving_app _ [e] _ Hs) as Ha.
  destruct e as [t r|t r|n|t r|t|e|e|value|agent kv|t r|value| |t o| |t r|t l|t r|t l|t r]; cbn [portal_step];
    try (destruct (suspended s !! t) as [a|] eqn:Et; [destruct a; try done|done]); try (intros [= <-]).
  - by apply leaving_temporary.
  - by apply leaving_catalog.
  - destruct (buttons (shows s) !! n) as [service|]; [|done]. intros [= <-].
    apply leaving_new_task; [|done]. apply leaving_emit; [done|by repeat constructor].
  - destruct r as [stun|e]; [|by apply leaving_end]. apply leaving_connect; [done|intros k s' Hs'; by apply leaving_go_on].
  - destruct (finished s !! k); [|done]. intros [= <-]. by apply leaving_returned.
  - unfold page_event_step. destruct (from_outside _ _); [|done]. destruct (page_step _ _) as [p|]; [|done].
    intros [= <-]. destruct (call_ends _ _) as [[k r]|]; by apply (leaving_same _ s).
  - destruct (BindingPanel.step _ _); [|done]. intros [= <-]. by apply (leaving_same _ s).
  - destruct (temporaryConnectDisabled _); [done|]. by apply leaving_connect_click.
  - destruct (temporaryCreateDisabled _); [done|]. intros [= <-]. apply leaving_task; [done|by repeat constructor|done].
  - by apply leaving_created.
  - destruct (diagnosticsDisabled _); [done|]. intros [= <-]. unfold dns_click. destruct (control (pg s)); [|done].
    destruct (trim value); [done|]. apply leaving_task; [done|by repeat constructor|done].
  - destruct (diagnosticsDisabled _); [done|]. intros [= <-]. unfold ping_click. destruct (control (pg s)); [|done].
    apply leaving_task; [done|by repeat constructor|done].
  - by apply (leaving_same _ (move s t None) _ (leaving_end _ _ t Ha)).
  - by apply (leaving_same _ (move s t None) _ (leaving_end _ _ t Ha)).
  - apply leaving_new_task; [|intros t; cbn; apply elem_of_app; right; by apply list_elem_of_singleton].
    apply leaving_emit; [by apply (leaving_same _ s)|by repeat constructor].
  - by apply leaving_logged_out.
  - by apply leaving_registrations.
  - by apply leaving_unregistered.
  - by apply leaving_keys.
  - by apply leaving_deleted.
Qed.

Lemma leaving_run es s : portal_run es s -> leaving es s.
Proof. induction 1 as [|es e s s' _ IH Hs]; [exact leaving_init|by eapply leaving_step]. Qed.

(** C12. The page leaves for the login only when the controller has answered the logout, and on a temporary host only
    when, after that, both listings were answered, each worker and each cache that they list was asked to go, and none
    of these calls was rejected.  A listing that is rejected lists nothing, and an answer [false] is not looked at: the
    page then leaves all the same ([unlisted_origin_kept]). *)
Theorem logout_clears_origin (es : list portal_event) (s : portal) :
  portal_run es s -> Navigate (js "/auth/logout") ∈ effects s ->
  exists t, Asked logout_request ∈ effects s /\ PvLoggedOut t (Ok tt) ∈ es
    /\ (is_temporary requested = true ->
        (exists a, PvRegistrations t a ∈ es /\ (forall workers r, a = Some (Ok workers) -> r ∈ workers -> Unregister r ∈ effects s))
        /\ (exists unregistered, PvUnregistered t (Ok unregistered) ∈ es)
        /\ (has_caches = true ->
            (exists a, PvKeys t a ∈ es /\ (forall names n, a = Ok names -> n ∈ names -> DeleteCache n ∈ effects s))
            /\ (exists deleted, PvDeleted t (Ok deleted) ∈ es))).
Proof.
  intros Hr%leaving_run Hin. destruct (lv_nav _ _ Hr Hin) as (t & [H1 H2] & H3). exists t. split; [done|]. split; [done|]. intros Htmp.
  specialize (H3 Htmp).
  assert (Hg : workers_gone es (effects s) t) by (destruct has_caches; [apply H3|done]).
  destruct Hg as [(_ & a & Ha & Hw) Hu]. split; [exists a; split; [done|]; intros l r -> Hl; by apply Hw|]. split; [done|].
  intros Hc. rewrite Hc in H3. destruct H3 as [(_ & b & Hb & Hn) Hd].
  split; [|done]. exists b. split; [done|]. intros l n -> Hl. by apply Hn.
Qed.

(** ** The page below *)

Lemma on_page_consistent s e : consistent (pg s) -> consistent (pg (on_page s e)).
Proof. intros Hc. unfold on_page. cbn. destruct (page_step (pg s) e) eqn:E; [by eapply consistent_step|done]. Qed.

Lemma consistent_begin p service stun temp : consistent p -> consistent (connect_begin p service stun temp).
Proof. intros Hc. by apply (consistent_step p (EvConnect service stun temp)). Qed.

Lemma portal_step_page s e s' : portal_step s e = Some s' -> consistent (pg s) -> consistent (pg s').
Proof.
  intros Hs Hc.
  destruct e as [t r|t r|n|t r|t|e|e|value|agent kv|t r|value| |t o| |t r|t l|t r|t l|t r]; cbn [portal_step] in Hs;
    try (destruct (suspended s !! t) as [a|]; [destruct a; try done|done]);
    unfold initialize_temporary, initialize_catalog, returned, temporary_connect_click, created, dns_click, ping_click, logout_click, logged_out,
      cleared, initialize_failed, fail, page_event_step, option_map in Hs;
    repeat case_match; simplify_eq/=; try done;
    first [by apply consistent_begin|by apply consistent_failP2P|by apply consistent_close|by apply (consistent_same (pg s))|by eapply consistent_step].
Qed.

Lemma portal_page_consistent es s : portal_run es s -> consistent (pg s).
Proof.
  induction 1 as [|es e s s' _ IH Hs]; [|by eapply portal_step_page].
  assert (Hi : consistent page_init) by (by constructor). unfold initialize, fail, on_page.
  destruct (negb capable); [by apply (consistent_same page_init)|]. by destruct (is_temporary requested).
Qed.

(** A diagnostic button that can be pressed always has a client to ask: a ping is
    always sent, and a name is looked up exactly when it is not blank. *)
Theorem diagnostics_reach_client (es : list portal_event) (s : portal) (value : jsstr) :
  portal_run es s -> diagnosticsDisabled (pg s) = false ->
  exists i, control (pg s) = Some i
    /\ effects (ping_click s) = effects s ++ [Diagnose i None]
    /\ effects (dns_click s value) = effects s ++ (match trim value with [] => [] | name => [Diagnose i (Some name)] end).
Proof.
  intros [Hd _ _]%portal_page_consistent Hb. unfold ping_click, dns_click. destruct (control (pg s)) as [i|].
  - exists i. split; [done|]. split; [done|]. destruct (trim value); [by rewrite app_nil_r|done].
  - rewrite (proj2 Hd eq_refl) in Hb. done.
Qed.

(** ** The connect button of a temporary entry *)

(** The listener of the button, as task [t], awaits call [k] of [connect]. *)
Definition entry_call (s : portal) (t k : nat) : Prop := suspended s !! t = Some (AwaitConnect k FromTemporary).

(** While it does, the button is disabled, and there is no second such task. *)
Definition entry_ok (s : portal) : Prop :=
  forall t k, entry_call s t k -> temporaryConnectDisabled (shows s) = true /\ (k < issued (pg s))%nat
    /\ forall t' k', entry_call s t' k' -> t' = t.

(** Nothing is left that could enable the button again: the calls that are awaited have returned normally. *)
Record stuck (s : portal) : Prop := {
  stk_button : temporaryConnectDisabled (shows s) = true;
  stk_calls : forall t k, entry_call s t k ->
    (k < issued (pg s))%nat /\ calls (pg s) !! k = None /\ finished s !! k = Some (Ok tt)
}.

Lemma on_page_later s e : later (pg s) (pg (on_page s e)).
Proof. unfold on_page. cbn. destruct (page_step (pg s) e) eqn:E; [by eapply later_step|by apply later_same]. Qed.

Lemma portal_step_later s e s' : portal_step s e = Some s' -> later (pg s) (pg s').
Proof.
  intros Hs. assert (Hr : later (pg s) (pg s)) by (by apply later_same).
  destruct e as [t r|t r|n|t r|t|e|e|value|agent kv|t r|value| |t o| |t r|t l|t r|t l|t r]; cbn [portal_step] in Hs;
    try (destruct (suspended s !! t) as [a|]; [destruct a; try done|done]);
    unfold initialize_temporary, initialize_catalog, returned, temporary_connect_click, created, dns_click, ping_click, logout_click, logged_out,
      cleared, initialize_failed, fail, page_event_step, option_map, connect in Hs;
    repeat case_match; simplify_eq/=; try done; first [by apply later_same|apply later_failP2P|by eapply later_step|by eapply (later_step _ EvUnload)|by eapply (later_step _ (EvConnect _ _ _))].
Qed.

(** Only a click on the button makes a task that awaits [connect] for the entry; it disables the button. *)
Lemma entry_call_new s e s' t k :
  portal_step s e = Some s' -> entry_call s' t k ->
  entry_call s t k
  \/ temporaryConnectDisabled (shows s) = false /\ t = next_task s /\ temporaryConnectDisabled (shows s') = true /\ (k < issued (pg s'))%nat.
Proof.
  unfold entry_call. intros Hs Hq.
  destruct e as [u r|u r|n|u r|u|e|e|value|agent kv|u r|value| |u o| |u r|u l|u r|u l|u r]; cbn [portal_step] in Hs;
    try (destruct (suspended s !! u) as [a|] eqn:Et; [destruct a; try done|done]);
    unfold initialize_temporary, initialize_catalog, returned, temporary_connect_click, created, dns_click, ping_click, logout_click, logged_out,
      cleared, initialize_failed, fail, page_event_step, option_map in Hs;
    repeat case_match; simplify_eq/=;
    repeat first [apply lookup_insert_Some in Hq as [[_ ?]|[_ Hq]]; [discriminate|]|apply lookup_delete_Some in Hq as [_ Hq]];
    try (by left).
  apply lookup_insert_Some in Hq as [[<- [= <-]]|[_ Hq]]; [right|by left]. do 3 (split; [done|]). cbn. rewrite (proj2 (close_direct_calls (pg s))). lia.
Qed.

(** The button is enabled again only when a call for the entry has thrown. *)
Lemma button_kept s e s' :
  portal_step s e = Some s' -> temporaryConnectDisabled (shows s) = true ->
  temporaryConnectDisabled (shows s') = true \/ exists t k x, e = PvReturn t /\ entry_call s t k /\ finished s !! k = Some (Throw x).
Proof.
  unfold entry_call. intros Hs Hb.
  destruct e as [u r|u r|n|u r|u|e|e|value|agent kv|u r|value| |u o| |u r|u l|u r|u l|u r]; cbn [portal_step] in Hs;
    try (destruct (suspended s !! u) as [a|] eqn:Et; [destruct a; try done|done]);
    unfold initialize_temporary, initialize_catalog, returned, created, dns_click, ping_click, logout_click, logged_out,
      cleared, initialize_failed, fail, page_event_step, option_map in Hs;
    repeat case_match; simplify_eq/=; try congruence; try (by left). right. by eexists _, _, _.
Qed.

Lemma finished_kept s e s' k r :
  portal_step s e = Some s' -> calls (pg s) !! k = None -> finished s !! k = Some r -> finished s' !! k = Some r.
Proof.
  intros Hs Hc Hf.
  destruct e as [u r'|u r'|n|u r'|u|e|e|value|agent kv|u r'|value| |u o| |u r'|u l|u r'|u l|u r']; cbn [portal_step] in Hs;
    try (destruct (suspended s !! u) as [a|] eqn:Et; [destruct a; try done|done]);
    unfold initialize_temporary, initialize_catalog, returned, temporary_connect_click, created, dns_click, ping_click, logout_click, logged_out,
      cleared, initialize_failed, fail, page_event_step, option_map in Hs;
    repeat case_match; simplify_eq/=; try done.
  rewrite lookup_insert_ne; [done|]. intros ->.
  match goal with H : call_ends _ _ = Some _ |- _ => unfold call_ends in H; rewrite ?Hc in H; repeat case_match; simplify_eq end.
Qed.

Lemma stuck_kept s e s' : portal_step s e = Some s' -> stuck s -> stuck s'.
Proof.
  intros Hs [Hb Hc]. constructor.
  - destruct (button_kept _ _ _ Hs Hb) as [?|(t & k & x & -> & Hk & Hx)]; [done|]. destruct (Hc _ _ Hk) as (_ & _ & E). congruence.
  - intros t k Hk. destruct (entry_call_new _ _ _ _ _ Hs Hk) as [Hk0|(Hf & _)]; [|congruence].
    destruct (Hc _ _ Hk0) as (H1 & H2 & H3). destruct (portal_step_later _ _ _ Hs) as [L1 L2].
    split; [lia|]. split; [by apply L2|by eapply finished_kept].
Qed.

Lemma entry_ok_step s e s' : portal_step s e = Some s' -> entry_ok s -> entry_ok s'.
Proof.
  intros Hs Hc t k Hk. destruct (portal_step_later _ _ _ Hs) as [L1 _].
  destruct (entry_call_new _ _ _ _ _ Hs Hk) as [Hk0|(Hf & -> & Hb & Hi)].
  - destruct (Hc _ _ Hk0) as (H1 & H2 & H3). split; [|split; [lia|]].
    + destruct (button_kept _ _ _ Hs H1) as [?|(u & j & x & -> & Hu & Hx)]; [done|]. exfalso.
      pose proof (H3 _ _ Hu) as ->. unfold entry_call in Hu, Hk. cbn in Hs. rewrite Hu, Hx in Hs.
      injection Hs as <-. cbn in Hk. by rewrite lookup_delete_eq in Hk.
    + intros t' k' Hk'. destruct (entry_call_new _ _ _ _ _ Hs Hk') as [Hk1|(Hf & _)]; [by eapply H3|congruence].
  - split; [done|]. split; [done|]. intros t' k' Hk'.
    destruct (entry_call_new _ _ _ _ _ Hs Hk') as [Hk1|(_ & -> & _)]; [|done]. destruct (Hc _ _ Hk1). congruence.
Qed.

Lemma entry_ok_run es s : portal_run es s -> entry_ok s.
Proof.
  induction 1 as [|es e s s' _ IH Hs]; [|by eapply entry_ok_step]. intros t k. unfold entry_call, initialize.
  destruct (negb capable); [cbn; by rewrite lookup_empty|]. destruct (is_temporary requested); cbn;
    (intros Hq; apply lookup_insert_Some in Hq as [[_ ?]|[_ Hq]]; [done|by rewrite lookup_empty in Hq]).
Qed.

(** The ways in which call [k] of [connect] fails behind [agentOnline]: the Agent is offline, the connection is refused,
    or the transport or the page cannot be loaded. *)
Definition connection_fails (p : page) (k : nat) (e : page_event) (x : jserror) : Prop :=
  (exists made, e = EvAgent k (Ok false) made /\ x = agent_offline)
  \/ (e = EvContinue k (Ok tt) /\ calls p !! k = Some (PRefused x))
  \/ (e = EvContinue k (Throw x) /\ exists i, calls p !! k = Some (PTransport i) \/ calls p !! k = Some (PLoad i)).

Lemma connection_fails_ends s k e x s1 :
  connection_fails (pg s) k e x -> portal_step s (PvPage e) = Some s1 ->
  suspended s1 = suspended s /\ shows s1 = shows s /\ status (pg s1) = SFailed x /\ calls (pg s1) !! k = None /\ finished s1 !! k = Some (Ok tt).
Proof.
  assert (Hd : forall p e, calls (failP2P (set_calls p (delete k (calls p))) e) !! k = None).
  { intros p e'. unfold failP2P, shut. cbn. rewrite (proj1 (close_direct_calls _)). apply lookup_delete_eq. }
  intros Hf. cbn [portal_step]. unfold page_event_step.
  destruct Hf as [(made & -> & ->)|[[-> Hk]|(-> & i & Hk)]]; cbn [from_outside page_step call_ends].
  - destruct (calls (pg s) !! k) as [[]|]; try done. cbn [connect_online]. intros [= <-]. cbn. repeat split; [apply (Hd (pg s) agent_offline)|apply lookup_insert_eq].
  - rewrite Hk. cbn [connect_continue]. intros [= <-]. cbn. repeat split; [apply (Hd (pg s) agent_offline)|apply lookup_insert_eq].
  - destruct Hk as [Hk|Hk]; rewrite Hk; cbn [connect_continue]; intros [= <-]; cbn; (repeat split; [apply (Hd (pg s) agent_offline)|apply lookup_insert_eq]).
Qed.

Fixpoint portal_exec (s : portal) (es : list portal_event) : option portal :=
  match es with
  | [] => Some s
  | e :: es' => match portal_step s e with Some s' => portal_exec s' es' | None => None end
  end.

Lemma portal_exec_run es : forall es0 s0 s, portal_run es0 s0 -> portal_exec s0 es = Some s -> portal_run (es0 ++ es) s.
Proof.
  induction es as [|e es IH]; intros es0 s0 s H1; cbn.
  - intros [= <-]. by rewrite app_nil_r.
  - destruct (portal_step s0 e) as [s1|] eqn:E; [|done]. intros Hx. change (e :: es) with ([e] ++ es). rewrite app_assoc.
    eapply IH; [|exact Hx]. by econstructor.
Qed.

Lemma stuck_exec es : forall s s', stuck s -> portal_exec s es = Some s' -> stuck s'.
Proof.
  induction es as [|e es IH]; intros s s' Hs; cbn; [by intros [= <-]|].
  destruct (portal_step s e) eqn:E; [|done]. apply IH. by eapply stuck_kept.
Qed.

(** C40. When the connection of a temporary entry fails behind [agentOnline] (the Agent is offline, the connection is
    refused, or the transport or the page cannot be loaded), the failure is reported, and in every continuation the
    button of the entry stays disabled: [connect] returns normally, so that the [catch] that would enable the button is
    not reached. *)
Theorem failed_entry_cannot_retry (es : list portal_event) (s s1 : portal) (t k : nat) (e : page_event) (x : jserror) :
  portal_run es s -> entry_call s t k -> connection_fails (pg s) k e x -> portal_step s (PvPage e) = Some s1 ->
  status (pg s1) = SFailed x
  /\ forall es' s', portal_exec s1 es' = Some s' -> temporaryConnectDisabled (shows s') = true.
Proof.
  intros Hr%entry_ok_run Hk Hf Hs. destruct (Hr _ _ Hk) as (Hb & Hi & Hu). destruct (portal_step_later _ _ _ Hs) as [L1 _].
  destruct (connection_fails_ends _ _ _ _ _ Hf Hs) as (E1 & E2 & E3 & E4 & E5). split; [done|].
  intros es' s' He. eapply stk_button, stuck_exec; [|exact He]. constructor; [by rewrite E2|].
  unfold entry_call in *. rewrite E1. intros u j Hj. pose proof (Hu _ _ Hj) as ->. assert (j = k) as -> by congruence.
  split; [lia|done].
Qed.

End WithEngine.

(** ** Concrete pages *)

Definition entry_host : jsstr := js "tmp-7f3a.vpn.example.com".
Definition entry_service : Service :=
  {| id := js "AAAAAAAAAAAAAAAAAAAAAA"; agent_id := js "a"; slug := js "tmp-7f3a"; display_name := js "临时 HTTPS 服务"; s_kind := Https;
     enabled := true; temporary := Some true |}.

#[local] Existing Instance ascii_case.
#[local] Existing Instance plain_platform.

(** The user opens a temporary entry and gives a target. *)
Definition demo_entry : list portal_event := [PvTemporary 0 (Ok (stun_urls, entry_service)); PvConnectClick (js "https://nas.lan:8443/ui")].
Definition demo_leave : list portal_event :=
  [PvLogoutClick; PvLoggedOut 2 (Ok tt); PvRegistrations 2 (Some (Ok [7%nat])); PvUnregistered 2 (Ok [true]);
   PvKeys 2 (Ok [js "scramjet"]); PvDeleted 2 (Ok [true])].

(** The same with both listings rejected. *)
Definition demo_unlisted : list portal_event :=
  [PvLogoutClick; PvLoggedOut 2 (Ok tt); PvRegistrations 2 (Some (Throw (PlatformError "InvalidStateError"))); PvUnregistered 2 (Ok []);
   PvKeys 2 (Throw (PlatformError "SecurityError")); PvDeleted 2 (Ok [])].

Definition entry_start : portal := initialize entry_host true portal_init.
Definition entry_state (es : list portal_event) : portal := default entry_start (portal_exec entry_host true entry_start es).

Lemma entry_run es : (if portal_exec entry_host true entry_start es then true else false) = true -> portal_run entry_host true true es (entry_state es).
Proof.
  unfold entry_state. destruct (portal_exec _ _ _ es) as [s|] eqn:E; [|done]. intros _.
  apply (portal_exec_run entry_host true true es [] entry_start s); [constructor|exact E].
Qed.

Definition demo_target : TemporaryTarget := {| ControlClient.host := js "nas.lan"; ControlClient.port := 8443; ControlClient.kind := js "https" |}.
Definition demo_remote : url := mkUrl (js "https") [] [] (js "nas.lan") (Some 8443) [js "ui"] None None None.

Theorem connects_confined_witness :
  effects (entry_state demo_entry) = [Asked config_request; Asked current_request; ConnectTo entry_service (Some (demo_target, demo_remote))]
  /\ effective_port demo_remote = Some (ControlClient.port demo_target).
Proof.
  assert (E : effects (entry_state demo_entry) = [Asked config_request; Asked current_request; ConnectTo entry_service (Some (demo_target, demo_remote))])
    by (vm_compute; reflexivity).
  split; [exact E|].
  apply (connects_confined entry_host true true demo_entry (entry_state demo_entry) entry_service (Some (demo_target, demo_remote))).
  - apply entry_run. vm_compute. reflexivity.
  - rewrite E. apply elem_of_cons. right. apply elem_of_cons. right. by apply list_elem_of_singleton.
Defined.

Theorem logout_clears_witness :
  let s := entry_state (demo_entry ++ demo_leave) in
  exists t, Asked logout_request ∈ effects s /\ PvLoggedOut t (Ok tt) ∈ demo_entry ++ demo_leave
    /\ (exists u, PvUnregistered t (Ok u) ∈ demo_entry ++ demo_leave) /\ (exists d, PvDeleted t (Ok d) ∈ demo_entry ++ demo_leave).
Proof.
  intros s.
  destruct (logout_clears_origin entry_host true true (demo_entry ++ demo_leave) s) as (t & Ha & Hl & Hrest).
  - apply entry_run. vm_compute. reflexivity.
  - assert (E : last (effects s) = Some (Navigate (js "/auth/logout"))) by (vm_compute; reflexivity).
    apply last_Some in E as [l ->]. apply elem_of_app. right. by apply list_elem_of_singleton.
  - assert (Htmp : is_temporary (requested entry_host) = true) by (vm_compute; reflexivity).
    destruct (Hrest Htmp) as (_ & Hu & Hc). exists t. split; [exact Ha|]. split; [exact Hl|]. split; [exact Hu|]. apply (Hc eq_refl).
Defined.

(** When the listings are rejected the page leaves with the workers and the caches of the temporary origin in place. *)
Theorem unlisted_origin_kept :
  exists s, portal_run entry_host true true (demo_entry ++ demo_unlisted) s
    /\ effects s = effects (entry_state demo_entry) ++ [Asked logout_request; Navigate (js "/auth/logout")].
Proof. eexists. split; [apply entry_run; vm_compute; reflexivity|vm_compute; reflexivity]. Qed.

Theorem failed_entry_witness :
  exists s, portal_exec entry_host true (entry_state demo_entry) [PvPage (EvAgent 0 (Ok false) None)] = Some s
    /\ status (pg s) = SFailed agent_offline
    /\ forall es' s', portal_exec entry_host true s es' = Some s' -> temporaryConnectDisabled (shows s') = true.
Proof.
  destruct (portal_step entry_host true (entry_state demo_entry) (PvPage (EvAgent 0 (Ok false) None))) as [s|] eqn:E; [|by vm_compute in E].
  exists s. split; [cbn [portal_exec]; by rewrite E|].
  apply (failed_entry_cannot_retry entry_host true true demo_entry (entry_state demo_entry) s 1 0 (EvAgent 0 (Ok false) None) agent_offline).
  - apply entry_run. vm_compute. reflexivity.
  - unfold entry_call. vm_compute. reflexivity.
  - left. exists None. split; reflexivity.
  - exact E.
Defined.
