(* ===== verification/ClassicUi.v ===== *)
(** * The remote desktop page ([integrations/lan-remote-access/rustdesk-web-build/classic-ui.js])

    Pointer and keyboard input, the sections of the page with the first-frame
    watchdog, and the preparation of the video decoder.  The RustDesk connection
    object is a parameter: what the page calls on it is recorded as output. *)

From stdpp Require Import base list numbers strings sets.
From Stdlib Require Import ZArith Lia SpecFloat.
From S2P Require Import Prelude JsString Regex ConnectionPolicy.
Local Open Scope Z_scope.

Module Pointer.

(** ** Pointer input *)

Definition double_sub (x y : spec_float) : spec_float := SFsub 53 1024 x y.
Definition double_div (x y : spec_float) : spec_float := SFdiv 53 1024 x y.

(** A non-negative integer below 2^53 as a double. *)
Definition double_of_Z (n : Z) : spec_float := binary_normalize 53 1024 n 0 false.

(** [Math.max(0, Math.min(size - 1, r))]; [None] is NaN, which both pass on. *)
Definition clamp (size : Z) (r : option rounded) : option Z :=
  match r with
  | None => None
  | Some (Whole n) => Some (Z.max 0 (Z.min (size - 1) n))
  | Some (Infinite negative) => Some (if negative then 0 else Z.max 0 (size - 1))
  end.

(** One coordinate of [remotePoint]. *)
Definition remote_coordinate (client start extent : spec_float) (size : Z) : option Z :=
  clamp size (math_round (double_div (double_mul (double_sub client start) (double_of_Z size)) extent)).

Record rect := { left : spec_float; top : spec_float; r_width : spec_float; r_height : spec_float }.
Record canvas := { width : Z; height : Z }.
Record pointer := { clientX : spec_float; clientY : spec_float; button : Z;
                    altKey : bool; ctrlKey : bool; shiftKey : bool; metaKey : bool }.

Definition remotePoint (c : canvas) (r : rect) (e : pointer) : option Z * option Z :=
  (remote_coordinate (clientX e) (left r) (r_width r) (width c),
   remote_coordinate (clientY e) (top r) (r_height r) (height c)).

Definition modifiers (e : pointer) : list bool := [altKey e; ctrlKey e; shiftKey e; metaKey e].

Definition buttonBits (b : Z) : Z := if b =? 0 then 1 else if b =? 2 then 2 else if b =? 1 then 4 else 0.

Definition mouse_mask (type b : Z) : Z := js_or type (js_shl (buttonBits b) 3).

Record mouse := { mask : Z; x : option Z; y : option Z; mods : list bool }.

Definition sendPointer (connected : bool) (c : canvas) (r : rect) (type : Z) (e : pointer) : list mouse :=
  if negb connected || (width c =? 0) then []
  else [{| mask := mouse_mask type (button e); x := fst (remotePoint c r e); y := snd (remotePoint c r e); mods := modifiers e |}].

(** The remote computer never gets a point outside its screen: on a canvas with at
    least one pixel a coordinate is NaN (a degenerate rectangle) or lies between
    zero and the last pixel, whatever the pointer position and the scaling. *)
Theorem remotePoint_in_canvas (c : canvas) (r : rect) (e : pointer) :
  1 <= width c -> 1 <= height c ->
  match remotePoint c r e with
  | (px, py) => (forall v, px = Some v -> 0 <= v <= width c - 1) /\ (forall v, py = Some v -> 0 <= v <= height c - 1)
  end.
Proof.
  intros Hw Hh. unfold remotePoint, remote_coordinate.
  assert (G : forall size rr v, 1 <= size -> clamp size rr = Some v -> 0 <= v <= size - 1).
  { intros size [[n|[]]|] v Hs; cbn; [| | |done]; intros [= <-]; lia. }
  split; intros v; by apply G.
Qed.

Definition sample_pointer : pointer :=
  {| clientX := double_of_Z 700; clientY := double_of_Z 5; button := 0; altKey := false; ctrlKey := true; shiftKey := false; metaKey := false |}.
Definition sample_rect : rect :=
  {| left := double_of_Z 10; top := double_of_Z 10; r_width := double_of_Z 640; r_height := double_of_Z 360 |}.

Theorem remotePoint_witness :
  remotePoint {| width := 1920; height := 1080 |} sample_rect sample_pointer = (Some 1919, Some 0)
  /\ (forall v, Some 1919 = Some v -> 0 <= v <= 1920 - 1).
Proof.
  split; [vm_compute; reflexivity|].
  assert (E : remotePoint {| width := 1920; height := 1080 |} sample_rect sample_pointer = (Some 1919, Some 0)) by (vm_compute; reflexivity).
  pose proof (remotePoint_in_canvas {| width := 1920; height := 1080 |} sample_rect sample_pointer ltac:(cbn; lia) ltac:(cbn; lia)) as H.
  rewrite E in H. exact (proj1 H).
Defined.

(** The mask keeps the event type and the buttons apart. *)
Lemma mouse_mask_fields type b : 0 <= type < 8 -> mouse_mask type b mod 8 = type /\ mouse_mask type b / 8 = buttonBits b.
Proof.
  intros Ht. assert (Hb : buttonBits b = 0 \/ buttonBits b = 1 \/ buttonBits b = 2 \/ buttonBits b = 4).
  { unfold buttonBits. repeat case_match; auto. }
  unfold mouse_mask. assert (type = 0 \/ type = 1 \/ type = 2 \/ type = 3 \/ type = 4 \/ type = 5 \/ type = 6 \/ type = 7) as D by lia.
  destruct Hb as [-> | [-> | [-> | ->]]]; repeat destruct D as [-> | D]; try subst type; vm_compute; done.
Qed.

(** *** Moves are coalesced per animation frame *)

Record move_state := { pendingMove : option pointer; moveFrame : bool }.

Inductive move_event := EMove (e : pointer) | EFrame.

(** The pointer position a frame sends, before conversion. *)
Definition move_step (s : move_state) (e : move_event) : option (move_state * list pointer) :=
  match e with
  | EMove p => Some ({| pendingMove := Some p; moveFrame := true |}, [])
  | EFrame =>
      if moveFrame s
      then Some ({| pendingMove := None; moveFrame := false |}, match pendingMove s with Some p => [p] | None => [] end)
      else None
  end.

Inductive move_run : list move_event -> move_state -> list pointer -> Prop :=
| move_nil : move_run [] {| pendingMove := None; moveFrame := false |} []
| move_snoc es e s s' out o : move_run es s out -> move_step s e = Some (s', o) -> move_run (es ++ [e]) s' (out ++ o).

(** The last move since the last frame. *)
Definition latest (es : list move_event) : option pointer :=
  fold_left (fun acc e => match e with EMove p => Some p | EFrame => None end) es None.

(** What should be sent: at each frame, the latest move before it. *)
Fixpoint coalesced (es : list move_event) (acc : option pointer) : list pointer :=
  match es with
  | [] => []
  | EMove p :: r => coalesced r (Some p)
  | EFrame :: r => (match acc with Some p => [p] | None => [] end) ++ coalesced r None
  end.

Lemma coalesced_snoc es e : forall acc,
  coalesced (es ++ [e]) acc
  = coalesced es acc ++ match e with
                        | EFrame => match fold_left (fun a e => match e with EMove p => Some p | EFrame => None end) es acc with
                                    | Some p => [p] | None => [] end
                        | EMove _ => []
                        end.
Proof.
  induction es as [|[p|] es IH]; intros acc; cbn.
  - destruct e; cbn; by rewrite ?app_nil_r.
  - apply IH.
  - by rewrite IH, app_assoc.
Qed.

(** Pointer moves are coalesced without loss of the last one: an animation frame is
    requested exactly while a move waits, and each frame sends the latest
    position, once. *)
Theorem moves_coalesced (es : list move_event) (s : move_state) (out : list pointer) :
  move_run es s out ->
  out = coalesced es None /\ pendingMove s = latest es /\ (moveFrame s = true <-> is_Some (pendingMove s)).
Proof.
  induction 1 as [|es e s s' out o _ (IH1 & IH2 & IH3) Hs]; [repeat split; [done|]; by intros []|].
  unfold latest in *. rewrite coalesced_snoc, fold_left_app. destruct e as [p|]; cbn in Hs.
  - injection Hs as <- <-. rewrite !app_nil_r. repeat split; [done|by eexists].
  - destruct (moveFrame s); [|done]. injection Hs as <- <-. rewrite IH1, IH2. repeat split; [done|]. by intros [].
Qed.

Theorem moves_coalesced_witness :
  move_run [EMove sample_pointer; EMove sample_pointer; EFrame] {| pendingMove := None; moveFrame := false |} [sample_pointer]
  /\ [sample_pointer] = coalesced [EMove sample_pointer; EMove sample_pointer; EFrame] None.
Proof.
  assert (Hr : move_run [EMove sample_pointer; EMove sample_pointer; EFrame] {| pendingMove := None; moveFrame := false |} [sample_pointer]).
  { apply (move_snoc [EMove sample_pointer; EMove sample_pointer] EFrame {| pendingMove := Some sample_pointer; moveFrame := true |} _ [] [sample_pointer]); [|done].
    apply (move_snoc [EMove sample_pointer] (EMove sample_pointer) {| pendingMove := Some sample_pointer; moveFrame := true |} _ [] []); [|done].
    apply (move_snoc [] (EMove sample_pointer) {| pendingMove := None; moveFrame := false |} _ [] []); [constructor|done]. }
  split; [exact Hr|exact (proj1 (moves_coalesced _ _ _ Hr))].
Defined.

End Pointer.

Module Keyboard.

(** ** Keyboard input *)

(** [/^Key[A-Z]$/], [/^Digit[0-9]$/], [/^F(?:[1-9]|1[0-2])$/] and [/^Numpad[0-9]$/] *)
Definition key_re : regex := rseq [RBol; lit chr (js "Key"); RSet is_upper; REol].
Definition digit_re : regex := rseq [RBol; lit chr (js "Digit"); RSet is_digit; REol].
Definition function_re : regex :=
  rseq [RBol; RSet (chr 70);
        RAlt (RSet (fun c => (49 <=? c) && (c <=? 57)))
             (RSeq (RSet (chr 49)) (RSet (fun c => (48 <=? c) && (c <=? 50)))); REol].
Definition numpad_re : regex := rseq [RBol; lit chr (js "Numpad"); RSet is_digit; REol].

Definition keyNames : list (jsstr * jsstr) :=
  map (fun '(a, b) => (js a, js b))
  [("Enter", "VK_RETURN"); ("NumpadEnter", "VK_ENTER"); ("Backspace", "VK_BACK"); ("Tab", "VK_TAB");
   ("Escape", "VK_ESCAPE"); ("Space", "VK_SPACE"); ("PageUp", "VK_PRIOR"); ("PageDown", "VK_NEXT");
   ("End", "VK_END"); ("Home", "VK_HOME"); ("ArrowLeft", "VK_LEFT"); ("ArrowUp", "VK_UP");
   ("ArrowRight", "VK_RIGHT"); ("ArrowDown", "VK_DOWN"); ("Insert", "VK_INSERT"); ("Delete", "VK_DELETE");
   ("ShiftLeft", "VK_SHIFT"); ("ShiftRight", "RShift"); ("ControlLeft", "VK_CONTROL"); ("ControlRight", "RControl");
   ("AltLeft", "VK_MENU"); ("AltRight", "RAlt"); ("MetaLeft", "Meta"); ("MetaRight", "RWin");
   ("Comma", "VK_COMMA"); ("Slash", "VK_SLASH"); ("Semicolon", "VK_SEMICOLON"); ("Quote", "VK_QUOTE");
   ("BracketLeft", "VK_LBRACKET"); ("BracketRight", "VK_RBRACKET"); ("Backslash", "VK_BACKSLASH");
   ("Minus", "VK_MINUS"); ("Equal", "VK_PLUS")]%string.

(** A key name, an inherited member of [Object.prototype], or [undefined]. *)
Definition remoteKey `{UnicodeCase} (code : jsstr) : lookup_result :=
  if test key_re code then Own (js "VK_" ++ slice_from code 3)
  else if test digit_re code then Own (js "VK_" ++ slice_from code 5)
  else if test function_re code then Own (js "VK_" ++ code)
  else if test numpad_re code then Own (js "VK_" ++ toUpperCase code)
  else literal_lookup keyNames code.

(** [sendKey], for the codes browsers produce; [None] when nothing is sent. *)
Definition sendKey `{UnicodeCase} (connected : bool) (code : jsstr) (down repeat : bool) (mods : list bool)
  : option (jsstr * bool * bool * list bool) :=
  match remoteKey code with
  | Own name => match name with [] => None | _ => if connected then Some (name, down, repeat, mods) else None end
  | _ => None
  end.

(** *** No two keys share a name *)

(** The codes that are sent. *)
Definition codes : list jsstr :=
  map (fun c => js "Key" ++ [c]) (seqZ 65 26) ++ map (fun c => js "Digit" ++ [c]) (seqZ 48 10)
  ++ map (fun c => [70; c]) (seqZ 49 9) ++ map (fun c => [70; 49; c]) (seqZ 48 3)
  ++ map (fun c => js "Numpad" ++ [c]) (seqZ 48 10) ++ map fst keyNames.

Lemma bounded_elem f a n c : (forall c, f c = true -> a <= c < a + n) -> f c = true -> c ∈ seqZ a n.
Proof. intros H Hc. apply elem_of_seqZ. by apply H. Qed.

(** A pattern [^literal[class]$] matches the literal and one character. *)
Lemma anchored_class s f code :
  test (rseq [RBol; lit chr s; RSet f; REol]) code = true -> exists c, code = s ++ [c] /\ f c = true.
Proof.
  rewrite test_spec. cbn [rseq]. intros (u & t & v & -> & M). apply Matches_seq in M as (x0 & y0 & -> & M0 & M).
  apply Matches_bol in M0 as [Hu ->]. apply (f_equal (@rev Z)) in Hu. rewrite rev_involutive in Hu. subst u.
  apply Matches_seq in M as (x1 & y1 & -> & M1 & M). apply Matches_lit, lit_chr in M1 as ->.
  apply Matches_seq in M as (x2 & y2 & -> & M2 & M). apply Matches_set in M2 as (c & -> & Hc).
  apply Matches_eol in M as [-> ->]. exists c. cbn. by rewrite app_nil_r.
Qed.

Lemma function_codes code :
  test function_re code = true ->
  code ∈ map (fun c => [70; c]) (seqZ 49 9) \/ code ∈ map (fun c => [70; 49; c]) (seqZ 48 3).
Proof.
  rewrite test_spec. unfold function_re. cbn [rseq]. intros (u & t & v & -> & M). apply Matches_seq in M as (x0 & y0 & -> & M0 & M).
  apply Matches_bol in M0 as [Hu ->]. apply (f_equal (@rev Z)) in Hu. rewrite rev_involutive in Hu. subst u.
  apply Matches_seq in M as (x1 & y1 & -> & M1 & M). apply Matches_set in M1 as (c1 & -> & Hc1).
  apply Matches_seq in M as (x2 & y2 & -> & M2 & M). apply Matches_eol in M as [-> ->]. unfold chr in Hc1. bool_prop. subst c1.
  cbn [rev app]. rewrite !app_nil_r. apply Matches_alt in M2 as [M2|M2].
  - apply Matches_set in M2 as (c & -> & Hc). left. apply list_elem_of_fmap. exists c. split; [done|].
    apply elem_of_seqZ. lia.
  - apply Matches_seq in M2 as (a & b & -> & Ma & Mb). apply Matches_set in Ma as (c & -> & Hc). apply Matches_set in Mb as (d & -> & Hd).
    unfold chr in Hc. bool_prop. subst c. right. apply list_elem_of_fmap. exists d. split; [done|]. apply elem_of_seqZ. lia.
Qed.

Lemma literal_lookup_own table key v : literal_lookup table key = Own v -> key ∈ map fst table.
Proof.
  induction table as [|[k w] table IH]; cbn; [by case_match|]. destruct (str_eqb k key) eqn:E.
  - apply str_eqb_eq in E as ->. intros _. by left.
  - intros H. right. by apply IH.
Qed.

Lemma remoteKey_codes `{UnicodeCase} code n : remoteKey code = Own n -> code ∈ codes.
Proof.
  unfold remoteKey, codes. rewrite !elem_of_app.
  assert (Hu : forall c, is_upper c = true -> 65 <= c < 65 + 26) by (intros c; unfold is_upper; lia).
  assert (Hd : forall c, is_digit c = true -> 48 <= c < 48 + 10) by (intros c; unfold is_digit; lia).
  destruct (test key_re code) eqn:E1.
  { apply anchored_class in E1 as (c & -> & Hc). intros _. left. apply list_elem_of_fmap. exists c. split; [done|].
    by apply (bounded_elem is_upper). }
  destruct (test digit_re code) eqn:E2.
  { apply anchored_class in E2 as (c & -> & Hc). intros _. right. left. apply list_elem_of_fmap. exists c. split; [done|].
    by apply (bounded_elem is_digit). }
  destruct (test function_re code) eqn:E3; [apply function_codes in E3 as [E3|E3]; intros _; tauto|].
  destruct (test numpad_re code) eqn:E4.
  { apply anchored_class in E4 as (c & -> & Hc). intros _. do 4 right. left. apply list_elem_of_fmap. exists c. split; [done|].
    by apply (bounded_elem is_digit). }
  intros H1%literal_lookup_own. tauto.
Qed.

Definition own_name (r : lookup_result) : jsstr := match r with Own n => n | _ => [] end.

(** The names of all codes, with an engine that does not matter for ASCII. *)
Lemma names_distinct `{UnicodeCase} : NoDup (map (fun c => own_name (remoteKey c)) codes).
Proof.
  assert (E : map (fun c => own_name (remoteKey c)) codes = map (fun c => own_name (remoteKey (H := ascii_case) c)) codes).
  { vm_compute. reflexivity. }
  rewrite E. apply (bool_decide_unpack _). vm_compute. exact I.
Qed.

(** No two keys of the keyboard are sent as the same remote key: letters, digits,
    function keys, the numeric pad and the named keys all have names of their
    own. *)
Theorem remoteKey_injective `{UnicodeCase} (c1 c2 n : jsstr) :
  remoteKey c1 = Own n -> remoteKey c2 = Own n -> c1 = c2.
Proof.
  intros H1 H2. pose proof (remoteKey_codes _ _ H1) as K1. pose proof (remoteKey_codes _ _ H2) as K2.
  apply list_elem_of_lookup in K1 as [i Hi]. apply list_elem_of_lookup in K2 as [j Hj].
  assert (i = j) as ->.
  { eapply NoDup_lookup; [exact names_distinct| |]; rewrite list_lookup_fmap, ?Hi, ?Hj; cbn; rewrite ?H1, ?H2; reflexivity. }
  congruence.
Qed.

Theorem remoteKey_witness :
  remoteKey (H := ascii_case) (js "F12") = Own (js "VK_F12")
  /\ (forall c, remoteKey (H := ascii_case) c = Own (js "VK_F12") -> c = js "F12").
Proof.
  split; [vm_compute; reflexivity|]. intros c Hc.
  refine (remoteKey_injective (H := ascii_case) c (js "F12") (js "VK_F12") Hc _). vm_compute. reflexivity.
Defined.

End Keyboard.

Module Sections.

(** ** The sections and the first-frame watchdog *)

Inductive section := Status | Password | Viewer.
#[export] Instance section_eq_dec : EqDecision section.
Proof. solve_decision. Defined.

Record ui := {
  hidden : section -> bool;
  statusText : jsstr;
  errorText : bool;             (* the class of the status text *)
  retryHidden : bool;
  sessionState : jsstr;
  canvasSize : Z * Z;
  timer : option Z;             (* [firstFrameTimer] and when it is due *)
  connected : bool;
  clock : Z
}.

Definition showOnly (s : ui) (x : section) : ui :=
  {| hidden := fun y => negb (bool_decide (y = x)); statusText := statusText s; errorText := errorText s;
     retryHidden := retryHidden s; sessionState := sessionState s; canvasSize := canvasSize s; timer := timer s;
     connected := connected s; clock := clock s |}.

Definition showStatus (s : ui) (message : jsstr) (isError : bool) : ui :=
  let s := showOnly s Status in
  {| hidden := hidden s; statusText := message; errorText := isError; retryHidden := negb isError;
     sessionState := sessionState s; canvasSize := canvasSize s; timer := timer s; connected := connected s; clock := clock s |}.

Definition set_timer (s : ui) (t : option Z) : ui :=
  {| hidden := hidden s; statusText := statusText s; errorText := errorText s; retryHidden := retryHidden s;
     sessionState := sessionState s; canvasSize := canvasSize s; timer := t; connected := connected s; clock := clock s |}.

Definition clearTimer (s : ui) : ui := set_timer s None.

Definition watchdog_text : jsstr := js "连接已建立，但 20 秒内未能解码 VP9 首帧。请重新连接后再试。".

Definition messageBox (s : ui) (type text : jsstr) : ui :=
  if str_eqb type (js "input-password") then showOnly (clearTimer s) Password
  else if str_eqb type [] then s
  else if str_eqb type (js "error") then
    showStatus (clearTimer s) (match text with [] => js "连接失败，请重试。" | _ => text end) true
  else if str_eqb type (js "connecting") then showStatus s (js "正在验证并载入远程桌面…") false
  else if str_eqb type (js "success") then
    let s := showStatus s (js "连接成功，正在等待第一帧画面…") false in
    set_timer s (Some (clock s + 20000))
  else s.

(** [connect] up to its first [await]; nothing happens later in it that shows. *)
Definition connect (s : ui) (peerId : option jsstr) : ui :=
  match peerId with
  | None | Some [] => showStatus s (js "入口没有提供有效的 RustDesk ID。") true
  | Some _ =>
      let s := showStatus (clearTimer s) (js "正在建立加密视频通道…") false in
      {| hidden := hidden s; statusText := statusText s; errorText := errorText s; retryHidden := retryHidden s;
         sessionState := sessionState s; canvasSize := canvasSize s; timer := timer s; connected := true; clock := clock s |}
  end.

Definition renderFrame (s : ui) (w h : Z) : ui :=
  let s := clearTimer s in
  showOnly {| hidden := hidden s; statusText := statusText s; errorText := errorText s; retryHidden := retryHidden s;
              sessionState := string_of_Z w ++ js " × " ++ string_of_Z h ++ js " · 已加密"; canvasSize := (w, h);
              timer := timer s; connected := connected s; clock := clock s |} Viewer.

Inductive event :=
| EConnect (peerId : option jsstr)
| EFailed (message : jsstr)     (* the final [catch] *)
| EMessage (type text : jsstr)
| EFrame (w h : Z)
| ETick (d : Z)
| ETimer.

Definition step (s : ui) (e : event) : option ui :=
  match e with
  | EConnect peerId => Some (connect s peerId)
  | EFailed m => Some (showStatus s m true)
  | EMessage type text => Some (messageBox s type text)
  | EFrame w h => Some (renderFrame s w h)
  | ETick d =>
      if 0 <=? d
      then Some {| hidden := hidden s; statusText := statusText s; errorText := errorText s; retryHidden := retryHidden s;
                   sessionState := sessionState s; canvasSize := canvasSize s; timer := timer s; connected := connected s;
                   clock := clock s + d |}
      else None
  | ETimer =>
      match timer s with
      | Some due => if due <=? clock s then Some (showStatus (clearTimer s) watchdog_text true) else None
      | None => None
      end
  end.

Definition ui_init : ui :=
  {| hidden := fun x => negb (bool_decide (x = Status)); statusText := js "正在建立加密视频通道…"; errorText := false;
     retryHidden := true; sessionState := js "加密中继"; canvasSize := (300, 150); timer := None; connected := false; clock := 0 |}.

Inductive run : list event -> ui -> Prop :=
| run_nil : run [] ui_init
| run_snoc es e s s' : run es s -> step s e = Some s' -> run (es ++ [e]) s'.

(** One section is visible, and the retry button is offered exactly for an error. *)
Record well_shown (s : ui) : Prop := {
  ws_one : exists x, forall y, hidden s y = negb (bool_decide (y = x));
  ws_retry : retryHidden s = negb (errorText s)
}.

Lemma shown_showOnly s x : retryHidden s = negb (errorText s) -> well_shown (showOnly s x).
Proof. intros H. constructor; [by exists x|done]. Qed.

Lemma shown_showStatus s m b : well_shown (showStatus s m b).
Proof. constructor; [by exists Status|done]. Qed.

Lemma shown_messageBox s ty tx : well_shown s -> well_shown (messageBox s ty tx).
Proof.
  intros [H1 H2]. unfold messageBox. repeat (destruct (str_eqb _ _));
    auto using shown_showStatus; try (by constructor); try by apply shown_showOnly.
  destruct (shown_showStatus s (js "连接成功，正在等待第一帧画面…") false). by constructor.
Qed.

Lemma shown_connect s peerId : well_shown (connect s peerId).
Proof.
  unfold connect. destruct peerId as [[|c t]|]; try apply shown_showStatus.
  destruct (shown_showStatus (clearTimer s) (js "正在建立加密视频通道…") false). by constructor.
Qed.

Lemma shown_step s e s' : well_shown s -> step s e = Some s' -> well_shown s'.
Proof.
  intros Hw. destruct e as [p|m|ty tx|w h|d|]; cbn [step].
  - intros [= <-]. apply shown_connect.
  - intros [= <-]. apply shown_showStatus.
  - intros [= <-]. by apply shown_messageBox.
  - intros [= <-]. destruct Hw as [H1 H2]. by apply shown_showOnly.
  - destruct (0 <=? d); [|done]. intros [= <-]. destruct Hw. by constructor.
  - destruct (timer s) as [due|]; [|done]. destruct (_ <=? _); [|done]. intros [= <-]. apply shown_showStatus.
Qed.

(** The remote desktop page always shows exactly one of its three sections, and
    offers to retry exactly when the status is an error. *)
Theorem one_section_shown (es : list event) (s : ui) :
  run es s ->
  (exists x, hidden s x = false /\ forall y, hidden s y = false -> y = x)
  /\ (retryHidden s = false <-> errorText s = true).
Proof.
  intros Hr. assert (Hw : well_shown s).
  { induction Hr as [|es e s s' _ IH Hs]; [constructor; [by exists Status|done]|]. by eapply shown_step. }
  destruct Hw as [[x Hx] Hre]. split.
  - exists x. split; [rewrite Hx; by rewrite bool_decide_true|]. intros y. rewrite Hx.
    intros Hy%negb_false_iff. by apply bool_decide_eq_true in Hy.
  - rewrite Hre. by destruct (errorText s).
Qed.

Theorem one_section_witness :
  exists s, run [EConnect (Some (js "123")); EMessage (js "success") []] s /\ (retryHidden s = false <-> errorText s = true).
Proof.
  assert (Hr : run [EConnect (Some (js "123")); EMessage (js "success") []] (messageBox (connect ui_init (Some (js "123"))) (js "success") [])).
  { apply (run_snoc [EConnect (Some (js "123"))] (EMessage (js "success") []) (connect ui_init (Some (js "123")))); [|reflexivity].
    apply (run_snoc [] (EConnect (Some (js "123"))) ui_init); [constructor|reflexivity]. }
  eexists. split; [exact Hr|exact (proj2 (one_section_shown _ _ Hr))].
Defined.

End Sections.

Module Decoder.

(** ** The video decoder

    [prepareVideoDecoder] loads the decoder and polls until it is ready; [ready n]
    says whether it is at the [n]-th look, and [lag n] is how much longer than the
    25 ms asked for the [n]-th wait takes. *)

Inductive outcome := Prepared (polls : nat) | TimedOut (polls : nat) | OutOfFuel.

Fixpoint wait_ready (fuel n : nat) (now deadline : Z) (ready : nat -> bool) (lag : nat -> Z) : outcome :=
  match fuel with
  | O => OutOfFuel
  | S f =>
      if ready n then Prepared n
      else if deadline <=? now then TimedOut n
      else wait_ready f (S n) (now + 25 + Z.max 0 (lag n)) deadline ready lag
  end.

(** 15 seconds hold at most 600 waits. *)
Definition prepareVideoDecoder (start : Z) (ready : nat -> bool) (lag : nat -> Z) : outcome :=
  wait_ready 601 0 start (start + 15000) ready lag.

(** The options of the overridden [loadClass]. *)
Record options := { worker : option bool; threading : option bool }.

Definition class_options (name : jsstr) (o : options) : options :=
  if str_eqb name (js "OGVDecoderVideoVP9W") then {| worker := Some false; threading := Some false |} else o.

(** The replaced [loadVideoDecoder]: the first call keeps the decoder, the others
    load one. *)
Definition loadVideoDecoder (keep : bool) : bool * bool := if keep then (false, false) else (keep, true).

Fixpoint loads (keep : bool) (calls : nat) : nat :=
  match calls with
  | O => 0
  | S n => let '(keep', loaded) := loadVideoDecoder keep in ((if loaded : bool then 1 else 0) + loads keep' n)%nat
  end.

Lemma loads_spec n : loads true n = pred n.
Proof.
  assert (H : forall n, loads false n = n) by (induction n0 as [|n0 IH]; cbn; [done|]; by rewrite IH).
  destruct n as [|n]; cbn; [done|]. apply H.
Qed.

Lemma wait_ready_spec ready lag deadline : forall fuel n now,
  deadline - now <= 25 * (Z.of_nat fuel - 1) ->
  match wait_ready fuel n now deadline ready lag with
  | Prepared k => (n <= k < n + fuel)%nat /\ ready k = true /\ forall j, (n <= j < k)%nat -> ready j = false
  | TimedOut k => (n <= k < n + fuel)%nat /\ forall j, (n <= j <= k)%nat -> ready j = false
  | OutOfFuel => fuel = 0%nat
  end.
Proof.
  induction fuel as [|f IH]; intros n now Hf; cbn [wait_ready]; [done|].
  destruct (ready n) eqn:Er; [repeat split; [lia|lia|done|lia]|].
  destruct (Z.leb_spec deadline now) as [Hd|Hd].
  - split; [lia|]. intros j Hj. by assert (j = n) as -> by lia.
  - specialize (IH (S n) (now + 25 + Z.max 0 (lag n)) ltac:(lia)).
    destruct (wait_ready f _ _ _ _ _) as [k|k|].
    + destruct IH as (Hk & Hr & Hb). repeat split; [lia|lia|done|]. intros j Hj.
      destruct (decide (j = n)) as [->|]; [done|]. apply Hb. lia.
    + destruct IH as (Hk & Hb). repeat split; [lia|lia|]. intros j Hj.
      destruct (decide (j = n)) as [->|]; [done|]. apply Hb. lia.
    + subst f. lia.
Qed.

(** Waiting for the decoder ends: however long the waits take, the decoder is found
    at the first look at which it is ready, or the function gives up after at most
    601 looks, none of which found it. *)
Theorem decoder_wait_ends (start : Z) (ready : nat -> bool) (lag : nat -> Z) :
  match prepareVideoDecoder start ready lag with
  | Prepared k => (k <= 600)%nat /\ ready k = true /\ forall j, (j < k)%nat -> ready j = false
  | TimedOut k => (k <= 600)%nat /\ forall j, (j <= k)%nat -> ready j = false
  | OutOfFuel => False
  end.
Proof.
  pose proof (wait_ready_spec ready lag (start + 15000) 601 0 start ltac:(lia)) as H. unfold prepareVideoDecoder.
  destruct (wait_ready _ _ _ _ _ _) as [k|k|]; [| |done].
  - destruct H as (Hk & Hr & Hb). split; [lia|]. split; [done|]. intros j Hj. apply Hb. lia.
  - destruct H as (Hk & Hb). split; [lia|]. intros j Hj. apply Hb. lia.
Qed.

End Decoder.
