(* ===== verification/RemoteDesk.v ===== *)
(** * The remote desktop page as a whole ([integrations/lan-remote-access/rustdesk-web-build/classic-ui.js])

    The parts of ClassicUi.v put together: the page's parameters, its start, the
    events of the RustDesk client and the listeners of the canvas, the password form
    and the toolbar.  What the page asks of the RustDesk connection and of the
    browser is recorded as output. *)

From stdpp Require Import base list numbers strings sets.
From Stdlib Require Import ZArith Lia SpecFloat.
From S2P Require Import Prelude JsString Utf8 Json ConnectionPolicy ClassicUi.
Local Open Scope Z_scope.

(** ** Parameters and start *)

(** Percent-decoding of a form-encoded text to bytes; a percent sign without two hexadecimal digits stays. *)
Fixpoint form_bytes (bs : list Z) : list Z :=
  match bs with
  | [] => []
  | c :: r =>
      if c =? 37 then
        match r with
        | a :: b :: r' =>
            match hex_digit a, hex_digit b with
            | Some x, Some y => x * 16 + y :: form_bytes r'
            | _, _ => c :: form_bytes r
            end
        | _ => c :: form_bytes r
        end
      else (if c =? 43 then 32 else c) :: form_bytes r
  end.

(** UTF-8 with faulty sequences replaced; a byte order mark stays. *)
Definition form_decode (s : jsstr) : jsstr := utf16 (map (default 0xFFFD) (utf8_decode (form_bytes (text_encode s)))).

(** The pairs of a query string. *)
Definition form_pair (s : jsstr) : jsstr * jsstr :=
  let n := indexOf 61 s in
  if n <? 0 then (form_decode s, []) else (form_decode (take (Z.to_nat n) s), form_decode (slice_from s (n + 1))).

Definition query_pairs (search : jsstr) : list (jsstr * jsstr) :=
  let s := match search with 63 :: r => r | _ => search end in
  map form_pair (List.filter (fun p => negb (str_eqb p [])) (split_char 38 s)).

Fixpoint get_param (name : jsstr) (l : list (jsstr * jsstr)) : option jsstr :=
  match l with [] => None | (k, v) :: l' => if str_eqb k name then Some v else get_param name l' end.

(** [new URLSearchParams(location.search).get('id') || app.dataset.peerId] *)
Definition peer_id (search : jsstr) (dataset : option jsstr) : option jsstr :=
  match get_param (js "id") (query_pairs search) with Some (c :: s) => Some (c :: s) | _ => dataset end.

(** [peerId.replaceAll(' ', '')] *)
Definition dialled (peerId : jsstr) : jsstr := List.filter (fun c => negb (c =? 32)) peerId.

Inductive storage := SetItem (key value : jsstr) | RemoveItem (key : jsstr).

(** An absent key is stored as its text. *)
Definition start_storage (serverKey : option jsstr) (hostname : jsstr) : list storage :=
  [SetItem (js "key") (default (js "undefined") serverKey); SetItem (js "rendezvous-server") hostname;
   SetItem (js "custom-rendezvous-server") hostname; RemoveItem (js "access_token")].

Definition is_text (v : option json) (t : jsstr) : bool := match v with Some (JStr s) => str_eqb s t | _ => false end.

(** [window.onGlobalEvent]: the new session text; [None] when nothing changes or the event is logged as faulty. *)
Definition global_event (raw : jsstr) : option jsstr :=
  match parse raw with
  | Some v =>
      if is_text (get_prop v (js "name")) (js "connection_ready")
      then Some (if is_text (get_prop v (js "secure")) (js "true") then js "已加密 · 中继" else js "中继")
      else None
  | None => None
  end.

(** ** State *)

Record desk := {
  ui : Sections.ui;
  password : jsstr;                       (* the value of the password field *)
  moves : Pointer.move_state;
  area : Pointer.rect                     (* the canvas on the screen *)
}.

Inductive output :=
| Mouse (m : Pointer.mouse)
| Wheel (dx dy : option rounded) (mods : list bool)
| Key (name : jsstr) (down repeat : bool) (mods : list bool)
| Login (password : jsstr)
| InputString (text : jsstr)
| CtrlAltDel
| CloseAll                                 (* [globals.close()] *)
| Leave (to : jsstr)
| Reload.

Inductive event :=
| DUi (e : Sections.event)                 (* [connect], the client's messages and frames, the timer *)
| DGlobal (raw : jsstr)
| DLayout (r : Pointer.rect)
| DMove (p : Pointer.pointer) | DFrame
| DDown (p : Pointer.pointer) | DUp (p : Pointer.pointer)
| DWheel (deltaX deltaY : spec_float) (mods : list bool)
| DKey (code : jsstr) (down repeat : bool) (mods : list bool)
| DPassword (value : jsstr)                (* the user types *)
| DSubmit
| DSendText (answer : option jsstr)        (* what [prompt] returns *)
| DCtrlAltDel | DDisconnect | DRetry.

Definition with_ui (s : desk) (u : Sections.ui) : desk := {| ui := u; password := password s; moves := moves s; area := area s |}.
Definition with_password (s : desk) (p : jsstr) : desk := {| ui := ui s; password := p; moves := moves s; area := area s |}.
Definition with_moves (s : desk) (m : Pointer.move_state) : desk := {| ui := ui s; password := password s; moves := m; area := area s |}.

Definition canvas_of (s : desk) : Pointer.canvas :=
  {| Pointer.width := fst (Sections.canvasSize (ui s)); Pointer.height := snd (Sections.canvasSize (ui s)) |}.

Definition set_session (u : Sections.ui) (t : jsstr) : Sections.ui :=
  {| Sections.hidden := Sections.hidden u; Sections.statusText := Sections.statusText u; Sections.errorText := Sections.errorText u;
     Sections.retryHidden := Sections.retryHidden u; Sections.sessionState := t; Sections.canvasSize := Sections.canvasSize u;
     Sections.timer := Sections.timer u; Sections.connected := Sections.connected u; Sections.clock := Sections.clock u |}.

(** [showPassword] empties the field. *)
Definition asks_password (e : Sections.event) : bool :=
  match e with Sections.EMessage type _ => str_eqb type (js "input-password") | _ => false end.

(** The submit listener. *)
Definition submit (s : desk) : desk * list output :=
  (with_password s [], match password s with [] => [] | p => if Sections.connected (ui s) then [Login p] else [] end).

(** [connection?.f(...)] *)
Definition if_connected (s : desk) (out : list output) : list output := if Sections.connected (ui s) then out else [].

(** The callback of an animation frame. *)
Definition frame (s : desk) : option (desk * list output) :=
  match Pointer.move_step (moves s) Pointer.EFrame with
  | Some (m, sent) =>
      Some (with_moves s m,
            if_connected s (map (fun p => Mouse {| Pointer.mask := 0; Pointer.x := fst (Pointer.remotePoint (canvas_of s) (area s) p);
                                                   Pointer.y := snd (Pointer.remotePoint (canvas_of s) (area s) p); Pointer.mods := Pointer.modifiers p |}) sent))
  | None => None
  end.

Section WithEngine.
Context `{UnicodeCase}.

Definition step (s : desk) (e : event) : option (desk * list output) :=
  match e with
  | DUi e => match Sections.step (ui s) e with
             | Some u => Some (with_password (with_ui s u) (if asks_password e then [] else password s), [])
             | None => None
             end
  | DGlobal raw => Some (match global_event raw with Some t => with_ui s (set_session (ui s) t) | None => s end, [])
  | DLayout r => Some ({| ui := ui s; password := password s; moves := moves s; area := r |}, [])
  | DMove p => match Pointer.move_step (moves s) (Pointer.EMove p) with Some (m, _) => Some (with_moves s m, []) | None => None end
  | DFrame => frame s
  | DDown p => Some (s, map Mouse (Pointer.sendPointer (Sections.connected (ui s)) (canvas_of s) (area s) 1 p))
  | DUp p => Some (s, map Mouse (Pointer.sendPointer (Sections.connected (ui s)) (canvas_of s) (area s) 2 p))
  | DWheel dx dy mods => Some (s, if_connected s [Wheel (math_round dx) (math_round dy) mods])
  | DKey code down rep mods =>
      Some (s, match Keyboard.sendKey (Sections.connected (ui s)) code down rep mods with
               | Some (name, d, r, m) => [Key name d r m]
               | None => []
               end)
  | DPassword v => Some (with_password s v, [])
  | DSubmit => Some (submit s)
  | DSendText answer => Some (s, match answer with Some (c :: t) => if_connected s [InputString (c :: t)] | _ => [] end)
  | DCtrlAltDel => Some (s, if_connected s [CtrlAltDel])
  | DDisconnect => Some (with_ui s (Sections.clearTimer (ui s)), [CloseAll; Leave (js "/rdp/")])
  | DRetry => if Sections.retryHidden (ui s) then None else Some (s, [Reload])
  end.

Definition desk_init (r : Pointer.rect) : desk :=
  {| ui := Sections.ui_init; password := []; moves := {| Pointer.pendingMove := None; Pointer.moveFrame := false |}; area := r |}.

Inductive run (r : Pointer.rect) : list event -> desk -> list output -> Prop :=
| run_nil : run r [] (desk_init r) []
| run_snoc es e s s' out o : run r es s out -> step s e = Some (s', o) -> run r (es ++ [e]) s' (out ++ o).

(** ** Passwords and input *)

Definition connects (e : Sections.event) : bool := match e with Sections.EConnect (Some (_ :: _)) => true | _ => false end.

Lemma section_connected u e u' : Sections.step u e = Some u' -> Sections.connected u' = connects e || Sections.connected u.
Proof.
  destruct e as [[[|c t]|]|m|ty tx|w h|d|]; cbv beta iota delta [Sections.step connects orb].
  - intros <-%(inj Some). reflexivity.
  - intros <-%(inj Some). reflexivity.
  - intros <-%(inj Some). reflexivity.
  - intros <-%(inj Some). reflexivity.
  - intros <-%(inj Some). unfold Sections.messageBox. repeat case_match; reflexivity.
  - intros <-%(inj Some). reflexivity.
  - destruct (0 <=? d); [|discriminate]. intros <-%(inj Some). reflexivity.
  - destruct (Sections.timer u); [|discriminate]. destruct (_ <=? _); [|discriminate]. intros <-%(inj Some). reflexivity.
Qed.

(** Whether there is a connection, and what is in the password field, read off the history. *)
Definition spec_step (st : bool * jsstr) (e : event) : bool * jsstr :=
  match e with
  | DUi e => (connects e || fst st, if asks_password e then [] else snd st)
  | DPassword v => (fst st, v)
  | DSubmit => (fst st, [])
  | _ => st
  end.

(** The passwords that should be sent: at each submission, what was typed since the field was last emptied. *)
Fixpoint submitted (es : list event) (st : bool * jsstr) : list jsstr :=
  match es with
  | [] => []
  | e :: es' => (match e with DSubmit => if fst st && negb (str_eqb (snd st) []) then [snd st] else [] | _ => [] end) ++ submitted es' (spec_step st e)
  end.

Definition logins (out : list output) : list jsstr := omap (fun o => match o with Login p => Some p | _ => None end) out.

Definition to_remote (o : output) : bool := match o with CloseAll | Leave _ | Reload => false | _ => true end.

Lemma submitted_snoc es e : forall st,
  submitted (es ++ [e]) st
  = submitted es st ++ (let st := fold_left spec_step es st in match e with DSubmit => if fst st && negb (str_eqb (snd st) []) then [snd st] else [] | _ => [] end).
Proof. induction es as [|x es IH]; intros st; cbn; [by rewrite app_nil_r|]. by rewrite IH, app_assoc. Qed.

Lemma logins_mice l : logins (map Mouse l) = [].
Proof. by induction l. Qed.

(** One event: what it means for the connection and the field, and what it sends. *)
Lemma step_spec s e s' o :
  step s e = Some (s', o) ->
  let st := (Sections.connected (ui s), password s) in
  (Sections.connected (ui s'), password s') = spec_step st e
  /\ logins o = (match e with DSubmit => if fst st && negb (str_eqb (snd st) []) then [snd st] else [] | _ => [] end)
  /\ (Sections.connected (ui s) = false -> Forall (fun x => to_remote x = false) o).
Proof.
  intros Hs st. subst st. destruct e as [e|raw|r|p| |p|p|dx dy mods|code down rep mods|v| |answer| | |]; cbn [step spec_step fst snd] in *.
  - destruct (Sections.step (ui s) e) as [u|] eqn:E; [|done]. injection Hs as <- <-. cbn. by rewrite (section_connected _ _ _ E).
  - injection Hs as <- <-. by destruct (global_event raw).
  - by injection Hs as <- <-.
  - by injection Hs as <- <-.
  - unfold frame in Hs. destruct (Pointer.move_step _ _) as [[m sent]|]; [|done]. injection Hs as <- <-. cbn. split; [done|]. unfold if_connected.
    destruct (Sections.connected (ui s)); [|done]. split; [|done]. by induction sent.
  - injection Hs as <- <-. split; [done|]. split; [apply logins_mice|]. intros Hc. unfold Pointer.sendPointer. by rewrite Hc.
  - injection Hs as <- <-. split; [done|]. split; [apply logins_mice|]. intros Hc. unfold Pointer.sendPointer. by rewrite Hc.
  - injection Hs as <- <-. unfold if_connected. by destruct (Sections.connected (ui s)).
  - injection Hs as <- <-. split; [done|]. unfold Keyboard.sendKey. destruct (Keyboard.remoteKey code) as [[|c t]| |]; try done.
    destruct (Sections.connected (ui s)); [|done]. by split.
  - by injection Hs as <- <-.
  - unfold submit in Hs. injection Hs as <- <-. split; [done|]. destruct (password s) as [|c t], (Sections.connected (ui s)); try done; by split.
  - injection Hs as <- <-. destruct answer as [[|c t]|]; try done. unfold if_connected. by destruct (Sections.connected (ui s)).
  - injection Hs as <- <-. unfold if_connected. by destruct (Sections.connected (ui s)).
  - injection Hs as <- <-. split; [done|]. split; [done|]. intros _. by repeat constructor.
  - destruct (Sections.retryHidden (ui s)); [done|]. injection Hs as <- <-. split; [done|]. split; [done|]. intros _. by repeat constructor.
Qed.

Lemma run_spec r es s out :
  run r es s out ->
  (Sections.connected (ui s), password s) = fold_left spec_step es (false, []) /\ logins out = submitted es (false, []).
Proof.
  induction 1 as [|es e s s' out o _ [IH1 IH2] Hs]; [done|]. destruct (step_spec _ _ _ _ Hs) as (H1 & H2 & _).
  rewrite fold_left_app, submitted_snoc. cbn [fold_left]. rewrite <- IH1. split; [exact H1|].
  unfold logins in *. rewrite omap_app, IH2. by f_equal.
Qed.

(** A password is sent when it is submitted, once, and to a connection: the logins are
    the non-empty texts of the field at the submissions with a connection, in order,
    and after a submission, or when the client asks again, the field is empty. *)
Theorem passwords_sent_once (r : Pointer.rect) (es : list event) (s : desk) (out : list output) :
  run r es s out ->
  logins out = submitted es (false, []) /\ password s = snd (fold_left spec_step es (false, [])).
Proof. intros [H1 H2]%run_spec. split; [done|]. by rewrite <- H1. Qed.

Lemma connected_event r es s out : run r es s out -> Sections.connected (ui s) = true -> exists c t, DUi (Sections.EConnect (Some (c :: t))) ∈ es.
Proof.
  induction 1 as [|es e s s' out o _ IH Hs]; [done|]. intros Hc. destruct (step_spec _ _ _ _ Hs) as (Hst & _ & _).
  apply (f_equal fst) in Hst. cbn [fst] in Hst. rewrite Hc in Hst.
  assert (Hor : (exists c t, e = DUi (Sections.EConnect (Some (c :: t)))) \/ Sections.connected (ui s) = true).
  { destruct e as [e'| | | | | | | | | | | | | |]; try (by right). cbn in Hst. destruct (connects e') eqn:Ee; [left|by right].
    destruct e' as [[[|c t]|]| | | | |]; try done. by exists c, t. }
  destruct Hor as [(c & t & ->)|Hp]; [exists c, t; apply elem_of_app; right; by apply list_elem_of_singleton|].
  destruct (IH Hp) as (c & t & Hin). exists c, t. apply elem_of_app. by left.
Qed.

(** Nothing is sent to a remote computer before a connection was opened for an identifier. *)
Theorem input_needs_connection (r : Pointer.rect) (es : list event) (s : desk) (out : list output) (o : output) :
  run r es s out -> o ∈ out -> to_remote o = true -> exists c t, DUi (Sections.EConnect (Some (c :: t))) ∈ es.
Proof.
  induction 1 as [|es e s s' out o' Hr IH Hs]; intros Ho Ht; [by apply not_elem_of_nil in Ho|].
  enough (Hin : exists c t, DUi (Sections.EConnect (Some (c :: t))) ∈ es).
  { destruct Hin as (c & t & Hin). exists c, t. apply elem_of_app. by left. }
  apply elem_of_app in Ho as [Ho|Ho]; [by apply IH|]. destruct (step_spec _ _ _ _ Hs) as (_ & _ & Hno).
  destruct (Sections.connected (ui s)) eqn:Ec; [by eapply connected_event|]. specialize (Hno eq_refl). rewrite Forall_forall in Hno. by rewrite (Hno _ Ho) in Ht.
Qed.

Fixpoint exec (s : desk) (es : list event) : option (desk * list output) :=
  match es with
  | [] => Some (s, [])
  | e :: es' =>
      match step s e with
      | Some (s', o) => match exec s' es' with Some (s'', o') => Some (s'', o ++ o') | None => None end
      | None => None
      end
  end.

Lemma exec_run r es : forall es0 s0 out0 s out, run r es0 s0 out0 -> exec s0 es = Some (s, out) -> run r (es0 ++ es) s (out0 ++ out).
Proof.
  induction es as [|e es IH]; intros es0 s0 out0 s out H0; cbn; [intros [= <- <-]; by rewrite !app_nil_r|].
  destruct (step s0 e) as [[s1 o]|] eqn:Es; [|done]. destruct (exec s1 es) as [[s2 o']|] eqn:E; [|done]. intros [= <- <-].
  rewrite app_assoc. change (e :: es) with ([e] ++ es). rewrite app_assoc. eapply IH; [|exact E]. by econstructor.
Qed.

End WithEngine.

(** The client asks for the password, the user gives it and presses the button twice. *)
Definition demo_login : list event :=
  [DUi (Sections.EConnect (Some (js "123 456"))); DUi (Sections.EMessage (js "input-password") []); DPassword (js "secret"); DSubmit; DSubmit; DCtrlAltDel].

Theorem passwords_sent_witness :
  exists s out, run (H := ascii_case) Pointer.sample_rect demo_login s out /\ logins out = [js "secret"] /\ password s = [].
Proof.
  destruct (exec (H := ascii_case) (desk_init Pointer.sample_rect) demo_login) as [[s out]|] eqn:E; [|by vm_compute in E].
  pose proof (exec_run (H := ascii_case) Pointer.sample_rect demo_login [] _ [] s out (run_nil _) E) as Hr.
  destruct (passwords_sent_once (H := ascii_case) _ _ _ _ Hr) as [H1 H2]. exists s, out. split; [exact Hr|].
  split; (etransitivity; [eassumption|vm_compute; reflexivity]).
Defined.

Theorem input_needs_witness :
  exists c t, DUi (Sections.EConnect (Some (c :: t))) ∈ demo_login.
Proof.
  destruct (exec (H := ascii_case) (desk_init Pointer.sample_rect) demo_login) as [[s out]|] eqn:E; [|by vm_compute in E].
  pose proof (exec_run (H := ascii_case) Pointer.sample_rect demo_login [] _ [] s out (run_nil _) E) as Hr.
  apply (input_needs_connection (H := ascii_case) _ _ _ _ CtrlAltDel Hr); [|reflexivity].
  vm_compute in E. injection E as _ <-. apply list_elem_of_In. cbn. tauto.
Defined.

(** The identifier of the address wins over the one of the page, and its spaces are dropped when dialling. *)
Example peer_id_cases :
  peer_id (js "?x=1&id=123+456%20789") (Some (js "7")) = Some (js "123 456 789") /\ peer_id (js "?id=") (Some (js "7")) = Some (js "7")
  /\ dialled (js "123 456 789") = js "123456789".
Proof. vm_compute. repeat split. Qed.
