(* ===== verification/Yuv.v ===== *)
(** * The colour conversion worker ([integrations/lan-remote-access/rustdesk-web-open/yuv.js])

    The worker copies the planes of a frame into the memory of a WebAssembly
    module, lets the module convert them and copies the picture out.  The module
    is a parameter: its allocator, which may grow the memory, and its conversion.
    Growing the memory detaches the buffer of every view made before, and a
    detached view throws. *)

From stdpp Require Import base list numbers strings sets.
From Stdlib Require Import ZArith Lia.
From S2P Require Import Prelude JsString.
Local Open Scope Z_scope.

(** The memory: its bytes, and a number that changes when it grows. *)
Record memory := { bytes : list Z; generation : nat }.

Class WasmYuv := {
  malloc : memory -> Z -> Z * memory;
  free : memory -> Z -> memory;
  convert : memory -> Z -> Z -> Z -> Z -> Z -> Z -> Z -> Z -> memory   (* w h y u v strideY strideUV out *)
}.

(** ** Views *)

Definition detached : jserror := PlatformError "TypeError".
Definition out_of_bounds : jserror := PlatformError "RangeError".

Definition write_at (m : list Z) (off : nat) (b : list Z) : list Z := take off m ++ b ++ drop (off + length b) m.

(** [HEAPU8.set(b, ptr)] on the view made at generation [g]. *)
Definition view_set (g : nat) (m : memory) (b : list Z) (ptr : Z) : result memory :=
  if negb (g =? generation m)%nat then Throw detached
  else if (ptr <? 0) || (Z.of_nat (length (bytes m)) <? ptr + Z.of_nat (length b)) then Throw out_of_bounds
  else Ok {| bytes := write_at (bytes m) (Z.to_nat ptr) b; generation := generation m |}.

(** [HEAPU8.fill(255, a, b)] and [HEAPU8.slice(a, b)] clip to the view; a negative
    index counts from its end. *)
Definition relative_index (n a : Z) : Z := if a <? 0 then Z.max 0 (n + a) else Z.min a n.

Definition view_fill (g : nat) (m : memory) (a b : Z) : result memory :=
  if negb (g =? generation m)%nat then Throw detached
  else
    let n := Z.of_nat (length (bytes m)) in
    let a := relative_index n a in let b := relative_index n b in
    Ok {| bytes := write_at (bytes m) (Z.to_nat a) (repeat 255 (Z.to_nat (b - a))); generation := generation m |}.

Definition view_slice (g : nat) (m : memory) (a b : Z) : result (list Z) :=
  if negb (g =? generation m)%nat then Throw detached
  else
    let n := Z.of_nat (length (bytes m)) in
    let a := relative_index n a in let b := relative_index n b in
    Ok (take (Z.to_nat (b - a)) (drop (Z.to_nat a) (bytes m))).

(** ** The code *)

(** A pointer with the length it was allocated for; both unset at first. *)
Abbreviation buffer := (option (Z * Z)).

Record buffers := { yBuf : buffer; uBuf : buffer; vBuf : buffer; outBuf : buffer }.

Record frame := {
  y_bytes : list Z; u_bytes : list Z; v_bytes : list Z;
  y_stride : Z; v_stride : Z; displayWidth : Z; displayHeight : Z
}.

Section Worker.
Context `{WasmYuv}.

(** [if (len != n) { if (ptr) free(ptr); len = n; ptr = malloc(n); }]: the buffer,
    whether it is new, and the memory. *)
Definition ensure (b : buffer) (n : Z) (m : memory) : Z * bool * memory :=
  match b with
  | Some (ptr, len) =>
      if len =? n then (ptr, false, m)
      else let m := if ptr =? 0 then m else free m ptr in
           let '(ptr', m') := malloc m n in (ptr', true, m')
  | None => let '(ptr', m') := malloc m n in (ptr', true, m')
  end.

(** One plane: its buffer and the copy. *)
Definition plane (g : nat) (b : buffer) (data : list Z) (m : memory) : buffer * memory * result memory :=
  let n := Z.of_nat (length data) in
  let '(ptr, _, m) := ensure b n m in (Some (ptr, n), m, view_set g m data ptr).

Definition pointer (b : buffer) : Z := match b with Some (p, _) => p | None => 0 end.

(** The buffers and the memory are as they are left when a statement throws. *)
Definition I420ToARGB (bs : buffers) (yb : frame) (m : memory) : buffers * memory * result (list Z) :=
  let g := generation m in
  let '(by_, m, r) := plane g (yBuf bs) (y_bytes yb) m in
  let bs := {| yBuf := by_; uBuf := uBuf bs; vBuf := vBuf bs; outBuf := outBuf bs |} in
  match r with
  | Throw e => (bs, m, Throw e)
  | Ok m =>
      let '(bu, m, r) := plane g (uBuf bs) (u_bytes yb) m in
      let bs := {| yBuf := yBuf bs; uBuf := bu; vBuf := vBuf bs; outBuf := outBuf bs |} in
      match r with
      | Throw e => (bs, m, Throw e)
      | Ok m =>
          let '(bv, m, r) := plane g (vBuf bs) (v_bytes yb) m in
          let bs := {| yBuf := yBuf bs; uBuf := uBuf bs; vBuf := bv; outBuf := outBuf bs |} in
          match r with
          | Throw e => (bs, m, Throw e)
          | Ok m =>
              let w := displayWidth yb in let h := displayHeight yb in let n := w * h * 4 in
              let '(out, fresh, m) := ensure (outBuf bs) n m in
              let bs := {| yBuf := yBuf bs; uBuf := uBuf bs; vBuf := vBuf bs; outBuf := Some (out, n) |} in
              match (if fresh then view_fill g m out (out + n) else Ok m) with
              | Throw e => (bs, m, Throw e)
              | Ok m =>
                  let m := convert m w h (pointer (yBuf bs)) (pointer (uBuf bs)) (pointer (vBuf bs))
                             (y_stride yb) (v_stride yb) out in
                  (bs, m, view_slice g m out (out + n))
              end
          end
      end
  end.

(** *** The loop of the worker *)

Record worker := {
  wasmExports : bool;           (* the module is loaded *)
  bufs : buffers;
  heap : memory;
  currentFrame : option frame;
  running : bool                (* the next call of [run] is scheduled *)
}.

Inductive event := ELoaded | EMessage (f : frame) | ERun.

(** What the worker posts: a picture, or [undefined] before the module is loaded. *)
Abbreviation post := (option (list Z)).

(** An exception leaves [run] before it clears the frame and schedules itself. *)
Definition run (s : worker) : worker * list post :=
  match currentFrame s with
  | Some f =>
      if negb (wasmExports s) then
        ({| wasmExports := false; bufs := bufs s; heap := heap s; currentFrame := None; running := true |}, [None])
      else
        match I420ToARGB (bufs s) f (heap s) with
        | (bs, m, Ok picture) =>
            ({| wasmExports := true; bufs := bs; heap := m; currentFrame := None; running := true |}, [Some picture])
        | (bs, m, Throw _) =>
            ({| wasmExports := true; bufs := bs; heap := m; currentFrame := currentFrame s; running := false |}, [])
        end
  | None => ({| wasmExports := wasmExports s; bufs := bufs s; heap := heap s; currentFrame := None; running := true |}, [])
  end.

Definition step (s : worker) (e : event) : option (worker * list post) :=
  match e with
  | ELoaded => Some ({| wasmExports := true; bufs := bufs s; heap := heap s; currentFrame := currentFrame s; running := running s |}, [])
  | EMessage f => Some ({| wasmExports := wasmExports s; bufs := bufs s; heap := heap s; currentFrame := Some f; running := running s |}, [])
  | ERun => if running s then Some (run s) else None
  end.

Inductive steps : worker -> list event -> worker -> list post -> Prop :=
| steps_nil s : steps s [] s []
| steps_cons s e s1 o es s2 out : step s e = Some (s1, o) -> steps s1 es s2 out -> steps s (e :: es) s2 (o ++ out).

(** ** When the memory grows *)

Lemma plane_grows g m data :
  generation m = g -> generation (snd (malloc m (Z.of_nat (length data)))) <> g ->
  snd (plane g None data m) = Throw detached.
Proof.
  intros Hg Hm. unfold plane, ensure. destruct (malloc m (Z.of_nat (length data))) as [p m'] eqn:E. cbn in *.
  unfold view_set. by rewrite (proj2 (Nat.eqb_neq _ _)) by congruence.
Qed.

Lemma stopped s es s' out : running s = false -> steps s es s' out -> out = [] /\ running s' = false.
Proof.
  intros Hr Hs. induction Hs as [s|s e s1 o es s2 out Hst _ IH]; [done|]. destruct e as [|f|]; cbn in Hst.
  - injection Hst as <- <-. by apply IH.
  - injection Hst as <- <-. by apply IH.
  - by rewrite Hr in Hst.
Qed.

(** ** When it does not *)

(** The module keeps its memory of [size] bytes: allocations of at most [limit]
    bytes lie inside it and nothing grows it. *)
Definition in_place (size : nat) (limit : Z) : Prop :=
  (forall m n, length (bytes m) = size -> 0 <= n <= limit -> let '(p, m') := malloc m n in
     0 <= p /\ p + n <= Z.of_nat (length (bytes m')) /\ generation m' = generation m /\ length (bytes m') = length (bytes m))
  /\ (forall m p, generation (free m p) = generation m /\ length (bytes (free m p)) = length (bytes m))
  /\ (forall m w h y u v sy sv out, generation (convert m w h y u v sy sv out) = generation m
        /\ length (bytes (convert m w h y u v sy sv out)) = length (bytes m)).

Definition fits (m : memory) (b : buffer) : Prop :=
  match b with Some (p, n) => 0 <= p /\ p + n <= Z.of_nat (length (bytes m)) | None => True end.

Definition same (m m' : memory) : Prop := generation m' = generation m /\ length (bytes m') = length (bytes m).

Lemma ensure_in_place size limit b n m p fresh m' :
  in_place size limit -> length (bytes m) = size -> 0 <= n <= limit -> fits m b -> ensure b n m = (p, fresh, m') -> same m m' /\ 0 <= p /\ p + n <= Z.of_nat (length (bytes m')).
Proof.
  intros (Hm & Hf & _) Hsz Hn Hb. unfold ensure.
  assert (Hfresh : forall m0, same m m0 -> (let '(ptr', m') := malloc m0 n in (ptr', true, m')) = (p, fresh, m') ->
             same m m' /\ 0 <= p /\ p + n <= Z.of_nat (length (bytes m'))).
  { intros m0 [Hg Hl]. specialize (Hm m0 n ltac:(congruence) Hn). destruct (malloc m0 n) as [q mq]. intros [= -> _ ->].
    destruct Hm as (? & ? & ? & ?). split; [split; congruence|done]. }
  destruct b as [[q len]|]; [|by apply Hfresh]. destruct (Z.eqb_spec len n) as [->|Hne].
  - intros [= -> _ ->]. by split.
  - apply Hfresh. destruct (q =? 0); [done|]. apply Hf.
Qed.

Lemma relative_index_in n a : 0 <= a <= n -> relative_index n a = a.
Proof. intros. unfold relative_index. destruct (Z.ltb_spec a 0); lia. Qed.

Lemma view_set_ok g m b p :
  g = generation m -> 0 <= p -> p + Z.of_nat (length b) <= Z.of_nat (length (bytes m)) ->
  exists m', view_set g m b p = Ok m' /\ same m m'.
Proof.
  intros -> Hp Hl. unfold view_set. rewrite Nat.eqb_refl. cbn [negb].
  rewrite (proj2 (Z.ltb_ge p 0) Hp), (proj2 (Z.ltb_ge _ _) Hl). cbn [orb].
  eexists. split; [done|]. split; [done|]. unfold write_at. cbn. rewrite !length_app, length_take, length_drop. lia.
Qed.

Lemma plane_in_place size limit g b data m :
  in_place size limit -> length (bytes m) = size -> Z.of_nat (length data) <= limit -> g = generation m -> fits m b ->
  exists p m1 m', plane g b data m = (Some (p, Z.of_nat (length data)), m1, Ok m') /\ same m m'
    /\ fits m' (Some (p, Z.of_nat (length data))).
Proof.
  intros Hi Hsz Hlim Hg Hb. unfold plane. destruct (ensure b _ m) as [[p fresh] m1] eqn:E.
  destruct (ensure_in_place _ _ _ _ _ _ _ _ Hi Hsz (conj (Nat2Z.is_nonneg _) Hlim) Hb E) as ([Hg1 Hl1] & Hp & Hl).
  destruct (view_set_ok g m1 data p) as (m' & Hs & [Hg2 Hl2]); [congruence|done|done|].
  exists p, m1, m'. split; [by rewrite Hs|]. split; [split; congruence|]. cbn. split; [done|]. rewrite Hl2. done.
Qed.

Lemma fits_same m m' b : same m m' -> fits m b -> fits m' b.
Proof. intros [_ Hl]. unfold fits. destruct b as [[]|]; [|done]. by rewrite Hl. Qed.

Definition all_fit (m : memory) (bs : buffers) : Prop :=
  fits m (yBuf bs) /\ fits m (uBuf bs) /\ fits m (vBuf bs) /\ fits m (outBuf bs).

Definition pixels (f : frame) : Z := displayWidth f * displayHeight f * 4.

(** A frame whose planes and picture the module can allocate. *)
Definition small (limit : Z) (f : frame) : Prop :=
  0 <= displayWidth f /\ 0 <= displayHeight f /\ pixels f <= limit
  /\ Z.of_nat (length (y_bytes f)) <= limit /\ Z.of_nat (length (u_bytes f)) <= limit
  /\ Z.of_nat (length (v_bytes f)) <= limit.

Lemma convert_frame size limit bs f m :
  in_place size limit -> length (bytes m) = size -> small limit f -> all_fit m bs ->
  exists bs' m' picture, I420ToARGB bs f m = (bs', m', Ok picture) /\ all_fit m' bs' /\ length (bytes m') = size
    /\ Z.of_nat (length picture) = pixels f.
Proof.
  intros Hi Hsz (Hw & Hh & Hpx & Ly & Lu & Lv) (F1 & F2 & F3 & F4). unfold I420ToARGB.
  destruct (plane_in_place size limit (generation m) (yBuf bs) (y_bytes f) m Hi Hsz Ly eq_refl F1) as (p1 & n1 & m1 & -> & S1 & G1).
  cbn [yBuf uBuf vBuf outBuf].
  destruct (plane_in_place size limit (generation m) (uBuf bs) (u_bytes f) m1 Hi) as (p2 & n2 & m2 & -> & S2 & G2);
    [destruct S1; congruence|done|symmetry; apply S1|by apply (fits_same m)|]. cbn [yBuf uBuf vBuf outBuf].
  destruct (plane_in_place size limit (generation m) (vBuf bs) (v_bytes f) m2 Hi) as (p3 & n3 & m3 & -> & S3 & G3);
    [destruct S1, S2; congruence|done|destruct S1, S2; congruence|eapply fits_same; [exact S2|]; by apply (fits_same m)|]. cbn [yBuf uBuf vBuf outBuf].
  destruct (ensure (outBuf bs) _ m3) as [[out fresh] m4] eqn:E.
  assert (Hn : 0 <= displayWidth f * displayHeight f * 4) by nia.
  assert (Hsz3 : length (bytes m3) = size) by (destruct S1, S2, S3; congruence).
  destruct (ensure_in_place _ _ _ _ _ _ _ _ Hi Hsz3 (conj Hn Hpx) ltac:(repeat (eapply fits_same; [eassumption|]); done) E) as (S4 & Hp & Hl).
  assert (Hfill : exists m5, (if fresh then view_fill (generation m) m4 out (out + displayWidth f * displayHeight f * 4) else Ok m4) = Ok m5
                             /\ same m4 m5).
  { destruct fresh; [|by exists m4]. unfold view_fill.
    assert (Hg : generation m = generation m4) by (destruct S1, S2, S3, S4; congruence). rewrite Hg, Nat.eqb_refl. cbn [negb].
    eexists. split; [done|]. split; [done|]. unfold write_at. cbn. rewrite !relative_index_in by lia.
    rewrite !length_app, length_take, repeat_length, length_drop. lia. }
  destruct Hfill as (m5 & -> & S5). cbn [yBuf uBuf vBuf outBuf pointer].
  set (m6 := convert m5 _ _ _ _ _ _ _ _). destruct Hi as (_ & _ & Hcv).
  assert (S6 : same m5 m6) by apply Hcv.
  assert (Hg : generation m = generation m6) by (destruct S1, S2, S3, S4, S5, S6; congruence).
  assert (Hlen : Z.of_nat (length (bytes m6)) = Z.of_nat (length (bytes m4))) by (destruct S5, S6; congruence).
  unfold view_slice. rewrite Hg, Nat.eqb_refl. cbn [negb].
  eexists _, m6, _. split; [reflexivity|]. split.
  - repeat split; cbn [yBuf uBuf vBuf outBuf]; cbn in *; destruct S1, S2, S3, S4, S5, S6; lia.
  - split; [destruct S1, S2, S3, S4, S5, S6; congruence|]. rewrite !relative_index_in by lia. rewrite length_take, length_drop. unfold pixels. lia.
Qed.

End Worker.

(** Once the memory grows, the worker is dead: if the allocation for the first
    plane of a frame grows the memory, the copy throws on the old view, the loop
    is not scheduled again, and no later frame is ever converted. *)
Theorem growth_stops_worker `{WasmYuv} (m : memory) (f : frame) :
  generation (snd (malloc m (Z.of_nat (length (y_bytes f))))) <> generation m ->
  let s := {| wasmExports := true; bufs := {| yBuf := None; uBuf := None; vBuf := None; outBuf := None |}; heap := m;
              currentFrame := Some f; running := true |} in
  snd (run s) = []
  /\ forall es s' out, steps (fst (run s)) es s' out -> out = [] /\ running s' = false.
Proof.
  intros Hg s. pose proof (plane_grows (generation m) m (y_bytes f) eq_refl Hg) as Hp.
  assert (Hr : snd (run s) = [] /\ running (fst (run s)) = false).
  { unfold run, s. cbn [currentFrame bufs heap wasmExports negb]. unfold I420ToARGB. cbn [yBuf].
    destruct (plane (generation m) None (y_bytes f) m) as [[b m1] r]. cbn in Hp. by rewrite Hp. }
  split; [apply Hr|]. intros es s' out. apply stopped. apply Hr.
Qed.

(** A module whose memory grows with every allocation. *)
Definition growing_module : WasmYuv :=
  {| malloc := fun m n => (Z.of_nat (length (bytes m)),
                           {| bytes := bytes m ++ repeat 0 (Z.to_nat n); generation := S (generation m) |});
     free := fun m _ => m; convert := fun m _ _ _ _ _ _ _ _ => m |}.

Definition black_pixel : frame :=
  {| y_bytes := [16]; u_bytes := [128]; v_bytes := [128]; y_stride := 1; v_stride := 1; displayWidth := 1; displayHeight := 1 |}.

Theorem growth_stops_worker_witness :
  let s := {| wasmExports := true; bufs := {| yBuf := None; uBuf := None; vBuf := None; outBuf := None |};
              heap := {| bytes := []; generation := 0 |}; currentFrame := Some black_pixel; running := true |} in
  snd (run (H := growing_module) s) = []
  /\ forall es s' out, steps (H := growing_module) (fst (run (H := growing_module) s)) es s' out -> out = [] /\ running s' = false.
Proof. apply (growth_stops_worker (H := growing_module) {| bytes := []; generation := 0 |} black_pixel). cbn. lia. Defined.

(** As long as the module is loaded and keeps its memory, every frame is answered: the worker
    posts one picture of four bytes per pixel for the frame it holds, keeps its
    buffers inside the memory and goes on running. *)
Theorem frames_converted `{WasmYuv} (size : nat) (limit : Z) (s : worker) (f : frame) :
  in_place size limit -> length (bytes (heap s)) = size -> small limit f ->
  wasmExports s = true -> running s = true -> all_fit (heap s) (bufs s) -> currentFrame s = Some f ->
  exists s' picture, step s ERun = Some (s', [Some picture]) /\ Z.of_nat (length picture) = 4 * (displayWidth f * displayHeight f)
    /\ running s' = true /\ currentFrame s' = None /\ all_fit (heap s') (bufs s') /\ length (bytes (heap s')) = size.
Proof.
  intros Hi Hsz Hsm He Hr Hf Hc. destruct (convert_frame size limit (bufs s) f (heap s) Hi Hsz Hsm Hf) as (bs & m & picture & E & Hf' & Hs' & Hl).
  cbn [step]. rewrite Hr. unfold run. rewrite Hc, He, E. eexists _, picture. split; [reflexivity|].
  split; [unfold pixels in Hl; lia|]. done.
Qed.

(** A module that gives out the start of its memory. *)
Definition fixed_module : WasmYuv :=
  {| malloc := fun m _ => (0, m); free := fun m _ => m; convert := fun m _ _ _ _ _ _ _ _ => m |}.

Theorem frames_converted_witness :
  exists s' picture,
    step (H := fixed_module) {| wasmExports := true; bufs := {| yBuf := None; uBuf := None; vBuf := None; outBuf := None |};
              heap := {| bytes := repeat 0 16; generation := 0 |}; currentFrame := Some black_pixel; running := true |} ERun
    = Some (s', [Some picture]) /\ Z.of_nat (length picture) = 4 * (1 * 1) /\ running s' = true /\ currentFrame s' = None
    /\ all_fit (heap s') (bufs s') /\ length (bytes (heap s')) = 16%nat.
Proof.
  apply (frames_converted (H := fixed_module) 16 16 _ black_pixel); try done.
  split; [|by split]. intros m n Hm Hn. cbn. rewrite Hm. lia.
Defined.
