(* ===== verification/OpusText.v ===== *)
(** * Strings in the memory of the Opus module
      ([integrations/lan-remote-access/rustdesk-web-open/libopus.js])

    The runtime copies strings between JavaScript and the memory of the module as
    UTF-8, UTF-16, UTF-32 or ASCII.  The memory is a list of bytes seen through
    typed arrays: a read outside gives [undefined], a write outside is ignored.
    An [assert] that fails throws. *)

From stdpp Require Import base list numbers strings.
From Stdlib Require Import ZArith Lia.
From S2P Require Import Prelude JsString Utf8.
Local Open Scope Z_scope.

(** ** Typed arrays over the memory *)

Abbreviation mem := (list Z).

Definition load8 (m : mem) (i : Z) : option Z := if i <? 0 then None else m !! Z.to_nat i.
Definition store8 (m : mem) (i v : Z) : mem := if i <? 0 then m else <[Z.to_nat i := v mod 256]> m.

(** [undefined] in a bitwise operation, or as a character code, is [0]. *)
Definition num8 (m : mem) (i : Z) : Z := match load8 m i with Some b => b | None => 0 end.

(** Elements of [HEAPU16] and [HEAP32], little endian; the memory is a whole number
    of pages, so an element is inside or outside as a whole. *)
Definition load16 (m : mem) (i : Z) : option Z :=
  match load8 m (2 * i), load8 m (2 * i + 1) with
  | Some a, Some b => Some (a + 256 * b)
  | _, _ => None
  end.
Definition store16 (m : mem) (i v : Z) : mem := store8 (store8 m (2 * i) v) (2 * i + 1) (v / 256).

Definition load32 (m : mem) (i : Z) : option Z :=
  match load16 m (2 * i), load16 m (2 * i + 1) with
  | Some a, Some b => Some (to_int32 (a + 65536 * b))
  | _, _ => None
  end.
Definition store32 (m : mem) (i v : Z) : mem := store16 (store16 m (2 * i) v) (2 * i + 1) (v / 65536).

Definition fromCharCode (c : Z) : Z := c mod 65536.

Definition aborted : jserror := PlatformError "RuntimeError".

(** ** UTF-8 *)

(** [while (heap[endPtr] && !(endPtr >= endIdx)) ++endPtr]: it stops at the end of
    the array at the latest.  An absent limit never stops it. *)
Fixpoint scan_end (fuel : nat) (heap : mem) (endPtr : Z) (endIdx : option Z) : Z :=
  match fuel with
  | O => endPtr
  | S f =>
      if num8 heap endPtr =? 0 then endPtr
      else if match endIdx with Some e => e <=? endPtr | None => false end then endPtr
      else scan_end f heap (endPtr + 1) endIdx
  end.

(** A code point above the basic plane as two code units. *)
Definition surrogate_pair (u : Z) : jsstr :=
  let ch := u - 0x10000 in
  [fromCharCode (js_or 0xD800 (js_sar ch 10)); fromCharCode (js_or 0xDC00 (js_and ch 0x3FF))].

(** The loop without [TextDecoder]; every turn consumes a byte. *)
Fixpoint decode_loop (fuel : nat) (heap : mem) (idx endPtr : Z) : jsstr :=
  match fuel with
  | O => []
  | S f =>
      if endPtr <=? idx then []
      else
        let u0 := num8 heap idx in
        if js_and u0 0x80 =? 0 then fromCharCode u0 :: decode_loop f heap (idx + 1) endPtr
        else
          let u1 := js_and (num8 heap (idx + 1)) 63 in
          if js_and u0 0xE0 =? 0xC0
          then fromCharCode (js_or (js_shl (js_and u0 31) 6) u1) :: decode_loop f heap (idx + 2) endPtr
          else
            let u2 := js_and (num8 heap (idx + 2)) 63 in
            let '(u, next) :=
              if js_and u0 0xF0 =? 0xE0
              then (js_or (js_or (js_shl (js_and u0 15) 12) (js_shl u1 6)) u2, idx + 3)
              else (js_or (js_or (js_or (js_shl (js_and u0 7) 18) (js_shl u1 12)) (js_shl u2 6))
                      (js_and (num8 heap (idx + 3)) 63), idx + 4) in
            (if u <? 0x10000 then [fromCharCode u] else surrogate_pair u) ++ decode_loop f heap next endPtr
  end.

(** [UTF8Decoder] says whether the platform has [TextDecoder], [typed] whether the
    array has [subarray]. *)
Definition UTF8ArrayToString (UTF8Decoder typed : bool) (heap : mem) (idx : Z) (maxBytesToRead : option Z) : jsstr :=
  let endIdx := option_map (Z.add idx) maxBytesToRead in
  let endPtr := scan_end (length heap) heap idx endIdx in
  if (16 <? endPtr - idx) && typed && UTF8Decoder
  then text_decode (take (Z.to_nat (endPtr - idx)) (drop (Z.to_nat idx) heap))
  else decode_loop (Z.to_nat (endPtr - idx)) heap idx endPtr.

Definition UTF8ToString (UTF8Decoder : bool) (HEAPU8 : mem) (ptr : Z) (maxBytesToRead : option Z) : jsstr :=
  if ptr =? 0 then [] else UTF8ArrayToString UTF8Decoder true HEAPU8 ptr maxBytesToRead.

(** The code point a loop of the runtime takes from a surrogate and the next unit;
    [charCodeAt] behind the end is [NaN], which counts as [0]. *)
Definition combine (u u1 : Z) : Z := js_or (0x10000 + js_shl (js_and u 0x3FF) 10) (js_and u1 0x3FF).
Definition is_surrogate (u : Z) : bool := (0xD800 <=? u) && (u <=? 0xDFFF).

(** The bytes of one code point. *)
Definition encode_bytes (u : Z) : list Z :=
  if u <=? 0x7F then [u]
  else if u <=? 0x7FF then [js_or 0xC0 (js_sar u 6); js_or 0x80 (js_and u 63)]
  else if u <=? 0xFFFF then
    [js_or 0xE0 (js_sar u 12); js_or 0x80 (js_and (js_sar u 6) 63); js_or 0x80 (js_and u 63)]
  else
    [js_or 0xF0 (js_sar u 18); js_or 0x80 (js_and (js_sar u 12) 63); js_or 0x80 (js_and (js_sar u 6) 63);
     js_or 0x80 (js_and u 63)].

Fixpoint store_bytes (heap : mem) (outIdx : Z) (bs : list Z) : mem :=
  match bs with
  | [] => heap
  | b :: bs' => store_bytes (store8 heap outIdx b) (outIdx + 1) bs'
  end.

(** One code point, or [None] when it does not fit before [endIdx]. *)
Definition put_point (heap : mem) (outIdx endIdx u : Z) : option (mem * Z) :=
  let bs := encode_bytes u in
  if endIdx <=? outIdx + (Z.of_nat (length bs) - 1) then None
  else Some (store_bytes heap outIdx bs, outIdx + Z.of_nat (length bs)).

Fixpoint encode_loop (str : jsstr) (heap : mem) (outIdx endIdx : Z) : mem * Z :=
  match str with
  | [] => (heap, outIdx)
  | u :: rest =>
      if is_surrogate u then
        match rest with
        | [] => match put_point heap outIdx endIdx (combine u 0) with
                | Some (heap, outIdx) => (heap, outIdx)
                | None => (heap, outIdx)
                end
        | u1 :: rest' =>
            match put_point heap outIdx endIdx (combine u u1) with
            | Some (heap, outIdx) => encode_loop rest' heap outIdx endIdx
            | None => (heap, outIdx)
            end
        end
      else
        match put_point heap outIdx endIdx u with
        | Some (heap, outIdx) => encode_loop rest heap outIdx endIdx
        | None => (heap, outIdx)
        end
  end.

Definition stringToUTF8Array (str : jsstr) (heap : mem) (outIdx maxBytesToWrite : Z) : mem * Z :=
  if negb (0 <? maxBytesToWrite) then (heap, 0)
  else
    let '(heap, last) := encode_loop str heap outIdx (outIdx + maxBytesToWrite - 1) in
    (store8 heap last 0, last - outIdx).

Definition point_length (u : Z) : Z :=
  if u <=? 0x7F then 1 else if u <=? 0x7FF then 2 else if u <=? 0xFFFF then 3 else 4.

Fixpoint lengthBytesUTF8 (str : jsstr) : Z :=
  match str with
  | [] => 0
  | u :: rest =>
      if is_surrogate u then
        match rest with
        | [] => point_length (combine u 0)
        | u1 :: rest' => point_length (combine u u1) + lengthBytesUTF8 rest'
        end
      else point_length u + lengthBytesUTF8 rest
  end.

(** ** UTF-16 *)

(** [numCharsToWrite] is a fraction when the room left is odd; the loop then runs
    once more. *)
Fixpoint put16 (n : nat) (str : jsstr) (m : mem) (outPtr : Z) : mem * Z :=
  match n, str with
  | S n', c :: str' => put16 n' str' (store16 m (js_sar outPtr 1) c) (outPtr + 2)
  | _, _ => (m, outPtr)
  end.

Definition stringToUTF16 (str : jsstr) (m : mem) (outPtr maxBytesToWrite : Z) : result (mem * Z) :=
  if negb (outPtr mod 2 =? 0) then Throw aborted
  else if maxBytesToWrite <? 2 then Ok (m, 0)
  else
    let room := maxBytesToWrite - 2 in
    let turns := if room <? str_len str * 2 then (room + 1) / 2 else str_len str in
    let '(m, last) := put16 (Z.to_nat turns) str m outPtr in
    Ok (store16 m (js_sar last 1) 0, last - outPtr).

Definition lengthBytesUTF16 (str : jsstr) : Z := str_len str * 2.

(** ** UTF-32 *)

Fixpoint put32 (str : jsstr) (m : mem) (outPtr endPtr : Z) : mem * Z :=
  match str with
  | [] => (m, outPtr)
  | u :: rest =>
      if is_surrogate u then
        match rest with
        | [] => (store32 m (js_sar outPtr 2) (combine u 0), outPtr + 4)
        | u1 :: rest' =>
            let m := store32 m (js_sar outPtr 2) (combine u u1) in
            let outPtr := outPtr + 4 in
            if endPtr <? outPtr + 4 then (m, outPtr) else put32 rest' m outPtr endPtr
        end
      else
        let m := store32 m (js_sar outPtr 2) u in
        let outPtr := outPtr + 4 in
        if endPtr <? outPtr + 4 then (m, outPtr) else put32 rest m outPtr endPtr
  end.

Definition stringToUTF32 (str : jsstr) (m : mem) (outPtr maxBytesToWrite : Z) : result (mem * Z) :=
  if negb (outPtr mod 4 =? 0) then Throw aborted
  else if maxBytesToWrite <? 4 then Ok (m, 0)
  else
    let '(m, last) := put32 str m outPtr (outPtr + maxBytesToWrite - 4) in
    Ok (store32 m (js_sar last 2) 0, last - outPtr).

Fixpoint lengthBytesUTF32 (str : jsstr) : Z :=
  match str with
  | [] => 0
  | u :: rest =>
      if is_surrogate u then match rest with [] => 4 | _ :: rest' => 4 + lengthBytesUTF32 rest' end
      else 4 + lengthBytesUTF32 rest
  end.

(** ** ASCII *)

(** The terminator, or the end of the memory, stops the loop. *)
Fixpoint ascii_loop (fuel : nat) (m : mem) (ptr : Z) : jsstr :=
  match fuel with
  | O => []
  | S f => let ch := num8 m ptr in if ch =? 0 then [] else fromCharCode ch :: ascii_loop f m (ptr + 1)
  end.

Definition AsciiToString (m : mem) (ptr : Z) : jsstr := ascii_loop (length m) m ptr.

Fixpoint writeAsciiToMemory (str : jsstr) (m : mem) (buffer : Z) (dontAddNull : bool) : result mem :=
  match str with
  | [] => Ok (if dontAddNull then m else store8 m buffer 0)
  | c :: str' =>
      if negb (c =? js_and c 0xFF) then Throw aborted
      else writeAsciiToMemory str' (store8 m buffer c) (buffer + 1) dontAddNull
  end.

Definition stringToAscii (str : jsstr) (m : mem) (outPtr : Z) : result mem := writeAsciiToMemory str m outPtr false.

(** ** Lemmas *)

(** The bit operations of the code in arithmetic form. *)
Lemma and63 a : 0 <= a < 2 ^ 31 -> js_and a 63 = a mod 64.
Proof. intros. by apply (js_and_ones a 6). Qed.

Lemma encode_bytes_utf8 u : 0 <= u < 0x110000 -> encode_bytes u = utf8_encode u.
Proof.
  intros Hu. assert (Hc : forall y, 0 <= y < 64 -> js_or 0x80 y = 0x80 + y) by (intros y Hy; apply (js_or_add 2 y 6); lia).
  unfold encode_bytes, utf8_encode.
  destruct (u <=? 0x7F) eqn:E1; bool_prop; [zbool; done|]. rewrite (proj2 (Z.ltb_ge _ _)) by lia.
  destruct (u <=? 0x7FF) eqn:E2; bool_prop; [|rewrite (proj2 (Z.ltb_ge u 0x800)) by lia; destruct (u <=? 0xFFFF) eqn:E3; bool_prop];
    zbool; rewrite !js_sar_small by lia; change (2 ^ 6) with 64; change (2 ^ 12) with 4096; change (2 ^ 18) with 262144;
    rewrite !and63 by (Z.to_euclidean_division_equations; lia); rewrite !Hc by (apply Z.mod_pos_bound; lia); repeat f_equal.
  - apply (js_or_add 3 _ 6); try lia; Z.to_euclidean_division_equations; lia.
  - apply (js_or_add 14 _ 4); try lia; Z.to_euclidean_division_equations; lia.
  - apply (js_or_add 30 _ 3); try lia; Z.to_euclidean_division_equations; lia.
Qed.

Lemma combine_range u u1 : 0 <= u < 65536 -> 0 <= u1 < 65536 ->
  combine u u1 = 0x10000 + (u mod 1024) * 1024 + u1 mod 1024.
Proof.
  intros Hu Hu1. unfold combine. change 1023 with (2 ^ 10 - 1).
  rewrite (js_and_ones u 10), (js_and_ones u1 10) by lia.
  change (2 ^ 10) with 1024. pose proof (Z.mod_pos_bound u 1024). pose proof (Z.mod_pos_bound u1 1024).
  rewrite js_shl_small by lia. change (2 ^ 10) with 1024.
  replace (0x10000 + u mod 1024 * 1024) with ((64 + u mod 1024) * 2 ^ 10) by lia.
  rewrite js_or_add by lia. lia.
Qed.

Lemma combine_pair c : 0x10000 <= c < 0x110000 ->
  combine (0xD800 + (c - 0x10000) / 0x400) (0xDC00 + (c - 0x10000) mod 0x400) = c.
Proof. intros Hc. rewrite combine_range by (Z.to_euclidean_division_equations; lia). Z.to_euclidean_division_equations; lia. Qed.

Lemma utf8_encode_length c : 0 <= c -> Z.of_nat (length (utf8_encode c)) = point_length c.
Proof.
  intros Hc. unfold utf8_encode, point_length.
  destruct (c <? 0x80) eqn:E1; bool_prop; zbool; [done|].
  destruct (c <? 0x800) eqn:E2; bool_prop; zbool; [done|].
  destruct (c <? 0x10000) eqn:E3; bool_prop; zbool; done.
Qed.

(** Facts about one byte, checked on all of them. *)
Lemma all_bytes (P : Z -> bool) : forallb P (seqZ 0 256) = true -> forall b, 0 <= b < 256 -> P b = true.
Proof.
  intros H b Hb. rewrite forallb_forall in H. apply H. apply list_elem_of_In, elem_of_seqZ. lia.
Qed.

Lemma byte_masks b : 0 <= b < 256 ->
  (js_and b 0x80 =? 0) = (b <? 128) /\ (js_and b 0xE0 =? 0xC0) = ((192 <=? b) && (b <? 224))
  /\ (js_and b 0xF0 =? 0xE0) = ((224 <=? b) && (b <? 240))
  /\ js_and b 31 = b mod 32 /\ js_and b 15 = b mod 16 /\ js_and b 7 = b mod 8 /\ js_and b 63 = b mod 64.
Proof.
  intros Hb. apply (bool_decide_eq_true _). revert b Hb. apply (all_bytes (fun b => bool_decide _)). vm_compute. reflexivity.
Qed.

Lemma load8_mid pre b post : load8 (pre ++ b :: post) (Z.of_nat (length pre)) = Some b.
Proof. unfold load8. zbool. rewrite Nat2Z.id. by apply list_lookup_middle. Qed.

Lemma num8_mid pre b post : num8 (pre ++ b :: post) (Z.of_nat (length pre)) = b.
Proof. unfold num8. by rewrite load8_mid. Qed.

Lemma store8_mid pre b v post : store8 (pre ++ b :: post) (Z.of_nat (length pre)) v = pre ++ (v mod 256) :: post.
Proof. unfold store8. zbool. rewrite Nat2Z.id. rewrite insert_app_r_alt by lia. by rewrite Nat.sub_diag. Qed.

Lemma len_snoc {A} (l : list A) x : Z.of_nat (length l) + 1 = Z.of_nat (length (l ++ [x])).
Proof. rewrite length_app. cbn. lia. Qed.

Lemma store_bytes_mid bs pre old post :
  length old = length bs -> Forall (fun b => 0 <= b < 256) bs ->
  store_bytes (pre ++ old ++ post) (Z.of_nat (length pre)) bs = pre ++ bs ++ post.
Proof.
  revert pre old. induction bs as [|b bs IH]; intros pre [|o old] Hl Hb; try discriminate; [done|].
  inv Hb. cbn [app store_bytes]. rewrite store8_mid, Z.mod_small, (len_snoc pre b) by done.
  change (b :: old ++ post) with ([b] ++ old ++ post). change (b :: bs ++ post) with ([b] ++ bs ++ post).
  rewrite !(assoc_L (++) pre [b]). apply IH; [cbn in Hl; lia|done].
Qed.

(** ** Writing and reading UTF-8 *)

Lemma scalar_not_surrogate c : scalar c -> c < 0x10000 -> is_surrogate c = false.
Proof. unfold scalar, is_surrogate. intros. destruct (0xD800 <=? c) eqn:E; [|done]. bool_prop. cbn. apply Z.leb_gt. lia. Qed.

Lemma high_surrogate c : 0x10000 <= c < 0x110000 -> is_surrogate (0xD800 + (c - 0x10000) / 0x400) = true.
Proof. intros. unfold is_surrogate. apply andb_true_iff. split; apply Z.leb_le; Z.to_euclidean_division_equations; lia. Qed.

Lemma put_point_mid pre old post endIdx c :
  0 <= c < 0x110000 -> length old = length (utf8_encode c) -> Z.of_nat (length pre) + Z.of_nat (length (utf8_encode c)) <= endIdx ->
  put_point (pre ++ old ++ post) (Z.of_nat (length pre)) endIdx c
  = Some (pre ++ utf8_encode c ++ post, Z.of_nat (length (pre ++ utf8_encode c))).
Proof.
  intros Hc Hl He. unfold put_point. rewrite encode_bytes_utf8 by done. rewrite (proj2 (Z.leb_gt _ _)) by lia.
  rewrite store_bytes_mid by (done || by apply utf8_encode_bytes). by rewrite length_app, Nat2Z.inj_add.
Qed.

Lemma encode_loop_utf16 cps pre old post endIdx :
  Forall scalar cps -> length old = length (utf8 cps) -> Z.of_nat (length pre) + Z.of_nat (length (utf8 cps)) <= endIdx ->
  encode_loop (utf16 cps) (pre ++ old ++ post) (Z.of_nat (length pre)) endIdx
  = (pre ++ utf8 cps ++ post, Z.of_nat (length pre) + Z.of_nat (length (utf8 cps))).
Proof.
  intros H. revert pre old. induction H as [|c cps Hc _ IH]; intros pre old Hl He.
  { destruct old; [|done]. cbn. f_equal. lia. }
  unfold utf8, utf16 in *. cbn [map concat] in *. rewrite length_app in Hl, He.
  rewrite <- (take_drop (length (utf8_encode c)) old), <- (assoc_L (++)).
  assert (Hput := put_point_mid pre (take (length (utf8_encode c)) old)
            (drop (length (utf8_encode c)) old ++ post) endIdx c (scalar_range c Hc) ltac:(rewrite length_take; lia) ltac:(lia)).
  specialize (IH (pre ++ utf8_encode c) (drop (length (utf8_encode c)) old) ltac:(rewrite length_drop; lia) ltac:(rewrite length_app; lia)).
  rewrite <- !(assoc_L (++) pre) in IH.
  assert (Hres : forall a b : Z, a = b -> (pre ++ (utf8_encode c ++ concat (map utf8_encode cps)) ++ post, a)
            = (pre ++ utf8_encode c ++ concat (map utf8_encode cps) ++ post, b)) by (intros a b ->; by rewrite <- (assoc_L (++))).
  unfold utf16_encode at 1. destruct (c <? 0x10000) eqn:E; bool_prop; cbn [app encode_loop].
  - rewrite scalar_not_surrogate, Hput, IH by done. symmetry. apply Hres. rewrite !length_app. lia.
  - pose proof (scalar_range c Hc). rewrite high_surrogate, combine_pair, Hput, IH by lia. symmetry. apply Hres. rewrite !length_app. lia.
Qed.

Lemma lengthBytesUTF8_utf16 cps : Forall scalar cps -> lengthBytesUTF8 (utf16 cps) = Z.of_nat (length (utf8 cps)).
Proof.
  induction 1 as [|c cps Hc _ IH]; [done|]. unfold utf8, utf16 in *. cbn [map concat]. rewrite length_app, Nat2Z.inj_add, <- IH.
  pose proof (scalar_range c Hc). rewrite utf8_encode_length by lia.
  unfold utf16_encode. destruct (c <? 0x10000) eqn:E; bool_prop; cbn [app lengthBytesUTF8].
  - by rewrite scalar_not_surrogate.
  - by rewrite high_surrogate, combine_pair by lia.
Qed.

Lemma utf8_encode_positive c : 0 < c < 0x110000 -> Forall (fun b => 0 < b < 256) (utf8_encode c).
Proof.
  intros Hc. unfold utf8_encode. repeat case_match; bool_prop; repeat constructor; Z.to_euclidean_division_equations; lia.
Qed.

Lemma utf8_positive cps : Forall (fun c => scalar c /\ c <> 0) cps -> Forall (fun b => 0 < b < 256) (utf8 cps).
Proof.
  induction 1 as [|c cps [Hc Hn] _ IH]; [constructor|]. unfold utf8. cbn. apply Forall_app. split; [|done].
  apply utf8_encode_positive. unfold scalar in Hc. lia.
Qed.

Lemma scan_end_mid bs pre post fuel :
  Forall (fun b => 0 < b < 256) bs -> (length bs < fuel)%nat ->
  scan_end fuel (pre ++ bs ++ 0 :: post) (Z.of_nat (length pre)) None = Z.of_nat (length pre) + Z.of_nat (length bs).
Proof.
  intros H. revert pre fuel. induction H as [|b bs Hb _ IH]; intros pre [|fuel] Hf; try (cbn in Hf; lia).
  - cbn [scan_end app]. rewrite num8_mid. cbn. lia.
  - cbn [scan_end app]. rewrite num8_mid. rewrite (proj2 (Z.eqb_neq b 0)) by lia.
    rewrite (len_snoc pre b). change (b :: bs ++ 0 :: post) with ([b] ++ bs ++ 0 :: post). rewrite (assoc_L (++) pre [b]).
    rewrite IH by (cbn in Hf; lia). rewrite length_app. cbn. lia.
Qed.

Lemma num8_at pre a b post : num8 (pre ++ a ++ b :: post) (Z.of_nat (length pre) + Z.of_nat (length a)) = b.
Proof. rewrite (assoc_L (++)), <- Nat2Z.inj_add, <- length_app. apply num8_mid. Qed.

Lemma join6 h y : 0 <= h < 2 ^ 24 -> 0 <= y < 64 -> js_or (h * 64) y = h * 64 + y.
Proof. intros. apply (js_or_add h y 6); lia. Qed.

Lemma shl_small a n : 0 <= a < 64 -> 0 <= n <= 18 -> js_shl a n = a * 2 ^ n.
Proof. intros. assert (2 ^ n <= 2 ^ 18) by (apply Z.pow_le_mono_r; lia). apply js_shl_small; nia. Qed.

Lemma join3 q r s : 0 <= q < 64 -> 0 <= r < 64 -> 0 <= s < 64 ->
  js_or (js_or (js_shl q 12) (js_shl r 6)) s = q * 4096 + r * 64 + s.
Proof.
  intros. rewrite !shl_small by lia. rewrite (js_or_add q (r * 2 ^ 6) 12) by lia.
  replace (q * 2 ^ 12 + r * 2 ^ 6) with ((q * 64 + r) * 64) by lia. rewrite join6 by lia. lia.
Qed.

Lemma join4 p q r s : 0 <= p < 8 -> 0 <= q < 64 -> 0 <= r < 64 -> 0 <= s < 64 ->
  js_or (js_or (js_or (js_shl p 18) (js_shl q 12)) (js_shl r 6)) s = p * 262144 + q * 4096 + r * 64 + s.
Proof.
  intros. rewrite !shl_small by lia. rewrite (js_or_add p (q * 2 ^ 12) 18) by lia.
  replace (p * 2 ^ 18 + q * 2 ^ 12) with ((p * 64 + q) * 2 ^ 12) by lia. rewrite (js_or_add _ (r * 2 ^ 6) 12) by lia.
  replace ((p * 64 + q) * 2 ^ 12 + r * 2 ^ 6) with ((p * 4096 + q * 64 + r) * 64) by lia. rewrite join6 by lia. lia.
Qed.

Lemma surrogate_pair_utf16 c : 0x10000 <= c < 0x110000 -> surrogate_pair c = utf16_encode c.
Proof.
  intros Hc. unfold surrogate_pair, utf16_encode, fromCharCode. zbool.
  rewrite js_sar_small by lia. change 1023 with (2 ^ 10 - 1). rewrite js_and_ones by lia. change (2 ^ 10) with 0x400.
  pose proof (Z.mod_pos_bound (c - 0x10000) 0x400). assert (0 <= (c - 0x10000) / 0x400 < 0x400) by (Z.to_euclidean_division_equations; lia).
  rewrite (js_or_add 54 _ 10), (js_or_add 55 _ 10) by lia. rewrite !Z.mod_small by lia. done.
Qed.

Lemma fromCharCode_small c : 0 <= c < 65536 -> fromCharCode c = c.
Proof. intros. by apply Z.mod_small. Qed.

Lemma num8_plus pre a b post n : n = Z.of_nat (length a) -> num8 (pre ++ a ++ b :: post) (Z.of_nat (length pre) + n) = b.
Proof. intros ->. apply num8_at. Qed.

(** The byte behind [a], where the goal has the bytes as one list. *)
Ltac byte_at a b post n :=
  match goal with |- context [num8 (?pre ++ _) _] =>
    let H := fresh in pose proof (num8_plus pre a b post n eq_refl) as H; cbn [app] in H; rewrite H; clear H
  end.

Lemma decode_loop_one c pre post f endPtr :
  scalar c -> Z.of_nat (length pre) < endPtr ->
  decode_loop (S f) (pre ++ utf8_encode c ++ post) (Z.of_nat (length pre)) endPtr
  = utf16_encode c ++ decode_loop f (pre ++ utf8_encode c ++ post) (Z.of_nat (length pre) + Z.of_nat (length (utf8_encode c))) endPtr.
Proof.
  intros Hc He. pose proof (scalar_range c Hc) as Hr. unfold scalar in Hc. cbn [decode_loop]. rewrite (proj2 (Z.leb_gt _ _)) by lia.
  remember (utf8_encode c) as bs eqn:Hbs. unfold utf8_encode in Hbs.
  destruct (c <? 0x80) eqn:E1; bool_prop; [|destruct (c <? 0x800) eqn:E2; bool_prop; [|destruct (c <? 0x10000) eqn:E3; bool_prop]].
  - subst bs. cbn [app length]. rewrite num8_mid. destruct (byte_masks c) as (-> & _); [lia|]. rewrite (proj2 (Z.ltb_lt _ _)) by lia.
    unfold utf16_encode. zbool. rewrite fromCharCode_small by lia. done.
  - remember (c / 64) as q eqn:Hq. remember (c mod 64) as r eqn:Hr'.
    assert (Hqr : c = q * 64 + r /\ 2 <= q < 32 /\ 0 <= r < 64) by (subst q r; Z.to_euclidean_division_equations; lia).
    rewrite Hbs. cbn [app length]. rewrite num8_mid. byte_at [192 + q] (128 + r) post 1.
    destruct (byte_masks (192 + q)) as (-> & -> & _ & -> & _); [lia|]. destruct (byte_masks (128 + r)) as (_ & _ & _ & _ & _ & _ & ->); [lia|].
    zbool. rewrite shl_small by (Z.to_euclidean_division_equations; lia). change (2 ^ 6) with 64.
    rewrite join6 by (Z.to_euclidean_division_equations; lia). unfold utf16_encode. zbool.
    replace ((192 + q) mod 32 * 64 + (128 + r) mod 64) with c by (Z.to_euclidean_division_equations; lia).
    rewrite fromCharCode_small by lia. done.
  - remember (c / 4096) as q eqn:Hq. remember (c / 64 mod 64) as r eqn:Hr'. remember (c mod 64) as s eqn:Hs.
    assert (Hqr : c = q * 4096 + r * 64 + s /\ 0 <= q < 16 /\ 0 <= r < 64 /\ 0 <= s < 64) by (subst q r s; Z.to_euclidean_division_equations; lia).
    rewrite Hbs. cbn [app length]. rewrite num8_mid. byte_at [224 + q] (128 + r) (128 + s :: post) 1.
    byte_at [224 + q; 128 + r] (128 + s) post 2.
    destruct (byte_masks (224 + q)) as (-> & -> & -> & _ & -> & _); [lia|].
    destruct (byte_masks (128 + r)) as (_ & _ & _ & _ & _ & _ & ->); [lia|]. destruct (byte_masks (128 + s)) as (_ & _ & _ & _ & _ & _ & ->); [lia|].
    zbool. rewrite join3 by (Z.to_euclidean_division_equations; lia).
    replace ((224 + q) mod 16 * 4096 + (128 + r) mod 64 * 64 + (128 + s) mod 64) with c by (Z.to_euclidean_division_equations; lia).
    unfold utf16_encode. zbool. rewrite fromCharCode_small by lia. done.
  - remember (c / 262144) as p eqn:Hp. remember (c / 4096 mod 64) as q eqn:Hq. remember (c / 64 mod 64) as r eqn:Hr'. remember (c mod 64) as s eqn:Hs.
    assert (Hqr : c = p * 262144 + q * 4096 + r * 64 + s /\ 0 <= p < 5 /\ 0 <= q < 64 /\ 0 <= r < 64 /\ 0 <= s < 64)
      by (subst p q r s; Z.to_euclidean_division_equations; lia).
    rewrite Hbs. cbn [app length]. rewrite num8_mid. byte_at [240 + p] (128 + q) (128 + r :: 128 + s :: post) 1.
    byte_at [240 + p; 128 + q] (128 + r) (128 + s :: post) 2.
    byte_at [240 + p; 128 + q; 128 + r] (128 + s) post 3.
    destruct (byte_masks (240 + p)) as (-> & -> & -> & _ & _ & -> & _); [lia|].
    destruct (byte_masks (128 + q)) as (_ & _ & _ & _ & _ & _ & ->); [lia|].
    destruct (byte_masks (128 + r)) as (_ & _ & _ & _ & _ & _ & ->); [lia|]. destruct (byte_masks (128 + s)) as (_ & _ & _ & _ & _ & _ & ->); [lia|].
    zbool. rewrite join4 by (Z.to_euclidean_division_equations; lia).
    replace ((240 + p) mod 8 * 262144 + (128 + q) mod 64 * 4096 + (128 + r) mod 64 * 64 + (128 + s) mod 64) with c by (Z.to_euclidean_division_equations; lia).
    zbool. by rewrite surrogate_pair_utf16 by lia.
Qed.

Lemma utf8_encode_nonempty c : (0 < length (utf8_encode c))%nat.
Proof. unfold utf8_encode. repeat case_match; cbn; lia. Qed.

Lemma decode_loop_utf8 cps pre post f :
  Forall scalar cps -> (length (utf8 cps) <= f)%nat ->
  decode_loop f (pre ++ utf8 cps ++ post) (Z.of_nat (length pre)) (Z.of_nat (length pre) + Z.of_nat (length (utf8 cps))) = utf16 cps.
Proof.
  intros H. revert pre f. induction H as [|c cps Hc _ IH]; intros pre f Hf.
  - destruct f; [done|]. cbn [decode_loop utf8 map concat length]. by rewrite (proj2 (Z.leb_le _ _)) by lia.
  - unfold utf8, utf16 in *. cbn [map concat] in *. rewrite length_app in *. pose proof (utf8_encode_nonempty c).
    destruct f as [|f]; [lia|]. rewrite <- (assoc_L (++) (utf8_encode c)). rewrite decode_loop_one by (done || lia). f_equal.
    rewrite (assoc_L (++) pre). rewrite <- Nat2Z.inj_add, <- length_app, Nat2Z.inj_add, Z.add_assoc.
    rewrite <- (Nat2Z.inj_add (length pre)), <- length_app. apply IH. lia.
Qed.

Lemma load8_app_l a b i : i < Z.of_nat (length a) -> load8 (a ++ b) i = load8 a i.
Proof. intros. unfold load8. destruct (i <? 0) eqn:E; [done|]. bool_prop. apply lookup_app_l. lia. Qed.

(** Text survives the way through the memory of the module: a text of Unicode
    scalar values without NUL, written with at least the room that
    [lengthBytesUTF8] asks for, takes exactly that many bytes, and reading it
    back gives the same text, with or without [TextDecoder].  The one exception
    is a leading byte order mark, which [TextDecoder] removes. *)
Theorem utf8_memory_roundtrip (cps : list Z) (heap : mem) (outIdx maxBytesToWrite : Z) (decoder typed : bool) :
  Forall (fun c => scalar c /\ c <> 0) cps -> head cps <> Some 0xFEFF -> 0 <= outIdx ->
  lengthBytesUTF8 (utf16 cps) < maxBytesToWrite -> outIdx + lengthBytesUTF8 (utf16 cps) < Z.of_nat (length heap) ->
  exists heap', stringToUTF8Array (utf16 cps) heap outIdx maxBytesToWrite = (heap', lengthBytesUTF8 (utf16 cps))
    /\ UTF8ArrayToString decoder typed heap' outIdx None = utf16 cps.
Proof.
  intros Hc Hbom Ho Hmax Hroom. assert (Hs : Forall scalar cps) by (eapply Forall_impl; [exact Hc|by intros ? []]).
  rewrite !lengthBytesUTF8_utf16 in * by done. remember (utf8 cps) as bs eqn:Hbs.
  rewrite <- (take_drop (Z.to_nat outIdx) heap). rewrite <- (take_drop (length bs) (drop (Z.to_nat outIdx) heap)).
  set (pre := take (Z.to_nat outIdx) heap). set (old := take (length bs) _). rewrite drop_drop.
  assert (Hpre : outIdx = Z.of_nat (length pre)) by (subst pre; rewrite length_take; lia).
  assert (Hold : length old = length bs) by (subst old; rewrite length_take, length_drop; lia).
  destruct (drop (Z.to_nat outIdx + length bs) heap) as [|z post] eqn:Hd.
  { apply (f_equal length) in Hd. rewrite length_drop in Hd. cbn in Hd. lia. }
  clearbody pre old. subst outIdx. exists (pre ++ bs ++ 0 :: post). unfold stringToUTF8Array.
  rewrite (proj2 (Z.ltb_lt _ _)) by lia. cbn [negb]. subst bs. rewrite encode_loop_utf16 by (done || lia).
  rewrite (assoc_L (++) pre), <- Nat2Z.inj_add, <- length_app, store8_mid, <- (assoc_L (++)). change (0 mod 256) with 0. split.
  { f_equal. rewrite length_app. lia. }
  unfold UTF8ArrayToString. cbn [option_map]. pose proof (utf8_positive cps Hc) as Hp.
  rewrite scan_end_mid by (done || rewrite !length_app; cbn; lia).
  replace (Z.of_nat (length pre) + Z.of_nat (length (utf8 cps)) - Z.of_nat (length pre)) with (Z.of_nat (length (utf8 cps))) by lia.
  destruct ((16 <? _) && typed && decoder).
  - rewrite !Nat2Z.id, drop_app_length, take_app_length, text_decode_encode by done. f_equal.
    destruct cps as [|c cps]; [done|]. cbn. rewrite (proj2 (Z.eqb_neq _ _)); [done|]. intros ->. by apply Hbom.
  - rewrite Nat2Z.id. by apply decode_loop_utf8.
Qed.

Definition euro_sign : list Z := [8364; 65; 0x1F600].

Theorem utf8_memory_witness :
  exists heap', stringToUTF8Array (utf16 euro_sign) (repeat 7 32) 4 28 = (heap', lengthBytesUTF8 (utf16 euro_sign))
    /\ UTF8ArrayToString true true heap' 4 None = utf16 euro_sign.
Proof.
  apply (utf8_memory_roundtrip euro_sign (repeat 7 32) 4 28 true true).
  - repeat constructor; unfold scalar; lia.
  - discriminate.
  - lia.
  - vm_compute. reflexivity.
  - vm_compute. reflexivity.
Defined.

(** ** Bounds *)

Lemma store8_length m i v : length (store8 m i v) = length m.
Proof. unfold store8. case_match; [done|]. apply length_insert. Qed.

Lemma store8_other m i v j : i <> j -> load8 (store8 m i v) j = load8 m j.
Proof.
  intros Hij. unfold load8, store8. destruct (j <? 0) eqn:Ej; [done|]. destruct (i <? 0) eqn:Ei; [done|]. bool_prop.
  apply list_lookup_insert_ne. lia.
Qed.

(** [m'] differs from [m] at most in [lo, hi). *)
Definition only_between (lo hi : Z) (m m' : mem) : Prop :=
  length m' = length m /\ forall j, ~ (lo <= j < hi) -> load8 m' j = load8 m j.

Lemma only_between_refl lo hi m : only_between lo hi m m.
Proof. by split. Qed.

Lemma only_between_trans lo hi a b c : only_between lo hi a b -> only_between lo hi b c -> only_between lo hi a c.
Proof. intros [L1 H1] [L2 H2]. split; [congruence|]. intros j Hj. by rewrite H2, H1. Qed.

Lemma only_between_store8 lo hi m i v : lo <= i < hi -> only_between lo hi m (store8 m i v).
Proof. intros Hi. split; [apply store8_length|]. intros j Hj. apply store8_other. lia. Qed.

Lemma only_between_store_bytes lo hi bs m i :
  lo <= i -> i + Z.of_nat (length bs) <= hi -> only_between lo hi m (store_bytes m i bs).
Proof.
  revert m i. induction bs as [|b bs IH]; intros m i Hi Hb; [apply only_between_refl|]. cbn [store_bytes length] in *.
  eapply only_between_trans; [apply (only_between_store8 lo hi m i b); lia|]. apply IH; lia.
Qed.

#[export] Hint Resolve only_between_refl : jsdb.

Lemma put_point_between lo endIdx m outIdx u m' out' :
  lo <= outIdx -> put_point m outIdx endIdx u = Some (m', out') ->
  outIdx <= out' <= endIdx /\ only_between lo endIdx m m'.
Proof.
  intros Hlo. unfold put_point. case_match; [done|]. bool_prop. intros [= <- <-].
  split; [lia|]. apply only_between_store_bytes; lia.
Qed.

Lemma encode_loop_between lo endIdx str m outIdx :
  lo <= outIdx <= endIdx ->
  let '(m', last) := encode_loop str m outIdx endIdx in outIdx <= last <= endIdx /\ only_between lo endIdx m m'.
Proof.
  remember (length str) as n eqn:Hn. revert str m outIdx Hn. induction n as [n IH] using lt_wf_ind. intros str m outIdx Hn Ho.
  destruct str as [|u rest]; cbn [encode_loop]; [eauto with jsdb lia|].
  assert (Hstep : forall v k, (forall m' out', outIdx <= out' <= endIdx -> let '(m2, last) := k m' out' in out' <= last <= endIdx /\ only_between lo endIdx m' m2) ->
    let '(m2, last) := match put_point m outIdx endIdx v with Some (m', out') => k m' out' | None => (m, outIdx) end in
    outIdx <= last <= endIdx /\ only_between lo endIdx m m2).
  { intros v k Hk. destruct (put_point m outIdx endIdx v) as [[m' out']|] eqn:E; [|eauto with jsdb lia].
    destruct (put_point_between lo endIdx m outIdx v m' out' ltac:(lia) E) as [Hb Hm]. specialize (Hk m' out' Hb).
    destruct (k m' out') as [m2 last]. destruct Hk as [Hl H2]. split; [lia|]. by apply (only_between_trans _ _ _ m'). }
  subst n. destruct (is_surrogate u); [destruct rest as [|u1 rest]|].
  - apply (Hstep _ (fun m' out' => (m', out'))). intros. eauto with jsdb lia.
  - apply (Hstep _ (fun m' out' => encode_loop rest m' out' endIdx)). intros. apply (IH (length rest)); cbn; lia.
  - apply (Hstep _ (fun m' out' => encode_loop rest m' out' endIdx)). intros. apply (IH (length rest)); cbn; lia.
Qed.

(** [stringToUTF8Array] stays in its buffer, whatever the string, even one with
    lone surrogates: it changes no byte outside the [maxBytesToWrite] bytes from
    [outIdx], leaves room for the terminator, and writes nothing at all into a
    buffer of no bytes. *)
Theorem utf8_write_bounds (str : jsstr) (heap : mem) (outIdx maxBytesToWrite : Z) :
  let '(heap', n) := stringToUTF8Array str heap outIdx maxBytesToWrite in
  length heap' = length heap
  /\ (forall j, ~ (outIdx <= j < outIdx + maxBytesToWrite) -> load8 heap' j = load8 heap j)
  /\ 0 <= n <= Z.max 0 (maxBytesToWrite - 1)
  /\ (0 < maxBytesToWrite -> 0 <= outIdx + n < Z.of_nat (length heap) -> load8 heap' (outIdx + n) = Some 0).
Proof.
  unfold stringToUTF8Array. destruct (0 <? maxBytesToWrite) eqn:E; bool_prop; cbn [negb]; [|repeat split; lia].
  pose proof (encode_loop_between outIdx (outIdx + maxBytesToWrite - 1) str heap outIdx ltac:(lia)) as H.
  destruct (encode_loop _ _ _ _) as [m' last]. destruct H as [Hl [Hlen Hm]]. rewrite store8_length.
  split; [done|]. split; [intros j Hj; rewrite store8_other, Hm by lia; done|]. split; [lia|].
  intros _ Hin. replace (outIdx + (last - outIdx)) with last in * by lia. unfold load8, store8.
  rewrite (proj2 (Z.ltb_ge _ _)) by lia. rewrite list_lookup_insert by lia. by rewrite decide_True by lia.
Qed.

(** The other two encodings do not keep to their buffer.  [stringToUTF32] into the
    smallest buffer it accepts, four bytes, writes the first character before it
    looks at the room and puts the terminator in the four bytes behind; and
    [stringToUTF16] into an odd number of bytes writes one byte too many. *)
Theorem wide_strings_overrun (u v : Z) :
  (exists m', stringToUTF32 [65] (repeat 7 8) 0 4 = Ok (m', 4) /\ load8 m' 4 = Some 0 /\ load8 (repeat 7 8) 4 = Some 7)
  /\ (0 <= u < 65536 -> 0 <= v < 65536 ->
      exists m', stringToUTF16 [u; v] (repeat 7 8) 0 5 = Ok (m', 4) /\ load8 m' 5 = Some 0 /\ load8 (repeat 7 8) 5 = Some 7).
Proof.
  split.
  - eexists. split; [vm_compute; reflexivity|done].
  - intros Hu Hv. eexists. split; [cbn; reflexivity|]. done.
Qed.
