(* ===== verification/OpusWide.v ===== *)
(** * Reading UTF-16 and UTF-32 from the memory of the Opus module
      ([integrations/lan-remote-access/rustdesk-web-open/libopus.js])

    The readers that go with the writers of [OpusText], and that what was written
    with enough room is read back. *)

From stdpp Require Import base list numbers strings.
From Stdlib Require Import ZArith Lia.
From S2P Require Import Prelude JsString Utf8 OpusText.
Local Open Scope Z_scope.

(** ** The readers *)

(** [!(i >= maxBytesToRead / size)]; an absent limit never ends a loop. *)
Definition below (i size : Z) (maxBytesToRead : option Z) : bool :=
  match maxBytesToRead with None => true | Some k => size * i <? k end.

(** Turns a loop needs: to the limit, or to the end of the memory. *)
Definition wide_fuel (m : mem) (size : Z) (maxBytesToRead : option Z) : nat :=
  match maxBytesToRead with None => S (length m) | Some k => S (Z.to_nat ((k + size - 1) / size)) end.

(** [while (!(idx >= maxIdx) && HEAPU16[idx]) ++idx]: it stops outside the memory. *)
Fixpoint scan16 (fuel : nat) (m : mem) (start idx : Z) (maxBytesToRead : option Z) : Z :=
  match fuel with
  | O => idx
  | S f =>
      if negb (below (idx - start) 2 maxBytesToRead) then idx
      else match load16 m idx with
           | None | Some 0 => idx
           | Some _ => scan16 f m start (idx + 1) maxBytesToRead
           end
  end.

(** The loop without [TextDecoder].  An element outside the memory is [undefined], which is not equal to [0] and makes a
    NUL character; without a limit the loop then never ends, which is [None]. *)
Fixpoint read16 (fuel : nat) (m : mem) (ptr i : Z) (maxBytesToRead : option Z) : option jsstr :=
  match fuel with
  | O => None
  | S f =>
      if negb (below i 2 maxBytesToRead) then Some []
      else match load16 m (js_sar (ptr + i * 2) 1) with
           | Some 0 => Some []
           | Some codeUnit => option_map (cons (fromCharCode codeUnit)) (read16 f m ptr (i + 1) maxBytesToRead)
           | None => option_map (cons 0) (read16 f m ptr (i + 1) maxBytesToRead)
           end
  end.

(** [new TextDecoder('utf-16le').decode(bytes)] of whole code units. *)
Fixpoint units_of (bs : list Z) : jsstr :=
  match bs with a :: b :: bs' => (a + 256 * b) :: units_of bs' | _ => [] end.
Definition utf16_decode (bs : list Z) : jsstr := utf16 (strip_bom (code_points (units_of bs))).

Definition UTF16ToString (UTF16Decoder : bool) (m : mem) (ptr : Z) (maxBytesToRead : option Z) : result (option jsstr) :=
  if negb (Z.rem ptr 2 =? 0) then Throw aborted
  else
    let idx := js_sar ptr 1 in
    let endPtr := js_shl (scan16 (S (length m)) m idx idx maxBytesToRead) 1 in
    if (32 <? endPtr - ptr) && UTF16Decoder
    then Ok (Some (utf16_decode (take (Z.to_nat (endPtr - ptr)) (drop (Z.to_nat ptr) m))))
    else Ok (read16 (wide_fuel m 2 maxBytesToRead) m ptr 0 maxBytesToRead).

Fixpoint read32 (fuel : nat) (m : mem) (ptr i : Z) (maxBytesToRead : option Z) : option jsstr :=
  match fuel with
  | O => None
  | S f =>
      if negb (below i 4 maxBytesToRead) then Some []
      else match load32 m (js_sar (ptr + i * 4) 2) with
           | Some 0 => Some []
           | Some utf32 =>
               option_map (app (if 0x10000 <=? utf32 then surrogate_pair utf32 else [fromCharCode utf32]))
                          (read32 f m ptr (i + 1) maxBytesToRead)
           | None => option_map (cons 0) (read32 f m ptr (i + 1) maxBytesToRead)
           end
  end.

Definition UTF32ToString (m : mem) (ptr : Z) (maxBytesToRead : option Z) : result (option jsstr) :=
  if negb (Z.rem ptr 4 =? 0) then Throw aborted
  else Ok (read32 (wide_fuel m 4 maxBytesToRead) m ptr 0 maxBytesToRead).

(** ** Memory lemmas *)

Definition bytes16 (u : Z) : list Z := [u mod 256; u / 256 mod 256].
Definition bytes32 (u : Z) : list Z := bytes16 u ++ bytes16 (u / 65536).

Lemma store8_at pre b v post i : i = Z.of_nat (length pre) -> store8 (pre ++ b :: post) i v = pre ++ (v mod 256) :: post.
Proof. intros ->. apply store8_mid. Qed.

Lemma load8_at pre b post i : i = Z.of_nat (length pre) -> load8 (pre ++ b :: post) i = Some b.
Proof. intros ->. apply load8_mid. Qed.

Lemma store16_at pre a b v post i : 2 * i = Z.of_nat (length pre) -> store16 (pre ++ a :: b :: post) i v = pre ++ bytes16 v ++ post.
Proof.
  intros Hi. unfold store16. rewrite store8_at by done. rewrite cons_middle, (assoc_L (++)).
  rewrite store8_at by (rewrite length_app; cbn; lia). by rewrite <- (assoc_L (++)).
Qed.

Lemma load16_at pre a b post i : 2 * i = Z.of_nat (length pre) -> load16 (pre ++ a :: b :: post) i = Some (a + 256 * b).
Proof.
  intros Hi. unfold load16. rewrite load8_at by done. rewrite cons_middle, (assoc_L (++)).
  by rewrite load8_at by (rewrite length_app; cbn; lia).
Qed.

Lemma store32_at pre a b c d v post i :
  4 * i = Z.of_nat (length pre) -> store32 (pre ++ a :: b :: c :: d :: post) i v = pre ++ bytes32 v ++ post.
Proof.
  intros Hi. unfold store32. rewrite store16_at by lia. rewrite (assoc_L (++)).
  rewrite store16_at by (rewrite length_app; cbn; lia). unfold bytes32. by rewrite <- !(assoc_L (++)).
Qed.

Lemma load32_at pre u post i :
  4 * i = Z.of_nat (length pre) -> load32 (pre ++ bytes32 u ++ post) i = Some (to_int32 (u mod 2 ^ 32)).
Proof.
  intros Hi. unfold load32, bytes32, bytes16. cbn [app]. rewrite load16_at by lia.
  change (pre ++ u mod 256 :: u / 256 mod 256 :: u / 65536 mod 256 :: u / 65536 / 256 mod 256 :: post)
    with (pre ++ [u mod 256; u / 256 mod 256] ++ u / 65536 mod 256 :: u / 65536 / 256 mod 256 :: post).
  rewrite (assoc_L (++)), load16_at by (rewrite length_app; cbn; lia). do 2 f_equal.
  Z.to_euclidean_division_equations; lia.
Qed.

Lemma load16_bytes pre u post i : 2 * i = Z.of_nat (length pre) -> 0 <= u < 65536 -> load16 (pre ++ bytes16 u ++ post) i = Some u.
Proof.
  intros Hi Hu. unfold bytes16. cbn [app]. rewrite load16_at by done. f_equal. Z.to_euclidean_division_equations; lia.
Qed.

Lemma sar_even k p : 0 <= k -> 0 <= 2 * k < 2 ^ 31 -> p = 2 * k -> js_sar p 1 = k.
Proof. intros Hk Hr ->. rewrite js_sar_small by lia. change (2 ^ 1) with 2. rewrite Z.mul_comm. apply Z.div_mul. lia. Qed.

Lemma sar_quad k p : 0 <= k -> 0 <= 4 * k < 2 ^ 31 -> p = 4 * k -> js_sar p 2 = k.
Proof. intros Hk Hr ->. rewrite js_sar_small by lia. change (2 ^ 2) with 4. rewrite Z.mul_comm. apply Z.div_mul. lia. Qed.

Definition units (str : jsstr) : list Z := concat (map bytes16 str).

Lemma units_length str : Z.of_nat (length (units str)) = 2 * str_len str.
Proof. unfold units, str_len. induction str as [|c str IH]; [done|]. cbn [map concat]. rewrite length_app. cbn [length bytes16] in *. lia. Qed.

(** ** UTF-16 *)

Lemma put16_spec str pre old post p :
  length old = length (units str) -> p = Z.of_nat (length pre) -> Z.rem p 2 = 0 -> Z.of_nat (length (pre ++ old)) < 2 ^ 31 ->
  put16 (length str) str (pre ++ old ++ post) p = (pre ++ units str ++ post, p + 2 * str_len str).
Proof.
  revert pre old p. induction str as [|c str IH]; intros pre old p Ho Hp Hev Hlim.
  - destruct old; [|discriminate]. cbn. f_equal. unfold str_len. cbn. lia.
  - unfold units in Ho. cbn [map concat] in Ho. destruct old as [|a [|b old]]; try discriminate Ho. cbn [length put16].
    rewrite length_app in Hlim. cbn [length] in Hlim.
    rewrite (sar_even (p / 2) p) by (Z.to_euclidean_division_equations; lia).
    cbn [app]. rewrite store16_at by (Z.to_euclidean_division_equations; lia).
    rewrite (assoc_L (++)). rewrite IH.
    + unfold units. cbn [map concat]. rewrite <- !(assoc_L (++)). f_equal. unfold str_len. cbn [length]. lia.
    + rewrite length_app in Ho. cbn [length bytes16] in Ho. unfold units. lia.
    + rewrite length_app. cbn. lia.
    + Z.to_euclidean_division_equations; lia.
    + rewrite !length_app. cbn. lia.
Qed.

Lemma units_cons c str : units (c :: str) = bytes16 c ++ units str.
Proof. done. Qed.

Lemma scan16_spec str pre post start idx fuel :
  Forall (fun u => 0 < u < 65536) str -> 2 * idx = Z.of_nat (length pre) -> (length str < fuel)%nat ->
  scan16 fuel (pre ++ units str ++ bytes16 0 ++ post) start idx None = idx + str_len str.
Proof.
  intros Hs. revert pre idx fuel. induction Hs as [|c str Hc Hs IH]; intros pre idx fuel Hi Hf; (destruct fuel as [|fuel]; [cbn in Hf; lia|]); cbn [scan16 below negb].
  - change (units [] ++ ?x) with x. rewrite load16_bytes by (cbn; lia). unfold str_len. cbn [length]. lia.
  - rewrite units_cons, <- (assoc_L (++)), load16_bytes by lia. destruct c as [|c|c]; [lia| |lia].
    rewrite (assoc_L (++) pre), IH by (rewrite ?length_app; cbn in *; lia). unfold str_len. cbn [length]. lia.
Qed.

Lemma read16_spec str pre post ptr i fuel :
  Forall (fun u => 0 < u < 65536) str -> Z.rem ptr 2 = 0 -> 0 <= i -> 0 <= ptr -> ptr + 2 * i = Z.of_nat (length pre) -> (length str < fuel)%nat ->
  Z.of_nat (length (pre ++ units str)) < 2 ^ 31 ->
  read16 fuel (pre ++ units str ++ bytes16 0 ++ post) ptr i None = Some str.
Proof.
  intros Hs Hev Hi0 Hp0. revert pre i Hi0 fuel.
  induction Hs as [|c str Hc Hs IH]; intros pre i Hi0 fuel Hi Hf Hlim; (destruct fuel as [|fuel]; [cbn in Hf; lia|]); cbn [read16 below negb];
    rewrite ?units_cons, !length_app in Hlim; cbn [length bytes16] in Hlim;
    rewrite (sar_even (ptr / 2 + i)) by (Z.to_euclidean_division_equations; lia).
  - change (units [] ++ ?x) with x. rewrite load16_bytes by (Z.to_euclidean_division_equations; lia). done.
  - rewrite units_cons, <- (assoc_L (++)), load16_bytes by (Z.to_euclidean_division_equations; lia).
    destruct c as [|c|c]; [lia| |lia].
    rewrite (assoc_L (++) pre), IH; [| lia | rewrite length_app; cbn; lia | cbn in Hf; lia |
      rewrite !length_app; cbn [length bytes16]; lia].
    cbn [option_map]. rewrite fromCharCode_small by lia. done.
Qed.

Lemma units_of_units str : Forall (fun u => 0 < u < 65536) str -> units_of (units str) = str.
Proof.
  induction 1 as [|c str Hc Hs IH]; [done|]. unfold units in *. cbn [map concat bytes16 app units_of]. rewrite IH.
  f_equal. Z.to_euclidean_division_equations; lia.
Qed.

Lemma utf16_units cps : Forall (fun c => scalar c /\ c <> 0) cps -> Forall (fun u => 0 < u < 65536) (utf16 cps).
Proof.
  unfold utf16. induction 1 as [|c cps [Hs Hc] _ IH]; [constructor|]. cbn [map concat]. apply Forall_app. split; [|done].
  unfold utf16_encode, scalar in *. case_match; bool_prop; repeat constructor; Z.to_euclidean_division_equations; lia.
Qed.

(** A memory as what is before a block, the block and what is behind it. *)
Lemma split_block (m : mem) (p n : Z) : 0 <= p -> 0 <= n -> p + n <= Z.of_nat (length m) ->
  exists pre old post, m = pre ++ old ++ post /\ Z.of_nat (length pre) = p /\ Z.of_nat (length old) = n.
Proof.
  intros Hp Hn Hm. exists (take (Z.to_nat p) m), (take (Z.to_nat n) (drop (Z.to_nat p) m)), (drop (Z.to_nat n) (drop (Z.to_nat p) m)).
  rewrite !take_drop. split; [done|]. rewrite !length_take, length_drop. lia.
Qed.

(** UTF-16 written with the room [lengthBytesUTF16] and its terminator ask for is read back, with or without
    [TextDecoder]. *)
Theorem utf16_memory_roundtrip (cps : list Z) (m : mem) (outPtr maxBytesToWrite : Z) (decoder : bool) :
  Forall (fun c => scalar c /\ c <> 0) cps -> head cps <> Some 0xFEFF -> 0 <= outPtr -> Z.rem outPtr 2 = 0 ->
  lengthBytesUTF16 (utf16 cps) + 2 <= maxBytesToWrite ->
  outPtr + lengthBytesUTF16 (utf16 cps) + 2 <= Z.of_nat (length m) < 2 ^ 31 ->
  exists m', stringToUTF16 (utf16 cps) m outPtr maxBytesToWrite = Ok (m', lengthBytesUTF16 (utf16 cps))
    /\ UTF16ToString decoder m' outPtr None = Ok (Some (utf16 cps)).
Proof.
  intros Hc Hbom Ho Hev Hmax Hroom. pose proof (utf16_units cps Hc) as Hu.
  assert (Hdec : utf16_decode (units (utf16 cps)) = utf16 cps).
  { unfold utf16_decode. rewrite units_of_units, code_points_utf16 by (done || (eapply Forall_impl; [exact Hc|by intros ? []])).
    f_equal. destruct cps as [|c cps]; [done|]. cbn. rewrite (proj2 (Z.eqb_neq _ _)); [done|]. intros ->. by apply Hbom. }
  remember (utf16 cps) as str eqn:Hstr. clear Hstr Hc Hbom. unfold lengthBytesUTF16 in *. pose proof (units_length str) as Hul.
  assert (0 <= str_len str) by (unfold str_len; lia).
  destruct (split_block m outPtr (2 * str_len str + 2)) as (pre & old' & post & -> & Hpre & Hold); [lia..|].
  destruct (split_block old' (2 * str_len str) 2) as (old & z & e & -> & Hold1 & Hz); [lia..|].
  rewrite !length_app in Hold. destruct e as [|? ?]; [|cbn in Hold; lia]. rewrite app_nil_r in *.
  destruct z as [|z1 [|z2 [|? ?]]]; try (cbn in Hz; lia). rewrite !length_app in Hroom. cbn [length] in Hroom.
  exists (pre ++ units str ++ bytes16 0 ++ post). unfold stringToUTF16.
  replace (outPtr mod 2) with 0 by (Z.to_euclidean_division_equations; lia). cbn [negb Z.eqb].
  rewrite (proj2 (Z.ltb_ge maxBytesToWrite 2)), (proj2 (Z.ltb_ge (maxBytesToWrite - 2) _)) by lia.
  rewrite <- (assoc_L (++) old). replace (Z.to_nat (str_len str)) with (length str) by (unfold str_len; lia).
  rewrite put16_spec by (try done; rewrite ?length_app; lia).
  rewrite (sar_even ((outPtr + 2 * str_len str) / 2)) by (Z.to_euclidean_division_equations; lia). split.
  - rewrite (assoc_L (++) pre). cbn [app]. rewrite store16_at by (rewrite length_app; Z.to_euclidean_division_equations; lia).
    rewrite <- (assoc_L (++)). do 2 f_equal. lia.
  - unfold UTF16ToString. rewrite Hev. cbn [negb Z.eqb]. rewrite (sar_even (outPtr / 2) outPtr) by (Z.to_euclidean_division_equations; lia).
    rewrite scan16_spec by (try done; try (rewrite !length_app; unfold str_len in Hul; cbn; lia); Z.to_euclidean_division_equations; lia).
    rewrite js_shl_small by (Z.to_euclidean_division_equations; lia). change (2 ^ 1) with 2.
    replace ((outPtr / 2 + str_len str) * 2 - outPtr) with (2 * str_len str) by (Z.to_euclidean_division_equations; lia).
    destruct ((32 <? 2 * str_len str) && decoder).
    + rewrite <- Hpre, Nat2Z.id, drop_app_length, <- Hul, Nat2Z.id, take_app_length, Hdec. done.
    + f_equal. apply read16_spec; try done; try lia; unfold str_len in *; cbn [wide_fuel]; rewrite !length_app; cbn [length bytes16]; lia.
Qed.

Theorem utf16_memory_witness :
  exists m', stringToUTF16 (utf16 euro_sign) (repeat 7 32) 4 20 = Ok (m', lengthBytesUTF16 (utf16 euro_sign))
    /\ UTF16ToString true m' 4 None = Ok (Some (utf16 euro_sign)).
Proof.
  apply (utf16_memory_roundtrip euro_sign (repeat 7 32) 4 20 true).
  - repeat constructor; unfold scalar; lia.
  - discriminate.
  - lia.
  - reflexivity.
  - vm_compute. discriminate.
  - split; [vm_compute; discriminate|vm_compute; reflexivity].
Defined.

(** ** UTF-32 *)

Definition words (cps : list Z) : list Z := concat (map bytes32 cps).

Lemma words_length cps : length (words cps) = (4 * length cps)%nat.
Proof. unfold words. induction cps as [|c cps IH]; [done|]. cbn [map concat]. rewrite length_app. cbn [length] in *. cbn. lia. Qed.

Lemma words_cons c cps : words (c :: cps) = bytes32 c ++ words cps.
Proof. done. Qed.

Lemma length_utf32 cps : Forall scalar cps -> lengthBytesUTF32 (utf16 cps) = 4 * Z.of_nat (length cps).
Proof.
  unfold utf16. induction 1 as [|c cps Hc _ IH]; [done|]. cbn [map concat]. unfold utf16_encode at 1.
  destruct (c <? 0x10000) eqn:E; bool_prop; cbn [app lengthBytesUTF32 length].
  - rewrite scalar_not_surrogate, IH by done. lia.
  - rewrite high_surrogate, IH by (unfold scalar in Hc; lia). lia.
Qed.

Lemma block4 (old : list Z) n : length old = (4 * S n)%nat -> exists a b c d old', old = a :: b :: c :: d :: old' /\ length old' = (4 * n)%nat.
Proof. intros H. do 4 (destruct old as [|? old]; [cbn in H; lia|]). repeat eexists. cbn in H. lia. Qed.

(** One character: the code point is stored, and the loop goes on while there is room for another and the terminator. *)
Lemma put32_one c rest m p e :
  scalar c ->
  put32 (utf16_encode c ++ rest) m p e
  = let m' := store32 m (js_sar p 2) c in
    match rest with [] => (m', p + 4) | _ => if e <? p + 4 + 4 then (m', p + 4) else put32 rest m' (p + 4) e end.
Proof.
  intros Hc. unfold utf16_encode. destruct (c <? 0x10000) eqn:E; bool_prop; cbn [app put32].
  - rewrite scalar_not_surrogate by done. cbn zeta. destruct rest; [by case_match|done].
  - rewrite high_surrogate by (unfold scalar in Hc; lia). rewrite combine_pair by (unfold scalar in Hc; lia).
    cbn zeta. destruct rest; [by case_match|done].
Qed.

Lemma put32_spec cps pre old post p e :
  Forall scalar cps -> length old = (4 * length cps)%nat -> p = Z.of_nat (length pre) -> Z.rem p 4 = 0 ->
  Z.of_nat (length (pre ++ old)) < 2 ^ 31 -> p + 4 * Z.of_nat (length cps) <= e ->
  put32 (utf16 cps) (pre ++ old ++ post) p e = (pre ++ words cps ++ post, p + 4 * Z.of_nat (length cps)).
Proof.
  intros Hs. revert pre old p. induction Hs as [|c cps Hc Hs IH]; intros pre old p Ho Hp Hal Hlim He.
  - destruct old; [|discriminate]. cbn. f_equal. lia.
  - destruct (block4 _ _ Ho) as (a & b & c' & d & old' & -> & Ho'). rewrite length_app in Hlim. cbn [length] in Hlim, He.
    unfold utf16. cbn [map concat]. rewrite put32_one by done. cbn zeta.
    rewrite (sar_quad (p / 4) p) by (Z.to_euclidean_division_equations; lia). cbn [app].
    rewrite store32_at by (Z.to_euclidean_division_equations; lia).
    specialize (IH (pre ++ bytes32 c) old' (p + 4)). unfold utf16 in IH.
    rewrite (assoc_L (++)). rewrite words_cons. destruct (concat (map utf16_encode cps)) as [|u us] eqn:Eu.
    + assert (cps = []) as ->.
      { destruct cps as [|x cps]; [done|]. cbn in Eu. unfold utf16_encode in Eu. case_match; discriminate. }
      destruct old'; [|discriminate]. cbn [words length app map concat]. rewrite app_nil_r, <- (assoc_L (++)). done.
    + assert (0 < length cps)%nat by (destruct cps; [discriminate|cbn; lia]).
      rewrite (proj2 (Z.ltb_ge _ _)) by lia. rewrite IH.
      * rewrite <- !(assoc_L (++)). f_equal. cbn [length]. lia.
      * done.
      * rewrite length_app. cbn. lia.
      * Z.to_euclidean_division_equations; lia.
      * rewrite !length_app. cbn. lia.
      * lia.
Qed.

Lemma read32_spec cps pre post ptr i fuel :
  Forall (fun c => scalar c /\ c <> 0) cps -> Z.rem ptr 4 = 0 -> 0 <= i -> 0 <= ptr -> ptr + 4 * i = Z.of_nat (length pre) ->
  (length cps < fuel)%nat -> Z.of_nat (length pre) + 4 * Z.of_nat (length cps) < 2 ^ 31 ->
  read32 fuel (pre ++ words cps ++ bytes32 0 ++ post) ptr i None = Some (utf16 cps).
Proof.
  intros Hs Hev Hi0 Hp0. revert pre i Hi0 fuel.
  induction Hs as [|c cps [Hc Hnz] Hs IH]; intros pre i Hi0 fuel Hi Hf Hlim; (destruct fuel as [|fuel]; [cbn in Hf; lia|]); cbn [read32 below negb];
    cbn [length] in Hlim; rewrite (sar_quad (ptr / 4 + i)) by (Z.to_euclidean_division_equations; lia).
  - change (words [] ++ ?x) with x. rewrite load32_at by (Z.to_euclidean_division_equations; lia). done.
  - rewrite words_cons, <- (assoc_L (++)), load32_at by (Z.to_euclidean_division_equations; lia).
    rewrite Z.mod_small, to_int32_small by (unfold scalar in Hc; lia).
    rewrite (assoc_L (++) pre), IH; [| lia | rewrite length_app; cbn; lia | cbn in Hf; lia | rewrite length_app; cbn [length bytes32 bytes16 app]; lia].
    unfold utf16. cbn [option_map map concat]. destruct c as [|c|c]; [done| |unfold scalar in Hc; lia].
    destruct (Z.leb_spec 0x10000 (Z.pos c)).
    + rewrite surrogate_pair_utf16 by (unfold scalar in Hc; lia). done.
    + unfold utf16_encode. rewrite (proj2 (Z.ltb_lt _ _)), fromCharCode_small by (unfold scalar in Hc; lia). done.
Qed.

(** UTF-32 written with the room [lengthBytesUTF32] and its terminator ask for is read back. *)
Theorem utf32_memory_roundtrip (cps : list Z) (m : mem) (outPtr maxBytesToWrite : Z) :
  Forall (fun c => scalar c /\ c <> 0) cps -> 0 <= outPtr -> Z.rem outPtr 4 = 0 ->
  lengthBytesUTF32 (utf16 cps) + 4 <= maxBytesToWrite ->
  outPtr + lengthBytesUTF32 (utf16 cps) + 4 <= Z.of_nat (length m) < 2 ^ 31 ->
  exists m', stringToUTF32 (utf16 cps) m outPtr maxBytesToWrite = Ok (m', lengthBytesUTF32 (utf16 cps))
    /\ UTF32ToString m' outPtr None = Ok (Some (utf16 cps)).
Proof.
  intros Hc Ho Hev Hmax Hroom. assert (Hs : Forall scalar cps) by (eapply Forall_impl; [exact Hc|by intros ? []]).
  rewrite length_utf32 in * by done. set (n := Z.of_nat (length cps)) in *.
  destruct (split_block m outPtr (4 * n + 4)) as (pre & old' & post & -> & Hpre & Hold); [lia..|].
  destruct (split_block old' (4 * n) 4) as (old & z & e & -> & Hold1 & Hz); [lia..|].
  rewrite !length_app in Hold. destruct e as [|? ?]; [|cbn in Hold; lia]. rewrite app_nil_r in *.
  destruct z as [|z1 [|z2 [|z3 [|z4 [|? ?]]]]]; try (cbn in Hz; lia). rewrite !length_app in Hroom. cbn [length] in Hroom.
  exists (pre ++ words cps ++ bytes32 0 ++ post). unfold stringToUTF32, UTF32ToString.
  replace (outPtr mod 4) with 0 by (Z.to_euclidean_division_equations; lia). rewrite Hev. cbn [negb Z.eqb].
  rewrite (proj2 (Z.ltb_ge maxBytesToWrite 4)) by lia. rewrite <- (assoc_L (++) old).
  rewrite put32_spec by (try done; rewrite ?length_app; lia). fold n.
  rewrite (sar_quad ((outPtr + 4 * n) / 4)) by (Z.to_euclidean_division_equations; lia). split.
  - rewrite (assoc_L (++) pre). cbn [app]. rewrite store32_at by (rewrite length_app, words_length; Z.to_euclidean_division_equations; lia).
    rewrite <- (assoc_L (++)). do 2 f_equal. lia.
  - f_equal. apply read32_spec; try done; try lia. cbn [wide_fuel]. rewrite !length_app, words_length. lia.
Qed.

Theorem utf32_memory_witness :
  exists m', stringToUTF32 (utf16 euro_sign) (repeat 7 32) 4 20 = Ok (m', lengthBytesUTF32 (utf16 euro_sign))
    /\ UTF32ToString m' 4 None = Ok (Some (utf16 euro_sign)).
Proof.
  apply (utf32_memory_roundtrip euro_sign (repeat 7 32) 4 20).
  - repeat constructor; unfold scalar; lia.
  - lia.
  - reflexivity.
  - vm_compute. discriminate.
  - split; [vm_compute; discriminate|vm_compute; reflexivity].
Defined.

(** Without a limit and without a terminator in the memory, the short path of [UTF16ToString] and [UTF32ToString] do not
    return: no number of turns of their loops is enough. *)
Theorem unterminated_diverges (m : mem) (ptr i : Z) (fuel : nat) :
  ((forall k, load16 m k <> Some 0) -> read16 fuel m ptr i None = None)
  /\ ((forall k, load32 m k <> Some 0) -> read32 fuel m ptr i None = None).
Proof.
  split; intros Hm; revert i; induction fuel as [|fuel IH]; intros i; [done| |done|]; cbn [read16 read32 below negb].
  - specialize (Hm (js_sar (ptr + i * 2) 1)). destruct (load16 m _) as [[|u|u]|]; [done| | |]; by rewrite IH.
  - specialize (Hm (js_sar (ptr + i * 4) 2)). destruct (load32 m _) as [[|u|u]|]; [done| | |]; by rewrite IH.
Qed.
