(* ===== verification/OpusValue.v ===== *)
(** * Values in the memory of the Opus module and calls into it
      ([integrations/lan-remote-access/rustdesk-web-open/libopus.js])

    [setValue] and [getValue], the helpers that copy strings and arrays into the
    memory, and the calling interface [ccall]. *)

From stdpp Require Import base list numbers strings.
From Stdlib Require Import ZArith Lia.
From S2P Require Import Prelude JsString Utf8 OpusText OpusWide.
Local Open Scope Z_scope.

(** ** Typed values *)

(** The bytes of an IEEE number and back; only whole numbers are stored here. *)
Class Floats := {
  f32_bytes : Z -> list Z; f32_value : list Z -> Z;
  f64_bytes : Z -> list Z; f64_value : list Z -> Z
}.

Definition type_is (type : jsstr) (name : string) : bool := str_eqb type (js name).

(** A pointer type is ['i32']. *)
Definition pointer_type (type : jsstr) : bool := match last type with Some c => c =? 42 | None => false end.
Definition native (type : jsstr) : jsstr := if pointer_type type then js "i32" else type.

(** The two halves of a 64-bit number, as the code computes them from a double. *)
Definition low_half (value : Z) : Z := to_uint32 value.
Definition high_half (value : Z) : Z :=
  if 1 <=? Z.abs value then
    if 0 <? value then to_uint32 (to_int32 (Z.min (value / 2 ^ 32) 4294967295))
    else to_uint32 (to_int32 (- ((- (value - to_uint32 (to_int32 value))) / 2 ^ 32)))
  else 0.

(** Elements of [HEAP8] and [HEAP16] are signed. *)
Definition sign8 (b : Z) : Z := if b <? 128 then b else b - 256.
Definition sign16 (b : Z) : Z := if b <? 32768 then b else b - 65536.

Fixpoint store_block (m : mem) (i : Z) (bs : list Z) : mem :=
  match bs with [] => m | b :: bs' => store_block (store8 m i b) (i + 1) bs' end.

Fixpoint load_block (m : mem) (i : Z) (n : nat) : option (list Z) :=
  match n with
  | O => Some []
  | S n' => match load8 m i, load_block m (i + 1) n' with Some b, Some bs => Some (b :: bs) | _, _ => None end
  end.

Definition setValue `{Floats} (m : mem) (ptr value : Z) (type : jsstr) : result mem :=
  let type := native type in
  if type_is type "i1" || type_is type "i8" then Ok (store8 m (js_sar ptr 0) value)
  else if type_is type "i16" then Ok (store16 m (js_sar ptr 1) value)
  else if type_is type "i32" then Ok (store32 m (js_sar ptr 2) value)
  else if type_is type "i64" then
    Ok (store32 (store32 m (js_sar ptr 2) (low_half value)) (js_sar (ptr + 4) 2) (high_half value))
  else if type_is type "float" then Ok (store_block m (4 * js_sar ptr 2) (f32_bytes value))
  else if type_is type "double" then Ok (store_block m (8 * js_sar ptr 3) (f64_bytes value))
  else Throw aborted.

(** [None] is [undefined], an element outside the memory. *)
Definition getValue `{Floats} (m : mem) (ptr : Z) (type : jsstr) : result (option Z) :=
  let type := native type in
  if type_is type "i1" || type_is type "i8" then Ok (option_map sign8 (load8 m (js_sar ptr 0)))
  else if type_is type "i16" then Ok (option_map sign16 (load16 m (js_sar ptr 1)))
  else if type_is type "i32" then Ok (load32 m (js_sar ptr 2))
  else if type_is type "i64" then Ok (load32 m (js_sar ptr 2))
  else if type_is type "float" then Ok (option_map f32_value (load_block m (4 * js_sar ptr 2) 4))
  else if type_is type "double" then Ok (option_map f64_value (load_block m (8 * js_sar ptr 3) 8))
  else Throw aborted.

(** [Number] converts the digits of a type name; [None] is [NaN]. *)
Definition getNativeTypeSize (Number : jsstr -> option Z) (type : jsstr) : result Z :=
  if type_is type "i1" || type_is type "i8" then Ok 1
  else if type_is type "i16" then Ok 2
  else if type_is type "i32" then Ok 4
  else if type_is type "i64" then Ok 8
  else if type_is type "float" then Ok 4
  else if type_is type "double" then Ok 8
  else if pointer_type type then Ok 4
  else match type with
       | 105 :: digits =>
           match Number digits with
           | Some bits => if Z.rem bits 8 =? 0 then Ok (bits / 8) else Throw aborted
           | None => Throw aborted
           end
       | _ => Ok 0
       end.

Definition alignUp (x multiple : Z) : Z :=
  if 0 <? Z.rem x multiple then x + (multiple - Z.rem x multiple) else x.

(** ** Strings and arrays *)

(** [HEAP8.set(array, buffer)]. *)
Definition writeArrayToMemory (array : list Z) (m : mem) (buffer : Z) : result mem :=
  if (buffer <? 0) || (Z.of_nat (length m) <? buffer + Z.of_nat (length array)) then Throw (PlatformError "RangeError")
  else Ok (store_block m buffer array).

(** Without [length], which no caller gives; an array of exactly the bytes and the terminator. *)
Definition intArrayFromString (stringy : jsstr) (dontAddNull : bool) : list Z :=
  let len := lengthBytesUTF8 stringy + 1 in
  let '(u8array, numBytesWritten) := stringToUTF8Array stringy (replicate (Z.to_nat len) 0) 0 len in
  if dontAddNull then take (Z.to_nat numBytesWritten) u8array else u8array.

(** [ASSERTIONS] is set, so a code above 255 aborts. *)
Fixpoint intArrayToString (array : list Z) : result jsstr :=
  match array with
  | [] => Ok []
  | chr :: array' =>
      if 0xFF <? chr then Throw aborted
      else let? rest := intArrayToString array' in Ok (fromCharCode chr :: rest)
  end.

Definition stringToUTF8 (str : jsstr) (m : mem) (outPtr maxBytesToWrite : Z) : mem :=
  fst (stringToUTF8Array str m outPtr maxBytesToWrite).

(** [end] is the position of the terminator, whose old byte is put back.  The limit of the code is [Infinity]; a
    code unit takes at most four bytes. *)
Definition writeStringToMemory (string : jsstr) (m : mem) (buffer : Z) (dontAddNull : bool) : mem :=
  let e := buffer + lengthBytesUTF8 string in
  let lastChar := num8 m e in
  let m' := stringToUTF8 string m buffer (4 * str_len string + 1) in
  if dontAddNull then store8 m' e lastChar else m'.

(** ** The stack and the calling interface *)

Record cstate := { memory : mem; stack : Z }.

Definition with_memory (s : cstate) (m : mem) : cstate := {| memory := m; stack := stack s |}.

(** The exports of the module: the stack and the allocator. *)
Class Exports := {
  stackSave : cstate -> Z;
  stackRestore : Z -> cstate -> cstate;
  stackAlloc : Z -> cstate -> Z * cstate;
  _malloc : Z -> cstate -> Z * cstate
}.

(** What the stack functions do: a block below the stack pointer, aligned; the memory is not touched. *)
Class StackLaws `{Exports} := {
  save_stack : forall s, stackSave s = stack s;
  restore_stack : forall p s, stackRestore p s = {| memory := memory s; stack := p |};
  alloc_memory : forall n s, memory (snd (stackAlloc n s)) = memory s;
  alloc_block : forall n s, 0 <= n -> 0 <= fst (stackAlloc n s) - 1 -> fst (stackAlloc n s) + n <= stack s;
  alloc_stack : forall n s, stack (snd (stackAlloc n s)) = fst (stackAlloc n s)
}.

Section Calls.
Context `{Exports}.

Definition allocateUTF8 (str : jsstr) (s : cstate) : Z * cstate :=
  let size := lengthBytesUTF8 str + 1 in
  let '(ret, s) := _malloc size s in
  (ret, if ret =? 0 then s else with_memory s (fst (stringToUTF8Array str (memory s) ret size))).

Definition allocateUTF8OnStack (str : jsstr) (s : cstate) : Z * cstate :=
  let size := lengthBytesUTF8 str + 1 in
  let '(ret, s) := stackAlloc size s in
  (ret, with_memory s (fst (stringToUTF8Array str (memory s) ret size))).

(** [ALLOC_STACK] is 1. *)
Definition allocate (slab : list Z) (allocator : Z) (s : cstate) : result Z * cstate :=
  let '(ret, s) := if allocator =? 1 then stackAlloc (Z.of_nat (length slab)) s else _malloc (Z.of_nat (length slab)) s in
  match writeArrayToMemory slab (memory s) ret with
  | Ok m => (Ok ret, with_memory s m)
  | Throw e => (Throw e, s)
  end.

(** An argument with its declared type; a string may be [null], [undefined] or [0]. *)
Inductive carg := ArgString (str : option jsstr) | ArgArray (arr : list Z) | ArgPlain (v : Z).

Definition toC_string (str : option jsstr) (s : cstate) : Z * cstate :=
  match str with
  | None => (0, s)
  | Some str =>
      let len := js_shl (str_len str) 2 + 1 in
      let '(ret, s) := stackAlloc len s in
      (ret, with_memory s (stringToUTF8 str (memory s) ret len))
  end.

Definition toC_array (arr : list Z) (s : cstate) : result Z * cstate :=
  let '(ret, s) := stackAlloc (Z.of_nat (length arr)) s in
  match writeArrayToMemory arr (memory s) ret with
  | Ok m => (Ok ret, with_memory s m)
  | Throw e => (Throw e, s)
  end.

(** One argument: its C value and whether a converter ran. *)
Definition convert_arg (a : carg) (s : cstate) : result Z * cstate :=
  match a with
  | ArgPlain v => (Ok v, s)
  | ArgString str => let '(p, s) := toC_string str s in (Ok p, s)
  | ArgArray arr => toC_array arr s
  end.

Definition has_converter (a : carg) : bool := match a with ArgPlain _ => false | _ => true end.

(** The loop over the arguments; [saved] is the variable [stack], set before the first conversion. *)
Fixpoint convert_args (args : list carg) (saved : Z) (s : cstate) : result (list Z * Z) * cstate :=
  match args with
  | [] => (Ok ([], saved), s)
  | a :: args' =>
      let saved := if has_converter a && (saved =? 0) then stackSave s else saved in
      match convert_arg a s with
      | (Throw e, s) => (Throw e, s)
      | (Ok p, s) =>
          match convert_args args' saved s with
          | (Throw e, s) => (Throw e, s)
          | (Ok (cArgs, saved), s) => (Ok (p :: cArgs, saved), s)
          end
      end
  end.

Inductive cresult := RString (str : jsstr) | RBoolean (b : bool) | RPlain (v : Z).
Inductive rtype := TString | TBoolean | TArray | TOther.

(** [func] is the exported C function; it may change the memory and the stack, and may throw. *)
Definition ccall (UTF8Decoder : bool) (func : option (list Z -> cstate -> result Z * cstate)) (returnType : rtype) (args : list carg) (s : cstate)
  : result cresult * cstate :=
  match func with
  | None => (Throw aborted, s)
  | Some func =>
      match returnType with
      | TArray => (Throw aborted, s)
      | _ =>
          match convert_args args 0 s with
          | (Throw e, s1) => (Throw e, s1)
          | (Ok (cArgs, saved), s1) =>
              match func cArgs s1 with
              | (Throw e, s2) => (Throw e, s2)
              | (Ok ret, s2) =>
                  let s3 := if saved =? 0 then s2 else stackRestore saved s2 in
                  (Ok match returnType with
                      | TString => RString (UTF8ToString UTF8Decoder (memory s3) ret None)
                      | TBoolean => RBoolean (negb (ret =? 0))
                      | _ => RPlain ret
                      end, s3)
              end
          end
      end
  end.

(** [cwrap] binds the function and its types. *)
Definition cwrap (UTF8Decoder : bool) (func : option (list Z -> cstate -> result Z * cstate)) (returnType : rtype)
  : list carg -> cstate -> result cresult * cstate := fun args s => ccall UTF8Decoder func returnType args s.

End Calls.

(** ** Typed values: what is stored is read back *)

(** The value of a type's width, signed. *)
Definition wrap (type : jsstr) (value : Z) : Z :=
  let type := native type in
  if type_is type "i1" || type_is type "i8" then sign8 (value mod 256)
  else if type_is type "i16" then sign16 (value mod 65536)
  else to_int32 value.

Definition width (type : jsstr) : Z :=
  let type := native type in
  if type_is type "i1" || type_is type "i8" then 1 else if type_is type "i16" then 2 else if type_is type "i32" then 4 else 8.

Definition integer_type (type : jsstr) : bool :=
  let type := native type in
  type_is type "i1" || type_is type "i8" || type_is type "i16" || type_is type "i32" || type_is type "i64".

Lemma halves_exact value : Z.abs value <= 2 ^ 53 -> low_half value + 2 ^ 32 * high_half value = value mod 2 ^ 64.
Proof.
  intros Hv. unfold low_half, high_half.
  assert (Hu : forall x, to_uint32 (to_int32 x) = x mod 2 ^ 32) by (intros x; apply to_int32_mod).
  rewrite !Hu. unfold to_uint32.
  assert (Hd : value mod 2 ^ 32 + 2 ^ 32 * ((value / 2 ^ 32) mod 2 ^ 32) = value mod 2 ^ 64).
  { change (2 ^ 64) with (2 ^ 32 * 2 ^ 32). rewrite Z.rem_mul_r by lia. done. }
  destruct (Z.leb_spec 1 (Z.abs value)); [destruct (Z.ltb_spec 0 value)|].
  - rewrite Z.min_l; [done|]. apply Z.lt_succ_r. apply Z.div_lt_upper_bound; lia.
  - replace (- (- (value - value mod 2 ^ 32) / 2 ^ 32)) with (value / 2 ^ 32); [done|].
    rewrite (Z.div_mod value (2 ^ 32)) at 2 by lia.
    replace (- (2 ^ 32 * (value / 2 ^ 32) + value mod 2 ^ 32 - value mod 2 ^ 32)) with (- (value / 2 ^ 32) * 2 ^ 32) by lia.
    rewrite Z.div_mul by lia. lia.
  - assert (value = 0) as -> by lia. reflexivity.
Qed.

Lemma load8_store_same m i v : 0 <= i < Z.of_nat (length m) -> load8 (store8 m i v) i = Some (v mod 256).
Proof. intros Hi. unfold load8, store8. rewrite (proj2 (Z.ltb_ge i 0)) by lia. by rewrite list_lookup_insert_eq by lia. Qed.

Lemma load16_store_same m i v : 0 <= 2 * i -> 2 * i + 1 < Z.of_nat (length m) -> load16 (store16 m i v) i = Some (v mod 65536).
Proof.
  intros Hi Hm. unfold load16, store16. rewrite (store8_other _ (2 * i + 1)) by lia.
  rewrite !load8_store_same by (rewrite ?store8_length; lia). f_equal. Z.to_euclidean_division_equations; lia.
Qed.

Lemma store16_length m i v : length (store16 m i v) = length m.
Proof. unfold store16. by rewrite !store8_length. Qed.

Lemma store16_other m i v j : i <> j -> load16 (store16 m i v) j = load16 m j.
Proof. intros Hij. unfold load16, store16. by rewrite !store8_other by lia. Qed.

Lemma store32_length m i v : length (store32 m i v) = length m.
Proof. unfold store32. by rewrite !store16_length. Qed.

Lemma load32_store_same m i v : 0 <= 4 * i -> 4 * i + 3 < Z.of_nat (length m) -> load32 (store32 m i v) i = Some (to_int32 v).
Proof.
  intros Hi Hm. unfold load32, store32. rewrite (store16_other _ (2 * i + 1)) by lia.
  rewrite !load16_store_same by (rewrite ?store16_length; lia). f_equal.
  replace (v mod 65536 + 65536 * ((v / 65536) mod 65536)) with (v mod 2 ^ 32) by (Z.to_euclidean_division_equations; lia).
  unfold to_int32. by rewrite Z.mod_mod by lia.
Qed.

Lemma load32_store_other m i v j : i <> j -> load32 (store32 m i v) j = load32 m j.
Proof. intros Hij. unfold load32, store32. by rewrite !store16_other by lia. Qed.

(** Words and bytes that do not overlap. *)
Lemma load32_store8_other m i v j : i < 4 * j \/ 4 * j + 4 <= i -> load32 (store8 m i v) j = load32 m j.
Proof. intros Hij. unfold load32, load16. by rewrite !store8_other by lia. Qed.

Lemma load8_store32_other m i v j : j < 4 * i \/ 4 * i + 4 <= j -> load8 (store32 m i v) j = load8 m j.
Proof. intros Hij. unfold store32, store16. by rewrite !store8_other by lia. Qed.

Lemma sar_aligned ptr k : 0 <= k <= 3 -> 0 <= ptr < 2 ^ 31 -> Z.rem ptr (2 ^ k) = 0 -> 2 ^ k * js_sar ptr k = ptr.
Proof.
  intros Hk Hp Ha. rewrite js_sar_small by lia. assert (0 < 2 ^ k) by (apply Z.pow_pos_nonneg; lia).
  set (q := 2 ^ k) in *. Z.to_euclidean_division_equations; nia.
Qed.

(** What [setValue] stores [getValue] reads back, as a signed number of the width of the type; of an [i64]
    it reads only the low half.  The two halves of an [i64] are the number modulo 2^64 up to the largest exact double. *)
Theorem setValue_getValue `{Floats} (m : mem) (ptr value : Z) (type : jsstr) :
  integer_type type = true -> 0 <= ptr -> Z.rem ptr (Z.min (width type) 4) = 0 ->
  ptr + width type <= Z.of_nat (length m) < 2 ^ 31 ->
  exists m', setValue m ptr value type = Ok m' /\ getValue m' ptr type = Ok (Some (wrap type value))
    /\ length m' = length m
    /\ (width type = 8 -> Z.abs value <= 2 ^ 53 ->
        exists lo hi, load32 m' (ptr / 4) = Some lo /\ load32 m' (ptr / 4 + 1) = Some hi
          /\ to_uint32 lo + 2 ^ 32 * to_uint32 hi = value mod 2 ^ 64).
Proof.
  unfold integer_type, width, wrap, setValue, getValue.
  destruct (type_is (native type) "i1" || type_is (native type) "i8").
  { intros Hty Hp Hal Hm. pose proof (sar_aligned ptr 0 ltac:(lia) ltac:(lia) ltac:(by rewrite Z.rem_1_r)) as Hs. change (2 ^ 0) with 1 in Hs.
    eexists. split; [done|]. rewrite load8_store_same, store8_length by lia. done. }
  destruct (type_is (native type) "i16").
  { intros Hty Hp Hal Hm. pose proof (sar_aligned ptr 1 ltac:(lia) ltac:(lia) Hal) as Hs. change (2 ^ 1) with 2 in Hs.
    eexists. split; [done|]. rewrite load16_store_same, store16_length by lia. done. }
  destruct (type_is (native type) "i32").
  { intros Hty Hp Hal Hm. pose proof (sar_aligned ptr 2 ltac:(lia) ltac:(lia) Hal) as Hs. change (2 ^ 2) with 4 in Hs. eexists. split; [done|]. rewrite load32_store_same, store32_length by lia. done. }
  cbn [orb]. intros Hty Hp Hal Hm. rewrite Hty. pose proof (sar_aligned ptr 2 ltac:(lia) ltac:(lia) Hal) as Hs. change (2 ^ 2) with 4 in Hs.
  assert (Hs4 : js_sar (ptr + 4) 2 = js_sar ptr 2 + 1) by (rewrite !js_sar_small by lia; change (2 ^ 2) with 4; Z.to_euclidean_division_equations; lia).
  eexists. split; [done|]. rewrite Hs4, load32_store_other, load32_store_same, !store32_length by (rewrite ?store32_length; lia).
  assert (Hlow : to_int32 (low_half value) = to_int32 value) by (unfold low_half, to_uint32, to_int32; by rewrite Z.mod_mod by lia).
  rewrite Hlow. split; [done|]. split; [done|]. intros _ Hv. replace (ptr / 4) with (js_sar ptr 2) by (Z.to_euclidean_division_equations; lia).
  rewrite load32_store_other, !load32_store_same by (rewrite ?store32_length; lia). eexists _, _. split; [done|]. split; [done|].
  rewrite <- halves_exact by done. unfold to_uint32. rewrite !to_int32_mod. f_equal; [by rewrite Z.mod_small by apply to_uint32_range|].
  f_equal. apply Z.mod_small. unfold high_half. repeat case_match; try apply to_uint32_range; lia.
Qed.

(** Whole numbers as integers of the width, for the types the witnesses do not use. *)
Definition no_floats : Floats := {| f32_bytes := fun _ => []; f32_value := fun _ => 0; f64_bytes := fun _ => []; f64_value := fun _ => 0 |}.

Theorem setValue_witness :
  exists m', @setValue no_floats (repeat 7 32) 8 (-5) (js "i64") = Ok m' /\ @getValue no_floats m' 8 (js "i64") = Ok (Some (-5))
    /\ load32 m' 3 = Some (-1).
Proof.
  destruct (@setValue_getValue no_floats (repeat 7 32) 8 (-5) (js "i64")) as (m' & H1 & H2 & _ & H3);
    [reflexivity|lia|reflexivity|split; [vm_compute; discriminate|vm_compute; reflexivity]|].
  exists m'. split; [done|]. split; [exact H2|]. injection H1 as <-. vm_compute. reflexivity.
Defined.

(** ** Strings as arrays *)

Lemma intArrayFromString_spec cps : Forall scalar cps ->
  intArrayFromString (utf16 cps) false = utf8 cps ++ [0] /\ intArrayFromString (utf16 cps) true = utf8 cps.
Proof.
  intros Hs. unfold intArrayFromString. rewrite lengthBytesUTF8_utf16 by done. set (bs := utf8 cps).
  replace (replicate (Z.to_nat (Z.of_nat (length bs) + 1)) 0) with ([] ++ replicate (length bs) 0 ++ [0]).
  2: { cbn [app]. rewrite <- replicate_S_end. f_equal. lia. }
  unfold stringToUTF8Array. rewrite (proj2 (Z.ltb_lt _ _)) by lia. cbn [negb].
  pose proof (encode_loop_utf16 cps [] (replicate (length bs) 0) [0] (0 + (Z.of_nat (length bs) + 1) - 1) Hs) as He.
  rewrite length_replicate in He. fold bs in He. cbn [length] in He. change (Z.of_nat 0) with 0 in He. rewrite He by lia. cbn [app]. rewrite Z.add_0_l.
  rewrite store8_mid. change (0 mod 256) with 0. rewrite Z.sub_0_r, Nat2Z.id. by rewrite take_app_length.
Qed.

(** ** Calls *)

Section CallLaws.
Context `{StackLaws}.

Lemma convert_arg_stack a s : has_converter a = false -> snd (convert_arg a s) = s.
Proof. by destruct a. Qed.

(** [saved] is set exactly when a converter ran, to the stack pointer before the first one. *)
Lemma convert_args_saved args saved s cArgs saved' s' :
  convert_args args saved s = (Ok (cArgs, saved'), s') ->
  (saved <> 0 -> saved' = saved)
  /\ (saved = 0 -> stack s <> 0 -> (saved' = 0 /\ stack s' = stack s) \/ saved' = stack s).
Proof.
  revert saved s cArgs saved' s'. induction args as [|a args IH]; intros saved s cArgs saved' s' H1; cbn in H1.
  - inv H1. auto.
  - destruct (convert_arg a s) as [[p|e] s1] eqn:Ea; [|discriminate].
    destruct (convert_args args _ s1) as [[[cA sv]|e] s2] eqn:Eb; [|discriminate]. inv H1. apply IH in Eb as [Hn Hz].
    destruct (has_converter a) eqn:Ec; cbn [andb] in *.
    + split.
      * intros Hsv. rewrite (proj2 (Z.eqb_neq _ _)) in Hn by done. by apply Hn.
      * intros -> Hst. cbn in Hn. right. rewrite Hn; rewrite save_stack; done.
    + split; [done|]. intros -> Hst. pose proof (convert_arg_stack a s Ec) as Hs1. rewrite Ea in Hs1. cbn in Hs1. subst s1. auto.
Qed.

(** A call that returns leaves the stack pointer where it was, whatever was converted; a C function that throws leaves the
    converted arguments on the stack. *)
Theorem ccall_stack (decoder : bool) (func : list Z -> cstate -> result Z * cstate) (rt : rtype) (args : list carg) (s : cstate) :
  stack s <> 0 -> (forall cArgs s1, stack (snd (func cArgs s1)) = stack s1) ->
  match ccall decoder (Some func) rt args s with
  | (Ok _, s') => stack s' = stack s
  | (Throw _, s') => rt <> TArray -> stack s' = stack (snd (convert_args args 0 s))
  end.
Proof.
  intros Hst Hf. unfold ccall. destruct rt; try done;
    (destruct (convert_args args 0 s) as [[[cArgs saved]|e] s1] eqn:Ec; [|done];
     pose proof (Hf cArgs s1) as Hf1; destruct (func cArgs s1) as [[ret|e] s2] eqn:Ef; cbn [snd] in Hf1; [|done];
     apply convert_args_saved in Ec as [_ Hz]; destruct (Hz eq_refl Hst) as [[-> Hs1]| ->];
     [cbn; congruence | rewrite (proj2 (Z.eqb_neq _ _)) by done; rewrite restore_stack; done]).
Qed.

(** The C function gets a string argument as a NUL-terminated copy of the text on the stack. *)
Lemma toC_string_copy decoder cps s :
  Forall (fun c => scalar c /\ c <> 0) cps -> head cps <> Some 0xFEFF -> str_len (utf16 cps) < 2 ^ 28 ->
  0 < fst (stackAlloc (4 * str_len (utf16 cps) + 1) s) -> stack s <= Z.of_nat (length (memory s)) ->
  let '(p, s') := toC_string (Some (utf16 cps)) s in
  UTF8ToString decoder (memory s') p None = utf16 cps /\ length (memory s') = length (memory s).
Proof.
  intros Hc Hbom Hlen Hp Hmem. unfold toC_string.
  rewrite js_shl_small by (unfold str_len in *; change (2 ^ 2) with 4; lia). change (2 ^ 2) with 4.
  replace (str_len (utf16 cps) * 4 + 1) with (4 * str_len (utf16 cps) + 1) by lia.
  pose proof (alloc_block (4 * str_len (utf16 cps) + 1) s ltac:(unfold str_len; lia)) as Hb.
  pose proof (alloc_memory (4 * str_len (utf16 cps) + 1) s) as Hm.
  destruct (stackAlloc _ s) as [p s1]. cbn [fst snd] in *. specialize (Hb ltac:(lia)).
  assert (Hs : Forall scalar cps) by (eapply Forall_impl; [exact Hc|by intros ? []]).
  assert (Hl : lengthBytesUTF8 (utf16 cps) <= 4 * str_len (utf16 cps)).
  { clear - Hs. rewrite lengthBytesUTF8_utf16 by done. unfold utf8, utf16, str_len.
    induction Hs as [|c cps Hc Hs IH]; [done|]. cbn [map concat]. rewrite !length_app.
    assert (length (utf8_encode c) <= 4 * length (utf16_encode c))%nat; [|lia].
    unfold utf8_encode, utf16_encode. repeat case_match; cbn; lia. }
  destruct (utf8_memory_roundtrip cps (memory s1) p (4 * str_len (utf16 cps) + 1) decoder true) as (heap' & Hw & Hr); try done; try lia.
  { rewrite Hm. lia. }
  cbn. unfold stringToUTF8. pose proof (utf8_write_bounds (utf16 cps) (memory s1) p (4 * str_len (utf16 cps) + 1)) as Hbd.
  rewrite Hw in *. cbn [fst]. unfold UTF8ToString. rewrite (proj2 (Z.eqb_neq p 0)) by lia. split; [done|]. destruct Hbd as [-> _]. by rewrite Hm.
Qed.

End CallLaws.

(** A stack that grows down in units of 16 bytes. *)
Definition down_stack : Exports := {|
  stackSave := stack;
  stackRestore := fun p s => {| memory := memory s; stack := p |};
  stackAlloc := fun n s => let p := (stack s - n) / 16 * 16 in (p, {| memory := memory s; stack := p |});
  _malloc := fun _ s => (0, s)
|}.

Definition down_stack_laws : @StackLaws down_stack.
Proof. split; try done. intros n s Hn. cbn. intros _. Z.to_euclidean_division_equations; lia. Qed.

Definition sample_state : cstate := {| memory := repeat 7 64; stack := 64 |}.

(** A C function that gives back its first argument. *)
Definition first_arg (cArgs : list Z) (s : cstate) : result Z * cstate := (Ok (hd 0 cArgs), s).

Theorem ccall_witness :
  stack (snd (@ccall down_stack true (Some first_arg) TString [ArgString (Some (js "opus")); ArgPlain 3] sample_state)) = 64
  /\ fst (@ccall down_stack true (Some first_arg) TString [ArgString (Some (js "opus")); ArgPlain 3] sample_state) = Ok (RString (js "opus")).
Proof.
  split; [|vm_compute; reflexivity].
  pose proof (@ccall_stack down_stack down_stack_laws true first_arg TString [ArgString (Some (js "opus")); ArgPlain 3] sample_state
    ltac:(discriminate) ltac:(reflexivity)) as H.
  vm_compute in H |- *. exact H.
Defined.

(** [alignUp] gives the least multiple that is not below [x]. *)
Lemma alignUp_spec x k : 0 <= x -> 0 < k -> alignUp x k mod k = 0 /\ x <= alignUp x k < x + k.
Proof.
  intros Hx Hk. unfold alignUp. rewrite Z.rem_mod_nonneg by lia. pose proof (Z.mod_pos_bound x k Hk).
  destruct (Z.ltb_spec 0 (x mod k)).
  - split; [|lia]. replace (x + (k - x mod k)) with ((x / k + 1) * k) by (pose proof (Z.div_mod x k); lia). apply Z.mod_mul. lia.
  - split; lia.
Qed.
