(* ===== verification/YuvCanvas.v ===== *)
(** * Drawing frames without WebGL
      ([integrations/lan-remote-access/rustdesk-web-open/yuv-canvas-1.2.6.js], [SoftwareFrameSink])

    The conversion of a planar YCbCr frame to the RGBA picture of a canvas.  Frames with
    chroma planes of half the width and half the height have a loop of their own, which
    converts four pixels for each chroma sample; it is proved to agree with the direct
    formula for every pixel, as is the general loop. *)

From stdpp Require Import base list numbers strings.
From Stdlib Require Import ZArith Lia.
From S2P Require Import Prelude JsString OpusText OpusValue.
Local Open Scope Z_scope.

(** ** Frames *)

Record yuv_plane := { bytes : list Z; stride : Z }.

Record format := {
  width : Z; height : Z; chromaWidth : Z; chromaHeight : Z;
  cropLeft : Z; cropTop : Z; cropWidth : Z; cropHeight : Z; displayWidth : Z; displayHeight : Z
}.

Record frame := { fformat : format; y : yuv_plane; u : yuv_plane; v : yuv_plane }.

(** A byte of a plane; outside it [undefined], which counts as [0] in what is computed from it. *)
Definition at_byte (p : yuv_plane) (i : Z) : Z := num8 (bytes p) i.

(** ** The ratio of the planes *)

(** [for (n = 0, a = c >> 1; a != 0;) a = a >> 1, n++]; a positive number below 2^31 is used up after 31 steps. *)
Fixpoint shift_count (fuel : nat) (a n : Z) : Z :=
  match fuel with
  | O => n
  | S fuel => if a =? 0 then n else shift_count fuel (js_sar a 1) (n + 1)
  end.

(** [depower(size / chroma)] for sizes that are not negative and fit in 31 bits.  The quotient is a power of two exactly
    when the sizes are in that ratio; without a chroma plane it is infinite or not a number.  The text thrown goes on
    with the ratio. *)
Definition depower (size chroma : Z) : result Z :=
  let ratio := if chroma =? 0 then 0 else size / chroma in
  let n := shift_count 32 (js_sar ratio 1) 0 in
  if negb (chroma =? 0) && (size =? chroma * js_shl 1 n) then Ok n
  else Throw (ErrorMsg (js "chroma plane dimensions must be power of 2 ratio to luma plane dimensions; got ")).

(** ** Conversion *)

(** A value stored in a [Uint8ClampedArray]. *)
Definition clamp8 (x : Z) : Z := Z.max 0 (Z.min x 255).
Definition put_byte (a : list Z) (i x : Z) : list Z := if i <? 0 then a else <[Z.to_nat i := clamp8 x]> a.

(** The parts of red, green and blue that the chroma samples give.  The planes hold bytes, so no [|0] changes a number. *)
Definition part_r (L : Z) : Z := 409 * L - 57088.
Definition part_g (C L : Z) : Z := 100 * C + 208 * L - 34816.
Definition part_b (C : Z) : Z := 516 * C - 70912.

(** One pixel; alpha is left. *)
Definition pixel (a : list Z) (d Y C L : Z) : list Z :=
  let E := 298 * Y in
  put_byte (put_byte (put_byte a d (Z.shiftr (E + part_r L) 8)) (d + 1) (Z.shiftr (E - part_g C L) 8)) (d + 2) (Z.shiftr (E + part_b C) 8).

(** A whole number as a double: 53 bits, to the nearest, ties to even. *)
Definition to_double (x : Z) : Z :=
  if Z.abs x <=? 2 ^ 53 then x
  else
    let k := Z.log2 (Z.abs x) - 52 in
    let q := Z.abs x / 2 ^ k in
    let d := 2 * (Z.abs x mod 2 ^ k) in
    Z.sgn x * ((if d <? 2 ^ k then q else if 2 ^ k <? d then q + 1 else q + q mod 2) * 2 ^ k).

(** [a * b | 0] *)
Definition mul32 (a b : Z) : Z := to_int32 (to_double (a * b)).

Section Convert.
Variable f : frame.
Let t := to_int32 (width (fformat f)).
Let e := to_int32 (height (fformat f)).
Let l := to_int32 (stride (y f)).
Let m := to_int32 (stride (u f)).
Let o := to_int32 (stride (v f)).
Let row := js_shl t 2.

(** The inner loop for 4:2:0: two pixels of the upper row and two of the lower for each chroma sample.  [X], [I], [S] and [w] index
    the planes, [d] and [v'] the output. *)
Fixpoint inner420 (n : nat) (a : list Z) (X I S w d v' : Z) : list Z * Z * Z :=
  match n with
  | O => (a, d, v')
  | Datatypes.S n =>
      let C := at_byte (u f) S in
      let L := at_byte (v f) w in
      let a := pixel a d (at_byte (y f) X) C L in
      let a := pixel a (d + 4) (at_byte (y f) (X + 1)) C L in
      let a := pixel a v' (at_byte (y f) I) C L in
      let a := pixel a (v' + 4) (at_byte (y f) (I + 1)) C L in
      inner420 n a (X + 2) (I + 2) (S + 1) (w + 1) (d + 8) (v' + 8)
  end.

(** [for (F = 0; F < t; F += 2)] and [for (r = 0; r < e; r += 2)] *)
Definition half (n : Z) : nat := Z.to_nat ((n + 1) / 2).

Fixpoint outer420 (n : nat) (a : list Z) (r T d v' : Z) : list Z :=
  match n with
  | O => a
  | S n =>
      let X := mul32 r l in
      let I := to_int32 (X + l) in
      let '(a, d, v') := inner420 (half t) a X I (mul32 T m) (mul32 T o) d v' in
      outer420 n a (r + 2) (T + 1) (d + row) (v' + row)
  end.

(** The general loops. *)
Fixpoint inner (n : nat) (R : Z) (a : list Z) (F h S w g : Z) : list Z * Z :=
  match n with
  | O => (a, g)
  | Datatypes.S n =>
      let i := js_sar F R in
      inner n R (pixel a g (at_byte (y f) h) (at_byte (u f) (S + i)) (at_byte (v f) (w + i))) (F + 1) (h + 1) S w (g + 4)
  end.

Fixpoint outer (n : nat) (R U : Z) (a : list Z) (r g : Z) : list Z :=
  match n with
  | O => a
  | S n =>
      let T := js_sar r U in
      let '(a, g) := inner (Z.to_nat t) R a 0 (mul32 r l) (mul32 T m) (mul32 T o) g in
      outer n R U a (r + 1) g
  end.

Definition convertYCbCr (output : list Z) : result (list Z) :=
  let? R := depower (width (fformat f)) (chromaWidth (fformat f)) in
  let? U := depower (height (fformat f)) (chromaHeight (fformat f)) in
  Ok (if (R =? 1) && (U =? 1) then outer420 (half e) output 0 0 0 row
      else outer (Z.to_nat e) R U output 0 0).
End Convert.

(** ** The sink *)

(** The picture a sink keeps, and the canvas it crops in. *)
Record sink := {
  canvas_size : Z * Z;
  image : option (Z * Z * list Z);       (* width, height and data of the [ImageData] *)
  cropper : option (Z * Z)               (* the size of the second canvas, made once *)
}.

Inductive drawing :=
| PutImage (on_cropper : bool) (data : list Z) (dx dy sx sy w h : Z)
| DrawCropped (w h : Z).

(** Black without transparency: every fourth byte is 255. *)
Definition new_image (w h : Z) : list Z := concat (repeat [0; 0; 0; 255] (Z.to_nat (w * h))).

(** The picture that is converted into: a new one when there is none of the size. *)
Definition picture (o : format) (s : sink) : list Z :=
  match image s with
  | Some (w, h, data) => if negb (w =? width o) || negb (h =? height o) then new_image (width o) (height o) else data
  | None => new_image (width o) (height o)
  end.

(** The planes are looked at only after the canvas has its size and the picture exists. *)
Definition drawFrame (m : frame) (s : sink) : result (list drawing) * sink :=
  let o := fformat m in
  let data := picture o s in
  match convertYCbCr m data with
  | Throw err => (Throw err, {| canvas_size := (displayWidth o, displayHeight o); image := Some (width o, height o, data); cropper := cropper s |})
  | Ok data =>
      let crop := negb (cropWidth o =? displayWidth o) || negb (cropHeight o =? displayHeight o) in
      (Ok (PutImage crop data (- cropLeft o) (- cropTop o) (cropLeft o) (cropTop o) (cropWidth o) (cropHeight o)
           :: if crop then [DrawCropped (displayWidth o) (displayHeight o)] else []),
       {| canvas_size := (displayWidth o, displayHeight o); image := Some (width o, height o, data);
          cropper := if crop then match cropper s with Some c => Some c | None => Some (cropWidth o, cropHeight o) end else cropper s |})
  end.

(** ** The formula *)

(** What the byte at an index of the picture should be, with chroma planes reduced by [R] and [U] bits. *)
Definition colour_byte (f : frame) (R U j : Z) : Z :=
  let t := width (fformat f) in
  let px := (j / 4) mod t in
  let py := (j / 4) / t in
  let E := 298 * at_byte (y f) (py * stride (y f) + px) in
  let C := at_byte (u f) (js_sar py U * stride (u f) + js_sar px R) in
  let L := at_byte (v f) (js_sar py U * stride (v f) + js_sar px R) in
  clamp8 (Z.shiftr (match j mod 4 with 0 => E + part_r L | 1 => E - part_g C L | _ => E + part_b C end) 8).

Definition is_colour (j : Z) : Prop := j mod 4 <> 3.

(** Sizes for which no offset into the planes or the picture leaves 31 bits. *)
Record addressable (f : frame) : Prop := {
  ad_width : 0 < 4 * width (fformat f) < 2 ^ 31;
  ad_height : 0 < height (fformat f) < 2 ^ 31;
  ad_y : 0 <= stride (y f) /\ height (fformat f) * stride (y f) < 2 ^ 31;
  ad_u : 0 <= stride (u f) /\ chromaHeight (fformat f) * stride (u f) < 2 ^ 31;
  ad_v : 0 <= stride (v f) /\ chromaHeight (fformat f) * stride (v f) < 2 ^ 31
}.

Lemma mul32_small a b h : 0 <= a < h -> 0 <= b -> h * b < 2 ^ 31 -> mul32 a (to_int32 b) = a * b.
Proof.
  intros Ha Hb Hh. assert (0 <= a * b <= h * b /\ b <= h * b) by nia. unfold mul32, to_double.
  rewrite (to_int32_small b), (proj2 (Z.leb_le _ _)) by lia. apply to_int32_small. lia.
Qed.

Section Offsets.
Variable f : frame.
Hypothesis Hf : addressable f.

Lemma row_y r : 0 <= r < height (fformat f) -> mul32 r (to_int32 (stride (y f))) = r * stride (y f).
Proof. destruct Hf as [_ _ [? ?] _ _]. intros Hr. by apply (mul32_small _ _ (height (fformat f))). Qed.
Lemma next_row_y r : 0 <= r -> r + 1 < height (fformat f) ->
  to_int32 (r * stride (y f) + to_int32 (stride (y f))) = r * stride (y f) + stride (y f).
Proof. destruct Hf as [_ He [? ?] _ _]. intros Hr Hn. rewrite (to_int32_small (stride _)) by nia. apply to_int32_small. nia. Qed.
Lemma row_u T : 0 <= T < chromaHeight (fformat f) -> mul32 T (to_int32 (stride (u f))) = T * stride (u f).
Proof. destruct Hf as [_ _ _ [? ?] _]. intros HT. by apply (mul32_small _ _ (chromaHeight (fformat f))). Qed.
Lemma row_v T : 0 <= T < chromaHeight (fformat f) -> mul32 T (to_int32 (stride (v f))) = T * stride (v f).
Proof. destruct Hf as [_ _ _ _ [? ?]]. intros HT. by apply (mul32_small _ _ (chromaHeight (fformat f))). Qed.

Lemma width_int : to_int32 (width (fformat f)) = width (fformat f).
Proof. destruct Hf. apply to_int32_small. lia. Qed.
Lemma height_int : to_int32 (height (fformat f)) = height (fformat f).
Proof. destruct Hf. apply to_int32_small. lia. Qed.
Lemma row_bytes : js_shl (to_int32 (width (fformat f))) 2 = 4 * width (fformat f).
Proof. destruct Hf. rewrite width_int, js_shl_small by lia. lia. Qed.

(** The rows of the chroma planes. *)
Variable U : Z.
Hypothesis HU : 0 <= U.
Hypothesis Hc : 0 < chromaHeight (fformat f).
Hypothesis Eh : height (fformat f) = chromaHeight (fformat f) * 2 ^ U.

Lemma shift_lt : U < 31.
Proof. destruct Hf as [_ [_ H] _ _ _]. apply (Z.pow_lt_mono_r_iff 2); [lia|lia|]. pose proof (Z.pow_pos_nonneg 2 U). nia. Qed.

Lemma chroma_row r : 0 <= r < height (fformat f) -> 0 <= js_sar r U < chromaHeight (fformat f).
Proof.
  intros Hr. pose proof shift_lt. destruct Hf as [_ He _ _ _]. rewrite js_sar_small by lia. pose proof (Z.pow_pos_nonneg 2 U).
  split; [apply Z.div_pos; lia|apply Z.div_lt_upper_bound; nia].
Qed.
End Offsets.

Section Painting.
Variable f : frame.
Variables R U : Z.
Let t := width (fformat f).
Let e := height (fformat f).
Hypothesis Ht : 0 < t.

(** Of the picture [a0], [a] has the bytes of [D] painted, and no byte changed that is not painted. *)
Record painted (a0 a : list Z) (D : Z -> Prop) : Prop := {
  pt_length : length a = length a0;
  pt_others : forall j, a !! j = a0 !! j \/ (is_colour (Z.of_nat j) /\ a !! j = Some (colour_byte f R U (Z.of_nat j)));
  pt_done : forall j, D j -> 0 <= j < Z.of_nat (length a0) -> a !! Z.to_nat j = Some (colour_byte f R U j)
}.

Lemma painted_weaken a0 a (D D' : Z -> Prop) : (forall j, D' j -> D j) -> painted a0 a D -> painted a0 a D'.
Proof. intros H [H1 H2 H3]. split; auto. Qed.

Lemma painted_put a0 a D i x : 0 <= i -> is_colour i -> clamp8 x = colour_byte f R U i -> painted a0 a D ->
  painted a0 (put_byte a i x) (fun j => D j \/ j = i).
Proof.
  intros Hi Hc Hx [H1 H2 H3]. unfold put_byte. rewrite (proj2 (Z.ltb_ge i 0)) by lia. rewrite Hx. split.
  - by rewrite length_insert.
  - intros j. destruct (decide (j = Z.to_nat i)) as [->|Hj]; [|rewrite list_lookup_insert_ne by lia; apply H2].
    destruct (decide (Z.to_nat i < length a)%nat) as [Hl|Hl].
    + right. rewrite Z2Nat.id by lia. split; [done|]. by rewrite list_lookup_insert_eq.
    + rewrite list_insert_ge by lia. apply H2.
  - intros j [HD| ->] Hj; [|by rewrite list_lookup_insert_eq by lia].
    destruct (decide (j = i)) as [->|]; [by rewrite list_lookup_insert_eq by lia|]. rewrite list_lookup_insert_ne by lia. by apply H3.
Qed.

(** The index of a pixel gives its place back. *)
Lemma pixel_place px py k : 0 <= px < t -> 0 <= py -> 0 <= k < 4 ->
  let d := 4 * (py * t + px) + k in (d / 4) mod t = px /\ (d / 4) / t = py /\ d mod 4 = k.
Proof.
  intros Hx Hy Hk d. subst d.
  replace ((4 * (py * t + px) + k) / 4) with (py * t + px) by (Z.to_euclidean_division_equations; lia).
  replace ((4 * (py * t + px) + k) mod 4) with k by (Z.to_euclidean_division_equations; lia).
  rewrite (Z.add_comm (py * t)), Z.mod_add, Z.div_add, Z.mod_small, Z.div_small by lia. lia.
Qed.

Lemma painted_pixel a0 a D px py d : 0 <= px < t -> 0 <= py -> d = 4 * (py * t + px) -> painted a0 a D ->
  painted a0 (pixel a d (at_byte (y f) (py * stride (y f) + px)) (at_byte (u f) (js_sar py U * stride (u f) + js_sar px R))
                (at_byte (v f) (js_sar py U * stride (v f) + js_sar px R)))
    (fun j => D j \/ d <= j < d + 3).
Proof.
  intros Hx Hy -> Hp. unfold pixel.
  assert (B : forall k x, 0 <= k < 3 -> x = Z.shiftr (match k with 0 => 298 * at_byte (y f) (py * stride (y f) + px) + part_r (at_byte (v f) (js_sar py U * stride (v f) + js_sar px R))
        | 1 => 298 * at_byte (y f) (py * stride (y f) + px) - part_g (at_byte (u f) (js_sar py U * stride (u f) + js_sar px R)) (at_byte (v f) (js_sar py U * stride (v f) + js_sar px R))
        | _ => 298 * at_byte (y f) (py * stride (y f) + px) + part_b (at_byte (u f) (js_sar py U * stride (u f) + js_sar px R)) end) 8 ->
      clamp8 x = colour_byte f R U (4 * (py * t + px) + k) /\ is_colour (4 * (py * t + px) + k) /\ 0 <= 4 * (py * t + px) + k).
  { intros k x Hk ->. destruct (pixel_place px py k) as (E1 & E2 & E3); [done|done|lia|]. unfold colour_byte, is_colour. fold t. rewrite E1, E2, E3.
    split; [done|]. split; [lia|nia]. }
  eapply painted_weaken; [|eapply painted_put; [| | |eapply painted_put; [| | |eapply painted_put; [| | |exact Hp]]]].
  { intros j [Hj|Hj]; [by left; left; left|]. destruct (decide (j = 4 * (py * t + px))); [by left; left; right|].
    destruct (decide (j = 4 * (py * t + px) + 1)); [by left; right|]. right. lia. }
  all: try (apply (B 2 _ ltac:(lia) eq_refl)); try (apply (B 1 _ ltac:(lia) eq_refl)).
  all: rewrite <- (Z.add_0_r (4 * (py * t + px))); apply (B 0 _ ltac:(lia) eq_refl).
Qed.

(** The general loops paint the picture in the order of its bytes. *)
Lemma inner_painted a0 n : forall a F r, 0 <= F -> F + Z.of_nat n <= t -> 0 <= r ->
  painted a0 a (fun j => is_colour j /\ j < 4 * (r * t + F)) ->
  let '(a', g') := inner f n R a F (r * stride (y f) + F) (js_sar r U * stride (u f)) (js_sar r U * stride (v f)) (4 * (r * t + F)) in
  painted a0 a' (fun j => is_colour j /\ j < 4 * (r * t + (F + Z.of_nat n))) /\ g' = 4 * (r * t + (F + Z.of_nat n)).
Proof.
  induction n as [|n IH]; intros a F r HF Hn Hr Hp; cbn [inner]; [by rewrite Z.add_0_r|].
  assert (Hp' : painted a0 (pixel a (4 * (r * t + F)) (at_byte (y f) (r * stride (y f) + F)) (at_byte (u f) (js_sar r U * stride (u f) + js_sar F R))
      (at_byte (v f) (js_sar r U * stride (v f) + js_sar F R))) (fun j => is_colour j /\ j < 4 * (r * t + (F + 1)))).
  { eapply painted_weaken; [|eapply (painted_pixel a0 a) with (px := F) (py := r); [lia|lia|done|exact Hp]]. unfold is_colour. intros j [Hc Hj]. cbn.
    destruct (Z_lt_le_dec j (4 * (r * t + F))); [by left|right]. Z.to_euclidean_division_equations; lia. }
  specialize (IH _ (F + 1) r ltac:(lia) ltac:(lia) Hr Hp').
  replace (r * stride (y f) + F + 1) with (r * stride (y f) + (F + 1)) by lia. replace (4 * (r * t + F) + 4) with (4 * (r * t + (F + 1))) by lia.
  destruct (inner _ _ _ _ _ _ _ _ _) as [a' g']. replace (F + Z.of_nat (S n)) with (F + 1 + Z.of_nat n) by lia. exact IH.
Qed.

Hypothesis Hf : addressable f.
Hypothesis HU : 0 <= U.
Hypothesis Hc : 0 < chromaHeight (fformat f).
Hypothesis Eh : height (fformat f) = chromaHeight (fformat f) * 2 ^ U.

Lemma outer_painted a0 n : forall a r, 0 <= r -> r + Z.of_nat n <= e -> painted a0 a (fun j => is_colour j /\ j < 4 * (r * t)) ->
  painted a0 (outer f n R U a r (4 * (r * t))) (fun j => is_colour j /\ j < 4 * ((r + Z.of_nat n) * t)).
Proof.
  induction n as [|n IH]; intros a r Hr Hb Hp; cbn [outer]; [by rewrite Z.add_0_r|].
  pose proof (chroma_row f Hf U HU Hc Eh r ltac:(fold e; lia)) as Hrow.
  rewrite (width_int f Hf), (row_y f Hf r), (row_u f Hf), (row_v f Hf) by (fold e; lia).
  pose proof (inner_painted a0 (Z.to_nat t) a 0 r) as H. rewrite !Z.add_0_r in H. specialize (H ltac:(lia) ltac:(lia) Hr Hp). fold t.
  destruct (inner _ _ _ _ _ _ _ _ _) as [a' g']. destruct H as [H ->]. rewrite Z.add_0_l, Z2Nat.id by lia. 
  replace (4 * (r * t + t)) with (4 * ((r + 1) * t)) by lia. replace (r + Z.of_nat (S n)) with (r + 1 + Z.of_nat n) by lia. apply IH; [lia|lia|].
  eapply painted_weaken; [|exact H]. intros j [? ?]. split; [done|]. lia.
Qed.
End Painting.

Section Fast.
Variable f : frame.
Let t := width (fformat f).
Let e := height (fformat f).
Hypothesis Hf : addressable f.
Hypothesis Heven : t mod 2 = 0.
Hypothesis Eh : e = chromaHeight (fformat f) * 2.

Lemma Ht : 0 < t < 2 ^ 31.
Proof. destruct Hf. subst t. lia. Qed.

Notation painted11 := (painted f 1 1).

Lemma sar_double k i : 0 <= k < 2 -> 0 <= 2 * i + k < 2 ^ 31 -> js_sar (2 * i + k) 1 = i.
Proof. intros Hk Hi. rewrite js_sar_small by lia. change (2 ^ 1) with 2. Z.to_euclidean_division_equations; lia. Qed.

(** The fast loops paint two rows at a time, from the left. *)
Definition rows_done (T F j : Z) : Prop :=
  is_colour j /\ (j < 4 * (2 * T * t + F) \/ 4 * ((2 * T + 1) * t) <= j < 4 * ((2 * T + 1) * t + F)).

Lemma rows_next T F j : 0 <= T -> 0 <= F -> F + 2 <= t -> rows_done T (F + 2) j ->
  (((rows_done T F j \/ 4 * (2 * T * t + F) <= j < 4 * (2 * T * t + F) + 3) \/ 4 * (2 * T * t + F) + 4 <= j < 4 * (2 * T * t + F) + 4 + 3)
   \/ 4 * ((2 * T + 1) * t + F) <= j < 4 * ((2 * T + 1) * t + F) + 3) \/ 4 * ((2 * T + 1) * t + F) + 4 <= j < 4 * ((2 * T + 1) * t + F) + 4 + 3.
Proof.
  unfold rows_done, is_colour. intros HT HF Hn [Hc Hj]. set (A := 2 * T * t) in *. set (B := (2 * T + 1) * t) in *.
  destruct (Z_lt_le_dec j (4 * (A + F))); [by left; left; left; left; split; [|left]|].
  destruct (Z_lt_le_dec j (4 * (A + F) + 8)); [Z.to_euclidean_division_equations; lia|].
  destruct (Z_lt_le_dec j (4 * (B + F))); [left; left; left; left; split; [done|right; lia]|]. Z.to_euclidean_division_equations; lia.
Qed.

Lemma inner420_painted a0 n : forall a i T, 0 <= i -> 2 * (i + Z.of_nat n) <= t -> 0 <= T -> 2 * T + 1 < 2 ^ 31 ->
  painted11 a0 a (rows_done T (2 * i)) ->
  let '(a', d', v') := inner420 f n a (2 * T * stride (y f) + 2 * i) (2 * T * stride (y f) + stride (y f) + 2 * i) (T * stride (u f) + i) (T * stride (v f) + i)
                         (4 * (2 * T * t + 2 * i)) (4 * ((2 * T + 1) * t + 2 * i)) in
  painted11 a0 a' (rows_done T (2 * (i + Z.of_nat n))) /\ d' = 4 * (2 * T * t + 2 * (i + Z.of_nat n)) /\ v' = 4 * ((2 * T + 1) * t + 2 * (i + Z.of_nat n)).
Proof.
  pose proof Ht as Ht.
  induction n as [|n IH]; intros a i T Hi Hn HT Hb Hp; cbn [inner420]; [by rewrite Z.add_0_r|].
  assert (S0 : js_sar (2 * T) 1 = T) by (rewrite <- (Z.add_0_r (2 * T)); apply sar_double; lia).
  assert (S1 : js_sar (2 * T + 1) 1 = T) by (apply sar_double; lia).
  assert (P0 : js_sar (2 * i) 1 = i) by (rewrite <- (Z.add_0_r (2 * i)); apply sar_double; lia).
  assert (P1 : js_sar (2 * i + 1) 1 = i) by (apply sar_double; lia).
  pose proof (fun a D Q => painted_pixel f 1 1 (proj1 Ht) a0 a D (2 * i) (2 * T) (4 * (2 * T * t + 2 * i)) ltac:(fold t; lia) ltac:(lia) eq_refl Q) as Q1.
  pose proof (fun a D Q => painted_pixel f 1 1 (proj1 Ht) a0 a D (2 * i + 1) (2 * T) (4 * (2 * T * t + 2 * i) + 4) ltac:(fold t; lia) ltac:(lia) ltac:(fold t; lia) Q) as Q2.
  pose proof (fun a D Q => painted_pixel f 1 1 (proj1 Ht) a0 a D (2 * i) (2 * T + 1) (4 * ((2 * T + 1) * t + 2 * i)) ltac:(fold t; lia) ltac:(lia) eq_refl Q) as Q3.
  pose proof (fun a D Q => painted_pixel f 1 1 (proj1 Ht) a0 a D (2 * i + 1) (2 * T + 1) (4 * ((2 * T + 1) * t + 2 * i) + 4) ltac:(fold t; lia) ltac:(lia) ltac:(fold t; lia) Q) as Q4.
  rewrite ?S0, ?S1, ?P0, ?P1 in *.
  replace (2 * T * stride (y f) + 2 * i + 1) with (2 * T * stride (y f) + (2 * i + 1)) by lia.
  replace (2 * T * stride (y f) + stride (y f) + 2 * i) with ((2 * T + 1) * stride (y f) + 2 * i) by lia.
  replace ((2 * T + 1) * stride (y f) + 2 * i + 1) with ((2 * T + 1) * stride (y f) + (2 * i + 1)) by lia.
  specialize (Q4 _ _ (Q3 _ _ (Q2 _ _ (Q1 _ _ Hp)))). cbn in Q4.
  match type of Q4 with painted _ _ _ _ ?a1 _ => specialize (IH a1 (i + 1) T ltac:(lia) ltac:(lia) HT Hb) end.
  assert (Hp' : painted11 a0 _ (rows_done T (2 * (i + 1)))) by (eapply painted_weaken; [|exact Q4]; intros j Hj; apply rows_next; [lia..|]; by replace (2 * i + 2) with (2 * (i + 1)) by lia).
  specialize (IH Hp'). clear Q1 Q2 Q3 Q4 Hp'.
  replace (2 * T * stride (y f) + 2 * i + 2) with (2 * T * stride (y f) + 2 * (i + 1)) by lia.
  replace ((2 * T + 1) * stride (y f) + 2 * i + 2) with (2 * T * stride (y f) + stride (y f) + 2 * (i + 1)) by lia.
  replace (T * stride (u f) + i + 1) with (T * stride (u f) + (i + 1)) by lia. replace (T * stride (v f) + i + 1) with (T * stride (v f) + (i + 1)) by lia.
  replace (4 * (2 * T * t + 2 * i) + 8) with (4 * (2 * T * t + 2 * (i + 1))) by lia.
  replace (4 * ((2 * T + 1) * t + 2 * i) + 8) with (4 * ((2 * T + 1) * t + 2 * (i + 1))) by lia.
  replace (i + Z.of_nat (S n)) with (i + 1 + Z.of_nat n) by lia. exact IH.
Qed.

Lemma outer420_painted a0 n : forall a T, 0 <= T -> T + Z.of_nat n <= chromaHeight (fformat f) ->
  painted11 a0 a (fun j => is_colour j /\ j < 4 * (2 * T * t)) ->
  painted11 a0 (outer420 f n a (2 * T) T (4 * (2 * T * t)) (4 * ((2 * T + 1) * t))) (fun j => is_colour j /\ j < 4 * (2 * (T + Z.of_nat n) * t)).
Proof.
  induction n as [|n IH]; intros a T HT Hn Hp; cbn [outer420]; [by rewrite Z.add_0_r|].
  pose proof Ht as Ht. pose proof (ad_height f Hf) as He. fold e in He.
  rewrite (row_bytes f Hf), (width_int f Hf), (row_y f Hf), (next_row_y f Hf), (row_u f Hf), (row_v f Hf) by (fold e; lia).
  assert (Hh : Z.of_nat (half t) = t / 2) by (unfold half; Z.to_euclidean_division_equations; lia).
  pose proof (inner420_painted a0 (half t) a 0 T ltac:(lia) ltac:(rewrite Hh; Z.to_euclidean_division_equations; lia) HT ltac:(lia)) as H.
  rewrite !Z.mul_0_r, !Z.add_0_r in H. fold t. specialize (H ltac:(eapply painted_weaken; [|exact Hp]; unfold rows_done; intros j [Hc [Hj|Hj]]; [split; [done|lia]|lia])).
  destruct (inner420 _ _ _ _ _ _ _ _ _) as [[a' d'] v']. destruct H as (H & -> & ->). rewrite Hh.
  replace (2 * (0 + t / 2)) with t by (Z.to_euclidean_division_equations; lia).
  replace (2 * T + 2) with (2 * (T + 1)) by lia. replace (4 * (2 * T * t + t) + 4 * t) with (4 * (2 * (T + 1) * t)) by lia.
  replace (4 * ((2 * T + 1) * t + t) + 4 * t) with (4 * ((2 * (T + 1) + 1) * t)) by lia.
  replace (T + Z.of_nat (S n)) with (T + 1 + Z.of_nat n) by lia. apply IH; [lia|lia|].
  eapply painted_weaken; [|exact H]. unfold rows_done. rewrite Hh. replace (2 * (0 + t / 2)) with t by (Z.to_euclidean_division_equations; lia).
  intros j [Hc Hj]. split; [done|]. destruct (Z_lt_le_dec j (4 * (2 * T * t + t))); [by left|right]. lia.
Qed.
End Fast.

(** ** The ratio *)

Lemma js_shl_one n : 0 <= n < 31 -> js_shl 1 n = 2 ^ n.
Proof.
  intros Hn. rewrite js_shl_small by (try lia; rewrite Z.mul_1_l; apply Z.pow_lt_mono_r; lia). lia.
Qed.

Lemma shift_count_log fuel : forall c n, 1 <= c < 2 ^ 31 -> c < 2 ^ Z.of_nat (S fuel) -> shift_count fuel (js_sar c 1) n = n + Z.log2 c.
Proof.
  induction fuel as [|fuel IH]; intros c n Hc Hf; cbn [shift_count].
  { change (2 ^ Z.of_nat 1) with 2 in Hf. assert (c = 1) as -> by lia. cbn. lia. }
  rewrite js_sar_small by lia. change (2 ^ 1) with 2. destruct (Z.eqb_spec (c / 2) 0) as [E|E].
  - assert (c = 1) as -> by (Z.to_euclidean_division_equations; lia). cbn. lia.
  - rewrite IH; [|Z.to_euclidean_division_equations; lia|].
    + replace (Z.log2 c) with (Z.succ (Z.log2 (c / 2))); [lia|]. rewrite <- Z.div2_div. rewrite <- Z.log2_double by (rewrite Z.div2_div; Z.to_euclidean_division_equations; lia).
      rewrite Z.div2_div. destruct (Z.eq_dec (2 * (c / 2)) c) as [->|Hne]; [done|].
      replace c with (2 * (c / 2) + 1) at 2 by (Z.to_euclidean_division_equations; lia).
      rewrite Z.log2_succ_double, Z.log2_double by (Z.to_euclidean_division_equations; lia). done.
    + rewrite Nat2Z.inj_succ, Z.pow_succ_r in Hf by lia. Z.to_euclidean_division_equations; lia.
Qed.

(** The ratio is accepted exactly when it is a power of two. *)
Lemma depower_spec size chroma n : 0 < size < 2 ^ 31 -> 0 <= chroma ->
  depower size chroma = Ok n <-> 0 <= n /\ 0 < chroma /\ size = chroma * 2 ^ n.
Proof.
  intros Hs Hc. unfold depower. destruct (Z.eqb_spec chroma 0) as [->|Hne]; cbn [negb andb]; [split; [done|lia]|].
  destruct (Z_lt_le_dec size chroma) as [Hlt|Hge].
  - rewrite Z.div_small by lia. cbv zeta. change (shift_count 32 (js_sar 0 1) 0) with 0. change (js_shl 1 0) with 1.
    rewrite (proj2 (Z.eqb_neq size (chroma * 1))) by lia. split; [done|]. intros (H0 & H1 & H2). pose proof (Z.pow_pos_nonneg 2 n ltac:(lia) H0). nia.
  - assert (Hr : 1 <= size / chroma < 2 ^ 31) by (Z.to_euclidean_division_equations; nia).
    rewrite shift_count_log by (cbn; lia). rewrite Z.add_0_l. set (l := Z.log2 (size / chroma)).
    assert (Hl : 0 <= l < 31) by (subst l; split; [apply Z.log2_nonneg|]; apply Z.log2_lt_pow2; lia). rewrite js_shl_one by lia.
    assert (Hq : 0 <= n /\ 0 < chroma /\ size = chroma * 2 ^ n -> n = l).
    { intros (H0 & H1 & H2). subst l. rewrite H2, (Z.mul_comm chroma), Z.div_mul by lia. by rewrite Z.log2_pow2 by lia. }
    destruct (Z.eqb_spec size (chroma * 2 ^ l)) as [E|E].
    + split; [intros [= <-]; lia|]. intros H. by rewrite (Hq H).
    + split; [done|]. intros H. destruct E. rewrite <- (Hq H). apply H.
Qed.

(** C18. For every frame whose chroma planes have the size of the picture divided by powers of two, and whose planes and
    picture are smaller than 2^31 bytes, the conversion, by either pair of loops, gives every colour byte of the picture
    the value of the formula and leaves every other byte. *)
Theorem convert_formula (f : frame) (R U : Z) (output : list Z) :
  addressable f -> 0 <= R -> 0 <= U -> 0 < chromaWidth (fformat f) -> 0 < chromaHeight (fformat f) ->
  width (fformat f) = chromaWidth (fformat f) * 2 ^ R -> height (fformat f) = chromaHeight (fformat f) * 2 ^ U ->
  Z.of_nat (length output) = 4 * (height (fformat f) * width (fformat f)) ->
  exists out, convertYCbCr f output = Ok out /\ length out = length output
    /\ forall j, 0 <= j < Z.of_nat (length output) ->
         out !! Z.to_nat j = if j mod 4 =? 3 then output !! Z.to_nat j else Some (colour_byte f R U j).
Proof.
  intros Hf HR HU Hw Hh Ew Eh Hl. pose proof (Ht f Hf) as Ht. pose proof (ad_height f Hf) as He. unfold convertYCbCr.
  rewrite (proj2 (depower_spec _ _ R Ht (Z.lt_le_incl _ _ Hw))), (proj2 (depower_spec _ _ U He (Z.lt_le_incl _ _ Hh))) by done. cbn [rbind].
  rewrite (row_bytes f Hf), (height_int f Hf).
  assert (P0 : forall D, (forall j, D j -> ~ (0 <= j)) -> painted f R U output output D) by (intros D HD; split; [done|intros j; by left|]; intros j Hj Hb; exfalso; apply (HD j Hj); lia).
  assert (P : exists out, (if (R =? 1) && (U =? 1) then outer420 f (half (height (fformat f))) output 0 0 0 (4 * width (fformat f))
      else outer f (Z.to_nat (height (fformat f))) R U output 0 0) = out
      /\ painted f R U output out (fun j => is_colour j /\ j < 4 * (height (fformat f) * width (fformat f)))).
  { eexists. split; [reflexivity|].
    assert (G : painted f R U output (outer f (Z.to_nat (height (fformat f))) R U output 0 0) (fun j => is_colour j /\ j < 4 * (height (fformat f) * width (fformat f)))).
    { pose proof (outer_painted f R U (proj1 Ht) Hf HU Hh Eh output (Z.to_nat (height (fformat f))) output 0 ltac:(lia) ltac:(lia)) as H. cbn [Z.mul Z.add] in H.
      eapply painted_weaken; [|apply H, P0; lia]. intros j [? ?]. split; [done|]. lia. }
    destruct (Z.eqb_spec R 1) as [->|]; [destruct (Z.eqb_spec U 1) as [->|]|]; cbn [andb]; [|exact G|exact G].
    change (2 ^ 1) with 2 in *. assert (Hhf : Z.of_nat (half (height (fformat f))) = chromaHeight (fformat f)) by (unfold half; Z.to_euclidean_division_equations; lia).
    pose proof (outer420_painted f Hf ltac:(rewrite Ew; apply Z.mod_mul; lia) Eh output (half (height (fformat f))) output 0 ltac:(lia)) as H.
    rewrite Hhf in H. cbn [Z.mul Z.add] in H. rewrite !Z.mul_1_l in H. eapply painted_weaken; [|apply H; [lia|apply P0; lia]].
    intros j [? ?]. split; [done|]. lia. }
  destruct P as (out & -> & [H1 H2 H3]). exists out. split; [done|]. split; [done|]. intros j Hj.
  destruct (Z.eqb_spec (j mod 4) 3) as [E|E].
  - destruct (H2 (Z.to_nat j)) as [->|[Hc _]]; [done|]. rewrite Z2Nat.id in Hc by lia. done.
  - apply H3; [split; [done|lia]|lia].
Qed.

(** A frame of one block, with the chroma of a red. *)
Definition red_block : frame := {|
  fformat := {| width := 2; height := 2; chromaWidth := 1; chromaHeight := 1; cropLeft := 0; cropTop := 0; cropWidth := 2; cropHeight := 2; displayWidth := 2; displayHeight := 2 |};
  y := {| bytes := [82; 82; 82; 16]; stride := 2 |}; u := {| bytes := [90]; stride := 1 |}; v := {| bytes := [240]; stride := 1 |} |}.

Theorem convert_formula_witness :
  exists out, convertYCbCr red_block (new_image 2 2) = Ok out /\ out !! 0%nat = Some 255 /\ out !! 3%nat = Some 255.
Proof.
  destruct (convert_formula red_block 1 1 (new_image 2 2)) as (out & H & _ & Hj); [constructor; cbn; lia|cbn; lia..|vm_compute; reflexivity|].
  exists out. split; [exact H|]. split; [exact (Hj 0 ltac:(vm_compute; split; [discriminate|reflexivity])) | exact (Hj 3 ltac:(vm_compute; split; [discriminate|reflexivity]))].
Defined.

(** Behind that size the offsets wrap: with a stride of 2^32 both rows of a 2 by 2 frame are read from the start. *)
Example stride_wraps :
  convertYCbCr {| fformat := fformat red_block; y := {| bytes := [82; 82; 16; 16]; stride := 2 ^ 32 |}; u := u red_block; v := v red_block |} (new_image 2 2)
  = convertYCbCr {| fformat := fformat red_block; y := {| bytes := [82; 82; 82; 82]; stride := 2 |}; u := u red_block; v := v red_block |} (new_image 2 2).
Proof. vm_compute. reflexivity. Qed.
