(* ===== verification/YuvWebGl.v ===== *)
(** * Drawing frames with WebGL
      ([integrations/lan-remote-access/rustdesk-web-open/yuv-canvas-1.2.6.js], the shaders and [WebGLFrameSink])

    The sink uploads the planes of a frame as textures, and a shader converts the colours.
    On Windows the bytes of a plane are uploaded four to a texel, and drawn once with a
    striped texture that picks one of the four.  The sink is modelled by the calls it makes;
    objects of WebGL are numbers, and whether shaders compile and programs link is a
    parameter.  The arithmetic of the shader that converts colours is a parameter too: the
    source asks for [lowp], and what a device computes is its own. *)

From stdpp Require Import base list numbers strings.
From Stdlib Require Import ZArith Lia QArith Qround Qminmax Qabs Lqa.
From S2P Require Import Prelude JsString OpusText OpusValue YuvCanvas.
Local Open Scope Z_scope.

(** ** The shaders *)

(** [fragment]: the colour for the samples of the three textures.  [rnd] is what the device makes of a number: of a
    constant, of a sample, and of the result of each operation ([precision lowp float]). *)
Definition fragment (rnd : Q -> Q) (tY tCb tCr : Q) : Q * Q * Q :=
  let fY := rnd tY in
  let fCb := rnd tCb in
  let fCr := rnd tCr in
  let fYmul := rnd (fY * rnd (11643828125 # 10000000000))%Q in
  (rnd (rnd (fYmul + rnd (rnd (159602734375 # 100000000000) * fCr)) - rnd (87078515625 # 100000000000))%Q,
   rnd (rnd (rnd (fYmul - rnd (rnd (39176171875 # 100000000000) * fCb)) - rnd (rnd (81296875 # 100000000) * fCr)) + rnd (52959375 # 100000000))%Q,
   rnd (rnd (fYmul + rnd (rnd (2017234375 # 1000000000) * fCb)) - rnd (1081390625 # 1000000000))%Q).

(** A byte of a texture, as a shader sees it. *)
Definition sample (b : Z) : Q := (inject_Z b / 255)%Q.

(** [fragmentStripe]: the product of a texel of the stripes and one of the picture. *)
Definition fragmentStripe (stripe texture : list Z) : Q :=
  foldr Qplus 0%Q (zip_with (fun a b => sample a * sample b)%Q stripe texture).

(** The index of the texel that a coordinate, [num/den], falls in, in a row of [width] texels without filtering. *)
Definition nearest (num den width : Z) : Z := num * width / den.

Definition texel (data : list Z) (k : Z) : list Z := take 4 (drop (Z.to_nat (4 * k)) data).

(** ** Calls *)

(** The programs' texts: the pair with which frames are drawn, and the pair for stripes. *)
Inductive text := TVertex | TFragment | TVertexStripe | TFragmentStripe.
Inductive shader_kind := VERTEX_SHADER | FRAGMENT_SHADER.
Inductive plane_name := UTextureY | UTextureCb | UTextureCr.
(** A texture is named after its plane; [_temp] and [_stripe] are appended for stripes. *)
Inductive role := Main | Temp | Stripe.
Inductive pixels := RGBA | LUMINANCE.
Inductive filter := NEAREST | LINEAR.
(** The locations of a linked program. *)
Inductive attribute := APosition | ALumaPosition | AChromaPosition | ATexturePosition.
Inductive uniform := UPlane (p : plane_name) | UStripe | UTexture.

#[export] Instance plane_name_eq_dec : EqDecision plane_name.
Proof. solve_decision. Defined.
#[export] Instance role_eq_dec : EqDecision role.
Proof. solve_decision. Defined.

(** A coordinate, as a quotient that is not evaluated. *)
Abbreviation coordinate := (Z * Z)%type.

Inductive call :=
| CreateShader (k : shader_kind) (id : nat) | ShaderSource (id : nat) (t : text) | CompileShader (id : nat) | DeleteShader (id : nat)
| CreateProgram (id : nat) | AttachShader (program shader : nat) | LinkProgram (id : nat) | DeleteProgram (id : nat)
| UseProgram (id : option nat)
| CreateTexture (id : nat) | ActiveTexture (unit : Z) | BindTexture (id : option nat)
| TexParameters (f : filter)                            (* both wraps clamped, both filters [f] *)
| TexImage2D (f : pixels) (w h : Z) (data : option (list Z))
| TexSubImage2D (f : pixels) (w h : Z) (data : list Z)  (* at the origin *)
| CreateBuffer (id : nat) | BindBuffer (id : option nat) | BufferData (l : list coordinate)
| GetAttribLocation (program : nat) (a : attribute) | GetUniformLocation (program : nat) (x : uniform)
| EnableVertexAttribArray (l : option (nat * attribute)) | VertexAttribPointer (l : option (nat * attribute))
| Uniform1i (l : option (nat * uniform)) (x : Z)
| CreateFramebuffer (id : nat) | BindFramebuffer (id : option nat) | FramebufferTexture2D (texture : option nat)
| Viewport (w h : Z) | ClearColor | Clear | DrawArrays (n : Z).

(** ** The sink *)

Record gl_sink := {
  canvas : Z * Z;                                 (* [a.width], [a.height] *)
  textures : plane_name -> role -> option nat;    (* [x] *)
  framebuffers : plane_name -> option nat;        (* [l] *)
  stripes : list (Z * list Z);                    (* [m] *)
  program : option nat;                           (* [u] *)
  stripe_program : option nat;                    (* [f] *)
  positions : option nat;                         (* [o] *)
  texture_positions : option nat;                 (* [h] *)
  luma_positions : option nat;                    (* [w] *)
  chroma_positions : option nat;                  (* [d] *)
  next : nat;
  log : list call
}.

Definition G (A : Type) : Type := gl_sink -> result A * gl_sink.
Definition gret {A} (a : A) : G A := fun s => (Ok a, s).
Definition gbind {A B} (m : G A) (k : A -> G B) : G B :=
  fun s => match m s with (Ok a, s) => k a s | (Throw e, s) => (Throw e, s) end.
Local Notation "'let*' x := m 'in' k" := (gbind m (fun x => k)) (at level 10, x pattern, m at level 100, k at level 200).
Local Notation "m ;* k" := (gbind m (fun _ => k)) (at level 60, right associativity).
Definition look {A} (f : gl_sink -> A) : G A := fun s => (Ok (f s), s).

Definition with_log (l : list call) (s : gl_sink) : gl_sink :=
  {| canvas := canvas s; textures := textures s; framebuffers := framebuffers s; stripes := stripes s; program := program s;
     stripe_program := stripe_program s; positions := positions s; texture_positions := texture_positions s;
     luma_positions := luma_positions s; chroma_positions := chroma_positions s; next := next s; log := log s ++ l |}.
Definition emit (l : list call) : G unit := fun s => (Ok tt, with_log l s).

(** A new object: its number, and the call that made it. *)
Definition create (c : nat -> call) : G nat := fun s =>
  (Ok (next s),
   {| canvas := canvas s; textures := textures s; framebuffers := framebuffers s; stripes := stripes s; program := program s;
      stripe_program := stripe_program s; positions := positions s; texture_positions := texture_positions s;
      luma_positions := luma_positions s; chroma_positions := chroma_positions s; next := S (next s); log := log s ++ [c (next s)] |}).

Definition with_canvas (c : Z * Z) (s : gl_sink) : gl_sink :=
  {| canvas := c; textures := textures s; framebuffers := framebuffers s; stripes := stripes s; program := program s;
     stripe_program := stripe_program s; positions := positions s; texture_positions := texture_positions s;
     luma_positions := luma_positions s; chroma_positions := chroma_positions s; next := next s; log := log s |}.
Definition with_texture (p : plane_name) (r : role) (i : nat) (s : gl_sink) : gl_sink :=
  {| canvas := canvas s; textures := fun p' r' => if bool_decide (p' = p /\ r' = r) then Some i else textures s p' r';
     framebuffers := framebuffers s; stripes := stripes s; program := program s; stripe_program := stripe_program s;
     positions := positions s; texture_positions := texture_positions s; luma_positions := luma_positions s;
     chroma_positions := chroma_positions s; next := next s; log := log s |}.
Definition with_framebuffer (p : plane_name) (i : nat) (s : gl_sink) : gl_sink :=
  {| canvas := canvas s; textures := textures s; framebuffers := fun p' => if bool_decide (p' = p) then Some i else framebuffers s p';
     stripes := stripes s; program := program s; stripe_program := stripe_program s; positions := positions s;
     texture_positions := texture_positions s; luma_positions := luma_positions s; chroma_positions := chroma_positions s;
     next := next s; log := log s |}.
Definition with_stripes (l : list (Z * list Z)) (s : gl_sink) : gl_sink :=
  {| canvas := canvas s; textures := textures s; framebuffers := framebuffers s; stripes := l; program := program s;
     stripe_program := stripe_program s; positions := positions s; texture_positions := texture_positions s;
     luma_positions := luma_positions s; chroma_positions := chroma_positions s; next := next s; log := log s |}.
Definition with_stripe_program (f h : option nat) (s : gl_sink) : gl_sink :=
  {| canvas := canvas s; textures := textures s; framebuffers := framebuffers s; stripes := stripes s; program := program s;
     stripe_program := f; positions := positions s; texture_positions := h; luma_positions := luma_positions s;
     chroma_positions := chroma_positions s; next := next s; log := log s |}.
Definition with_program (u o w d : option nat) (s : gl_sink) : gl_sink :=
  {| canvas := canvas s; textures := textures s; framebuffers := framebuffers s; stripes := stripes s; program := u;
     stripe_program := stripe_program s; positions := o; texture_positions := texture_positions s; luma_positions := w;
     chroma_positions := d; next := next s; log := log s |}.
Definition set (f : gl_sink -> gl_sink) : G unit := fun s => (Ok tt, f s).

(** ** Programs *)

Section Sink.
Variable stripe : bool.                          (* [n.stripe]: the browser runs on Windows *)
Variable compiled linked : nat -> bool.          (* COMPILE_STATUS and LINK_STATUS of the objects *)
Variable shader_log program_log : nat -> jsstr.

Definition kind_text (k : shader_kind) : jsstr := match k with VERTEX_SHADER => js "35633" | FRAGMENT_SHADER => js "35632" end.

(** [R] *)
Definition compile (k : shader_kind) (t : text) : G nat :=
  let* T := create (CreateShader k) in
  emit [ShaderSource T t; CompileShader T] ;*
  if compiled T then gret T
  else
    emit [DeleteShader T] ;*
    fun s => (Throw (ErrorMsg (js "GL shader compilation for " ++ kind_text k ++ js " failed: " ++ shader_log T)), s).

(** [b] *)
Definition link (vertex fragment : text) : G nat :=
  let* T := compile VERTEX_SHADER vertex in
  let* s := compile FRAGMENT_SHADER fragment in
  let* A := create CreateProgram in
  emit [AttachShader A T; AttachShader A s; LinkProgram A] ;*
  if linked A then gret A
  else
    emit [DeleteProgram A] ;*
    fun st => (Throw (ErrorMsg (js "GL program linking failed: " ++ program_log A)), st).

Definition whole (l : list Z) : list coordinate := map (fun x => (x, 1)) l.

(** [U], two triangles over the whole canvas, and the corners of the picture on them. *)
Definition rectangle : list coordinate := whole [-1; -1; 1; -1; -1; 1; -1; 1; 1; -1; 1; 1].
Definition stripe_corners : list coordinate := whole [0; 0; 1; 0; 0; 1; 0; 1; 1; 0; 1; 1].

(** [F] *)
Definition init : G unit :=
  (if stripe then
     let* f := link TVertexStripe TFragmentStripe in
     set (fun s => with_stripe_program (Some f) (texture_positions s) s) ;*
     emit [GetAttribLocation f APosition] ;*
     let* h := create CreateBuffer in
     set (with_stripe_program (Some f) (Some h)) ;*
     emit [BindBuffer (Some h); BufferData stripe_corners; GetAttribLocation f ATexturePosition; GetUniformLocation f UStripe;
           GetUniformLocation f UTexture]
   else gret tt) ;*
  let* u := link TVertex TFragment in
  let* o := create CreateBuffer in
  emit [BindBuffer (Some o); BufferData rectangle; GetAttribLocation u APosition] ;*
  let* w := create CreateBuffer in
  emit [GetAttribLocation u ALumaPosition] ;*
  let* d := create CreateBuffer in
  emit [GetAttribLocation u AChromaPosition] ;*
  set (with_program (Some u) (Some o) (Some w) (Some d)).

(** ** Textures *)

(** [C] *)
Definition texture (p : plane_name) (r : role) : G nat :=
  let* x := look (fun s => textures s p r) in
  match x with
  | Some i => gret i
  | None => let* i := create CreateTexture in set (with_texture p r i) ;* gret i
  end.

(** The loop of [D]: a word for each texel; words past the end of the array are dropped. *)
Fixpoint stripe_words (n : nat) : list Z :=
  match n with
  | O => []
  | S n => [255; 0; 0; 0; 0; 255; 0; 0; 0; 0; 255; 0; 0; 0; 0; 255] ++ stripe_words n
  end.
Definition stripe_bytes (r : Z) : list Z := take (Z.to_nat (4 * r)) (stripe_words (Z.to_nat ((r + 3) / 4))).

Fixpoint find_stripes (r : Z) (l : list (Z * list Z)) : option (list Z) :=
  match l with
  | [] => None
  | (k, b) :: l => if k =? r then Some b else find_stripes r l
  end.

(** [D], with the stripes it keeps for each width. *)
Definition build_stripe (r : Z) : G (list Z) :=
  let* l := look stripes in
  match find_stripes r l with
  | Some b => gret b
  | None => set (with_stripes ((r, stripe_bytes r) :: l)) ;* gret (stripe_bytes r)
  end.

(** [L]; the width of the picture of four bytes a texel loses its fraction. *)
Definition upload (p : plane_name) (i h : Z) (bytes : list Z) : G unit :=
  let* A := texture p Main in
  emit [ActiveTexture 0] ;*
  if stripe then
    let* t := look (fun s => textures s p Temp) in
    let* g := texture p Temp in
    emit [BindTexture (Some g)] ;*
    emit (match t with
          | None => [TexParameters NEAREST; TexImage2D RGBA (Z.quot i 4) h (Some bytes)]
          | Some _ => [TexSubImage2D RGBA (Z.quot i 4) h bytes]
          end) ;*
    let* y := look (fun s => textures s p Stripe) in
    let* k := texture p Stripe in
    emit [BindTexture (Some k)] ;*
    match y with
    | None => let* b := build_stripe i in emit [TexParameters NEAREST; TexImage2D RGBA i 1 (Some b)]
    | Some _ => gret tt
    end
  else emit [BindTexture (Some A); TexParameters LINEAR; TexImage2D LUMINANCE i h (Some bytes)].

Definition location (f : option nat) (a : attribute) : option (nat * attribute) := option_map (fun f => (f, a)) f.
Definition uniform_of (f : option nat) (x : uniform) : option (nat * uniform) := option_map (fun f => (f, x)) f.

(** [e.bindBuffer], [e.enableVertexAttribArray], [e.vertexAttribPointer] *)
Definition use_buffer (b : option nat) (l : option (nat * attribute)) : list call :=
  [BindBuffer b; EnableVertexAttribArray l; VertexAttribPointer l].

(** [E]: the bytes of a plane, one for each pixel of the texture. *)
Definition unpack (p : plane_name) (i h : Z) : G unit :=
  let* s := look (fun s => s) in
  emit [UseProgram (stripe_program s)] ;*
  let* A := (match framebuffers s p with
             | Some A => gret A
             | None =>
                 emit [ActiveTexture 0; BindTexture (textures s p Main); TexParameters LINEAR; TexImage2D RGBA i h None] ;*
                 let* A := create CreateFramebuffer in set (with_framebuffer p A) ;* gret A
             end) in
  emit ([BindFramebuffer (Some A); FramebufferTexture2D (textures s p Main);
         ActiveTexture 1; BindTexture (textures s p Temp); Uniform1i (uniform_of (stripe_program s) UTexture) 1;
         ActiveTexture 2; BindTexture (textures s p Stripe); Uniform1i (uniform_of (stripe_program s) UStripe) 2]
        ++ use_buffer (positions s) (location (program s) APosition)
        ++ use_buffer (texture_positions s) (location (stripe_program s) ATexturePosition)
        ++ [Viewport i h; DrawArrays 6; BindFramebuffer None]).

(** [P]; nothing is uploaded here. *)
Definition attach_texture (p : plane_name) (k : Z) : G unit :=
  let* s := look (fun s => s) in
  emit ([ActiveTexture k; BindTexture (textures s p Main); TexParameters LINEAR]
        ++ match program s with Some u => [GetUniformLocation u (UPlane p)] | None => [] end
        ++ [Uniform1i (uniform_of (program s) (UPlane p)) k]).

(** ** Frames *)

(** The corners of the visible part, as shares of a row of [gn/gd] samples and of the height. *)
Definition corners (i : format) (gn gd : Z) : list coordinate :=
  let y := (cropLeft i * gd, gn) in
  let N := ((cropLeft i + cropWidth i) * gd, gn) in
  let M := (cropTop i + cropHeight i, height i) in
  let W := (cropTop i, height i) in
  [y; M; N; M; y; W; y; W; N; M; N; W].

Definition clear : G unit := let* c := look canvas in emit [Viewport c.1 c.2; ClearColor; Clear].

(** The planes are uploaded and drawn. *)
Definition draw_planes (r : frame) : G unit :=
  let i := fformat r in
  upload UTextureY (stride (y r)) (height i) (bytes (y r)) ;*
  upload UTextureCb (stride (u r)) (chromaHeight i) (bytes (u r)) ;*
  upload UTextureCr (stride (v r)) (chromaHeight i) (bytes (v r)) ;*
  (if stripe then
     unpack UTextureY (stride (y r)) (height i) ;*
     unpack UTextureCb (stride (u r)) (chromaHeight i) ;*
     unpack UTextureCr (stride (v r)) (chromaHeight i)
   else gret tt) ;*
  let* s := look (fun s => s) in
  emit [UseProgram (program s); Viewport (canvas s).1 (canvas s).2] ;*
  attach_texture UTextureY 0 ;* attach_texture UTextureCb 1 ;* attach_texture UTextureCr 2 ;*
  emit (use_buffer (positions s) (location (program s) APosition)
        ++ use_buffer (luma_positions s) (location (program s) ALumaPosition)
        ++ use_buffer (chroma_positions s) (location (program s) AChromaPosition) ++ [DrawArrays 6]).

(** [t.drawFrame]; the planes of the buffer are those of the frame. *)
Definition gl_drawFrame (r : frame) : G unit :=
  let i := fformat r in
  let* s := look (fun s => s) in
  let T := bool_decide (program s = None) || negb (bool_decide (canvas s = (displayWidth i, displayHeight i))) in
  (if T then set (with_canvas (displayWidth i, displayHeight i)) ;* clear else gret tt) ;*
  (if bool_decide (program s = None) then init else gret tt) ;*
  (if T then
     let* s := look (fun s => s) in
     emit [BindBuffer (luma_positions s); BufferData (corners i (stride (y r)) 1);
           BindBuffer (chroma_positions s); BufferData (corners i (stride (u r) * width i) (chromaWidth i))]
   else gret tt) ;*
  draw_planes r.

(** [new WebGLFrameSink(a)], given whether the canvas has a context. *)
Definition fresh_sink (c : Z * Z) : gl_sink :=
  {| canvas := c; textures := fun _ _ => None; framebuffers := fun _ => None; stripes := []; program := None; stripe_program := None;
     positions := None; texture_positions := None; luma_positions := None; chroma_positions := None; next := 0; log := [] |}.
Definition new_gl_sink (context : bool) (c : Z * Z) : result gl_sink :=
  if context then Ok (snd (clear (fresh_sink c))) else Throw (ErrorMsg (js "WebGL unavailable")).

(** Frames one after the other; the player catches what is thrown. *)
Definition gl_draws (rs : list frame) (s : gl_sink) : gl_sink := fold_left (fun s r => snd (gl_drawFrame r s)) rs s.
End Sink.

(** ** The choice of a sink *)

(** What [getContext] gives for a canvas of one pixel. *)
Inductive context := ContextThrows | NoContext | Context (error : Z).

(** [n.isAvailable]: a small texture is uploaded as a try. *)
Definition isAvailable (c : context) : bool := match c with Context err => err =? 0 | _ => false end.

(** [attach]; [webGL] is the option, where it is given. *)
Definition attach (webGL : option bool) (c : context) : bool := match webGL with Some b => b | None => isAvailable c end.

(** ** Colours *)

(** What a colour becomes on the canvas, in steps of 255. *)
Definition shown (q : Q) : Q := Qmax 0 (Qmin (255 * q) 255).

Lemma shiftr_bounds x : (256 * inject_Z (Z.shiftr x 8) <= inject_Z x /\ inject_Z x < 256 * inject_Z (Z.shiftr x 8) + 256)%Q.
Proof.
  rewrite Z.shiftr_div_pow2 by lia. change (2 ^ 8) with 256. pose proof (Z.div_mod x 256 ltac:(lia)). pose proof (Z.mod_pos_bound x 256 ltac:(lia)).
  set (d := x / 256) in *. replace (256%Q) with (inject_Z 256) by done. rewrite <- inject_Z_mult, <- inject_Z_plus, <- Zle_Qle, <- Zlt_Qlt. lia.
Qed.

Lemma clamp_close (d q : Q) (z : Z) : (Qabs (255 * q - inject_Z z) < d)%Q -> (Qabs (shown q - inject_Z (clamp8 z)) < d)%Q.
Proof.
  rewrite !Qabs_Qlt_condition. intros [H1 H2]. unfold shown.
  assert (Hc : clamp8 z = 0 /\ z <= 0 \/ clamp8 z = 255 /\ 255 <= z \/ clamp8 z = z /\ 0 <= z <= 255) by (unfold clamp8; lia).
  assert (Hs : (Qmax 0 (Qmin (255 * q) 255) == 0 /\ 255 * q <= 0
                \/ Qmax 0 (Qmin (255 * q) 255) == 255 /\ 255 <= 255 * q \/ Qmax 0 (Qmin (255 * q) 255) == 255 * q /\ 0 <= 255 * q /\ 255 * q <= 255)%Q).
  { destruct (Q.min_spec (255 * q) 255) as [[Hm Em]|[Hm Em]]; destruct (Q.max_spec 0 (Qmin (255 * q) 255)) as [[Hn En]|[Hn En]]; rewrite En; lra. }
  destruct Hc as [[-> Hz]|[[-> Hz]|[-> [Hz Hz']]]]; rewrite Zle_Qle in Hz; try rewrite Zle_Qle in Hz';
    destruct Hs as [[-> Hq]|[[-> Hq]|[-> [Hq Hq']]]]; cbn [inject_Z] in *; change (inject_Z 0) with 0%Q in *; change (inject_Z 255) with 255%Q in *; lra.
Qed.

(** The three components without rounding, against the whole numbers of the other sink. *)
Definition exact_r (Y Cr : Q) : Q := (Y * (11643828125 # 10000000000) + (159602734375 # 100000000000) * Cr - (87078515625 # 100000000000))%Q.
Definition exact_g (Y Cb Cr : Q) : Q :=
  (Y * (11643828125 # 10000000000) - (39176171875 # 100000000000) * Cb - (81296875 # 100000000) * Cr + (52959375 # 100000000))%Q.
Definition exact_b (Y Cb : Q) : Q := (Y * (11643828125 # 10000000000) + (2017234375 # 1000000000) * Cb - (1081390625 # 1000000000))%Q.

Lemma exact_close (Y Cb Cr : Z) : 0 <= Y <= 255 -> 0 <= Cb <= 255 -> 0 <= Cr <= 255 ->
  (Qabs (255 * exact_r (sample Y) (sample Cr) - inject_Z (Z.shiftr (298 * Y + part_r Cr) 8)) < 3
   /\ Qabs (255 * exact_g (sample Y) (sample Cb) (sample Cr) - inject_Z (Z.shiftr (298 * Y - part_g Cb Cr) 8)) < 3
   /\ Qabs (255 * exact_b (sample Y) (sample Cb) - inject_Z (Z.shiftr (298 * Y + part_b Cb) 8)) < 3)%Q.
Proof.
  intros HY HB HR. unfold exact_r, exact_g, exact_b, sample, part_r, part_g, part_b. rewrite !Zle_Qle in HY, HB, HR.
  change (inject_Z 0) with 0%Q in *. change (inject_Z 255) with 255%Q in *.
  split; [|split]; apply Qabs_Qlt_condition;
    match goal with |- context [Z.shiftr ?x 8] => pose proof (shiftr_bounds x) as [H1 H2]; generalize dependent (Z.shiftr x 8) end; intros k H1 H2;
    unfold Z.sub in H1, H2; rewrite ?inject_Z_plus, ?inject_Z_opp, ?inject_Z_plus, ?inject_Z_mult, ?inject_Z_opp in H1, H2; cbn [inject_Z] in H1, H2;
    change (inject_Z 298) with 298%Q in *; change (inject_Z 409) with 409%Q in *; change (inject_Z 57088) with 57088%Q in *;
    change (inject_Z 100) with 100%Q in *; change (inject_Z 208) with 208%Q in *; change (inject_Z 34816) with 34816%Q in *;
    change (inject_Z 516) with 516%Q in *; change (inject_Z 70912) with 70912%Q in *;
    revert HY HB HR H1 H2; generalize (inject_Z Y) (inject_Z Cb) (inject_Z Cr) (inject_Z k); clear; intros; unfold Qdiv;
    change (/ 255)%Q with (1 # 255)%Q; split; lra.
Qed.

(** *** Rounding *)

(** A device whose numbers between -4 and 4 are off by [e] at most.  (The specification of the language promises an [e] of 2^-8 for [lowp],
    but only between -2 and 2.) *)
Definition accurate (rnd : Q -> Q) (e : Q) : Prop := forall x, (-4 <= x <= 4 -> x - e <= rnd x <= x + e)%Q.

Section Rounding.
Local Open Scope Q_scope.
Variables (rnd : Q -> Q) (e : Q).
Hypothesis Hrnd : accurate rnd e.
Hypothesis He : 0 <= e <= 1 # 256.

Lemma rounded_product (c s q : Q) : 0 <= c <= 21 # 10 -> 0 <= s <= 1 -> q == rnd c * rnd s ->
  c * s - (c + (513 # 256)) * e <= rnd q <= c * s + (c + (513 # 256)) * e.
Proof.
  intros Hc Hs Hq. pose proof (Hrnd c ltac:(lra)) as [C1 C2]. pose proof (Hrnd s ltac:(lra)) as [S1 S2].
  set (a := rnd c - c). set (b := rnd s - s).
  assert (E : q == c * s + c * b + a * s + a * b) by (rewrite Hq; unfold a, b; ring).
  assert (- e <= a <= e) by (unfold a; lra). assert (- e <= b <= e) by (unfold b; lra). clearbody a b.
  assert (- (c * e) <= c * b <= c * e) by nra. assert (- e <= a * s <= e) by nra. assert (- ((1 # 256) * e) <= a * b <= (1 # 256) * e) by nra.
  assert (0 <= c * s <= 21 # 10) by nra. assert (0 <= c * e <= 21 # 2560) by nra.
  pose proof (Hrnd q ltac:(lra)). lra.
Qed.

(** Thirteen times the error of one number bounds that of a component. *)
Lemma fragment_rounded (Y Cb Cr : Q) : 0 <= Y <= 1 -> 0 <= Cb <= 1 -> 0 <= Cr <= 1 ->
  let '(r, g, b) := fragment rnd Y Cb Cr in
  (exact_r Y Cr - 13 * e <= r <= exact_r Y Cr + 13 * e)
  /\ (exact_g Y Cb Cr - 13 * e <= g <= exact_g Y Cb Cr + 13 * e)
  /\ (exact_b Y Cb - 13 * e <= b <= exact_b Y Cb + 13 * e).
Proof.
  intros HY HB HR. unfold fragment, exact_r, exact_g, exact_b.
  pose proof (fun c q H => rounded_product c Y q H HY) as PY. pose proof (fun c q H => rounded_product c Cb q H HB) as PB.
  pose proof (fun c q H => rounded_product c Cr q H HR) as PR.
  specialize (PY (11643828125 # 10000000000) (rnd Y * rnd (11643828125 # 10000000000)) ltac:(lra) ltac:(ring)).
  pose proof (PR (159602734375 # 100000000000) _ ltac:(lra) (Qeq_refl _)) as P1. pose proof (PB (39176171875 # 100000000000) _ ltac:(lra) (Qeq_refl _)) as P2.
  pose proof (PR (81296875 # 100000000) _ ltac:(lra) (Qeq_refl _)) as P3. pose proof (PB (2017234375 # 1000000000) _ ltac:(lra) (Qeq_refl _)) as P4.
  pose proof (Hrnd (87078515625 # 100000000000) ltac:(lra)). pose proof (Hrnd (52959375 # 100000000) ltac:(lra)). pose proof (Hrnd (1081390625 # 1000000000) ltac:(lra)).
  clear PB PR. revert PY P1 P2 P3 P4.
  generalize (rnd (rnd Y * rnd (11643828125 # 10000000000))) (rnd (rnd (159602734375 # 100000000000) * rnd Cr)) (rnd (rnd (39176171875 # 100000000000) * rnd Cb))
    (rnd (rnd (81296875 # 100000000) * rnd Cr)) (rnd (rnd (2017234375 # 1000000000) * rnd Cb)). intros y r1 b1 r2 b2 PY P1 P2 P3 P4.
  split; [|split].
  - pose proof (Hrnd (y + r1) ltac:(lra)). pose proof (Hrnd (rnd (y + r1) - rnd (87078515625 # 100000000000)) ltac:(lra)). lra.
  - pose proof (Hrnd (y - b1) ltac:(lra)). pose proof (Hrnd (rnd (y - b1) - r2) ltac:(lra)).
    pose proof (Hrnd (rnd (rnd (y - b1) - r2) + rnd (52959375 # 100000000)) ltac:(lra)). lra.
  - pose proof (Hrnd (y + b2) ltac:(lra)). pose proof (Hrnd (rnd (y + b2) - rnd (1081390625 # 1000000000)) ltac:(lra)). lra.
Qed.

Lemma sample_range b : (0 <= b <= 255)%Z -> 0 <= sample b <= 1.
Proof.
  rewrite !Zle_Qle. unfold sample, Qdiv. change (inject_Z 0) with 0. change (inject_Z 255) with 255. change (/ 255) with (1 # 255). lra.
Qed.

Lemma close_rounded (q x d : Q) (z : Z) : x - d <= q <= x + d -> Qabs (255 * x - inject_Z z) < 3 -> Qabs (shown q - inject_Z (clamp8 z)) < 3 + 255 * d.
Proof. intros Hq. rewrite Qabs_Qlt_condition. intros Hx. apply clamp_close, Qabs_Qlt_condition. lra. Qed.
End Rounding.


(** ** Stripes *)

Lemma stripe_words_texel n k : (k < 4 * n)%nat -> take 4 (drop (4 * k) (stripe_words n)) = <[(k mod 4)%nat := 255]> [0; 0; 0; 0].
Proof.
  revert k. induction n as [|n IH]; intros k Hk; [lia|]. destruct (Nat.lt_ge_cases k 4) as [Hs|Hs].
  - destruct k as [|[|[|[|k]]]]; [reflexivity..|lia].
  - replace (4 * k)%nat with (16 + 4 * (k - 4))%nat by lia. cbn [stripe_words app]. cbn [Nat.add]. rewrite !skipn_cons.
    rewrite IH by lia. f_equal. replace k with (k - 4 + 1 * 4)%nat at 2 by lia. by rewrite Nat.Div0.mod_add.
Qed.

Lemma stripe_texel n k : 0 < n -> n mod 4 = 0 -> 0 <= k < n -> texel (stripe_bytes n) k = <[Z.to_nat (k mod 4) := 255]> [0; 0; 0; 0].
Proof.
  intros Hn Hm Hk. unfold texel, stripe_bytes. rewrite skipn_firstn_comm, firstn_firstn. rewrite Nat.min_l by lia.
  assert (n <= 4 * ((n + 3) / 4)) by (pose proof (Z.div_mod (n + 3) 4); pose proof (Z.mod_pos_bound (n + 3) 4); lia).
  replace (Z.to_nat (4 * k)) with (4 * Z.to_nat k)%nat by lia. rewrite stripe_words_texel by lia. by rewrite Z2Nat.inj_mod by lia.
Qed.

Lemma pick_byte (j : nat) (l : list Z) : length l = 4%nat -> (j < 4)%nat ->
  (fragmentStripe (<[j := 255%Z]> [0; 0; 0; 0]%Z) l == sample (nth j l 0%Z))%Q.
Proof.
  intros Hl Hj. destruct l as [|a [|b [|c [|d [|]]]]]; try discriminate. unfold fragmentStripe, sample.
  destruct j as [|[|[|[|]]]]; [..|lia]; cbn; field.
Qed.

(** Drawing a plane through the stripes gives every pixel the byte of the plane that belongs to it, when a row is a whole
    number of texels: the texel of the stripes above a pixel, multiplied with the texel that holds four bytes of the
    plane, leaves the byte of the pixel. *)
Theorem stripe_reads_plane (n h x y : Z) (data : list Z) :
  0 < n -> n mod 4 = 0 -> 0 <= x < n -> 0 <= y < h -> Z.of_nat (length data) = n * h ->
  (fragmentStripe (texel (stripe_bytes n) (nearest (2 * x + 1) (2 * n) n))
                  (texel data (y * (n / 4) + nearest (2 * x + 1) (2 * n) (n / 4)))
   == sample (nth (Z.to_nat (y * n + x)) data 0%Z))%Q.
Proof.
  intros Hn Hm Hx Hy Hl. unfold nearest.
  assert (E1 : (2 * x + 1) * n / (2 * n) = x).
  { rewrite Z.div_mul_cancel_r by lia. rewrite Z.add_comm, (Z.mul_comm 2), Z.div_add by lia. done. }
  assert (E4 : n = 4 * (n / 4)) by (pose proof (Z.div_mod n 4); lia).
  assert (E2 : (2 * x + 1) * (n / 4) / (2 * n) = x / 4).
  { rewrite E4 at 2. replace (2 * (4 * (n / 4))) with (8 * (n / 4)) by lia. rewrite Z.div_mul_cancel_r by lia.
    change 8 with (2 * 4). rewrite <- Z.div_div by lia. rewrite Z.add_comm, (Z.mul_comm 2), Z.div_add by lia. done. }
  rewrite E1, E2. assert (Hd : 4 * (y * (n / 4) + x / 4) + x mod 4 = y * n + x) by (pose proof (Z.div_mod x 4); nia).
  pose proof (Z.mod_pos_bound x 4). assert (y * n + n <= n * h) by nia. rewrite stripe_texel by lia. rewrite pick_byte; [|unfold texel; rewrite length_take, length_drop|lia].
  - unfold texel. rewrite nth_firstn. rewrite (proj2 (Nat.ltb_lt _ _)) by lia. rewrite nth_skipn. unfold sample. replace (Z.to_nat (4 * (y * (n / 4) + x / 4)) + Z.to_nat (x mod 4))%nat with (Z.to_nat (y * n + x)); [reflexivity|].
    rewrite <- Z2Nat.inj_add; [f_equal; lia| |lia]. assert (0 <= x / 4) by (apply Z.div_pos; lia). assert (0 <= n / 4) by (apply Z.div_pos; lia). nia.
  - assert (x / 4 + 1 <= n / 4).
    { assert (x / 4 < n / 4); [|lia]. apply Z.div_lt_upper_bound; lia. }
    assert (4 * (y * (n / 4) + x / 4) + 4 <= n * h) by nia. assert (0 <= x / 4) by (apply Z.div_pos; lia). lia.
Qed.

(** ** What a sequence of calls binds and uploads

    A reading of the calls after the documentation of WebGL: [activeTexture] chooses a unit, [bindTexture] binds a
    texture to it, [texImage2D] replaces the picture of the texture bound there. *)

Record view := { unit : Z; bound : Z -> option nat; images : nat -> option (pixels * Z * Z * option (list Z)) }.

Definition see (v : view) (c : call) : view :=
  match c with
  | ActiveTexture k => {| unit := k; bound := bound v; images := images v |}
  | BindTexture t => {| unit := unit v; bound := fun k => if k =? unit v then t else bound v k; images := images v |}
  | TexImage2D f w h d =>
      {| unit := unit v; bound := bound v;
         images := fun i => if bool_decide (bound v (unit v) = Some i) then Some (f, w, h, d) else images v i |}
  | _ => v
  end.
Definition seen (l : list call) : view := fold_left see l {| unit := 0; bound := fun _ => None; images := fun _ => None |}.

#[local] Arguments seen : simpl never.

Lemma seen_app l l' : seen (l ++ l') = fold_left see l' (seen l).
Proof. apply fold_left_app. Qed.

(** Calls that concern no texture. *)
Definition untextured (c : call) : bool :=
  match c with ActiveTexture _ | BindTexture _ | TexImage2D _ _ _ _ | TexSubImage2D _ _ _ _ => false | _ => true end.

Lemma see_untextured l : forall v, forallb untextured l = true -> fold_left see l v = v.
Proof. induction l as [|c l IH]; intros v H; [done|]. cbn in *. apply andb_prop in H as [H1 H2]. rewrite IH by done. by destruct c. Qed.

(** Textures have been made, each for one name. *)
Definition named (s : gl_sink) : Prop :=
  (forall p r i, textures s p r = Some i -> (i < next s)%nat)
  /\ (forall p r p' r' i, textures s p r = Some i -> textures s p' r' = Some i -> p = p' /\ r = r').

(** A step that leaves the names of textures as they are. *)
Definition plain {A} (m : G A) : Prop := forall s, let s' := snd (m s) in
  textures s' = textures s /\ (next s <= next s')%nat /\ exists l, log s' = log s ++ l /\ forallb untextured l = true.

Lemma plain_ret {A} (a : A) : plain (gret a).
Proof. intros s. repeat split; [cbn; lia|]. exists []. by rewrite app_nil_r. Qed.

Lemma plain_look {A} (f : gl_sink -> A) : plain (look f).
Proof. intros s. repeat split; [cbn; lia|]. exists []. by rewrite app_nil_r. Qed.

Lemma plain_throw {A} (e : jserror) : plain (fun s => (@Throw A e, s)).
Proof. intros s. repeat split; [cbn; lia|]. exists []. by rewrite app_nil_r. Qed.

Lemma plain_bind {A B} (m : G A) (k : A -> G B) : plain m -> (forall a, plain (k a)) -> plain (gbind m k).
Proof.
  intros Hm Hk s. unfold gbind. specialize (Hm s). destruct (m s) as [[a|e] s1]; [|exact Hm]. cbn [snd] in *.
  destruct Hm as (H1 & H2 & l & H4 & H5). destruct (Hk a s1) as (K1 & K2 & l' & K4 & K5).
  split; [congruence|]. split; [lia|]. exists (l ++ l'). rewrite K4, H4, app_assoc, forallb_app, H5. done.
Qed.

Lemma plain_emit l : forallb untextured l = true -> plain (emit l).
Proof. intros H s. repeat split; [cbn; lia|]. by exists l. Qed.

Lemma plain_create c : (forall i, untextured (c i) = true) -> plain (create c).
Proof. intros H s. repeat split; [cbn; lia|]. exists [c (next s)]. cbn. by rewrite H. Qed.

Lemma plain_set f : (forall s, textures (f s) = textures s /\ next (f s) = next s /\ log (f s) = log s) -> plain (set f).
Proof. intros H s. destruct (H s) as (H1 & H2 & H3). cbn. rewrite H1, H2, H3. repeat split; [lia|]. exists []. by rewrite app_nil_r. Qed.

#[local] Hint Resolve plain_ret plain_look plain_throw plain_bind plain_emit plain_create : core.

(** Facts that hold before a step and, whether it returns or throws, after it. *)
Definition holds (x : plane_name * Z * Z * list Z) (s : gl_sink) : Prop :=
  let '(p, w, h, b) := x in exists i, textures s p Main = Some i /\ images (seen (log s)) i = Some (LUMINANCE, w, h, Some b).
Definition bound_to (x : Z * plane_name) (s : gl_sink) : Prop :=
  exists i, textures s x.2 Main = Some i /\ bound (seen (log s)) x.1 = Some i.
Definition has (hs : list (plane_name * Z * Z * list Z)) (bs : list (Z * plane_name)) (s : gl_sink) : Prop :=
  named s /\ Forall (fun x => holds x s) hs /\ Forall (fun x => bound_to x s) bs.

Definition leads {A} (P : gl_sink -> Prop) (m : G A) (Q : gl_sink -> Prop) : Prop :=
  forall s, P s -> match m s with (Ok _, s') => Q s' | (Throw _, s') => named s' end.

Lemma leads_bind {A B} P Q R (m : G A) (k : A -> G B) : leads P m Q -> (forall a, leads Q (k a) R) -> leads P (gbind m k) R.
Proof. intros Hm Hk s Hs. unfold gbind. specialize (Hm s Hs). destruct (m s) as [[a|e] s1]; [by apply Hk|done]. Qed.

Lemma has_plain hs bs s s' l : textures s' = textures s -> (next s <= next s')%nat -> log s' = log s ++ l -> forallb untextured l = true ->
  has hs bs s -> has hs bs s'.
Proof.
  intros Ht Hn Hl Hu ([N1 N2] & Hh & Hb). split; [split|split].
  - intros p r i H. rewrite Ht in H. apply N1 in H. lia.
  - rewrite Ht. exact N2.
  - eapply Forall_impl; [exact Hh|]. intros [[[p w] h] b]. unfold holds. by rewrite Ht, Hl, seen_app, see_untextured.
  - eapply Forall_impl; [exact Hb|]. intros x. unfold bound_to. by rewrite Ht, Hl, seen_app, see_untextured.
Qed.

Lemma leads_plain {A} hs bs (m : G A) : plain m -> leads (has hs bs) m (has hs bs).
Proof.
  intros Hm s Hs. destruct (Hm s) as (H1 & H2 & l & H3 & H4). pose proof (has_plain hs bs s _ l H1 H2 H3 H4 Hs) as H.
  destruct (m s) as [[a|e] s1]; [done|apply H].
Qed.

(** A plane that has been uploaded, and the others as before. *)
Lemma leads_upload hs p i h b : Forall (fun x => x.1.1.1 <> p) hs ->
  leads (has hs []) (upload false p i h b) (has ((p, i, h, b) :: hs) []).
Proof.
  intros Hp s ([N1 N2] & Hh & _). unfold upload, texture, gbind, look, create, set, gret, emit. cbn.
  destruct (textures s p Main) as [k|] eqn:E; cbn.
  - split; [by split|]. split; [|constructor]. constructor.
    + exists k. split; [done|]. cbn. rewrite !seen_app. cbn. by rewrite bool_decide_true.
    + apply Forall_forall. intros [[[q w] g] c] Hx. destruct (proj1 (Forall_forall _ _) Hh _ Hx) as (j & H1 & H2). exists j. split; [done|]. cbn. rewrite !seen_app. cbn.
      rewrite bool_decide_false; [done|]. intros [= <-]. destruct (N2 _ _ _ _ _ E H1) as [<- _]. by apply (proj1 (Forall_forall _ _) Hp _ Hx).
  - split; [split|split; [|constructor]].
    + intros q r j. cbn. case_bool_decide as Hd; [intros [= <-]; lia|]. intros H. apply N1 in H. lia.
    + intros q r q' r' j. cbn. case_bool_decide as Hd; case_bool_decide as Hd'; [naive_solver|..].
      * intros [= <-] H. apply N1 in H. lia.
      * intros H [= <-]. apply N1 in H. lia.
      * apply N2.
    + constructor.
      * exists (next s). split; cbn; [by rewrite bool_decide_true|]. rewrite !seen_app. cbn. by rewrite bool_decide_true.
      * apply Forall_forall. intros [[[q w] g] c] Hx. destruct (proj1 (Forall_forall _ _) Hh _ Hx) as (j & H1 & H2). exists j.
        pose proof (proj1 (Forall_forall _ _) Hp _ Hx) as Hne. cbn in Hne. split; cbn; [rewrite bool_decide_false; [done|naive_solver]|]. rewrite !seen_app. cbn.
        rewrite bool_decide_false; [done|]. intros [= <-]. apply N1 in H1. lia.
Qed.

Lemma leads_attach hs bs p k : (exists w h b, In (p, w, h, b) hs) -> Forall (fun x => x.1 <> k) bs ->
  leads (has hs bs) (attach_texture p k) (has hs ((k, p) :: bs)).
Proof.
  intros (w & h & b & Hin) Hk s (N & Hh & Hb). unfold attach_texture, gbind, look, emit.
  assert (Hl : forall t, fold_left see (match program s with Some u => [GetUniformLocation u (UPlane p)] | None => [] end ++ t) = fold_left see t) by (by intros; destruct (program s)).
  set (l := [ActiveTexture k; BindTexture (textures s p Main); TexParameters LINEAR]
            ++ match program s with Some u => [GetUniformLocation u (UPlane p)] | None => [] end ++ [Uniform1i (uniform_of (program s) (UPlane p)) k]).
  assert (Hv : forall v, fold_left see l v = {| unit := k; bound := fun k' => if k' =? k then textures s p Main else bound v k'; images := images v |}).
  { intros v. unfold l. rewrite fold_left_app, Hl. reflexivity. }
  split; [exact N|]. split.
  - eapply Forall_impl; [exact Hh|]. intros [[[q w'] h'] b']. unfold holds. cbn. by rewrite seen_app, Hv.
  - constructor.
    + destruct (proj1 (List.Forall_forall _ _) Hh _ Hin) as (i & H1 & _). exists i. split; [done|]. cbn. rewrite seen_app, Hv. cbn. by rewrite Z.eqb_refl.
    + apply Forall_forall. intros x Hx. destruct (proj1 (Forall_forall _ _) Hb _ Hx) as (i & H1 & H2). exists i. split; [done|]. cbn. rewrite seen_app, Hv. cbn.
      by rewrite (proj2 (Z.eqb_neq _ _) (proj1 (Forall_forall _ _) Hk _ Hx)).
Qed.

Section Frames.
Variable compiled linked : nat -> bool.
Variable shader_log program_log : nat -> jsstr.

Lemma plain_compile k t : plain (compile compiled shader_log k t).
Proof. unfold compile. apply plain_bind; [auto|]. intros T. apply plain_bind; [auto|]. intros _. destruct (compiled T); auto. Qed.

Lemma plain_link a b : plain (link compiled linked shader_log program_log a b).
Proof.
  unfold link. apply plain_bind; [apply plain_compile|]. intros T. apply plain_bind; [apply plain_compile|]. intros S.
  apply plain_bind; [auto|]. intros A. apply plain_bind; [auto|]. intros _. destruct (linked A); auto.
Qed.

Lemma plain_init stripe : plain (init stripe compiled linked shader_log program_log).
Proof.
  unfold init. apply plain_bind.
  - destruct stripe; [|auto]. apply plain_bind; [apply plain_link|]. intros f. repeat first [apply plain_set; by repeat split | apply plain_bind; [|intros] | auto].
  - intros _. apply plain_bind; [apply plain_link|]. intros u. repeat first [apply plain_set; by repeat split | apply plain_bind; [|intros] | auto].
Qed.

Lemma plain_clear : plain clear.
Proof. apply plain_bind; auto. Qed.

Lemma log_with l s : log (with_log l s) = log s ++ l.
Proof. reflexivity. Qed.

Lemma draws_has r : leads (has [] []) (gl_drawFrame false compiled linked shader_log program_log r)
  (fun s => exists l, log s = l ++ [DrawArrays 6]
    /\ has [(UTextureCr, stride (v r), chromaHeight (fformat r), bytes (v r)); (UTextureCb, stride (u r), chromaHeight (fformat r), bytes (u r));
            (UTextureY, stride (y r), height (fformat r), bytes (y r))]
           [(2, UTextureCr); (1, UTextureCb); (0, UTextureY)] s).
Proof.
  unfold gl_drawFrame. eapply leads_bind; [apply leads_plain, plain_look|]. intros s0.
  eapply leads_bind; [apply leads_plain|intros _].
  { case_match; [|auto]. apply plain_bind; [by apply plain_set|]. intros _. apply plain_clear. }
  eapply leads_bind; [apply leads_plain; case_match; [apply plain_init|auto]|intros _].
  eapply leads_bind; [apply leads_plain|intros _].
  { case_match; [|auto]. apply plain_bind; auto. }
  unfold draw_planes. eapply leads_bind; [apply leads_upload; repeat constructor|intros _].
  eapply leads_bind; [apply leads_upload; repeat constructor; discriminate|intros _].
  eapply leads_bind; [apply leads_upload; repeat constructor; discriminate|intros _].
  eapply leads_bind; [apply leads_plain; auto|intros _].
  eapply leads_bind; [apply leads_plain, plain_look|]. intros s1.
  eapply leads_bind; [apply leads_plain; auto|intros _].
  eapply leads_bind; [apply leads_attach; [repeat eexists; right; right; left; reflexivity|repeat constructor]|intros _].
  eapply leads_bind; [apply leads_attach; [repeat eexists; right; left; reflexivity|repeat constructor; discriminate]|intros _].
  eapply leads_bind; [apply leads_attach; [repeat eexists; left; reflexivity|repeat constructor; discriminate]|intros _].
  intros s Hs. unfold emit. rewrite !app_assoc. eexists. split; [rewrite log_with; apply app_assoc|].
  refine (has_plain _ _ s (with_log _ s) _ eq_refl _ (log_with _ _) _ Hs); [cbn; lia|]. by destruct (program s), (positions s), (luma_positions s), (chroma_positions s).
Qed.

Lemma draws_named rs : forall s, named s -> named (gl_draws false compiled linked shader_log program_log rs s).
Proof.
  induction rs as [|r rs IH]; intros s Hs; [done|]. cbn [gl_draws fold_left]. apply IH. pose proof (draws_has r s) as H.
  assert (H0 : has [] [] s) by (split; [done|by split]). specialize (H H0). destruct (gl_drawFrame _ _ _ _ _ r s) as [[a|e] s']; cbn [snd]; [|exact H].
  destruct H as (l & _ & H & _). exact H.
Qed.

(** Where no stripes are used, a frame is drawn from its own planes: whatever was drawn before, a call that returns ends by
    drawing, and then the three units hold the textures of the three planes, with the bytes, the stride and the height
    of this frame. *)
Theorem draws_current_frame (c : Z * Z) (s0 : gl_sink) (rs : list frame) (r : frame) (s' : gl_sink) :
  new_gl_sink true c = Ok s0 ->
  gl_drawFrame false compiled linked shader_log program_log r (gl_draws false compiled linked shader_log program_log rs s0) = (Ok tt, s') ->
  exists l i j k, log s' = l ++ [DrawArrays 6]
    /\ bound (seen (log s')) 0 = Some i /\ images (seen (log s')) i = Some (LUMINANCE, stride (y r), height (fformat r), Some (bytes (y r)))
    /\ bound (seen (log s')) 1 = Some j /\ images (seen (log s')) j = Some (LUMINANCE, stride (u r), chromaHeight (fformat r), Some (bytes (u r)))
    /\ bound (seen (log s')) 2 = Some k /\ images (seen (log s')) k = Some (LUMINANCE, stride (v r), chromaHeight (fformat r), Some (bytes (v r))).
Proof.
  intros H0 H. assert (Hn : named s0) by (injection H0 as <-; split; intros; discriminate).
  pose proof (draws_has r (gl_draws false compiled linked shader_log program_log rs s0)) as Hd. rewrite H in Hd.
  destruct Hd as (l & Hl & _ & Hh & Hb); [split; [by apply draws_named|by split]|].
  repeat match goal with H : Forall _ (_ :: _) |- _ => apply Forall_cons in H as [? H] end. clear Hh Hb.
  repeat match goal with H : holds _ _ |- _ => destruct H as (? & ? & ?) | H : bound_to _ _ |- _ => destruct H as (? & ? & ?) end.
  cbn [fst snd] in *. simplify_eq. eauto 15.
Qed.
End Frames.

(** ** What a later frame does not change *)

Section Kept.
Variable stripe : bool.
Variable compiled linked : nat -> bool.
Variable shader_log program_log : nat -> jsstr.

(** A step whose calls all pass a test. *)
Definition calls_only {A} (Q : call -> bool) (m : G A) : Prop := forall s, exists l, log (snd (m s)) = log s ++ l /\ forallb Q l = true.

Lemma only_bind {A B} Q (m : G A) (k : A -> G B) : calls_only Q m -> (forall a, calls_only Q (k a)) -> calls_only Q (gbind m k).
Proof.
  intros Hm Hk s. unfold gbind. destruct (Hm s) as (l & H1 & H2). destruct (m s) as [[a|e] s1]; [|by exists l]. cbn [snd] in H1.
  destruct (Hk a s1) as (l' & H3 & H4). exists (l ++ l'). by rewrite H3, H1, app_assoc, forallb_app, H2.
Qed.

Lemma only_emit Q l : forallb Q l = true -> calls_only Q (emit l).
Proof. intros H s. by exists l. Qed.

Lemma only_silent {A} Q (m : G A) : (forall s, log (snd (m s)) = log s) -> calls_only Q m.
Proof. intros H s. exists []. by rewrite app_nil_r. Qed.

Lemma only_create Q c : (forall i, Q (c i) = true) -> calls_only Q (create c).
Proof. intros H s. exists [c (next s)]. cbn. by rewrite H. Qed.

#[local] Hint Resolve only_emit only_create : core.
#[local] Hint Extern 1 (calls_only _ (gret _)) => by apply only_silent : core.
#[local] Hint Extern 1 (calls_only _ (look _)) => by apply only_silent : core.
#[local] Hint Extern 1 (calls_only _ (set _)) => by apply only_silent : core.
#[local] Hint Extern 2 (calls_only _ (gbind _ _)) => apply only_bind; [|intros] : core.

Definition no_corners (c : call) : bool := match c with BufferData _ => false | _ => true end.

Lemma only_texture p r : calls_only no_corners (texture p r).
Proof. unfold texture. apply only_bind; [auto|]. intros [i|]; auto 10. Qed.
#[local] Hint Resolve only_texture : core.

Lemma only_upload p i h b : calls_only no_corners (upload stripe p i h b).
Proof.
  unfold upload. do 2 (apply only_bind; [auto|]; intros). destruct stripe; [|auto].
  do 3 (apply only_bind; [auto|]; intros). apply only_bind; [apply only_emit; by destruct a1|]. intros _.
  do 3 (apply only_bind; [auto|]; intros). destruct a4; [auto|]. apply only_bind; [|auto].
  unfold build_stripe. apply only_bind; [auto|]. intros l. destruct (find_stripes i l); auto 10.
Qed.

Lemma only_unpack p i h : calls_only no_corners (unpack p i h).
Proof.
  unfold unpack. do 2 (apply only_bind; [auto|]; intros). apply only_bind; [destruct (framebuffers a p); auto 10|].
  intros A. apply only_emit. rewrite !forallb_app. reflexivity.
Qed.

Lemma only_attach p k : calls_only no_corners (attach_texture p k).
Proof. unfold attach_texture. apply only_bind; [auto|]. intros s. apply only_emit. rewrite !forallb_app. by destruct (program s). Qed.
#[local] Hint Resolve only_upload only_unpack only_attach : core.

Lemma only_draw_planes r : calls_only no_corners (draw_planes stripe r).
Proof.
  unfold draw_planes. do 3 (apply only_bind; [auto|]; intros). apply only_bind; [destruct stripe; auto 10|]. intros _.
  do 5 (apply only_bind; [auto|]; intros). by apply only_emit.
Qed.

(** The corners of the visible part are set again only when the size of the display changes: a frame of the same display
    size is drawn with the corners of an earlier frame, whatever its own cropping and strides. *)
Theorem corners_kept (r : frame) (s : gl_sink) (k : nat) :
  program s = Some k -> canvas s = (displayWidth (fformat r), displayHeight (fformat r)) ->
  exists l, log (snd (gl_drawFrame stripe compiled linked shader_log program_log r s)) = log s ++ l /\ forallb no_corners l = true.
Proof.
  intros Hp Hc. unfold gl_drawFrame. unfold gbind at 1. cbn [look]. rewrite Hp, (bool_decide_true (canvas s = _)) by done.
  rewrite bool_decide_false by done. cbn [orb negb]. apply only_draw_planes.
Qed.
End Kept.

Section Sizes.
Variable k : nat.
Variable t : plane_name -> role -> nat.
Variable f : plane_name -> nat.

Definition complete (s : gl_sink) : Prop :=
  program s = Some k /\ (forall p o, textures s p o = Some (t p o)) /\ (forall p, framebuffers s p = Some (f p)).
Definition no_new_size (c : call) : bool := match c with TexImage2D _ _ _ _ => false | _ => true end.
Definition reuses {A} (m : G A) : Prop := forall s, complete s -> exists a l, m s = (Ok a, with_log l s) /\ forallb no_new_size l = true.

Lemma with_log_app l l' s : with_log l' (with_log l s) = with_log (l ++ l') s.
Proof. unfold with_log. cbn. by rewrite app_assoc. Qed.

Lemma with_log_nil s : with_log [] s = s.
Proof. destruct s. unfold with_log. cbn. by rewrite app_nil_r. Qed.

Lemma reuses_bind {A B} (m : G A) (h : A -> G B) : reuses m -> (forall a, reuses (h a)) -> reuses (gbind m h).
Proof.
  intros Hm Hh s Hs. unfold gbind. destruct (Hm s Hs) as (a & l & -> & H1). destruct (Hh a (with_log l s)) as (b & l' & -> & H2); [exact Hs|].
  exists b, (l ++ l'). by rewrite with_log_app, forallb_app, H1.
Qed.

Lemma reuses_emit l : forallb no_new_size l = true -> reuses (emit l).
Proof. intros H s _. by exists tt, l. Qed.

Lemma reuses_silent {A} (m : G A) : (forall s, complete s -> exists a, m s = (Ok a, s)) -> reuses m.
Proof. intros H s Hs. destruct (H s Hs) as [a ->]. exists a, []. by rewrite with_log_nil. Qed.

Lemma reuses_texture p o : reuses (texture p o).
Proof. apply reuses_silent. intros s (_ & Ht & _). exists (t p o). unfold texture, gbind, look. by rewrite Ht. Qed.

(** What is looked up is there. *)
Lemma reuses_found {A B} (g : gl_sink -> A) (h : A -> G B) : (forall s, complete s -> reuses (h (g s))) -> reuses (gbind (look g) h).
Proof. intros H s Hs. by apply (H s Hs s). Qed.

#[local] Hint Resolve reuses_emit reuses_texture : core.

Lemma reuses_upload p i h b : reuses (upload true p i h b).
Proof.
  unfold upload. do 2 (apply reuses_bind; [auto|intros]). apply reuses_found. intros s (_ & -> & _).
  do 3 (apply reuses_bind; [auto|intros]). apply reuses_found. intros s' (_ & -> & _).
  do 2 (apply reuses_bind; [auto|intros]). apply reuses_silent. intros; by eexists.
Qed.

Lemma reuses_unpack p i h : reuses (unpack p i h).
Proof.
  unfold unpack. apply reuses_found. intros s (Hp & Ht & Hf). apply reuses_bind; [auto|intros _]. rewrite Hf.
  apply reuses_bind; [apply reuses_silent; intros; by eexists|]. intros A. by apply reuses_emit.
Qed.

Lemma reuses_attach p j : reuses (attach_texture p j).
Proof. unfold attach_texture. apply reuses_found. intros s (-> & _). by apply reuses_emit. Qed.
#[local] Hint Resolve reuses_upload reuses_unpack reuses_attach : core.

(** With stripes the textures keep the sizes of the first frame: the planes of a later frame of the same display size are
    written into them from the origin, and no texture gets a new size, whatever the strides and heights of the frame. *)
Theorem stripe_sizes_kept (compiled linked : nat -> bool) (shader_log program_log : nat -> jsstr) (r : frame) (s : gl_sink) :
  complete s -> canvas s = (displayWidth (fformat r), displayHeight (fformat r)) ->
  exists l, gl_drawFrame true compiled linked shader_log program_log r s = (Ok tt, with_log l s) /\ forallb no_new_size l = true.
Proof.
  intros Hs Hc. pose proof Hs as [Hp _]. unfold gl_drawFrame. unfold gbind at 1. cbn [look].
  rewrite Hp, (bool_decide_true (canvas s = _)), bool_decide_false by done. cbn [orb negb].
  change (exists l, draw_planes true r s = (Ok tt, with_log l s) /\ forallb no_new_size l = true).
  assert (H : reuses (draw_planes true r)).
  { unfold draw_planes. do 3 (apply reuses_bind; [auto|intros _]).
    apply reuses_bind; [do 2 (apply reuses_bind; [auto|intros _]); auto|intros _].
    apply reuses_found. intros s' _. do 4 (apply reuses_bind; [auto|intros _]). by apply reuses_emit. }
  destruct (H s Hs) as ([] & l & -> & Hl). by exists l.
Qed.
End Sizes.

(** ** Two frames *)

Definition all_well : nat -> bool := fun _ => true.
Definition no_text : nat -> jsstr := fun _ => [].
Definition gl_frame (crop : Z) : frame := {|
  fformat := {| width := 8; height := 2; chromaWidth := 4; chromaHeight := 1; cropLeft := crop; cropTop := 0; cropWidth := 4; cropHeight := 2;
                displayWidth := 4; displayHeight := 2 |};
  y := {| bytes := repeat 16 16; stride := 8 |}; u := {| bytes := repeat 128 4; stride := 4 |}; v := {| bytes := repeat 128 4; stride := 4 |} |}.
Definition gl_start : gl_sink := snd (clear (fresh_sink (300, 150))).

Lemma draws_current_witness :
  new_gl_sink true (300, 150) = Ok gl_start
  /\ exists l i j k, let s' := gl_draws false all_well all_well no_text no_text [gl_frame 0; gl_frame 2] gl_start in
     log s' = l ++ [DrawArrays 6]
    /\ bound (seen (log s')) 0 = Some i /\ images (seen (log s')) i = Some (LUMINANCE, 8, 2, Some (repeat 16 16))
    /\ bound (seen (log s')) 1 = Some j /\ images (seen (log s')) j = Some (LUMINANCE, 4, 1, Some (repeat 128 4))
    /\ bound (seen (log s')) 2 = Some k /\ images (seen (log s')) k = Some (LUMINANCE, 4, 1, Some (repeat 128 4)).
Proof.
  split; [reflexivity|].
  apply (draws_current_frame all_well all_well no_text no_text (300, 150) gl_start [gl_frame 0] (gl_frame 2)
           (gl_draws false all_well all_well no_text no_text [gl_frame 0; gl_frame 2] gl_start)); [reflexivity|].
  vm_compute. reflexivity.
Defined.

(** A device with sixteen binary digits behind the point. *)
Definition fixed16 (x : Q) : Q := (Qfloor (x * 65536) # 65536)%Q.

Lemma fixed16_accurate : accurate fixed16 (1 # 65536).
Proof.
  intros x _. unfold fixed16. rewrite (Qmake_Qdiv (Qfloor (x * 65536)) 65536). unfold Qdiv. change (/ inject_Z 65536)%Q with (1 # 65536)%Q.
  pose proof (Qfloor_le (x * 65536)) as H1. pose proof (Qlt_floor (x * 65536)) as H2. rewrite inject_Z_plus in H2. change (inject_Z 1) with 1%Q in H2.
  generalize dependent (inject_Z (Qfloor (x * 65536))). intros f ? ?. lra.
Qed.


Definition stripe_plane : list Z := [7; 8; 9; 10; 11; 12; 13; 14].
Lemma stripe_reads_witness :
  (fragmentStripe (texel (stripe_bytes 4) (nearest 5 8 4)) (texel stripe_plane (1 * (4 / 4) + nearest 5 8 (4 / 4))) == sample 13)%Q.
Proof. apply (stripe_reads_plane 4 2 2 1 stripe_plane); first [lia|reflexivity]. Defined.

(** The second frame shows the part from column 2 on, and is drawn with the corners of the part from column 0 on. *)
Example stale_corners :
  let corners_of s := List.filter (fun c => negb (no_corners c)) (log s) in
  let s := gl_draws false all_well all_well no_text no_text [gl_frame 0] gl_start in
  let s' := gl_draws false all_well all_well no_text no_text [gl_frame 0; gl_frame 2] gl_start in
  corners_of s' = corners_of s /\ corners (fformat (gl_frame 2)) 8 1 <> corners (fformat (gl_frame 0)) 8 1.
Proof. vm_compute. split; [reflexivity|discriminate]. Qed.
