(* ===== verification/OpusCxx.v ===== *)
(** * Exceptions of C++, the stack cookie and memory imports of the Opus module
      ([integrations/lan-remote-access/rustdesk-web-open/libopus.js])

    The record the runtime keeps in front of a thrown C++ object, the words that reveal
    a stack overflow, and the small functions the module imports or the runtime wraps
    around calls: [copyWithin], the refusal to grow the memory, [withStackSave],
    [handleException] and [warnOnce]. *)

From stdpp Require Import base list numbers strings.
From Stdlib Require Import ZArith Lia.
From S2P Require Import Prelude JsString OpusText OpusValue.
Local Open Scope Z_scope.

(** ** The record in front of a thrown object *)

Definition ___cxa_allocate_exception `{Exports} (size : Z) (s : cstate) : Z * cstate :=
  let '(block, s) := _malloc (size + 16) s in (block + 16, s).

(** [ExceptionInfo]: [excPtr] is the object, its record the 16 bytes before it. *)
Definition info_ptr (excPtr : Z) : Z := excPtr - 16.

Section Info.
Variable excPtr : Z.

Definition set_type (m : mem) (type : Z) : mem := store32 m (js_sar (info_ptr excPtr + 4) 2) type.
Definition get_type (m : mem) : option Z := load32 m (js_sar (info_ptr excPtr + 4) 2).
Definition set_destructor (m : mem) (destructor : Z) : mem := store32 m (js_sar (info_ptr excPtr + 8) 2) destructor.
Definition get_destructor (m : mem) : option Z := load32 m (js_sar (info_ptr excPtr + 8) 2).
Definition set_refcount (m : mem) (refcount : Z) : mem := store32 m (js_sar (info_ptr excPtr) 2) refcount.

Definition set_caught (m : mem) (caught : bool) : mem := store8 m (js_sar (info_ptr excPtr + 12) 0) (if caught then 1 else 0).
Definition set_rethrown (m : mem) (rethrown : bool) : mem := store8 m (js_sar (info_ptr excPtr + 13) 0) (if rethrown then 1 else 0).

(** [undefined != 0] holds. *)
Definition not_zero (b : option Z) : bool := match b with Some b => negb (b =? 0) | None => true end.
Definition get_caught (m : mem) : bool := not_zero (load8 m (js_sar (info_ptr excPtr + 12) 0)).
Definition get_rethrown (m : mem) : bool := not_zero (load8 m (js_sar (info_ptr excPtr + 13) 0)).

Definition info_init (m : mem) (type destructor : Z) : mem :=
  let m := set_type m type in
  let m := set_destructor m destructor in
  let m := set_refcount m 0 in
  let m := set_caught m false in
  set_rethrown m false.

(** A sum with [undefined] is [NaN], which is stored as [0]. *)
Definition store_sum (m : mem) (value : option Z) (d : Z) : mem :=
  store32 m (js_sar (info_ptr excPtr) 2) (match value with Some v => v + d | None => 0 end).

Definition add_ref (m : mem) : mem := store_sum m (load32 m (js_sar (info_ptr excPtr) 2)) 1.

Definition release_ref (m : mem) : result bool * mem :=
  let prev := load32 m (js_sar (info_ptr excPtr) 2) in
  let m := store_sum m prev (-1) in
  match prev with
  | Some v => if 0 <? v then (Ok (v =? 1), m) else (Throw aborted, m)
  | None => (Throw aborted, m)
  end.

(** [___cxa_throw]; [throws] holds [exceptionLast] and [uncaughtExceptionCount].  The text is what is thrown. *)
Record throws := { exceptionLast : Z; uncaughtExceptionCount : Z }.

Definition ___cxa_throw (type destructor : Z) (m : mem) (t : throws) : jsstr * mem * throws :=
  (string_of_Z excPtr ++ js " - Exception catching is disabled, this exception cannot be caught. Compile with -s NO_DISABLE_EXCEPTION_CATCHING or -s EXCEPTION_CATCHING_ALLOWED=[..] to catch.",
   info_init m type destructor,
   {| exceptionLast := excPtr; uncaughtExceptionCount := uncaughtExceptionCount t + 1 |}).
End Info.

(** ** The stack cookie *)

Definition load32u (m : mem) (i : Z) : option Z := option_map to_uint32 (load32 m i).

(** [max] is the answer of [_emscripten_stack_get_end]. *)
Definition writeStackCookie (max : Z) (m : mem) : result mem :=
  if js_and max 3 =? 0 then
    let m := store32 m (js_sar (max + 4) 2) 0x2135467 in
    let m := store32 m (js_sar (max + 8) 2) 0x89BACDFE in
    Ok (store32 m 0 0x63736d65)
  else Throw aborted.

Definition is_word_value (w : option Z) (v : Z) : bool := match w with Some u => u =? v | None => false end.

(** [toString] of [undefined] is a TypeError, before [abort] is called. *)
Definition checkStackCookie (ABORT : bool) (max : Z) (m : mem) : result unit :=
  if ABORT then Ok tt
  else
    let cookie1 := load32u m (js_sar (max + 4) 2) in
    let cookie2 := load32u m (js_sar (max + 8) 2) in
    if negb (is_word_value cookie1 0x2135467) || negb (is_word_value cookie2 0x89BACDFE) then
      match cookie1, cookie2 with
      | Some _, Some _ => Throw aborted
      | _, _ => Throw (PlatformError "TypeError")
      end
    else if negb (is_word_value (load32 m 0) 0x63736d65) then Throw aborted
    else Ok tt.

(** ** Memory *)

(** [copyWithin] of a typed array: positions may count from the end, and the range is cut to the array. *)
Definition clamp_index (x len : Z) : Z := if x <? 0 then Z.max (len + x) 0 else Z.min x len.

Definition copyWithin (m : mem) (target start finish : Z) : mem :=
  let len := Z.of_nat (length m) in
  let to := clamp_index target len in
  let from := clamp_index start len in
  let final := clamp_index finish len in
  let count := Z.min (final - from) (len - to) in
  if 0 <? count then
    take (Z.to_nat to) m ++ take (Z.to_nat count) (drop (Z.to_nat from) m) ++ drop (Z.to_nat (to + count)) m
  else m.

Definition _emscripten_memcpy_big (m : mem) (dest src num : Z) : mem := copyWithin m dest src (src + num).

(** [fill] cuts its range in the same way. *)
Definition fill (m : mem) (value start finish : Z) : mem :=
  let len := Z.of_nat (length m) in
  let k := clamp_index start len in
  let final := clamp_index finish len in
  if k <? final then take (Z.to_nat k) m ++ replicate (Z.to_nat (final - k)) (value mod 256) ++ drop (Z.to_nat final) m else m.

Definition zeroMemory (m : mem) (address size : Z) : mem := fill m 0 address (address + size).

(** [Math.ceil(size / alignment) * alignment], for a positive alignment or none. *)
Definition alignMemory (size alignment : Z) : result Z :=
  if alignment =? 0 then Throw aborted else Ok (- (- size / alignment) * alignment).

Definition abortOnCannotGrowMemory (requestedSize : Z) : result Z := Throw aborted.
Definition _emscripten_resize_heap (requestedSize : Z) : result Z := abortOnCannotGrowMemory (to_uint32 requestedSize).

(** ** Calls *)

Definition withStackSave `{Exports} {A} (f : cstate -> result A * cstate) (s : cstate) : result A * cstate :=
  let stack := stackSave s in
  match f s with
  | (Ok ret, s) => (Ok ret, stackRestore stack s)
  | (Throw e, s) => (Throw e, s)
  end.

Inductive thrown :=
| ExitStatus (status : Z)
| ThrownText (text : jsstr)
| ThrownOther (e : jserror).

(** [quit_] of a page or worker throws what it is given. *)
Definition quit_ (status : Z) (toThrow : thrown) : Z + thrown := inr toThrow.

Definition handleException (EXITSTATUS : Z) (e : thrown) : Z + thrown :=
  match e with
  | ExitStatus _ => inl EXITSTATUS
  | ThrownText text => if str_eqb text (js "unwind") then inl EXITSTATUS else quit_ 1 e
  | ThrownOther _ => quit_ 1 e
  end.

(** [warnOnce] with the texts shown so far, and what [err] was given.  No text is the name of a property of
    [Object.prototype]. *)
Definition warnOnce (text : jsstr) (s : list jsstr * list jsstr) : list jsstr * list jsstr :=
  let '(shown, errs) := s in
  if bool_decide (text ∈ shown) then s else (text :: shown, errs ++ [text]).

(** ** The record as an abstract value *)

Record exc := { etype : Z; edestructor : Z; erefs : Z; ecaught : bool; erethrown : bool }.

Definition with_refs (x : exc) (n : Z) : exc :=
  {| etype := etype x; edestructor := edestructor x; erefs := n; ecaught := ecaught x; erethrown := erethrown x |}.

(** The object lies in the memory with its record before it, as the allocator places it. *)
Definition placed (m : mem) (e : Z) : Prop := 16 <= e /\ e mod 4 = 0 /\ e <= Z.of_nat (length m) /\ e < 2 ^ 31.

(** The record of [e] in [m] is [x]. *)
Record holds (m : mem) (e : Z) (x : exc) : Prop := {
  holds_refs : load32 m (e / 4 - 4) = Some (erefs x);
  holds_type : load32 m (e / 4 - 3) = Some (etype x);
  holds_destructor : load32 m (e / 4 - 2) = Some (edestructor x);
  holds_caught : load8 m (e - 4) = Some (Z.b2z (ecaught x));
  holds_rethrown : load8 m (e - 3) = Some (Z.b2z (erethrown x))
}.

Lemma word_slot m e k : placed m e -> 0 <= k < 4 -> js_sar (info_ptr e + 4 * k) 2 = e / 4 - 4 + k.
Proof.
  intros (H16 & Ha & _ & He) Hk. unfold info_ptr. rewrite js_sar_small by lia. change (2 ^ 2) with 4.
  Z.to_euclidean_division_equations; lia.
Qed.

Lemma byte_slot m e k : placed m e -> 0 <= k < 16 -> js_sar (info_ptr e + k) 0 = e - 16 + k.
Proof. intros (H16 & _ & _ & He) Hk. unfold info_ptr. rewrite js_sar_small by lia. by rewrite Z.div_1_r. Qed.

Lemma placed_length m m' e : length m' = length m -> placed m e -> placed m' e.
Proof. unfold placed. intros ->. done. Qed.

Lemma placed_store8 m i v e : placed m e -> placed (store8 m i v) e.
Proof. apply placed_length, store8_length. Qed.
Lemma placed_store32 m i v e : placed m e -> placed (store32 m i v) e.
Proof. apply placed_length, store32_length. Qed.
#[local] Hint Resolve placed_store8 placed_store32 : core.

(** Only the record changes. *)
Lemma only_between_store32 lo hi m i v : lo <= 4 * i -> 4 * i + 4 <= hi -> only_between lo hi m (store32 m i v).
Proof. intros H1 H2. split; [apply store32_length|]. intros j Hj. apply load8_store32_other. lia. Qed.

(** Brings the operations on the record of [e] to words and bytes at multiples of four from [e]. *)
Lemma ops_slots m e : placed m e ->
  (forall t, set_type e m t = store32 m (e / 4 - 3) t) /\ get_type e m = load32 m (e / 4 - 3)
  /\ (forall d, set_destructor e m d = store32 m (e / 4 - 2) d) /\ get_destructor e m = load32 m (e / 4 - 2)
  /\ (forall n, set_refcount e m n = store32 m (e / 4 - 4) n)
  /\ (forall b, set_caught e m b = store8 m (e - 4) (Z.b2z b)) /\ get_caught e m = not_zero (load8 m (e - 4))
  /\ (forall b, set_rethrown e m b = store8 m (e - 3) (Z.b2z b)) /\ get_rethrown e m = not_zero (load8 m (e - 3))
  /\ js_sar (info_ptr e) 2 = e / 4 - 4.
Proof.
  intros Hp.
  assert (W : forall j k z, 0 <= k < 4 -> j = 4 * k -> z = e / 4 - 4 + k -> js_sar (info_ptr e + j) 2 = z) by (intros; subst; by apply (word_slot m)).
  assert (B : forall k z, 0 <= k < 16 -> z = e - 16 + k -> js_sar (info_ptr e + k) 0 = z) by (intros; subst; by apply (byte_slot m)).
  unfold set_type, get_type, set_destructor, get_destructor, set_refcount, set_caught, get_caught, set_rethrown, get_rethrown.
  rewrite (W 4 1 (e / 4 - 3)), (W 8 2 (e / 4 - 2)), (B 12 (e - 4)), (B 13 (e - 3)) by lia.
  assert (js_sar (info_ptr e) 2 = e / 4 - 4) as -> by (rewrite <- (Z.add_0_r (info_ptr e)); apply (W 0 0); lia).
  repeat split; intros []; done.
Qed.

(** What a store to one field leaves of the others. *)
Ltac field_read e :=
  repeat first
    [ rewrite load32_store_same by (repeat (rewrite store32_length || rewrite store8_length); Z.to_euclidean_division_equations; lia)
    | rewrite load8_store_same by (repeat (rewrite store32_length || rewrite store8_length); lia)
    | rewrite load32_store_other by lia
    | rewrite load32_store8_other by (Z.to_euclidean_division_equations; lia)
    | rewrite load8_store32_other by (Z.to_euclidean_division_equations; lia)
    | rewrite store8_other by lia ].

(** The setters change their field of the record and nothing else, and the getters read it. *)
Theorem exception_fields (m : mem) (e : Z) (x : exc) (t d n : Z) (b : bool) :
  placed m e -> holds m e x ->
  holds (set_type e m t) e {| etype := to_int32 t; edestructor := edestructor x; erefs := erefs x; ecaught := ecaught x; erethrown := erethrown x |}
  /\ holds (set_destructor e m d) e {| etype := etype x; edestructor := to_int32 d; erefs := erefs x; ecaught := ecaught x; erethrown := erethrown x |}
  /\ holds (set_refcount e m n) e (with_refs x (to_int32 n))
  /\ holds (set_caught e m b) e {| etype := etype x; edestructor := edestructor x; erefs := erefs x; ecaught := b; erethrown := erethrown x |}
  /\ holds (set_rethrown e m b) e {| etype := etype x; edestructor := edestructor x; erefs := erefs x; ecaught := ecaught x; erethrown := b |}
  /\ get_type e m = Some (etype x) /\ get_destructor e m = Some (edestructor x)
  /\ get_caught e m = ecaught x /\ get_rethrown e m = erethrown x.
Proof.
  intros Hp [Hr Ht Hd Hc Hre]. destruct (ops_slots m e Hp) as (-> & -> & -> & -> & -> & -> & -> & -> & -> & _).
  destruct Hp as (H16 & Ha & Hl & He).
  repeat apply conj; try (split; cbn; field_read e; rewrite ?Hr, ?Ht, ?Hd, ?Hc, ?Hre; (done || by destruct b)); try done.
  - rewrite Hc. by destruct (ecaught x).
  - rewrite Hre. by destruct (erethrown x).
Qed.

(** After [init] the record holds the type and the destructor, no references and no flags; outside it nothing
    has changed, whatever was there before. *)
Lemma info_init_holds m e type destructor : placed m e ->
  holds (info_init e m type destructor) e
    {| etype := to_int32 type; edestructor := to_int32 destructor; erefs := 0; ecaught := false; erethrown := false |}
  /\ only_between (e - 16) e m (info_init e m type destructor).
Proof.
  intros Hp. unfold info_init. cbv zeta.
  destruct (ops_slots m e Hp) as (-> & _). pose proof (placed_store32 m (e / 4 - 3) type e Hp) as Hp1. set (m1 := store32 m _ type) in *.
  destruct (ops_slots m1 e Hp1) as (_ & _ & -> & _). pose proof (placed_store32 m1 (e / 4 - 2) destructor e Hp1) as Hp2. set (m2 := store32 m1 _ destructor) in *.
  destruct (ops_slots m2 e Hp2) as (_ & _ & _ & _ & -> & _). pose proof (placed_store32 m2 (e / 4 - 4) 0 e Hp2) as Hp3. set (m3 := store32 m2 _ 0) in *.
  destruct (ops_slots m3 e Hp3) as (_ & _ & _ & _ & _ & -> & _). pose proof (placed_store8 m3 (e - 4) (Z.b2z false) e Hp3) as Hp4. set (m4 := store8 m3 _ _) in *.
  destruct (ops_slots m4 e Hp4) as (_ & _ & _ & _ & _ & _ & _ & -> & _). destruct Hp as (H16 & Ha & Hl & He).
  split.
  - split; cbn; subst m4 m3 m2 m1; field_read e; done.
  - assert (Hq : 4 * (e / 4) = e) by (Z.to_euclidean_division_equations; lia).
    repeat (eapply only_between_trans; [|apply only_between_store8; lia]).
    repeat (eapply only_between_trans; [|apply only_between_store32; lia]). split; done.
Qed.

(** [add_ref] and [release_ref] on the abstract record. *)
Lemma store_sum_holds m e x v d : placed m e -> holds m e x -> - 2 ^ 31 <= v + d < 2 ^ 31 ->
  holds (store_sum e m (Some v) d) e (with_refs x (v + d)).
Proof.
  intros Hp Hx Hv. destruct (exception_fields m e x 0 0 (v + d) false Hp Hx) as (_ & _ & H & _).
  rewrite to_int32_small in H by lia. exact H.
Qed.

Lemma placed_sum m e v d : placed m e -> placed (store_sum e m v d) e.
Proof. apply placed_length, store32_length. Qed.

(** ** Counting references *)

Inductive refop := AddRef | ReleaseRef.

(** Running operations in the memory, with what each returns. *)
Fixpoint run_refs (e : Z) (ops : list refop) (m : mem) : list (option (result bool)) * mem :=
  match ops with
  | [] => ([], m)
  | AddRef :: ops =>
      let '(rs, m) := run_refs e ops (add_ref e m) in (None :: rs, m)
  | ReleaseRef :: ops =>
      let '(r, m) := release_ref e m in
      let '(rs, m) := run_refs e ops m in (Some r :: rs, m)
  end.

(** The same on a plain counter: releasing the last reference is reported, releasing one more aborts. *)
Fixpoint count_refs (ops : list refop) (n : Z) : list (option (result bool)) * Z :=
  match ops with
  | [] => ([], n)
  | AddRef :: ops => let '(rs, k) := count_refs ops (n + 1) in (None :: rs, k)
  | ReleaseRef :: ops =>
      let '(rs, k) := count_refs ops (n - 1) in
      (Some (if 0 <? n then Ok (n =? 1) else Throw aborted) :: rs, k)
  end.

Lemma run_refs_counts e ops : forall m x,
  placed m e -> holds m e x -> - 2 ^ 31 + Z.of_nat (length ops) <= erefs x < 2 ^ 31 - Z.of_nat (length ops) ->
  let '(rs, m') := run_refs e ops m in
  let '(rs', n) := count_refs ops (erefs x) in
  rs = rs' /\ holds m' e (with_refs x n).
Proof.
  induction ops as [|op ops IH]; intros m x Hp Hx Hn; cbn [run_refs count_refs length] in *; [by destruct x|].
  destruct (ops_slots m e Hp) as (_ & _ & _ & _ & _ & _ & _ & _ & _ & Hw). pose proof (holds_refs _ _ _ Hx) as Hr.
  destruct op.
  - unfold add_ref. rewrite Hw, Hr. set (m1 := store_sum e m (Some (erefs x)) 1).
    assert (Hx1 : holds m1 e (with_refs x (erefs x + 1))) by (apply store_sum_holds; [done..|lia]).
    specialize (IH m1 _ (placed_sum _ _ _ _ Hp) Hx1). cbn in IH. specialize (IH ltac:(lia)).
    destruct (run_refs e ops m1), (count_refs ops (erefs x + 1)). destruct IH as [-> ?]. done.
  - unfold release_ref. rewrite Hw, Hr. change (erefs x - 1) with (erefs x + -1). set (m1 := store_sum e m (Some (erefs x)) (-1)).
    assert (Hx1 : holds m1 e (with_refs x (erefs x + -1))) by (apply store_sum_holds; [done..|lia]).
    specialize (IH m1 _ (placed_sum _ _ _ _ Hp) Hx1). cbn in IH. specialize (IH ltac:(lia)).
    destruct (0 <? erefs x); destruct (run_refs e ops m1), (count_refs ops (erefs x + -1)); destruct IH as [-> ?]; done.
Qed.

(** A thrown object starts without references; from there the words in memory count references as a plain
    number does, until 2^31 operations: a release reports the last reference and aborts when there is none. *)
Theorem references_counted (m : mem) (e type destructor : Z) (ops : list refop) :
  placed m e -> Z.of_nat (length ops) < 2 ^ 31 ->
  fst (run_refs e ops (info_init e m type destructor)) = fst (count_refs ops 0).
Proof.
  intros Hp Hn. destruct (info_init_holds m e type destructor Hp) as [Hx Ho].
  pose proof (run_refs_counts e ops _ _ (placed_length _ _ _ (proj1 Ho) Hp) Hx) as H. cbn in H. specialize (H ltac:(lia)).
  destruct (run_refs _ _ _), (count_refs _ _). by destruct H.
Qed.

(** ** What the cookie detects *)

(** The three words the cookie occupies are inside and apart. *)
Definition cookie_room (max : Z) (m : mem) : Prop := 0 <= max /\ max mod 4 = 0 /\ max + 12 <= Z.of_nat (length m) < 2 ^ 31.

Lemma is_word_value_spec w v : is_word_value w v = true <-> w = Some v.
Proof. destruct w as [u|]; cbn; [rewrite Z.eqb_eq; split; [by intros -> | by intros [= ->]] | done]. Qed.

Lemma is_word_value_ext w w' v : w = Some v -> is_word_value w' v = true <-> w' = w.
Proof. intros ->. apply is_word_value_spec. Qed.

Lemma to_uint32_of_int32 x : to_uint32 (to_int32 x) = to_uint32 x.
Proof.
  unfold to_int32, to_uint32. cbv zeta. destruct (_ <? _); [by apply Z.mod_mod|].
  replace (x mod 2 ^ 32 - 2 ^ 32) with (x mod 2 ^ 32 + (-1) * 2 ^ 32) by lia. rewrite Z.mod_add by lia. by apply Z.mod_mod.
Qed.

Lemma to_uint32_inj x y : - 2 ^ 31 <= x < 2 ^ 31 -> - 2 ^ 31 <= y < 2 ^ 31 -> to_uint32 x = to_uint32 y -> x = y.
Proof. intros Hx Hy H. rewrite <- (to_int32_small x), <- (to_int32_small y) by done. unfold to_int32. unfold to_uint32 in H. by rewrite H. Qed.

Lemma load32_range m i v : load32 m i = Some v -> - 2 ^ 31 <= v < 2 ^ 31.
Proof. unfold load32. destruct (load16 m (2 * i)), (load16 m (2 * i + 1)); intros [= <-]. pose proof (to_int32_range (z + 65536 * z0)). lia. Qed.

Lemma load32u_eq m m' i v : load32 m i = Some v -> load32u m' i = load32u m i <-> load32 m' i = load32 m i.
Proof.
  intros H. unfold load32u. rewrite H. cbn. destruct (load32 m' i) as [w|] eqn:E; cbn; [|done].
  split; [|by intros [= ->]]. intros [= Hu]. f_equal. apply to_uint32_inj; [by eapply load32_range..|done].
Qed.

Lemma cookie_words max m m' : cookie_room max m -> writeStackCookie max m = Ok m' ->
  length m' = length m /\ load32u m' (js_sar (max + 4) 2) = Some 0x2135467 /\ load32u m' (js_sar (max + 8) 2) = Some 0x89BACDFE
  /\ load32 m' 0 = Some 0x63736d65.
Proof.
  intros (H0 & Ha & Hl) H. unfold writeStackCookie in H. destruct (_ =? _); [|done]. injection H as <-.
  rewrite !js_sar_small by lia. change (2 ^ 2) with 4. unfold load32u.
  assert (Hq : max = 4 * (max / 4)) by (Z.to_euclidean_division_equations; lia). set (q := max / 4) in *.
  replace ((max + 4) / 4) with (q + 1) by (Z.to_euclidean_division_equations; lia).
  replace ((max + 8) / 4) with (q + 2) by (Z.to_euclidean_division_equations; lia).
  rewrite !store32_length. split; [done|].
  rewrite !(load32_store_other _ 0) by lia. rewrite (load32_store_other _ (q + 2) _ (q + 1)) by lia.
  rewrite !load32_store_same by (rewrite ?store32_length; lia). done.
Qed.

(** After [writeStackCookie] a check of any later memory passes exactly when the three words still hold what was
    written: an overflow that changes one of them, and nothing else, stops the program. *)
Theorem cookie_guards (max : Z) (m m1 m2 : mem) :
  cookie_room max m -> writeStackCookie max m = Ok m1 -> length m2 = length m ->
  checkStackCookie false max m1 = Ok tt
  /\ (checkStackCookie false max m2 = Ok tt <-> forall i, In i [js_sar (max + 4) 2; js_sar (max + 8) 2; 0] -> load32 m2 i = load32 m1 i)
  /\ (checkStackCookie false max m2 = Ok tt \/ checkStackCookie false max m2 = Throw aborted \/ checkStackCookie false max m2 = Throw (PlatformError "TypeError")).
Proof.
  intros Hroom Hw Hl. destruct (cookie_words max m m1 Hroom Hw) as (_ & H1 & H2 & H3). unfold checkStackCookie.
  rewrite H1, H2, H3. split; [done|].
  assert (W1 : exists v, load32 m1 (js_sar (max + 4) 2) = Some v) by (unfold load32u in H1; destruct (load32 m1 _); eauto; done).
  assert (W2 : exists v, load32 m1 (js_sar (max + 8) 2) = Some v) by (unfold load32u in H2; destruct (load32 m1 _); eauto; done).
  destruct W1 as [v1 W1], W2 as [v2 W2].
  pose proof (is_word_value_ext _ (load32u m2 (js_sar (max + 4) 2)) _ H1) as E1. rewrite (load32u_eq _ _ _ _ W1) in E1.
  pose proof (is_word_value_ext _ (load32u m2 (js_sar (max + 8) 2)) _ H2) as E2. rewrite (load32u_eq _ _ _ _ W2) in E2.
  pose proof (is_word_value_ext _ (load32 m2 0) _ H3) as E3. split.
  - destruct (is_word_value (load32u m2 (js_sar (max + 4) 2)) _), (is_word_value (load32u m2 (js_sar (max + 8) 2)) _),
      (is_word_value (load32 m2 0) _); cbn; (split; [intros H; try done|]).
    all: try (destruct (load32u m2 (js_sar (max + 4) 2)), (load32u m2 (js_sar (max + 8) 2)); done).
    all: try (intros H; exfalso; pose proof (H _ (or_introl eq_refl)); pose proof (H _ (or_intror (or_introl eq_refl)));
      pose proof (H _ (or_intror (or_intror (or_introl eq_refl)))); naive_solver).
    { intros i [<-|[<-|[<-|[]]]]; [by apply E1 | by apply E2 | by apply E3]. }
  - destruct (_ || _); [destruct (load32u m2 _), (load32u m2 _); auto|]. destruct (negb _); auto.
Qed.

(** ** Copying *)

Lemma load8_lookup m i : 0 <= i -> load8 m i = m !! Z.to_nat i.
Proof. intros. unfold load8. by rewrite (proj2 (Z.ltb_ge i 0)). Qed.

(** Inside the memory [_emscripten_memcpy_big] copies [num] bytes as they were before the call, also when the
    ranges overlap, and leaves everything else. *)
Theorem memcpy_copies (m : mem) (dest src num : Z) :
  0 <= dest -> 0 <= src -> 0 <= num -> dest + num <= Z.of_nat (length m) -> src + num <= Z.of_nat (length m) ->
  let m' := _emscripten_memcpy_big m dest src num in
  length m' = length m
  /\ (forall i, 0 <= i < num -> load8 m' (dest + i) = load8 m (src + i))
  /\ (forall j, 0 <= j -> ~ (dest <= j < dest + num) -> load8 m' j = load8 m j).
Proof.
  intros Hd Hs Hn Hdl Hsl m'. subst m'. unfold _emscripten_memcpy_big, copyWithin, clamp_index.
  rewrite !(proj2 (Z.ltb_ge _ 0)) by lia. rewrite !(Z.min_l _ (Z.of_nat (length m))) by lia.
  replace (src + num - src) with num by lia. rewrite (Z.min_l num) by lia.
  destruct (Z.ltb_spec 0 num) as [Hp|Hz]; [|split; [done|]; split; [intros; lia | done]].
  assert (Hd' : length (take (Z.to_nat dest) m) = Z.to_nat dest) by (rewrite length_take; lia).
  assert (Hn' : length (take (Z.to_nat num) (drop (Z.to_nat src) m)) = Z.to_nat num) by (rewrite length_take, length_drop; lia).
  split; [|split].
  - rewrite !length_app, Hd', Hn', length_drop. lia.
  - intros i Hi. rewrite !load8_lookup by lia. rewrite lookup_app_r, lookup_app_l by lia.
    rewrite lookup_take_lt, lookup_drop by lia. f_equal. lia.
  - intros j Hj Ho. rewrite !load8_lookup by lia. destruct (Z_lt_le_dec j dest).
    + rewrite lookup_app_l, lookup_take_lt by lia. done.
    + rewrite !lookup_app_r by lia. rewrite lookup_drop. f_equal. lia.
Qed.

Theorem memcpy_witness : load8 (_emscripten_memcpy_big [1; 2; 3; 4; 5] 1 0 3) (1 + 2) = load8 [1; 2; 3; 4; 5] (0 + 2).
Proof. apply (memcpy_copies [1; 2; 3; 4; 5] 1 0 3); cbn; lia. Defined.

(** Inside the memory [zeroMemory] clears exactly its block. *)
Lemma zeroMemory_clears m address size :
  0 <= address -> 0 <= size -> address + size <= Z.of_nat (length m) ->
  let m' := zeroMemory m address size in
  length m' = length m
  /\ (forall i, address <= i < address + size -> load8 m' i = Some 0)
  /\ (forall j, 0 <= j -> ~ (address <= j < address + size) -> load8 m' j = load8 m j).
Proof.
  intros Ha Hs Hl m'. subst m'. unfold zeroMemory, fill, clamp_index. rewrite !(proj2 (Z.ltb_ge _ 0)) by lia. rewrite !Z.min_l by lia.
  destruct (Z.ltb_spec address (address + size)) as [Hp|Hz]; [|split; [done|]; split; [intros; lia|done]].
  replace (address + size - address) with size by lia.
  assert (Hd : length (take (Z.to_nat address) m) = Z.to_nat address) by (rewrite length_take; lia).
  split; [|split].
  - rewrite !length_app, Hd, length_replicate, length_drop. lia.
  - intros i Hi. rewrite load8_lookup by lia. rewrite lookup_app_r, lookup_app_l by (rewrite ?length_replicate; lia).
    apply lookup_replicate_2. lia.
  - intros j Hj Ho. rewrite !load8_lookup by lia. destruct (Z_lt_le_dec j address).
    + rewrite lookup_app_l, lookup_take_lt by lia. done.
    + rewrite !lookup_app_r by (rewrite ?length_replicate; lia). rewrite lookup_drop, length_replicate. f_equal. lia.
Qed.

Lemma alignMemory_alignUp size alignment : 0 <= size -> 0 < alignment -> alignMemory size alignment = Ok (alignUp size alignment).
Proof.
  intros Hs Ha. unfold alignMemory, alignUp. rewrite (proj2 (Z.eqb_neq alignment 0)) by lia. f_equal.
  rewrite Z.rem_mod_nonneg by lia. pose proof (Z.div_mod size alignment ltac:(lia)). pose proof (Z.mod_pos_bound size alignment Ha).
  destruct (Z.ltb_spec 0 (size mod alignment)).
  - rewrite Z.div_opp_l_nz by lia. lia.
  - rewrite Z.div_opp_l_z by lia. lia.
Qed.

(** ** Calls *)

(** A function that returns has the stack pointer put back, whatever it did to the stack; one that throws leaves
    it where it was, since the code has no [finally]. *)
Theorem withStackSave_restores `{StackLaws} {A} (f : cstate -> result A * cstate) (s : cstate) :
  fst (withStackSave f s) = fst (f s) /\ memory (snd (withStackSave f s)) = memory (snd (f s))
  /\ stack (snd (withStackSave f s)) = (if is_ok (fst (f s)) then stack s else stack (snd (f s))).
Proof. unfold withStackSave. destruct (f s) as [[a|e] s']; cbn; rewrite ?restore_stack, ?save_stack; done. Qed.

(** Only an [ExitStatus] and the text "unwind" end quietly; everything else is thrown on. *)
Lemma handleException_spec (EXITSTATUS : Z) (e : thrown) :
  handleException EXITSTATUS e = inl EXITSTATUS <-> (exists status, e = ExitStatus status) \/ e = ThrownText (js "unwind").
Proof.
  destruct e as [status|text|err]; cbn; [by split; eauto| |split; [done | by intros [[? ?]|?]]].
  unfold str_eqb. case_bool_decide as E; [split; [by right; rewrite E | done]|]. split; [done|]. intros [[? ?]|?]; [done | congruence].
Qed.

Definition warn_all (texts : list jsstr) (s : list jsstr * list jsstr) : list jsstr * list jsstr :=
  fold_left (fun s text => warnOnce text s) texts s.

(** Every text is printed once, at its first warning. *)
Lemma warnOnce_once texts : forall shown errs,
  NoDup errs -> (forall t, t ∈ shown <-> t ∈ errs) ->
  let '(_, errs') := warn_all texts (shown, errs) in
  NoDup errs' /\ (forall t, t ∈ errs' <-> t ∈ errs \/ t ∈ texts).
Proof.
  induction texts as [|t texts IH]; intros shown errs Hn Hs; cbn [warn_all fold_left].
  { split; [done|]. intros t. rewrite elem_of_nil. naive_solver. }
  unfold warnOnce at 2. case_bool_decide as E.
  - specialize (IH shown errs Hn Hs). unfold warn_all in IH. destruct (fold_left _ _ _). destruct IH as [H1 H2].
    split; [done|]. intros u. rewrite H2, elem_of_cons. rewrite Hs in E. naive_solver.
  - assert (Hn' : NoDup (errs ++ [t])).
    { apply NoDup_app. split; [done|]. split; [|apply NoDup_singleton]. intros u Hu. rewrite list_elem_of_singleton. rewrite Hs in E. naive_solver. }
    specialize (IH (t :: shown) (errs ++ [t]) Hn'). unfold warn_all in IH. destruct (fold_left _ _ _).
    destruct IH as [H1 H2].
    { intros u. rewrite elem_of_cons, elem_of_app, list_elem_of_singleton, Hs. naive_solver. }
    split; [done|]. intros u. rewrite H2, elem_of_app, list_elem_of_singleton, elem_of_cons. naive_solver.
Qed.

Theorem references_witness : fst (run_refs 16 [AddRef; AddRef; ReleaseRef; ReleaseRef; ReleaseRef] (info_init 16 (repeat 7 32) 5 6))
  = [None; None; Some (Ok false); Some (Ok true); Some (Throw aborted)].
Proof.
  rewrite (references_counted (repeat 7 32) 16 5 6 [AddRef; AddRef; ReleaseRef; ReleaseRef; ReleaseRef]); [reflexivity| |cbn; lia].
  unfold placed. cbn. split; [lia|]. split; [reflexivity|]. lia.
Defined.

Theorem cookie_guards_witness :
  let m := repeat 0 64 in
  exists m1, writeStackCookie 16 m = Ok m1 /\ checkStackCookie false 16 m1 = Ok tt
    /\ checkStackCookie false 16 (store8 m1 20 0) = Throw aborted.
Proof.
  eexists. split; [reflexivity|]. split; [|vm_compute; reflexivity].
  refine (proj1 (cookie_guards 16 (repeat 0 64) _ _ _ eq_refl eq_refl)).
  unfold cookie_room. cbn. split; [lia|]. split; [reflexivity|]. lia.
Defined.
