(* ===== verification/OpusTty.v ===== *)
(** * Terminals and device functions of the Opus module
      ([integrations/lan-remote-access/rustdesk-web-open/libopus.js], [TTY])

    A terminal collects the bytes written to it and hands them to [out] or [err]
    line by line; its input comes from what the host offers.  The functions behind
    the devices of [FS.createDevice] are code outside the module: what they answer
    is part of the state, and what they are given is logged.  Printing functions
    are taken to return. *)

From stdpp Require Import base list numbers strings gmap.
From Stdlib Require Import ZArith Lia.
From S2P Require Import Prelude JsString Utf8 OpusText OpusValue.
Local Open Scope Z_scope.

(** ** State *)

Inductive channel := Out | Err.

(** [default_tty_ops] and [default_tty1_ops]; the second has no [get_char] and prints with [err]. *)
Inductive tty_ops := Tty0 | Tty1.

Record tty := { tty_input : list Z; tty_output : list Z; tty_kind : tty_ops }.

(** Where [get_char] finds its input: [fs.readSync], [window.prompt], [readline], or nowhere. *)
Inductive environment := Node | Window | Shell | Bare.

(** What the host will answer: a line or a cancelled prompt, a chunk or a failed read of Node
    ([eof] when its text includes EOF). *)
Inductive stdin_answer := Line (s : jsstr) | Cancelled | Chunk (bs : list Z) | ReadError (eof : bool).

(** What an input function returns. *)
Inductive reply := Value (v : Z) | Null | Undefined | Thrown.

(** A function given to [createDevice]: its answers as input, and for each call as output whether it
    throws and the length of its [buffer] property afterwards. *)
Record callback := { replies : list reply; accepts : list (bool * Z); buffer_length : Z }.

Record terminal := {
  ttys : gmap Z nat;
  tty_store : gmap nat tty;
  host : environment;
  stdin : list stdin_answer;
  printed : list (channel * jsstr);       (* newest last *)
  functions : gmap nat callback;
  received : list (nat * Z);              (* newest last *)
  next_major : Z                          (* [FS.createDevice.major] *)
}.

Definition with_store (t : terminal) (m : gmap nat tty) : terminal :=
  {| ttys := ttys t; tty_store := m; host := host t; stdin := stdin t; printed := printed t; functions := functions t;
     received := received t; next_major := next_major t |}.
Definition with_stdin (t : terminal) (l : list stdin_answer) : terminal :=
  {| ttys := ttys t; tty_store := tty_store t; host := host t; stdin := l; printed := printed t; functions := functions t;
     received := received t; next_major := next_major t |}.
Definition print (t : terminal) (l : list (channel * jsstr)) : terminal :=
  {| ttys := ttys t; tty_store := tty_store t; host := host t; stdin := stdin t; printed := printed t ++ l; functions := functions t;
     received := received t; next_major := next_major t |}.
Definition with_function (t : terminal) (k : nat) (c : callback) (sent : list (nat * Z)) : terminal :=
  {| ttys := ttys t; tty_store := tty_store t; host := host t; stdin := stdin t; printed := printed t;
     functions := <[k := c]> (functions t); received := received t ++ sent; next_major := next_major t |}.
Definition bump_major (t : terminal) : terminal :=
  {| ttys := ttys t; tty_store := tty_store t; host := host t; stdin := stdin t; printed := printed t; functions := functions t;
     received := received t; next_major := next_major t + 1 |}.

(** [TTY.register] puts a new terminal object in the table. *)
Definition tty_register (dev : Z) (k : tty_ops) (t : terminal) : terminal :=
  let id := size (tty_store t) in
  {| ttys := <[dev := id]> (ttys t); tty_store := <[id := {| tty_input := []; tty_output := []; tty_kind := k |}]> (tty_store t);
     host := host t; stdin := stdin t; printed := printed t; functions := functions t; received := received t;
     next_major := next_major t |}.

(** ** Output *)

Definition tty_channel (k : tty_ops) : channel := match k with Tty0 => Out | Tty1 => Err end.

(** [UTF8ArrayToString(tty.output, 0)] of an ordinary array. *)
Definition tty_text (output : list Z) : jsstr := UTF8ArrayToString true false output 0 None.

Definition set_output (t : tty) (o : list Z) : tty := {| tty_input := tty_input t; tty_output := o; tty_kind := tty_kind t |}.

(** An absent element of the buffer is [undefined]: it is not 0 and is pushed, and it ends the text
    as a 0 would. *)
Definition put_char (val : option Z) (t : tty) : tty * list (channel * jsstr) :=
  match val with
  | Some v =>
      if v =? 10 then (set_output t [], [(tty_channel (tty_kind t), tty_text (tty_output t))])
      else if v =? 0 then (t, [])
      else (set_output t (tty_output t ++ [v]), [])
  | None => (set_output t (tty_output t ++ [0]), [])
  end.

Definition tty_flush (t : tty) : tty * list (channel * jsstr) :=
  match tty_output t with
  | [] => (t, [])
  | _ => (set_output t [], [(tty_channel (tty_kind t), tty_text (tty_output t))])
  end.

(** The loop of [stream_ops.write]. *)
Fixpoint put_chars (vals : list (option Z)) (t : tty) : tty * list (channel * jsstr) :=
  match vals with
  | [] => (t, [])
  | v :: vals' => let '(t, l) := put_char v t in let '(t, l') := put_chars vals' t in (t, l ++ l')
  end.

(** ** Input *)

Definition set_input (t : tty) (i : list Z) : tty := {| tty_input := i; tty_output := tty_output t; tty_kind := tty_kind t |}.

(** The text the host gives, [None] for [null]; an exhausted list of answers is the end of the input.
    [Buffer.toString] decodes without removing a byte order mark. *)
Definition host_text (t : terminal) : result (option jsstr) * terminal :=
  let rest := with_stdin t (tail (stdin t)) in
  match host t with
  | Bare => (Ok None, t)
  | Node =>
      match head (stdin t) with
      | Some (Chunk []) | None => (Ok None, rest)
      | Some (Chunk bs) => (Ok (Some (utf16 (map (default 0xFFFD) (utf8_decode bs)))), rest)
      | Some (ReadError true) => (Ok None, rest)
      | Some _ => (Throw (PlatformError "Error"), rest)
      end
  | Window | Shell =>
      match head (stdin t) with
      | Some (Line s) => (Ok (Some (s ++ [10])), rest)
      | _ => (Ok None, rest)
      end
  end.

Definition shift (t : tty) : reply * tty :=
  match tty_input t with [] => (Undefined, t) | v :: i => (Value v, set_input t i) end.

(** [get_char] of [default_tty_ops] on a terminal object. *)
Definition get_char (x : tty) (t : terminal) : reply * tty * terminal :=
  match tty_input x with
  | _ :: _ => let '(r, x) := shift x in (r, x, t)
  | [] =>
      match host_text t with
      | (Throw _, t) => (Thrown, x, t)
      | (Ok None, t) | (Ok (Some []), t) => (Null, x, t)
      | (Ok (Some s), t) => let '(r, x) := shift (set_input x (intArrayFromString s true)) in (r, x, t)
      end
  end.

(** A call of an input function of [createDevice]; calling nothing throws. *)
Definition call_input (k : option nat) (t : terminal) : reply * terminal :=
  match k with
  | None => (Thrown, t)
  | Some k =>
      match functions t !! k with
      | None => (Thrown, t)
      | Some c =>
          (match head (replies c) with Some r => r | None => Undefined end,
           with_function t k {| replies := tail (replies c); accepts := accepts c; buffer_length := buffer_length c |} [])
      end
  end.

(** A call of an output function: whether it threw. *)
Definition call_output (k : option nat) (v : Z) (t : terminal) : bool * terminal :=
  match k with
  | None => (true, t)
  | Some k =>
      match functions t !! k with
      | None => (true, t)
      | Some c =>
          let '(fails, len) := default (false, buffer_length c) (head (accepts c)) in
          (fails, with_function t k {| replies := replies c; accepts := tail (accepts c); buffer_length := len |} [(k, v)])
      end
  end.

(** The loop that [TTY.stream_ops.read] and the [read] of [createDevice] share.  The buffer is filled
    as the bytes come, also when the call ends in an error. *)
Fixpoint read_loop {St} (get : St -> reply * St) (n : nat) (buffer : list Z) (offset bytesRead : Z) (s : St)
  : list Z * result Z * St :=
  match n with
  | O => (buffer, Ok bytesRead, s)
  | S n' =>
      let '(r, s) := get s in
      match r with
      | Thrown => (buffer, Throw (ErrnoError 29), s)
      | Undefined => (buffer, if bytesRead =? 0 then Throw (ErrnoError 6) else Ok bytesRead, s)
      | Null => (buffer, Ok bytesRead, s)
      | Value v => read_loop get n' (store8 buffer (offset + bytesRead) v) offset (bytesRead + 1) s
      end
  end.

(** [TTY.stream_ops.read] on the terminal object [id]. *)
Definition tty_read (id : option nat) (buffer : list Z) (offset length : Z) (t : terminal) : list Z * result Z * terminal :=
  match id with
  | None => (buffer, Throw (ErrnoError 60), t)
  | Some id =>
      match tty_store t !! id with
      | Some {| tty_kind := Tty0 |} =>
          read_loop (fun t => match tty_store t !! id with
                              | Some x => let '(r, x, t) := get_char x t in (r, with_store t (<[id := x]> (tty_store t)))
                              | None => (Thrown, t)
                              end) (Z.to_nat length) buffer offset 0 t
      | _ => (buffer, Throw (ErrnoError 60), t)
      end
  end.

(** [TTY.stream_ops.write]; the elements of the buffer as the array gives them. *)
Definition tty_write (id : option nat) (vals : list (option Z)) (t : terminal) : result Z * terminal :=
  match id with
  | None => (Throw (ErrnoError 60), t)
  | Some id =>
      match tty_store t !! id with
      | None => (Throw (ErrnoError 60), t)
      | Some x => let '(x, l) := put_chars vals x in
                  (Ok (Z.of_nat (List.length vals)), print (with_store t (<[id := x]> (tty_store t))) l)
      end
  end.

(** [TTY.stream_ops.close] and [flush]. *)
Definition tty_close (id : option nat) (t : terminal) : result unit * terminal :=
  match id with
  | None => (Throw (PlatformError "TypeError"), t)
  | Some id =>
      match tty_store t !! id with
      | None => (Throw (PlatformError "TypeError"), t)
      | Some x => let '(x, l) := tty_flush x in (Ok tt, print (with_store t (<[id := x]> (tty_store t))) l)
      end
  end.

(** The [read], [write] and [close] of a device made by [createDevice]. *)
Definition fun_read (input : option nat) (buffer : list Z) (offset length : Z) (t : terminal) : list Z * result Z * terminal :=
  read_loop (call_input input) (Z.to_nat length) buffer offset 0 t.

(** An absent element is [undefined], which the log shows as 0. *)
Fixpoint fun_write_loop (output : option nat) (vals : list (option Z)) (i : Z) (t : terminal) : result Z * terminal :=
  match vals with
  | [] => (Ok i, t)
  | v :: vals' =>
      let '(fails, t) := call_output output (default 0 v) t in
      if fails then (Throw (ErrnoError 29), t) else fun_write_loop output vals' (i + 1) t
  end.

Definition fun_write (output : option nat) (vals : list (option Z)) (t : terminal) : result Z * terminal :=
  fun_write_loop output vals 0 t.

Definition fun_close (output : option nat) (t : terminal) : result unit * terminal :=
  match output with
  | None => (Ok tt, t)
  | Some k =>
      match functions t !! k with
      | Some c => if buffer_length c =? 0 then (Ok tt, t)
                  else let '(fails, t) := call_output output 10 t in (if fails then Throw (PlatformError "Error") else Ok tt, t)
      | None => (Ok tt, t)
      end
  end.

(** ** Text on a terminal *)

(** The element an [Int8Array] ([signed]) or a [Uint8Array] gives for a byte. *)
Definition elem (signed : bool) (b : Z) : Z := if signed then sign8 b else b.

Lemma elem_masks signed b : 0 <= b < 256 ->
  js_and (elem signed b) 0x80 = js_and b 0x80 /\ js_and (elem signed b) 0xE0 = js_and b 0xE0 /\ js_and (elem signed b) 0xF0 = js_and b 0xF0
  /\ js_and (elem signed b) 31 = js_and b 31 /\ js_and (elem signed b) 15 = js_and b 15 /\ js_and (elem signed b) 7 = js_and b 7
  /\ js_and (elem signed b) 63 = js_and b 63 /\ (elem signed b =? 0) = (b =? 0) /\ (elem signed b =? 10) = (b =? 10)
  /\ (js_and b 0x80 = 0 -> elem signed b = b).
Proof.
  intros Hb. destruct signed; cbn [elem]; [|done].
  assert (H := all_bytes (fun b => (js_and (sign8 b) 0x80 =? js_and b 0x80) && (js_and (sign8 b) 0xE0 =? js_and b 0xE0)
     && (js_and (sign8 b) 0xF0 =? js_and b 0xF0) && (js_and (sign8 b) 31 =? js_and b 31) && (js_and (sign8 b) 15 =? js_and b 15)
     && (js_and (sign8 b) 7 =? js_and b 7) && (js_and (sign8 b) 63 =? js_and b 63) && Bool.eqb (sign8 b =? 0) (b =? 0)
     && Bool.eqb (sign8 b =? 10) (b =? 10) && (negb (js_and b 0x80 =? 0) || (sign8 b =? b))) ltac:(vm_compute; reflexivity) b Hb).
  cbv beta in H. repeat rewrite andb_true_iff in H. destruct H as [[[[[[[[[H1 H2] H3] H4] H5] H6] H7] H8] H9] H10].
  apply Z.eqb_eq in H1, H2, H3, H4, H5, H6, H7. apply eqb_prop in H8, H9.
  repeat split; try done. intros E. rewrite E in H10. cbn in H10. by apply Z.eqb_eq.
Qed.

Definition is_byte (b : Z) : Prop := 0 <= b < 256.

Lemma num8_byte m i : Forall is_byte m -> is_byte (num8 m i).
Proof.
  intros H. unfold num8, load8. destruct (i <? 0); [unfold is_byte; lia|].
  destruct (m !! Z.to_nat i) eqn:E; [by eapply Forall_lookup in E|unfold is_byte; lia].
Qed.

Lemma num8_elem signed m i : num8 (map (elem signed) m) i = elem signed (num8 m i).
Proof.
  unfold num8, load8. destruct (i <? 0); [by destruct signed|]. change (map ?f m) with (f <$> m). rewrite list_lookup_fmap.
  destruct (m !! Z.to_nat i); [done|by destruct signed].
Qed.

Lemma decode_loop_elem signed f m i e : Forall is_byte m -> decode_loop f (map (elem signed) m) i e = decode_loop f m i e.
Proof.
  intros Hm. revert i. induction f as [|f IH]; intros i; [done|]. cbn [decode_loop]. destruct (e <=? i); [done|].
  rewrite !num8_elem.
  destruct (elem_masks signed (num8 m i) (num8_byte m i Hm)) as (-> & -> & -> & -> & -> & -> & _ & _ & _ & Hlow).
  destruct (elem_masks signed (num8 m (i + 1)) (num8_byte m _ Hm)) as (_ & _ & _ & _ & _ & _ & -> & _).
  destruct (elem_masks signed (num8 m (i + 2)) (num8_byte m _ Hm)) as (_ & _ & _ & _ & _ & _ & -> & _).
  destruct (elem_masks signed (num8 m (i + 3)) (num8_byte m _ Hm)) as (_ & _ & _ & _ & _ & _ & -> & _).
  rewrite !IH. case_match; [bool_prop; by rewrite Hlow|]. case_match; [done|]. case_match. by rewrite IH.
Qed.

Lemma scan_end_all bs pre : Forall (fun b => b <> 0) bs ->
  scan_end (length bs) (pre ++ bs) (Z.of_nat (length pre)) None = Z.of_nat (length pre) + Z.of_nat (length bs).
Proof.
  intros H. revert pre. induction H as [|b bs Hb _ IH]; intros pre; cbn [scan_end length]; [lia|].
  rewrite num8_mid, (proj2 (Z.eqb_neq b 0)) by done. rewrite (len_snoc pre b). replace (pre ++ b :: bs) with ((pre ++ [b]) ++ bs) by by rewrite <- (assoc_L (++)).
  rewrite IH. rewrite length_app. cbn. lia.
Qed.

Lemma elem_nonzero signed bs : Forall (fun b => 0 < b < 256) bs -> Forall (fun b => b <> 0) (map (elem signed) bs).
Proof.
  intros H. apply Forall_map. eapply Forall_impl; [exact H|]. intros b Hb E. cbn in Hb.
  destruct (elem_masks signed b ltac:(lia)) as (_ & _ & _ & _ & _ & _ & _ & H0 & _). rewrite E in H0. cbn in H0.
  symmetry in H0. apply Z.eqb_eq in H0. lia.
Qed.

(** The text a terminal prints for the bytes of a line. *)
Lemma tty_text_utf8 signed cps : Forall (fun c => scalar c /\ c <> 0) cps -> tty_text (map (elem signed) (utf8 cps)) = utf16 cps.
Proof.
  intros H. pose proof (utf8_positive cps H) as Hp. unfold tty_text, UTF8ArrayToString. cbn [option_map].
  pose proof (scan_end_all (map (elem signed) (utf8 cps)) [] (elem_nonzero signed _ Hp)) as Hs. cbn [app length] in Hs.
  change (Z.of_nat 0) with 0 in Hs. rewrite Hs, length_map, andb_false_r, decode_loop_elem.
  - pose proof (decode_loop_utf8 cps [] [] (length (utf8 cps))) as Hd. cbn [app length] in Hd. rewrite app_nil_r in Hd. change (Z.of_nat 0) with 0 in Hd.
    cbn [andb]. replace (Z.to_nat (0 + Z.of_nat (length (utf8 cps)) - 0)) with (length (utf8 cps)) by lia. apply Hd; [|lia].
    eapply Forall_impl; [exact H|]. by intros c [? _].
  - eapply Forall_impl; [exact Hp|]. unfold is_byte. intros; lia.
Qed.

Lemma put_chars_app a b x :
  put_chars (a ++ b) x = let '(x1, l1) := put_chars a x in let '(x2, l2) := put_chars b x1 in (x2, l1 ++ l2).
Proof.
  revert x. induction a as [|v a IH]; intros x; cbn [put_chars app].
  - by destruct (put_chars b x).
  - destruct (put_char v x) as [x0 l0]. rewrite IH. destruct (put_chars a x0) as [x1 l1]. destruct (put_chars b x1) as [x2 l2].
    by rewrite (assoc_L (++)).
Qed.

(** Bytes that neither end a line nor are 0 are collected. *)
Lemma put_chars_collect vals x : Forall (fun v => v <> 0 /\ v <> 10) vals ->
  put_chars (map Some vals) x = (set_output x (tty_output x ++ vals), []).
Proof.
  intros H. revert x. induction H as [|v vals [H0 H10] _ IH]; intros x; cbn [put_chars map].
  - rewrite app_nil_r. by destruct x.
  - unfold put_char. rewrite (proj2 (Z.eqb_neq v 10)), (proj2 (Z.eqb_neq v 0)) by done. rewrite IH. cbn.
    by rewrite <- (assoc_L (++)).
Qed.

Definition line_char (c : Z) : Prop := scalar c /\ c <> 0 /\ c <> 10.

Lemma utf8_encode_no_newline c : line_char c -> Forall (fun b => 0 < b < 256 /\ b <> 10) (utf8_encode c).
Proof.
  intros (Hs & H0 & H10). pose proof (scalar_range c Hs). unfold utf8_encode.
  repeat case_match; bool_prop; repeat constructor; Z.to_euclidean_division_equations; lia.
Qed.

Lemma line_bytes signed cps : Forall line_char cps -> Forall (fun v => v <> 0 /\ v <> 10) (map (elem signed) (utf8 cps)).
Proof.
  intros H. apply Forall_map. unfold utf8. induction H as [|c cps Hc _ IH]; cbn; [constructor|]. apply Forall_app. split; [|exact IH].
  eapply Forall_impl; [by apply utf8_encode_no_newline|]. intros b [Hb Hn]. cbn in Hb.
  destruct (elem_masks signed b ltac:(lia)) as (_ & _ & _ & _ & _ & _ & _ & E0 & E10 & _).
  split; intros E; [rewrite E in E0|rewrite E in E10]; cbn in *; symmetry in E0 || symmetry in E10; bool_prop; lia.
Qed.

Lemma line_chars cps : Forall line_char cps -> Forall (fun c => scalar c /\ c <> 0) cps.
Proof. intros H. eapply Forall_impl; [exact H|]. by intros c (? & ? & _). Qed.

(** The bytes of lines, each with its end. *)
Definition lines_text (ls : list (list Z)) (rest : list Z) : list Z := utf8 (concat (map (fun l => l ++ [10]) ls) ++ rest).

Lemma put_chars_lines signed ls rest x :
  tty_output x = [] -> Forall (Forall line_char) ls -> Forall line_char rest ->
  put_chars (map Some (map (elem signed) (lines_text ls rest))) x
  = (set_output x (map (elem signed) (utf8 rest)), map (fun l => (tty_channel (tty_kind x), utf16 l)) ls).
Proof.
  intros Hx Hls Hr. revert x Hx. unfold lines_text. induction Hls as [|l ls Hl _ IH]; intros x Hx; cbn [map concat app].
  - rewrite (put_chars_collect _ _ (line_bytes signed rest Hr)), Hx. done.
  - rewrite <- !(assoc_L (++)), utf8_app, !map_app, put_chars_app, (put_chars_collect _ _ (line_bytes signed l Hl)), Hx.
    change (utf8 ([10] ++ ?z)) with (10 :: utf8 z). cbn [map put_chars app]. replace (elem signed 10) with 10 by by destruct signed.
    unfold put_char at 1. cbn [Z.eqb Pos.eqb set_output tty_output tty_kind tty_input]. rewrite (tty_text_utf8 _ _ (line_chars _ Hl)).
    rewrite IH by done. done.
Qed.

(** Calls of [write] on a terminal object, one after another. *)
Fixpoint write_calls (id : nat) (calls : list (list Z)) (t : terminal) : terminal :=
  match calls with
  | [] => t
  | vals :: calls' => write_calls id calls' (snd (tty_write (Some id) (map Some vals) t))
  end.

Lemma write_calls_spec id calls t x : tty_store t !! id = Some x ->
  write_calls id calls t
  = let '(x', l) := put_chars (map Some (concat calls)) x in print (with_store t (<[id := x']> (tty_store t))) l.
Proof.
  revert t x. induction calls as [|vals calls IH]; intros t x Hx; cbn [write_calls concat map].
  - cbn. unfold print, with_store. rewrite insert_id by done. rewrite app_nil_r. by destruct t.
  - cbn [tty_write]. rewrite Hx. rewrite map_app, put_chars_app. destruct (put_chars (map Some vals) x) as [x1 l1]. cbn [snd].
    rewrite (IH _ x1) by (cbn; by rewrite lookup_insert_eq). destruct (put_chars (map Some (concat calls)) x1) as [x2 l2].
    unfold print, with_store. cbn. by rewrite insert_insert_eq, (assoc_L (++)).
Qed.

Lemma write_calls_lines (t : terminal) (id : nat) (x : tty) (signed : bool) (ls : list (list Z)) (rest : list Z) (calls : list (list Z)) :
  tty_store t !! id = Some x -> tty_output x = [] ->
  Forall (Forall line_char) ls -> Forall line_char rest ->
  concat calls = map (elem signed) (lines_text ls rest) ->
  let ch := tty_channel (tty_kind x) in
  let t' := write_calls id calls t in
  printed t' = printed t ++ map (fun l => (ch, utf16 l)) ls
  /\ (exists y, tty_store t' !! id = Some y /\ tty_output y = map (elem signed) (utf8 rest) /\ tty_input y = tty_input x)
  /\ printed (snd (tty_close (Some id) t')) = printed t' ++ (if bool_decide (rest = []) then [] else [(ch, utf16 rest)]).
Proof.
  intros Hx Ho Hls Hr Hc ch t'. subst t'. rewrite (write_calls_spec id calls t x Hx), Hc, (put_chars_lines _ _ _ _ Ho Hls Hr).
  split; [done|]. split; [eexists; split; [apply lookup_insert_eq|done]|].
  unfold tty_close. cbn [tty_store print with_store]. rewrite lookup_insert_eq. unfold tty_flush. cbn [tty_output set_output].
  destruct (map (elem signed) (utf8 rest)) eqn:E.
  - rewrite bool_decide_true; [done|]. destruct rest as [|c r]; [done|]. apply (f_equal length) in E. rewrite length_map in E.
    unfold utf8 in E. cbn in E. rewrite length_app in E. pose proof (utf8_encode_nonempty c). lia.
  - rewrite bool_decide_false by (intros ->; done). rewrite <- E, (tty_text_utf8 _ _ (line_chars _ Hr)). done.
Qed.

(** A terminal prints text line by line.  However the bytes of a text are split
    over calls of [write], and whether the array shows them signed or unsigned, a
    terminal with no pending output prints exactly the lines of the text, in order,
    keeps the bytes of the unfinished line, and prints that line when it is flushed. *)
Theorem terminal_prints_lines (t : terminal) (id : nat) (x : tty) (signed : bool) (ls : list (list Z)) (rest : list Z) (calls : list (list Z)) :
  tty_store t !! id = Some x -> tty_output x = [] ->
  Forall (Forall line_char) ls -> Forall line_char rest ->
  concat calls = map (elem signed) (lines_text ls rest) ->
  let ch := tty_channel (tty_kind x) in
  let t' := write_calls id calls t in
  printed t' = printed t ++ map (fun l => (ch, utf16 l)) ls
  /\ (exists y, tty_store t' !! id = Some y /\ tty_output y = map (elem signed) (utf8 rest) /\ tty_input y = tty_input x)
  /\ printed (snd (tty_close (Some id) t')) = printed t' ++ (if bool_decide (rest = []) then [] else [(ch, utf16 rest)]).
Proof. apply write_calls_lines. Qed.

Definition boot_terminal : terminal :=
  {| ttys := empty; tty_store := empty; host := Bare; stdin := []; printed := []; functions := empty; received := []; next_major := 64 |}.

(** Two lines with a character of three bytes, cut in the middle of that character. *)
Theorem terminal_prints_witness :
  let t := tty_register 1280 Tty0 boot_terminal in
  printed (write_calls 0 [map sign8 [104; 105; 10; 226]; map sign8 [130; 172]; [10; 33]] t) = [(Out, js "hi"); (Out, [8364])].
Proof.
  intros t.
  destruct (terminal_prints_lines t 0 {| tty_input := []; tty_output := []; tty_kind := Tty0 |} true [[104; 105]; [8364]] [33]
              [map sign8 [104; 105; 10; 226]; map sign8 [130; 172]; [10; 33]]) as [H _];
    [reflexivity|reflexivity|repeat constructor; unfold scalar; lia|repeat constructor; unfold scalar; lia|reflexivity|].
  etransitivity; [exact H|reflexivity].
Defined.
