(* ===== verification/OpusMemfs.v ===== *)
(** * File contents of the in-memory file system
      ([integrations/lan-remote-access/rustdesk-web-open/libopus.js], [MEMFS])

    A file keeps a byte array, whose length is its capacity, and the number of
    bytes used.  The functions of [MEMFS] that read, write and resize it are
    proved against the plain list of bytes a file stands for.  Allocations are
    taken to succeed, and a buffer handed over with [canOwn] is not used by its
    owner any more. *)

From stdpp Require Import base list numbers strings.
From Stdlib Require Import ZArith Lia.
From S2P Require Import Prelude JsString OpusText.
Local Open Scope Z_scope.

(** ** The code *)

Record fdata := { contents : option (list Z); usedBytes : Z }.

Definition new_file : fdata := {| contents := None; usedBytes := 0 |}.

Definition type_error : jserror := PlatformError "TypeError".
Definition range_error : jserror := PlatformError "RangeError".

Definition new_Uint8Array (n : Z) : list Z := repeat 0 (Z.to_nat n).

(** [a.subarray(from, to)] for [0 <= from]; it stops at the end of the array. *)
Definition subarray (a : list Z) (from to : Z) : list Z := take (Z.to_nat (to - from)) (drop (Z.to_nat from) a).

(** [a.set(b, offset)]. *)
Definition array_set (a b : list Z) (offset : Z) : result (list Z) :=
  if (offset <? 0) || (Z.of_nat (length a) <? offset + Z.of_nat (length b)) then Throw range_error
  else Ok (take (Z.to_nat offset) a ++ b ++ drop (Z.to_nat offset + length b) a).

Definition getFileDataAsTypedArray (f : fdata) : list Z :=
  match contents f with None => [] | Some c => subarray c 0 (usedBytes f) end.

Definition capacity_of (f : fdata) : Z := match contents f with None => 0 | Some c => Z.of_nat (length c) end.

Definition CAPACITY_DOUBLING_MAX : Z := 1024 * 1024.

(** The capacity to grow to; [x * 1.125 >>> 0] is exact integer arithmetic here. *)
Definition grown (prevCapacity newCapacity : Z) : Z :=
  let n := Z.max newCapacity
             (to_uint32 (if prevCapacity <? CAPACITY_DOUBLING_MAX then prevCapacity * 2 else prevCapacity * 9 / 8)) in
  if prevCapacity =? 0 then n else Z.max n 256.

Definition expandFileStorage (f : fdata) (newCapacity : Z) : result fdata :=
  let prevCapacity := capacity_of f in
  if newCapacity <=? prevCapacity then Ok f
  else
    let fresh := new_Uint8Array (grown prevCapacity newCapacity) in
    if 0 <? usedBytes f then
      match contents f with
      | None => Throw type_error
      | Some old => let? c := array_set fresh (subarray old 0 (usedBytes f)) 0 in
                    Ok {| contents := Some c; usedBytes := usedBytes f |}
      end
    else Ok {| contents := Some fresh; usedBytes := usedBytes f |}.

Definition resizeFileStorage (f : fdata) (newSize : Z) : result fdata :=
  if usedBytes f =? newSize then Ok f
  else if newSize =? 0 then Ok new_file
  else
    let fresh := new_Uint8Array newSize in
    match contents f with
    | Some old => let? c := array_set fresh (subarray old 0 (Z.min newSize (usedBytes f))) 0 in
                  Ok {| contents := Some c; usedBytes := newSize |}
    | None => Ok {| contents := Some fresh; usedBytes := newSize |}
    end.

(** [stream_ops.read]: the buffer filled and the number of bytes read. *)
Definition memfs_read (f : fdata) (buffer : list Z) (offset length position : Z) : result (list Z * Z) :=
  if usedBytes f <=? position then Ok (buffer, 0)
  else
    let size := Z.min (usedBytes f - position) length in
    if size <? 0 then Throw aborted
    else
      match contents f with
      | None => Throw type_error
      | Some c =>
          let part := subarray c position (position + size) in
          if 8 <? size then let? b := array_set buffer part offset in Ok (b, size)
          else Ok (store_bytes buffer offset part, size)
      end.

(** [stream_ops.write]; [typed] says whether the buffer is a typed array. *)
Definition memfs_write (f : fdata) (typed : bool) (buffer : list Z) (offset length position : Z) (canOwn : bool)
  : result (fdata * Z) :=
  if length =? 0 then Ok (f, 0)
  else
    let part := subarray buffer offset (offset + length) in
    let slow :=
      let? g := expandFileStorage f (position + length) in
      match contents g with
      | None => Throw type_error
      | Some c =>
          let? c := (if typed then array_set c part position else Ok (store_bytes c position part)) in
          Ok ({| contents := Some c; usedBytes := Z.max (usedBytes g) (position + length) |}, length)
      end in
    if typed then
      if canOwn then
        if negb (position =? 0) then Throw aborted else Ok ({| contents := Some part; usedBytes := length |}, length)
      else if (usedBytes f =? 0) && (position =? 0) then Ok ({| contents := Some part; usedBytes := length |}, length)
      else if position + length <=? usedBytes f then
        match contents f with
        | None => Throw type_error
        | Some c => let? c := array_set c part position in Ok ({| contents := Some c; usedBytes := usedBytes f |}, length)
        end
      else slow
    else slow.

(** [stream_ops.llseek]; [isFile] is the kind of the node. *)
Definition memfs_llseek (f : fdata) (isFile : bool) (stream_position offset whence : Z) : result Z :=
  let position :=
    if whence =? 1 then offset + stream_position
    else if (whence =? 2) && isFile then offset + usedBytes f
    else offset in
  if position <? 0 then Throw (ErrnoError 28) else Ok position.

Definition memfs_allocate (f : fdata) (offset length : Z) : result fdata :=
  let? g := expandFileStorage f (offset + length) in
  Ok {| contents := contents g; usedBytes := Z.max (usedBytes g) (offset + length) |}.

(** ** The bytes a file stands for *)

Record wf (f : fdata) : Prop := {
  used_pos : 0 <= usedBytes f;
  used_cap : usedBytes f <= capacity_of f;
  slack_zero : forall c, contents f = Some c -> Forall (eq 0) (drop (Z.to_nat (usedBytes f)) c)
}.

Definition data (f : fdata) : list Z := getFileDataAsTypedArray f.

(** Writing [bs] at [pos]: a gap is filled with zeros. *)
Definition write_spec (d : list Z) (pos : nat) (bs : list Z) : list Z :=
  take pos (d ++ repeat 0 (pos - length d)) ++ bs ++ drop (pos + length bs) d.

Definition resize_spec (d : list Z) (n : nat) : list Z := take n d ++ repeat 0 (n - length d).

(** ** Lemmas *)

Lemma zeros_repeat l : Forall (eq 0) l <-> l = repeat 0 (length l).
Proof.
  split.
  - induction 1 as [|x l <- _ IH]; [done|]. cbn. by rewrite <- IH.
  - intros ->. clear. induction (length l); constructor; done.
Qed.

Lemma data_length f : wf f -> length (data f) = Z.to_nat (usedBytes f).
Proof.
  intros [Hp Hc _]. unfold data, getFileDataAsTypedArray, capacity_of, subarray in *.
  destruct (contents f); [|cbn; lia]. rewrite length_take, length_drop. lia.
Qed.

(** The whole array is the bytes and zeros behind them. *)
Lemma contents_split f c : wf f -> contents f = Some c -> c = data f ++ repeat 0 (length c - Z.to_nat (usedBytes f)).
Proof.
  intros [Hp Hc Hz] E. specialize (Hz c E). unfold data, getFileDataAsTypedArray, subarray. rewrite E. cbn [drop].
  rewrite Z.sub_0_r. rewrite <- (take_drop (Z.to_nat (usedBytes f)) c) at 1. f_equal.
  apply zeros_repeat in Hz. rewrite Hz at 1. by rewrite length_drop.
Qed.

(** A file given by its bytes and some slack. *)
Lemma wf_make c d n k :
  c = d ++ repeat 0 k -> n = Z.of_nat (length d) ->
  let f := {| contents := Some c; usedBytes := n |} in wf f /\ data f = d.
Proof.
  intros -> ->. cbn. split.
  - split; cbn; [lia|unfold capacity_of; cbn; rewrite length_app; lia|].
    intros c [= <-]. rewrite Nat2Z.id, drop_app_length. apply zeros_repeat. by rewrite repeat_length.
  - unfold data, getFileDataAsTypedArray, subarray. cbn. rewrite Z.sub_0_r, Nat2Z.id. apply take_app_length.
Qed.

Lemma array_set_ok a b k :
  0 <= k -> k + Z.of_nat (length b) <= Z.of_nat (length a) ->
  array_set a b k = Ok (take (Z.to_nat k) a ++ b ++ drop (Z.to_nat k + length b) a).
Proof. intros. unfold array_set. by rewrite (proj2 (Z.ltb_ge _ _)), (proj2 (Z.ltb_ge _ _)) by lia. Qed.

Lemma drop_repeat (x : Z) k n : drop k (repeat x n) = repeat x (n - k).
Proof. revert n. induction k as [|k IH]; by intros [|n]; cbn. Qed.

Lemma take_repeat (x : Z) k n : take k (repeat x n) = repeat x (Nat.min k n).
Proof. revert n. induction k as [|k IH]; intros [|n]; cbn; by f_equal. Qed.

(** Filling the start of an array of zeros. *)
Lemma fill_start n d :
  (length d <= n)%nat -> array_set (repeat 0 n) d 0 = Ok (d ++ repeat 0 (n - length d)).
Proof.
  intros Hn. rewrite array_set_ok by (rewrite ?repeat_length; lia). cbn [take app Z.to_nat Nat.add]. by rewrite drop_repeat.
Qed.

Lemma grown_enough p n : n <= grown p n.
Proof. unfold grown. case_match; lia. Qed.

(** Growing keeps the bytes and gives at least the capacity asked for. *)
Lemma expand_spec f n :
  wf f -> exists g, expandFileStorage f n = Ok g /\ wf g /\ data g = data f /\ usedBytes g = usedBytes f
    /\ n <= capacity_of g /\ (0 < n -> exists c, contents g = Some c).
Proof.
  intros Hf. pose proof Hf as [Hp Hc Hz]. pose proof (data_length f Hf) as Hl. unfold expandFileStorage.
  destruct (n <=? capacity_of f) eqn:E; bool_prop.
  { exists f. split; [done|]. split; [done|]. split; [done|]. split; [done|]. split; [done|].
    intros Hn. unfold capacity_of in E. destruct (contents f); [by eexists|lia]. }
  pose proof (grown_enough (capacity_of f) n). set (cap := grown (capacity_of f) n) in *.
  assert (Hgo : forall d : list Z, d = data f -> exists g,
             Ok {| contents := Some (d ++ repeat 0 (Z.to_nat cap - length d)); usedBytes := usedBytes f |} = Ok g
             /\ wf g /\ data g = data f /\ usedBytes g = usedBytes f /\ n <= capacity_of g /\ (0 < n -> exists c, contents g = Some c)).
  { intros d ->. eexists. split; [done|]. destruct (wf_make _ (data f) (usedBytes f) (Z.to_nat cap - length (data f)) eq_refl ltac:(lia)) as [Hw Hd].
    split; [exact Hw|]. split; [exact Hd|]. split; [done|]. split; [|by eexists].
    unfold capacity_of. cbn. rewrite length_app, repeat_length. lia. }
  unfold new_Uint8Array. destruct (0 <? usedBytes f) eqn:E0; bool_prop.
  - destruct (contents f) as [old|] eqn:Eo; [|unfold capacity_of in Hc; rewrite Eo in Hc; lia].
    assert (Hs : subarray old 0 (usedBytes f) = data f) by (unfold data, getFileDataAsTypedArray; by rewrite Eo).
    rewrite Hs, fill_start by lia. cbn [rbind]. apply Hgo. done.
  - assert (Hd : data f = []) by (apply nil_length_inv; lia). specialize (Hgo [] (eq_sym Hd)). cbn in Hgo. by rewrite Nat.sub_0_r in Hgo.
Qed.

(** Writing inside an array whose bytes are followed by zeros. *)
Lemma overwrite_spec d k pos bs :
  (pos + length bs <= length d + k)%nat ->
  take pos (d ++ repeat 0 k) ++ bs ++ drop (pos + length bs) (d ++ repeat 0 k)
  = write_spec d pos bs ++ repeat 0 (length d + k - Nat.max (length d) (pos + length bs)).
Proof.
  intros Hk. unfold write_spec. rewrite drop_app, drop_repeat. rewrite <- !(assoc_L (++)). f_equal.
  - destruct (decide (pos <= length d)%nat).
    + replace (pos - length d)%nat with 0%nat by lia. cbn [repeat]. rewrite app_nil_r, take_app_le by lia. done.
    + rewrite (take_app_ge d) by lia. rewrite (take_ge (d ++ _)) by (rewrite length_app, repeat_length; lia). f_equal.
      rewrite take_repeat. f_equal. lia.
  - f_equal. f_equal. f_equal. lia.
Qed.

Lemma write_spec_length d pos bs : length (write_spec d pos bs) = Nat.max (length d) (pos + length bs).
Proof. unfold write_spec. rewrite !length_app, length_take, length_app, repeat_length, length_drop. lia. Qed.

Lemma subarray_length b off len :
  0 <= off -> 0 <= len -> off + len <= Z.of_nat (length b) -> length (subarray b off (off + len)) = Z.to_nat len.
Proof. intros. unfold subarray. rewrite length_take, length_drop. lia. Qed.

(** [store_bytes] on an array that has the room. *)
Lemma store_bytes_set a k bs :
  0 <= k -> k + Z.of_nat (length bs) <= Z.of_nat (length a) -> Forall (fun b => 0 <= b < 256) bs ->
  store_bytes a k bs = take (Z.to_nat k) a ++ bs ++ drop (Z.to_nat k + length bs) a.
Proof.
  intros Hk Hl Hb. rewrite <- (take_drop (Z.to_nat k) a) at 1. rewrite <- (take_drop (length bs) (drop (Z.to_nat k) a)) at 1.
  rewrite drop_drop. assert (Hk' : k = Z.of_nat (length (take (Z.to_nat k) a))) by (rewrite length_take; lia).
  rewrite Hk' at 4. apply store_bytes_mid; [rewrite length_take, length_drop; lia|done].
Qed.

(** A write of [bs] into an array with room behind the bytes of a file. *)
Lemma written f c pos bs :
  wf f -> contents f = Some c -> 0 <= pos -> pos + Z.of_nat (length bs) <= Z.of_nat (length c) ->
  let f' := {| contents := Some (take (Z.to_nat pos) c ++ bs ++ drop (Z.to_nat pos + length bs) c);
               usedBytes := Z.max (usedBytes f) (pos + Z.of_nat (length bs)) |} in
  wf f' /\ data f' = write_spec (data f) (Z.to_nat pos) bs.
Proof.
  intros Hf Hc Hp Hl. pose proof (data_length f Hf) as Hd. pose proof (contents_split f c Hf Hc) as Hs. pose proof Hf as [Hu Hcap _].
  unfold capacity_of in Hcap. rewrite Hc in Hcap.
  rewrite Hs, overwrite_spec by lia. eapply wf_make; [reflexivity|]. rewrite write_spec_length. lia.
Qed.

Lemma memfs_write_spec (f : fdata) (typed : bool) (buffer : list Z) (offset len position : Z) :
  wf f -> Forall (fun b => 0 <= b < 256) buffer -> 0 <= offset -> 0 < len -> 0 <= position ->
  offset + len <= Z.of_nat (length buffer) ->
  exists f', memfs_write f typed buffer offset len position false = Ok (f', len) /\ wf f'
    /\ data f' = write_spec (data f) (Z.to_nat position) (subarray buffer offset (offset + len)).
Proof.
  intros Hf Hb Ho Hl Hp Hr. pose proof Hf as [Hu Hcap _]. unfold memfs_write. rewrite (proj2 (Z.eqb_neq _ _)) by lia.
  set (part := subarray buffer offset (offset + len)).
  assert (Hpart : Z.of_nat (length part) = len) by (subst part; rewrite subarray_length; lia).
  assert (Hbytes : Forall (fun b => 0 <= b < 256) part) by (subst part; unfold subarray; by apply Forall_take, Forall_drop).
  clearbody part.
  assert (Hslow : exists f', (let? g := expandFileStorage f (position + len) in
      match contents g with
      | None => Throw type_error
      | Some c => let? c := (if typed then array_set c part position else Ok (store_bytes c position part)) in
                  Ok ({| contents := Some c; usedBytes := Z.max (usedBytes g) (position + len) |}, len)
      end) = Ok (f', len) /\ wf f' /\ data f' = write_spec (data f) (Z.to_nat position) part).
  { destruct (expand_spec f (position + len) Hf) as (g & -> & Hg & Hd & Hug & Hcg & Hsome). cbn [rbind].
    destruct (Hsome ltac:(lia)) as [c Ec]. rewrite Ec. unfold capacity_of in Hcg. rewrite Ec in Hcg.
    destruct (written g c position part Hg Ec Hp ltac:(lia)) as [Hw Hdw]. rewrite Hd, Hpart in *.
    replace (if typed then _ else _) with (Ok (A := list Z) (take (Z.to_nat position) c ++ part ++ drop (Z.to_nat position + length part) c))
      by (destruct typed; [by rewrite array_set_ok by lia|by rewrite store_bytes_set by (done || lia)]).
    cbn [rbind]. eexists. split; [done|]. split; [exact Hw|]. exact Hdw. }
  destruct typed; [|exact Hslow]. destruct ((usedBytes f =? 0) && (position =? 0)) eqn:E0; bool_prop.
  - subst position. eexists. split; [done|]. destruct (wf_make part part len 0 ltac:(by rewrite app_nil_r) ltac:(lia)) as [Hw ->].
    split; [done|]. unfold write_spec. rewrite drop_ge by (rewrite (data_length f Hf); lia).
    symmetry. apply app_nil_r.
  - destruct (position + len <=? usedBytes f) eqn:E1; bool_prop; [|exact Hslow].
    destruct (contents f) as [c|] eqn:Ec; [|unfold capacity_of in Hcap; rewrite Ec in Hcap; lia].
    assert (Hcl : usedBytes f <= Z.of_nat (length c)) by (unfold capacity_of in Hcap; by rewrite Ec in Hcap).
    rewrite array_set_ok by lia. cbn [rbind]. eexists. split; [done|].
    destruct (written f c position part Hf Ec Hp ltac:(lia)) as [Hw Hd]. rewrite Hpart, Z.max_l in * by lia. done.
Qed.

(** C17. What a write does, on every path of the code, to a well formed file with a range of bytes inside the buffer at a
    position that is not negative.  Nothing for no bytes.  A buffer the file may own becomes its whole contents, and
    only at position 0: elsewhere the assertion of the debug build fails.  Otherwise (first write, overwrite inside the
    file, growth with slack, byte-by-byte copy of a plain array) all [length] bytes are written at [position], a gap
    before it reads as zeros and the rest of the file is kept.  The file stays well formed. *)
Theorem memfs_write_refines (f : fdata) (typed : bool) (buffer : list Z) (offset len position : Z) (canOwn : bool) :
  wf f -> Forall (fun b => 0 <= b < 256) buffer -> 0 <= offset -> 0 <= len -> 0 <= position ->
  offset + len <= Z.of_nat (length buffer) ->
  let bytes := subarray buffer offset (offset + len) in
  let r := memfs_write f typed buffer offset len position canOwn in
  if len =? 0 then r = Ok (f, 0)
  else if typed && canOwn && negb (position =? 0) then r = Throw aborted
  else exists f', r = Ok (f', len) /\ wf f'
    /\ data f' = if typed && canOwn then bytes else write_spec (data f) (Z.to_nat position) bytes.
Proof.
  intros Hf Hb Ho Hl Hp Hr bytes r. destruct (len =? 0) eqn:E0; bool_prop; [by subst len|].
  assert (Hlen : Z.of_nat (length bytes) = len). { subst bytes. rewrite subarray_length; lia. }
  destruct (typed && canOwn) eqn:E1; cbn [andb].
  - bool_prop. subst r. unfold memfs_write. rewrite (proj2 (Z.eqb_neq len 0)) by lia. subst typed canOwn.
    destruct (position =? 0); [|done]. cbn [negb]. eexists. split; [done|]. apply (wf_make _ _ _ 0); [by rewrite app_nil_r|done].
  - replace r with (memfs_write f typed buffer offset len position false); [apply memfs_write_spec; (done || lia)|].
    subst r. unfold memfs_write. destruct typed, canOwn; done.
Qed.

Definition hello : list Z := [104; 101; 108; 108; 111].

Lemma new_file_wf : wf new_file.
Proof. by constructor. Qed.

Theorem memfs_write_witness :
  (exists f', memfs_write new_file true hello 1 3 4 false = Ok (f', 3) /\ wf f' /\ data f' = [0; 0; 0; 0; 101; 108; 108])
  /\ (exists f', memfs_write new_file true hello 1 3 0 true = Ok (f', 3) /\ wf f' /\ data f' = [101; 108; 108])
  /\ memfs_write new_file true hello 1 3 4 true = Throw aborted.
Proof.
  assert (Hb : Forall (fun b => 0 <= b < 256) hello) by (repeat constructor; lia).
  split; [|split].
  - apply (memfs_write_refines new_file true hello 1 3 4 false); [apply new_file_wf|exact Hb|lia|lia|lia|vm_compute; discriminate].
  - apply (memfs_write_refines new_file true hello 1 3 0 true); [apply new_file_wf|exact Hb|lia|lia|lia|vm_compute; discriminate].
  - apply (memfs_write_refines new_file true hello 1 3 4 true); [apply new_file_wf|exact Hb|lia|lia|lia|vm_compute; discriminate].
Defined.

Lemma memfs_read_spec (f : fdata) (buffer : list Z) (offset len position : Z) :
  wf f -> Forall (fun b => 0 <= b < 256) (data f) -> 0 <= offset -> 0 <= len -> 0 <= position ->
  offset + len <= Z.of_nat (length buffer) ->
  let part := subarray (data f) position (position + len) in
  memfs_read f buffer offset len position
  = Ok (take (Z.to_nat offset) buffer ++ part ++ drop (Z.to_nat offset + length part) buffer, Z.of_nat (length part)).
Proof.
  intros Hf Hb Ho Hl Hp Hr part. pose proof Hf as [Hu Hcap _]. pose proof (data_length f Hf) as Hd.
  assert (Hpart : length part = Z.to_nat (Z.min (usedBytes f - position) len))
    by (subst part; unfold subarray; rewrite length_take, length_drop; lia).
  unfold memfs_read. destruct (usedBytes f <=? position) eqn:E; bool_prop.
  - assert (Hn : part = []) by (apply nil_length_inv; lia). rewrite Hn. cbn. rewrite Nat.add_0_r, take_drop. done.
  - rewrite (proj2 (Z.ltb_ge _ 0)) by lia. destruct (contents f) as [c|] eqn:Ec; [|unfold capacity_of in Hcap; rewrite Ec in Hcap; lia].
    assert (Hsub : subarray c position (position + Z.min (usedBytes f - position) len) = part).
    { subst part. unfold data, getFileDataAsTypedArray, subarray. rewrite Ec. cbn [Z.to_nat drop].
      rewrite skipn_firstn_comm, take_take. f_equal. lia. }
    rewrite Hsub. assert (Hpb : Forall (fun b => 0 <= b < 256) part) by (subst part; unfold subarray; by apply Forall_take, Forall_drop).
    rewrite Hpart. rewrite Z2Nat.id by lia.
    destruct (8 <? _); [rewrite array_set_ok by lia; cbn [rbind]; by rewrite Hpart|].
    rewrite store_bytes_set by (done || lia). by rewrite Hpart.
Qed.

(** Reading gives back the bytes of the file: as many as are asked for and left
    behind [position], in order, at [offset] of the buffer, and nothing else of
    the buffer changes. *)
Theorem memfs_read_refines (f : fdata) (buffer : list Z) (offset len position : Z) :
  wf f -> Forall (fun b => 0 <= b < 256) (data f) -> 0 <= offset -> 0 <= len -> 0 <= position ->
  offset + len <= Z.of_nat (length buffer) ->
  let part := subarray (data f) position (position + len) in
  memfs_read f buffer offset len position
  = Ok (take (Z.to_nat offset) buffer ++ part ++ drop (Z.to_nat offset + length part) buffer, Z.of_nat (length part)).
Proof. apply memfs_read_spec. Qed.

Definition greeting : fdata := {| contents := Some (hello ++ [0; 0; 0]); usedBytes := 5 |}.

Theorem memfs_read_witness :
  memfs_read greeting [1; 2; 3; 4] 1 3 3 = Ok ([1; 108; 111; 4], 2).
Proof.
  apply (memfs_read_refines greeting [1; 2; 3; 4] 1 3 3); [|repeat constructor; lia|lia|lia|lia|vm_compute; discriminate].
  constructor; [vm_compute; discriminate|vm_compute; discriminate|]. intros c [= <-]. repeat constructor.
Defined.

(** Truncating and extending: [resizeFileStorage] cuts the bytes or fills up with
    zeros. *)
Theorem resizeFileStorage_refines (f : fdata) (n : Z) :
  wf f -> 0 <= n ->
  exists f', resizeFileStorage f n = Ok f' /\ wf f' /\ data f' = resize_spec (data f) (Z.to_nat n).
Proof.
  intros Hf Hn. pose proof Hf as [Hu Hcap _]. pose proof (data_length f Hf) as Hd. unfold resizeFileStorage, resize_spec.
  destruct (usedBytes f =? n) eqn:E; bool_prop.
  { exists f. split; [done|]. split; [done|]. rewrite take_ge by lia. replace (Z.to_nat n - length (data f))%nat with 0%nat by lia. by rewrite app_nil_r. }
  destruct (n =? 0) eqn:E0; bool_prop.
  { subst n. exists new_file. split; [done|]. split; [by constructor|]. replace (Z.to_nat 0 - length (data f))%nat with 0%nat by lia. done. }
  unfold new_Uint8Array. destruct (contents f) as [old|] eqn:Eo.
  - assert (Hs : subarray old 0 (Z.min n (usedBytes f)) = take (Z.to_nat n) (data f)).
    { unfold data, getFileDataAsTypedArray, subarray. rewrite Eo. cbn [Z.to_nat drop]. rewrite !Z.sub_0_r, take_take. f_equal. lia. }
    rewrite Hs, fill_start by (rewrite length_take; lia). cbn [rbind]. eexists. split; [done|].
    destruct (wf_make (take (Z.to_nat n) (data f) ++ repeat 0 (Z.to_nat n - length (take (Z.to_nat n) (data f)))) (take (Z.to_nat n) (data f) ++ repeat 0 (Z.to_nat n - length (data f))) n 0) as [Hw ->].
    + cbn [repeat]. rewrite app_nil_r, length_take. do 2 f_equal. lia.
    + rewrite length_app, length_take, repeat_length. lia.
    + done.
  - assert (Hnil : data f = []) by (unfold data, getFileDataAsTypedArray; by rewrite Eo). rewrite Hnil.
    eexists. split; [done|]. destruct (wf_make (repeat 0 (Z.to_nat n)) (repeat 0 (Z.to_nat n)) n 0) as [Hw ->]; [by rewrite app_nil_r|rewrite repeat_length; lia|].
    split; [done|]. by rewrite firstn_nil, Nat.sub_0_r.
Qed.
