(* ===== verification/OpusPath.v ===== *)
(** * Paths of the Opus module's file system
      ([integrations/lan-remote-access/rustdesk-web-open/libopus.js], [PATH] and [PATH_FS])

    Paths are strings; the code splits them at [/], normalises the components and
    joins them again.  The right-to-left loop of [normalizeArray] is proved equal
    to walking the components from left to right with a stack. *)

From stdpp Require Import base list numbers strings sets.
From Stdlib Require Import ZArith Lia.
From S2P Require Import Prelude JsString Regex.
Local Open Scope Z_scope.

Definition slash : Z := 47.
Definition dot : jsstr := [46].
Definition dotdot : jsstr := [46; 46].

(** ** [PATH] *)

Definition not_slash_char (c : Z) : bool := negb (c =? slash).

(** Between the anchors: the root; lazily anything; the base, which is one or two
    dots, or lazily characters that are no slash, or nothing, with its extension, a
    dot and characters that are neither dot nor slash; any slashes. *)
Definition splitPathRe : regex :=
  rseq [RBol;
        RGroup (RAlt (RAlt (RSet (chr slash)) REps) REps);
        RGroup (RLazy (fun _ => true));
        RGroup (RSeq (RAlt (RAlt (RSeq (RSet (chr 46)) (RAlt (RSet (chr 46)) REps))
                                 (RSeq (RSet not_slash_char) (RLazy not_slash_char)))
                           REps)
                     (RGroup (RAlt (RSeq (RSet (chr 46)) (RStar (fun c => not_slash_char c && negb (c =? 46)))) REps)));
        RStar (chr slash);
        REol].

(** The four groups; the matcher records the inner group before the outer one. *)
Definition splitPath (filename : jsstr) : option (jsstr * jsstr * jsstr * jsstr) :=
  match exec splitPathRe filename with
  | Some (_, st) => match caps st with [root; dir; ext; base] => Some (root, dir, base, ext) | _ => None end
  | None => None
  end.

(** One turn of the loop, which runs from the last component to the first: the
    count [up] and the components kept behind. *)
Definition normalize_turn (last : jsstr) (st : nat * list jsstr) : nat * list jsstr :=
  let '(up, kept) := st in
  if str_eqb last dot then (up, kept)
  else if str_eqb last dotdot then (S up, kept)
  else match up with
       | S u => (u, kept)
       | O => (O, last :: kept)
       end.

Definition normalizeArray (parts : list jsstr) (allowAboveRoot : bool) : list jsstr :=
  let '(up, kept) := foldr normalize_turn (O, []) parts in
  if allowAboveRoot then repeat dotdot up ++ kept else kept.

Definition nonempty (s : jsstr) : bool := match s with [] => false | _ => true end.

(** [path.split('/').filter(p => !!p)] *)
Definition components (path : jsstr) : list jsstr := List.filter nonempty (split_char slash path).

Definition is_absolute (path : jsstr) : bool := match path with c :: _ => c =? slash | [] => false end.

Definition normalize (path : jsstr) : jsstr :=
  let isAbsolute := is_absolute path in
  let trailingSlash := match last path with Some c => c =? slash | None => false end in
  let p := join_char slash (normalizeArray (components path) (negb isAbsolute)) in
  let p := if negb (nonempty p) && negb isAbsolute then dot else p in
  let p := if nonempty p && trailingSlash then p ++ [slash] else p in
  (if isAbsolute then [slash] else []) ++ p.

Definition dirname (path : jsstr) : option jsstr :=
  match splitPath path with
  | None => None
  | Some (root, dir, _, _) =>
      if negb (nonempty root) && negb (nonempty dir) then Some dot
      else
        let dir := if nonempty dir then slice_end dir 1 else dir in
        Some (root ++ dir)
  end.

(** [path.replace(/\/$/, "")] *)
Definition strip_last_slash (path : jsstr) : jsstr :=
  match last path with Some c => if c =? slash then slice_end path 1 else path | None => path end.

(** [path.lastIndexOf('/')] and the rest behind it. *)
Definition after_last_slash (path : jsstr) : jsstr :=
  match last (split_char slash path) with Some w => w | None => path end.

Definition basename (path : jsstr) : jsstr :=
  if str_eqb path [slash] then [slash]
  else after_last_slash (strip_last_slash (normalize path)).

Definition extname (path : jsstr) : option jsstr :=
  match splitPath path with Some (_, _, _, ext) => Some ext | None => None end.

Definition join (paths : list jsstr) : jsstr := normalize (join_char slash paths).
Definition join2 (l r : jsstr) : jsstr := normalize (l ++ slash :: r).

(** ** [PATH_FS] *)

(** The loop of [resolve] over the arguments from the last to the first, then the
    working directory; [None] is the early return of the empty path. *)
Fixpoint resolve_loop (paths : list jsstr) (resolvedPath : jsstr) (resolvedAbsolute : bool) : option (jsstr * bool) :=
  match paths with
  | [] => Some (resolvedPath, resolvedAbsolute)
  | path :: paths' =>
      if resolvedAbsolute then Some (resolvedPath, resolvedAbsolute)
      else match path with
           | [] => None
           | _ => resolve_loop paths' (path ++ slash :: resolvedPath) (is_absolute path)
           end
  end.

Definition resolve (cwd : jsstr) (args : list jsstr) : jsstr :=
  match resolve_loop (rev args ++ [cwd]) [] false with
  | None => []
  | Some (resolvedPath, resolvedAbsolute) =>
      let p := join_char slash (normalizeArray (components resolvedPath) (negb resolvedAbsolute)) in
      let r := (if resolvedAbsolute then [slash] else []) ++ p in
      if nonempty r then r else dot
  end.

(** [trim] of [relative]: the number of empty components at each end. *)
Fixpoint leading_empty (arr : list jsstr) : nat :=
  match arr with
  | [] => O
  | w :: arr' => if nonempty w then O else S (leading_empty arr')
  end.

Definition trim_parts (arr : list jsstr) : list jsstr :=
  let start := Z.of_nat (leading_empty arr) in
  let end_ := Z.of_nat (length arr) - 1 - Z.of_nat (leading_empty (rev arr)) in
  if end_ <? start then []
  else take (Z.to_nat (end_ - start + 1) - Z.to_nat start) (drop (Z.to_nat start) arr).

Fixpoint common_prefix (a b : list jsstr) : nat :=
  match a, b with
  | x :: a', y :: b' => if str_eqb x y then S (common_prefix a' b') else O
  | _, _ => O
  end.

Definition relative (cwd from to : jsstr) : jsstr :=
  let fromParts := trim_parts (split_char slash (drop 1 (resolve cwd [from]))) in
  let toParts := trim_parts (split_char slash (drop 1 (resolve cwd [to]))) in
  let same := common_prefix fromParts toParts in
  join_char slash (repeat dotdot (length fromParts - same) ++ drop same toParts).

(** Values the code gives. *)
Example normalize_ex : normalize (js "/a//b/../c/./d/") = js "/a/c/d/". Proof. vm_compute. reflexivity. Qed.
Example dirname_ex : dirname (js "/home/web/a.tar.gz") = Some (js "/home/web"). Proof. vm_compute. reflexivity. Qed.
Example dirname_ex2 : map dirname [js "a"; js "/a"; js "/a/b/"; js "/"; js "a/.b"] = [Some (js "."); Some (js "/"); Some (js "/a"); Some (js "/"); Some (js "a")].
Proof. vm_compute. reflexivity. Qed.
Example basename_ex : map basename [js "/a/b/"; js "b"; js "/"; js "/a/.."] = [js "b"; js "b"; js "/"; js ""]. Proof. vm_compute. reflexivity. Qed.
Example extname_ex : map extname [js "/a/b.txt"; js "/a/.profile"; js "x.tar.gz"] = [Some (js ".txt"); Some (js ""); Some (js ".gz")]. Proof. vm_compute. reflexivity. Qed.
Example resolve_ex : resolve (js "/home") [js "web"; js "../x"] = js "/home/x". Proof. vm_compute. reflexivity. Qed.
Example relative_ex : relative (js "/") (js "/a/b/c") (js "/a/d") = js "../../d". Proof. vm_compute. reflexivity. Qed.

(** ** Normalisation with a stack *)

(** [..] takes the last component back; above the root it is kept or dropped. *)
Definition pop (allowAboveRoot : bool) (stack : list jsstr) : list jsstr :=
  match stack with
  | top :: below => if str_eqb top dotdot then (if allowAboveRoot then dotdot :: stack else stack) else below
  | [] => if allowAboveRoot then [dotdot] else []
  end.

Definition push (allowAboveRoot : bool) (stack : list jsstr) (part : jsstr) : list jsstr :=
  if str_eqb part dot then stack
  else if str_eqb part dotdot then pop allowAboveRoot stack
  else part :: stack.

Definition walk (allowAboveRoot : bool) (parts : list jsstr) : list jsstr :=
  rev (fold_left (push allowAboveRoot) parts []).

Lemma turns_as_stack above parts stack :
  let '(up, kept) := foldr normalize_turn (O, []) parts in
  fold_left (push above) parts stack = rev kept ++ Nat.iter up (pop above) stack.
Proof.
  revert stack. induction parts as [|x parts IH]; intros stack; [done|]. cbn [foldr fold_left].
  destruct (foldr normalize_turn (O, []) parts) as [up kept]. rewrite IH. unfold normalize_turn, push.
  destruct (str_eqb x dot); [done|]. destruct (str_eqb x dotdot) eqn:E.
  - by rewrite Nat.iter_succ_r.
  - destruct up as [|u]; cbn [rev]; [by rewrite <- app_assoc|]. rewrite Nat.iter_succ_r. cbn [pop]. by rewrite E.
Qed.

Lemma pops_above up : Nat.iter up (pop true) [] = repeat dotdot up.
Proof. induction up as [|u IH]; [done|]. rewrite Nat.iter_succ, IH. by destruct u. Qed.

Lemma pops_root up : Nat.iter up (pop false) [] = [].
Proof. induction up as [|u IH]; [done|]. by rewrite Nat.iter_succ, IH. Qed.

Lemma rev_repeat {A} (x : A) n : rev (repeat x n) = repeat x n.
Proof.
  induction n as [|n IH]; [done|]. cbn. rewrite IH. clear IH. induction n as [|n IH]; [done|]. cbn. by rewrite IH.
Qed.

(** The loop of [normalizeArray], which counts the [..] it has seen from the right,
    gives what a walk from the left with a stack gives. *)
Lemma normalizeArray_walk parts above : normalizeArray parts above = walk above parts.
Proof.
  unfold normalizeArray, walk. pose proof (turns_as_stack above parts []) as H.
  destruct (foldr normalize_turn (O, []) parts) as [up kept]. rewrite H, rev_app_distr, rev_involutive.
  destruct above; [by rewrite pops_above, rev_repeat|by rewrite pops_root].
Qed.

(** ** Components *)

Definition proper (w : jsstr) : Prop := w <> [] /\ slash ∉ w.
Definition plain (w : jsstr) : Prop := proper w /\ w <> dot /\ w <> dotdot.

Lemma components_app a b : components (a ++ slash :: b) = components a ++ components b.
Proof. unfold components. by rewrite split_char_app, List.filter_app. Qed.

Lemma components_nil : components [] = [].
Proof. done. Qed.

Lemma components_slash a : components (a ++ [slash]) = components a.
Proof. by rewrite components_app, components_nil, app_nil_r. Qed.

Lemma components_one w : proper w -> components w = [w].
Proof. intros [Hn Hs]. unfold components. rewrite split_char_none by done. by destruct w. Qed.

Lemma components_proper p : Forall proper (components p).
Proof.
  apply List.Forall_forall. intros w Hw. apply filter_In in Hw as [Hin Hne].
  pose proof (split_char_no_sep slash p) as H. rewrite List.Forall_forall in H. split; [by destruct w|by apply H].
Qed.

Lemma split_join ws : ws <> [] -> Forall proper ws -> split_char slash (join_char slash ws) = ws.
Proof.
  intros Hn H. induction H as [|w ws [_ Hs] Hws IH]; [done|]. destruct ws as [|w' ws]; [by apply split_char_none|].
  change (join_char slash (w :: w' :: ws)) with (w ++ slash :: join_char slash (w' :: ws)).
  rewrite split_char_app, IH, split_char_none by done. done.
Qed.

Lemma filter_nonempty ws : Forall proper ws -> List.filter nonempty ws = ws.
Proof. induction 1 as [|w ws [Hn _] _ IH]; [done|]. cbn. rewrite IH. by destruct w. Qed.

Lemma components_join ws : Forall proper ws -> components (join_char slash ws) = ws.
Proof.
  intros H. destruct ws as [|w ws]; [done|]. unfold components. rewrite split_join by done. by apply filter_nonempty.
Qed.

(** What is left after normalising an absolute path: proper components only. *)
Lemma push_plain stack part : Forall plain stack -> proper part -> Forall plain (push false stack part).
Proof.
  intros Hs Hp. unfold push. destruct (str_eqb part dot) eqn:E1; [done|]. destruct (str_eqb part dotdot) eqn:E2.
  - destruct Hs as [|top below Ht Hb]; [done|]. cbn. destruct (str_eqb top dotdot); [by constructor|done].
  - apply str_eqb_neq in E1, E2. by constructor.
Qed.

Lemma walk_plain parts : Forall proper parts -> Forall plain (walk false parts).
Proof.
  intros H. unfold walk. apply Forall_rev. assert (Hg : forall stack, Forall plain stack -> Forall plain (fold_left (push false) parts stack)).
  { induction H as [|x parts Hx _ IH]; intros stack Hs; [done|]. cbn. apply IH. by apply push_plain. }
  by apply Hg.
Qed.

Lemma plain_proper ws : Forall plain ws -> Forall proper ws.
Proof. intros H. eapply Forall_impl; [exact H|]. by intros ? []. Qed.

Lemma walk_push_plain ws stack : Forall plain ws -> fold_left (push false) ws stack = rev ws ++ stack.
Proof.
  intros H. revert stack. induction H as [|w ws (_ & Hd & Hdd) _ IH]; intros stack; [done|]. cbn. rewrite IH. unfold push.
  apply str_eqb_neq in Hd, Hdd. rewrite Hd, Hdd. by rewrite <- app_assoc.
Qed.

Lemma walk_pops n stack : Forall plain stack -> fold_left (push false) (repeat dotdot n) stack = drop n stack.
Proof.
  revert stack. induction n as [|n IH]; intros stack H; [done|]. cbn [repeat fold_left].
  replace (push false stack dotdot) with (drop 1 stack).
  - rewrite IH by by apply Forall_drop. by rewrite drop_drop.
  - destruct H as [|top below (_ & _ & Hdd) _]; [done|]. unfold push. cbn. apply str_eqb_neq in Hdd. by rewrite Hdd.
Qed.

(** ** Resolving *)

(** The components a path stands for: its own, or those of the working directory
    before them. *)
Definition base (cwd path : jsstr) : list jsstr :=
  if is_absolute path then components path else components cwd ++ components path.

Lemma base_proper cwd path : Forall proper (base cwd path).
Proof. unfold base. case_match; [apply components_proper|]. apply Forall_app. split; apply components_proper. Qed.

Lemma resolve_one cwd path :
  is_absolute cwd = true -> path <> [] ->
  resolve cwd [path] = slash :: join_char slash (walk false (base cwd path)).
Proof.
  intros Hc Hp. unfold resolve, base. rewrite <- !normalizeArray_walk. cbn [rev app resolve_loop]. destruct path as [|c path]; [done|].
  destruct (is_absolute (c :: path)) eqn:Ha.
  - by rewrite components_slash.
  - destruct cwd as [|d cwd]; [done|]. rewrite Hc. by rewrite components_app, components_slash.
Qed.

Lemma resolve_two cwd path rel :
  is_absolute cwd = true -> path <> [] -> rel <> [] -> is_absolute rel = false ->
  resolve cwd [path; rel] = slash :: join_char slash (walk false (base cwd path ++ components rel)).
Proof.
  intros Hc Hp Hr Hra. unfold resolve, base. rewrite <- !normalizeArray_walk. cbn [rev app resolve_loop].
  destruct rel as [|r rel]; [done|]. rewrite Hra. destruct path as [|c path]; [done|]. destruct (is_absolute (c :: path)) eqn:Ha.
  - by rewrite components_app, components_slash.
  - destruct cwd as [|d cwd]; [done|]. rewrite Hc.
    by rewrite !components_app, components_nil, app_nil_r, <- (assoc_L (++)).
Qed.

(** Resolving keeps a path inside the root: from an absolute working directory,
    every non-empty path resolves to [/] and the components of the path or of the
    working directory and the path, walked from the left with [..] taking one
    component back and never more than there are; no component of the result is
    empty, [.] or [..]. *)
Theorem resolve_confined (cwd path : jsstr) :
  is_absolute cwd = true -> path <> [] ->
  exists ws, resolve cwd [path] = slash :: join_char slash ws /\ Forall plain ws /\ ws = walk false (base cwd path).
Proof.
  intros Hc Hp. exists (walk false (base cwd path)). split; [by apply resolve_one|]. split; [|done]. apply walk_plain, base_proper.
Qed.

Theorem resolve_confined_witness :
  exists ws, resolve (js "/home") [js "../../etc/./passwd"] = slash :: join_char slash ws /\ Forall plain ws
    /\ ws = walk false (base (js "/home") (js "../../etc/./passwd")).
Proof. apply (resolve_confined (js "/home") (js "../../etc/./passwd")); [vm_compute; reflexivity|discriminate]. Defined.

(** *** The way from one path to another *)

Lemma leading_empty_proper ws : Forall proper ws -> leading_empty ws = O.
Proof. intros [|w ws' [Hn _] _]; [done|]. cbn. by destruct w. Qed.

Lemma trim_parts_proper ws : ws <> [] -> Forall proper ws -> trim_parts ws = ws.
Proof.
  intros Hn H. unfold trim_parts. rewrite !leading_empty_proper by (done || by apply Forall_rev). destruct ws as [|w ws]; [done|].
  cbn [length]. rewrite (proj2 (Z.ltb_ge _ _)) by lia. cbn [Z.of_nat Z.to_nat drop]. apply take_ge. cbn [length]. lia.
Qed.

Lemma trim_split_join ws : Forall proper ws -> trim_parts (split_char slash (join_char slash ws)) = ws.
Proof.
  intros H. destruct ws as [|w ws]; [done|]. rewrite split_join by done. by apply trim_parts_proper.
Qed.

Lemma common_prefix_take a b : take (common_prefix a b) a = take (common_prefix a b) b.
Proof.
  revert b. induction a as [|x a IH]; intros [|y b]; cbn; try done. destruct (str_eqb x y) eqn:E; [|done].
  apply str_eqb_eq in E as ->. cbn. by rewrite IH.
Qed.

Lemma common_prefix_le a b : (common_prefix a b <= length a)%nat.
Proof. revert b. induction a as [|x a IH]; intros [|y b]; cbn; try lia. case_match; [|lia]. specialize (IH b). lia. Qed.

Lemma relative_parts cwd from to :
  is_absolute cwd = true -> from <> [] -> to <> [] ->
  let f := walk false (base cwd from) in let t := walk false (base cwd to) in
  relative cwd from to = join_char slash (repeat dotdot (length f - common_prefix f t) ++ drop (common_prefix f t) t).
Proof.
  intros Hc Hf Ht. unfold relative. rewrite !resolve_one by done.
  change (drop 1 (slash :: ?s)) with s.
  rewrite !trim_split_join by (apply plain_proper, walk_plain, base_proper). done.
Qed.

Lemma proper_dotdot : proper dotdot.
Proof. split; [done|]. unfold dotdot, slash. set_solver. Qed.

Lemma join_not_absolute ws : Forall proper ws -> is_absolute (join_char slash ws) = false.
Proof.
  intros [|w ws' [Hn Hs] _]; [done|]. destruct w as [|c w]; [done|].
  assert (Hc : (c =? slash) = false) by (apply Z.eqb_neq; set_solver). by destruct ws'.
Qed.

(** [relative] leads from one path to the other: resolving it from [from] gives
    the same as resolving [to], unless the two are the same place, where it is
    empty. *)
Theorem relative_resolves (cwd from to : jsstr) :
  is_absolute cwd = true -> from <> [] -> to <> [] -> relative cwd from to <> [] ->
  resolve cwd [from; relative cwd from to] = resolve cwd [to].
Proof.
  intros Hc Hf Ht Hr. rewrite (relative_parts cwd from to) in * by done.
  set (f := walk false (base cwd from)) in *. set (t := walk false (base cwd to)) in *. set (k := common_prefix f t) in *.
  assert (Pf : Forall plain f) by apply walk_plain, base_proper. assert (Pt : Forall plain t) by apply walk_plain, base_proper.
  assert (Hpr : Forall proper (repeat dotdot (length f - k) ++ drop k t)).
  { apply Forall_app. split; [apply List.Forall_forall; intros w Hw; apply repeat_spec in Hw as ->; apply proper_dotdot|].
    by apply plain_proper, Forall_drop. }
  rewrite resolve_two by (done || by apply join_not_absolute). rewrite resolve_one by done. do 2 f_equal.
  rewrite components_join by done. unfold walk at 1. rewrite !fold_left_app.
  assert (Hs : fold_left (push false) (base cwd from) [] = rev f) by (subst f; unfold walk; by rewrite rev_involutive).
  rewrite Hs, walk_pops by by apply Forall_rev. rewrite walk_push_plain by by apply Forall_drop.
  rewrite rev_app_distr, rev_involutive. assert (Hd : rev (drop (length f - k) (rev f)) = take k f).
  { rewrite skipn_rev, rev_involutive. f_equal. pose proof (common_prefix_le f t). lia. }
  rewrite Hd. unfold k. rewrite common_prefix_take. apply take_drop.
Qed.

Theorem relative_resolves_witness :
  resolve (js "/") [js "/a/b/c"; relative (js "/") (js "/a/b/c") (js "/a/d/e")] = resolve (js "/") [js "/a/d/e"].
Proof. apply (relative_resolves (js "/") (js "/a/b/c") (js "/a/d/e")); [vm_compute; reflexivity|discriminate|discriminate|vm_compute; discriminate]. Defined.
