(* ===== verification/OpusErrno.v ===== *)
(** * Errors of the Opus module's file system
      ([integrations/lan-remote-access/rustdesk-web-open/libopus.js], [ERRNO_CODES], [ERRNO_MESSAGES], [FS.ErrnoError])

    The numbers of the errors with their texts and names, and the objects that are thrown.
    An object takes its name from the table as it is at that moment, and the table is
    filled after the file system has been set up. *)

From stdpp Require Import base list numbers strings.
From Stdlib Require Import ZArith Lia.
From S2P Require Import Prelude.
Local Open Scope Z_scope.

(** ** The tables *)

Definition ERRNO_MESSAGES : list (Z * string) := [
  (0, "Success"); (1, "Arg list too long"); (2, "Permission denied"); (3, "Address already in use");
  (4, "Address not available"); (5, "Address family not supported by protocol family");
  (6, "No more processes"); (7, "Socket already connected"); (8, "Bad file number");
  (9, "Trying to read unreadable message"); (10, "Mount device busy"); (11, "Operation canceled");
  (12, "No children"); (13, "Connection aborted"); (14, "Connection refused");
  (15, "Connection reset by peer"); (16, "File locking deadlock error"); (17, "Destination address required");
  (18, "Math arg out of domain of func"); (19, "Quota exceeded"); (20, "File exists"); (21, "Bad address");
  (22, "File too large"); (23, "Host is unreachable"); (24, "Identifier removed");
  (25, "Illegal byte sequence"); (26, "Connection already in progress"); (27, "Interrupted system call");
  (28, "Invalid argument"); (29, "I/O error"); (30, "Socket is already connected"); (31, "Is a directory");
  (32, "Too many symbolic links"); (33, "Too many open files"); (34, "Too many links");
  (35, "Message too long"); (36, "Multihop attempted"); (37, "File or path name too long");
  (38, "Network interface is not configured"); (39, "Connection reset by network");
  (40, "Network is unreachable"); (41, "Too many open files in system"); (42, "No buffer space available");
  (43, "No such device"); (44, "No such file or directory"); (45, "Exec format error");
  (46, "No record locks available"); (47, "The link has been severed"); (48, "Not enough core");
  (49, "No message of desired type"); (50, "Protocol not available"); (51, "No space left on device");
  (52, "Function not implemented"); (53, "Socket is not connected"); (54, "Not a directory");
  (55, "Directory not empty"); (56, "State not recoverable"); (57, "Socket operation on non-socket");
  (59, "Not a typewriter"); (60, "No such device or address"); (61, "Value too large for defined data type");
  (62, "Previous owner died"); (63, "Not super-user"); (64, "Broken pipe"); (65, "Protocol error");
  (66, "Unknown protocol"); (67, "Protocol wrong type for socket"); (68, "Math result not representable");
  (69, "Read only file system"); (70, "Illegal seek"); (71, "No such process"); (72, "Stale file handle");
  (73, "Connection timed out"); (74, "Text file busy"); (75, "Cross-device link");
  (100, "Device not a stream"); (101, "Bad font file fmt"); (102, "Invalid slot");
  (103, "Invalid request code"); (104, "No anode"); (105, "Block device required");
  (106, "Channel number out of range"); (107, "Level 3 halted"); (108, "Level 3 reset");
  (109, "Link number out of range"); (110, "Protocol driver not attached");
  (111, "No CSI structure available"); (112, "Level 2 halted"); (113, "Invalid exchange");
  (114, "Invalid request descriptor"); (115, "Exchange full"); (116, "No data (for no delay io)");
  (117, "Timer expired"); (118, "Out of streams resources"); (119, "Machine is not on the network");
  (120, "Package not installed"); (121, "The object is remote"); (122, "Advertise error");
  (123, "Srmount error"); (124, "Communication error on send"); (125, "Cross mount point (not really error)");
  (126, "Given log. name not unique"); (127, "f.d. invalid for this operation");
  (128, "Remote address changed"); (129, "Can   access a needed shared lib");
  (130, "Accessing a corrupted shared lib"); (131, ".lib section in a.out corrupted");
  (132, "Attempting to link in too many libs"); (133, "Attempting to exec a shared library");
  (135, "Streams pipe error"); (136, "Too many users"); (137, "Socket type not supported");
  (138, "Not supported"); (139, "Protocol family not supported"); (140, "Can't send after socket shutdown");
  (141, "Too many references"); (142, "Host is down"); (148, "No medium (in tape drive)");
  (156, "Level 2 not synchronized")
]%string.

Definition ERRNO_CODES : list (string * Z) := [
  ("EPERM", 63); ("ENOENT", 44); ("ESRCH", 71); ("EINTR", 27); ("EIO", 29); ("ENXIO", 60); ("E2BIG", 1);
  ("ENOEXEC", 45); ("EBADF", 8); ("ECHILD", 12); ("EAGAIN", 6); ("EWOULDBLOCK", 6); ("ENOMEM", 48);
  ("EACCES", 2); ("EFAULT", 21); ("ENOTBLK", 105); ("EBUSY", 10); ("EEXIST", 20); ("EXDEV", 75);
  ("ENODEV", 43); ("ENOTDIR", 54); ("EISDIR", 31); ("EINVAL", 28); ("ENFILE", 41); ("EMFILE", 33);
  ("ENOTTY", 59); ("ETXTBSY", 74); ("EFBIG", 22); ("ENOSPC", 51); ("ESPIPE", 70); ("EROFS", 69);
  ("EMLINK", 34); ("EPIPE", 64); ("EDOM", 18); ("ERANGE", 68); ("ENOMSG", 49); ("EIDRM", 24); ("ECHRNG", 106);
  ("EL2NSYNC", 156); ("EL3HLT", 107); ("EL3RST", 108); ("ELNRNG", 109); ("EUNATCH", 110); ("ENOCSI", 111);
  ("EL2HLT", 112); ("EDEADLK", 16); ("ENOLCK", 46); ("EBADE", 113); ("EBADR", 114); ("EXFULL", 115);
  ("ENOANO", 104); ("EBADRQC", 103); ("EBADSLT", 102); ("EDEADLOCK", 16); ("EBFONT", 101); ("ENOSTR", 100);
  ("ENODATA", 116); ("ETIME", 117); ("ENOSR", 118); ("ENONET", 119); ("ENOPKG", 120); ("EREMOTE", 121);
  ("ENOLINK", 47); ("EADV", 122); ("ESRMNT", 123); ("ECOMM", 124); ("EPROTO", 65); ("EMULTIHOP", 36);
  ("EDOTDOT", 125); ("EBADMSG", 9); ("ENOTUNIQ", 126); ("EBADFD", 127); ("EREMCHG", 128); ("ELIBACC", 129);
  ("ELIBBAD", 130); ("ELIBSCN", 131); ("ELIBMAX", 132); ("ELIBEXEC", 133); ("ENOSYS", 52); ("ENOTEMPTY", 55);
  ("ENAMETOOLONG", 37); ("ELOOP", 32); ("EOPNOTSUPP", 138); ("EPFNOSUPPORT", 139); ("ECONNRESET", 15);
  ("ENOBUFS", 42); ("EAFNOSUPPORT", 5); ("EPROTOTYPE", 67); ("ENOTSOCK", 57); ("ENOPROTOOPT", 50);
  ("ESHUTDOWN", 140); ("ECONNREFUSED", 14); ("EADDRINUSE", 3); ("ECONNABORTED", 13); ("ENETUNREACH", 40);
  ("ENETDOWN", 38); ("ETIMEDOUT", 73); ("EHOSTDOWN", 142); ("EHOSTUNREACH", 23); ("EINPROGRESS", 26);
  ("EALREADY", 7); ("EDESTADDRREQ", 17); ("EMSGSIZE", 35); ("EPROTONOSUPPORT", 66); ("ESOCKTNOSUPPORT", 137);
  ("EADDRNOTAVAIL", 4); ("ENETRESET", 39); ("EISCONN", 30); ("ENOTCONN", 53); ("ETOOMANYREFS", 141);
  ("EUSERS", 136); ("EDQUOT", 19); ("ESTALE", 72); ("ENOTSUP", 138); ("ENOMEDIUM", 148); ("EILSEQ", 25);
  ("EOVERFLOW", 61); ("ECANCELED", 11); ("ENOTRECOVERABLE", 56); ("EOWNERDEAD", 62); ("ESTRPIPE", 135)
]%string.

(** ** The objects *)

Fixpoint message_of (t : list (Z * string)) (errno : Z) : option string :=
  match t with
  | [] => None
  | (n, text) :: t => if n =? errno then Some text else message_of t errno
  end.

(** The loop of [setErrno] over the names, in the order of the table. *)
Fixpoint code_name (t : list (string * Z)) (errno : Z) : option string :=
  match t with
  | [] => None
  | (key, n) :: t => if n =? errno then Some key else code_name t errno
  end.

Record errno_error := { errno : Z; error_node : option nat; code : option string; error_message : option string }.

(** A name is only replaced by another one. *)
Definition setErrno (t : list (string * Z)) (n : Z) (e : errno_error) : errno_error :=
  {| errno := n; error_node := error_node e; code := match code_name t n with Some key => Some key | None => code e end; error_message := error_message e |}.

Definition new_ErrnoError (t : list (string * Z)) (n : Z) (node : option nat) : errno_error :=
  let e := setErrno t n {| errno := 0; error_node := node; code := None; error_message := None |} in
  {| errno := errno e; error_node := error_node e; code := code e; error_message := message_of ERRNO_MESSAGES n |}.

(** [ensureErrnoError], called by [staticInit] while the table of names is still empty; further calls do nothing. *)
Definition ensureErrnoError (t : list (string * Z)) (generic : option (list (Z * errno_error))) : list (Z * errno_error) :=
  match generic with
  | Some g => g
  | None => List.map (fun n => (n, new_ErrnoError t n None)) [44]
  end.

Definition genericErrors : list (Z * errno_error) := ensureErrnoError ERRNO_CODES (Some (ensureErrnoError [] None)).

(** ** Properties *)

(** The numbers the file system throws or returns as errors. *)
Definition thrown_numbers : list Z := [2; 6; 8; 10; 20; 28; 29; 31; 32; 33; 43; 44; 54; 55; 59; 63; 70; 75; 138].

Lemma code_of_number t n key : code_name t n = Some key -> In (key, n) t.
Proof.
  induction t as [|[k m] t IH]; cbn; [done|]. destruct (Z.eqb_spec m n) as [->|]; [intros [= ->]; by left | by right; auto].
Qed.

Lemma code_of_complete t n key : In (key, n) t -> exists key', code_name t n = Some key'.
Proof.
  induction t as [|[k m] t IH]; cbn; [done|]. intros [[= -> ->]|H]; [rewrite Z.eqb_refl; eauto|]. destruct (m =? n); eauto.
Qed.

(** The name of an error belongs to its number; every number that has a name gives an object with a name and a text. *)
Theorem error_objects (n : Z) (node : option nat) :
  let e := new_ErrnoError ERRNO_CODES n node in
  errno e = n /\ error_node e = node
  /\ (forall key, code e = Some key -> In (key, n) ERRNO_CODES)
  /\ (forall key, In (key, n) ERRNO_CODES -> is_Some (code e) /\ is_Some (error_message e)).
Proof.
  cbv zeta. unfold new_ErrnoError, setErrno. cbn [errno error_node code error_message]. split; [done|]. split; [done|]. split.
  - intros key. destruct (code_name ERRNO_CODES n) as [k|] eqn:E; [|done]. intros [= <-]. by apply code_of_number.
  - intros key H. destruct (code_of_complete _ _ _ H) as [k ->]. split; [by eexists|].
    assert (A : forallb (fun c => match message_of ERRNO_MESSAGES (snd c) with Some _ => true | None => false end) ERRNO_CODES = true) by (vm_compute; reflexivity).
    rewrite forallb_forall in A. specialize (A _ H). cbn [snd] in A. destruct (message_of ERRNO_MESSAGES n); [by eexists|done].
Qed.

(** Every error of the file system has a name and a text when it is made after the tables are complete. *)
Lemma thrown_numbers_named : Forall (fun n => is_Some (code_name ERRNO_CODES n) /\ is_Some (message_of ERRNO_MESSAGES n)) thrown_numbers.
Proof. unfold thrown_numbers. repeat constructor; vm_compute; eauto. Qed.

(** The shared object for a missing file was made before the names existed, so it never has one, although its number does. *)
Lemma missing_file_has_no_code :
  option_map code (option_map snd (List.find (fun p => fst p =? 44) genericErrors)) = Some None /\ code_name ERRNO_CODES 44 = Some "ENOENT"%string.
Proof. split; vm_compute; reflexivity. Qed.

(** Of two names of one number the first of the table is taken. *)
Example would_block : code (new_ErrnoError ERRNO_CODES 6 None) = Some "EAGAIN"%string.
Proof. vm_compute. reflexivity. Qed.
