(* ===== verification/OpusNode.v ===== *)
(** * Nodes and names of the Opus module's file system
      ([integrations/lan-remote-access/rustdesk-web-open/libopus.js], [FS])

    The state of the file system and its name table: a hash table of nodes by
    parent and name, chained through the nodes themselves.  The operations run in
    a monad that keeps the state when an exception is thrown.  Time stamps are not
    part of the state. *)

From stdpp Require Import base list numbers strings gmap.
From Stdlib Require Import ZArith Lia.
From S2P Require Import Prelude JsString OpusText OpusMemfs OpusPath OpusTty.
Local Open Scope Z_scope.

(** ** State *)

(** Which table of operations a node has: that of [MEMFS.createNode]; that of [/proc/self/fd], which has only a [lookup];
    that of what this [lookup] gives, which has only a [readlink]. *)
Inductive ops := DirOps | FileOps | LinkOps | ChrOps | NoOps | FdDirOps | FdLinkOps.
#[export] Instance ops_eq_dec : EqDecision ops.
Proof. solve_decision. Defined.

Record node := {
  parent : nat;                       (* the node itself for a root *)
  mount_of : option nat;
  mounted : option nat;
  name : jsstr;
  mode : Z;
  rdev : Z;
  node_ops : ops;
  entries : list (jsstr * nat);       (* contents of a directory *)
  file : fdata;                       (* contents of a file *)
  link : jsstr;
  name_next : option nat
}.

Record mount := { mountpoint : jsstr; mroot : option nat; children : list nat }.

(** The operations registered for a device: [/dev/null], a terminal, or functions given to [createDevice]. *)
Inductive dev_ops := NullDevice | TtyDevice | FunDevice (input output : option nat).

(** The operations of a device as an open stream has them; [STty] with the terminal object of the stream. *)
Inductive sdev_ops := SNull | STty (tty : option nat) | SFun (input output : option nat).
#[export] Instance sdev_ops_eq_dec : EqDecision sdev_ops.
Proof. solve_decision. Defined.

Record stream := {
  snode : nat; spath : jsstr; sflags : Z; sposition : Z; seekable : bool;
  sops : ops; fd : option Z;
  sdev : option sdev_ops              (* the operations of the device, once its [open] has run *)
}.

Record fs := {
  root : option nat;
  nodes : gmap nat node;
  nextInode : nat;
  nameTable : gmap Z nat;
  mounts : gmap nat mount;
  currentPath : jsstr;
  ignorePermissions : bool;
  streams : gmap Z nat;               (* the open file descriptors *)
  stream_store : gmap nat stream;     (* the stream objects *)
  devices : gmap Z dev_ops;
  term : terminal
}.

(** [staticInit] before it mounts anything. *)
Definition fs_init : fs :=
  {| root := None; nodes := empty; nextInode := 1; nameTable := empty; mounts := empty; currentPath := [slash];
     ignorePermissions := true; streams := empty; stream_store := empty;
     devices := empty; term := boot_terminal |}.

(** ** The monad *)

Definition M (A : Type) : Type := fs -> result A * fs.

Definition ret {A} (a : A) : M A := fun s => (Ok a, s).
Definition raise {A} (e : jserror) : M A := fun s => (Throw e, s).
Definition errno {A} (n : Z) : M A := raise (ErrnoError n).
Definition bind {A B} (m : M A) (k : A -> M B) : M B :=
  fun s => match m s with (Ok a, s') => k a s' | (Throw e, s') => (Throw e, s') end.
Definition gets {A} (f : fs -> A) : M A := fun s => (Ok (f s), s).
Definition modify (f : fs -> fs) : M unit := fun s => (Ok tt, f s).
Definition lift {A} (r : result A) : M A := fun s => (r, s).
Definition catch {A} (m : M A) (h : jserror -> M A) : M A :=
  fun s => match m s with (Ok a, s') => (Ok a, s') | (Throw e, s') => h e s' end.

Notation "'let!' x := m 'in' k" := (bind m (fun x => k))
  (at level 10, x pattern, m at level 100, k at level 200) : js_scope.
Notation "m ;;; k" := (bind m (fun _ => k)) (at level 100, k at level 200, right associativity) : js_scope.

Definition stack_overflow : jserror := PlatformError "RangeError".

(** What a lookup in [/proc/self/fd] gives is no node of the file system: an object that is its own parent, has no mode and
    knows the stream it was made for.  It is numbered after the stream, behind the nodes there are. *)
Definition fd_link (s : fs) (i : nat) : option node :=
  if (nextInode s <=? i)%nat then
    option_map (fun st =>
      {| parent := i; mount_of := None; mounted := None; name := []; mode := 0; rdev := 0; node_ops := FdLinkOps; entries := [];
         file := new_file; link := spath st; name_next := None |}) (stream_store s !! (i - nextInode s)%nat)
  else None.

Definition getNode (i : nat) : M node :=
  fun s => match nodes s !! i with
           | Some n => (Ok n, s)
           | None => match fd_link s i with Some n => (Ok n, s) | None => (Throw type_error, s) end
           end.

Definition set_nodes (s : fs) (m : gmap nat node) : fs :=
  {| root := root s; nodes := m; nextInode := nextInode s; nameTable := nameTable s; mounts := mounts s;
     currentPath := currentPath s; ignorePermissions := ignorePermissions s; streams := streams s; stream_store := stream_store s;
     devices := devices s; term := term s |}.

Definition set_table (s : fs) (t : gmap Z nat) : fs :=
  {| root := root s; nodes := nodes s; nextInode := nextInode s; nameTable := t; mounts := mounts s;
     currentPath := currentPath s; ignorePermissions := ignorePermissions s; streams := streams s; stream_store := stream_store s;
     devices := devices s; term := term s |}.

Definition set_term (s : fs) (t : terminal) : fs :=
  {| root := root s; nodes := nodes s; nextInode := nextInode s; nameTable := nameTable s; mounts := mounts s;
     currentPath := currentPath s; ignorePermissions := ignorePermissions s; streams := streams s; stream_store := stream_store s;
     devices := devices s; term := t |}.

Definition update_node (i : nat) (f : node -> node) : M unit := modify (fun s => set_nodes s (alter f i (nodes s))).

Definition with_next (n : node) (x : option nat) : node :=
  {| parent := parent n; mount_of := mount_of n; mounted := mounted n; name := name n; mode := mode n; rdev := rdev n;
     node_ops := node_ops n; entries := entries n; file := file n; link := link n; name_next := x |}.
Definition with_entries (n : node) (l : list (jsstr * nat)) : node :=
  {| parent := parent n; mount_of := mount_of n; mounted := mounted n; name := name n; mode := mode n; rdev := rdev n;
     node_ops := node_ops n; entries := l; file := file n; link := link n; name_next := name_next n |}.
Definition with_file (n : node) (f : fdata) : node :=
  {| parent := parent n; mount_of := mount_of n; mounted := mounted n; name := name n; mode := mode n; rdev := rdev n;
     node_ops := node_ops n; entries := entries n; file := f; link := link n; name_next := name_next n |}.
Definition with_mode (n : node) (m : Z) : node :=
  {| parent := parent n; mount_of := mount_of n; mounted := mounted n; name := name n; mode := m; rdev := rdev n;
     node_ops := node_ops n; entries := entries n; file := file n; link := link n; name_next := name_next n |}.
Definition with_link (n : node) (l : jsstr) : node :=
  {| parent := parent n; mount_of := mount_of n; mounted := mounted n; name := name n; mode := mode n; rdev := rdev n;
     node_ops := node_ops n; entries := entries n; file := file n; link := l; name_next := name_next n |}.
Definition with_place (n : node) (p : nat) (x : jsstr) : node :=
  {| parent := p; mount_of := mount_of n; mounted := mounted n; name := x; mode := mode n; rdev := rdev n;
     node_ops := node_ops n; entries := entries n; file := file n; link := link n; name_next := name_next n |}.
Definition with_mounts (n : node) (belongs holds : option nat) : node :=
  {| parent := parent n; mount_of := belongs; mounted := holds; name := name n; mode := mode n; rdev := rdev n;
     node_ops := node_ops n; entries := entries n; file := file n; link := link n; name_next := name_next n |}.

(** ** Modes *)

Definition fmt (mode : Z) : Z := js_and mode 61440.
Definition isFile (mode : Z) : bool := fmt mode =? 32768.
Definition isDir (mode : Z) : bool := fmt mode =? 16384.
Definition isLink (mode : Z) : bool := fmt mode =? 40960.
Definition isChrdev (mode : Z) : bool := fmt mode =? 8192.
Definition isBlkdev (mode : Z) : bool := fmt mode =? 24576.
Definition isFIFO (mode : Z) : bool := fmt mode =? 4096.

(** ** The name table *)

Definition table_size : Z := 4096.

Fixpoint hash_string (hash : Z) (name : jsstr) : Z :=
  match name with
  | [] => hash
  | c :: name' => hash_string (to_int32 (js_shl hash 5 - hash + c)) name'
  end.

Definition hashName (parentid : nat) (name : jsstr) : Z :=
  to_uint32 (Z.of_nat parentid + hash_string 0 name) mod table_size.

Definition node_hash (n : node) : Z := hashName (parent n) (name n).

Definition hashAddNode (i : nat) : M unit :=
  let! n := getNode i in
  let hash := node_hash n in
  let! first := gets (fun s => nameTable s !! hash) in
  update_node i (fun n => with_next n first) ;;;
  modify (fun s => set_table s (<[hash := i]> (nameTable s))).

(** The loop that looks for the predecessor of [i] in a chain. *)
Fixpoint unlink_after (fuel : nat) (current : option nat) (i : nat) (next : option nat) : M unit :=
  match fuel, current with
  | S f, Some c =>
      let! n := getNode c in
      if bool_decide (name_next n = Some i) then update_node c (fun n => with_next n next)
      else unlink_after f (name_next n) i next
  | _, _ => ret tt
  end.

(** A table entry of [undefined] is an absent one. *)
Definition table_put (hash : Z) (x : option nat) (t : gmap Z nat) : gmap Z nat :=
  match x with Some j => <[hash := j]> t | None => delete hash t end.

Definition hashRemoveNode (i : nat) : M unit :=
  let! n := getNode i in
  let hash := node_hash n in
  let! first := gets (fun s => nameTable s !! hash) in
  if bool_decide (first = Some i) then modify (fun s => set_table s (table_put hash (name_next n) (nameTable s)))
  else
    let! bound := gets (fun s => size (nodes s)) in
    unlink_after bound first i (name_next n).

(** The search of [lookupNode] along a chain. *)
Fixpoint find_name (fuel : nat) (current : option nat) (p : nat) (x : jsstr) : M (option nat) :=
  match fuel, current with
  | S f, Some c =>
      let! n := getNode c in
      if (parent n =? p)%nat && str_eqb (name n) x then ret (Some c) else find_name f (name_next n) p x
  | _, _ => ret None
  end.

(** ** What the table stands for *)

(** The nodes of a chain, from its first one. *)
Inductive chain (ns : gmap nat node) : option nat -> list nat -> Prop :=
| chain_nil : chain ns None []
| chain_cons i n l : ns !! i = Some n -> chain ns (name_next n) l -> chain ns (Some i) (i :: l).

(** The table holds the buckets [c]: chains of distinct nodes, each in the bucket
    of its hash. *)
Definition table_rep (s : fs) (c : Z -> list nat) : Prop :=
  forall h, chain (nodes s) (nameTable s !! h) (c h) /\ NoDup (c h)
    /\ Forall (fun i => exists n, nodes s !! i = Some n /\ node_hash n = h) (c h).

Definition has_key (ns : gmap nat node) (p : nat) (x : jsstr) (i : nat) : bool :=
  match ns !! i with Some n => (parent n =? p)%nat && str_eqb (name n) x | None => false end.

Definition upd (c : Z -> list nat) (h : Z) (l : list nat) : Z -> list nat := fun k => if k =? h then l else c k.

Definition without (i : nat) (l : list nat) : list nat := List.filter (fun j => negb (j =? i)%nat) l.

(** ** Lemmas *)

Lemma chain_some ns i n l :
  ns !! i = Some n -> chain ns (Some i) l -> exists l', l = i :: l' /\ chain ns (name_next n) l'.
Proof. intros Hi H. inv H. eexists. split; [done|]. congruence. Qed.

Lemma chain_dom ns o l : chain ns o l -> Forall (fun i => is_Some (ns !! i)) l.
Proof. induction 1; constructor; [by eexists|done]. Qed.

Lemma chain_length ns o l : chain ns o l -> NoDup l -> (length l <= size ns)%nat.
Proof.
  intros Hc Hn. apply chain_dom in Hc. rewrite <- (size_list_to_set (C := gset nat) l), <- size_dom by done.
  apply subseteq_size. intros i Hi. apply elem_of_list_to_set in Hi. rewrite Forall_forall in Hc. apply elem_of_dom. by apply Hc.
Qed.

Lemma chain_alter ns o l i f : i ∉ l -> chain ns o l -> chain (alter f i ns) o l.
Proof.
  intros Hi H. induction H as [|j n l Hj _ IH]; [constructor|]. apply not_elem_of_cons in Hi as [Hne Hi].
  econstructor; [by rewrite lookup_alter_ne|by apply IH].
Qed.

Lemma without_notin i l : i ∉ l -> without i l = l.
Proof.
  induction l as [|j l IH]; intros H; [done|]. apply not_elem_of_cons in H as [Hne H]. cbn.
  rewrite (proj2 (Nat.eqb_neq j i)) by done. cbn. f_equal. by apply IH.
Qed.

Lemma without_in i j l : j ∈ without i l <-> j ∈ l /\ j <> i.
Proof.
  rewrite !list_elem_of_In. unfold without. rewrite filter_In, negb_true_iff, Nat.eqb_neq. done.
Qed.

Lemma without_NoDup i l : NoDup l -> NoDup (without i l).
Proof. rewrite !NoDup_ListNoDup. apply List.NoDup_filter. Qed.

Lemma find_name_spec s cur l fuel p x :
  chain (nodes s) cur l -> (length l <= fuel)%nat ->
  find_name fuel cur p x s = (Ok (head (List.filter (has_key (nodes s) p x) l)), s).
Proof.
  intros H. revert fuel. induction H as [|i n l Hi _ IH]; intros [|fuel] Hf; try (cbn in Hf; lia); try done.
  cbn [find_name List.filter]. unfold bind, getNode, has_key at 1. rewrite Hi. cbn in Hf.
  destruct ((parent n =? p)%nat && str_eqb (name n) x); [done|]. apply IH. lia.
Qed.

Lemma node_hash_next n o : node_hash (with_next n o) = node_hash n.
Proof. done. Qed.

(** Changing the links of nodes keeps every node in its bucket. *)
Lemma hashes_alter (ns : gmap nat node) (i : nat) o (l : list nat) h :
  Forall (fun j => exists n, ns !! j = Some n /\ node_hash n = h) l ->
  Forall (fun j => exists n, alter (fun n => with_next n o) i ns !! j = Some n /\ node_hash n = h) l.
Proof.
  intros H. eapply Forall_impl; [exact H|]. cbn. intros j (n & Hj & Hh). destruct (decide (j = i)) as [->|Hne].
  - exists (with_next n o). rewrite lookup_alter_eq, Hj. done.
  - exists n. by rewrite lookup_alter_ne.
Qed.

Lemma chain_other (ns : gmap nat node) o l h h' i n :
  chain ns o l -> Forall (fun j => exists n, ns !! j = Some n /\ node_hash n = h) l ->
  ns !! i = Some n -> node_hash n = h' -> h <> h' -> i ∉ l.
Proof.
  intros _ Hf Hi Hh Hne Hin. rewrite Forall_forall in Hf. destruct (Hf i Hin) as (m & Hm & Hmh). congruence.
Qed.

Lemma hashAddNode_refines s c i n :
  table_rep s c -> nodes s !! i = Some n -> (forall h, i ∉ c h) ->
  exists s', hashAddNode i s = (Ok tt, s') /\ table_rep s' (upd c (node_hash n) (i :: c (node_hash n)))
    /\ s' = set_table (set_nodes s (alter (fun n => with_next n (nameTable s !! node_hash n)) i (nodes s))) (<[node_hash n := i]> (nameTable s)).
Proof.
  intros Hr Hi Hfresh. unfold hashAddNode, bind, getNode, gets, update_node, modify. rewrite Hi.
  eexists. split; [reflexivity|].
  assert (Halt : alter (fun n0 => with_next n0 (nameTable s !! node_hash n)) i (nodes s)
                 = alter (fun n0 => with_next n0 (nameTable s !! node_hash n0)) i (nodes s)).
  { apply map_eq. intros j. destruct (decide (j = i)) as [->|Hne]; [by rewrite !lookup_alter_eq, Hi|by rewrite !lookup_alter_ne]. }
  split; [|by rewrite Halt].
  intros h. unfold upd. cbn [nodes nameTable set_table set_nodes]. destruct (Z.eqb_spec h (node_hash n)) as [->|Hne].
  - destruct (Hr (node_hash n)) as (Hc & Hn & Hf). rewrite lookup_insert_eq. split; [|split].
    + econstructor; [rewrite lookup_alter_eq, Hi; reflexivity|]. by apply chain_alter.
    + by constructor.
    + constructor; [|by apply hashes_alter]. exists (with_next n (nameTable s !! node_hash n)). by rewrite lookup_alter_eq, Hi.
  - destruct (Hr h) as (Hc & Hn & Hf). rewrite lookup_insert_ne by done.
    split; [by apply chain_alter|]. split; [done|by apply hashes_alter].
Qed.

(** Taking a node out of the middle of a chain. *)
Lemma unlink_after_spec l s cur i n fuel :
  chain (nodes s) cur l -> NoDup l -> cur <> Some i -> nodes s !! i = Some n -> (length l <= fuel)%nat ->
  exists j, unlink_after fuel cur i (name_next n) s = (Ok tt, set_nodes s (alter (fun n' => with_next n' (name_next n)) j (nodes s)))
      /\ chain (alter (fun n' => with_next n' (name_next n)) j (nodes s)) cur (without i l) /\ j ∈ l
    \/ unlink_after fuel cur i (name_next n) s = (Ok tt, s) /\ i ∉ l.
Proof.
  intros H. revert fuel. induction H as [|k m l Hk Hc IH]; intros fuel Hn Hne Hi Hf.
  { exists i. right. split; [by destruct fuel|apply not_elem_of_nil]. }
  destruct fuel as [|fuel]; [cbn in Hf; lia|]. apply NoDup_cons in Hn as [Hkl Hnl]. cbn [unlink_after].
  unfold bind, getNode. assert (Hki : k <> i) by congruence. unfold without. cbn [List.filter]. rewrite (proj2 (Nat.eqb_neq k i)) by done. cbn [negb].
  rewrite !Hk. destruct (decide (name_next m = Some i)) as [E|E].
  - exists k. left. rewrite bool_decide_eq_true_2 by done. split; [done|]. split; [|by constructor].
    rewrite E in Hc. destruct (chain_some _ _ _ _ Hi Hc) as (l2 & -> & Hc2). apply NoDup_cons in Hnl as [Hil Hnl].
    cbn [List.filter]. rewrite Nat.eqb_refl. cbn [negb].
    econstructor; [rewrite lookup_alter_eq, Hk; reflexivity|]. cbn [name_next with_next].
    fold (without i l2). rewrite without_notin by done. apply chain_alter; [|done]. apply not_elem_of_cons in Hkl as [_ Hkl]. done.
  - rewrite bool_decide_eq_false_2 by done. cbn in Hf. destruct (IH fuel Hnl E Hi ltac:(lia)) as (j & [(Hrun & Hch & Hj)|(Hrun & Hnot)]).
    + exists j. left. rewrite Hrun. split; [done|]. split; [|by constructor].
      assert (Hjk : j <> k) by (intros ->; done). econstructor; [by rewrite lookup_alter_ne|done].
    + exists j. right. split; [done|]. apply not_elem_of_cons. split; [by apply not_eq_sym|done].
Qed.

Lemma hashRemoveNode_refines s c i n :
  table_rep s c -> nodes s !! i = Some n ->
  exists s', hashRemoveNode i s = (Ok tt, s') /\ table_rep s' (upd c (node_hash n) (without i (c (node_hash n)))).
Proof.
  intros Hr Hi. unfold hashRemoveNode, bind at 1, getNode. rewrite Hi. cbn [bind gets].
  set (h := node_hash n). destruct (Hr h) as (Hc & Hn & Hf).
  assert (Hother : forall k, k <> h -> i ∉ c k).
  { intros k Hk. destruct (Hr k) as (Hck & _ & Hfk). eapply chain_other; [exact Hck|exact Hfk|exact Hi|reflexivity|done]. }
  unfold bind, gets. cbn [fst snd]. destruct (decide (nameTable s !! h = Some i)) as [E|E].
  - rewrite bool_decide_eq_true_2 by done. eexists. split; [reflexivity|]. intros k. unfold upd. cbn [nodes nameTable set_table].
    destruct (Z.eqb_spec k h) as [->|Hne].
    + rewrite E in Hc. destruct (chain_some _ _ _ _ Hi Hc) as (l & Hl & Hc2). rewrite Hl in *. apply NoDup_cons in Hn as [Hil Hnl].
      unfold without. cbn [List.filter]. rewrite Nat.eqb_refl. cbn [negb]. fold (without i l). rewrite without_notin by done.
      apply Forall_cons in Hf as [_ Hf]. split; [|done]. unfold table_put. destruct (name_next n) as [j|] eqn:Ej; [by rewrite lookup_insert_eq|by rewrite lookup_delete_eq].
    + destruct (Hr k) as (Hck & Hnk & Hfk). split; [|done]. unfold table_put. by destruct (name_next n); [rewrite lookup_insert_ne|rewrite lookup_delete_ne].
  - rewrite bool_decide_eq_false_2 by done.
    destruct (unlink_after_spec (c h) s (nameTable s !! h) i n (size (nodes s)) Hc Hn E Hi ltac:(by eapply chain_length)) as (j & [(Hrun & Hch & Hj)|(Hrun & Hnot)]).
    + rewrite Hrun. eexists. split; [reflexivity|]. intros k. unfold upd. cbn [nodes nameTable set_nodes]. destruct (Z.eqb_spec k h) as [->|Hne].
      * split; [done|]. split; [by apply without_NoDup|]. apply hashes_alter. apply List.Forall_forall. intros m Hm.
        apply list_elem_of_In, without_in in Hm as [Hm _]. rewrite Forall_forall in Hf. by apply Hf.
      * destruct (Hr k) as (Hck & Hnk & Hfk). split; [|split; [done|by apply hashes_alter]]. apply chain_alter; [|done].
        rewrite Forall_forall in Hf. destruct (Hf j Hj) as (m & Hm & Hmh). eapply chain_other; [exact Hck|exact Hfk|exact Hm|exact Hmh|done].
    + rewrite Hrun. eexists. split; [reflexivity|]. intros k. unfold upd. destruct (Z.eqb_spec k h) as [->|Hne]; [|apply Hr].
      rewrite without_notin by done. done.
Qed.

(** C16. The name table, chained through the nodes, is a table of buckets: a search
    returns the first node of the bucket with this parent and name, adding a node
    puts it in front of its bucket, and removing it takes it, and only it, out of
    the bucket, wherever in the chain it is. *)
Theorem name_table_refines (s : fs) (c : Z -> list nat) :
  table_rep s c ->
  (forall p x, find_name (size (nodes s)) (nameTable s !! hashName p x) p x s
               = (Ok (head (List.filter (has_key (nodes s) p x) (c (hashName p x)))), s))
  /\ (forall i n, nodes s !! i = Some n -> (forall h, i ∉ c h) ->
        exists s', hashAddNode i s = (Ok tt, s') /\ table_rep s' (upd c (node_hash n) (i :: c (node_hash n))))
  /\ (forall i n, nodes s !! i = Some n ->
        exists s', hashRemoveNode i s = (Ok tt, s') /\ table_rep s' (upd c (node_hash n) (without i (c (node_hash n))))).
Proof.
  intros Hr. split; [|split].
  - intros p x. destruct (Hr (hashName p x)) as (Hc & Hn & _). apply find_name_spec; [done|by eapply chain_length].
  - intros i n Hi Hf. destruct (hashAddNode_refines s c i n Hr Hi Hf) as (s' & H1 & H2 & _). eauto.
  - intros i n Hi. by apply hashRemoveNode_refines.
Qed.

Definition plain_node (p : nat) (x : jsstr) : node :=
  {| parent := p; mount_of := None; mounted := None; name := x; mode := 33206; rdev := 0; node_ops := FileOps;
     entries := []; file := new_file; link := []; name_next := None |}.

Theorem name_table_witness :
  let s := set_nodes fs_init (<[3%nat := plain_node 1 (js "a")]> empty) in
  exists s', hashAddNode 3 s = (Ok tt, s')
    /\ table_rep s' (upd (fun _ => []) (hashName 1 (js "a")) [3%nat]).
Proof.
  intros s.
  assert (Hr : table_rep s (fun _ => [])).
  { intros h. split; [|split; constructor]. cbn. rewrite lookup_empty. constructor. }
  destruct (name_table_refines s (fun _ => []) Hr) as (_ & Hadd & _).
  apply (Hadd 3%nat (plain_node 1 (js "a"))); [reflexivity|]. intros h. apply not_elem_of_nil.
Defined.
