(* ===== verification/OpusFs.v ===== *)
(** * Operations of the Opus module's file system
      ([integrations/lan-remote-access/rustdesk-web-open/libopus.js], [FS] and [MEMFS])

    Looking up paths with symbolic links and mount points, creating, renaming and
    removing nodes, and the streams of open files.  Recursion is bounded by a fuel
    that stands for the stack of the engine: running out of it is the RangeError
    of a stack overflow.  A stream on a character device has the operations that
    were registered for the device when it was opened. *)

From stdpp Require Import base list numbers strings gmap.
From Stdlib Require Import ZArith Lia.
From S2P Require Import Prelude JsString JsNumber OpusText OpusMemfs OpusPath OpusTty OpusNode.
Local Open Scope Z_scope.

Section FS.

(** ** Permissions *)

Definition includes_perm (perms : string) (c : Z) : bool := includes_char (js perms) c.

Definition nodePermissions (i : nat) (perms : string) : M Z :=
  let! ignore := gets ignorePermissions in
  if ignore then ret 0
  else
    let! n := getNode i in
    if includes_perm perms 114 && (js_and (mode n) 292 =? 0) then ret 2
    else if includes_perm perms 119 && (js_and (mode n) 146 =? 0) then ret 2
    else if includes_perm perms 120 && (js_and (mode n) 73 =? 0) then ret 2
    else ret 0.

Definition has_lookup (o : ops) : bool := match o with DirOps | FdDirOps => true | _ => false end.

Definition mayLookup (dir : nat) : M Z :=
  let! errCode := nodePermissions dir "x" in
  if negb (errCode =? 0) then ret errCode
  else let! n := getNode dir in
       ret (if has_lookup (node_ops n) then 0 else 2).

(** ** Nodes *)

(** The [lookup] of [/proc/self/fd]: the name is taken for the number of an open stream. *)
Definition fd_lookup (x : jsstr) : M nat :=
  let! t := gets streams in
  match match array_index x with Some fd => t !! fd | None => None end with
  | None => errno 8
  | Some sid => gets (fun s => nextInode s + sid)%nat
  end.

(** [FS.lookup]; [MEMFS.node_ops.lookup] always reports that there is no such entry. *)
Definition node_lookup (p : nat) (x : jsstr) : M nat :=
  let! n := getNode p in if bool_decide (node_ops n = FdDirOps) then fd_lookup x else errno 44.

(** A refused lookup says where it was refused. *)
Definition lookupNode (p : nat) (x : jsstr) : M nat :=
  let! errCode := mayLookup p in
  if negb (errCode =? 0) then raise (ErrnoErrorAt errCode p)
  else
    let! first := gets (fun s => nameTable s !! hashName p x) in
    let! bound := gets (fun s => size (nodes s)) in
    let! found := find_name bound first p x in
    match found with
    | Some i => ret i
    | None => node_lookup p x
    end.

(** [FS.createNode]: a new [FSNode] in the name table; without a parent it is its own. *)
Definition createNode (p : option nat) (x : jsstr) (mode rdev : Z) (o : ops) : M nat :=
  let! i := gets nextInode in
  let! m := match p with None => ret None | Some p => let! n := getNode p in ret (mount_of n) end in
  let n := {| parent := default i p; mount_of := m; mounted := None; name := x; mode := mode; rdev := rdev;
              node_ops := o; entries := []; file := new_file; link := []; name_next := None |} in
  modify (fun s =>
    {| root := root s; nodes := <[i := n]> (nodes s); nextInode := S i; nameTable := nameTable s; mounts := mounts s;
       currentPath := currentPath s; ignorePermissions := ignorePermissions s; streams := streams s; stream_store := stream_store s;
       devices := devices s; term := term s |}) ;;;
  hashAddNode i ;;;
  ret i.

Definition ops_of_mode (mode : Z) : ops :=
  if isDir mode then DirOps else if isFile mode then FileOps else if isLink mode then LinkOps
  else if isChrdev mode then ChrOps else NoOps.

(** [o[key] = v] on the contents of a directory. *)
Fixpoint set_entry (l : list (jsstr * nat)) (x : jsstr) (i : nat) : list (jsstr * nat) :=
  match l with
  | [] => [(x, i)]
  | (y, j) :: l' => if str_eqb y x then (x, i) :: l' else (y, j) :: set_entry l' x i
  end.

Definition delete_entry (l : list (jsstr * nat)) (x : jsstr) : list (jsstr * nat) :=
  List.filter (fun '(y, _) => negb (str_eqb y x)) l.

(** [MEMFS.createNode] *)
Definition memfs_createNode (p : option nat) (x : jsstr) (mode dev : Z) : M nat :=
  if isBlkdev mode || isFIFO mode then errno 63
  else
    let! i := createNode p x mode dev (ops_of_mode mode) in
    match p with
    | Some p => update_node p (fun n => with_entries n (set_entry (entries n) x i)) ;;; ret i
    | None => ret i
    end.

(** What [/proc/self/fd] gives has a mount of its own. *)
Definition fake_mount (n : node) : option mount :=
  if bool_decide (node_ops n = FdLinkOps) then Some {| mountpoint := js "fake"; mroot := None; children := [] |} else None.

(** [FS.getPath]: the names up to the root of the mount. *)
Fixpoint getPath (fuel : nat) (i : nat) (path : jsstr) : M jsstr :=
  match fuel with
  | O => raise stack_overflow
  | S f =>
      let! n := getNode i in
      if (parent n =? i)%nat then
        let! m := gets (fun s => match mount_of n with Some k => mounts s !! k | None => fake_mount n end) in
        match m with
        | None => raise type_error
        | Some m =>
            let mp := mountpoint m in
            ret (if nonempty path then
                   (if match last mp with Some c => c =? slash | None => false end then mp ++ path else mp ++ slash :: path)
                 else mp)
        end
      else getPath f (parent n) (if nonempty path then name n ++ slash :: path else name n)
  end.

Definition pathOf (i : nat) : M jsstr := let! bound := gets (fun s => S (size (nodes s))) in getPath bound i [].

(** ** Looking up a path *)

Record opts := { o_parent : bool; o_follow : bool; o_follow_mount : bool; o_recurse : Z }.
Definition default_opts : opts := {| o_parent := false; o_follow := false; o_follow_mount := true; o_recurse := 0 |}.

Definition some_or_throw {A} (o : option A) (e : jserror) : M A := match o with Some a => ret a | None => raise e end.

Definition has_readlink (o : ops) : bool := match o with LinkOps | FdLinkOps => true | _ => false end.

(** [MEMFS.node_ops.readlink], or the one of [/proc/self/fd]. *)
Definition node_readlink (n : node) : M jsstr :=
  if bool_decide (node_ops n = FdLinkOps) then ret (link n)
  else if negb (isLink (mode n)) then errno 28 else ret (link n).

(** [FS.readlink], given the lookup it calls. *)
Definition readlink_with (look : jsstr -> opts -> M (jsstr * option nat)) (path : jsstr) : M jsstr :=
  let! r := look path default_opts in
  match snd r with
  | None => errno 44
  | Some i =>
      let! n := getNode i in
      if negb (has_readlink (node_ops n)) then errno 28
      else
        let! dir := pathOf (parent n) in
        let! l := node_readlink n in
        let! cwd := gets currentPath in
        ret (resolve cwd [dir; l])
  end.

(** The loop over consecutive links: [n] is 42 minus the count, and the error comes
    when the count exceeds 40. *)
Fixpoint follow_links (look : jsstr -> opts -> M (jsstr * option nat)) (recurse : Z) (n : nat) (current : nat) (path : jsstr)
  : M (nat * jsstr) :=
  match n with
  | O => errno 32
  | S n' =>
      let! nd := getNode current in
      if negb (isLink (mode nd)) then ret (current, path)
      else
        let! l := readlink_with look path in
        let! cwd := gets currentPath in
        let! dir := some_or_throw (dirname path) type_error in
        let path := resolve cwd [dir; l] in
        let! r := look path {| o_parent := false; o_follow := false; o_follow_mount := true; o_recurse := recurse |} in
        let! current := some_or_throw (snd r) type_error in
        match n' with
        | O => errno 32
        | _ => follow_links look recurse n' current path
        end
  end.

Fixpoint walk_parts (look : jsstr -> opts -> M (jsstr * option nat)) (o : opts) (parts : list jsstr) (current : nat) (path : jsstr)
  : M (nat * jsstr) :=
  match parts with
  | [] => ret (current, path)
  | part :: rest =>
      let islast := match rest with [] => true | _ => false end in
      if islast && o_parent o then ret (current, path)
      else
        let! current := lookupNode current part in
        let path := join2 path part in
        let! nd := getNode current in
        let! current :=
          (match mounted nd with
           | Some m => if negb islast || o_follow_mount o then
                         let! mt := gets (fun s => mounts s !! m) in
                         some_or_throw (match mt with Some mt => mroot mt | None => None end) type_error
                       else ret current
           | None => ret current
           end) in
        let! st := (if negb islast || o_follow o then follow_links look (o_recurse o) 42 current path else ret (current, path)) in
        walk_parts look o rest (fst st) (snd st)
  end.

Fixpoint lookupPath (fuel : nat) (path : jsstr) (o : opts) : M (jsstr * option nat) :=
  match fuel with
  | O => raise stack_overflow
  | S f =>
      let! cwd := gets currentPath in
      let path := resolve cwd [cwd; path] in
      if negb (nonempty path) then ret ([], None)
      else if 8 <? o_recurse o then errno 32
      else
        let parts := normalizeArray (components path) false in
        let! r := gets root in
        match r, parts with
        | None, [] => ret ([slash], None)
        | None, [_] => if o_parent o then ret ([slash], None) else raise type_error
        | None, _ => raise type_error
        | Some r, _ => let! st := walk_parts (lookupPath f) o parts r [slash] in ret (snd st, Some (fst st))
        end
  end.

(** The depth of the stack; every use below leaves it a parameter. *)
Variable stack : nat.

Definition look : jsstr -> opts -> M (jsstr * option nat) := lookupPath stack.
Definition readlink : jsstr -> M jsstr := readlink_with look.

Definition follow : opts := {| o_parent := false; o_follow := true; o_follow_mount := true; o_recurse := 0 |}.
Definition parent_only : opts := {| o_parent := true; o_follow := false; o_follow_mount := true; o_recurse := 0 |}.

Definition lookup_parent (path : jsstr) : M (option nat) := let! r := look path parent_only in ret (snd r).

(** ** Checks *)

Definition errno_of (e : jserror) : Z := match e with ErrnoError n | ErrnoErrorAt n _ => n | _ => 0 end.

Definition mayCreate (dir : nat) (x : jsstr) : M Z :=
  catch (lookupNode dir x ;;; ret 20) (fun _ => nodePermissions dir "wx").

Definition mayDelete (dir : nat) (x : jsstr) (isdir : bool) : M Z :=
  let! found := catch (let! i := lookupNode dir x in ret (inl i)) (fun e => ret (inr (errno_of e))) in
  match found with
  | inr n => ret n
  | inl i =>
      let! errCode := nodePermissions dir "wx" in
      if negb (errCode =? 0) then ret errCode
      else
        let! n := getNode i in
        if isdir then
          if negb (isDir (mode n)) then ret 54
          else if (parent n =? i)%nat then ret 10
          else let! path := pathOf i in
               let! cwd := gets currentPath in
               ret (if str_eqb path cwd then 10 else 0)
        else ret (if isDir (mode n) then 31 else 0)
  end.

Definition flag (flags bit : Z) : bool := negb (js_and flags bit =? 0).

(** [['r', 'w', 'rw'][flag & 3]] is undefined for 3, and then a string with [w]. *)
Definition flagsToPermissionString (flags : Z) : option string :=
  let perms := match js_and flags 3 with 0 => Some "r" | 1 => Some "w" | 2 => Some "rw" | _ => None end%string in
  if flag flags 512 then Some (default "undefined" perms ++ "w")%string else perms.

Definition mayOpen (i : nat) (flags : Z) : M Z :=
  let! n := getNode i in
  let perms := flagsToPermissionString flags in
  if isLink (mode n) then ret 32
  else if isDir (mode n) && (negb (bool_decide (perms = Some "r"%string)) || flag flags 512) then ret 31
  else match perms with
       | Some perms => nodePermissions i perms
       | None => let! ignore := gets ignorePermissions in if ignore then ret 0 else raise type_error
       end.

Definition throw_code (errCode : Z) : M unit := if errCode =? 0 then ret tt else errno errCode.

(** ** Creating *)

Definition is_dots (x : jsstr) : bool := negb (nonempty x) || str_eqb x dot || str_eqb x dotdot.

Definition mknod (path : jsstr) (mode dev : Z) : M nat :=
  let! r := lookup_parent path in
  let x := basename path in
  if is_dots x then errno 28
  else
    let! p := some_or_throw r type_error in
    let! errCode := mayCreate p x in
    throw_code errCode ;;;
    let! n := getNode p in
    if negb (bool_decide (node_ops n = DirOps)) then errno 63
    else memfs_createNode (Some p) x mode dev.

Definition create (path : jsstr) (mode : option Z) : M nat :=
  mknod path (js_or (js_and (default 438 mode) 4095) 32768) 0.

Definition mkdir (path : jsstr) (mode : option Z) : M nat :=
  mknod path (js_or (js_and (default 511 mode) (js_or 511 512)) 16384) 0.

Fixpoint mkdir_parts (d : jsstr) (dirs : list jsstr) (mode : option Z) : M unit :=
  match dirs with
  | [] => ret tt
  | [] :: dirs' => mkdir_parts d dirs' mode
  | x :: dirs' =>
      let d := d ++ slash :: x in
      catch (mkdir d mode ;;; ret tt) (fun e => if bool_decide (e = ErrnoError 20) then ret tt else raise e) ;;;
      mkdir_parts d dirs' mode
  end.

Definition mkdirTree (path : jsstr) (mode : option Z) : M unit := mkdir_parts [] (split_char slash path) mode.

(** [MEMFS.node_ops.symlink] *)
Definition memfs_symlink (p : nat) (x oldpath : jsstr) : M nat :=
  let! i := memfs_createNode (Some p) x (js_or 511 40960) 0 in
  update_node i (fun n => with_link n oldpath) ;;;
  ret i.

Definition symlink (oldpath newpath : jsstr) : M nat :=
  let! cwd := gets currentPath in
  if negb (nonempty (resolve cwd [oldpath])) then errno 44
  else
    let! r := lookup_parent newpath in
    let! p := some_or_throw r (ErrnoError 44) in
    let x := basename newpath in
    let! errCode := mayCreate p x in
    throw_code errCode ;;;
    let! n := getNode p in
    if negb (bool_decide (node_ops n = DirOps)) then errno 63
    else memfs_symlink p x oldpath.

(** [FS.mount]; [make_root] is the [mount] of the type, which makes the root node. *)
Definition mount_with (make_root : M nat) (mp : jsstr) : M nat :=
  let is_root := str_eqb mp [slash] in
  let! r := gets root in
  let! place :=
    (if is_root && bool_decide (is_Some r) then errno 10
     else if negb is_root && nonempty mp then
       let! l := look mp {| o_parent := false; o_follow := false; o_follow_mount := false; o_recurse := 0 |} in
       let! i := some_or_throw (snd l) type_error in
       let! n := getNode i in
       if bool_decide (is_Some (mounted n)) then errno 10
       else if negb (isDir (mode n)) then errno 54
       else ret (fst l, Some i)
     else ret (mp, None)) in
  let! m := gets (fun s => size (mounts s)) in
  let! i := make_root in
  update_node i (fun n => with_mounts n (Some m) (mounted n)) ;;;
  modify (fun s =>
    {| root := if is_root then Some i else root s; nodes := nodes s; nextInode := nextInode s; nameTable := nameTable s;
       mounts := <[m := {| mountpoint := fst place; mroot := Some i; children := [] |}]> (mounts s);
       currentPath := currentPath s; ignorePermissions := ignorePermissions s; streams := streams s; stream_store := stream_store s;
       devices := devices s; term := term s |}) ;;;
  match (if is_root then None else snd place) with
  | None => ret i
  | Some d =>
      let! n := getNode d in
      update_node d (fun n => with_mounts n (mount_of n) (Some m)) ;;;
      match mount_of n with
      | None => ret i
      | Some k =>
          modify (fun s =>
            {| root := root s; nodes := nodes s; nextInode := nextInode s; nameTable := nameTable s;
               mounts := alter (fun mt => {| mountpoint := mountpoint mt; mroot := mroot mt; children := children mt ++ [m] |}) k (mounts s);
               currentPath := currentPath s; ignorePermissions := ignorePermissions s; streams := streams s; stream_store := stream_store s;
       devices := devices s; term := term s |}) ;;;
          ret i
      end
  end.

Definition mount_memfs : jsstr -> M nat := mount_with (memfs_createNode None [slash] (js_or 16384 511) 0).

(** ** Renaming and removing *)

Definition entries_of (i : nat) : M (list (jsstr * nat)) := let! n := getNode i in ret (entries n).

Definition memfs_rename (old new_dir : nat) (new_name : jsstr) : M unit :=
  let! o := getNode old in
  (if isDir (mode o) then
     let! new_node := catch (let! i := lookupNode new_dir new_name in ret (Some i)) (fun _ => ret None) in
     match new_node with
     | Some i => let! l := entries_of i in if bool_decide (l = []) then ret tt else errno 55
     | None => ret tt
     end
   else ret tt) ;;;
  update_node (parent o) (fun n => with_entries n (delete_entry (entries n) (name o))) ;;;
  update_node old (fun n => with_place n (parent n) new_name) ;;;
  update_node new_dir (fun n => with_entries n (set_entry (entries n) new_name old)) ;;;
  update_node old (fun n => with_place n new_dir (name n)).

Definition starts_with_dot (s : jsstr) : bool := match s with c :: _ => c =? 46 | [] => false end.

Definition rename (old_path new_path : jsstr) : M unit :=
  let! old_dirname := some_or_throw (dirname old_path) type_error in
  let! new_dirname := some_or_throw (dirname new_path) type_error in
  let old_name := basename old_path in
  let new_name := basename new_path in
  let! old_r := lookup_parent old_path in
  let! new_r := lookup_parent new_path in
  match old_r, new_r with
  | Some old_dir, Some new_dir =>
      let! od := getNode old_dir in
      let! nd := getNode new_dir in
      if negb (bool_decide (mount_of od = mount_of nd)) then errno 75
      else
        let! old_node := lookupNode old_dir old_name in
        let! cwd := gets currentPath in
        if negb (starts_with_dot (relative cwd old_path new_dirname)) then errno 28
        else if negb (starts_with_dot (relative cwd new_path old_dirname)) then errno 55
        else
          let! new_node := catch (let! i := lookupNode new_dir new_name in ret (Some i)) (fun _ => ret None) in
          let! o := getNode old_node in
          if bool_decide (new_node = Some old_node) && negb (bool_decide (node_ops o = FdLinkOps)) then ret tt
          else
            let isdir := isDir (mode o) in
            let! e1 := mayDelete old_dir old_name isdir in
            throw_code e1 ;;;
            let! e2 := (match new_node with
                        | Some _ => mayDelete new_dir new_name isdir
                        | None => mayCreate new_dir new_name
                        end) in
            throw_code e2 ;;;
            if negb (bool_decide (node_ops od = DirOps)) then errno 63
            else
              let! busy := (match new_node with
                            | Some i => let! n := getNode i in ret (bool_decide (is_Some (mounted n)))
                            | None => ret false
                            end) in
              if bool_decide (is_Some (mounted o)) || busy then errno 10
              else
                let! e3 := (if bool_decide (new_dir = old_dir) then ret 0 else nodePermissions old_dir "w") in
                throw_code e3 ;;;
                hashRemoveNode old_node ;;;
                let! outcome := catch (memfs_rename old_node new_dir new_name ;;; ret None) (fun e => ret (Some e)) in
                hashAddNode old_node ;;;
                match outcome with None => ret tt | Some e => raise e end
  | _, _ => errno 44
  end.

(** [MEMFS.node_ops.rmdir] *)
Definition memfs_rmdir (p : nat) (x : jsstr) : M unit :=
  let! j := lookupNode p x in
  let! l := entries_of j in
  if negb (bool_decide (l = [])) then errno 55
  else update_node p (fun n => with_entries n (delete_entry (entries n) x)).

Definition rmdir (path : jsstr) : M unit :=
  let! r := lookup_parent path in
  let x := basename path in
  let! p := some_or_throw r type_error in
  let! i := lookupNode p x in
  let! errCode := mayDelete p x true in
  throw_code errCode ;;;
  let! pn := getNode p in
  if negb (bool_decide (node_ops pn = DirOps)) then errno 63
  else
    let! n := getNode i in
    if bool_decide (is_Some (mounted n)) then errno 10
    else
      memfs_rmdir p x ;;;
      hashRemoveNode i.

(** [MEMFS.node_ops.unlink] *)
Definition memfs_unlink (p : nat) (x : jsstr) : M unit := update_node p (fun n => with_entries n (delete_entry (entries n) x)).

Definition unlink (path : jsstr) : M unit :=
  let! r := lookup_parent path in
  let! p := some_or_throw r (ErrnoError 44) in
  let x := basename path in
  let! i := lookupNode p x in
  let! errCode := mayDelete p x false in
  throw_code errCode ;;;
  let! pn := getNode p in
  if negb (bool_decide (node_ops pn = DirOps)) then errno 63
  else
    let! n := getNode i in
    if bool_decide (is_Some (mounted n)) then errno 10
    else
      memfs_unlink p x ;;;
      hashRemoveNode i.

(** ** Attributes *)

Record attr := { a_dev : Z; a_ino : nat; a_mode : Z; a_rdev : Z; a_size : Z; a_blocks : Z }.

(** [MEMFS.node_ops.getattr]; the size over the block size is rounded up. *)
Definition getattr (i : nat) : M attr :=
  let! n := getNode i in
  let size := if isDir (mode n) then 4096 else if isFile (mode n) then usedBytes (file n)
              else if isLink (mode n) then str_len (link n) else 0 in
  ret {| a_dev := if isChrdev (mode n) then Z.of_nat i else 1; a_ino := i; a_mode := mode n; a_rdev := rdev n;
         a_size := size; a_blocks := (size + 4095) / 4096 |}.

(** Every node that [MEMFS] gives operations has [getattr] and [setattr]. *)
Definition has_attr (o : ops) : bool := match o with NoOps | FdDirOps | FdLinkOps => false | _ => true end.

Definition stat (path : jsstr) (dontFollow : bool) : M attr :=
  let! r := look path {| o_parent := false; o_follow := negb dontFollow; o_follow_mount := true; o_recurse := 0 |} in
  let! i := some_or_throw (snd r) (ErrnoError 44) in
  let! n := getNode i in
  if negb (has_attr (node_ops n)) then errno 63 else getattr i.

Definition setattr_size (i : nat) (len : Z) : M unit :=
  let! n := getNode i in
  let! f := lift (resizeFileStorage (file n) len) in
  update_node i (fun n => with_file n f).

(** [chmod] and [truncate] take a path or a node. *)
Definition target : Type := (jsstr + nat)%type.

Definition node_of (t : target) (dontFollow : bool) : M nat :=
  match t with
  | inr i => ret i
  | inl path =>
      let! r := look path {| o_parent := false; o_follow := negb dontFollow; o_follow_mount := true; o_recurse := 0 |} in
      some_or_throw (snd r) type_error
  end.

Definition chmod (t : target) (m : Z) (dontFollow : bool) : M unit :=
  let! i := node_of t dontFollow in
  let! n := getNode i in
  if negb (has_attr (node_ops n)) then errno 63
  else update_node i (fun n => with_mode n (js_or (js_and m 4095) (js_and (mode n) (-4096)))).

Definition truncate (t : target) (len : Z) : M unit :=
  if len <? 0 then errno 28
  else
    let! i := node_of t false in
    let! n := getNode i in
    if negb (has_attr (node_ops n)) then errno 63
    else if isDir (mode n) then errno 31
    else if negb (isFile (mode n)) then errno 28
    else
      let! errCode := nodePermissions i "w" in
      throw_code errCode ;;;
      setattr_size i len.

(** ** Streams *)

Definition MAX_OPEN_FDS : Z := 4096.

(** The first free descriptor from [fd] on, [n] of them. *)
Fixpoint free_fd (n : nat) (fd : Z) (t : gmap Z nat) : option Z :=
  match n with
  | O => None
  | S n' => match t !! fd with None => Some fd | Some _ => free_fd n' (fd + 1) t end
  end.

Definition nextfd (fd_start fd_end : Z) : M Z :=
  let! t := gets streams in
  some_or_throw (free_fd (Z.to_nat (fd_end - fd_start + 1)) fd_start t) (ErrnoError 33).

Definition set_streams (s : fs) (t : gmap Z nat) (o : gmap nat stream) : fs :=
  {| root := root s; nodes := nodes s; nextInode := nextInode s; nameTable := nameTable s; mounts := mounts s;
     currentPath := currentPath s; ignorePermissions := ignorePermissions s; streams := t; stream_store := o; devices := devices s; term := term s |}.

Definition getStream (sid : nat) : M stream :=
  fun s => match stream_store s !! sid with Some st => (Ok st, s) | None => (Throw type_error, s) end.

Definition update_stream (sid : nat) (f : stream -> stream) : M unit :=
  modify (fun s => set_streams s (streams s) (alter f sid (stream_store s))).

Definition with_position (st : stream) (p : Z) : stream :=
  {| snode := snode st; spath := spath st; sflags := sflags st; sposition := p; seekable := seekable st; sops := sops st; fd := fd st; sdev := sdev st |}.
Definition with_fd (st : stream) (x : option Z) : stream :=
  {| snode := snode st; spath := spath st; sflags := sflags st; sposition := sposition st; seekable := seekable st; sops := sops st; fd := x; sdev := sdev st |}.
Definition with_seekable (st : stream) (b : bool) : stream :=
  {| snode := snode st; spath := spath st; sflags := sflags st; sposition := sposition st; seekable := b; sops := sops st; fd := fd st; sdev := sdev st |}.

Definition createStream (st : stream) (fd_start fd_end : Z) : M nat :=
  let! x := nextfd fd_start fd_end in
  let! sid := gets (fun s => size (stream_store s)) in
  modify (fun s => set_streams s (<[x := sid]> (streams s)) (<[sid := with_fd st (Some x)]> (stream_store s))) ;;;
  ret sid.

(** The node to open: [None] when a lookup fails, whatever the error. *)
Definition open_lookup (path : jsstr) (flags : Z) : M (option nat) :=
  catch (let! r := look path {| o_parent := false; o_follow := negb (flag flags 131072); o_follow_mount := true; o_recurse := 0 |} in
         ret (snd r))
    (fun _ => ret None).

(** The node, and whether it was created. *)
Definition open_node (path : jsstr) (flags mode : Z) (found : option nat) : M (nat * bool) :=
  if flag flags 64 then
    match found with
    | Some i => if flag flags 128 then errno 20 else ret (i, false)
    | None => let! i := mknod path mode 0 in ret (i, true)
    end
  else match found with Some i => ret (i, false) | None => errno 44 end.

(** *** Devices *)

Definition on_term {A} (f : terminal -> A * terminal) : M A :=
  fun s => let '(a, t) := f (term s) in (Ok a, set_term s t).

Definition with_sdev (st : stream) (d : sdev_ops) : stream :=
  {| snode := snode st; spath := spath st; sflags := sflags st; sposition := sposition st; seekable := seekable st; sops := sops st;
     fd := fd st; sdev := Some d |}.

(** [TTY.stream_ops.open]: the stream is given its terminal. *)
Definition tty_open (sid : nat) (dev : Z) : M unit :=
  let! id := gets (fun s => ttys (term s) !! dev) in
  match id with
  | None => errno 43
  | Some id => update_stream sid (fun st => with_seekable (with_sdev st (STty (Some id))) false)
  end.

(** [chrdev_stream_ops.open]: the stream takes over the operations registered for the device, and their
    [open] is called. *)
Definition dev_open (sid : nat) (dev : Z) : M unit :=
  let! d := gets (fun s => devices s !! dev) in
  match d with
  | None => raise type_error
  | Some NullDevice => update_stream sid (fun st => with_sdev st SNull)
  | Some TtyDevice =>
      update_stream sid (fun st => with_sdev st (STty None)) ;;; tty_open sid dev
  | Some (FunDevice i o) => update_stream sid (fun st => with_seekable (with_sdev st (SFun i o)) false)
  end.

(** The buffer after the call, and the number of bytes or the error. *)
Definition dev_read (d : sdev_ops) (buffer : list Z) (offset length : Z) : M (list Z * result Z) :=
  match d with
  | SNull => ret (buffer, Ok 0)
  | STty id => on_term (tty_read id buffer offset length)
  | SFun i _ => on_term (fun_read i buffer offset length)
  end.

(** An ordinary array, a [Uint8Array] or an [Int8Array]. *)
Inductive array_kind := Plain | Unsigned | Signed.
Definition typed (k : array_kind) : bool := match k with Plain => false | _ => true end.
Definition signed (k : array_kind) : bool := match k with Signed => true | _ => false end.

(** The elements [buffer[offset + i]], as the array gives them. *)
Definition elements (k : array_kind) (buffer : list Z) (offset length : Z) : list (option Z) :=
  map (fun i => option_map (elem (signed k)) (load8 buffer (offset + Z.of_nat i))) (seq 0 (Z.to_nat length)).

Definition dev_write (d : sdev_ops) (k : array_kind) (buffer : list Z) (offset length : Z) : M Z :=
  match d with
  | SNull => ret length
  | STty id => let! r := on_term (tty_write id (elements k buffer offset length)) in lift r
  | SFun _ o => let! r := on_term (fun_write o (elements k buffer offset length)) in lift r
  end.

Definition dev_close (d : sdev_ops) : M (result unit) :=
  match d with
  | SNull => ret (Ok tt)
  | STty id => on_term (tty_close id)
  | SFun _ o => on_term (fun_close o)
  end.

Definition open (t : target) (flags : Z) (mode_arg : option Z) (fd_start fd_end : Z) : M nat :=
  let mode := if flag flags 64 then js_or (js_and (default 438 mode_arg) 4095) 32768 else 0 in
  let! found :=
    (match t with
     | inr i => ret ([], Some i)
     | inl [] => errno 44
     | inl path => let path := normalize path in let! r := open_lookup path flags in ret (path, r)
     end) in
  let! opened := open_node (fst found) flags mode (snd found) in
  let '(i, created) := opened in
  let! n := getNode i in
  let flags := if isChrdev (OpusNode.mode n) then js_and flags (-513) else flags in
  if flag flags 65536 && negb (isDir (OpusNode.mode n)) then errno 54
  else
    let! errCode := (if created then ret 0 else mayOpen i flags) in
    throw_code errCode ;;;
    (if flag flags 512 then truncate (inr i) 0 else ret tt) ;;;
    let flags := js_and flags (-131713) in
    let! path := pathOf i in
    let! sid := createStream {| snode := i; spath := path; sflags := flags; sposition := 0; seekable := true;
                                sops := node_ops n; fd := None; sdev := None |} fd_start fd_end in
    match node_ops n with
    | ChrOps => dev_open sid (rdev n) ;;; ret sid
    | FdLinkOps => raise type_error       (* no [stream_ops]; outside [FS.init] the permissions stop it before *)
    | _ => ret sid
    end.

Definition close (sid : nat) : M unit :=
  let! st := getStream sid in
  match fd st with
  | None => errno 8
  | Some x =>
      let! r := (match sdev st with Some d => dev_close d | None => ret (Ok tt) end) in
      modify (fun s => set_streams s (delete x (streams s)) (stream_store s)) ;;;
      lift r ;;;
      update_stream sid (fun st => with_fd st None)
  end.

(** Directories and files can seek; a link or a device cannot.  The [llseek] of the operations a character
    device has before its own are known only throws. *)
Definition can_seek (st : stream) : bool :=
  match sops st with DirOps | FileOps => true | ChrOps => bool_decide (sdev st = None) | _ => false end.

Definition llseek (sid : nat) (offset whence : Z) : M Z :=
  let! st := getStream sid in
  if bool_decide (fd st = None) then errno 8
  else if negb (seekable st) || negb (can_seek st) then errno 70
  else if negb (whence =? 0) && negb (whence =? 1) && negb (whence =? 2) then errno 28
  else if bool_decide (sops st = ChrOps) then errno 70
  else
    let! n := getNode (snode st) in
    let! p := lift (memfs_llseek (file n) (isFile (mode n)) (sposition st) offset whence) in
    update_stream sid (fun st => with_position st p) ;;;
    ret p.

Definition accmode (flags : Z) : Z := js_and flags 2097155.

Definition negative (p : option Z) : bool := match p with Some p => p <? 0 | None => false end.

(** Files can read and write, and devices once they are open. *)
Definition can_transfer (st : stream) : bool :=
  match sops st with FileOps => true | ChrOps => bool_decide (sdev st <> None) | _ => false end.

(** [FS.read]: the buffer as the call leaves it, and the number of bytes or the error of a device, which may
    come after some bytes have been stored. *)
Definition read_into (sid : nat) (buffer : list Z) (offset length : Z) (position : option Z) : M (list Z * result Z) :=
  let! st := getStream sid in
  if (length <? 0) || negative position then errno 28
  else if bool_decide (fd st = None) then errno 8
  else if accmode (sflags st) =? 1 then errno 8
  else
    let! n := getNode (snode st) in
    if isDir (mode n) then errno 31
    else if negb (can_transfer st) then errno 28
    else if bool_decide (is_Some position) && negb (seekable st) then errno 70
    else
      let! r := (match sdev st with
                 | Some d => dev_read d buffer offset length
                 | None => let! r := lift (memfs_read (file n) buffer offset length (default (sposition st) position)) in
                           ret (fst r, Ok (snd r))
                 end) in
      (match position, snd r with
       | None, Ok count => update_stream sid (fun st => with_position st (sposition st + count))
       | _, _ => ret tt
       end) ;;;
      ret r.

(** The same for a caller that drops the buffer on an error. *)
Definition read (sid : nat) (buffer : list Z) (offset length : Z) (position : option Z) : M (list Z * Z) :=
  let! r := read_into sid buffer offset length position in
  let! count := lift (snd r) in
  ret (fst r, count).

(** [FS.write]; a stream in append mode seeks to the end first. *)
Definition write (sid : nat) (k : array_kind) (buffer : list Z) (offset length : Z) (position : option Z) (canOwn : bool) : M Z :=
  let! st := getStream sid in
  if (length <? 0) || negative position then errno 28
  else if bool_decide (fd st = None) then errno 8
  else if accmode (sflags st) =? 0 then errno 8
  else
    let! n := getNode (snode st) in
    if isDir (mode n) then errno 31
    else if negb (can_transfer st) then errno 28
    else
      (if seekable st && flag (sflags st) 1024 then llseek sid 0 2 ;;; ret tt else ret tt) ;;;
      let! st := getStream sid in
      if bool_decide (is_Some position) && negb (seekable st) then errno 70
      else
        let! count := (match sdev st with
                       | Some d => dev_write d k buffer offset length
                       | None =>
                           let! r := lift (memfs_write (file n) (typed k) buffer offset length (default (sposition st) position) canOwn) in
                           update_node (snode st) (fun n => with_file n (fst r)) ;;;
                           ret (snd r)
                       end) in
        (match position with
         | None => update_stream sid (fun st => with_position st (sposition st + count))
         | Some _ => ret tt
         end) ;;;
        ret count.

Definition chdir (path : jsstr) : M unit :=
  let! r := look path follow in
  let! i := some_or_throw (snd r) (ErrnoError 44) in
  let! n := getNode i in
  if negb (isDir (mode n)) then errno 54
  else
    let! errCode := nodePermissions i "x" in
    throw_code errCode ;;;
    modify (fun s =>
      {| root := root s; nodes := nodes s; nextInode := nextInode s; nameTable := nameTable s; mounts := mounts s;
         currentPath := fst r; ignorePermissions := ignorePermissions s; streams := streams s; stream_store := stream_store s;
       devices := devices s; term := term s |}).

(** [readFile] with the binary encoding and [writeFile] with a byte array. *)
Definition readFile (path : jsstr) : M (list Z) :=
  let! sid := open (inl path) 0 None 0 MAX_OPEN_FDS in
  let! a := stat path false in
  let! r := read sid (new_Uint8Array (a_size a)) 0 (a_size a) (Some 0) in
  close sid ;;;
  ret (fst r).

Definition writeFile (path : jsstr) (data : list Z) (mode : option Z) : M unit :=
  let! sid := open (inl path) 577 mode 0 MAX_OPEN_FDS in
  write sid Unsigned data 0 (Z.of_nat (length data)) None false ;;;
  close sid.

Definition createDefaultDirectories : M unit :=
  mkdir (js "/tmp") None ;;; mkdir (js "/home") None ;;; mkdir (js "/home/web_user") None ;;; ret tt.

End FS.

(** ** Runs *)

(** The file system after [FS.mount(MEMFS, {}, '/')] and the default directories. *)
Definition boot (stack : nat) : result unit * fs :=
  (mount_memfs stack (js "/") ;;; createDefaultDirectories stack) fs_init.

(** A file that was replaced comes back.  [rename] over an existing file leaves
    the replaced node in the name table behind the new one; when the new file is
    removed, the name finds the replaced file again, with its old contents,
    although the directory has no such entry. *)
Theorem rename_resurrects :
  let s := snd ((writeFile 10 (js "/tmp/a") [1] None ;;; writeFile 10 (js "/tmp/b") [2] None ;;;
                 rename 10 (js "/tmp/a") (js "/tmp/b") ;;; unlink 10 (js "/tmp/b")) (snd (boot 10))) in
  fst (readFile 10 (js "/tmp/b") s) = Ok [2]
  /\ fst ((let! r := look 10 (js "/tmp") follow in
           let! i := some_or_throw (snd r) type_error in entries_of i) s) = Ok [].
Proof. split; vm_compute; reflexivity. Qed.

(** A directory can be moved into itself.  [rename] takes the target for a place
    outside the source when the path to it starts with a dot, which is also true of
    a hidden directory inside: afterwards the two directories are each other's
    parent and the path of neither can be found. *)
Theorem rename_into_itself :
  let m := (let! d := mkdir 10 (js "/d") None in
            let! h := mkdir 10 (js "/d/.h") None in
            rename 10 (js "/d") (js "/d/.h/x") ;;;
            let! dn := getNode d in let! hn := getNode h in
            ret (bool_decide (parent dn = h), bool_decide (parent hn = d))) in
  let '(r, s) := m (snd (boot 10)) in
  r = Ok (true, true) /\ fst (look 10 (js "/d") follow s) = Throw (ErrnoError 44)
  /\ fst (look 10 (js "/d/.h") follow s) = Throw (ErrnoError 44).
Proof. vm_compute. split; [reflexivity|]. split; reflexivity. Qed.

(** The same move with an ordinary name is refused. *)
Example rename_into_itself_refused :
  fst ((mkdir 10 (js "/d") None ;;; mkdir 10 (js "/d/h") None ;;; rename 10 (js "/d") (js "/d/h/x")) (snd (boot 10)))
  = Throw (ErrnoError 28).
Proof. vm_compute. reflexivity. Qed.

(** *** A link into itself *)

(** [/a] is a link to [/a/b]. *)
Definition looped : fs := snd (symlink 10 (js "/a/b") (js "/a") (snd (boot 10))).

Lemma look_a f : lookupPath (S f) (js "/a") default_opts looped = (Ok (js "/a", Some 5%nat), looped).
Proof. vm_compute. reflexivity. Qed.

Definition retry_opts : opts := {| o_parent := false; o_follow := false; o_follow_mount := true; o_recurse := 0 |}.

Lemma bind_ok {A B} (m : M A) (k : A -> M B) s a s' : m s = (Ok a, s') -> bind m k s = k a s'.
Proof. unfold bind. by intros ->. Qed.

Lemma bind_throw {A B} (m : M A) (k : A -> M B) s e s' : m s = (Throw e, s') -> bind m k s = (Throw e, s').
Proof. unfold bind. by intros ->. Qed.

Lemma readlink_a lk :
  lk (js "/a") default_opts looped = (Ok (js "/a", Some 5%nat), looped) ->
  readlink_with lk (js "/a") looped = (Ok (js "/a/b"), looped).
Proof. intros Ha. unfold readlink_with. rewrite (bind_ok _ _ _ _ _ Ha). vm_compute. reflexivity. Qed.

Lemma follow_loops lk n e :
  lk (js "/a") default_opts looped = (Ok (js "/a", Some 5%nat), looped) ->
  lk (js "/a/b") retry_opts looped = (Throw e, looped) ->
  follow_links lk 0 (S n) 5 (js "/a") looped = (Throw e, looped).
Proof.
  intros Ha Hb. cbn [follow_links]. unfold bind at 1. unfold getNode.
  destruct (nodes looped !! 5%nat) as [nd|] eqn:E; [|vm_compute in E; discriminate].
  assert (Hm : isLink (mode nd) = true) by (vm_compute in E; injection E as <-; vm_compute; reflexivity).
  rewrite Hm. cbn [negb]. rewrite (bind_ok _ _ _ _ _ (readlink_a lk Ha)).
  rewrite (bind_ok _ _ _ (js "/") looped) by (vm_compute; reflexivity).
  rewrite (bind_ok _ _ _ (js "/") looped) by (vm_compute; reflexivity).
  replace (resolve (js "/") [js "/"; js "/a/b"]) with (js "/a/b") by (vm_compute; reflexivity).
  rewrite (bind_throw _ _ _ _ _ Hb). reflexivity.
Qed.

Lemma walk_loops lk o x e :
  o_recurse o = 0 ->
  lk (js "/a") default_opts looped = (Ok (js "/a", Some 5%nat), looped) ->
  lk (js "/a/b") retry_opts looped = (Throw e, looped) ->
  walk_parts lk o [js "a"; x] 1 [slash] looped = (Throw e, looped).
Proof.
  intros Ho Ha Hb. cbn [walk_parts]. cbn [andb].
  rewrite (bind_ok _ _ _ 5%nat looped) by (vm_compute; reflexivity).
  replace (join2 [slash] (js "a")) with (js "/a") by (vm_compute; reflexivity).
  unfold bind at 1. unfold getNode. destruct (nodes looped !! 5%nat) as [nd|] eqn:E; [|vm_compute in E; discriminate].
  assert (Hm : mounted nd = None) by (vm_compute in E; injection E as <-; vm_compute; reflexivity).
  rewrite Hm. unfold bind at 1. cbn [ret]. cbn [negb orb]. rewrite Ho.
  rewrite (bind_throw _ _ _ _ _ (follow_loops lk 41 e Ha Hb)). reflexivity.
Qed.

Lemma lookupPath_S f path o s p r :
  resolve (currentPath s) [currentPath s; path] = p -> nonempty p = true -> (8 <? o_recurse o) = false -> root s = Some r ->
  lookupPath (S f) path o s
  = bind (walk_parts (lookupPath f) o (normalizeArray (components p) false) r [slash]) (fun st => ret (snd st, Some (fst st))) s.
Proof.
  intros Hp Hn Ho Hr. cbn [lookupPath]. unfold bind at 1. unfold gets at 1. rewrite Hp, Hn. cbn [negb]. rewrite Ho.
  unfold bind at 1. unfold gets at 1. by rewrite Hr.
Qed.

Lemma look_ab f : lookupPath f (js "/a/b") retry_opts looped = (Throw stack_overflow, looped).
Proof.
  induction f as [|f IH]; [reflexivity|].
  rewrite (lookupPath_S f _ _ _ (js "/a/b") 1%nat) by (vm_compute; reflexivity).
  replace (normalizeArray (components (js "/a/b")) false) with [js "a"; js "b"] by (vm_compute; reflexivity).
  destruct f as [|f]; [vm_compute; reflexivity|].
  rewrite (bind_throw _ _ _ _ _ (walk_loops _ retry_opts (js "b") _ eq_refl (look_a f) IH)). reflexivity.
Qed.

(** A link into itself exhausts the stack.  The lookup passes its recursion count
    on without increasing it, so the limit of eight nested lookups is never
    reached: with [/a] a link to [/a/b], looking up anything below [/a] overflows
    the stack, however deep it is, instead of failing with ELOOP. *)
Theorem symlink_loop_overflows (stack : nat) :
  fst (lookupPath stack (js "/a/x") follow looped) = Throw stack_overflow.
Proof.
  destruct stack as [|f]; [reflexivity|]. rewrite (lookupPath_S f _ _ _ (js "/a/x") 1%nat) by (vm_compute; reflexivity).
  replace (normalizeArray (components (js "/a/x")) false) with [js "a"; js "x"] by (vm_compute; reflexivity).
  destruct f as [|f]; [vm_compute; reflexivity|].
  rewrite (bind_throw _ _ _ _ _ (walk_loops _ follow (js "x") _ eq_refl (look_a f) (look_ab (S f)))). reflexivity.
Qed.
