(* ===== verification/OpusFiles.v ===== *)
(** * Writing and reading whole files
      ([integrations/lan-remote-access/rustdesk-web-open/libopus.js], [FS.writeFile] and [FS.readFile])

    Looking up a path depends on names, links, modes and mounts, and neither on the
    contents of files nor on the open streams.  With this, what [writeFile] stores
    is what [readFile] returns. *)

From stdpp Require Import base list numbers strings gmap.
From Stdlib Require Import ZArith Lia.
From S2P Require Import Prelude JsString OpusText OpusMemfs OpusPath OpusNode OpusFs.
Local Open Scope Z_scope.

(** ** Lookups and the contents of files *)

(** The two states differ at most in the contents of files. *)
Definition same_but_file (a b : option node) : Prop :=
  match a, b with
  | Some n, Some m => m = with_file n (file m)
  | None, None => True
  | _, _ => False
  end.

Definition same_tree (s s' : fs) : Prop :=
  root s = root s' /\ nameTable s = nameTable s' /\ mounts s = mounts s' /\ currentPath s = currentPath s'
  /\ ignorePermissions s = ignorePermissions s' /\ size (nodes s) = size (nodes s')
  /\ nextInode s = nextInode s' /\ streams s = streams s' /\ stream_store s = stream_store s'
  /\ forall i, same_but_file (nodes s !! i) (nodes s' !! i).

(** A computation that gives the same on such states and changes neither. *)
Definition framed {A} (m : M A) : Prop :=
  forall s s', same_tree s s' -> exists r, m s = (r, s) /\ m s' = (r, s').

Lemma framed_ret {A} (a : A) : framed (ret a).
Proof. intros s s' _. by eexists. Qed.

Lemma framed_raise {A} e : framed (raise (A := A) e).
Proof. intros s s' _. by eexists. Qed.

Lemma framed_bind {A B} (m : M A) (k : A -> M B) : framed m -> (forall a, framed (k a)) -> framed (bind m k).
Proof.
  intros Hm Hk s s' Hs. destruct (Hm s s' Hs) as ([a|e] & H1 & H2); unfold bind; rewrite H1, H2; [by apply Hk|by eexists].
Qed.

Lemma framed_gets {A} (f : fs -> A) : (forall s s', same_tree s s' -> f s = f s') -> framed (gets f).
Proof. intros Hf s s' Hs. exists (Ok (f s)). unfold gets. by rewrite <- (Hf s s' Hs). Qed.

Lemma framed_catch {A} (m : M A) h : framed m -> (forall e, framed (h e)) -> framed (catch m h).
Proof.
  intros Hm Hh s s' Hs. destruct (Hm s s' Hs) as ([a|e] & H1 & H2); unfold catch; rewrite H1, H2; [by eexists|by apply Hh].
Qed.

(** A continuation that does not look at the contents of the node. *)
Lemma framed_node {B} i (k : node -> M B) :
  (forall n f, k (with_file n f) = k n) -> (forall n, framed (k n)) -> framed (bind (getNode i) k).
Proof.
  intros Hf Hk s s' Hs. unfold bind, getNode. pose proof Hs as (_ & _ & _ & _ & _ & _ & Hs7 & _ & Hs9 & Hn). pose proof (Hn i) as Hi.
  destruct (nodes s !! i) as [n|], (nodes s' !! i) as [m|]; cbn in Hi; try done; [rewrite Hi, Hf; by apply Hk|].
  assert (Hl : fd_link s i = fd_link s' i) by (unfold fd_link; by rewrite Hs7, Hs9). rewrite Hl.
  destruct (fd_link s' i) as [n|]; [by apply Hk|by eexists].
Qed.

Lemma framed_some {A} (o : option A) e : framed (some_or_throw o e).
Proof. destruct o; [apply framed_ret|apply framed_raise]. Qed.

Create HintDb framedb.

Ltac framed_step :=
  match goal with
  | |- framed (ret _) => apply framed_ret
  | |- framed (raise _) => apply framed_raise
  | |- framed (errno _) => apply framed_raise
  | |- framed (some_or_throw _ _) => apply framed_some
  | |- framed (bind (getNode _) _) => apply framed_node; [intros; reflexivity|intros]
  | |- framed (bind _ _) => apply framed_bind; [|intros]
  | |- framed (catch _ _) => apply framed_catch; [|intros]
  | |- framed (gets _) =>
      apply framed_gets; let E1 := fresh in let E2 := fresh in let E3 := fresh in let E4 := fresh in let E5 := fresh in let E6 := fresh in
      let E7 := fresh in let E8 := fresh in let E9 := fresh in
      intros ? ? (E1 & E2 & E3 & E4 & E5 & E6 & E7 & E8 & E9 & _); by rewrite ?E1, ?E2, ?E3, ?E4, ?E5, ?E6, ?E7, ?E8, ?E9
  | |- framed (if ?b then _ else _) => destruct b
  | |- framed (match ?o with _ => _ end) => destruct o
  | |- framed _ => solve [eauto 2 with framedb nocore]
  end.
Ltac framed := repeat framed_step.

Lemma framed_nodePermissions i p : framed (nodePermissions i p).
Proof. unfold nodePermissions. framed. Qed.

Lemma framed_find_name fuel cur p x : framed (find_name fuel cur p x).
Proof.
  revert cur. induction fuel as [|f IH]; intros [c|]; cbn [find_name]; try apply framed_ret.
  apply framed_node; [reflexivity|]. intros n. destruct (_ && _); [apply framed_ret|apply IH].
Qed.
#[local] Hint Resolve framed_nodePermissions framed_find_name : framedb.

Lemma framed_lookupNode p x : framed (lookupNode p x).
Proof. unfold lookupNode, mayLookup, node_lookup, fd_lookup. framed. Qed.
#[local] Hint Resolve framed_lookupNode : framedb.

Lemma framed_getPath fuel i p : framed (getPath fuel i p).
Proof.
  revert i p. induction fuel as [|f IH]; intros i p; cbn [getPath]; [apply framed_raise|].
  apply framed_node; [reflexivity|]. intros n. destruct (_ =? _)%nat; [|apply IH]. framed.
Qed.
#[local] Hint Resolve framed_getPath : framedb.

Lemma framed_pathOf i : framed (pathOf i).
Proof. unfold pathOf. framed. Qed.
#[local] Hint Resolve framed_pathOf : framedb.

Lemma framed_readlink lk p : (forall p o, framed (lk p o)) -> framed (readlink_with lk p).
Proof. intros H. unfold readlink_with. apply framed_bind; [apply H|]. intros. unfold node_readlink. framed. Qed.

Lemma framed_follow lk r n c p : (forall p o, framed (lk p o)) -> framed (follow_links lk r n c p).
Proof.
  intros H. revert c p. induction n as [|n IH]; intros c p; cbn [follow_links]; [apply framed_raise|].
  apply framed_node; [reflexivity|]. intros nd. destruct (negb _); [apply framed_ret|].
  apply framed_bind; [by apply framed_readlink|]. intros. framed_step; [framed|]. framed_step; [framed|].
  apply framed_bind; [apply H|]. intros. framed_step; [framed|]. destruct n; [apply framed_raise|apply IH].
Qed.

Lemma framed_walk lk o parts c p : (forall p o, framed (lk p o)) -> framed (walk_parts lk o parts c p).
Proof.
  intros H. revert c p. induction parts as [|x parts IH]; intros c p; cbn [walk_parts]; [apply framed_ret|].
  destruct (_ && _); [apply framed_ret|]. framed_step; [framed|]. framed_step.
  framed_step; [framed|]. apply framed_bind; [|intros; apply IH].
  destruct (_ || _); [by apply framed_follow|apply framed_ret].
Qed.

(** Looking up a path gives the same node, or the same error, on both states. *)
Lemma framed_lookupPath f p o : framed (lookupPath f p o).
Proof.
  revert p o. induction f as [|f IH]; intros p o; cbn [lookupPath]; [apply framed_raise|].
  framed_step; [framed|]. destruct (negb _); [apply framed_ret|]. destruct (8 <? _); [apply framed_raise|].
  framed_step; [framed|]. destruct a0 as [r|].
  - apply framed_bind; [by apply framed_walk|]. intros. apply framed_ret.
  - framed.
Qed.

(** ** A file that can be opened *)

(** The path leads to the file whatever streams are open, as every path does that does not go through [/proc/self/fd]. *)
Record openable (stack : nat) (s : fs) (path : jsstr) (i : nat) (n : node) (x : Z) : Prop := {
  op_path : path <> [] /\ normalize path = path;
  op_found : exists p, forall t o, lookupPath stack path follow (set_streams s t o) = (Ok (p, Some i), set_streams s t o);
  op_node : nodes s !! i = Some n;
  op_file : isFile (mode n) = true /\ node_ops n = FileOps /\ wf (file n);
  op_perm : ignorePermissions s = true \/ (js_and (mode n) 292 <> 0 /\ js_and (mode n) 146 <> 0);
  op_named : exists q, forall t o, pathOf i (set_streams s t o) = (Ok q, set_streams s t o);
  op_free : free_fd 4097 0 (streams s) = Some x
}.

Lemma file_not_other m : isFile m = true -> isDir m = false /\ isLink m = false /\ isChrdev m = false.
Proof. unfold isFile, isDir, isLink, isChrdev. intros H. bool_prop. rewrite H. done. Qed.

(** The state with other contents of the file and other streams. *)
Definition edited (s : fs) (i : nat) (f : fdata) (t : gmap Z nat) (o : gmap nat stream) : fs :=
  set_streams (set_nodes s (alter (fun n => with_file n f) i (nodes s))) t o.

Lemma edited_tree s i f t o : same_tree (set_streams s t o) (edited s i f t o).
Proof.
  repeat split; cbn.
  - symmetry. rewrite <- !(size_dom (D := gset nat)), dom_alter_L. done.
  - intros j. destruct (decide (j = i)) as [->|Hne].
    + rewrite lookup_alter_eq. by destruct (nodes s !! i).
    + rewrite lookup_alter_ne by done. destruct (nodes s !! j) as [n|]; [|done]. by destruct n.
Qed.

Lemma edited_node s i f t o n : nodes s !! i = Some n -> nodes (edited s i f t o) !! i = Some (with_file n f).
Proof. intros Hi. cbn. by rewrite lookup_alter_eq, Hi. Qed.

Lemma edited_twice s i f t o f' t' o' : edited (edited s i f t o) i f' t' o' = edited s i f' t' o'.
Proof.
  unfold edited, set_streams, set_nodes. cbn. f_equal. apply map_eq. intros j. destruct (decide (j = i)) as [->|Hne].
  - rewrite !lookup_alter_eq. by destruct (nodes s !! i).
  - by rewrite !lookup_alter_ne.
Qed.

(** A file stays openable when its contents change and its descriptor is freed. *)
Lemma openable_edited stack s path i n x f o :
  openable stack s path i n x -> wf f -> openable stack (edited s i f (streams s) o) path i (with_file n f) x.
Proof.
  intros [Hp [p Hf] Hn (H1 & H2 & _) Hperm [q Hq] Hx] Hw. split; try done.
  - exists p. intros t' o'. destruct (framed_lookupPath stack path follow _ _ (edited_tree s i f t' o')) as (r & E1 & E2). rewrite Hf in E1. by injection E1 as <-.
  - by apply edited_node.
  - exists q. intros t' o'. destruct (framed_pathOf i _ _ (edited_tree s i f t' o')) as (r & E1 & E2). rewrite Hq in E1. by injection E1 as <-.
Qed.

Lemma set_streams_id s : set_streams s (streams s) (stream_store s) = s.
Proof. by destruct s. Qed.

Lemma found_now stack s path i n x : openable stack s path i n x -> exists p, lookupPath stack path follow s = (Ok (p, Some i), s).
Proof. intros Hop. destruct (op_found _ _ _ _ _ _ Hop) as [p Hp]. exists p. specialize (Hp (streams s) (stream_store s)). by rewrite set_streams_id in Hp. Qed.

Lemma named_now stack s path i n x : openable stack s path i n x -> exists q, pathOf i s = (Ok q, s).
Proof. intros Hop. destruct (op_named _ _ _ _ _ _ Hop) as [q Hq]. exists q. specialize (Hq (streams s) (stream_store s)). by rewrite set_streams_id in Hq. Qed.

Section Openable.
Context (stack : nat) (s : fs) (path : jsstr) (i : nat) (n : node) (x : Z) (Hop : openable stack s path i n x).

Lemma permitted p : p = "r"%string \/ p = "w"%string \/ p = "ww"%string -> nodePermissions i p s = (Ok 0, s).
Proof.
  intros Hp. pose proof (op_perm _ _ _ _ _ _ Hop) as Hperm. pose proof (op_node _ _ _ _ _ _ Hop) as Hn.
  unfold nodePermissions, bind, gets, getNode. destruct (ignorePermissions s); [done|]. destruct Hperm as [|[Hr Hw]]; [done|].
  apply Z.eqb_neq in Hr, Hw. rewrite Hn, Hr, Hw, !andb_false_r.
  destruct Hp as [->|[->| ->]]; done.
Qed.

Lemma may_open flags : flags = 0 \/ flags = 577 -> mayOpen i flags s = (Ok 0, s).
Proof.
  intros Hf. destruct (file_not_other _ (proj1 (op_file _ _ _ _ _ _ Hop))) as (Hd & Hl & _).
  unfold mayOpen, bind at 1, getNode. rewrite (op_node _ _ _ _ _ _ Hop), Hl, Hd. cbn [andb].
  destruct Hf as [->| ->]; apply permitted; [by left|by right; right].
Qed.

(** Opening up to the truncation. *)
Lemma open_file flags :
  flags = 0 \/ flags = 577 ->
  open stack (inl path) flags None 0 MAX_OPEN_FDS s =
  ((if flag flags 512 then truncate stack (inr i) 0 else ret tt) ;;;
   let! q := pathOf i in
   let! sid := createStream {| snode := i; spath := q; sflags := js_and flags (-131713); sposition := 0; seekable := true;
                               sops := FileOps; fd := None; sdev := None |} 0 MAX_OPEN_FDS in ret sid) s.
Proof.
  intros Hf. pose proof Hop as [[Hp Hnorm] _ Hn (Hfile & Hops & Hwf) _ _ _]. destruct (found_now _ _ _ _ _ _ Hop) as [p Hfound].
  destruct (file_not_other _ Hfile) as (Hd & _ & Hc).
  assert (Hlk : open_lookup stack path flags s = (Ok (Some i), s)).
  { unfold open_lookup, catch, look. replace (negb (flag flags 131072)) with true by (destruct Hf as [->| ->]; reflexivity).
    fold follow. by rewrite (bind_ok _ _ _ _ _ Hfound). }
  assert (Hnode : open_node stack path flags (if flag flags 64 then js_or (js_and (default 438 None) 4095) 32768 else 0) (Some i) s = (Ok (i, false), s))
    by (destruct Hf as [->| ->]; reflexivity).
  assert (Hfirst : (match (inl path : target) with
                    | inr i => ret ([], Some i)
                    | inl [] => errno 44
                    | inl path => let path := normalize path in let! r := open_lookup stack path flags in ret (path, r)
                    end) s = (Ok (path, Some i), s)).
  { clear Hnode. revert Hp Hnorm Hlk. generalize path. intros [|c r] Hp Hnorm Hlk; [done|]. rewrite Hnorm. by rewrite (bind_ok _ _ _ _ _ Hlk). }
  unfold open. rewrite (bind_ok _ _ _ _ _ Hfirst).
  cbn [fst snd]. rewrite (bind_ok _ _ _ _ _ Hnode). unfold bind at 1, getNode at 1. rewrite Hn, Hc, Hd, Hops.
  replace (flag flags 65536) with false by (destruct Hf as [->| ->]; reflexivity). cbn [andb].
  rewrite (bind_ok _ _ _ _ _ (may_open flags Hf)). done.
Qed.

Definition opened (q : jsstr) (flags : Z) : stream :=
  {| snode := i; spath := q; sflags := js_and flags (-131713); sposition := 0; seekable := true; sops := FileOps; fd := Some x; sdev := None |}.

Lemma create_stream q flags :
  createStream {| snode := i; spath := q; sflags := js_and flags (-131713); sposition := 0; seekable := true; sops := FileOps; fd := None; sdev := None |} 0 MAX_OPEN_FDS s
  = (Ok (size (stream_store s)),
     set_streams s (<[x := size (stream_store s)]> (streams s)) (<[size (stream_store s) := opened q flags]> (stream_store s))).
Proof.
  unfold createStream, nextfd. assert (Hfd : free_fd (Z.to_nat (MAX_OPEN_FDS - 0 + 1)) 0 (streams s) = Some x) by apply (op_free _ _ _ _ _ _ Hop).
  rewrite (bind_ok _ _ s x s) by (unfold bind, gets; by rewrite Hfd). done.
Qed.

Lemma open_read : exists q,
  open stack (inl path) 0 None 0 MAX_OPEN_FDS s
  = (Ok (size (stream_store s)),
     set_streams s (<[x := size (stream_store s)]> (streams s)) (<[size (stream_store s) := opened q 0]> (stream_store s))).
Proof.
  destruct (named_now _ _ _ _ _ _ Hop) as [q Hq]. exists q. rewrite (open_file 0) by by left. change (flag 0 512) with false. cbn match.
  rewrite (bind_ok _ _ s tt s) by done. rewrite (bind_ok _ _ _ _ _ Hq), (bind_ok _ _ _ _ _ (create_stream q 0)). done.
Qed.

Lemma truncated : exists f, wf f /\ data f = [] /\
  truncate stack (inr i) 0 s = (Ok tt, set_nodes s (alter (fun n => with_file n f) i (nodes s))).
Proof.
  destruct (op_file _ _ _ _ _ _ Hop) as (Hfile & Hops & Hwf). destruct (file_not_other _ Hfile) as (Hd & _ & _).
  destruct (resizeFileStorage_refines (file n) 0 Hwf ltac:(lia)) as (f & Hr & Hw & Hdata). exists f. split; [done|]. split; [done|].
  unfold truncate. change (0 <? 0) with false. cbn match. unfold node_of. rewrite (bind_ok _ _ s i s) by done.
  unfold bind at 1, getNode at 1. rewrite (op_node _ _ _ _ _ _ Hop), Hops, Hd, Hfile. change (has_attr FileOps) with true. cbn [negb].
  rewrite (bind_ok _ _ _ _ _ (permitted "w" ltac:(by right; left))). cbn [throw_code Z.eqb].
  rewrite (bind_ok _ _ s tt s) by done. unfold setattr_size, bind, getNode, lift, update_node, modify. rewrite (op_node _ _ _ _ _ _ Hop), Hr. done.
Qed.

End Openable.

Lemma free_fd_free k t fd0 x : free_fd k fd0 t = Some x -> t !! x = None.
Proof.
  revert fd0. induction k as [|k IH]; intros fd0 E; [done|]. cbn in E. destruct (t !! fd0) eqn:E0; [by apply (IH (fd0 + 1))|congruence].
Qed.

Lemma delete_insert_free (t : gmap Z nat) x sid : t !! x = None -> delete x (<[x := sid]> t) = t.
Proof. intros Hx. by apply delete_insert_id. Qed.

Section RoundTrip.

(** Closing a stream that is open on [x]. *)
Lemma close_stream s sid st x :
  stream_store s !! sid = Some st -> fd st = Some x -> sdev st = None ->
  close sid s = (Ok tt, set_streams s (delete x (streams s)) (alter (fun st => with_fd st None) sid (stream_store s))).
Proof. intros Hs Hx Hd. unfold close, bind, getStream, modify, update_stream, lift, ret. rewrite Hs, Hx, Hd. done. Qed.

(** A stream open on a regular file. *)
Record file_stream (s : fs) (sid : nat) (st : stream) (n : node) : Prop := {
  fs_store : stream_store s !! sid = Some st;
  fs_open : fd st <> None;
  fs_ops : sops st = FileOps /\ sdev st = None /\ seekable st = true;
  fs_node : nodes s !! snode st = Some n;
  fs_file : isFile (mode n) = true /\ wf (file n);
  fs_pos : 0 <= sposition st
}.

Definition at_position (s : fs) (sid : nat) (st : stream) (p : Z) : fs :=
  set_streams s (streams s) (<[sid := with_position st p]> (stream_store s)).

Lemma alter_known {K} `{Countable K} {A} (f : A -> A) (m : gmap K A) i x : m !! i = Some x -> alter f i m = <[i := f x]> m.
Proof.
  intros Hi. apply map_eq. intros j. destruct (decide (i = j)) as [->|Hne].
  - by rewrite lookup_alter_eq, Hi, lookup_insert_eq.
  - by rewrite lookup_alter_ne, lookup_insert_ne.
Qed.

(** Where a write starts: in append mode at the end of the file. *)
Definition write_start (st : stream) (n : node) : Z := if flag (sflags st) 1024 then usedBytes (file n) else sposition st.

(** The bytes of a file after a write; writing nothing fills no gap. *)
Definition write_at (d : list Z) (pos : Z) (bs : list Z) : list Z := match bs with [] => d | _ => write_spec d (Z.to_nat pos) bs end.

Lemma append_seek s sid st n :
  file_stream s sid st n ->
  (if seekable st && flag (sflags st) 1024 then llseek sid 0 2 ;;; ret tt else ret tt) s
  = (Ok tt, if flag (sflags st) 1024 then at_position s sid st (write_start st n) else s).
Proof.
  intros [Hs Ho (Hops & Hdev & Hseek) Hn [Hfile [Hu _ _]] Hp]. rewrite Hseek. unfold write_start. destruct (flag (sflags st) 1024); cbn [andb]; [|done].
  unfold llseek. unfold bind at 1, bind at 1, getStream at 1. rewrite Hs, (bool_decide_eq_false_2 (fd st = None)) by done.
  unfold can_seek. rewrite Hseek, Hops. cbn [negb orb andb Z.eqb Pos.eqb]. rewrite bool_decide_eq_false_2 by done.
  unfold bind at 1, getNode at 1. rewrite Hn, Hfile. unfold bind, lift, memfs_llseek. cbn [Z.eqb Pos.eqb andb]. rewrite Z.add_0_l.
  rewrite (proj2 (Z.ltb_ge (usedBytes (file n)) 0)) by lia. unfold update_stream, modify, ret. by rewrite (alter_known _ _ _ st).
Qed.

(** Writing through such a stream. *)
Lemma write_file s sid st n k buffer offset len :
  file_stream s sid st n -> accmode (sflags st) <> 0 -> Forall (fun b => 0 <= b < 256) buffer ->
  0 <= offset -> 0 <= len -> offset + len <= Z.of_nat (length buffer) ->
  exists f, write sid k buffer offset len None false s
      = (Ok len, at_position (set_nodes s (<[snode st := with_file n f]> (nodes s))) sid st (write_start st n + len))
    /\ wf f /\ data f = write_at (data (file n)) (write_start st n) (subarray buffer offset (offset + len)).
Proof.
  intros Hfs Hacc Hb Ho Hl Hr. pose proof (append_seek _ _ _ _ Hfs) as Hseek.
  destruct Hfs as [Hs Hopen (Hops & Hdev & Hsk) Hn [Hfile Hwf] Hp]. destruct (file_not_other _ Hfile) as (Hdir & _ & _).
  assert (Hstart : 0 <= write_start st n) by (pose proof (used_pos _ Hwf); unfold write_start; destruct (flag (sflags st) 1024); lia).
  assert (Hwr : exists f, memfs_write (file n) (typed k) buffer offset len (write_start st n) false = Ok (f, len) /\ wf f
                /\ data f = write_at (data (file n)) (write_start st n) (subarray buffer offset (offset + len))).
  { destruct (decide (len = 0)) as [->|Hne].
    - exists (file n). split; [done|]. split; [done|]. unfold subarray. by replace (offset + 0 - offset) with 0 by lia.
    - destruct (memfs_write_spec (file n) (typed k) buffer offset len (write_start st n) Hwf Hb) as (f & E & Hw & Hd); try lia.
      exists f. split; [done|]. split; [done|]. rewrite Hd. unfold write_at.
      pose proof (subarray_length buffer offset len Ho Hl Hr) as HL. destruct (subarray _ _ _); [cbn in HL; lia|done]. }
  destruct Hwr as (f & Hwr & Hw & Hd). exists f. split; [|done]. unfold write, bind at 1, getStream at 1. rewrite Hs.
  rewrite (proj2 (Z.ltb_ge len 0)) by lia. cbn [negative orb]. rewrite bool_decide_eq_false_2 by done. rewrite (proj2 (Z.eqb_neq _ 0)) by done.
  unfold bind at 1, getNode at 1. rewrite Hn, Hdir. unfold can_transfer. rewrite Hops. cbn [negb]. rewrite (bind_ok _ _ _ _ _ Hseek).
  assert (Hst : exists s1 st1, (if flag (sflags st) 1024 then at_position s sid st (write_start st n) else s) = s1 /\ stream_store s1 !! sid = Some st1
           /\ sposition st1 = write_start st n /\ sdev st1 = None /\ snode st1 = snode st /\ nodes s1 = nodes s
           /\ forall f p, at_position (set_nodes s1 f) sid st1 p = at_position (set_nodes s f) sid st p).
  { unfold write_start. destruct (flag (sflags st) 1024) eqn:Eapp.
    - do 2 eexists. split; [reflexivity|]. split; [apply lookup_insert_eq|]. split; [done|]. split; [done|]. split; [done|]. split; [done|].
      intros. unfold at_position, set_nodes, set_streams. cbn. by rewrite insert_insert_eq.
    - by exists s, st. }
  destruct Hst as (s1 & st1 & -> & Hs1 & Hp1 & Hd1 & Hn1 & Hns & Heq).
  unfold bind at 1, getStream at 1. rewrite Hs1, bool_decide_eq_false_2 by (intros [? ?]; discriminate). cbn [andb]. rewrite Hd1, Hn1.
  unfold bind, lift, update_node, modify, update_stream, ret. unfold default. cbn [id]. rewrite Hp1, Hwr. cbn [fst snd]. f_equal. rewrite <- Heq.
  unfold at_position, set_nodes, set_streams. cbn. rewrite (alter_known _ _ _ st1) by done. rewrite Hns, (alter_known _ _ _ n) by done. by rewrite Hp1.
Qed.

(** Reading through such a stream, at its position or at a given one. *)
Lemma read_file s sid st n buffer offset len position :
  file_stream s sid st n -> accmode (sflags st) <> 1 -> Forall (fun b => 0 <= b < 256) (data (file n)) ->
  0 <= offset -> 0 <= len -> offset + len <= Z.of_nat (length buffer) -> 0 <= default 0 position ->
  let part := subarray (data (file n)) (default (sposition st) position) (default (sposition st) position + len) in
  read_into sid buffer offset len position s
  = (Ok (take (Z.to_nat offset) buffer ++ part ++ drop (Z.to_nat offset + length part) buffer, Ok (Z.of_nat (length part))),
     match position with None => at_position s sid st (sposition st + Z.of_nat (length part)) | Some _ => s end).
Proof.
  intros [Hs Hopen (Hops & Hdev & Hsk) Hn [Hfile Hwf] Hp] Hacc Hb Ho Hl Hr Hpos part. destruct (file_not_other _ Hfile) as (Hdir & _ & _).
  unfold read_into, bind at 1, getStream at 1. rewrite Hs.
  rewrite (proj2 (Z.ltb_ge len 0)) by lia. replace (negative position) with false by (destruct position as [p|]; [symmetry; apply Z.ltb_ge; exact Hpos|done]).
  cbn [orb]. rewrite bool_decide_eq_false_2 by done. rewrite (proj2 (Z.eqb_neq _ 1)) by done.
  unfold bind at 1, getNode at 1. rewrite Hn, Hdir. unfold can_transfer. rewrite Hops, Hdev, Hsk, andb_false_r. cbn [negb].
  unfold bind, lift, ret. rewrite (memfs_read_spec (file n) buffer offset len (default (sposition st) position)); try done; [|destruct position; [exact Hpos|exact Hp]].
  cbn [fst snd]. fold part. destruct position; [done|]. unfold update_stream, modify. by rewrite (alter_known _ _ _ st).
Qed.

Lemma opened_stream s stack path i n x q flags :
  openable stack s path i n x ->
  let s' := set_streams s (<[x := size (stream_store s)]> (streams s)) (<[size (stream_store s) := opened i x q flags]> (stream_store s)) in
  file_stream s' (size (stream_store s)) (opened i x q flags) n.
Proof.
  intros Hop. destruct (op_file _ _ _ _ _ _ Hop) as (Hfile & _ & Hwf). split; try done; [apply lookup_insert_eq|apply (op_node _ _ _ _ _ _ Hop)].
Qed.

Lemma writeFile_spec stack s path i n x bytes :
  openable stack s path i n x -> Forall (fun b => 0 <= b < 256) bytes ->
  exists f o, writeFile stack path bytes None s = (Ok tt, edited s i f (streams s) o) /\ wf f /\ data f = bytes.
Proof.
  intros Hop Hb. destruct (truncated stack s path i n x Hop) as (f1 & Hw1 & Hd1 & Htr).
  set (s1 := set_nodes s (alter (fun n => with_file n f1) i (nodes s))) in Htr.
  assert (Hop1 : openable stack s1 path i (with_file n f1) x) by exact (openable_edited stack s path i n x f1 (stream_store s) Hop Hw1).
  destruct (named_now _ _ _ _ _ _ Hop1) as [q Hq]. pose proof (create_stream stack s1 path i _ x Hop1 q 577) as Hcs.
  pose proof (opened_stream s1 stack path i _ x q 577 Hop1) as Hfs. cbv zeta in Hfs.
  set (sid := size (stream_store s1)) in *. set (s2 := set_streams s1 _ _) in Hcs, Hfs.
  destruct (write_file s2 sid _ _ Unsigned bytes 0 (Z.of_nat (length bytes)) Hfs) as (f & Hwrite & Hw & Hd); try done; try lia.
  exists f, (alter (fun st => with_fd st None) sid (<[sid := with_position (opened i x q 577) (0 + Z.of_nat (length bytes))]> (stream_store s2))).
  split; [|split; [done|]].
  - unfold writeFile. rewrite (bind_ok _ _ s sid s2).
    2:{ rewrite (open_file stack s path i n x Hop 577) by by right. change (flag 577 512) with true. cbn match.
        rewrite (bind_ok _ _ _ _ _ Htr), (bind_ok _ _ _ _ _ Hq), (bind_ok _ _ _ _ _ Hcs). done. }
    rewrite (bind_ok _ _ _ _ _ Hwrite), (close_stream _ sid (with_position (opened i x q 577) (0 + Z.of_nat (length bytes))) x (lookup_insert_eq _ _ _) eq_refl eq_refl). f_equal.
    unfold edited, at_position, set_streams, set_nodes. cbn. change (streams s2) with (<[x := sid]> (streams s)).
    rewrite delete_insert_free by apply (free_fd_free _ _ _ _ (op_free _ _ _ _ _ _ Hop)).
    rewrite (alter_known _ (nodes s) i n) by apply (op_node _ _ _ _ _ _ Hop). by rewrite insert_insert_eq, (alter_known _ (nodes s) i n) by apply (op_node _ _ _ _ _ _ Hop).
  - rewrite Hd. change (write_start _ _) with 0. unfold subarray. rewrite Z.add_0_l, Z.sub_0_r, Nat2Z.id. change (Z.to_nat 0) with 0%nat.
    rewrite drop_0, firstn_all. cbn [file with_file]. rewrite Hd1. destruct bytes; [done|]. unfold write_at, write_spec. cbn. by rewrite drop_nil, app_nil_r.
Qed.

Lemma readFile_spec stack s path i n x :
  openable stack s path i n x -> Forall (fun b => 0 <= b < 256) (data (file n)) ->
  fst (readFile stack path s) = Ok (data (file n)).
Proof.
  intros Hop Hb. destruct (open_read stack s path i n x Hop) as [q Hopen]. pose proof (opened_stream s stack path i n x q 0 Hop) as Hfs. cbv zeta in Hfs.
  set (sid := size (stream_store s)) in Hopen, Hfs. set (s1 := set_streams s _ _) in Hopen, Hfs.
  destruct (op_file _ _ _ _ _ _ Hop) as (Hfile & Hops & Hwf). destruct (file_not_other _ Hfile) as (Hd & Hl & Hc).
  pose proof (op_node _ _ _ _ _ _ Hop) as Hn. destruct (op_found _ _ _ _ _ _ Hop) as [p Hp].
  pose proof (Hp _ _ : lookupPath stack path follow s1 = _) as E2.
  assert (Hstat : exists a, stat stack path false s1 = (Ok a, s1) /\ a_size a = usedBytes (file n)).
  { unfold stat. change ({| o_parent := false; o_follow := negb false; o_follow_mount := true; o_recurse := 0 |}) with follow.
    unfold look. rewrite (bind_ok _ _ _ _ _ E2). cbn [snd some_or_throw]. rewrite (bind_ok _ _ s1 i s1) by done.
    unfold bind at 1, getNode at 1. change (nodes s1) with (nodes s). rewrite Hn, Hops. change (has_attr FileOps) with true. cbn [negb].
    unfold getattr, bind, getNode. change (nodes s1) with (nodes s). rewrite Hn, Hd, Hfile. eexists. split; [reflexivity|done]. }
  destruct Hstat as (a & Hstat & Hsize). pose proof Hwf as [Hu _ _]. pose proof (data_length _ Hwf) as Hlen.
  unfold readFile. rewrite (bind_ok _ _ _ _ _ Hopen), (bind_ok _ _ _ _ _ Hstat), Hsize.
  pose proof (read_file s1 sid _ n (new_Uint8Array (usedBytes (file n))) 0 (usedBytes (file n)) (Some 0) Hfs) as Hread. cbv zeta in Hread.
  assert (Hsub : subarray (data (file n)) 0 (0 + usedBytes (file n)) = data (file n)).
  { unfold subarray. rewrite Z.add_0_l, Z.sub_0_r. change (Z.to_nat 0) with 0%nat. rewrite drop_0. apply take_ge. lia. }
  cbn [default] in Hread. unfold id in Hread. rewrite Hsub in Hread.
  unfold read at 1, bind at 1, bind at 1. rewrite Hread by (done || (unfold new_Uint8Array; rewrite ?repeat_length; lia)).
  unfold bind at 1, lift, ret at 1. cbn [fst snd]. rewrite (bind_ok _ _ s1 tt _ (close_stream s1 sid (opened i x q 0) x ltac:(apply lookup_insert_eq) eq_refl eq_refl)).
  cbn [fst snd ret]. change (Z.to_nat 0) with 0%nat. cbn [take Nat.add app]. rewrite drop_ge by (unfold new_Uint8Array; rewrite repeat_length; lia). by rewrite app_nil_r.
Qed.

End RoundTrip.

(** C15. What is written to a file is read back.  For a path that leads to a regular
    file of the file system, through any links and mount points, with permissions
    that allow it and a free descriptor, [writeFile] replaces the whole contents,
    gives its descriptor back, and [readFile] then returns exactly the bytes
    written. *)
Theorem writeFile_readFile (stack : nat) (s : fs) (path : jsstr) (i : nat) (n : node) (x : Z) (bytes : list Z) :
  openable stack s path i n x -> Forall (fun b => 0 <= b < 256) bytes ->
  exists s', writeFile stack path bytes None s = (Ok tt, s') /\ streams s' = streams s
    /\ fst (readFile stack path s') = Ok bytes.
Proof.
  intros Hop Hb. destruct (writeFile_spec stack s path i n x bytes Hop Hb) as (f & o & Hw & Hwf & Hd).
  exists (edited s i f (streams s) o). split; [done|]. split; [done|].
  pose proof (openable_edited stack s path i n x f o Hop Hwf) as Hop'. rewrite (readFile_spec _ _ _ _ _ _ Hop'); cbn; rewrite Hd; done.
Qed.

(** A file system with a file of two bytes that a link leads to. *)
Definition linked : fs :=
  snd ((writeFile 10 (js "/home/note") [7; 7] None ;;; symlink 10 (js "/home/note") (js "/tmp/link")) (snd (boot 10))).

Theorem writeFile_readFile_witness :
  exists s', writeFile 10 (js "/tmp/link") [1; 2; 3] None linked = (Ok tt, s') /\ streams s' = streams linked
    /\ fst (readFile 10 (js "/tmp/link") s') = Ok [1; 2; 3].
Proof.
  destruct (nodes linked !! 5%nat) as [n|] eqn:E; [|vm_compute in E; discriminate].
  apply (writeFile_readFile 10 linked (js "/tmp/link") 5 n 0); [|repeat constructor; lia].
  split.
  - split; [discriminate|vm_compute; reflexivity].
  - exists (js "/home/note"). intros t o. vm_compute. reflexivity.
  - exact E.
  - vm_compute in E. injection E as <-. split; [vm_compute; reflexivity|]. split; [reflexivity|].
    split; [vm_compute; discriminate|vm_compute; discriminate|]. intros c Hc. vm_compute in Hc. injection Hc as <-. vm_compute. constructor.
  - left. vm_compute. reflexivity.
  - eexists. intros t o. vm_compute. reflexivity.
  - vm_compute. reflexivity.
Defined.
