(* ===== verification/OpusDevices.v ===== *)
(** * Devices and standard streams of the Opus module's file system
      ([integrations/lan-remote-access/rustdesk-web-open/libopus.js], [FS])

    Registering devices, the default devices, and the three standard streams that
    [FS.init] opens.  The functions of a page that replace a standard stream, and
    the source of random bytes, are numbered functions of [OpusTty]. *)

From stdpp Require Import base list numbers strings gmap.
From Stdlib Require Import ZArith Lia.
From S2P Require Import Prelude JsString OpusText OpusMemfs OpusPath OpusTty OpusNode OpusFs.
Local Open Scope Z_scope.

Section Devices.
Variable stack : nat.

Definition major (dev : Z) : Z := js_sar dev 8.
Definition minor (dev : Z) : Z := js_and dev 0xff.
Definition makedev (ma mi : Z) : Z := js_or (js_shl ma 8) mi.

Definition registerDevice (dev : Z) (o : dev_ops) : M unit :=
  modify (fun s =>
    {| root := root s; nodes := nodes s; nextInode := nextInode s; nameTable := nameTable s; mounts := mounts s;
       currentPath := currentPath s; ignorePermissions := ignorePermissions s; streams := streams s; stream_store := stream_store s;
       devices := <[dev := o]> (devices s); term := term s |}).

(** [TTY.register] *)
Definition register_tty (dev : Z) (k : tty_ops) : M unit :=
  modify (fun s => set_term s (tty_register dev k (term s))) ;;;
  registerDevice dev TtyDevice.

(** [FS.mkdev]; the mode defaults to [0666]. *)
Definition mkdev (path : jsstr) (mode : option Z) (dev : Z) : M nat := mknod stack path (js_or (default 438 mode) 8192) dev.

Definition getMode (canRead canWrite : bool) : Z :=
  js_or (if canRead then js_or 292 73 else 0) (if canWrite then 146 else 0).

Definition parent_path (parent : target) : M jsstr := match parent with inl p => ret p | inr i => pathOf i end.

Definition createDevice (parent : target) (name : jsstr) (input output : option nat) : M nat :=
  let! p := parent_path parent in
  let path := join2 p name in
  let mode := getMode (bool_decide (is_Some input)) (bool_decide (is_Some output)) in
  let! ma := on_term (fun t => (next_major t, bump_major t)) in
  let dev := makedev ma 0 in
  registerDevice dev (FunDevice input output) ;;;
  mkdev path (Some mode) dev.

(** [random] is the function of [getRandomDevice]. *)
Definition createDefaultDevices (random : nat) : M unit :=
  mkdir stack (js "/dev") None ;;;
  registerDevice (makedev 1 3) NullDevice ;;;
  mkdev (js "/dev/null") None (makedev 1 3) ;;;
  register_tty (makedev 5 0) Tty0 ;;;
  register_tty (makedev 6 0) Tty1 ;;;
  mkdev (js "/dev/tty") None (makedev 5 0) ;;;
  mkdev (js "/dev/tty1") None (makedev 6 0) ;;;
  createDevice (inl (js "/dev")) (js "random") (Some random) None ;;;
  createDevice (inl (js "/dev")) (js "urandom") (Some random) None ;;;
  mkdir stack (js "/dev/shm") None ;;;
  mkdir stack (js "/dev/shm/tmp") None ;;;
  ret tt.

(** One of the standard names: a device of its own for a function of the page, otherwise a link. *)
Definition standard_name (name tty : jsstr) (f : option nat) (input output : option nat) : M unit :=
  match f with
  | Some _ => createDevice (inl (js "/dev")) name input output ;;; ret tt
  | None => symlink stack tty (js "/dev/" ++ name) ;;; ret tt
  end.

Definition assert_fd (sid : nat) (x : Z) : M unit :=
  let! st := getStream sid in if bool_decide (fd st = Some x) then ret tt else raise aborted.

Definition createStandardStreams (stdin stdout stderr : option nat) : M unit :=
  standard_name (js "stdin") (js "/dev/tty") stdin stdin None ;;;
  standard_name (js "stdout") (js "/dev/tty") stdout None stdout ;;;
  standard_name (js "stderr") (js "/dev/tty1") stderr None stderr ;;;
  let! i := open stack (inl (js "/dev/stdin")) 0 None 0 MAX_OPEN_FDS in
  let! o := open stack (inl (js "/dev/stdout")) 1 None 0 MAX_OPEN_FDS in
  let! e := open stack (inl (js "/dev/stderr")) 1 None 0 MAX_OPEN_FDS in
  assert_fd i 0 ;;; assert_fd o 1 ;;; assert_fd e 2.

(** [/proc/self/fd], where the name of a descriptor is a link to the path of its stream.  The root of the mount is made
    in the directory it is mounted in, under the name of the mount point. *)
Definition createSpecialDirectories : M unit :=
  mkdir stack (js "/proc") None ;;;
  let! proc_self := mkdir stack (js "/proc/self") None in
  mkdir stack (js "/proc/self/fd") None ;;;
  mount_with stack (createNode (Some proc_self) (js "fd") (js_or 16384 511) 73 FdDirOps) (js "/proc/self/fd") ;;;
  ret tt.

(** [FS.staticInit] and [FS.init]. *)
Definition staticInit (random : nat) : M unit :=
  mount_memfs stack (js "/") ;;; createDefaultDirectories stack ;;; createDefaultDevices random ;;; createSpecialDirectories.

Definition init (random : nat) (stdin stdout stderr : option nat) : M unit :=
  staticInit random ;;; createStandardStreams stdin stdout stderr ;;;
  modify (fun s =>
    {| root := root s; nodes := nodes s; nextInode := nextInode s; nameTable := nameTable s; mounts := mounts s;
       currentPath := currentPath s; ignorePermissions := false; streams := streams s; stream_store := stream_store s;
       devices := devices s; term := term s |}).

End Devices.

(** Device numbers carry their two parts. *)
Lemma makedev_parts ma mi : 0 <= ma < 2 ^ 22 -> 0 <= mi < 256 -> major (makedev ma mi) = ma /\ minor (makedev ma mi) = mi.
Proof.
  intros Hma Hmi. unfold makedev, major, minor. rewrite js_shl_small, js_or_add by lia.
  rewrite js_sar_small by lia. change 0xff with (2 ^ 8 - 1). rewrite js_and_ones by lia.
  change (2 ^ 8) with 256. split; Z.to_euclidean_division_equations; lia.
Qed.

(** The file system as the module starts with it in a worker. *)
Definition started_fs : fs := snd (init 10 0 None None None fs_init).

(** The state [FS.init] leaves: the descriptors 0, 1 and 2 are streams on the two terminals, which have nothing
    pending, and every other descriptor is free. *)
Lemma started_streams :
  (exists s, init 10 0 None None None fs_init = (Ok tt, s)) /\
  dom (streams started_fs) = {[0; 1; 2]} /\
  map (fun x => sid ← streams started_fs !! x; st ← stream_store started_fs !! sid; Some (sdev st, sflags st, seekable st)) [0; 1; 2]
  = [Some (Some (STty (Some 0%nat)), 0, false); Some (Some (STty (Some 0%nat)), 1, false); Some (Some (STty (Some 1%nat)), 1, false)] /\
  map (fun id => tty_store (term started_fs) !! id) [0; 1]%nat
  = [Some {| tty_input := []; tty_output := []; tty_kind := Tty0 |}; Some {| tty_input := []; tty_output := []; tty_kind := Tty1 |}] /\
  printed (term started_fs) = [].
Proof. split; [eexists; vm_compute; reflexivity|]. repeat split; vm_compute; reflexivity. Qed.

(** ** [/proc/self/fd] *)

(** The names of a directory, as [readdir] lists the entries. *)
Definition names_in (path : jsstr) : M (list jsstr) :=
  let! r := look 10 path follow in
  let! i := some_or_throw (snd r) type_error in
  let! l := entries_of i in ret (map fst l).

(** The name of an open descriptor is a link to the path of its stream, the one its lookup ended at, however the number is
    written; a name that is no open descriptor is a bad file descriptor, and what was found cannot be opened. *)
Lemma proc_fd_links :
  map (fun x => fst (readlink 10 (js "/proc/self/fd/" ++ js x) started_fs)) ["0"; "1"; "2"; "0x1"; "1e0"; " 2"; "3"; "01"; "-1"; "one"]%string
  = [Ok (js "/dev/tty"); Ok (js "/dev/tty"); Ok (js "/dev/tty1"); Ok (js "/dev/tty"); Ok (js "/dev/tty"); Ok (js "/dev/tty1");
     Throw (ErrnoError 8); Ok (js "/dev/tty"); Throw (ErrnoError 8); Throw (ErrnoError 8)]
  /\ fst (open 10 (inl (js "/proc/self/fd/1")) 0 None 0 MAX_OPEN_FDS started_fs) = Throw (ErrnoError 2).
Proof. split; vm_compute; reflexivity. Qed.

(** The directory can be removed although something is mounted there: the root of the mount was made in the same directory
    under the same name, hides the mount point from the check, and is what is removed.  The name is then gone from the
    directory and still leads to the mount, and a second removal is refused as busy. *)
Theorem proc_fd_removed_but_found :
  let '(r, s) := rmdir 10 (js "/proc/self/fd") started_fs in
  r = Ok tt
  /\ fst (names_in (js "/proc/self") started_fs) = Ok [js "fd"] /\ fst (names_in (js "/proc/self") s) = Ok []
  /\ fst (readlink 10 (js "/proc/self/fd/2") s) = Ok (js "/dev/tty1")
  /\ fst (rmdir 10 (js "/proc/self/fd") s) = Throw (ErrnoError 10).
Proof. vm_compute. repeat split. Qed.
