(* ===== verification/OpusEnviron.v ===== *)
(** * Environment of the Opus module
      ([integrations/lan-remote-access/rustdesk-web-open/libopus.js], [getEnvStrings] and [_environ_*])

    The strings of the environment, which are computed once, and the two imported
    functions through which the module asks for their sizes and then for the strings
    themselves.  The names of variables are taken not to be array indexes, so that
    properties keep the order in which they were added. *)

From stdpp Require Import base list numbers strings.
From Stdlib Require Import ZArith Lia.
From S2P Require Import Prelude JsString OpusText OpusValue.
Local Open Scope Z_scope.

(** ** The strings *)

Definition env : Type := list (jsstr * jsstr).

(** [env[x] = v] and [delete env[x]]. *)
Fixpoint env_set (l : env) (x v : jsstr) : env :=
  match l with
  | [] => [(x, v)]
  | (y, u) :: l' => if str_eqb y x then (x, v) :: l' else (y, u) :: env_set l' x v
  end.
Definition env_delete (l : env) (x : jsstr) : env := List.filter (fun '(y, _) => negb (str_eqb y x)) l.

(** [replace('-', '_')] replaces the first one. *)
Fixpoint replace_first (c d : Z) (s : jsstr) : jsstr :=
  match s with [] => [] | x :: s' => if x =? c then d :: s' else x :: replace_first c d s' end.

(** [language] is the first of [navigator.languages], when there is one and it is not empty. *)
Definition env_lang (language : option jsstr) : jsstr :=
  replace_first 45 95 (match language with Some (c :: s) => c :: s | _ => js "C" end) ++ js ".UTF-8".

Definition getExecutableName (thisProgram : option jsstr) : jsstr :=
  match thisProgram with Some (c :: s) => c :: s | _ => js "./this.program" end.

Definition default_env (language thisProgram : option jsstr) : env :=
  [(js "USER", js "web_user"); (js "LOGNAME", js "web_user"); (js "PATH", js "/"); (js "PWD", js "/"); (js "HOME", js "/home/web_user");
   (js "LANG", env_lang language); (js "_", getExecutableName thisProgram)].

(** [ENV] as the page filled it; a variable set to [undefined] is removed. *)
Definition user_env (ENV : list (jsstr * option jsstr)) (l : env) : env :=
  fold_left (fun l '(x, v) => match v with Some v => env_set l x v | None => env_delete l x end) ENV l.

Definition compute_strings (ENV : list (jsstr * option jsstr)) (language thisProgram : option jsstr) : list jsstr :=
  map (fun '(x, v) => x ++ 61 :: v) (user_env ENV (default_env language thisProgram)).

(** [getEnvStrings]: later changes of [ENV] have no effect. *)
Definition getEnvStrings (ENV : list (jsstr * option jsstr)) (language thisProgram : option jsstr) (cache : option (list jsstr))
  : list jsstr * option (list jsstr) :=
  let strings := match cache with Some l => l | None => compute_strings ENV language thisProgram end in
  (strings, Some strings).

(** ** The imported functions *)

Definition buffer_size (strings : list jsstr) : Z := foldr (fun s n => str_len s + 1 + n) 0 strings.

Definition _environ_sizes_get (strings : list jsstr) (m : mem) (penviron_count penviron_buf_size : Z) : mem :=
  store32 (store32 m (js_sar penviron_count 2) (Z.of_nat (length strings))) (js_sar penviron_buf_size 2) (buffer_size strings).

Fixpoint environ_loop (strings : list jsstr) (environ i ptr : Z) (m : mem) : result mem :=
  match strings with
  | [] => Ok m
  | s :: strings' =>
      let m := store32 m (js_sar (environ + i * 4) 2) ptr in
      let? m := writeAsciiToMemory s m ptr false in
      environ_loop strings' environ (i + 1) (ptr + (str_len s + 1)) m
  end.

Definition _environ_get (strings : list jsstr) (environ environ_buf : Z) (m : mem) : result mem := environ_loop strings environ 0 environ_buf m.

(** ** What the module reads *)

Lemma load8_store8_same m i v : 0 <= i < Z.of_nat (length m) -> load8 (store8 m i v) i = Some (v mod 256).
Proof.
  intros Hi. unfold load8, store8. rewrite (proj2 (Z.ltb_ge i 0)) by lia. apply list_lookup_insert_eq. lia.
Qed.

(** A string of bytes and its terminator at an address. *)
Definition string_at (m : mem) (p : Z) (s : jsstr) : Prop :=
  (forall j c, s !! j = Some c -> load8 m (p + Z.of_nat j) = Some c) /\ load8 m (p + str_len s) = Some 0.

Definition char_ok (c : Z) : Prop := 0 < c < 256.

Lemma writeAscii_spec s m p : Forall char_ok s -> 0 <= p -> p + str_len s < Z.of_nat (length m) -> p + str_len s < 2 ^ 31 ->
  exists m', writeAsciiToMemory s m p false = Ok m' /\ length m' = length m /\ string_at m' p s
    /\ forall j, j < p \/ p + str_len s < j -> load8 m' j = load8 m j.
Proof.
  intros Hs. revert m p. induction Hs as [|c s Hc Hs IH]; intros m p Hp Hl H31; cbn [writeAsciiToMemory].
  - unfold str_len in *. cbn in *. eexists. split; [reflexivity|]. split; [apply store8_length|].
    split; [|intros j Hj; apply store8_other; lia]. split; [by intros j c' Hj|]. rewrite Z.add_0_r in *. apply load8_store8_same. lia.
  - unfold char_ok in Hc. unfold str_len in *. cbn [length] in *. change 0xFF with (2 ^ 8 - 1). rewrite js_and_ones by lia. rewrite Z.mod_small by lia. rewrite Z.eqb_refl. cbn [negb].
    destruct (IH (store8 m p c) (p + 1)) as (m' & E & Hlen & [Hstr Hnul] & Hout); [lia|rewrite store8_length; lia|lia|].
    exists m'. split; [exact E|]. split; [by rewrite Hlen, store8_length|]. split; [split|].
    + intros [|j] c' Hj; cbn in Hj.
      * injection Hj as <-. rewrite Z.add_0_r, Hout by lia. rewrite load8_store8_same by lia. by rewrite Z.mod_small by lia.
      * rewrite <- (Hstr j c' Hj). f_equal. lia.
    + rewrite <- Hnul. f_equal. unfold str_len. cbn. lia.
    + intros j Hj. rewrite Hout by lia. apply store8_other. lia.
Qed.

Lemma ascii_loop_spec s m p f : string_at m p s -> Forall char_ok s -> (length s < f)%nat -> ascii_loop f m p = s.
Proof.
  intros Hm Hs. revert p f Hm. induction Hs as [|c s Hc Hs IH]; intros p [|f] [Hstr Hnul] Hf; cbn in Hf; try lia.
  - cbn [ascii_loop]. unfold num8. unfold str_len in Hnul. cbn in Hnul. rewrite Z.add_0_r in Hnul. by rewrite Hnul.
  - cbn [ascii_loop]. unfold num8. pose proof (Hstr 0%nat c eq_refl) as H0. rewrite Z.add_0_r in H0. rewrite H0.
    unfold char_ok in Hc. rewrite (proj2 (Z.eqb_neq c 0)) by lia. rewrite (IH (p + 1)); [|split|lia].
    + unfold fromCharCode. by rewrite Z.mod_small by lia.
    + intros j c' Hj. rewrite <- (Hstr (S j) c' Hj). f_equal. lia.
    + rewrite <- Hnul. f_equal. unfold str_len. cbn. lia.
Qed.

(** The place of the table and of the buffer. *)
Record placed (m : mem) (environ n buf size : Z) : Prop := {
  pl_table : 0 <= environ /\ environ mod 4 = 0 /\ environ + 4 * n <= Z.of_nat (length m);
  pl_buf : 0 <= buf /\ buf + size <= Z.of_nat (length m);
  pl_apart : environ + 4 * n <= buf \/ buf + size <= environ;
  pl_small : Z.of_nat (length m) <= 2 ^ 31
}.

Lemma load32_ext m m' i : (forall j, 4 * i <= j < 4 * i + 4 -> load8 m j = load8 m' j) -> load32 m i = load32 m' i.
Proof. intros H. unfold load32, load16. rewrite (H (2 * (2 * i))), (H (2 * (2 * i) + 1)), (H (2 * (2 * i + 1))), (H (2 * (2 * i + 1) + 1)) by lia. done. Qed.

Lemma load8_inside m i b : load8 m i = Some b -> 0 <= i < Z.of_nat (length m).
Proof. unfold load8. destruct (i <? 0) eqn:E; [done|]. bool_prop. intros H. apply lookup_lt_Some in H. lia. Qed.

(** A word that is read from where one was stored, is that one. *)
Lemma load32_stored m i v u : load32 (store32 m i v) i = Some u -> u = to_int32 v.
Proof.
  intros H. assert (Hin : 0 <= 4 * i /\ 4 * i + 3 < Z.of_nat (length m)).
  { unfold load32, load16 in H. rewrite <- (store32_length m i v).
    destruct (load8 _ (2 * (2 * i))) eqn:E0; [|done]. destruct (load8 _ (2 * (2 * i) + 1)); [|done].
    destruct (load8 _ (2 * (2 * i + 1))); [|done]. destruct (load8 _ (2 * (2 * i + 1) + 1)) eqn:E3; [|done].
    apply load8_inside in E0, E3. lia. }
  rewrite load32_store_same in H by lia. congruence.
Qed.

Lemma string_at_ext m m' p s : (forall j, p <= j <= p + str_len s -> load8 m j = load8 m' j) -> string_at m' p s -> string_at m p s.
Proof.
  intros H [H1 H2]. unfold string_at, str_len in *. split; [|rewrite H by lia; exact H2].
  intros j c Hj. rewrite H; [by apply H1|]. apply lookup_lt_Some in Hj. lia.
Qed.

Lemma buffer_size_cons s strings : buffer_size (s :: strings) = str_len s + 1 + buffer_size strings.
Proof. done. Qed.

Lemma buffer_size_pos strings : 0 <= buffer_size strings.
Proof. unfold buffer_size, str_len. induction strings as [|s l IH]; cbn; lia. Qed.

Lemma environ_loop_spec strings environ i ptr m :
  Forall (Forall char_ok) strings -> 0 <= i -> placed m environ (i + Z.of_nat (length strings)) ptr (buffer_size strings) ->
  exists m', environ_loop strings environ i ptr m = Ok m' /\ length m' = length m
    /\ (forall j s, strings !! j = Some s -> exists p, load32 m' (environ / 4 + i + Z.of_nat j) = Some p /\ string_at m' p s)
    /\ (forall a, (a < environ + 4 * i \/ environ + 4 * (i + Z.of_nat (length strings)) <= a) /\ (a < ptr \/ ptr + buffer_size strings <= a) ->
                  load8 m' a = load8 m a).
Proof.
  intros Hs. revert i ptr m. induction Hs as [|s strings Hc Hs IH]; intros i ptr m Hi Hpl; cbn [environ_loop].
  - exists m. split; [done|]. split; [done|]. split; [by intros j s Hj|done].
  - destruct Hpl as [(Ht1 & Ht2 & Ht3) (Hb1 & Hb2) Hap H31]. rewrite buffer_size_cons in *. cbn [length] in *.
    pose proof (buffer_size_pos strings) as Hpos. pose proof (Zle_0_nat (length s)) as Hsl. unfold str_len in *.
    set (slot := environ / 4 + i). assert (Hslot : js_sar (environ + i * 4) 2 = slot).
    { rewrite js_sar_small by lia. change (2 ^ 2) with 4. unfold slot. Z.to_euclidean_division_equations. lia. }
    assert (H4 : 4 * slot = environ + 4 * i) by (unfold slot; Z.to_euclidean_division_equations; lia). rewrite Hslot.
    destruct (writeAscii_spec s (store32 m slot ptr) ptr) as (m1 & -> & Hl1 & Hst & Hout1); unfold str_len; rewrite ?store32_length; try done; try lia.
    rewrite store32_length in Hl1. cbn [rbind]. unfold str_len in Hout1.
    destruct (IH (i + 1) (ptr + (Z.of_nat (length s) + 1)) m1) as (m' & -> & Hl & Hread & Hout); [lia|constructor; rewrite ?Hl1; lia|].
    exists m'. split; [done|]. split; [congruence|]. split.
    + intros [|j] s' Hj; cbn in Hj.
      * injection Hj as <-. exists ptr. split.
        -- rewrite Z.add_0_r. fold slot. rewrite (load32_ext m' m1) by (intros; apply Hout; lia).
           rewrite (load32_ext m1 (store32 m slot ptr)) by (intros; apply Hout1; lia).
           rewrite load32_store_same by lia. by rewrite to_int32_small by lia.
        -- apply (string_at_ext m' m1); [|exact Hst]. unfold str_len. intros a Ha. apply Hout. lia.
      * destruct (Hread j s' Hj) as (p & E & Hp). exists p. split; [|exact Hp]. rewrite <- E. f_equal. lia.
    + intros a [Ha1 Ha2]. rewrite Hout by lia. rewrite Hout1 by lia. apply load8_store32_other. lia.
Qed.

(** The module gets the environment it asked for.  When it sets up a table and a
    buffer of the sizes that [_environ_sizes_get] reports, apart from each other,
    [_environ_get] fills the table with pointers at which the strings are found, in
    order, and changes no byte outside the two. *)
Theorem environ_roundtrip (strings : list jsstr) (m0 m : mem) (penviron_count penviron_buf_size environ environ_buf n size : Z) :
  let asked := _environ_sizes_get strings m0 penviron_count penviron_buf_size in
  js_sar penviron_count 2 <> js_sar penviron_buf_size 2 ->
  load32 asked (js_sar penviron_count 2) = Some n -> load32 asked (js_sar penviron_buf_size 2) = Some size ->
  Z.of_nat (length strings) < 2 ^ 31 -> buffer_size strings < 2 ^ 31 ->
  Forall (Forall char_ok) strings -> placed m environ n environ_buf size ->
  exists m', _environ_get strings environ environ_buf m = Ok m'
    /\ (forall i s, strings !! i = Some s -> exists p, load32 m' (environ / 4 + Z.of_nat i) = Some p /\ AsciiToString m' p = s)
    /\ (forall a, (a < environ \/ environ + 4 * n <= a) /\ (a < environ_buf \/ environ_buf + size <= a) -> load8 m' a = load8 m a).
Proof.
  intros asked Hne Hn Hsz Hcount Hbytes Hc Hpl.
  assert (En : n = Z.of_nat (length strings)).
  { subst asked. unfold _environ_sizes_get in Hn. rewrite load32_store_other in Hn by done. apply load32_stored in Hn. rewrite Hn. apply to_int32_small. lia. }
  assert (Es : size = buffer_size strings).
  { subst asked. unfold _environ_sizes_get in Hsz. apply load32_stored in Hsz. rewrite Hsz. apply to_int32_small. pose proof (buffer_size_pos strings). lia. }
  subst n size. destruct (environ_loop_spec strings environ 0 environ_buf m Hc ltac:(lia) Hpl) as (m' & E & Hl & Hread & Hout).
  exists m'. split; [exact E|]. split.
  - intros i s Hi. destruct (Hread i s Hi) as (p & Ep & Hstr). exists p. rewrite Z.add_0_r in Ep. split; [exact Ep|].
    apply ascii_loop_spec; [done|by eapply Forall_lookup in Hi|]. destruct Hstr as [Hall Hnul]. unfold load8 in Hnul.
    destruct (p + str_len s <? 0) eqn:Eneg; [done|]. bool_prop. apply lookup_lt_Some in Hnul.
    destruct (decide (0 <= p)) as [Hp|Hp]; [unfold str_len in *; lia|]. exfalso. destruct s as [|c s]; [unfold str_len in *; cbn in *; lia|].
    specialize (Hall 0%nat c eq_refl). unfold load8 in Hall. rewrite (proj2 (Z.ltb_lt _ 0)) in Hall by lia. done.
  - intros a Ha. apply Hout. lia.
Qed.

(** The default environment of a German browser. *)
Definition sample_strings : list jsstr := fst (getEnvStrings [(js "DEBUG", Some (js "1")); (js "PWD", None)] (Some (js "de-AT")) None None).

Theorem environ_witness :
  exists m', _environ_get sample_strings 16 64 (repeat 255 256) = Ok m'
    /\ (forall i s, sample_strings !! i = Some s -> exists p, load32 m' (16 / 4 + Z.of_nat i) = Some p /\ AsciiToString m' p = s)
    /\ (forall a, (a < 16 \/ 16 + 4 * 7 <= a) /\ (a < 64 \/ 64 + 100 <= a) -> load8 m' a = load8 (repeat 255 256) a).
Proof.
  apply (environ_roundtrip sample_strings (repeat 0 64) (repeat 255 256) 0 4 16 64 7 100);
    [vm_compute; discriminate|vm_compute; reflexivity|vm_compute; reflexivity|vm_compute; reflexivity|vm_compute; reflexivity| |].
  - apply (bool_decide_unpack _). vm_compute. exact I.
  - split; [split; [|split]| split| |]; vm_compute; try discriminate; try reflexivity. left. discriminate.
Defined.
