(* ===== verification/OpusFsApi.v ===== *)
(** * Further operations of the Opus module's file system
      ([integrations/lan-remote-access/rustdesk-web-open/libopus.js], [FS] and [MEMFS])

    Listing directories, mounts and unmounting, operations on descriptors, mapping
    of files, and the helpers that build files and directories. *)

From stdpp Require Import base list numbers strings gmap.
From Stdlib Require Import ZArith Lia.
From S2P Require Import Prelude JsString OpusText OpusMemfs OpusPath OpusTty OpusNode OpusFs OpusDevices.
Local Open Scope Z_scope.

(** [isSocket] tests two bits where the other tests compare the whole kind. *)
Definition isSocket (mode : Z) : bool := js_and mode 49152 =? 49152.

Definition flagModes : list (jsstr * Z) :=
  [(js "r", 0); (js "r+", 2); (js "w", 577); (js "w+", 578); (js "a", 1089); (js "a+", 1090)].

(** The names of the prototype, such as [constructor], are not considered. *)
Definition modeStringToFlags (str : jsstr) : result Z :=
  match list_find (fun '(x, _) => str_eqb x str = true) flagModes with
  | Some (_, (_, flags)) => Ok flags
  | None => Throw (ErrorMsg (js "Unknown file open mode: " ++ str))
  end.

(** ** Listing *)

(** An array index in canonical form: such property names come first, in ascending order. *)
Definition index_of (s : jsstr) : option Z :=
  if forallb is_digit s && negb (str_eqb s []) then
    let n := fold_left (fun n c => 10 * n + (c - 48)) s 0 in
    if str_eqb (string_of_Z n) s && (n <? 2 ^ 32 - 1) then Some n else None
  else None.

Fixpoint insert_index (n : Z) (s : jsstr) (l : list (Z * jsstr)) : list (Z * jsstr) :=
  match l with
  | [] => [(n, s)]
  | (m, t) :: l' => if n <=? m then (n, s) :: (m, t) :: l' else (m, t) :: insert_index n s l'
  end.

(** The order of [for (var key in o)]. *)
Definition own_keys (l : list (jsstr * nat)) : list jsstr :=
  map snd (foldr (fun '(x, _) acc => match index_of x with Some n => insert_index n x acc | None => acc end) [] l)
  ++ map fst (List.filter (fun '(x, _) => match index_of x with Some _ => false | None => true end) l).

Section Api.
Variable stack : nat.

Definition memfs_readdir (n : node) : list jsstr := js "." :: js ".." :: own_keys (entries n).

(** [MEMFS.node_ops.readdir] is only found on directories. *)
Definition readdir (path : jsstr) : M (list jsstr) :=
  let! r := look stack path follow in
  let! i := some_or_throw (snd r) type_error in
  let! n := getNode i in
  if negb (bool_decide (node_ops n = DirOps)) then errno 54
  else ret (memfs_readdir n).

(** ** Mounts *)

(** The loop takes the last of the mounts to check and adds its children; the fuel bounds the turns. *)
Fixpoint mounts_loop (fuel : nat) (check : list nat) (found : list nat) (m : gmap nat mount) : option (list nat) :=
  match rev check with
  | [] => Some found
  | k :: rest =>
      match fuel with
      | O => None
      | S f => mounts_loop f (rev rest ++ match m !! k with Some mt => children mt | None => [] end) (found ++ [k]) m
      end
  end.

(** A loop that does not end shows as an exhausted stack. *)
Definition getMounts (k : nat) : M (list nat) :=
  let! m := gets mounts in some_or_throw (mounts_loop (size m) [k] [] m) stack_overflow.

(** [indexOf] and [splice]. *)
Fixpoint splice_out (k : nat) (l : list nat) : list nat :=
  match l with [] => [] | j :: l' => if (j =? k)%nat then l' else j :: splice_out k l' end.

Definition isMountpoint (n : node) : bool := bool_decide (is_Some (mounted n)).
Definition isRoot (i : nat) (n : node) : bool := (parent n =? i)%nat.
Definition destroyNode (i : nat) : M unit := hashRemoveNode i.

(** One chain of the name table: the next node is read before the current one is destroyed. *)
Fixpoint unmount_chain (fuel : nat) (current : option nat) (ms : list nat) : M unit :=
  match fuel, current with
  | S f, Some i =>
      let! n := getNode i in
      (match mount_of n with
       | Some k => if bool_decide (k ∈ ms) then destroyNode i else ret tt
       | None => ret tt
       end) ;;;
      unmount_chain f (name_next n) ms
  | _, _ => ret tt
  end.

Fixpoint unmount_table (hashes : list Z) (ms : list nat) : M unit :=
  match hashes with
  | [] => ret tt
  | h :: hashes' =>
      let! first := gets (fun s => nameTable s !! h) in
      let! bound := gets (fun s => size (nodes s)) in
      unmount_chain bound first ms ;;;
      unmount_table hashes' ms
  end.

(** The hashes of the table at the start, in ascending order. *)
Definition table_keys (s : fs) : list Z := List.filter (fun h => bool_decide (is_Some (nameTable s !! h))) (seqZ 0 table_size).

Definition unmount (mp : jsstr) : M unit :=
  let! l := look stack mp {| o_parent := false; o_follow := false; o_follow_mount := false; o_recurse := 0 |} in
  let! i := some_or_throw (snd l) type_error in
  let! n := getNode i in
  match mounted n with
  | None => errno 28
  | Some k =>
      let! ms := getMounts k in
      let! keys := gets table_keys in
      unmount_table keys ms ;;;
      update_node i (fun n => with_mounts n (mount_of n) None) ;;;
      match mount_of n with
      | None => raise type_error
      | Some p =>
          let! pm := gets (fun s => mounts s !! p) in
          match pm with
          | None => raise type_error
          | Some pm =>
              if negb (bool_decide (k ∈ children pm)) then raise aborted
              else modify (fun s =>
                {| root := root s; nodes := nodes s; nextInode := nextInode s; nameTable := nameTable s;
                   mounts := <[p := {| mountpoint := mountpoint pm; mroot := mroot pm; children := splice_out k (children pm) |}]> (mounts s);
                   currentPath := currentPath s; ignorePermissions := ignorePermissions s; streams := streams s; stream_store := stream_store s;
                   devices := devices s; term := term s |})
          end
      end
  end.

(** ** Descriptors *)

Definition fd_stream (fd : Z) : M stream :=
  let! sid := gets (fun s => streams s !! fd) in
  match sid with Some sid => getStream sid | None => errno 8 end.

Definition lchmod (path : jsstr) (m : Z) : M unit := chmod stack (inl path) m true.
Definition fchmod (fd m : Z) : M unit := let! st := fd_stream fd in chmod stack (inr (snode st)) m false.

(** [chown] only sets the time stamp. *)
Definition chown (t : target) (dontFollow : bool) : M unit :=
  let! i := node_of stack t dontFollow in
  let! n := getNode i in
  if negb (has_attr (node_ops n)) then errno 63 else ret tt.
Definition lchown (path : jsstr) : M unit := chown (inl path) true.
Definition fchown (fd : Z) : M unit := let! st := fd_stream fd in chown (inr (snode st)) false.

Definition ftruncate (fd len : Z) : M unit :=
  let! st := fd_stream fd in
  if accmode (sflags st) =? 0 then errno 28 else truncate stack (inr (snode st)) len.

(** [utime] sets the time stamp; a node without [setattr] throws. *)
Definition utime (path : jsstr) : M unit :=
  let! r := look stack path follow in
  let! i := some_or_throw (snd r) type_error in
  let! n := getNode i in
  if has_attr (node_ops n) then ret tt else raise type_error.

Definition allocate (sid : nat) (offset length : Z) : M unit :=
  let! st := getStream sid in
  if bool_decide (fd st = None) then errno 8
  else if (offset <? 0) || (length <=? 0) then errno 28
  else if accmode (sflags st) =? 0 then errno 8
  else
    let! n := getNode (snode st) in
    if negb (isFile (mode n)) && negb (isDir (mode n)) then errno 43
    else if negb (bool_decide (sops st = FileOps)) then errno 138
    else
      let! f := lift (memfs_allocate (file n) offset length) in
      update_node (snode st) (fun n => with_file n f).

(** [MEMFS.stream_ops.mmap]: [mmapAlloc] aborts, and contents are never backed by the memory of the module; those of a
    file that was never written are [null]. *)
Definition memfs_mmap (n : node) (address : Z) : result unit :=
  if negb (address =? 0) then Throw (ErrnoError 28)
  else if negb (isFile (mode n)) then Throw (ErrnoError 43)
  else match contents (file n) with
       | None => Throw type_error
       | Some _ => Throw aborted
       end.

Definition mmap (sid : nat) (address prot flags : Z) : M unit :=
  let! st := getStream sid in
  if flag prot 2 && negb (flag flags 2) && negb (accmode (sflags st) =? 2) then errno 2
  else if accmode (sflags st) =? 1 then errno 2
  else if negb (bool_decide (sops st = FileOps)) then errno 43
  else
    let! n := getNode (snode st) in
    lift (memfs_mmap n address).

(** [MEMFS.stream_ops.msync] *)
Definition memfs_msync (st : stream) (buffer : list Z) (offset length mmapFlags : Z) : M Z :=
  let! n := getNode (snode st) in
  if negb (isFile (mode n)) then errno 43
  else if flag mmapFlags 2 then ret 0
  else
    let! r := lift (memfs_write (file n) true buffer 0 length offset false) in
    update_node (snode st) (fun n => with_file n (fst r)) ;;;
    ret 0.

Definition msync (sid : nat) (buffer : list Z) (offset length mmapFlags : Z) : M Z :=
  let! st := getStream sid in
  if negb (bool_decide (sops st = FileOps)) then ret 0 else memfs_msync st buffer offset length mmapFlags.

(** ** Functions of earlier versions *)

(** Calling one of these ends the program with a hint at what took its place. *)
Definition removed_functions : list (jsstr * jsstr) := map (fun '(x, t) => (js x, js t)) [
  ("absolutePath", "FS.absolutePath has been removed; use PATH_FS.resolve instead");
  ("createFolder", "FS.createFolder has been removed; use FS.mkdir instead");
  ("createLink", "FS.createLink has been removed; use FS.symlink instead");
  ("joinPath", "FS.joinPath has been removed; use PATH.join instead");
  ("mmapAlloc", "FS.mmapAlloc has been replaced by the top level function mmapAlloc");
  ("standardizePath", "FS.standardizePath has been removed; use PATH.normalize instead")]%string.
Definition call_removed (x : jsstr) : option (jsstr * jserror) :=
  option_map (fun p => (snd p, aborted)) (List.find (fun p => str_eqb (fst p) x) removed_functions).

(** No stream has an [ioctl]. *)
Definition ioctl (sid : nat) : M Z := getStream sid ;;; errno 59.

(** The properties of [FSNode.prototype], on the mode of a node; [read] and [write] can also be set. *)
Definition readMode : Z := js_or 292 73.
Definition writeMode : Z := 146.
Definition has_mode (bits mode : Z) : bool := js_and mode bits =? bits.
Definition set_mode (bits : Z) (val : bool) (mode : Z) : Z := if val then js_or mode bits else js_and mode (Z.lnot bits).
Definition isFolder (mode : Z) : bool := isDir mode.
Definition isDevice (mode : Z) : bool := isChrdev mode.

(** ** Building files *)

Record analysis := {
  an_isRoot : bool; an_exists : bool; an_error : option Z; an_name : option jsstr; an_path : option jsstr; an_object : option nat;
  an_parentExists : bool; an_parentPath : option jsstr; an_parentObject : option nat
}.

Definition tried {A} (m : M A) : M (A + jserror) := catch (let! a := m in ret (inl a)) (fun e => ret (inr e)).

(** [e.errno], [undefined] for other errors. *)
Definition error_number (e : jserror) : option Z := match e with ErrnoError n | ErrnoErrorAt n _ => Some n | _ => None end.

(** A root path without a node throws at [lookup.node.name]. *)
Definition analyzePath (path : jsstr) (dontResolveLastLink : bool) : M analysis :=
  let o := {| o_parent := false; o_follow := negb dontResolveLastLink; o_follow_mount := true; o_recurse := 0 |} in
  let! first := tried (look stack path o) in
  let path := match first with inl l => fst l | inr _ => path end in
  let! pl := tried (look stack path parent_only) in
  match pl with
  | inr e => ret {| an_isRoot := false; an_exists := false; an_error := error_number e; an_name := None; an_path := None; an_object := None;
                    an_parentExists := false; an_parentPath := None; an_parentObject := None |}
  | inl pl =>
      let! l := tried (look stack path o) in
      match l with
      | inr e => ret {| an_isRoot := false; an_exists := false; an_error := error_number e; an_name := Some (basename path); an_path := None;
                        an_object := None; an_parentExists := true; an_parentPath := Some (fst pl); an_parentObject := snd pl |}
      | inl (p, Some i) =>
          let! n := getNode i in
          ret {| an_isRoot := str_eqb p [slash]; an_exists := true; an_error := Some 0; an_name := Some (name n); an_path := Some p;
                 an_object := Some i; an_parentExists := true; an_parentPath := Some (fst pl); an_parentObject := snd pl |}
      | inl (p, None) =>
          ret {| an_isRoot := false; an_exists := true; an_error := None; an_name := Some (basename path); an_path := Some p; an_object := None;
                 an_parentExists := true; an_parentPath := Some (fst pl); an_parentObject := snd pl |}
      end
  end.

Definition findObject (path : jsstr) (dontResolveLastLink : bool) : M (option nat) :=
  let! a := analyzePath path dontResolveLastLink in ret (if an_exists a then an_object a else None).

(** [createPath] swallows every error of [mkdir]; without a part it returns [undefined]. *)
Fixpoint create_parts (parent : jsstr) (parts : list jsstr) (current : option jsstr) : M (option jsstr) :=
  match parts with
  | [] => ret current
  | [] :: parts' => create_parts parent parts' current
  | part :: parts' =>
      let current := join2 parent part in
      catch (mkdir stack current None ;;; ret tt) (fun _ => ret tt) ;;;
      create_parts current parts' (Some current)
  end.

Definition createPath (parent : target) (path : jsstr) : M (option jsstr) :=
  let! p := parent_path parent in create_parts p (split_char slash path) None.

Definition createFile (parent : target) (name : jsstr) (canRead canWrite : bool) : M nat :=
  let! p := parent_path parent in create stack (join2 p name) (Some (getMode canRead canWrite)).

(** The data as a byte array ([inr]) or a string, whose units are the elements of an ordinary array ([inl]). *)
Definition createDataFile (parent : target) (name : jsstr) (data : option (jsstr + list Z)) (canRead canWrite canOwn : bool) : M nat :=
  let! path := (match name with
                | [] => match parent with inl p => ret p | inr _ => raise type_error end
                | _ => let! p := parent_path parent in ret (join2 p name)
                end) in
  let mode := getMode canRead canWrite in
  let! i := create stack path (Some mode) in
  match data with
  | None | Some (inl []) => ret i
  | Some d =>
      let '(k, bytes) := match d with inl s => (Plain, s) | inr b => (Unsigned, b) end in
      chmod stack (inr i) (js_or mode 146) false ;;;
      let! sid := open stack (inr i) 577 None 0 MAX_OPEN_FDS in
      write sid k bytes 0 (Z.of_nat (length bytes)) (Some 0) canOwn ;;;
      close sid ;;;
      chmod stack (inr i) mode false ;;;
      ret i
  end.

End Api.

(** ** Properties *)

Lemma lor_small a b : 0 <= a < 2 ^ 31 -> 0 <= b < 2 ^ 31 -> 0 <= Z.lor a b < 2 ^ 31.
Proof.
  intros Ha Hb. assert (Hn : 0 <= Z.lor a b) by (apply Z.lor_nonneg; lia). split; [done|].
  destruct (Z.eq_dec (Z.lor a b) 0) as [->|]; [lia|]. apply Z.log2_lt_pow2; [lia|]. rewrite Z.log2_lor by lia.
  destruct (Z.eq_dec a 0) as [->|], (Z.eq_dec b 0) as [->|]; rewrite ?Z.log2_nonpos by lia; try (apply Z.max_lub_lt); try lia;
    try (apply Z.log2_lt_pow2; lia); cbn; try lia.
Qed.

Lemma land_small a b : 0 <= a < 2 ^ 31 -> 0 <= Z.land a b < 2 ^ 31.
Proof.
  intros Ha. assert (Hn : 0 <= Z.land a b) by (apply Z.land_nonneg; lia). split; [done|].
  destruct (Z.eq_dec (Z.land a b) 0) as [->|]; [lia|]. assert (Hl : Z.land a b <= a); [|lia].
  apply Z.ldiff_le; [lia|]. apply Z.bits_inj'. intros i Hi. rewrite Z.ldiff_spec, Z.land_spec, Z.bits_0. by destruct (Z.testbit a i), (Z.testbit b i).
Qed.

(** [mode] after setting a property, as bits. *)
Lemma set_mode_bits bits val mode : 0 <= bits < 2 ^ 31 -> 0 <= mode < 2 ^ 31 ->
  set_mode bits val mode = (if val then Z.lor mode bits else Z.ldiff mode bits) /\ 0 <= set_mode bits val mode < 2 ^ 31.
Proof.
  intros Hb Hm. unfold set_mode, js_or, js_and. rewrite !(to_int32_small mode), (to_int32_small bits) by lia.
  assert (to_int32 (Z.lnot bits) = Z.lnot bits) as -> by (apply to_int32_small; unfold Z.lnot; lia).
  destruct val; [split; [done|by apply lor_small]|]. rewrite <- Z.ldiff_land. split; [done|]. rewrite Z.ldiff_land. by apply land_small.
Qed.

(** A property that was set is read back, and setting one property does not change the other. *)
Lemma mode_properties (mode : Z) (r w : bool) : 0 <= mode < 2 ^ 31 ->
  has_mode readMode (set_mode writeMode w (set_mode readMode r mode)) = r
  /\ has_mode writeMode (set_mode writeMode w (set_mode readMode r mode)) = w.
Proof.
  intros Hm. change readMode with 365. change writeMode with 146.
  destruct (set_mode_bits 365 r mode ltac:(lia) Hm) as [E1 H1]. destruct (set_mode_bits 146 w _ ltac:(lia) H1) as [E2 H2].
  unfold has_mode, js_and. rewrite !(to_int32_small (set_mode _ _ _)) by lia. change (to_int32 365) with 365. change (to_int32 146) with 146. rewrite E2, E1.
  assert (B : forall x b v, 0 <= b -> (forall i, 0 <= i -> Z.testbit b i = true -> Z.testbit x i = v) -> b <> 0 -> (Z.land x b =? b) = v).
  { intros x b v Hb Hx Hne. destruct v.
    - apply Z.eqb_eq. apply Z.bits_inj'. intros i Hi. rewrite Z.land_spec. destruct (Z.testbit b i) eqn:Eb; [by rewrite (Hx i Hi Eb)|by rewrite andb_false_r].
    - apply Z.eqb_neq. assert (Z.land x b = 0) as ->; [|lia]. apply Z.bits_inj'. intros i Hi. rewrite Z.land_spec, Z.bits_0.
      destruct (Z.testbit b i) eqn:Eb; [by rewrite (Hx i Hi Eb)|by rewrite andb_false_r]. }
  assert (D : forall i, Z.testbit 365 i = true -> Z.testbit 146 i = false).
  { intros i H. destruct (Z.testbit 146 i) eqn:E; [|done]. assert (Hl : Z.testbit (Z.land 365 146) i = true) by by rewrite Z.land_spec, H, E.
    change (Z.land 365 146) with 0 in Hl. by rewrite Z.bits_0 in Hl. }
  split; apply B; try lia; intros i Hi Hb.
  - assert (Hw : Z.testbit (if w then Z.lor (if r then Z.lor mode 365 else Z.ldiff mode 365) 146 else Z.ldiff (if r then Z.lor mode 365 else Z.ldiff mode 365) 146) i
      = Z.testbit (if r then Z.lor mode 365 else Z.ldiff mode 365) i).
    { destruct w; rewrite ?Z.lor_spec, ?Z.ldiff_spec, (D i Hb); [apply orb_false_r|apply andb_true_r]. }
    rewrite Hw. destruct r; rewrite ?Z.lor_spec, ?Z.ldiff_spec, Hb; [apply orb_true_r|apply andb_false_r].
  - destruct w; rewrite ?Z.lor_spec, ?Z.ldiff_spec, Hb; [apply orb_true_r|apply andb_false_r].
Qed.

(** No file can be mapped: every call of [FS.mmap] throws and changes nothing. *)
Lemma mmap_always_throws (sid : nat) (address prot flags : Z) (s : fs) :
  exists e, mmap sid address prot flags s = (Throw e, s).
Proof.
  unfold mmap, bind, getStream, getNode, lift, errno, raise. destruct (stream_store s !! sid) as [st|]; [|by eexists].
  destruct (_ && _); [by eexists|]. destruct (accmode _ =? 1); [by eexists|]. destruct (negb _); [by eexists|].
  destruct (nodes s !! snode st) as [n|]; [|destruct (fd_link s (snode st)) as [n|]; [|by eexists]];
    (unfold memfs_mmap; destruct (negb _); [by eexists|]; destruct (negb _); [by eexists|]; destruct (contents _); by eexists).
Qed.

(** For the same reason the mount of [/proc/self/fd] cannot be undone: the lookup without following mounts finds its root,
    on which nothing is mounted. *)
Lemma proc_fd_not_unmounted : fst (unmount 10 (js "/proc/self/fd") started_fs) = Throw (ErrnoError 28).
Proof. vm_compute. reflexivity. Qed.
