(* ===== verification/OpusTree.v ===== *)
(** * Consistency of the Opus module's file system
      ([integrations/lan-remote-access/rustdesk-web-open/libopus.js], [FS] and [MEMFS])

    A node is known in two places: the entries of its directory and the name table
    that lookups search.  The operations of [fs_op] below keep the two in agreement,
    so a lookup finds exactly the entries of a directory, with the exception of the
    name under which [/proc/self/fd] is mounted.  [rename] is not among them, because
    it breaks the agreement ([rename_resurrects]), and neither is [unmount], which
    destroys nodes. *)

From stdpp Require Import base list numbers strings gmap.
From Stdlib Require Import ZArith Lia.
From S2P Require Import Prelude JsString OpusText OpusMemfs OpusPath OpusTty OpusNode OpusFs OpusFiles OpusDevices OpusFsApi.
Local Open Scope Z_scope.

(** ** The invariant *)

(** The name of a mount like [/proc/self/fd], whose root was made inside the directory it is mounted in: two nodes
    have this place, and the table knows the root first. *)
Definition doubled (ns : gmap nat node) (d : nat) (x : jsstr) : Prop :=
  map_Exists (fun _ m => node_ops m = FdDirOps /\ parent m = d /\ name m = x) ns.

(** The nodes, the next number and the nodes in the name table. *)
Record tree (ns : gmap nat node) (next : nat) (live : nat -> Prop) : Prop := {
  tr_fresh : forall i, is_Some (ns !! i) -> (i < next)%nat;
  tr_entry : forall d n x i, ns !! d = Some n -> (x, i) ∈ entries n ->
               exists m, ns !! i = Some m /\ parent m = d /\ name m = x /\ (doubled ns d x \/ live i) /\ i <> d;
  tr_live : forall i m, live i -> ns !! i = Some m -> parent m <> i ->
              doubled ns (parent m) (name m) \/ exists n, ns !! parent m = Some n /\ (name m, i) ∈ entries n;
  tr_root : forall i m, ns !! i = Some m -> parent m = i -> name m = [slash] /\ isDir (mode m) = true;
  tr_keys : forall d n, ns !! d = Some n -> NoDup (map fst (entries n))
}.

Definition in_table (c : Z -> list nat) (i : nat) : Prop := exists h, i ∈ c h.

Definition tree_ok (s : fs) : Prop := exists c, table_rep s c /\ tree (nodes s) (nextInode s) (in_table c).

(** What the invariant reads of a node. *)
Definition is_fd_root (n : node) : bool := bool_decide (node_ops n = FdDirOps).
Definition shape (n : node) : nat * jsstr * list (jsstr * nat) * bool * bool :=
  (parent n, name n, entries n, isDir (mode n), is_fd_root n).

Lemma shape_eq n m :
  shape n = shape m ->
  parent n = parent m /\ name n = name m /\ entries n = entries m /\ isDir (mode n) = isDir (mode m) /\ is_fd_root n = is_fd_root m.
Proof. unfold shape. intros H. by simplify_eq. Qed.

Lemma doubled_iff ns d x : doubled ns d x <-> exists i m, ns !! i = Some m /\ is_fd_root m = true /\ parent m = d /\ name m = x.
Proof.
  unfold doubled, map_Exists, is_fd_root. split; intros (i & m & Hm & Ho & H); exists i, m; (split; [done|]); (split; [|done]).
  - by apply bool_decide_eq_true_2. - by apply bool_decide_eq_true_1 in Ho.
Qed.

(** Nodes that keep their shape keep the doubled names. *)
Lemma doubled_mono (ns ns' : gmap nat node) d x :
  (forall j n, ns !! j = Some n -> exists m, ns' !! j = Some m /\ parent m = parent n /\ name m = name n /\ is_fd_root m = is_fd_root n) ->
  doubled ns d x -> doubled ns' d x.
Proof.
  intros Hf. rewrite !doubled_iff. intros (i & n & Hn & Ho & Hp & Hx). destruct (Hf i n Hn) as (m & Hm & Ep & Ex & Eo).
  exists i, m. repeat split; congruence.
Qed.

Lemma tree_shape ns ns' next live live' :
  (forall j, shape <$> ns' !! j = shape <$> ns !! j) -> (forall j, live j <-> live' j) -> tree ns next live -> tree ns' next live'.
Proof.
  intros Hs Hl [H1 H2 H3 H4 H5].
  assert (Hto : forall j m, ns' !! j = Some m -> exists n, ns !! j = Some n /\ shape n = shape m).
  { intros j m Hm. specialize (Hs j). rewrite Hm in Hs. destruct (ns !! j); [|done]. cbn in Hs. eexists. split; [done|congruence]. }
  assert (Hfrom : forall j n, ns !! j = Some n -> exists m, ns' !! j = Some m /\ shape m = shape n).
  { intros j n Hn. specialize (Hs j). rewrite Hn in Hs. destruct (ns' !! j); [|done]. cbn in Hs. eexists. split; [done|congruence]. }
  assert (Hd : forall d x, doubled ns d x -> doubled ns' d x).
  { intros d x. apply doubled_mono. intros j n Hn. destruct (Hfrom j n Hn) as (m & Hm & Es). apply shape_eq in Es as (? & ? & _ & _ & ?). by exists m. }
  split.
  - intros i [m Hm]. destruct (Hto i m Hm) as (n & Hn & _). apply H1. by eexists.
  - intros d n x i Hn Hx. destruct (Hto d n Hn) as (n0 & Hn0 & Es). apply shape_eq in Es as (_ & _ & Ee & _). rewrite <- Ee in Hx.
    destruct (H2 d n0 x i Hn0 Hx) as (m & Hm & Hp & Hnm & Hlive & Hne). destruct (Hfrom i m Hm) as (m' & Hm' & Es'). apply shape_eq in Es' as (? & ? & _).
    exists m'. repeat split; try congruence. destruct Hlive as [Hlive|Hlive]; [left; by apply Hd|right; by apply Hl].
  - intros i m Hi Hm Hp. destruct (Hto i m Hm) as (m0 & Hm0 & Es). apply shape_eq in Es as (Ep & En & _). apply Hl in Hi. rewrite <- Ep, <- En.
    destruct (H3 i m0 Hi Hm0) as [Hdb|(n & Hn & Hx)]; [congruence|left; by apply Hd|right]. destruct (Hfrom _ n Hn) as (n' & Hn' & Es'). apply shape_eq in Es' as (_ & _ & Ee & _).
    exists n'. split; [done|]. by rewrite Ee.
  - intros i m Hm Hp. destruct (Hto i m Hm) as (m0 & Hm0 & Es). apply shape_eq in Es as (Ep & En & _ & Ed & _).
    destruct (H4 i m0 Hm0) as [? ?]; [congruence|]. split; congruence.
  - intros d n Hn. destruct (Hto d n Hn) as (n0 & Hn0 & Es). apply shape_eq in Es as (_ & _ & Ee & _). rewrite <- Ee. by apply (H5 d).
Qed.

(** *** A new node *)

Lemma entry_key (l : list (jsstr * nat)) (x : jsstr) (i : nat) : (x, i) ∈ l -> x ∈ map fst l.
Proof. intros H. change x with (fst (x, i)). apply list_elem_of_In, in_map, list_elem_of_In. exact H. Qed.

Lemma key_entry (l : list (jsstr * nat)) x : x ∈ map fst l -> exists i, (x, i) ∈ l.
Proof. intros H. apply list_elem_of_In, in_map_iff in H as ([y i] & <- & H). exists i. by apply list_elem_of_In. Qed.

Lemma entry_unique (l : list (jsstr * nat)) x i j : NoDup (map fst l) -> (x, i) ∈ l -> (x, j) ∈ l -> i = j.
Proof.
  induction l as [|[y k] l IH]; intros Hn Hi Hj; [by apply not_elem_of_nil in Hi|]. cbn in Hn. apply NoDup_cons in Hn as [Hy Hn].
  apply elem_of_cons in Hi, Hj. destruct Hi as [Hi|Hi], Hj as [Hj|Hj]; simplify_eq; try done; [by apply entry_key in Hj|by apply entry_key in Hi|by apply IH].
Qed.

Definition adds_entry (p : nat) (x : jsstr) (i : nat) (ns : gmap nat node) : gmap nat node :=
  alter (fun n => with_entries n (set_entry (entries n) x i)) p ns.

Lemma set_entry_in l x i y j : NoDup (map fst l) -> (y, j) ∈ set_entry l x i <-> (y = x /\ j = i) \/ ((y, j) ∈ l /\ y <> x).
Proof.
  induction l as [|[z k] l IH]; cbn [set_entry map fst]; intros Hn.
  - rewrite list_elem_of_singleton. split; [intros E; left; by simplify_eq|]. intros [[-> ->]|[H _]]; [done|by apply not_elem_of_nil in H].
  - apply NoDup_cons in Hn as [Hz Hn]. destruct (str_eqb z x) eqn:E; rewrite !elem_of_cons.
    + apply str_eqb_eq in E. subst z. split.
      * intros [H|H]; [left; by simplify_eq|]. right. split; [by right|]. intros ->. apply Hz. by apply entry_key in H.
      * intros [[-> ->]|[[H|H] Hne]]; [by left|simplify_eq|by right].
    + apply str_eqb_neq in E. rewrite (IH Hn). split.
      * intros [H|[H|[H Hne]]]; [right; simplify_eq; split; [by left|done]|by left|right; split; [by right|done]].
      * intros [H|[[H|H] Hne]]; [right; by left|by left|right; by right].
Qed.

Lemma set_entry_keys l x i : NoDup (map fst l) -> NoDup (map fst (set_entry l x i)).
Proof.
  induction l as [|[z k] l IH]; cbn [set_entry map fst]; intros Hn; [repeat constructor; apply not_elem_of_nil|].
  pose proof Hn as Hn'. apply NoDup_cons in Hn as [Hz Hn]. destruct (str_eqb z x) eqn:E; cbn [map fst].
  - apply str_eqb_eq in E. by subst z.
  - constructor; [|by apply IH]. intros Hin. apply key_entry in Hin as [j Hj]. apply set_entry_in in Hj as [[-> _]|[Hj _]]; [|by apply entry_key in Hj|done].
    by rewrite str_eqb_refl in E.
Qed.

Lemma doubled_insert ns i n d x : ns !! i = None -> doubled ns d x -> doubled (<[i := n]> ns) d x.
Proof. intros Hi. apply doubled_mono. intros j m Hm. exists m. split; [|done]. rewrite lookup_insert_ne; [done|congruence]. Qed.

Lemma tree_add ns next live p pn n :
  tree ns next live -> ns !! p = Some pn -> name n ∉ map fst (entries pn) \/ doubled ns p (name n) -> parent n = p -> entries n = [] ->
  tree (adds_entry p (name n) next (<[next := n]> ns)) (S next) (fun j => live j \/ j = next).
Proof.
  intros [H1 H2 H3 H4 H5] Hp Hx Hpar He. assert (Hlt : (p < next)%nat) by (apply H1; by eexists).
  assert (Hnone : ns !! next = None). { destruct (ns !! next) eqn:E; [|done]. specialize (H1 next ltac:(by eexists)). lia. }
  set (pn' := with_entries pn (set_entry (entries pn) (name n) next)).
  assert (Hns : forall j, adds_entry p (name n) next (<[next := n]> ns) !! j = if decide (j = p) then Some pn' else if decide (j = next) then Some n else ns !! j).
  { intros j. unfold adds_entry. destruct (decide (j = p)) as [->|Hj].
    - by rewrite lookup_alter_eq, lookup_insert_ne, Hp by lia.
    - rewrite lookup_alter_ne by done. destruct (decide (j = next)) as [->|]; [apply lookup_insert_eq|by apply lookup_insert_ne]. }
  set (ns' := adds_entry p (name n) next (<[next := n]> ns)) in *.
  assert (Hdb : forall d x, doubled ns d x -> doubled ns' d x).
  { intros d x. apply doubled_mono. intros j m Hm. rewrite Hns. destruct (decide (j = p)) as [->|]; [assert (m = pn) by congruence; subst m; by exists pn'|].
    destruct (decide (j = next)) as [->|]; [congruence|by exists m]. }
  split; intros *; rewrite ?Hns.
  - intros [m Hm]. destruct (decide (i = p)); [lia|]. destruct (decide (i = next)); [lia|]. specialize (H1 i ltac:(by eexists)). lia.
  - assert (Hold : forall m0, (exists m, ns !! i = Some m /\ parent m = d /\ name m = x /\ (doubled ns d x \/ live i) /\ i <> d) -> ns !! d = Some m0 ->
        exists m, (if decide (i = p) then Some pn' else if decide (i = next) then Some n else ns !! i) = Some m /\ parent m = d /\ name m = x
          /\ (doubled ns' d x \/ live i \/ i = next) /\ i <> d).
    { intros m0 (m & Hm & Hmp & Hmx & Hml & Hmd) _. assert (Hml' : doubled ns' d x \/ live i \/ i = next) by (destruct Hml; auto).
      destruct (decide (i = p)) as [->|]; [assert (Em : m = pn) by congruence; subst m; by exists pn'|]. destruct (decide (i = next)) as [->|]; [congruence|]. by exists m. }
    destruct (decide (d = p)) as [->|]; [|destruct (decide (d = next)) as [->|]]; intros Hd Hin.
    + injection Hd as <-. cbn in Hin. apply set_entry_in in Hin as [[-> ->]|[Hin _]]; [|apply (Hold pn); [by apply (H2 p pn)|done]|by apply (H5 p)].
      exists n. rewrite decide_False, decide_True by lia. repeat split; try done; [by right; right|lia].
    + injection Hd as <-. rewrite He in Hin. by apply not_elem_of_nil in Hin.
    + apply (Hold n0); [by apply (H2 d n0)|done].
  - intros Hl Hm Hne.
    destruct (decide (i = next)) as [->|Hin].
    { rewrite decide_False in Hm by lia. injection Hm as <-. right. rewrite Hpar, decide_True by done. exists pn'. split; [done|]. cbn. apply set_entry_in; [by apply (H5 p)|by left]. }
    destruct Hl as [Hl|Hl]; [|done].
    assert (Hm0 : exists m0, ns !! i = Some m0 /\ parent m0 = parent m /\ name m0 = name m).
    { destruct (decide (i = p)) as [->|]; [injection Hm as <-; by exists pn|by exists m]. }
    destruct Hm0 as (m0 & Hm0 & Ep & Ex). destruct (H3 i m0 Hl Hm0 ltac:(congruence)) as [Hd|(q & Hq & Hin')]; rewrite Ep, Ex in *; [left; by apply Hdb|].
    destruct (decide (parent m = p)) as [E|].
    + rewrite E in *. replace q with pn in Hin' by congruence. destruct (decide (name m = name n)) as [En|En].
      * left. destruct Hx as [Hx|Hx]; [|rewrite En; by apply Hdb]. exfalso. apply Hx. rewrite <- En. by apply entry_key in Hin'.
      * right. exists pn'. split; [done|]. cbn. apply set_entry_in; [by apply (H5 p)|by right].
    + right. destruct (decide (parent m = next)); [congruence|]. by exists q.
  - destruct (decide (i = p)) as [->|]; [|destruct (decide (i = next)) as [->|]]; intros Hm Hself.
    + injection Hm as <-. cbn in *. by apply (H4 p pn).
    + injection Hm as <-. lia.
    + by apply (H4 i).
  - destruct (decide (d = p)) as [->|]; [|destruct (decide (d = next)) as [->|]]; intros Hd.
    + injection Hd as <-. cbn. apply set_entry_keys. by apply (H5 p).
    + injection Hd as <-. rewrite He. constructor.
    + by apply (H5 d).
Qed.

(** A node that no directory knows: a root, or the root of a mount like [/proc/self/fd]. *)
Lemma tree_add_alone ns next live n :
  tree ns next live -> entries n = [] ->
  (parent n = next /\ name n = [slash] /\ isDir (mode n) = true) \/ (parent n <> next /\ node_ops n = FdDirOps) ->
  tree (<[next := n]> ns) (S next) (fun j => live j \/ j = next).
Proof.
  intros [H1 H2 H3 H4 H5] He Hk.
  assert (Hnone : ns !! next = None). { destruct (ns !! next) eqn:E; [|done]. specialize (H1 next ltac:(by eexists)). lia. }
  assert (Hold : forall j m, ns !! j = Some m -> <[next := n]> ns !! j = Some m) by (intros j m Hm; rewrite lookup_insert_ne; [done|congruence]).
  assert (Hdb : forall d x, doubled ns d x -> doubled (<[next := n]> ns) d x) by (intros; by apply doubled_insert).
  split.
  - intros i [m Hm]. destruct (decide (i = next)); [lia|]. rewrite lookup_insert_ne in Hm by done. specialize (H1 i ltac:(by eexists)). lia.
  - intros d m x i Hm Hin. destruct (decide (d = next)) as [->|]; [rewrite lookup_insert_eq in Hm; injection Hm as <-; rewrite He in Hin; by apply not_elem_of_nil in Hin|].
    rewrite lookup_insert_ne in Hm by done. destruct (H2 d m x i Hm Hin) as (k & Hik & ? & ? & Hl & ?). exists k. repeat split; try done; [by apply Hold|].
    destruct Hl as [Hl|Hl]; [left; by apply Hdb|right; by left].
  - intros i m Hl Hm Hne. destruct (decide (i = next)) as [->|].
    { rewrite lookup_insert_eq in Hm. injection Hm as <-. left. apply doubled_iff. exists next, n. rewrite lookup_insert_eq. destruct Hk as [(? & _)|[_ Ho]]; [done|].
      unfold is_fd_root. by rewrite Ho. }
    rewrite lookup_insert_ne in Hm by done. destruct Hl as [Hl|Hl]; [|done]. destruct (H3 i m Hl Hm Hne) as [Hd|(q & Hq & Hin)]; [left; by apply Hdb|right].
    exists q. split; [by apply Hold|done].
  - intros i m Hm Hself. destruct (decide (i = next)) as [->|]; [rewrite lookup_insert_eq in Hm; injection Hm as <-; destruct Hk as [(? & ? & ?)|[? _]]; done|].
    rewrite lookup_insert_ne in Hm by done. by apply (H4 i).
  - intros d m Hm. destruct (decide (d = next)) as [->|]; [rewrite lookup_insert_eq in Hm; injection Hm as <-; rewrite He; constructor|].
    rewrite lookup_insert_ne in Hm by done. by apply (H5 d).
Qed.

(** *** Removing a node *)

Lemma delete_entry_in l x y j : (y, j) ∈ delete_entry l x <-> (y, j) ∈ l /\ y <> x.
Proof.
  unfold delete_entry. rewrite !list_elem_of_In, filter_In. split; intros [H1 H2]; (split; [done|]).
  - apply negb_true_iff, str_eqb_neq in H2. done.
  - by apply negb_true_iff, str_eqb_neq.
Qed.

Lemma delete_entry_keys l x : NoDup (map fst l) -> NoDup (map fst (delete_entry l x)).
Proof.
  induction l as [|[y j] l IH]; intros H; [constructor|]. cbn in *. apply NoDup_cons in H as [Hy H]. destruct (str_eqb y x); cbn; [by apply IH|].
  constructor; [|by apply IH]. intros Hin. apply Hy. apply key_entry in Hin as [k Hk]. apply delete_entry_in in Hk as [Hk _]. by apply entry_key in Hk.
Qed.

Definition drops_entry (p : nat) (x : jsstr) (ns : gmap nat node) : gmap nat node :=
  alter (fun n => with_entries n (delete_entry (entries n) x)) p ns.

Lemma tree_delete ns next live p pn i m :
  tree ns next live -> ns !! p = Some pn -> ns !! i = Some m -> parent m = p -> p <> i -> live i ->
  tree (drops_entry p (name m) ns) next (fun j => live j /\ j <> i).
Proof.
  intros [H1 H2 H3 H4 H5] Hp Hi Hpar Hne Hlive.
  set (pn' := with_entries pn (delete_entry (entries pn) (name m))).
  assert (Hns : forall j, drops_entry p (name m) ns !! j = if decide (j = p) then Some pn' else ns !! j).
  { intros j. unfold drops_entry. destruct (decide (j = p)) as [->|]; [by rewrite lookup_alter_eq, Hp|by rewrite lookup_alter_ne]. }
  set (ns' := drops_entry p (name m) ns) in *.
  assert (Hdb : forall d x, doubled ns d x -> doubled ns' d x).
  { intros d x. apply doubled_mono. intros j k Hk. rewrite Hns. destruct (decide (j = p)) as [->|]; [assert (k = pn) by congruence; subst k; by exists pn'|by exists k]. }
  assert (Hmine : doubled ns' p (name m) \/ (name m, i) ∈ entries pn).
  { destruct (H3 i m Hlive Hi ltac:(congruence)) as [Hd|(q & Hq & Hin)]; rewrite Hpar in *; [left; by apply Hdb|right; by replace pn with q by congruence]. }
  split; intros *; rewrite ?Hns.
  - intros [k Hk]. apply H1. destruct (decide (i0 = p)) as [->|]; [by eexists|by eexists].
  - assert (Hold : (exists k, ns !! i0 = Some k /\ parent k = d /\ name k = x /\ (doubled ns d x \/ live i0) /\ i0 <> d) -> i0 <> i ->
      exists k, (if decide (i0 = p) then Some pn' else ns !! i0) = Some k /\ parent k = d /\ name k = x /\ (doubled ns' d x \/ live i0 /\ i0 <> i) /\ i0 <> d).
    { intros (k & Hk & Hkp & Hkx & Hl & Hkd) Hni. assert (Hl' : doubled ns' d x \/ live i0 /\ i0 <> i) by (destruct Hl; auto).
      destruct (decide (i0 = p)) as [->|]; [assert (Ek : k = pn) by congruence; subst k; by exists pn'|by exists k]. }
    destruct (decide (d = p)) as [->|]; intros Hd Hin.
    + injection Hd as <-. cbn in Hin. apply delete_entry_in in Hin as [Hin Hx]. pose proof (H2 p pn x i0 Hp Hin) as Hk. apply Hold; [done|].
      destruct Hk as (k & Hk & _ & Hnm & _). intros ->. congruence.
    + pose proof (H2 d n x i0 Hd Hin) as Hk. apply Hold; [done|]. destruct Hk as (k & Hk & Hpk & _). intros ->. congruence.
  - intros [Hl Hni] Hm Hself. assert (Hm0 : exists k, ns !! i0 = Some k /\ parent k = parent m0 /\ name k = name m0).
    { destruct (decide (i0 = p)) as [->|]; [injection Hm as <-; by exists pn|by exists m0]. }
    destruct Hm0 as (k & Hk & Ep & En). destruct (H3 i0 k Hl Hk ltac:(congruence)) as [Hd|(q & Hq & Hin)]; rewrite Ep, En in *; [left; by apply Hdb|].
    destruct (decide (parent m0 = p)) as [E|]; [|right; by exists q]. rewrite E in *. replace q with pn in Hin by congruence.
    destruct (decide (name m0 = name m)) as [Ex|Ex]; [|right; exists pn'; split; [done|]; cbn; by apply delete_entry_in].
    left. rewrite Ex in *. destruct Hmine as [Hd|Hmine]; [done|]. exfalso. apply Hni. by apply (entry_unique (entries pn) (name m)); [apply (H5 p)| |].
  - destruct (decide (i0 = p)) as [->|]; intros Hm Hself; [injection Hm as <-; cbn in *; by apply (H4 p pn)|by apply (H4 i0)].
  - destruct (decide (d = p)) as [->|]; intros Hd; [injection Hd as <-; cbn; apply delete_entry_keys; by apply (H5 p)|by apply (H5 d)].
Qed.

(** ** Operations that keep the invariant *)

Definition keeps {A} (m : M A) : Prop := forall s, tree_ok s -> tree_ok (snd (m s)).

Lemma keeps_ret {A} (a : A) : keeps (ret a).
Proof. by intros s Hs. Qed.
Lemma keeps_raise {A} e : keeps (raise (A := A) e).
Proof. by intros s Hs. Qed.
Lemma keeps_gets {A} (f : fs -> A) : keeps (gets f).
Proof. by intros s Hs. Qed.
Lemma keeps_lift {A} (r : result A) : keeps (lift r).
Proof. by intros s Hs. Qed.
Lemma keeps_bind {A B} (m : M A) (k : A -> M B) : keeps m -> (forall a, keeps (k a)) -> keeps (bind m k).
Proof. intros Hm Hk s Hs. unfold bind. pose proof (Hm s Hs) as H1. destruct (m s) as [[a|e] s1]; [by apply Hk|done]. Qed.
Lemma keeps_catch {A} (m : M A) h : keeps m -> (forall e, keeps (h e)) -> keeps (catch m h).
Proof. intros Hm Hh s Hs. unfold catch. pose proof (Hm s Hs) as H1. destruct (m s) as [[a|e] s1]; [done|by apply Hh]. Qed.
Lemma keeps_getNode i : keeps (getNode i).
Proof. intros s Hs. unfold getNode. destruct (nodes s !! i); [done|]. by destruct (fd_link s i). Qed.
Lemma keeps_getStream i : keeps (getStream i).
Proof. intros s Hs. unfold getStream. by destruct (stream_store s !! i). Qed.
Lemma keeps_some {A} (o : option A) e : keeps (some_or_throw o e).
Proof. intros s Hs. by destruct o. Qed.
Lemma keeps_throw c : keeps (throw_code c).
Proof. intros s Hs. unfold throw_code. by destruct (c =? 0). Qed.

Lemma same_tree_refl s : same_tree s s.
Proof. repeat split. intros i. unfold same_but_file. destruct (nodes s !! i) as [n|]; [by destruct n|done]. Qed.

Lemma framed_state {A} (m : M A) s : framed m -> snd (m s) = s.
Proof. intros H. destruct (H s s (same_tree_refl s)) as (r & E & _). by rewrite E. Qed.

Lemma keeps_framed {A} (m : M A) : framed m -> keeps m.
Proof. intros H s Hs. by rewrite framed_state. Qed.

(** A change outside the nodes and the table. *)
Lemma keeps_modify f : (forall s, nodes (f s) = nodes s /\ nameTable (f s) = nameTable s /\ nextInode (f s) = nextInode s) -> keeps (modify f).
Proof.
  intros Hf s (c & Hr & Ht). destruct (Hf s) as (E1 & E2 & E3). exists c. cbn [snd modify]. split; [|by rewrite E1, E3].
  intros h. specialize (Hr h). by rewrite E1, E2.
Qed.

Lemma keeps_on_term {A} (f : terminal -> A * terminal) : keeps (on_term f).
Proof. intros s (c & Hr & Ht). unfold on_term. destruct (f (term s)) as [a t]. by exists c. Qed.

(** A change of one node that the invariant does not read. *)
Lemma chain_follow ns ns' o l :
  (forall j n, ns !! j = Some n -> exists n', ns' !! j = Some n' /\ name_next n' = name_next n) -> chain ns o l -> chain ns' o l.
Proof.
  intros Hf H. induction H as [|i n l Hi _ IH]; [constructor|]. destruct (Hf i n Hi) as (n' & Hn' & E). econstructor; [exact Hn'|]. by rewrite E.
Qed.

Lemma keeps_update i f :
  (forall n, shape (f n) = shape n /\ name_next (f n) = name_next n) -> keeps (update_node i f).
Proof.
  intros Hf s (c & Hr & Ht). exists c. cbn [snd update_node modify nodes nextInode set_nodes].
  assert (Hold : forall j n, nodes s !! j = Some n -> exists n', alter f i (nodes s) !! j = Some n' /\ name_next n' = name_next n /\ node_hash n' = node_hash n).
  { intros j n Hn. destruct (decide (j = i)) as [->|]; [|rewrite lookup_alter_ne by done; by exists n]. rewrite lookup_alter_eq, Hn. cbn. exists (f n).
    destruct (Hf n) as [E1 E2]. apply shape_eq in E1 as (Ep & En & _). unfold node_hash. by rewrite Ep, En. }
  split.
  - intros h. destruct (Hr h) as (Hc & Hn & Hall). cbn [nodes nameTable set_nodes]. split; [|split; [done|]].
    + eapply chain_follow; [|exact Hc]. intros j n Hj. destruct (Hold j n Hj) as (n' & ? & ? & _). by exists n'.
    + eapply Forall_impl; [exact Hall|]. cbn. intros j (n & Hj & Hh). destruct (Hold j n Hj) as (n' & ? & _ & ?). exists n'. split; [done|congruence].
  - eapply tree_shape; [|done|exact Ht]. intros j. destruct (decide (j = i)) as [->|]; [|by rewrite lookup_alter_ne].
    rewrite lookup_alter_eq. destruct (nodes s !! i) as [n|]; [|done]. cbn. f_equal. apply Hf.
Qed.

(** *** Lookups in the table *)

Lemma lookupNode_run s c p x :
  table_rep s c ->
  lookupNode p x s
  = match fst (mayLookup p s) with
    | Throw e => (Throw e, s)
    | Ok code => if negb (code =? 0) then (Throw (ErrnoErrorAt code p), s)
                 else match head (List.filter (has_key (nodes s) p x) (c (hashName p x))) with Some i => (Ok i, s) | None => node_lookup p x s end
    end.
Proof.
  intros Hr. pose proof (framed_state (mayLookup p) s ltac:(unfold mayLookup; framed; apply framed_nodePermissions)) as Hs.
  unfold lookupNode, bind at 1. destruct (mayLookup p s) as [r s1]. cbn in Hs |- *. subst s1.
  destruct r as [code|e]; [|done]. destruct (negb (code =? 0)); [done|].
  unfold bind, gets. destruct (Hr (hashName p x)) as (Hc & Hn & _). rewrite (find_name_spec s _ _ _ p x Hc (chain_length _ _ _ Hc Hn)).
  by destruct (head _).
Qed.

Lemma table_head s c p x i :
  head (List.filter (has_key (nodes s) p x) (c (hashName p x))) = Some i ->
  i ∈ c (hashName p x) /\ exists m, nodes s !! i = Some m /\ parent m = p /\ name m = x.
Proof.
  intros E. assert (Hin : In i (List.filter (has_key (nodes s) p x) (c (hashName p x)))).
  { revert E. destruct (List.filter _ _); [done|]. intros E. injection E as ->. by left. }
  apply filter_In in Hin as [Hin Hk]. split; [by apply list_elem_of_In|]. unfold has_key in Hk. destruct (nodes s !! i) as [m|]; [|done].
  apply andb_true_iff in Hk as [Hp Hx]. exists m. split; [done|]. split; [by apply Nat.eqb_eq|by apply str_eqb_eq].
Qed.

(** In a directory other than [/proc/self/fd], a lookup finds a node in the table. *)
Lemma lookup_found s c p pn x i s' :
  table_rep s c -> nodes s !! p = Some pn -> node_ops pn <> FdDirOps -> lookupNode p x s = (Ok i, s') ->
  s' = s /\ i ∈ c (hashName p x) /\ exists m, nodes s !! i = Some m /\ parent m = p /\ name m = x.
Proof.
  intros Hr Hpn Hops. rewrite (lookupNode_run s c) by done. destruct (fst (mayLookup p s)) as [code|e]; [|done]. destruct (negb (code =? 0)); [done|].
  destruct (head _) as [j|] eqn:E; [|by unfold node_lookup, bind, getNode; rewrite Hpn, bool_decide_eq_false_2].
  intros H. injection H as <- <-. split; [done|]. by apply table_head.
Qed.

(** When a directory can be searched, the table knows all its entries, but for a doubled name. *)
Lemma entry_in_table s c d n x i :
  table_rep s c -> tree (nodes s) (nextInode s) (in_table c) -> nodes s !! d = Some n -> (x, i) ∈ entries n -> ~ doubled (nodes s) d x ->
  exists j, head (List.filter (has_key (nodes s) d x) (c (hashName d x))) = Some j.
Proof.
  intros Hr Ht Hd Hin Hndb. destruct (tr_entry _ _ _ Ht d n x i Hd Hin) as (m & Hm & Hp & Hx & [Hdb|[h Hh]] & _); [done|].
  destruct (Hr h) as (_ & _ & Hall). rewrite Forall_forall in Hall. destruct (Hall i Hh) as (m' & Hm' & Eh). replace m' with m in * by congruence.
  unfold node_hash in Eh. rewrite Hp, Hx in Eh. subst h.
  assert (Hf : In i (List.filter (has_key (nodes s) d x) (c (hashName d x)))).
  { apply filter_In. split; [by apply list_elem_of_In|]. unfold has_key. rewrite Hm, Hp, Hx, Nat.eqb_refl. by rewrite str_eqb_refl. }
  revert Hf. destruct (List.filter _ _) as [|j l]; [done|]. by exists j.
Qed.

Lemma perms_x_wx i s : fst (nodePermissions i "wx" s) = Ok 0 -> fst (nodePermissions i "x" s) = Ok 0.
Proof.
  unfold nodePermissions, bind, gets, getNode. destruct (ignorePermissions s); [done|].
  destruct (match nodes s !! i with Some n => _ | None => _ end) as [[n|e] s1]; [|done].
  change (includes_perm "wx" 114) with false. change (includes_perm "wx" 119) with true. change (includes_perm "wx" 120) with true.
  change (includes_perm "x" 114) with false. change (includes_perm "x" 119) with false. change (includes_perm "x" 120) with true. cbn [andb].
  destruct (js_and (mode n) 146 =? 0); [done|]. by destruct (js_and (mode n) 73 =? 0).
Qed.

(** [mayCreate] accepts a name only when the directory has no such entry or the name is doubled. *)
Lemma mayCreate_fresh s c p x pn :
  table_rep s c -> tree (nodes s) (nextInode s) (in_table c) -> nodes s !! p = Some pn -> node_ops pn = DirOps ->
  fst (mayCreate p x s) = Ok 0 -> x ∉ map fst (entries pn) \/ doubled (nodes s) p x.
Proof.
  intros Hr Ht Hp Hd Hc. destruct (decide (doubled (nodes s) p x)) as [Hdb|Hndb]; [by right|left]. intros Hin.
  apply key_entry in Hin as [i Hi]. destruct (entry_in_table s c p pn x i Hr Ht Hp Hi Hndb) as [j Hj].
  unfold mayCreate, catch, bind in Hc. rewrite (lookupNode_run s c) in Hc by done. rewrite Hj in Hc.
  assert (Hwx : forall s', snd (nodePermissions p "x" s') = s') by (intros; apply framed_state, framed_nodePermissions).
  unfold mayLookup, bind in Hc. pose proof (Hwx s) as Hs. destruct (nodePermissions p "x" s) as [[code|e] s1] eqn:E; cbn in Hs; subst s1.
  - destruct (code =? 0) eqn:E0; cbn [negb] in Hc.
    + unfold getNode in Hc. rewrite Hp, Hd in Hc. cbn in Hc. done.
    + cbn [fst ret] in Hc. rewrite E0 in Hc. cbn [negb] in Hc. apply perms_x_wx in Hc. rewrite E in Hc. cbn in Hc. injection Hc as ->. done.
  - cbn [fst] in Hc. apply perms_x_wx in Hc. by rewrite E in Hc.
Qed.

(** *** Creating *)

Lemma table_rep_insert s s' c i n :
  table_rep s c -> nodes s !! i = None -> nodes s' = <[i := n]> (nodes s) -> nameTable s' = nameTable s -> table_rep s' c.
Proof.
  intros Hr Hi En Et h. rewrite En, Et. destruct (Hr h) as (Hc & Hn & Hall).
  assert (Hold : forall j m, nodes s !! j = Some m -> <[i := n]> (nodes s) !! j = Some m) by (intros j m Hm; rewrite lookup_insert_ne; [done|congruence]).
  split; [|split; [done|]].
  - eapply chain_follow; [|exact Hc]. intros j m Hm. exists m. split; [by apply Hold|done].
  - eapply Forall_impl; [exact Hall|]. cbn. intros j (m & Hm & Hh). exists m. split; [by apply Hold|done].
Qed.

Lemma table_rep_entries s c p f :
  table_rep s c -> table_rep (set_nodes s (alter (fun n => with_entries n (f n)) p (nodes s))) c.
Proof.
  intros Hr h. destruct (Hr h) as (Hc & Hn & Hall). cbn [nodes nameTable set_nodes].
  assert (Hold : forall j m, nodes s !! j = Some m -> exists m', alter (fun n => with_entries n (f n)) p (nodes s) !! j = Some m' /\ name_next m' = name_next m /\ node_hash m' = node_hash m).
  { intros j m Hm. destruct (decide (j = p)) as [->|]; [rewrite lookup_alter_eq, Hm; cbn; by eexists|rewrite lookup_alter_ne by done; by exists m]. }
  split; [|split; [done|]].
  - eapply chain_follow; [|exact Hc]. intros j m Hm. destruct (Hold j m Hm) as (m' & ? & ? & _). by exists m'.
  - eapply Forall_impl; [exact Hall|]. cbn. intros j (m & Hm & Hh). destruct (Hold j m Hm) as (m' & ? & _ & ?). exists m'. split; [done|congruence].
Qed.

Lemma fresh_not_in s c i : table_rep s c -> nodes s !! i = None -> forall h, i ∉ c h.
Proof.
  intros Hr Hi h Hin. destruct (Hr h) as (_ & _ & Hall). rewrite Forall_forall in Hall. destruct (Hall i Hin) as (n & Hn & _). congruence.
Qed.

Lemma in_table_add c h i j : in_table (upd c h (i :: c h)) j <-> in_table c j \/ j = i.
Proof.
  unfold in_table, upd. split.
  - intros [k Hk]. destruct (Z.eqb_spec k h) as [E|E]; [apply elem_of_cons in Hk as [Hk|Hk]; [by right|]|]; left; eauto.
  - intros [[k Hk]|E]; [exists k|exists h; rewrite Z.eqb_refl; by apply elem_of_cons; left].
    destruct (Z.eqb_spec k h) as [E|E]; [apply elem_of_cons; right; by rewrite <- E|done].
Qed.

(** [FS.createNode] of a node for which there is room in the tree. *)
Lemma createNode_ok s c p x mode rdev o :
  table_rep s c -> tree (nodes s) (nextInode s) (in_table c) ->
  match p with Some p => is_Some (nodes s !! p) | None => True end ->
  exists s' c' n, createNode p x mode rdev o s = (Ok (nextInode s), s') /\ table_rep s' c' /\ nextInode s' = S (nextInode s)
    /\ (forall j, shape <$> nodes s' !! j = shape <$> (<[nextInode s := n]> (nodes s)) !! j)
    /\ (forall j, in_table c' j <-> in_table c j \/ j = nextInode s)
    /\ parent n = default (nextInode s) p /\ name n = x /\ entries n = [] /\ OpusNode.mode n = mode /\ node_ops n = o.
Proof.
  intros Hr Ht Hp. set (i := nextInode s).
  assert (Hnone : nodes s !! i = None).
  { destruct (nodes s !! i) eqn:E; [|done]. pose proof (tr_fresh _ _ _ Ht i ltac:(by eexists)). unfold i in *. lia. }
  assert (Hm : exists m, (match p with None => ret None | Some p => let! n := getNode p in ret (mount_of n) end) s = (Ok m, s)).
  { destruct p as [p|]; [|by eexists]. destruct Hp as [pn Hp]. unfold bind, getNode. rewrite Hp. by eexists. }
  destruct Hm as [m Hm]. unfold createNode, bind at 1, gets at 1. fold i. rewrite (bind_ok _ _ _ _ _ Hm).
  set (n := {| parent := default i p; mount_of := m; mounted := None; name := x; mode := mode; rdev := rdev; node_ops := o; entries := [];
               file := new_file; link := []; name_next := None |}).
  unfold bind at 1, modify at 1. set (s1 := {| root := root s |}).
  assert (Hr1 : table_rep s1 c) by exact (table_rep_insert s s1 c i n Hr Hnone eq_refl eq_refl).
  assert (Hi1 : nodes s1 !! i = Some n) by apply lookup_insert_eq.
  destruct (hashAddNode_refines s1 c i n Hr1 Hi1 (fresh_not_in s c i Hr Hnone)) as (s' & Hadd & Hr' & Hs').
  rewrite (bind_ok _ _ _ _ _ Hadd). exists s', (upd c (node_hash n) (i :: c (node_hash n))), n.
  split; [done|]. split; [done|]. split; [by rewrite Hs'|]. split; [|split; [apply in_table_add|done]].
  intros j. rewrite Hs'. cbn [nodes set_table set_nodes]. destruct (decide (j = i)) as [->|]; [|by rewrite lookup_alter_ne].
  by rewrite lookup_alter_eq, Hi1, lookup_insert_eq.
Qed.

(** [MEMFS.createNode] under an existing directory that has no such entry. *)
Lemma memfs_createNode_ok s p pn x mode dev :
  tree_ok s -> nodes s !! p = Some pn -> x ∉ map fst (entries pn) \/ doubled (nodes s) p x -> tree_ok (snd (memfs_createNode (Some p) x mode dev s)).
Proof.
  intros (c & Hr & Ht) Hp Hx. unfold memfs_createNode. destruct (_ || _); [by exists c|].
  destruct (createNode_ok s c (Some p) x mode dev (ops_of_mode mode) Hr Ht ltac:(by eexists)) as (s' & c' & n & Hrun & Hr' & Hnext & Hsh & Hin & Hpar & Hnm & He & _).
  rewrite (bind_ok _ _ _ _ _ Hrun). unfold bind, update_node, modify, ret. cbn [snd]. exists c'.
  split; [apply table_rep_entries; exact Hr'|]. cbn [nodes nextInode set_nodes]. rewrite Hnext.
  assert (Hlt : (p < nextInode s)%nat) by (apply (tr_fresh _ _ _ Ht); by eexists).
  eapply tree_shape; [|intros j; symmetry; apply Hin|apply (tree_add (nodes s) (nextInode s) (in_table c) p pn n Ht Hp)]; try done; [|by rewrite Hnm].
  intros j. unfold adds_entry. destruct (decide (j = p)) as [->|Hj].
  - rewrite !lookup_alter_eq. specialize (Hsh p). rewrite lookup_insert_ne in * by lia. rewrite Hp in *.
    destruct (nodes s' !! p) as [q|]; [|done]. cbn in Hsh |- *. injection Hsh as E1 E2 E3 E4 E5. unfold shape, is_fd_root in *. cbn. by rewrite E1, E2, E3, E4, E5, Hnm.
  - rewrite !lookup_alter_ne by done. apply Hsh.
Qed.

Lemma root_createNode_ok s mode : isDir mode = true -> tree_ok s -> tree_ok (snd (memfs_createNode None [slash] mode 0 s)).
Proof.
  intros Hd (c & Hr & Ht). unfold memfs_createNode. destruct (_ || _); [by exists c|].
  destruct (createNode_ok s c None [slash] mode 0 (ops_of_mode mode) Hr Ht I) as (s' & c' & n & Hrun & Hr' & Hnext & Hsh & Hin & Hpar & Hnm & He & Hmode & _).
  rewrite (bind_ok _ _ _ _ _ Hrun). cbn [snd ret]. exists c'. split; [done|]. rewrite Hnext.
  eapply tree_shape; [exact Hsh|intros j; symmetry; apply Hin|]. apply tree_add_alone; try done. left. split; [done|]. split; [done|]. by rewrite Hmode.
Qed.

(** The root of [/proc/self/fd], made in a directory that is there. *)
Lemma fd_root_createNode_ok s p x mode rdev :
  tree_ok s -> (p < nextInode s)%nat -> tree_ok (snd (createNode (Some p) x mode rdev FdDirOps s)).
Proof.
  intros (c & Hr & Ht) Hp. destruct (nodes s !! p) as [pn|] eqn:Ep.
  - destruct (createNode_ok s c (Some p) x mode rdev FdDirOps Hr Ht ltac:(by eexists)) as (s' & c' & n & Hrun & Hr' & Hnext & Hsh & Hin & Hpar & Hnm & He & _ & Ho).
    rewrite Hrun. cbn [snd]. exists c'. split; [done|]. rewrite Hnext. eapply tree_shape; [exact Hsh|intros j; symmetry; apply Hin|].
    apply tree_add_alone; try done. right. split; [|done]. rewrite Hpar. cbn. lia.
  - unfold createNode, bind at 1, gets at 1. unfold bind at 1, bind at 1, getNode, fd_link. rewrite Ep, (proj2 (Nat.leb_gt _ _)) by done. by exists c.
Qed.

(** Reading a node: one of the file system, or what [/proc/self/fd] gave. *)
Lemma getNode_state i s r s' : getNode i s = (r, s') -> s' = s.
Proof. unfold getNode. destruct (nodes s !! i); [congruence|]. destruct (fd_link s i); congruence. Qed.

Lemma getNode_ok i s n s' : getNode i s = (Ok n, s') -> s' = s /\ (nodes s !! i = Some n \/ node_ops n = FdLinkOps).
Proof.
  unfold getNode, fd_link. destruct (nodes s !! i) as [m|]; [intros H; split; [congruence|left; congruence]|].
  destruct (nextInode s <=? i)%nat; [|done]. destruct (stream_store s !! _); cbn; [|done]. intros H. simplify_eq. split; [done|by right].
Qed.

Lemma getNode_dir i s n s' : getNode i s = (Ok n, s') -> node_ops n = DirOps -> nodes s !! i = Some n.
Proof. intros H Hd. apply getNode_ok in H as [_ [H|H]]; [done|congruence]. Qed.

Lemma framed_mayCreate p x : framed (mayCreate p x).
Proof. unfold mayCreate. framed; (apply framed_lookupNode || apply framed_nodePermissions). Qed.

(** The checks and the creation that [mknod] and [symlink] share. *)
Lemma keeps_create {B} p x mode dev (k : nat -> M B) :
  (forall i, keeps (k i)) ->
  keeps (let! errCode := mayCreate p x in throw_code errCode ;;;
         let! n := getNode p in
         if negb (bool_decide (node_ops n = DirOps)) then errno 63 else let! i := memfs_createNode (Some p) x mode dev in k i).
Proof.
  intros Hk s Hs. pose proof Hs as (c & Hr & Ht). pose proof (framed_state (mayCreate p x) s (framed_mayCreate p x)) as Hst.
  unfold bind at 1. destruct (mayCreate p x s) as [[code|e] s1] eqn:Em; cbn in Hst; subst s1; [|done].
  unfold bind at 1, throw_code. destruct (code =? 0) eqn:E0; [|done]. bool_prop. subst code. cbn [ret].
  unfold bind at 1. destruct (getNode p s) as [[pn|e] s1] eqn:Eg; [|by apply getNode_state in Eg as ->].
  apply getNode_ok in Eg as [-> Ep]. destruct (bool_decide _) eqn:Ed; cbn [negb]; [|done]. bool_prop.
  destruct Ep as [Ep|Ep]; [|congruence].
  assert (Hx : x ∉ map fst (entries pn) \/ doubled (nodes s) p x) by (apply (mayCreate_fresh s c p x pn); try done; by rewrite Em).
  pose proof (memfs_createNode_ok s p pn x mode dev Hs Ep Hx) as H1. unfold bind. destruct (memfs_createNode _ _ _ _ s) as [[i|e] s2]; [by apply Hk|done].
Qed.

Lemma keeps_ext {A} (m m' : M A) : (forall s, m s = m' s) -> keeps m -> keeps m'.
Proof. intros E H s Hs. rewrite <- E. by apply H. Qed.

Lemma keeps_create_only p x mode dev :
  keeps (let! errCode := mayCreate p x in throw_code errCode ;;;
         let! n := getNode p in
         if negb (bool_decide (node_ops n = DirOps)) then errno 63 else memfs_createNode (Some p) x mode dev).
Proof.
  eapply keeps_ext; [|apply (keeps_create p x mode dev ret); intros; apply keeps_ret]. intros s. unfold bind.
  destruct (mayCreate p x s) as [[code|e] s1]; [|done]. destruct (throw_code code s1) as [[u|e] s2]; [|done].
  destruct (getNode p s2) as [[n|e] s3]; [|done]. destruct (negb _); [done|]. by destruct (memfs_createNode _ _ _ _ s3) as [[]].
Qed.

Create HintDb keepsdb.
#[local] Hint Constants Opaque : keepsdb.
#[local] Hint Resolve keeps_ret keeps_raise keeps_gets keeps_lift keeps_getNode keeps_getStream keeps_some keeps_throw keeps_on_term : keepsdb.

Ltac keeps_step :=
  match goal with
  | |- keeps (errno _) => apply keeps_raise
  | |- keeps (look _ _ _) => apply keeps_framed, framed_lookupPath
  | |- keeps (pathOf _) => apply keeps_framed, framed_pathOf
  | |- keeps (nodePermissions _ _) => apply keeps_framed, framed_nodePermissions
  | |- keeps (lookupNode _ _) => apply keeps_framed, framed_lookupNode
  | |- keeps (modify _) => apply keeps_modify; intros; repeat split
  | |- keeps (update_node _ _) => apply keeps_update; intros; split; reflexivity
  | |- keeps (bind _ _) => apply keeps_bind; [|intros]
  | |- keeps (catch _ _) => apply keeps_catch; [|intros]
  | |- keeps (if ?b then _ else _) => destruct b
  | |- keeps (match ?o with _ => _ end) => destruct o
  | |- keeps (let '(_, _) := ?o in _) => destruct o
  | |- keeps _ => solve [eauto 2 with keepsdb nocore]
  end.
Ltac keeps := repeat keeps_step.

(** *** Removing *)

Lemma unlink_after_shape fuel cur i next s :
  nextInode (snd (unlink_after fuel cur i next s)) = nextInode s
  /\ forall j, shape <$> nodes (snd (unlink_after fuel cur i next s)) !! j = shape <$> nodes s !! j.
Proof.
  revert cur. induction fuel as [|f IH]; intros [c|]; cbn [unlink_after]; try (by split).
  unfold bind. destruct (getNode c s) as [[n|e] s1] eqn:Ec; apply getNode_state in Ec as ->; [|by split]. destruct (bool_decide _); [|apply IH]. split; [done|].
  intros j. cbn. destruct (decide (j = c)) as [->|]; [rewrite lookup_alter_eq; by destruct (nodes s !! c)|by rewrite lookup_alter_ne].
Qed.

Lemma hashRemove_shape i s :
  nextInode (snd (hashRemoveNode i s)) = nextInode s /\ forall j, shape <$> nodes (snd (hashRemoveNode i s)) !! j = shape <$> nodes s !! j.
Proof.
  unfold hashRemoveNode, bind, gets. destruct (getNode i s) as [[n|e] s1] eqn:Ei; apply getNode_state in Ei as ->; [|by split]. destruct (bool_decide _); [by split|]. apply unlink_after_shape.
Qed.

Lemma in_table_remove c h i j : (forall k, i ∈ c k -> k = h) -> in_table (upd c h (without i (c h))) j <-> in_table c j /\ j <> i.
Proof.
  intros Hi. unfold in_table, upd. split.
  - intros [k Hk]. destruct (Z.eqb_spec k h) as [E|E].
    + apply without_in in Hk as [Hk Hne]. split; [by exists h|done].
    + split; [by exists k|]. intros ->. by apply E, Hi.
  - intros [[k Hk] Hne]. exists k. destruct (Z.eqb_spec k h) as [E|E]; [|done]. apply without_in. by rewrite <- E.
Qed.

Lemma removed_ok s c p pn i m x :
  table_rep s c -> tree (nodes s) (nextInode s) (in_table c) -> nodes s !! p = Some pn -> nodes s !! i = Some m ->
  parent m = p -> name m = x -> p <> i -> in_table c i ->
  tree_ok (snd ((update_node p (fun n => with_entries n (delete_entry (entries n) x)) ;;; hashRemoveNode i) s)).
Proof.
  intros Hr Ht Hp Hi Hpar Hx Hne Hlive. unfold bind, update_node, modify.
  set (s1 := set_nodes s _). assert (Hr1 : table_rep s1 c) by exact (table_rep_entries s c p (fun n => delete_entry (entries n) x) Hr).
  assert (Hi1 : nodes s1 !! i = Some m) by (unfold s1; cbn; by rewrite lookup_alter_ne).
  destruct (hashRemoveNode_refines s1 c i m Hr1 Hi1) as (s' & Hrun & Hr'). destruct (hashRemove_shape i s1) as [Hnext Hsh]. rewrite Hrun in *. cbn [snd] in *.
  exists (upd c (node_hash m) (without i (c (node_hash m)))). split; [done|]. rewrite Hnext. change (nextInode s1) with (nextInode s).
  eapply tree_shape; [exact Hsh| |subst x; by apply (tree_delete (nodes s) (nextInode s) (in_table c) p pn i m)].
  intros j. symmetry. apply in_table_remove. intros k Hk. destruct (Hr k) as (_ & _ & Hall). rewrite Forall_forall in Hall.
  destruct (Hall i Hk) as (m' & Hm' & Hh). congruence.
Qed.

(** A node that may be deleted is not the root of a mount. *)
Lemma mayDelete_ok s c dir x isdir i m :
  tree (nodes s) (nextInode s) (in_table c) -> lookupNode dir x s = (Ok i, s) -> nodes s !! i = Some m ->
  fst (mayDelete dir x isdir s) = Ok 0 -> parent m <> i.
Proof.
  intros Ht Hl Hm Hd Hself. destruct (tr_root _ _ _ Ht i m Hm Hself) as [_ Hdir]. unfold mayDelete in Hd. unfold bind at 1, catch at 1, bind at 1 in Hd. rewrite Hl in Hd.
  cbn [ret] in Hd. unfold bind at 1 in Hd. pose proof (framed_state (nodePermissions dir "wx") s (framed_nodePermissions _ _)) as Hs.
  destruct (nodePermissions dir "wx" s) as [[code|e] s1]; cbn in Hs; subst s1; [|done]. destruct (negb (code =? 0)) eqn:E0.
  { cbn in Hd. injection Hd as ->. done. }
  unfold bind at 1, getNode in Hd. rewrite Hm, Hdir in Hd. destruct isdir; cbn [negb] in Hd; [|done]. rewrite Hself, Nat.eqb_refl in Hd. done.
Qed.

Lemma framed_mayDelete dir x isdir : framed (mayDelete dir x isdir).
Proof. unfold mayDelete. framed; (apply framed_lookupNode || apply framed_nodePermissions || apply framed_pathOf || idtac). Qed.

(** The state after a framed computation that returned. *)
Lemma framed_ok {A} (m : M A) s a s' : framed m -> m s = (Ok a, s') -> s' = s.
Proof. intros H E. pose proof (framed_state m s H) as Hs. by rewrite E in Hs. Qed.

Lemma bind_same {A B} (m : M A) (k : A -> M B) s :
  snd (m s) = s -> tree_ok s -> (forall a, m s = (Ok a, s) -> tree_ok (snd (k a s))) -> tree_ok (snd (bind m k s)).
Proof. intros Hm Hs Hk. unfold bind. destruct (m s) as [[a|e] s1]; cbn in Hm; subst s1; [by apply Hk|done]. Qed.

Lemma bind_assoc {A B C} (m : M A) (k : A -> M B) (h : B -> M C) s : bind (bind m k) h s = bind m (fun a => bind (k a) h) s.
Proof. unfold bind. by destruct (m s) as [[a|e] s1]. Qed.

(** One step of a computation that does not change the state. *)
Ltac same_state a E := apply bind_same; [|assumption|intros a E].

Lemma entries_of_state j s : snd (entries_of j s) = s.
Proof. unfold entries_of, bind. destruct (getNode j s) as [[n|e] s1] eqn:E; apply getNode_state in E as ->; [|done]. by repeat case_match. Qed.

(** What [unlink] and [rmdir] have found before they change anything. *)
Lemma delete_checked s p x i isdir code u pn n :
  tree_ok s -> lookupNode p x s = (Ok i, s) -> mayDelete p x isdir s = (Ok code, s) -> throw_code code s = (Ok u, s) ->
  getNode p s = (Ok pn, s) -> node_ops pn = DirOps -> getNode i s = (Ok n, s) ->
  tree_ok (snd ((update_node p (fun n => with_entries n (delete_entry (entries n) x)) ;;; hashRemoveNode i) s)).
Proof.
  intros (c & Hr & Ht) Hl Hd Hu Hp Hdir Hn. unfold throw_code in Hu. destruct (code =? 0) eqn:E0; [|done]. bool_prop. subst code.
  apply getNode_dir in Hp as Ep; [|done].
  destruct (lookup_found s c p pn x i s Hr Ep ltac:(congruence) Hl) as (_ & Hin & m & Hm & Hpar & Hx).
  assert (Hself : parent m <> i) by (apply (mayDelete_ok s c p x isdir i m Ht Hl Hm); by rewrite Hd).
  apply (removed_ok s c p pn i m x Hr Ht Ep Hm Hpar Hx); [congruence|by exists (hashName p x)].
Qed.

(** [chmod] keeps the kind of a node. *)
Lemma chmod_kind m mode : isDir (js_or (js_and m 4095) (js_and mode (-4096))) = isDir mode.
Proof.
  unfold isDir, fmt. f_equal. unfold js_and, js_or. apply Z.bits_inj'. intros i Hi. rewrite !Z.land_spec. change (to_int32 61440) with 61440.
  destruct (Z_lt_dec i 16) as [Hlt|Hge].
  - rewrite to_int32_testbit, Z.lor_spec, !to_int32_testbit, !Z.land_spec, !to_int32_testbit by lia. change (to_int32 4095) with 4095. change (to_int32 (-4096)) with (-4096).
    assert (Hc : i = 0 \/ i = 1 \/ i = 2 \/ i = 3 \/ i = 4 \/ i = 5 \/ i = 6 \/ i = 7 \/ i = 8 \/ i = 9 \/ i = 10 \/ i = 11 \/ i = 12 \/ i = 13 \/ i = 14 \/ i = 15) by lia.
    repeat (destruct Hc as [->|Hc]; [destruct (Z.testbit m _), (Z.testbit mode _); reflexivity|]). subst i. destruct (Z.testbit m _), (Z.testbit mode _); reflexivity.
  - replace (Z.testbit 61440 i) with false; [by rewrite !andb_false_r|]. symmetry. apply Z.bits_above_log2; [lia|]. change (Z.log2 61440) with 15. lia.
Qed.

Section Kept.
Variable stack : nat.

Lemma keeps_lookup_parent path : keeps (lookup_parent stack path).
Proof. unfold lookup_parent. keeps. Qed.
#[local] Hint Resolve keeps_lookup_parent : keepsdb.

Lemma keeps_mknod path mode dev : keeps (mknod stack path mode dev).
Proof. unfold mknod. do 3 (keeps_step; [keeps|]). apply keeps_create_only. Qed.
#[local] Hint Resolve keeps_mknod : keepsdb.

Lemma keeps_mkdir path mode : keeps (mkdir stack path mode).
Proof. apply keeps_mknod. Qed.
#[local] Hint Resolve keeps_mkdir : keepsdb.

Lemma keeps_symlink a b : keeps (symlink stack a b).
Proof. unfold symlink, memfs_symlink. keeps_step; [keeps|]. keeps_step; [keeps|]. do 2 (keeps_step; [keeps|]). apply keeps_create. intros. keeps. Qed.
#[local] Hint Resolve keeps_symlink : keepsdb.

Lemma mount_with_ok make_root mp s : tree_ok s -> tree_ok (snd (make_root s)) -> tree_ok (snd (mount_with stack make_root mp s)).
Proof.
  intros Hs Hroot. unfold mount_with. cbv zeta. same_state r Er; [done|]. same_state place Ep.
  { apply framed_state. framed. apply framed_lookupPath. }
  same_state m Em; [done|]. unfold bind at 1. destruct (make_root s) as [[i|e] s1]; [|done]. cbn [snd] in Hroot.
  refine ((_ : keeps _) s1 Hroot). keeps.
Qed.

Lemma keeps_mount mp : keeps (mount_memfs stack mp).
Proof. intros s Hs. apply mount_with_ok; [done|]. by apply root_createNode_ok. Qed.
#[local] Hint Resolve keeps_mount : keepsdb.

(** The number of a new node is taken, and numbers are never given back. *)
Definition numbered (s : fs) (r : result nat * fs) : Prop :=
  (nextInode s <= nextInode (snd r))%nat /\ forall i, fst r = Ok i -> (i < nextInode (snd r))%nat.

Lemma numbered_throw s e : numbered s (Throw e, s).
Proof. split; [cbn; lia|done]. Qed.

Lemma numbered_bind {A} (m : M A) (k : A -> M nat) s : snd (m s) = s -> (forall a, numbered s (k a s)) -> numbered s (bind m k s).
Proof. intros Hm Hk. unfold bind. destruct (m s) as [[a|e] s1]; cbn in Hm; subst s1; [apply Hk|apply numbered_throw]. Qed.

Lemma createNode_numbered p x mode rdev o s : numbered s (createNode p x mode rdev o s).
Proof.
  unfold createNode, bind at 1, gets at 1. apply numbered_bind; [destruct p; [apply framed_state; framed|done]|].
  intros m. set (n := {| parent := default (nextInode s) p |}). unfold bind at 1, modify at 1.
  unfold bind, hashAddNode, bind, gets, update_node, modify, getNode, ret. cbn [nodes]. rewrite lookup_insert_eq.
  split; cbn; [lia|]. intros i H. injection H as <-. lia.
Qed.

Lemma memfs_createNode_numbered p x mode dev s : numbered s (memfs_createNode p x mode dev s).
Proof.
  unfold memfs_createNode. destruct (_ || _); [apply numbered_throw|]. unfold bind. pose proof (createNode_numbered p x mode dev (ops_of_mode mode) s) as H.
  destruct (createNode _ _ _ _ _ s) as [[i|e] s1]; [|by apply H]. by destruct p.
Qed.

Lemma mkdir_numbered path mode s : numbered s (mkdir stack path mode s).
Proof.
  unfold mkdir, mknod. apply numbered_bind; [apply framed_state; unfold lookup_parent; framed; apply framed_lookupPath|intros r]. cbv zeta.
  destruct (is_dots _); [apply numbered_throw|]. apply numbered_bind; [by destruct r|intros p].
  apply numbered_bind; [apply framed_state, framed_mayCreate|intros code]. apply numbered_bind; [unfold throw_code; by destruct (code =? 0)|intros _].
  apply numbered_bind; [by eapply getNode_state, surjective_pairing|intros n]. destruct (negb _); [apply numbered_throw|apply memfs_createNode_numbered].
Qed.

Lemma keeps_special : keeps (createSpecialDirectories stack).
Proof.
  unfold createSpecialDirectories. keeps_step; [keeps|]. intros s Hs. unfold bind at 1.
  pose proof (keeps_mkdir (js "/proc/self") None s Hs) as H1. pose proof (proj2 (mkdir_numbered (js "/proc/self") None s)) as N1.
  destruct (mkdir stack (js "/proc/self") None s) as [[p|e] s1]; [|done]. cbn [fst snd] in H1, N1. unfold bind at 1.
  pose proof (keeps_mkdir (js "/proc/self/fd") None s1 H1) as H2. pose proof (proj1 (mkdir_numbered (js "/proc/self/fd") None s1)) as N2.
  destruct (mkdir stack (js "/proc/self/fd") None s1) as [[i|e] s2]; [|done]. cbn [snd] in H2, N2. specialize (N1 p eq_refl).
  unfold bind. set (root_node := createNode _ _ _ _ _). pose proof (mount_with_ok root_node (js "/proc/self/fd") s2 H2) as H3.
  assert (Hroot : tree_ok (snd (root_node s2))) by (apply fd_root_createNode_ok; [done|lia]).
  specialize (H3 Hroot). by destruct (mount_with stack root_node (js "/proc/self/fd") s2) as [[k|e] s3].
Qed.

Lemma keeps_unlink path : keeps (unlink stack path).
Proof.
  intros s Hs. unfold unlink, memfs_unlink. same_state r Er; [apply framed_state; unfold lookup_parent; framed; apply framed_lookupPath|].
  same_state p Ep; [by destruct r|]. cbv zeta. same_state i Hl; [apply framed_state, framed_lookupNode|].
  same_state code Hd; [apply framed_state, framed_mayDelete|]. same_state u Hu; [unfold throw_code; by destruct (code =? 0)|].
  same_state pn Hp; [by eapply getNode_state, surjective_pairing|]. destruct (bool_decide (node_ops pn = DirOps)) eqn:Ed; cbn [negb]; [|done]. bool_prop.
  same_state n Hn; [by eapply getNode_state, surjective_pairing|]. destruct (bool_decide _); [done|].
  by eapply delete_checked.
Qed.

Lemma keeps_rmdir path : keeps (rmdir stack path).
Proof.
  intros s Hs. unfold rmdir. same_state r Er; [apply framed_state; unfold lookup_parent; framed; apply framed_lookupPath|].
  cbv zeta. same_state p Ep; [by destruct r|]. same_state i Hl; [apply framed_state, framed_lookupNode|].
  same_state code Hd; [apply framed_state, framed_mayDelete|]. same_state u Hu; [unfold throw_code; by destruct (code =? 0)|].
  same_state pn Hp; [by eapply getNode_state, surjective_pairing|]. destruct (bool_decide (node_ops pn = DirOps)) eqn:Ed; cbn [negb]; [|done]. bool_prop.
  same_state n Hn; [by eapply getNode_state, surjective_pairing|]. destruct (bool_decide _); [done|].
  unfold memfs_rmdir. rewrite bind_assoc. same_state j Hj; [apply framed_state, framed_lookupNode|].
  rewrite bind_assoc. same_state l El; [by apply entries_of_state|]. destruct (negb (bool_decide (l = []))); [done|].
  by eapply delete_checked.
Qed.
#[local] Hint Resolve keeps_unlink keeps_rmdir : keepsdb.

Lemma keeps_create_file path mode : keeps (create stack path mode).
Proof. apply keeps_mknod. Qed.

Lemma keeps_mkdir_parts d dirs mode : keeps (mkdir_parts stack d dirs mode).
Proof. revert d. induction dirs as [|[|x l] dirs IH]; intros d; cbn [mkdir_parts]; [apply keeps_ret|apply IH|]. keeps_step; [keeps|apply IH]. Qed.

Lemma keeps_node_of t b : keeps (node_of stack t b).
Proof. unfold node_of. keeps. Qed.
#[local] Hint Resolve keeps_create_file keeps_mkdir_parts keeps_node_of : keepsdb.

Lemma keeps_chmod t m b : keeps (chmod stack t m b).
Proof.
  unfold chmod. keeps_step; [keeps|]. keeps_step; [keeps|]. destruct (negb _); [keeps|]. apply keeps_update. intros n. split; [|done].
  unfold shape. cbn. by rewrite chmod_kind.
Qed.

Lemma keeps_truncate t len : keeps (truncate stack t len).
Proof. unfold truncate, setattr_size. keeps. Qed.
#[local] Hint Resolve keeps_chmod keeps_truncate : keepsdb.

Lemma keeps_createStream st a b : keeps (createStream st a b).
Proof. unfold createStream, nextfd. keeps. Qed.

Lemma keeps_dev_open sid dev : keeps (dev_open sid dev).
Proof. unfold dev_open, tty_open, update_stream. keeps. Qed.

Lemma keeps_mayOpen i flags : keeps (mayOpen i flags).
Proof. unfold mayOpen. keeps. Qed.
#[local] Hint Resolve keeps_createStream keeps_dev_open keeps_mayOpen : keepsdb.

Lemma keeps_open t flags mode a b : keeps (open stack t flags mode a b).
Proof. unfold open, open_lookup, open_node. keeps. Qed.

Lemma keeps_close sid : keeps (close sid).
Proof. unfold close, dev_close, update_stream. keeps. Qed.

Lemma keeps_llseek sid offset whence : keeps (llseek sid offset whence).
Proof. unfold llseek, update_stream. keeps. Qed.
#[local] Hint Resolve keeps_open keeps_close keeps_llseek : keepsdb.

Lemma keeps_read_into sid buffer offset len position : keeps (read_into sid buffer offset len position).
Proof. unfold read_into, dev_read, update_stream. keeps. Qed.
#[local] Hint Resolve keeps_read_into : keepsdb.

Lemma keeps_read sid buffer offset len position : keeps (read sid buffer offset len position).
Proof. unfold read. keeps. Qed.

Lemma keeps_write sid k buffer offset len position own : keeps (write sid k buffer offset len position own).
Proof. unfold write, dev_write, update_stream. keeps. Qed.

Lemma keeps_stat path b : keeps (stat stack path b).
Proof. unfold stat, getattr. keeps. Qed.
#[local] Hint Resolve keeps_read keeps_write keeps_stat : keepsdb.

Lemma keeps_readFile path : keeps (readFile stack path).
Proof. unfold readFile. keeps. Qed.

Lemma keeps_writeFile path d mode : keeps (writeFile stack path d mode).
Proof. unfold writeFile. keeps. Qed.

Lemma keeps_chdir path : keeps (chdir stack path).
Proof. unfold chdir. keeps. Qed.

Lemma keeps_registerDevice dev o : keeps (registerDevice dev o).
Proof. unfold registerDevice. keeps. Qed.

Lemma keeps_register_tty dev k : keeps (register_tty dev k).
Proof. unfold register_tty. keeps. apply keeps_registerDevice. Qed.

Lemma keeps_createDevice p x i o : keeps (createDevice stack p x i o).
Proof. unfold createDevice, parent_path, mkdev. keeps; apply keeps_registerDevice. Qed.
End Kept.

(** ** Any sequence of operations *)

Inductive fs_op :=
| OpMount (mp : jsstr)
| OpSpecialDirectories
| OpMknod (path : jsstr) (mode dev : Z)
| OpMkdirTree (path : jsstr) (mode : option Z)
| OpSymlink (oldpath newpath : jsstr)
| OpUnlink (path : jsstr)
| OpRmdir (path : jsstr)
| OpChmod (t : target) (m : Z) (dontFollow : bool)
| OpTruncate (t : target) (len : Z)
| OpOpen (t : target) (flags : Z) (mode : option Z) (fd_start fd_end : Z)
| OpClose (sid : nat)
| OpSeek (sid : nat) (offset whence : Z)
| OpRead (sid : nat) (buffer : list Z) (offset length : Z) (position : option Z)
| OpWrite (sid : nat) (k : array_kind) (buffer : list Z) (offset length : Z) (position : option Z) (canOwn : bool)
| OpReadFile (path : jsstr)
| OpWriteFile (path : jsstr) (bytes : list Z) (mode : option Z)
| OpChdir (path : jsstr)
| OpRegisterTty (dev : Z) (k : tty_ops)
| OpCreateDevice (parent : target) (name : jsstr) (input output : option nat).

(** The effect of an operation, whatever it returns or throws. *)
Definition exec_op (stack : nat) (o : fs_op) (s : fs) : fs :=
  match o with
  | OpMount mp => snd (mount_memfs stack mp s)
  | OpSpecialDirectories => snd (createSpecialDirectories stack s)
  | OpMknod path mode dev => snd (mknod stack path mode dev s)
  | OpMkdirTree path mode => snd (mkdirTree stack path mode s)
  | OpSymlink a b => snd (symlink stack a b s)
  | OpUnlink path => snd (unlink stack path s)
  | OpRmdir path => snd (rmdir stack path s)
  | OpChmod t m b => snd (chmod stack t m b s)
  | OpTruncate t len => snd (truncate stack t len s)
  | OpOpen t flags mode a b => snd (open stack t flags mode a b s)
  | OpClose sid => snd (close sid s)
  | OpSeek sid offset whence => snd (llseek sid offset whence s)
  | OpRead sid buffer offset len position => snd (read sid buffer offset len position s)
  | OpWrite sid k buffer offset len position own => snd (write sid k buffer offset len position own s)
  | OpReadFile path => snd (readFile stack path s)
  | OpWriteFile path bytes mode => snd (writeFile stack path bytes mode s)
  | OpChdir path => snd (chdir stack path s)
  | OpRegisterTty dev k => snd (register_tty dev k s)
  | OpCreateDevice p x i o => snd (createDevice stack p x i o s)
  end.

Definition run_ops (stack : nat) (ops : list fs_op) : fs := fold_left (fun s o => exec_op stack o s) ops fs_init.

Lemma exec_op_ok stack o s : tree_ok s -> tree_ok (exec_op stack o s).
Proof.
  intros Hs. destruct o; cbn [exec_op].
  - by apply keeps_mount. - by apply keeps_special. - by apply keeps_mknod. - by apply keeps_mkdir_parts. - by apply keeps_symlink. - by apply keeps_unlink. - by apply keeps_rmdir.
  - by apply keeps_chmod. - by apply keeps_truncate. - by apply keeps_open. - by apply keeps_close. - by apply keeps_llseek. - by apply keeps_read.
  - by apply keeps_write. - by apply keeps_readFile. - by apply keeps_writeFile. - by apply keeps_chdir. - by apply keeps_register_tty. - by apply keeps_createDevice.
Qed.

Lemma init_ok : tree_ok fs_init.
Proof.
  exists (fun _ => []). split.
  - intros h. split; [|split; constructor]. cbn. rewrite lookup_empty. constructor.
  - split; intros *; cbn; rewrite ?lookup_empty; try done.
Qed.

Lemma run_ops_ok stack ops : tree_ok (run_ops stack ops).
Proof.
  unfold run_ops. generalize init_ok. generalize fs_init. induction ops as [|o ops IH]; intros s H; cbn; [done|].
  apply IH. by apply exec_op_ok.
Qed.

(** The entry of a directory with this name. *)
Fixpoint entry_of (l : list (jsstr * nat)) (x : jsstr) : option nat :=
  match l with
  | [] => None
  | (y, i) :: l' => if str_eqb y x then Some i else entry_of l' x
  end.

Lemma entry_of_some l x i : entry_of l x = Some i -> (x, i) ∈ l.
Proof.
  induction l as [|[y j] l IH]; cbn; [done|]. destruct (str_eqb y x) eqn:E; intros H.
  - apply str_eqb_eq in E. subst y. injection H as ->. by apply elem_of_cons; left.
  - apply elem_of_cons. right. by apply IH.
Qed.

Lemma entry_of_none l x i : entry_of l x = None -> (x, i) ∉ l.
Proof.
  induction l as [|[y j] l IH]; cbn; intros H Hin; [by apply not_elem_of_nil in Hin|]. destruct (str_eqb y x) eqn:E; [done|].
  apply elem_of_cons in Hin as [Hin|Hin]; [|by apply IH]. injection Hin as -> ->. by rewrite str_eqb_refl in E.
Qed.

Lemma lookup_agrees s d n x :
  tree_ok s -> nodes s !! d = Some n -> fst (mayLookup d s) = Ok 0 -> x <> [slash] -> ~ doubled (nodes s) d x ->
  lookupNode d x s = match entry_of (entries n) x with
                     | Some i => (Ok i, s)
                     | None => if bool_decide (node_ops n = FdDirOps) then fd_lookup x s else (Throw (ErrnoError 44), s)
                     end.
Proof.
  intros (c & Hr & Ht) Hd Hm Hx Hndb. rewrite (lookupNode_run s c) by done. rewrite Hm. cbn [Z.eqb negb].
  destruct (head _) as [j|] eqn:Ej.
  - apply table_head in Ej as (Hin & m & Hjm & Hp & Hnm).
    assert (Hne : parent m <> j). { intros E. destruct (tr_root _ _ _ Ht j m Hjm E) as [Hroot _]. congruence. }
    destruct (tr_live _ _ _ Ht j m ltac:(by exists (hashName d x)) Hjm Hne) as [Hdb|(n' & Hn' & Hent)]; rewrite Hp, Hnm in *; [done|]. replace n' with n in Hent by congruence.
    destruct (entry_of (entries n) x) as [i|] eqn:E; [|by apply (entry_of_none _ _ j) in E].
    apply entry_of_some in E. do 2 f_equal. by apply (entry_unique (entries n) x); [apply (tr_keys _ _ _ Ht d n Hd)| |].
  - destruct (entry_of (entries n) x) as [i|] eqn:E.
    + apply entry_of_some in E. destruct (entry_in_table s c d n x i Hr Ht Hd E Hndb) as [j Hj]. congruence.
    + unfold node_lookup, bind, getNode. rewrite Hd. by destruct (bool_decide _).
Qed.

(** C25. Lookups agree with directories.  After any sequence of the operations of
    [fs_op] (mounting, making nodes, directories, links and devices, removing them,
    changing modes, truncating, opening, closing, reading, writing, seeking, changing
    the directory), including those that fail halfway, a lookup in a directory that
    may be searched finds exactly the entry of that name, or what [/proc/self/fd]
    makes of it there, every entry is a node that knows this directory as its parent
    and this name as its own, and no name occurs twice.  Two names are left out: a slash,
    which is that of roots, and the name of a mount like [/proc/self/fd] itself, which
    two nodes have.  ([rename] and [unmount] are not among the operations; [rename]
    breaks the agreement.) *)
Theorem lookups_agree_with_directories (stack : nat) (ops : list fs_op) (d : nat) (n : node) (x : jsstr) :
  let s := run_ops stack ops in
  nodes s !! d = Some n -> fst (mayLookup d s) = Ok 0 -> x <> [slash] -> ~ doubled (nodes s) d x ->
  lookupNode d x s = match entry_of (entries n) x with
                     | Some i => (Ok i, s)
                     | None => if bool_decide (node_ops n = FdDirOps) then fd_lookup x s else (Throw (ErrnoError 44), s)
                     end
  /\ (forall i, entry_of (entries n) x = Some i -> exists m, nodes s !! i = Some m /\ parent m = d /\ name m = x)
  /\ NoDup (map fst (entries n)).
Proof.
  intros s Hd Hm Hx Hndb. pose proof (run_ops_ok stack ops) as Hs.
  split; [by apply lookup_agrees|]. destruct Hs as (c & Hr & Ht). split; [|by apply (tr_keys _ _ _ Ht d n)].
  intros i Hi. apply entry_of_some in Hi. destruct (tr_entry _ _ _ Ht d n x i Hd Hi) as (m & ? & ? & ? & _). by exists m.
Qed.

(** The special directories, and a directory with a file, a link to it that is removed again, and a directory below. *)
Definition sample_ops : list fs_op :=
  [OpMount (js "/"); OpSpecialDirectories; OpMkdirTree (js "/a/b") None; OpWriteFile (js "/a/f") [1; 2] None; OpSymlink (js "/a/f") (js "/a/l"); OpUnlink (js "/a/l");
   OpMknod (js "/a/f") 33188 0; OpRmdir (js "/a")].
Definition sample_dir : node :=
  default {| parent := 0; mount_of := None; mounted := None; name := []; mode := 0; rdev := 0; node_ops := NoOps; entries := []; file := new_file;
             link := []; name_next := None |} (nodes (run_ops 10 sample_ops) !! 6%nat).

Theorem lookups_agree_witness :
  lookupNode 6 (js "f") (run_ops 10 sample_ops) = (Ok 8%nat, run_ops 10 sample_ops)
  /\ (forall i, Some 8%nat = Some i -> exists m, nodes (run_ops 10 sample_ops) !! i = Some m /\ parent m = 6%nat /\ name m = js "f")
  /\ NoDup [js "b"; js "f"].
Proof.
  assert (E1 : entry_of (entries sample_dir) (js "f") = Some 8%nat) by (vm_compute; reflexivity).
  assert (E2 : map fst (entries sample_dir) = [js "b"; js "f"]) by (vm_compute; reflexivity).
  pose proof (lookups_agree_with_directories 10 sample_ops 6 sample_dir (js "f") ltac:(vm_compute; reflexivity) ltac:(vm_compute; reflexivity) ltac:(discriminate)
                ltac:(apply (bool_decide_eq_false_1 _); vm_compute; reflexivity)) as H.
  rewrite E1, E2 in H. exact H.
Defined.
