(* ===== verification/OpusLazy.v ===== *)
(** * Files loaded on demand
      ([integrations/lan-remote-access/rustdesk-web-open/libopus.js], [FS.createLazyFile])

    A lazy file has an array that fetches its contents with synchronous requests, in
    chunks when the server serves ranges, the first time a byte of the chunk is read.
    The server is a parameter: its answer to each request, which may change from one
    request to the next.  Reading is proved to give what reading the plain bytes gives,
    with every chunk requested at most once. *)

From stdpp Require Import base list numbers strings gmap.
From Stdlib Require Import ZArith Lia.
From S2P Require Import Prelude JsString OpusText OpusValue OpusMemfs OpusNode OpusFs OpusDevices OpusFsApi.
Local Open Scope Z_scope.

(** ** Requests *)

(** [Content-length] as a number; missing, or no number, is as good as [0] for the code. *)
Record head := { h_status : Z; h_length : Z; h_ranges : bool; h_gzip : bool }.

(** [response] is [None] where [xhr.response] is [undefined]; [null] is the empty array. *)
Record xhr_answer := { b_status : Z; response : option (list Z); responseText : jsstr }.

Inductive xhr_request := HEAD | GET (range : option (Z * Z)).

(** The answers to the request with the given number; [None] is a request that [send] throws for. *)
Class Server := { head_answer : nat -> option head; get_answer : nat -> option (Z * Z) -> option xhr_answer }.

Definition good_status (s : Z) : bool := (200 <=? s) && (s <? 300) || (s =? 304).

(** ** [LazyUint8Array] *)

(** The variables [datalength] and [chunkSize] that the data getter closes over. *)
Record closure := { datalength : Z; cl_chunkSize : Z }.

Record lazy_array := {
  lengthKnown : bool;
  _length : Z;
  _chunkSize : Z;
  chunks : gmap Z (list Z);
  getter : option closure;
  requests : list xhr_request        (* what was sent, latest first *)
}.

Definition new_lazy : lazy_array :=
  {| lengthKnown := false; _length := 0; _chunkSize := 0; chunks := empty; getter := None; requests := [] |}.

Definition L (A : Type) : Type := lazy_array -> result A * lazy_array.

Definition lret {A} (a : A) : L A := fun s => (Ok a, s).
Definition lthrow {A} (e : jserror) : L A := fun s => (Throw e, s).
Definition lbind {A B} (m : L A) (k : A -> L B) : L B :=
  fun s => match m s with (Ok a, s) => k a s | (Throw e, s) => (Throw e, s) end.

Local Notation "'let!!' x := m 'in' k" := (lbind m (fun x => k)) (at level 10, x pattern, m at level 100, k at level 200).

Section Array.
Context `{Server}.
Variable url : jsstr.

Definition couldnt_load (status : Z) : jserror := ErrorMsg (js "Couldn't load " ++ url ++ js ". Status: " ++ string_of_Z status).

Definition send {A} (r : xhr_request) (answer : nat -> option A) : L A := fun s =>
  let s' := {| lengthKnown := lengthKnown s; _length := _length s; _chunkSize := _chunkSize s; chunks := chunks s; getter := getter s;
               requests := r :: requests s |} in
  match answer (length (requests s)) with
  | Some a => (Ok a, s')
  | None => (Throw (PlatformError "NetworkError"), s')
  end.

Definition doXHR (c : closure) (from to : Z) : L (list Z) :=
  if to <? from then lthrow (ErrorMsg (js "invalid range (" ++ string_of_Z from ++ js ", " ++ string_of_Z to ++ js ") or no bytes requested!"))
  else if datalength c - 1 <? to then lthrow (ErrorMsg (js "only " ++ string_of_Z (datalength c) ++ js " bytes available! programmer error!"))
  else
    let range := if datalength c =? cl_chunkSize c then None else Some (from, to) in
    let!! b := send (GET range) (fun n => get_answer n range) in
    if negb (good_status (b_status b)) then lthrow (couldnt_load (b_status b))
    else lret (match response b with Some bytes => bytes | None => intArrayFromString (responseText b) true end).

Definition set_chunk (k : Z) (bytes : list Z) (s : lazy_array) : lazy_array :=
  {| lengthKnown := lengthKnown s; _length := _length s; _chunkSize := _chunkSize s; chunks := <[k := bytes]> (chunks s); getter := getter s;
     requests := requests s |}.

(** The function given to [setDataGetter]. *)
Definition get_chunk (c : closure) (chunkNum : Z) : L (list Z) := fun s =>
  let start := chunkNum * cl_chunkSize c in
  let last := Z.min ((chunkNum + 1) * cl_chunkSize c - 1) (datalength c - 1) in
  match chunks s !! chunkNum with
  | Some bytes => (Ok bytes, s)
  | None => (let!! bytes := doXHR c start last in fun s => (Ok bytes, set_chunk chunkNum bytes s)) s
  end.

Definition set_getter (c : closure) : L unit := fun s =>
  (Ok tt, {| lengthKnown := lengthKnown s; _length := _length s; _chunkSize := _chunkSize s; chunks := chunks s; getter := Some c; requests := requests s |}).

Definition set_length (c : closure) : L unit := fun s =>
  (Ok tt, {| lengthKnown := true; _length := datalength c; _chunkSize := cl_chunkSize c; chunks := chunks s; getter := getter s; requests := requests s |}).

Definition cacheLength : L unit :=
  let!! h := send HEAD head_answer in
  if negb (good_status (h_status h)) then lthrow (couldnt_load (h_status h))
  else
    let chunkSize := if h_ranges h then 1024 * 1024 else h_length h in
    let c := {| datalength := h_length h; cl_chunkSize := chunkSize |} in
    let!! _ := set_getter c in
    if h_gzip h || (h_length h =? 0) then
      let one := {| datalength := 1; cl_chunkSize := 1 |} in
      let!! _ := set_getter one in
      let!! whole := get_chunk one 0 in
      let n := Z.of_nat (length whole) in
      let c := {| datalength := n; cl_chunkSize := n |} in
      let!! _ := set_getter c in
      set_length c
    else set_length c.

(** The properties [length] and [chunkSize]. *)
Definition length_property : L Z := fun s => if lengthKnown s then (Ok (_length s), s) else (let!! _ := cacheLength in fun s => (Ok (_length s), s)) s.
Definition chunkSize_property : L Z := fun s => if lengthKnown s then (Ok (_chunkSize s), s) else (let!! _ := cacheLength in fun s => (Ok (_chunkSize s), s)) s.

(** [this.getter], which [cacheLength] has set. *)
Definition call_getter (chunkNum : Z) : L (list Z) := fun s =>
  match getter s with Some c => get_chunk c chunkNum s | None => (Throw type_error, s) end.

Definition lazy_get (idx : Z) : L (option Z) :=
  let!! len := length_property in
  if (len - 1 <? idx) || (idx <? 0) then lret None
  else
    let!! size := chunkSize_property in
    let chunkOffset := Z.rem idx size in
    let chunkNum := to_int32 (Z.quot idx size) in
    let!! chunk := call_getter chunkNum in
    lret (chunk !! Z.to_nat chunkOffset).

(** ** Reading *)

(** The loop of [stream_ops.read] into a typed array, where [undefined] is stored as [0]. *)
Fixpoint read_lazy (n : nat) (buffer : mem) (i pos : Z) (s : lazy_array) : (mem * result unit) * lazy_array :=
  match n with
  | O => ((buffer, Ok tt), s)
  | S n =>
      match lazy_get pos s with
      | (Ok v, s) => read_lazy n (store8 buffer i (default 0 v)) (i + 1) (pos + 1) s
      | (Throw e, s) => ((buffer, Throw e), s)
      end
  end.

(** What a node created by [createLazyFile] holds: the lazy array, or, where there is no [XMLHttpRequest], the
    array that [forceLoadFile] makes of what [read_] gives. *)
Inductive lazy_contents := LazyArray (a : lazy_array) | NotLoaded | Loaded (bytes : list Z).

(** [read_] of the shell; [None] where there is neither. *)
Definition forceLoadFile (XMLHttpRequest : bool) (read_ : option (jsstr -> result jsstr)) (obj : lazy_contents) : result lazy_contents :=
  match obj with
  | LazyArray _ | Loaded _ => Ok obj
  | NotLoaded =>
      if XMLHttpRequest then
        Throw (ErrorMsg (js "Lazy loading should have been performed (contents set) in createLazyFile, but it was not. Lazy loading only works in web workers. Use --embed-file or --preload-file in emcc on the main thread."))
      else match read_ with
      | Some f => match f url with Ok text => Ok (Loaded (intArrayFromString text true)) | Throw _ => Throw (ErrnoError 29) end
      | None => Throw (ErrorMsg (js "Cannot load without read() or XMLHttpRequest."))
      end
  end.

(** The copying loop from an ordinary array. *)
Fixpoint read_plain (n : nat) (buffer : mem) (i : Z) (bytes : list Z) (pos : Z) : mem :=
  match n with
  | O => buffer
  | S n => read_plain n (store8 buffer i (num8 bytes pos)) (i + 1) bytes (pos + 1)
  end.

(** [stream_ops.read] of a lazy file, with the buffer as it is when the call ends. *)
Definition lazy_read (XMLHttpRequest : bool) (read_ : option (jsstr -> result jsstr)) (obj : lazy_contents)
    (buffer : mem) (offset len position : Z) : (mem * result Z) * lazy_contents :=
  match forceLoadFile XMLHttpRequest read_ obj with
  | Throw e => ((buffer, Throw e), obj)
  | Ok (LazyArray a) =>
      match length_property a with
      | (Throw e, a) => ((buffer, Throw e), LazyArray a)
      | (Ok n, a) =>
          if n <=? position then ((buffer, Ok 0), LazyArray a)
          else
            let size := Z.min (n - position) len in
            if size <? 0 then ((buffer, Throw aborted), LazyArray a)
            else match read_lazy (Z.to_nat size) buffer offset position a with
                 | ((buffer, Ok _), a) => ((buffer, Ok size), LazyArray a)
                 | ((buffer, Throw e), a) => ((buffer, Throw e), LazyArray a)
                 end
      end
  | Ok (Loaded bytes) =>
      let n := Z.of_nat (length bytes) in
      if n <=? position then ((buffer, Ok 0), Loaded bytes)
      else
        let size := Z.min (n - position) len in
        if size <? 0 then ((buffer, Throw aborted), Loaded bytes)
        else ((read_plain (Z.to_nat size) buffer offset bytes position, Ok size), Loaded bytes)
  | Ok NotLoaded => ((buffer, Throw type_error), obj)
  end.

(** [usedBytes] of the node, read each time; a file that is not loaded has [null] contents. *)
Definition usedBytes (obj : lazy_contents) : result Z * lazy_contents :=
  match obj with
  | LazyArray a => let '(r, a) := length_property a in (r, LazyArray a)
  | Loaded bytes => (Ok (Z.of_nat (length bytes)), obj)
  | NotLoaded => (Throw type_error, obj)
  end.

End Array.

(** [createLazyFile] with a URL that is not empty: the node and what it holds.  The first error is thrown as a text. *)
Definition createLazyFile (stack : nat) (XMLHttpRequest worker : bool) (parent : target) (name : jsstr) (canRead canWrite : bool) : M (nat * lazy_contents) :=
  if XMLHttpRequest && negb worker then
    raise (ErrorMsg (js "Cannot do synchronous binary XHRs outside webworkers in modern browsers. Use --embed-file or --preload-file in emcc"))
  else
    bind (createFile stack parent name canRead canWrite) (fun i => ret (i, if XMLHttpRequest then LazyArray new_lazy else NotLoaded)).

(** ** A server that serves a file *)

Definition slice (data : list Z) (a n : Z) : list Z := take (Z.to_nat n) (drop (Z.to_nat a) data).

Section Serving.
Context `{Server}.
Variable url : jsstr.
Variable data : list Z.
Let size : Z := Z.of_nat (length data).

(** What is relied on: requests succeed; the length is right, or missing, or the answer is compressed; a range that was asked for is what is answered. *)
Record serves : Prop := {
  serves_head : forall n, exists h, head_answer n = Some h /\ good_status (h_status h) = true
                  /\ (h_length h = size \/ h_length h = 0 \/ h_gzip h = true);
  serves_whole : forall n, exists b, get_answer n None = Some b /\ good_status (b_status b) = true /\ response b = Some data;
  serves_range : forall n a e, 0 <= a <= e -> e < size ->
                   exists b, get_answer n (Some (a, e)) = Some b /\ good_status (b_status b) = true /\ response b = Some (slice data a (e - a + 1))
}.

(** The range requested for a chunk. *)
Definition range_of (cs k : Z) : option (Z * Z) :=
  if size =? cs then None else Some (k * cs, Z.min ((k + 1) * cs - 1) (size - 1)).

Record loaded (s : lazy_array) : Prop := {
  ld_known : lengthKnown s = true;
  ld_length : _length s = size;
  ld_size : _chunkSize s = size \/ _chunkSize s = 1024 * 1024;
  ld_getter : getter s = Some {| datalength := size; cl_chunkSize := _chunkSize s |};
  ld_chunks : forall k c, chunks s !! k = Some c -> 0 <= k /\ (k = 0 \/ k * _chunkSize s < size) /\ c = slice data (k * _chunkSize s) (_chunkSize s);
  ld_once : NoDup (requests s);
  ld_requests : forall r, r ∈ requests s -> r = HEAD \/ exists k, is_Some (chunks s !! k) /\ r = GET (range_of (_chunkSize s) k)
}.

Definition ready (s : lazy_array) : Prop := s = new_lazy \/ loaded s.

Hypothesis Hserves : serves.

Lemma slice_whole : slice data 0 size = data.
Proof. unfold slice, size. rewrite Nat2Z.id. apply firstn_all. Qed.

Lemma slice_cut a n : 0 <= a -> 0 <= n -> slice data a n = slice data a (Z.min n (size - a)).
Proof.
  intros Ha Hn. unfold slice. destruct (Z_le_gt_dec n (size - a)); [by rewrite Z.min_l by lia|].
  rewrite !take_ge by (rewrite length_drop; unfold size in *; lia). done.
Qed.

Lemma range_of_inj cs k k' : 0 <= k -> 0 <= k' -> (k = 0 \/ k * cs < size) -> (k' = 0 \/ k' * cs < size) -> 0 < cs ->
  range_of cs k = range_of cs k' -> k = k'.
Proof. unfold range_of. intros H1 H2 H3 H4 Hc. destruct (Z.eqb_spec size cs) as [->|]; [nia|]. intros [= E _]. nia. Qed.

Lemma send_ok {A} r (answer : nat -> option A) (P : A -> Prop) s : (forall n, exists a, answer n = Some a /\ P a) ->
  exists a, send r answer s = (Ok a, {| lengthKnown := lengthKnown s; _length := _length s; _chunkSize := _chunkSize s; chunks := chunks s;
                                        getter := getter s; requests := r :: requests s |}) /\ P a.
Proof. intros Ha. unfold send. destruct (Ha (length (requests s))) as (a & -> & ?). by exists a. Qed.

(** Fetching a chunk the closure has no data for. *)
Lemma doXHR_ok c from to s : 0 <= from <= to -> to <= datalength c - 1 -> (datalength c <> cl_chunkSize c -> datalength c = size) ->
  let range := if datalength c =? cl_chunkSize c then None else Some (from, to) in
  doXHR url c from to s =
    (Ok (if datalength c =? cl_chunkSize c then data else slice data from (to - from + 1)),
     {| lengthKnown := lengthKnown s; _length := _length s; _chunkSize := _chunkSize s; chunks := chunks s;
        getter := getter s; requests := GET range :: requests s |}).
Proof.
  intros Hf Ht Hd range. subst range. unfold doXHR. rewrite (proj2 (Z.ltb_ge to from)), (proj2 (Z.ltb_ge _ to)) by lia. cbv zeta. unfold lbind.
  destruct (Z.eqb_spec (datalength c) (cl_chunkSize c)) as [E|E].
  - destruct (send_ok (GET None) (fun n => get_answer n None) (fun b => good_status (b_status b) = true /\ response b = Some data) s
      (serves_whole Hserves)) as (b & -> & -> & ->). done.
  - destruct (send_ok (GET (Some (from, to))) (fun n => get_answer n (Some (from, to)))
      (fun b => good_status (b_status b) = true /\ response b = Some (slice data from (to - from + 1))) s) as (b & -> & -> & ->); [|done].
    intros n. apply (serves_range Hserves); [done|]. rewrite <- Hd by done. lia.
Qed.

Lemma get_chunk_loaded s k : loaded s -> 0 <= k -> k * _chunkSize s < size -> 0 < _chunkSize s ->
  exists s', get_chunk url {| datalength := size; cl_chunkSize := _chunkSize s |} k s = (Ok (slice data (k * _chunkSize s) (_chunkSize s)), s')
    /\ loaded s' /\ _chunkSize s' = _chunkSize s.
Proof.
  intros [Hk Hl Hs Hg Hc Hn Hr] Hk0 Hks Hcs. unfold get_chunk. cbn [datalength cl_chunkSize]. destruct (chunks s !! k) as [c|] eqn:E.
  { exists s. destruct (Hc k c E) as (_ & _ & ->). split; [done|]. split; [by constructor|done]. }
  unfold lbind. rewrite doXHR_ok by (cbn; lia). cbn [datalength cl_chunkSize]. set (cs := _chunkSize s) in *.
  assert (Hslice : (if size =? cs then data else slice data (k * cs) (Z.min ((k + 1) * cs - 1) (size - 1) - k * cs + 1)) = slice data (k * cs) cs).
  { destruct (Z.eqb_spec size cs) as [Heq|]; [assert (k = 0) as -> by nia; rewrite Z.mul_0_l, <- Heq; symmetry; apply slice_whole|].
    rewrite (slice_cut (k * cs) cs) by lia. f_equal. lia. }
  rewrite Hslice. fold (range_of cs k). eexists. split; [reflexivity|]. split; [|done].
  split; cbn [lengthKnown _length _chunkSize chunks getter requests set_chunk]; try done.
  - intros j d. rewrite lookup_insert_Some. intros [[<- <-]|[Hne Hj]]; [auto|by apply Hc].
  - constructor; [|done]. intros Hin. destruct (Hr _ Hin) as [|(j & [d Hj] & [= Ej])]; [done|].
    destruct (Hc j d Hj) as (Hj0 & Hjs & _). apply range_of_inj in Ej; [subst; congruence|lia..| |lia|lia]. by right.
  - intros r. rewrite elem_of_cons. intros [->|Hin]; [right; exists k; rewrite lookup_insert_eq; eauto|].
    destruct (Hr r Hin) as [|(j & Hj & ->)]; [by left|]. right. exists j. split; [|done].
    destruct (decide (j = k)) as [->|]; [rewrite lookup_insert_eq; eauto | by rewrite lookup_insert_ne by done].
Qed.

Lemma cacheLength_loads : exists s', cacheLength url new_lazy = (Ok tt, s') /\ loaded s'.
Proof.
  unfold cacheLength. unfold lbind at 1.
  destruct (send_ok HEAD head_answer (fun h => good_status (h_status h) = true /\ (h_length h = size \/ h_length h = 0 \/ h_gzip h = true)) new_lazy
    (serves_head Hserves)) as (h & -> & -> & Hh). cbn [negb].
  destruct (h_gzip h || (h_length h =? 0)) eqn:Eg.
  - unfold lbind, set_getter, set_length, get_chunk. cbn [chunks datalength cl_chunkSize new_lazy]. rewrite lookup_empty.
    unfold lbind. rewrite doXHR_ok by (cbn; lia). cbn. eexists. split; [reflexivity|].
    split; cbn [lengthKnown _length _chunkSize chunks getter requests set_chunk]; try done; [by left| | |].
    + intros k c. rewrite lookup_insert_Some, lookup_empty. intros [[<- <-]|[_ ?]]; [|done]. split; [done|]. split; [by left|]. symmetry. apply slice_whole.
    + repeat constructor; set_solver.
    + intros r. rewrite !elem_of_cons, elem_of_nil. intros [->|[->|[]]]; [|by left]. right. exists 0. rewrite lookup_insert_eq. split; [eauto|].
      unfold range_of. fold size. by rewrite Z.eqb_refl.
  - bool_prop. destruct Hh as [Hh|[?|?]]; [|lia|congruence]. unfold lbind, set_getter, set_length. cbn. eexists. split; [reflexivity|].
    split; cbn [lengthKnown _length _chunkSize chunks getter requests new_lazy]; rewrite ?Hh; try done.
    + destruct (h_ranges h); auto.
    + repeat constructor; set_solver.
    + intros r. rewrite elem_of_cons, elem_of_nil. intros [->|[]]. by left.
Qed.

Lemma length_property_ready s : ready s -> exists s', length_property url s = (Ok size, s') /\ loaded s'.
Proof.
  intros [->|Hs]; unfold length_property.
  - cbn [lengthKnown new_lazy]. unfold lbind. destruct cacheLength_loads as (s' & -> & Hs). exists s'. rewrite (ld_length _ Hs). done.
  - rewrite (ld_known _ Hs), (ld_length _ Hs). by exists s.
Qed.

Hypothesis Hsize : size < 2 ^ 51.

Lemma lazy_get_loaded s idx : loaded s -> 0 <= idx < size -> exists s', lazy_get url idx s = (Ok (data !! Z.to_nat idx), s') /\ loaded s'.
Proof.
  intros Hs Hi. unfold lazy_get, lbind at 1. destruct (length_property_ready s (or_intror Hs)) as (s1 & -> & Hs1).
  rewrite (proj2 (Z.ltb_ge (size - 1) idx)), (proj2 (Z.ltb_ge idx 0)) by lia. cbn [orb].
  unfold lbind at 1. unfold chunkSize_property. rewrite (ld_known _ Hs1).
  assert (Hcs : 0 < _chunkSize s1) by (destruct (ld_size _ Hs1); lia).
  assert (Hq : 0 <= Z.quot idx (_chunkSize s1) < 2 ^ 31).
  { destruct (ld_size _ Hs1) as [E|E]; rewrite E; [rewrite Z.quot_small by lia; lia|]. Z.to_euclidean_division_equations; lia. }
  rewrite to_int32_small by lia. unfold lbind, call_getter. rewrite (ld_getter _ Hs1).
  destruct (get_chunk_loaded s1 (Z.quot idx (_chunkSize s1)) Hs1) as (s2 & -> & Hs2 & _); [lia|Z.to_euclidean_division_equations; nia|done|].
  exists s2. split; [|done]. unfold lret. do 2 f_equal. unfold slice.
  rewrite lookup_take_lt by (Z.to_euclidean_division_equations; nia). rewrite lookup_drop. f_equal. Z.to_euclidean_division_equations; nia.
Qed.

Lemma read_lazy_loaded n : forall buffer i pos s, loaded s -> 0 <= pos -> pos + Z.of_nat n <= size ->
  exists s', read_lazy url n buffer i pos s = ((read_plain n buffer i data pos, Ok tt), s') /\ loaded s'.
Proof.
  induction n as [|n IH]; intros buffer i pos s Hs Hp Hn; cbn [read_lazy read_plain]; [by exists s|].
  destruct (lazy_get_loaded s pos Hs) as (s1 & -> & Hs1); [lia|].
  replace (default 0 (data !! Z.to_nat pos)) with (num8 data pos) by (unfold num8, load8; rewrite (proj2 (Z.ltb_ge pos 0)) by lia; done).
  apply IH; [done|lia|lia].
Qed.

(** One read of a lazy file is the read of its bytes. *)
Lemma lazy_read_plain XHR read_ s buffer offset len position : ready s -> 0 <= position ->
  exists s', loaded s' /\
    lazy_read url XHR read_ (LazyArray s) buffer offset len position
    = (fst (lazy_read url XHR read_ (Loaded data) buffer offset len position), LazyArray s').
Proof.
  intros Hs Hp. unfold lazy_read. cbn [forceLoadFile]. destruct (length_property_ready s Hs) as (s1 & -> & Hs1). fold size.
  destruct (Z.leb_spec size position); [by exists s1|].
  destruct (Z.ltb_spec (Z.min (size - position) len) 0); [by exists s1|].
  destruct (read_lazy_loaded (Z.to_nat (Z.min (size - position) len)) buffer offset position s1 Hs1) as (s2 & -> & Hs2); [done|lia|].
  by exists s2.
Qed.

(** Reads one after another, with what each leaves in its buffer and returns. *)
Fixpoint reads (XHR : bool) (read_ : option (jsstr -> result jsstr)) (obj : lazy_contents) (calls : list (mem * Z * Z * Z)) : list (mem * result Z) * lazy_contents :=
  match calls with
  | [] => ([], obj)
  | (buffer, offset, len, position) :: calls =>
      let '(r, obj) := lazy_read url XHR read_ obj buffer offset len position in
      let '(rs, obj) := reads XHR read_ obj calls in (r :: rs, obj)
  end.

Lemma reads_plain XHR read_ calls : forall s, ready s -> Forall (fun c => 0 <= snd c) calls ->
  exists s', ready s' /\ reads XHR read_ (LazyArray s) calls = (fst (reads XHR read_ (Loaded data) calls), LazyArray s').
Proof.
  induction calls as [|[[[buffer offset] len] position] calls IH]; intros s Hs Hc; cbn [reads]; [by exists s|].
  apply Forall_cons in Hc as [Hp Hc]. cbn [snd] in Hp.
  destruct (lazy_read_plain XHR read_ s buffer offset len position Hs Hp) as (s1 & Hs1 & ->).
  destruct (IH s1 (or_intror Hs1) Hc) as (s2 & Hs2 & ->). exists s2. split; [done|].
  destruct (lazy_read url XHR read_ (Loaded data) buffer offset len position) as [r obj] eqn:E.
  assert (obj = Loaded data) as ->.
  { revert E. unfold lazy_read. cbn [forceLoadFile]. repeat case_match; by intros [=]. }
  cbn. by destruct (reads XHR read_ (Loaded data) calls).
Qed.
End Serving.

(** C20. Against a server that serves [data], reading a new lazy file gives, for every sequence of reads, exactly what
    reading the bytes themselves gives, in buffers, results and order; and no request is sent twice, so the
    length is asked for once and every chunk is fetched at most once. *)
Theorem lazy_file_reads `{Server} (url : jsstr) (data : list Z) (XHR : bool) (read_ : option (jsstr -> result jsstr)) (calls : list (mem * Z * Z * Z)) :
  serves data -> Z.of_nat (length data) < 2 ^ 51 -> Forall (fun c => 0 <= snd c) calls ->
  exists s, reads url XHR read_ (LazyArray new_lazy) calls = (fst (reads url XHR read_ (Loaded data) calls), LazyArray s)
    /\ NoDup (requests s).
Proof.
  intros Hs Hn Hc. destruct (reads_plain url data Hs Hn XHR read_ calls new_lazy (or_introl eq_refl) Hc) as (s & Hr & E).
  exists s. split; [done|]. destruct Hr as [->|Hr]; [constructor | apply (ld_once _ _ Hr)].
Qed.

(** A server that serves [data]. *)
Definition file_server (data : list Z) : Server := {|
  head_answer := fun _ => Some {| h_status := 200; h_length := Z.of_nat (length data); h_ranges := true; h_gzip := false |};
  get_answer := fun _ range =>
    Some {| b_status := 206; responseText := [];
            response := Some (match range with Some (a, e) => slice data a (e - a + 1) | None => data end) |}
|}.

Lemma file_server_serves data : @serves (file_server data) data.
Proof. split; intros; eexists; (split; [reflexivity|]); cbn; auto. Qed.

Theorem lazy_file_witness :
  let data := [10; 20; 30; 40] in
  exists s, @reads (file_server data) [] true None (LazyArray new_lazy) [([0; 0; 0], 0, 2, 1); ([0; 0; 0], 1, 5, 3); ([7], 0, 1, 9)]
    = ([([20; 30; 0], Ok 2); ([0; 40; 0], Ok 1); ([7], Ok 0)], LazyArray s) /\ NoDup (requests s).
Proof.
  intros data.
  exact (@lazy_file_reads (file_server data) [] data true None [([0; 0; 0], 0, 2, 1); ([0; 0; 0], 1, 5, 3); ([7], 0, 1, 9)]
    (file_server_serves data) ltac:(cbn; lia) ltac:(repeat constructor; cbn; lia)).
Defined.

(** HTTP lets a server ignore [Range] and answer 200 with the whole file. *)
Definition careless_server (data : list Z) : Server := {|
  head_answer := fun _ => Some {| h_status := 200; h_length := Z.of_nat (length data); h_ranges := true; h_gzip := false |};
  get_answer := fun _ _ => Some {| b_status := 200; response := Some data; responseText := [] |}
|}.

(** The code takes such an answer for the chunk, since it only looks whether the status is good: the byte at
    1 MiB of a longer file is read as its first byte. *)
Lemma ignored_range_misread (url : jsstr) (data : list Z) : 1024 * 1024 < Z.of_nat (length data) ->
  exists s, @lazy_get (careless_server data) url (1024 * 1024) new_lazy = (Ok (data !! 0%nat), s).
Proof.
  intros Hn. set (n := Z.of_nat (length data)) in *.
  assert (E : @cacheLength (careless_server data) url new_lazy = (Ok tt,
    {| lengthKnown := true; _length := n; _chunkSize := 1048576; chunks := empty;
       getter := Some {| datalength := n; cl_chunkSize := 1048576 |}; requests := [HEAD] |})).
  { unfold cacheLength, lbind, send. cbn. fold n. rewrite (proj2 (Z.eqb_neq n 0)) by lia. done. }
  unfold lazy_get, lbind, length_property, chunkSize_property. cbn [lengthKnown new_lazy]. unfold lbind. rewrite E. cbn [lengthKnown _length].
  rewrite (proj2 (Z.ltb_ge (n - 1) (1024 * 1024))), (proj2 (Z.ltb_ge (1024 * 1024) 0)) by lia. cbn [orb lengthKnown _chunkSize].
  change (to_int32 (Z.quot (1024 * 1024) 1048576)) with 1. change (Z.rem (1024 * 1024) 1048576) with 0.
  unfold call_getter, get_chunk, doXHR, lbind, send. cbn [getter chunks datalength cl_chunkSize]. rewrite lookup_empty.
  rewrite (proj2 (Z.ltb_ge (Z.min _ _) _)), (proj2 (Z.ltb_ge (n - 1) (Z.min _ _))), (proj2 (Z.eqb_neq n 1048576)) by lia.
  eexists. reflexivity.
Qed.
