(* ===== verification/OpusAsync.v ===== *)
(** * Asynchronous operations of the Opus module's file system
      ([integrations/lan-remote-access/rustdesk-web-open/libopus.js], [FS.syncfs], [asyncLoad],
      [FS.createPreloadedFile], [FS.saveFilesToDB], [FS.loadFilesFromDB])

    Synchronising the mounts, loading files over the network before the start, and the
    copies in IndexedDB.  What mounts, readers, plugins and the database answer are
    events; callbacks the caller gave are recorded when they are called. *)

From stdpp Require Import base list numbers strings gmap sets.
From Stdlib Require Import ZArith Lia.
From S2P Require Import Prelude JsString OpusMemfs OpusPath OpusNode OpusFs OpusDevices OpusFsApi.
Local Open Scope Z_scope.

(** ** [FS.syncfs] *)

Module Sync.

(** One call: the number of its mounts, and the variables its functions close over. *)
Record call := { mounts_length : Z; completed : Z; errored : bool }.

Record state := {
  syncFSRequests : Z;
  calls : list call;
  called : list (nat * option Z)      (* the callbacks with their arguments, latest first; [None] is [null], an error is not 0 *)
}.

(** The assertion of [doCallback] that fails throws into the mount that called [done]. *)
Definition doCallback (i : nat) (errCode : option Z) (s : state) : state :=
  if 0 <? syncFSRequests s
  then {| syncFSRequests := syncFSRequests s - 1; calls := calls s; called := (i, errCode) :: called s |}
  else s.

Definition set_call (i : nat) (c : call) (s : state) : state :=
  {| syncFSRequests := syncFSRequests s; calls := <[i := c]> (calls s); called := called s |}.

Definition done (i : nat) (errCode : option Z) (s : state) : state :=
  match calls s !! i with
  | None => s
  | Some c =>
      match errCode with
      | Some e =>
          if errored c then s
          else doCallback i (Some e) (set_call i {| mounts_length := mounts_length c; completed := completed c; errored := true |} s)
      | None =>
          let c := {| mounts_length := mounts_length c; completed := completed c + 1; errored := errored c |} in
          let s := set_call i c s in
          if mounts_length c <=? completed c then doCallback i None s else s
      end
  end.

(** [syncfs] over the mounts that [getMounts] gives, up to the loop, and the loop as far as it calls [done]
    itself: once for every mount whose type has no [syncfs].  The others call it later. *)
Definition start (has_syncfs : list bool) (s : state) : state :=
  let i := length (calls s) in
  let s := {| syncFSRequests := syncFSRequests s + 1;
              calls := calls s ++ [{| mounts_length := Z.of_nat (length has_syncfs); completed := 0; errored := false |}];
              called := called s |} in
  fold_left (fun s (h : bool) => if h then s else done i None s) has_syncfs s.

Inductive event := Start (has_syncfs : list bool) | Done (i : nat) (errCode : option Z).

Definition step (e : event) (s : state) : state :=
  match e with Start ms => start ms s | Done i err => done i err s end.

Definition runs (es : list event) : state := fold_left (fun s e => step e s) es {| syncFSRequests := 0; calls := []; called := [] |}.

(** *** One callback per call *)

(** What the mounts of a call have answered so far decides what its callback was given: the first error, or
    [null] after the last success. *)
Fixpoint first_error (outs : list (option Z)) : option Z :=
  match outs with [] => None | Some e :: _ => Some e | None :: outs => first_error outs end.

Definition verdict (n : Z) (outs : list (option Z)) : list (option Z) :=
  match first_error outs with
  | Some e => [Some e]
  | None => if n <=? Z.of_nat (length outs) then [None] else []
  end.

(** Reachable states, with the answers each call has had; no mount answers twice. *)
Inductive reach : state -> list (list (option Z)) -> Prop :=
| ReachNothing : reach {| syncFSRequests := 0; calls := []; called := [] |} []
| ReachBegin s g n : reach s g -> 0 < n ->
    reach {| syncFSRequests := syncFSRequests s + 1; calls := calls s ++ [{| mounts_length := n; completed := 0; errored := false |}]; called := called s |} (g ++ [[]])
| ReachDone s g i c outs err : reach s g -> calls s !! i = Some c -> g !! i = Some outs -> Z.of_nat (length outs) < mounts_length c ->
    reach (done i err s) (<[i := outs ++ [err]]> g).

Definition callbacks (i : nat) (s : state) : list (option Z) := omap (fun p => if (fst p =? i)%nat then Some (snd p) else None) (called s).

Definition call_ok (c : call) (outs : list (option Z)) (cbs : list (option Z)) : Prop :=
  0 < mounts_length c /\ Z.of_nat (length outs) <= mounts_length c /\ errored c = bool_decide (is_Some (first_error outs))
  /\ 0 <= completed c <= Z.of_nat (length outs) /\ (first_error outs = None -> completed c = Z.of_nat (length outs))
  /\ (is_Some (first_error outs) -> completed c < Z.of_nat (length outs)) /\ cbs = verdict (mounts_length c) outs.

Record sync_ok (s : state) (g : list (list (option Z))) : Prop := {
  so_length : length (calls s) = length g;
  so_calls : forall i c outs, calls s !! i = Some c -> g !! i = Some outs -> call_ok c outs (callbacks i s);
  so_count : syncFSRequests s = Z.of_nat (length (calls s)) - Z.of_nat (length (called s));
  so_once : NoDup ((called s).*1);
  so_known : Forall (fun p => (fst p < length (calls s))%nat) (called s)
}.

Lemma callbacks_nil i s : callbacks i s = [] -> i ∉ (called s).*1.
Proof.
  unfold callbacks. induction (called s) as [|[j e] l IH]; cbn; [by intros _ ?%elem_of_nil|].
  destruct (Nat.eqb_spec j i); [done|]. intros H [->|Hin]%elem_of_cons; [done|]. by apply IH.
Qed.

(** A call that has not called back is counted. *)
Lemma requests_positive s g i c : sync_ok s g -> calls s !! i = Some c -> callbacks i s = [] -> 0 < syncFSRequests s.
Proof.
  intros [Hl Hc Hn Ho Hk] Hi Hcb. apply callbacks_nil in Hcb. apply lookup_lt_Some in Hi. rewrite Hn.
  assert (Hs : i :: (called s).*1 ⊆+ seq 0 (length (calls s))).
  { apply NoDup_submseteq; [by constructor|]. intros j. rewrite elem_of_cons, elem_of_seq. intros [->|Hj]; [lia|].
    rewrite Forall_forall in Hk. apply list_elem_of_fmap in Hj as ([k e] & -> & Hj). specialize (Hk _ Hj). cbn in *. lia. }
  apply submseteq_length in Hs. rewrite length_seq in Hs. cbn in Hs. rewrite length_fmap in Hs. lia.
Qed.

Lemma first_error_snoc outs err : first_error (outs ++ [err]) = match first_error outs with Some e => Some e | None => err end.
Proof. induction outs as [|[e|] outs IH]; cbn; [by destruct err|done|done]. Qed.

Lemma callbacks_other i j e s s' : called s' = (j, e) :: called s -> i <> j -> callbacks i s' = callbacks i s.
Proof. intros E H. unfold callbacks. rewrite E. cbn. by rewrite (proj2 (Nat.eqb_neq j i)) by done. Qed.

Lemma callbacks_same i e s s' : called s' = (i, e) :: called s -> callbacks i s' = e :: callbacks i s.
Proof. intros E. unfold callbacks. rewrite E. cbn. by rewrite Nat.eqb_refl. Qed.

Lemma callbacks_none s i : Forall (fun p => (fst p < length (calls s))%nat) (called s) -> (length (calls s) <= i)%nat -> callbacks i s = [].
Proof.
  intros Hk Hi. unfold callbacks. induction Hk as [|[j e] l Hj Hk IH]; [done|]. cbn in *. by rewrite (proj2 (Nat.eqb_neq j i)) by lia.
Qed.

(** [done] on the numbers of one call: what it becomes and what the callback is given. *)
Definition answer (c : call) (err : option Z) : call * list (option Z) :=
  match err with
  | Some e => if errored c then (c, []) else ({| mounts_length := mounts_length c; completed := completed c; errored := true |}, [Some e])
  | None => let c := {| mounts_length := mounts_length c; completed := completed c + 1; errored := errored c |} in
            (c, if mounts_length c <=? completed c then [None] else [])
  end.

Lemma answer_ok c outs err cbs : call_ok c outs cbs -> Z.of_nat (length outs) < mounts_length c ->
  let '(c', new) := answer c err in call_ok c' (outs ++ [err]) (new ++ cbs) /\ (new <> [] -> cbs = []).
Proof.
  intros (Hn & Hl & He & Hc & Hs & Hf & ->) Hlt. unfold answer, call_ok, verdict. rewrite !first_error_snoc, length_app. cbn [length].
  destruct (first_error outs) as [e0|] eqn:E0.
  - rewrite bool_decide_true in He by eauto. specialize (Hf ltac:(eauto)). destruct err as [e|]; rewrite ?He; cbn [mounts_length completed errored].
    + rewrite bool_decide_true by eauto. repeat split; try lia; done.
    + rewrite bool_decide_true by eauto. rewrite (proj2 (Z.leb_gt _ _)) by lia. repeat split; try lia; done.
  - rewrite bool_decide_false in He by by intros [? ?]. specialize (Hs eq_refl). rewrite (proj2 (Z.leb_gt (mounts_length c) (Z.of_nat (length outs)))) by lia.
    destruct err as [e|]; rewrite ?He; cbn [mounts_length completed errored].
    + rewrite bool_decide_true by eauto. repeat split; try lia; done.
    + rewrite bool_decide_false by by intros [? ?]. rewrite Hs, Nat2Z.inj_add. cbn.
      destruct (_ <=? _); repeat split; try lia; try done; by intros [? ?].
Qed.

Lemma done_answer s i c err : calls s !! i = Some c ->
  done i err s = fold_left (fun s e => doCallback i e s) (snd (answer c err)) (if errored c && bool_decide (is_Some err) then s else set_call i (fst (answer c err)) s).
Proof.
  intros Hi. unfold done. rewrite Hi. destruct err as [e|]; cbn [answer].
  - destruct (errored c); cbn; by rewrite ?bool_decide_true by eauto.
  - rewrite (bool_decide_false (is_Some None)) by by intros [? ?]. rewrite andb_false_r. cbn. by destruct (_ <=? _).
Qed.

Lemma callbacks_app i j new s s' : called s' = List.map (pair i) new ++ called s ->
  callbacks j s' = (if decide (j = i) then new else []) ++ callbacks j s.
Proof.
  intros E. unfold callbacks. rewrite E, omap_app. f_equal. clear. induction new as [|e new IH]; cbn; [by case_decide|].
  destruct (Nat.eqb_spec i j) as [Heq|Hne]; rewrite IH; [by rewrite !decide_True by done | by rewrite !decide_False by done].
Qed.

(** What [done] does to the whole state. *)
Lemma done_effect s g i c outs err : sync_ok s g -> calls s !! i = Some c -> call_ok c outs (callbacks i s) -> Z.of_nat (length outs) < mounts_length c ->
  let '(c', new) := answer c err in
  let s' := done i err s in
  calls s' = <[i := c']> (calls s) /\ called s' = List.map (pair i) new ++ called s
  /\ syncFSRequests s' = syncFSRequests s - Z.of_nat (length new) /\ (length new <= 1)%nat.
Proof.
  intros IH Hi Hci Hlt. pose proof (answer_ok c outs err _ Hci Hlt) as Ha. rewrite (done_answer s i c err Hi).
  destruct (answer c err) as [c' new] eqn:Ea. destruct Ha as [_ Hnew]. cbn [fst snd]. cbv zeta.
  set (s1 := if errored c && bool_decide (is_Some err) then s else set_call i c' s).
  assert (H1 : calls s1 = <[i := c']> (calls s) /\ called s1 = called s /\ syncFSRequests s1 = syncFSRequests s).
  { subst s1. destruct (errored c && bool_decide (is_Some err)) eqn:E; [|done]. apply andb_prop in E as [E1 E2]. apply bool_decide_eq_true in E2 as [e ->].
    cbn in Ea. rewrite E1 in Ea. injection Ea as <- <-. by rewrite list_insert_id. }
  destruct H1 as (H1 & H2 & H3).
  assert (Hn1 : (length new <= 1)%nat) by (revert Ea; unfold answer; repeat case_match; intros [= _ <-]; cbn; lia).
  destruct new as [|e [|]]; cbn in Hn1 |- *; [repeat split; try done; lia| |lia].
  pose proof (requests_positive s g i c IH Hi (Hnew ltac:(done))) as Hp. unfold doCallback. rewrite H3, (proj2 (Z.ltb_lt _ _)) by lia.
  cbn. rewrite H1, H2. repeat split; lia || done.
Qed.

Lemma sync_ok_begin s g n : sync_ok s g -> 0 < n ->
  sync_ok {| syncFSRequests := syncFSRequests s + 1; calls := calls s ++ [{| mounts_length := n; completed := 0; errored := false |}]; called := called s |} (g ++ [[]]).
Proof.
  intros [Hl Hc Hcount Ho Hk] Hn. split; cbn [calls called syncFSRequests].
  - rewrite !length_app, Hl. done.
  - intros i c outs Hi Hg. change (callbacks i _) with (callbacks i s). destruct (decide (i < length (calls s))%nat) as [Hlt|Hge].
    + rewrite lookup_app_l in Hi by done. rewrite lookup_app_l in Hg by lia. by apply Hc.
    + rewrite lookup_app_r in Hi by lia. rewrite lookup_app_r in Hg by lia. apply list_lookup_singleton_Some in Hi as [Hz <-].
      apply list_lookup_singleton_Some in Hg as [_ <-]. rewrite (callbacks_none s i) by (done || lia).
      unfold call_ok, verdict. cbn [first_error length mounts_length completed errored]. change (Z.of_nat 0) with 0.
      rewrite (proj2 (Z.leb_gt n 0)) by lia. repeat split; try lia; try done.
  - rewrite length_app. cbn. lia.
  - done.
  - eapply Forall_impl; [done|]. cbn. intros p Hp. rewrite length_app. lia.
Qed.

Lemma sync_ok_done s g i c outs err : sync_ok s g -> calls s !! i = Some c -> g !! i = Some outs -> Z.of_nat (length outs) < mounts_length c ->
  sync_ok (done i err s) (<[i := outs ++ [err]]> g).
Proof.
  intros IH Hi Hg Hlt. pose proof IH as [Hl Hc Hcount Ho Hk]. pose proof (Hc i c outs Hi Hg) as Hci.
  pose proof (answer_ok c outs err _ Hci Hlt) as Ha. pose proof (done_effect s g i c outs err IH Hi Hci Hlt) as He.
  pose proof (lookup_lt_Some _ _ _ Hi) as Hil. destruct (answer c err) as [c' new]. destruct Ha as [Hc' Hnew]. destruct He as (Hcalls & Hcalled & Hreq & Hn1).
  split.
  - by rewrite Hcalls, !length_insert.
  - intros j cj oj. rewrite Hcalls, (callbacks_app i j new s _ Hcalled). case_decide as Hj.
    + subst j. rewrite !list_lookup_insert_eq by lia. by intros [= <-] [= <-].
    + rewrite !list_lookup_insert_ne by done. by apply Hc.
  - rewrite Hreq, Hcalls, Hcalled, length_insert, length_app, length_map, Hcount. lia.
  - rewrite Hcalled, fmap_app. destruct new as [|e [|]]; cbn in *; [done| |lia]. constructor; [|done]. apply callbacks_nil, Hnew. done.
  - rewrite Hcalled, Hcalls, length_insert. apply Forall_app. split; [|done]. clear -Hil. induction new; cbn; by constructor.
Qed.

Lemma sync_ok_reach s g : reach s g -> sync_ok s g.
Proof. induction 1; [split; try done; constructor | by apply sync_ok_begin | by eapply sync_ok_done]. Qed.

Lemma answer_length c err : mounts_length (fst (answer c err)) = mounts_length c.
Proof. unfold answer. by repeat case_match. Qed.

Lemma start_fold ms : forall t g outs c, reach t (g ++ [outs]) -> calls t !! length g = Some c ->
  Z.of_nat (length outs) + Z.of_nat (length ms) <= mounts_length c ->
  reach (fold_left (fun s (h : bool) => if h then s else done (length g) None s) ms t) (g ++ [outs ++ List.map (fun _ => None) (List.filter negb ms)]).
Proof.
  induction ms as [|h ms IH]; intros t g outs c Hr Hc Hn; cbn [fold_left List.filter List.map length] in *; [by rewrite app_nil_r|].
  destruct h; cbn [negb]; [eapply IH; [done..|lia]|].
  assert (Hg : (g ++ [outs]) !! length g = Some outs) by by apply list_lookup_middle.
  pose proof (sync_ok_reach _ _ Hr) as Hok.
  assert (Hlt : Z.of_nat (length outs) < mounts_length c) by lia.
  pose proof (done_effect t _ (length g) c outs None Hok Hc (so_calls _ _ Hok _ _ _ Hc Hg) Hlt) as He. pose proof (answer_length c None) as Hl.
  destruct (answer c None) as [c' new]. destruct He as (Hcalls & _). cbn [fst] in Hl.
  assert (Hd : reach (done (length g) None t) (g ++ [outs ++ [None]])).
  { pose proof (ReachDone t _ (length g) c outs None Hr Hc Hg Hlt) as H. rewrite insert_app_r_alt, Nat.sub_diag in H by lia. exact H. }
  cbn [List.map]. replace (outs ++ None :: List.map (fun _ => None) (List.filter negb ms)) with ((outs ++ [None]) ++ List.map (fun _ => @None Z) (List.filter negb ms)) by by rewrite <- (assoc_L (++)).
  eapply IH; [exact Hd| |].
  - rewrite Hcalls, list_lookup_insert_eq; [reflexivity|]. by eapply lookup_lt_Some.
  - rewrite Hl, length_app. cbn. lia.
Qed.

(** [syncfs] itself: the call with the answers of the mounts that need no synchronising. *)
Lemma start_reach s g ms : reach s g -> ms <> [] ->
  reach (start ms s) (g ++ [List.map (fun _ => None) (List.filter negb ms)]).
Proof.
  intros Hr Hms. pose proof (so_length _ _ (sync_ok_reach _ _ Hr)) as Hl. unfold start. rewrite Hl.
  assert (Hn : 0 < Z.of_nat (length ms)) by (destruct ms; cbn; [done|lia]).
  apply (start_fold ms _ g [] {| mounts_length := Z.of_nat (length ms); completed := 0; errored := false |}); [by apply ReachBegin| |cbn; lia].
  cbn. rewrite lookup_app_r, Hl, Nat.sub_diag by lia. reflexivity.
Qed.

(** C36. Any number of calls of [syncfs] may be in flight.  As long as no mount answers twice, the callback of a call
    is called once: with the first error that a mount reports, or with [null] when all mounts have succeeded; and
    the counter of requests is the number of calls that have not called back. *)
Theorem syncfs_calls_back (s : state) (g : list (list (option Z))) : reach s g ->
  (forall i c outs, calls s !! i = Some c -> g !! i = Some outs ->
     callbacks i s = verdict (mounts_length c) outs
     /\ (Z.of_nat (length outs) = mounts_length c -> length (callbacks i s) = 1%nat))
  /\ syncFSRequests s = Z.of_nat (length (calls s)) - Z.of_nat (length (called s)).
Proof.
  intros Hr. pose proof (sync_ok_reach _ _ Hr) as [Hl Hc Hcount _ _]. split; [|done]. intros i c outs Hi Hg.
  destruct (Hc i c outs Hi Hg) as (Hn & _ & _ & _ & _ & _ & Hcb). split; [done|]. intros E. rewrite Hcb. unfold verdict.
  destruct (first_error outs); [done|]. by rewrite (proj2 (Z.leb_le _ _)) by lia.
Qed.

(** Two calls over two mounts each, one of which has its own [syncfs]: the first fails, the second succeeds. *)
Theorem syncfs_witness :
  let s := done 1 None (done 0 (Some 5) (start [true; false] (start [false; true] {| syncFSRequests := 0; calls := []; called := [] |}))) in
  callbacks 0 s = [Some 5] /\ callbacks 1 s = [None] /\ syncFSRequests s = 0.
Proof.
  assert (H : reach (done 1 None (done 0 (Some 5) (start [true; false] (start [false; true] {| syncFSRequests := 0; calls := []; called := [] |}))))
    [[None; Some 5]; [None; None]]).
  { change [[None; Some 5]; [None; None]] with (<[1%nat := [None] ++ [None]]> [[None; Some 5]; [@None Z]]).
    eapply ReachDone; [|reflexivity..|cbn; lia]. change [[None; Some 5]; [None]] with (<[0%nat := [None] ++ [Some 5]]> [[None]; [@None Z]]).
    eapply ReachDone; [|reflexivity..|cbn; lia]. apply (start_reach _ [[None]]); [|done]. apply (start_reach _ []); [constructor|done]. }
  destruct (syncfs_calls_back _ _ H) as [Hc Hn].
  split; [exact (proj1 (Hc 0%nat _ _ eq_refl eq_refl))|]. split; [exact (proj1 (Hc 1%nat _ _ eq_refl eq_refl))|]. exact Hn.
Defined.

End Sync.

(** ** IndexedDB *)

Module Database.

(** How a request ends: with success, with an error, or with a handler of success that throws. *)
Inductive answer := Success | Failure | Broken.
Inductive callback := Onload | Onerror.

Record tally := { ok : Z; fail : Z; total : Z; log : list callback (* latest first *) }.

Definition call (c : callback) (t : tally) : tally := {| ok := ok t; fail := fail t; total := total t; log := c :: log t |}.
Definition finish (t : tally) : tally := if fail t =? 0 then call Onload t else call Onerror t.
Definition finish_if_last (t : tally) : tally := if ok t + fail t =? total t then finish t else t.

(** The handlers of a request.  The event of an error goes on from the request to its transaction, whose
    [onerror] is the caller's too; [transaction_handler] tells whether it has been set. *)
Definition on_answer (transaction_handler : bool) (a : answer) (t : tally) : tally :=
  match a with
  | Success => finish_if_last {| ok := ok t + 1; fail := fail t; total := total t; log := log t |}
  | Failure =>
      let t := finish_if_last {| ok := ok t; fail := fail t + 1; total := total t; log := log t |} in
      if transaction_handler then call Onerror t else t
  | Broken => t
  end.

Definition answers (transaction_handler : bool) (n : Z) (l : list answer) : tally :=
  fold_left (fun t a => on_answer transaction_handler a t) l {| ok := 0; fail := 0; total := n; log := [] |}.

Section Files.
Variable stack : nat.

(** The [contents] of a node: the whole array of a file, the object of a directory, [undefined] for others.  The
    database takes a copy, which fails for the nodes in an object. *)
Inductive value := Bytes (array : option (list Z)) | EmptyObject.

Definition put_value (n : node) : result value :=
  if isDir (mode n) then
    match entries n with [] => Ok EmptyObject | _ => Throw (PlatformError "DataCloneError") end
  else Ok (Bytes (OpusMemfs.contents (file n))).

(** The requests [saveFilesToDB] makes when the database is open, up to a path without a node or with a value that
    cannot be copied, where the loop throws. *)
Fixpoint put_requests (paths : list jsstr) : M (list (jsstr * value) * option jserror) :=
  match paths with
  | [] => ret ([], None)
  | path :: paths =>
      let! a := tried (let! a := analyzePath stack path false in
                       let! i := some_or_throw (an_object a) type_error in
                       let! n := getNode i in
                       lift (put_value n)) in
      match a with
      | inl v => let! r := put_requests paths in ret ((path, v) :: fst r, snd r)
      | inr e => ret ([], Some e)
      end
  end%js_op.

(** What [loadFilesFromDB] does with the value of one key, [None] for a key the database does not have. *)
Definition load_one (path : jsstr) (value : option (list Z)) : M unit :=
  (let! a := analyzePath stack path false in
   (if an_exists a then unlink stack path else ret tt) ;;;
   let! dir := some_or_throw (dirname path) type_error in
   createDataFile stack (inl dir) (basename path) (option_map inr value) true true true ;;;
   ret tt)%js_op.

(** Its handler of success, as an answer. *)
Definition load_answer (path : jsstr) (value : option (list Z)) (s : fs) : answer * fs :=
  match load_one path value s with
  | (Ok _, s) => (Success, s)
  | (Throw _, s) => (Broken, s)
  end.
End Files.

(** What the opening of the database leads to; [NoStore] is a transaction that throws. *)
Inductive opening := Throws | Fails | Upgrades | NoStore | Opens.

Definition save_opened (o : opening) : list callback := match o with Throws | Fails => [Onerror] | Upgrades | NoStore | Opens => [] end.
Definition load_opened (o : opening) : list callback := match o with Throws | Fails | Upgrades | NoStore => [Onerror] | Opens => [] end.

(** *** What the caller is told *)

Definition is_failure (a : answer) : bool := match a with Failure => true | _ => false end.
Definition is_broken (a : answer) : bool := match a with Broken => true | _ => false end.
Definition failures (l : list answer) : nat := length (List.filter is_failure l).
Definition breaks (l : list answer) : nat := length (List.filter is_broken l).

Lemma answers_snoc th n l a : answers th n (l ++ [a]) = on_answer th a (answers th n l).
Proof. unfold answers. by rewrite fold_left_app. Qed.

Lemma filter_snoc {A} (f : A -> bool) l a : length (List.filter f (l ++ [a])) = (length (List.filter f l) + (if f a then 1 else 0))%nat.
Proof. rewrite List.filter_app, length_app. cbn. by destruct (f a). Qed.

(** The counters count, and before the last answer only the transaction has reported. *)
Lemma answers_counts n l : (length l <= n)%nat ->
  let t := answers true (Z.of_nat n) l in
  total t = Z.of_nat n /\ fail t = Z.of_nat (failures l) /\ ok t = Z.of_nat (length l) - Z.of_nat (failures l) - Z.of_nat (breaks l)
  /\ log t = if decide (l <> [] /\ length l = n /\ breaks l = 0%nat)
             then (if decide (failures l = 0%nat) then [Onload] else repeat Onerror (S (failures l)))
             else repeat Onerror (failures l).
Proof.
  induction l as [|a l IH] using rev_ind; intros Hn.
  { cbn. rewrite decide_False by naive_solver. done. }
  rewrite length_app in Hn. cbn in Hn. rewrite answers_snoc. specialize (IH ltac:(lia)). cbv zeta in IH.
  destruct (answers true (Z.of_nat n) l) as [o f t lg]. cbn [ok fail total log] in IH. destruct IH as (-> & -> & -> & ->).
  rewrite (decide_False (P := l <> [] /\ length l = n /\ breaks l = 0%nat)) by lia.
  unfold failures, breaks in *. rewrite !filter_snoc, length_app. cbn [length].
  set (F := length (List.filter is_failure l)) in *. set (B := length (List.filter is_broken l)) in *.
  assert (HF : (F + B <= length l)%nat).
  { subst F B. clear. induction l as [|[] l IHl]; cbn; lia. }
  assert (Hne : l ++ [a] <> []) by by destruct l.
  destruct a; cbn [on_answer is_failure is_broken].
  - unfold finish_if_last, finish, call. cbn [ok fail total log]. rewrite !Nat.add_0_r.
    destruct (Z.eqb_spec (Z.of_nat (length l) - Z.of_nat F - Z.of_nat B + 1 + Z.of_nat F) (Z.of_nat n)).
    + rewrite (decide_True (P := _ /\ _)) by (repeat split; (done || lia)).
      destruct (Z.eqb_spec (Z.of_nat F) 0); cbn [ok fail total log]; (repeat split; try lia).
      * rewrite decide_True by lia. by replace F with 0%nat by lia.
      * by rewrite decide_False by lia.
    + rewrite (decide_False (P := _ /\ _)) by lia. cbn [ok fail total log]. repeat split; lia.
  - unfold finish_if_last, finish, call. cbn [ok fail total log].
    destruct (Z.eqb_spec (Z.of_nat (length l) - Z.of_nat F - Z.of_nat B + (Z.of_nat F + 1)) (Z.of_nat n)).
    + rewrite (decide_True (P := _ /\ _)) by (repeat split; (done || lia)). rewrite (proj2 (Z.eqb_neq (Z.of_nat F + 1) 0)) by lia.
      cbn [ok fail total log]. rewrite decide_False by lia. repeat split; try lia. by replace (S (F + 1)) with (S (S F)) by lia.
    + rewrite (decide_False (P := _ /\ _)) by lia. cbn [ok fail total log]. repeat split; try lia. by replace (F + 1)%nat with (S F) by lia.
  - cbn [ok fail total log]. rewrite (decide_False (P := _ /\ _)) by lia. rewrite Nat.add_0_r. repeat split; lia.
Qed.

(** When every request of a copy has ended and no handler has thrown, [onload] is called once if all succeeded;
    otherwise [onerror] is called once more than there were errors.  [onload] is never called when a request failed
    or a handler threw. *)
Theorem database_reports (n : nat) (l : list answer) : length l = n -> (0 < n)%nat ->
  log (answers true (Z.of_nat n) l) =
    if decide (breaks l = 0%nat) then (if decide (failures l = 0%nat) then [Onload] else repeat Onerror (S (failures l)))
    else repeat Onerror (failures l).
Proof.
  intros Hl Hn. destruct (answers_counts n l ltac:(lia)) as (_ & _ & _ & ->).
  destruct (decide (breaks l = 0%nat)); [rewrite decide_True by (repeat split; try done; by destruct l; cbn in *; [lia|]) | rewrite decide_False by lia]; done.
Qed.

(** Without a path nothing is ever reported. *)
Lemma no_paths_no_report : log (answers true 0 []) = [].
Proof. done. Qed.

Theorem database_witness : log (answers true 2 [Success; Failure]) = [Onerror; Onerror] /\ log (answers true 2 [Success; Success]) = [Onload].
Proof. split; [exact (database_reports 2 [Success; Failure] eq_refl ltac:(lia)) | exact (database_reports 2 [Success; Success] eq_refl ltac:(lia))]. Defined.

(** A file that was appended to has an array longer than its contents; the whole array is saved, so the copy that
    is loaded back is longer than the file was. *)
Definition appended : M (list Z * nat * nat) := (
  writeFile 10 (js "/home/f") [1; 2; 3] None ;;;
  let! sid := open 10 (inl (js "/home/f")) 1025 None 0 MAX_OPEN_FDS in
  write sid Unsigned [4] 0 1 None false ;;;
  close sid ;;;
  let! before := readFile 10 (js "/home/f") in
  let! saved := put_requests 10 [js "/home/f"] in
  match fst saved with
  | (path, Bytes (Some array)) :: _ =>
      load_one 10 path (Some array) ;;;
      let! after := readFile 10 path in
      ret (before, length array, length after)
  | _ => raise type_error
  end)%js_op.

Example saved_copy_longer : fst (appended started_fs) = Ok ([1; 2; 3; 4], 256%nat, 256%nat).
Proof. vm_compute. reflexivity. Qed.

End Database.

(** ** Files loaded before the start *)

Module Preload.

Section Names.
(** The texts [Math.random()] gives in turn. *)
Variable random : nat -> jsstr.

(** [getUniqueRunDependency]: the loop with the number of tries so far. *)
Fixpoint unique_loop (fuel n : nat) (tracking : gset jsstr) (orig id : jsstr) : option (jsstr * nat) :=
  if bool_decide (id ∈ tracking) then
    match fuel with
    | O => None
    | S fuel => unique_loop fuel (S n) tracking orig (orig ++ random n)
    end
  else Some (id, n).

Definition getUniqueRunDependency (fuel n : nat) (tracking : gset jsstr) (id : jsstr) : option (jsstr * nat) := unique_loop fuel n tracking id id.

Lemma unique_loop_fresh fuel : forall n tracking orig id r k, unique_loop fuel n tracking orig id = Some (r, k) -> r ∉ tracking.
Proof.
  induction fuel as [|fuel IH]; intros n tracking orig id r k; cbn; case_bool_decide as E; try done; [by intros [= <- _]|by apply IH|by intros [= <- _]].
Qed.

Lemma unique_loop_stuck fuel : forall n tracking orig id, unique_loop fuel n tracking orig id = None ->
  forall j, (n <= j < n + fuel)%nat -> orig ++ random j ∈ tracking.
Proof.
  induction fuel as [|fuel IH]; intros n tracking orig id; cbn; case_bool_decide as E; try done; [intros _ j Hj; lia|].
  intros H j Hj. destruct (decide (j = n)) as [->|].
  - destruct fuel; cbn in H; case_bool_decide as E1; done.
  - apply (IH (S n) tracking orig _ H). lia.
Qed.

(** As long as the random texts differ, the loop ends with a name nobody waits for, after at most as many tries
    as there are names. *)
Theorem unique_name_found (tracking : gset jsstr) (n : nat) (id : jsstr) :
  (forall i j, (n <= i <= n + size tracking)%nat -> (n <= j <= n + size tracking)%nat -> random i = random j -> i = j) ->
  exists r k, getUniqueRunDependency (S (size tracking)) n tracking id = Some (r, k) /\ r ∉ tracking.
Proof.
  intros Hinj. unfold getUniqueRunDependency. destruct (unique_loop _ _ _ _ _) as [[r k]|] eqn:E; [exists r, k; split; [done|by eapply unique_loop_fresh]|].
  exfalso. pose proof (unique_loop_stuck _ _ _ _ _ E) as Hs.
  assert (Hsub : (list_to_set (List.map (fun j => id ++ random j) (seq n (S (size tracking)))) : gset jsstr) ⊆ tracking).
  { intros x. rewrite elem_of_list_to_set. intros Hx. apply list_elem_of_fmap in Hx as (j & -> & Hj%elem_of_seq). apply Hs. lia. }
  apply subseteq_size in Hsub. rewrite size_list_to_set in Hsub; [rewrite length_map, length_seq in Hsub; lia|].
  apply NoDup_fmap_2_strong; [|apply NoDup_seq]. intros i j Hi%elem_of_seq Hj%elem_of_seq H. apply app_inv_head in H. apply Hinj; [lia|lia|done].
Qed.
End Names.

(** *** [asyncLoad] and [createPreloadedFile] *)

Inductive action := BrowserInit | PreFinish | Onload | Onerror | Aborted | Uncaught (e : jserror).

Record options := { parent : jsstr; name : jsstr; canRead : bool; canWrite : bool; canOwn : bool; dontCreateFile : bool;
                    has_onload : bool; has_onerror : bool; has_preFinish : bool }.

(** What an invocation waits for, with the dependencies [dep] of both functions. *)
Inductive wait := Reading (al url : jsstr) | WithPlugin | Ended.

Record state := { tracking : gset jsstr; system : fs; waits : wait; cp : jsstr; full : jsstr; log : list action (* latest first *) }.

Definition act (a : action) (s : state) : state := {| tracking := tracking s; system := system s; waits := waits s; cp := cp s; full := full s; log := a :: log s |}.
Definition act_if (b : bool) (a : action) (s : state) : state := if b then act a s else s.
Definition wait_for (w : wait) (s : state) : state := {| tracking := tracking s; system := system s; waits := w; cp := cp s; full := full s; log := log s |}.
Definition track (t : gset jsstr) (s : state) : state := {| tracking := t; system := system s; waits := waits s; cp := cp s; full := full s; log := log s |}.

(** [removeRunDependency]: it asserts that the dependency is there. *)
Definition remove (id : jsstr) (s : state) : state + state :=
  if bool_decide (id ∈ tracking s) then inl (track (tracking s ∖ {[id]}) s) else inr (act Aborted s).

Section Invocation.
Variable stack : nat.
Variable random : nat -> jsstr.
Variable fuel : nat.
Variable plugins : list (jsstr -> bool).       (* [canHandle] of each *)
Variable o : options.

Definition fullname (cwd : jsstr) : jsstr :=
  match name o with [] => parent o | _ => OpusPath.resolve cwd [join2 (parent o) (name o)] end.

(** [finish] in [processData]; [inr] is a state in which an exception is on its way. *)
Definition finish (bytes : list Z) (s : state) : state + state :=
  let s := act_if (has_preFinish o) PreFinish s in
  let created :=
    if dontCreateFile o then inl s
    else
      let '(r, f) := createDataFile stack (inl (parent o)) (name o) (Some (inr bytes)) (canRead o) (canWrite o) (canOwn o) (system s) in
      let s := {| tracking := tracking s; system := f; waits := waits s; cp := cp s; full := full s; log := log s |} in
      match r with Ok _ => inl s | Throw e => inr (act (Uncaught e) s) end in
  match created with
  | inl s => remove (cp s) (act_if (has_onload o) Onload s)
  | inr s => inr s
  end.

(** [processData]: the first plugin that can handle the file gets it, and ends the load later. *)
Definition processData (bytes : list Z) (s : state) : state + state :=
  if existsb (fun canHandle => canHandle (full s)) plugins then inl (wait_for WithPlugin s)
  else finish bytes s.

Definition either (r : state + state) : state := match r with inl s => s | inr s => s end.

Inductive event :=
| ReadDone (bytes : option (list Z))     (* [None]: no array buffer *)
| ReadFailed
| PluginFinished (bytes : list Z)
| PluginFailed
| FilesChanged (f : fs).                  (* by other code *)

Definition step (e : event) (s : state) : state :=
  match e, waits s with
  | FilesChanged f, _ => {| tracking := tracking s; system := f; waits := waits s; cp := cp s; full := full s; log := log s |}
  | ReadDone (Some bytes), Reading al _ =>
      match processData bytes (wait_for Ended s) with
      | inl s => either (remove al s)
      | inr s => s
      end
  | ReadDone None, Reading _ _ => act Aborted (wait_for Ended s)
  | ReadFailed, Reading _ url =>
      let s := wait_for Ended s in
      if has_onerror o then act Onerror s else act (Uncaught (ErrorMsg (jsq "Loading data file `" ++ url ++ jsq "` failed."))) s
  | PluginFinished bytes, WithPlugin => either (finish bytes s)
  | PluginFailed, WithPlugin => either (remove (cp s) (act_if (has_onerror o) Onerror s))
  | _, _ => s
  end.

(** The call itself.  [Browser] is not part of this build: without a global of that name the call throws at once.
    The data is given ([inr]) or read from a URL ([inl]). *)
Definition createPreloadedFile (Browser : bool) (url : jsstr + list Z) (t : gset jsstr) (f : fs) : result state :=
  if negb Browser then Throw (PlatformError "ReferenceError")
  else
    match getUniqueRunDependency random fuel 0 t (js "cp " ++ fullname (currentPath f)) with
    | None => Throw (PlatformError "RangeError")
    | Some (dep, k) =>
        let s := {| tracking := {[dep]} ∪ t; system := f; waits := Ended; cp := dep; full := fullname (currentPath f); log := [BrowserInit] |} in
        match url with
        | inr bytes => Ok (either (processData bytes s))
        | inl url =>
            match getUniqueRunDependency random fuel k (tracking s) (js "al " ++ url) with
            | None => Throw (PlatformError "RangeError")
            | Some (al, _) => Ok (wait_for (Reading al url) (track ({[al]} ∪ tracking s) s))
            end
        end
    end.
End Invocation.

Section Outcomes.
Variables (stack : nat) (random : nat -> jsstr) (fuel : nat) (plugins : list (jsstr -> bool)) (o : options).

Notation start := (createPreloadedFile stack random fuel plugins o true).
Notation runs := (fold_left (fun s e => step stack plugins o e s)).

(** The call adds two dependencies of new names. *)
Lemma start_url url t f s : start (inl url) t f = Ok s ->
  exists al, waits s = Reading al url /\ cp s ∉ t /\ al ∉ {[cp s]} ∪ t /\ tracking s = {[al]} ∪ ({[cp s]} ∪ t) /\ system s = f /\ full s = fullname o (currentPath f) /\ log s = [BrowserInit].
Proof.
  unfold createPreloadedFile. cbn [negb]. destruct (getUniqueRunDependency random fuel 0 t _) as [[dep k]|] eqn:E1; [|done]. cbn [tracking].
  destruct (getUniqueRunDependency random fuel k _ _) as [[al j]|] eqn:E2; [|done]. intros [= <-]. exists al.
  apply unique_loop_fresh in E1, E2. done.
Qed.

(** A file that was read is stored and everything added is removed again, when no plugin takes it and it can be created. *)
Lemma read_completes url t f s bytes i f' : start (inl url) t f = Ok s ->
  existsb (fun canHandle => canHandle (fullname o (currentPath f))) plugins = false ->
  dontCreateFile o = false ->
  createDataFile stack (inl (parent o)) (name o) (Some (inr bytes)) (canRead o) (canWrite o) (canOwn o) f = (Ok i, f') ->
  let s' := step stack plugins o (ReadDone (Some bytes)) s in
  tracking s' = t /\ system s' = f' /\ waits s' = Ended
  /\ log s' = (if has_onload o then [Onload] else []) ++ (if has_preFinish o then [PreFinish] else []) ++ [BrowserInit].
Proof.
  intros Hs Hp Hd Hc s'. subst s'. destruct (start_url _ _ _ _ Hs) as (al & Hw & Hcp & Hal & Ht & Hf & Hfull & Hl).
  unfold step. rewrite Hw. unfold processData. cbn [wait_for full]. rewrite Hfull, Hp. unfold finish. rewrite Hd.
  unfold act_if. destruct (has_preFinish o); cbn [act wait_for system]; rewrite Hf, Hc; cbn [tracking cp waits log system].
  all: destruct (has_onload o); unfold remove; cbn [act wait_for tracking cp]; rewrite Ht.
  all: rewrite (bool_decide_true (cp s ∈ _)) by set_solver; cbn [act wait_for track tracking]; rewrite (bool_decide_true (al ∈ _)) by set_solver.
  all: cbn [either wait_for track tracking system waits log act]; rewrite Hl; (repeat split; [|done..]); apply set_eq; intros x; set_solver.
Qed.

(** A read that failed leaves both dependencies, whatever happens later: the runtime never starts. *)
Theorem failed_read_blocks (url : jsstr) (t : gset jsstr) (f : fs) (s : state) (es : list event) :
  start (inl url) t f = Ok s ->
  exists al, al <> cp s /\ {[al; cp s]} ⊆ tracking (runs es (step stack plugins o ReadFailed s)).
Proof.
  intros Hs. destruct (start_url _ _ _ _ Hs) as (al & Hw & Hcp & Hal & Ht & Hf & Hfull & Hl). exists al. split; [set_solver|].
  assert (Hinv : forall u, waits u = Ended -> tracking u = tracking s -> {[al; cp s]} ⊆ tracking (runs es u)).
  { induction es as [|e es IH]; intros u Hu Hk; cbn [fold_left]; [rewrite Hk, Ht; set_solver|].
    apply IH; unfold step; rewrite Hu; by destruct e as [[?|]| | | |]. }
  apply Hinv; unfold step; rewrite Hw; by destruct (has_onerror o).
Qed.
End Outcomes.

End Preload.
