(* ===== verification/OpusExit.v ===== *)
(** * Leaving the Opus runtime
      ([integrations/lan-remote-access/rustdesk-web-open/libopus.js], [FS.quit] and [checkUnflushedContent])

    Closing all streams of the file system, and the warning about output that was not
    flushed.  [_fflush] is a function of the module: a parameter that acts on the file
    system as the writes of the module do. *)

From stdpp Require Import base list numbers strings gmap.
From Stdlib Require Import ZArith Lia.
From S2P Require Import Prelude JsString OpusTty OpusMemfs OpusPath OpusNode OpusFs OpusDevices OpusFsApi OpusValue OpusCxx.
Local Open Scope Z_scope.
Local Open Scope js_scope.

Section Leaving.
Variable stack : nat.
Variable _fflush : M unit.

(** The loop of [quit] over the array of streams. *)
Fixpoint close_all (n : nat) (i : Z) : M unit :=
  match n with
  | O => ret tt
  | S n =>
      let! t := gets (fun s => streams s !! i) in
      match t with
      | None => close_all n (i + 1)
      | Some sid => close sid ;;; close_all n (i + 1)
      end
  end.

(** [FS.quit]; the array has no more than [MAX_OPEN_FDS + 1] places. *)
Definition quit : M unit := _fflush ;;; close_all (S (Z.to_nat MAX_OPEN_FDS)) 0.

(** [tty.output.length] of the terminal a path of [/dev] leads to; a path without a node throws. *)
Definition pending_output (name : jsstr) : M bool :=
  let! info := analyzePath stack (js "/dev/" ++ name) false in
  let! i := some_or_throw (an_object info) type_error in
  let! n := getNode i in
  gets (fun s =>
    match ttys (term s) !! rdev n with
    | Some id => match tty_store (term s) !! id with Some t => negb (bool_decide (tty_output t = [])) | None => false end
    | None => false
    end).

Definition with_printed (l : list (channel * jsstr)) (s : fs) : fs :=
  set_term s (let t := term s in
              {| ttys := ttys t; tty_store := tty_store t; host := host t; stdin := stdin t; printed := l; functions := functions t;
                 received := received t; next_major := next_major t |}).

(** Whether there is something to warn about.  While the check runs, [out] and [err] only note that they were called; an
    exception ends the check with what was found. *)
Definition unflushed (s : fs) : bool * fs :=
  let before := printed (term s) in
  let '(r, s) := _fflush s in
  let flushed := negb (length (printed (term s)) =? length before)%nat in
  let s := with_printed before s in
  match r with
  | Throw _ => (flushed, s)
  | Ok _ =>
      match pending_output (js "stdout") s with
      | (Throw _, s) => (flushed, s)
      | (Ok out, s) =>
          match pending_output (js "stderr") s with
          | (Throw _, s) => (flushed || out, s)
          | (Ok err, s) => (flushed || out || err, s)
          end
      end
  end.

Definition unflushed_text : jsstr :=
  js "stdio streams had content in them that was not flushed. you should set EXIT_RUNTIME to 1 (see the FAQ), or make sure to emit a newline when you printf etc.".

Definition checkUnflushedContent (s : fs) (warned : list jsstr * list jsstr) : fs * (list jsstr * list jsstr) :=
  let '(has, s) := unflushed s in (s, if has then warnOnce unflushed_text warned else warned).
End Leaving.

(** ** Properties *)

(** Every open descriptor has a stream that knows it. *)
Definition streams_ok (s : fs) : Prop :=
  forall x sid, streams s !! x = Some sid -> exists st, stream_store s !! sid = Some st /\ fd st = Some x.

Lemma dev_close_streams d s : exists r s1, dev_close d s = (Ok r, s1) /\ streams s1 = streams s /\ stream_store s1 = stream_store s.
Proof. unfold dev_close, on_term, ret. destruct d; [by eexists _, _| |]; case_match; by eexists _, _. Qed.

(** [close] takes its descriptor out, also when a device throws; the others stay. *)
Lemma close_spec sid x st s : streams_ok s -> stream_store s !! sid = Some st -> fd st = Some x ->
  let s' := snd (close sid s) in streams s' = delete x (streams s) /\ (is_ok (fst (close sid s)) = true -> streams_ok s').
Proof.
  intros Hok Hst Hfd. unfold close, bind, getStream. rewrite Hst, Hfd. cbv beta iota zeta.
  set (dc := match sdev st with Some d => dev_close d | None => ret (Ok tt) end).
  assert (Hd : exists r s1, dc s = (Ok r, s1) /\ streams s1 = streams s /\ stream_store s1 = stream_store s).
  { subst dc. destruct (sdev st) as [d|]; [apply dev_close_streams | by exists (Ok tt), s]. }
  destruct Hd as (r & s1 & -> & H1 & H2). unfold modify, lift. destruct r as [u|e]; cbn [fst snd is_ok set_streams streams]; [|by rewrite H1].
  unfold update_stream, modify. cbn. rewrite H1, H2. split; [done|]. intros _ y sid' Hy. cbn in Hy |- *. apply lookup_delete_Some in Hy as [Hne Hy].
  destruct (Hok y sid' Hy) as (st' & Hst' & Hfd'). exists st'. split; [|done].
  rewrite lookup_alter_ne; [done|]. intros ->. rewrite Hst in Hst'. injection Hst' as <-. congruence.
Qed.

Lemma close_all_spec n : forall i s s', streams_ok s -> close_all n i s = (Ok tt, s') ->
  streams_ok s' /\ (forall x, i <= x < i + Z.of_nat n -> streams s' !! x = None) /\ streams s' ⊆ streams s.
Proof.
  induction n as [|n IH]; intros i s s' Hok H; cbn [close_all] in H.
  { injection H as <-. split; [done|]. split; [lia|done]. }
  unfold bind at 1, gets in H. destruct (streams s !! i) as [sid|] eqn:Ei.
  - destruct (Hok i sid Ei) as (st & Hst & Hfd). pose proof (close_spec sid i st s Hok Hst Hfd) as [Hd Hk].
    unfold bind in H. destruct (close sid s) as [[u|e] s1]; [|done]. cbn [fst snd is_ok] in *. specialize (Hk eq_refl).
    destruct (IH (i + 1) s1 s' Hk H) as (H1 & H2 & H3). split; [done|]. rewrite Hd in H3. split.
    + intros x Hx. destruct (decide (x = i)) as [->|]; [|apply H2; lia]. destruct (streams s' !! i) eqn:E; [|done].
      apply (lookup_weaken _ _ _ _ E) in H3. by rewrite lookup_delete_eq in H3.
    + etrans; [exact H3|]. apply delete_subseteq.
  - destruct (IH (i + 1) s s' Hok H) as (H1 & H2 & H3). split; [done|]. split; [|done].
    intros x Hx. destruct (decide (x = i)) as [->|]; [|apply H2; lia]. destruct (streams s' !! i) eqn:E; [|done].
    apply (lookup_weaken _ _ _ _ E) in H3. congruence.
Qed.

(** When [quit] returns, no descriptor is open, whatever was open before and whatever flushing opened. *)
Theorem quit_closes_all (_fflush : M unit) (s s1 s' : fs) :
  _fflush s = (Ok tt, s1) -> streams_ok s1 -> (forall x, is_Some (streams s1 !! x) -> 0 <= x <= MAX_OPEN_FDS) ->
  quit _fflush s = (Ok tt, s') -> streams s' = empty.
Proof.
  intros Hf Hok Hr H. unfold quit, bind in H. rewrite Hf in H.
  destruct (close_all_spec _ _ _ _ Hok H) as (_ & H1 & H2). apply map_eq. intros x. rewrite lookup_empty.
  destruct (streams s' !! x) as [sid|] eqn:E; [|done]. pose proof (lookup_weaken _ _ _ _ E H2) as E1.
  specialize (Hr x ltac:(eauto)). rewrite <- E. apply H1. lia.
Qed.

(** Of the module's start: nothing is pending; a line without its end is found, and the check prints nothing itself. *)
Example unflushed_found :
  let on_stdout x := (let! sid := gets (fun s => default 0%nat (streams s !! 1)) in
                      write sid Plain x 0 (Z.of_nat (length x)) None false ;;; ret tt) in
  fst (unflushed 10 (ret tt) started_fs) = false
  /\ fst (unflushed 10 (ret tt) (snd (on_stdout (js "ab") started_fs))) = true
  /\ fst (unflushed 10 (on_stdout [10]) (snd (on_stdout (js "ab") started_fs))) = true
  /\ printed (term (snd (unflushed 10 (on_stdout [10]) (snd (on_stdout (js "ab") started_fs))))) = [].
Proof. vm_compute. auto. Qed.

Example quit_started :
  match quit (ret tt) started_fs with (Ok _, s') => streams s' = empty | _ => False end.
Proof. vm_compute. reflexivity. Qed.
