(* ===== verification/OpusSyscalls.v ===== *)
(** * System calls of the Opus module
      ([integrations/lan-remote-access/rustdesk-web-open/libopus.js], [SYSCALLS], [_fd_*] and [_environ_*])

    The functions the WebAssembly module imports to reach the file system, over the
    file system and the memory of the module: vectored reads and writes, seeking
    with 64-bit offsets, links, access checks and the environment.  The arrays the
    module passes lie in its memory; a call whose arrays do not is outside the
    model and ends in [outside]. *)

From stdpp Require Import base list numbers strings gmap.
From Stdlib Require Import ZArith Lia.
From S2P Require Import Prelude JsString Utf8 OpusText OpusValue OpusTty OpusMemfs OpusPath OpusNode OpusFs OpusFsApi OpusFiles OpusDevices.
Local Open Scope Z_scope.

(** ** State and monad *)

Record sys := { sfs : fs; heap : mem; varargs : option Z }.

Definition S (A : Type) : Type := sys -> result A * sys.

Definition sret {A} (a : A) : S A := fun w => (Ok a, w).
Definition sraise {A} (e : jserror) : S A := fun w => (Throw e, w).
Definition sbind {A B} (m : S A) (k : A -> S B) : S B :=
  fun w => match m w with (Ok a, w') => k a w' | (Throw e, w') => (Throw e, w') end.

Notation "'do!' x := m 'in' k" := (sbind m (fun x => k))
  (at level 10, x pattern, m at level 100, k at level 200) : js_scope.

Definition with_fs (w : sys) (s : fs) : sys := {| sfs := s; heap := heap w; varargs := varargs w |}.
Definition with_heap (w : sys) (m : mem) : sys := {| sfs := sfs w; heap := m; varargs := varargs w |}.

Definition on_fs {A} (m : M A) : S A := fun w => let '(r, s) := m (sfs w) in (r, with_fs w s).
Definition set_heap (m : mem) : S unit := fun w => (Ok tt, with_heap w m).

Definition outside : jserror := PlatformError "out of bounds".

(** [HEAP32[a >> 2]] *)
Definition word_at (a : Z) : S Z :=
  fun w => match load32 (heap w) (js_sar a 2) with Some v => (Ok v, w) | None => (Throw outside, w) end.
Definition set_word (a v : Z) : S unit := fun w => (Ok tt, with_heap w (store32 (heap w) (js_sar a 2) v)).

(** The handler around the imported functions: an [ErrnoError] becomes its number. *)
Definition sys_try (m : S Z) : S Z :=
  fun w => match m w with (Throw (ErrnoError n), w') | (Throw (ErrnoErrorAt n _), w') => (Ok n, w') | r => r end.

(** ** Helpers of [SYSCALLS] *)

Section Calls.
Variable stack : nat.

Definition getStreamFromFD (fd : Z) : S nat :=
  fun w => match streams (sfs w) !! fd with Some sid => (Ok sid, w) | None => (Throw (ErrnoError 8), w) end.

Definition starts_slash (path : jsstr) : bool := match path with c :: _ => c =? slash | [] => false end.

(** [dirfd] is -100 for the working directory. *)
Definition calculateAt (dirfd : Z) (path : jsstr) (allowEmpty : bool) : S jsstr :=
  if starts_slash path then sret path
  else
    do! dir := (if dirfd =? -100 then on_fs (gets currentPath)
                else do! sid := getStreamFromFD dirfd in on_fs (let! st := getStream sid in ret (spath st))) in
    if bool_decide (path = []) then (if allowEmpty then sret dir else sraise (ErrnoError 44))
    else sret (join2 dir path).

Definition doMkdir (path : jsstr) (mode : Z) : S Z :=
  let path := normalize path in
  let path := match last path with Some c => if c =? slash then removelast path else path | None => path end in
  do! _ := on_fs (mkdir stack path (Some mode)) in sret 0.

(** Regular files, character and block devices, pipes and sockets may be made. *)
Definition doMknod (path : jsstr) (mode dev : Z) : S Z :=
  let t := js_and mode 61440 in
  if (t =? 32768) || (t =? 8192) || (t =? 24576) || (t =? 4096) || (t =? 49152)
  then do! _ := on_fs (mknod stack path mode dev) in sret 0
  else sret (-28).

(** The byte under the terminator is put back. *)
Definition doReadlink (path : jsstr) (buf bufsize : Z) : S Z :=
  if bufsize <=? 0 then sret (-28)
  else
    do! r := on_fs (readlink stack path) in
    let len := Z.min bufsize (lengthBytesUTF8 r) in
    fun w =>
      let endChar := num8 (heap w) (buf + len) in
      let m := stringToUTF8 r (heap w) buf (bufsize + 1) in
      (Ok len, with_heap w (store8 m (buf + len) endChar)).

Definition perms_of (amode : Z) : string :=
  ((if flag amode 4 then "r" else "") ++ (if flag amode 2 then "w" else "") ++ (if flag amode 1 then "x" else ""))%string.

Definition doAccess (path : jsstr) (amode : Z) : S Z :=
  if flag amode (-8) then sret (-28)
  else
    do! l := on_fs (look stack path follow) in
    match snd l with
    | None => sret (-44)
    | Some i =>
        if bool_decide (perms_of amode = ""%string) then sret 0
        else do! errCode := on_fs (nodePermissions i (perms_of amode)) in
             sret (if errCode =? 0 then 0 else -2)
    end.

(** A stream on [suggestFD] is closed first. *)
Definition doDup (path : jsstr) (flags suggestFD : Z) : S Z :=
  do! suggest := on_fs (gets (fun s => streams s !! suggestFD)) in
  do! _ := (match suggest with Some sid => on_fs (close sid) | None => sret tt end) in
  do! sid := on_fs (open stack (inl path) flags (Some 0) suggestFD suggestFD) in
  do! st := on_fs (getStream sid) in
  match fd st with Some x => sret x | None => sraise type_error end.

Definition get : S Z :=
  fun w => match varargs w with
           | None => (Throw aborted, w)
           | Some v => word_at v {| sfs := sfs w; heap := heap w; varargs := Some (v + 4) |}
           end.

Definition getStr (UTF8Decoder : bool) (ptr : Z) : S jsstr := fun w => (Ok (UTF8ToString UTF8Decoder (heap w) ptr None), w).

(** Only numbers that fit in 32 bits are accepted. *)
Definition get64 (low high : Z) : S Z :=
  if 0 <=? low then (if high =? 0 then sret low else sraise aborted)
  else (if high =? -1 then sret low else sraise aborted).

Definition doMsync (addr : Z) (sid : nat) (len flags offset : Z) : S Z := fun w =>
  on_fs (msync sid (subarray (heap w) addr (addr + len)) offset len flags) w.

(** ** Vectored transfers *)

(** [FS.read] into the memory: what a device stored before an error stays. *)
Definition heap_read (sid : nat) (ptr len : Z) (offset : option Z) : S Z :=
  fun w => match read_into sid (heap w) ptr len offset (sfs w) with
           | (Ok (m, r), s) => (r, {| sfs := s; heap := m; varargs := varargs w |})
           | (Throw e, s) => (Throw e, with_fs w s)
           end.

Definition heap_write (sid : nat) (ptr len : Z) (offset : option Z) : S Z :=
  fun w => on_fs (write sid Signed (heap w) ptr len offset false) w.

Fixpoint readv_loop (sid : nat) (iov : Z) (n : nat) (i : Z) (offset : option Z) (total : Z) : S Z :=
  match n with
  | O => sret total
  | Datatypes.S n' =>
      do! ptr := word_at (iov + i * 8) in
      do! len := word_at (iov + (i * 8 + 4)) in
      do! curr := heap_read sid ptr len offset in
      if curr <? 0 then sret (-1)
      else if curr <? len then sret (total + curr)
      else readv_loop sid iov n' (i + 1) offset (total + curr)
  end.

Definition doReadv (sid : nat) (iov iovcnt : Z) (offset : option Z) : S Z := readv_loop sid iov (Z.to_nat iovcnt) 0 offset 0.

Fixpoint writev_loop (sid : nat) (iov : Z) (n : nat) (i : Z) (offset : option Z) (total : Z) : S Z :=
  match n with
  | O => sret total
  | Datatypes.S n' =>
      do! ptr := word_at (iov + i * 8) in
      do! len := word_at (iov + (i * 8 + 4)) in
      do! curr := heap_write sid ptr len offset in
      if curr <? 0 then sret (-1)
      else writev_loop sid iov n' (i + 1) offset (total + curr)
  end.

Definition doWritev (sid : nat) (iov iovcnt : Z) (offset : option Z) : S Z := writev_loop sid iov (Z.to_nat iovcnt) 0 offset 0.

(** ** Imported functions *)

Definition _fd_close (fd : Z) : S Z :=
  sys_try (do! sid := getStreamFromFD fd in do! _ := on_fs (close sid) in sret 0).

Definition _fd_read (fd iov iovcnt pnum : Z) : S Z :=
  sys_try (do! sid := getStreamFromFD fd in do! num := doReadv sid iov iovcnt None in do! _ := set_word pnum num in sret 0).

Definition _fd_write (fd iov iovcnt pnum : Z) : S Z :=
  sys_try (do! sid := getStreamFromFD fd in do! num := doWritev sid iov iovcnt None in do! _ := set_word pnum num in sret 0).

Definition DOUBLE_LIMIT : Z := 0x20000000000000.

(** The offset is a 64-bit number in two halves; no call here leaves directory state to reset. *)
Definition _fd_seek (fd offset_low offset_high whence newOffset : Z) : S Z :=
  sys_try (
    do! sid := getStreamFromFD fd in
    let offset := offset_high * 0x100000000 + to_uint32 offset_low in
    if (offset <=? - DOUBLE_LIMIT) || (DOUBLE_LIMIT <=? offset) then sret (-61)
    else
      do! _ := on_fs (llseek sid offset whence) in
      do! st := on_fs (getStream sid) in
      do! _ := set_word newOffset (low_half (sposition st)) in
      do! _ := set_word (newOffset + 4) (high_half (sposition st)) in
      sret 0).

End Calls.

(** ** Vectored transfers on files *)

(** The vectors of an array of [n] pairs in the memory. *)
Fixpoint iovecs (m : mem) (iov : Z) (n : nat) (i : Z) : option (list (Z * Z)) :=
  match n with
  | O => Some []
  | Datatypes.S n' =>
      match load32 m (js_sar (iov + i * 8) 2), load32 m (js_sar (iov + (i * 8 + 4)) 2), iovecs m iov n' (i + 1) with
      | Some ptr, Some len, Some vs => Some ((ptr, len) :: vs)
      | _, _, _ => None
      end
  end.

Definition in_memory (m : mem) (v : Z * Z) : Prop := 0 <= fst v /\ 0 <= snd v /\ fst v + snd v <= Z.of_nat (length m).

(** The bytes the vectors show, one after another. *)
Definition gather (m : mem) (vs : list (Z * Z)) : list Z := concat (map (fun '(p, l) => subarray m p (p + l)) vs).

Definition total_len (vs : list (Z * Z)) : Z := foldr (fun v n => snd v + n) 0 vs.

Lemma write_spec_app d p a b : (0 < length a)%nat ->
  write_spec (write_spec d p a) (p + length a) b = write_spec d p (a ++ b).
Proof.
  intros Ha. unfold write_spec at 2 3. set (x := take p (d ++ repeat 0 (p - length d))). set (y := drop (p + length a) d).
  assert (Hx : length x = p) by (subst x; rewrite length_take, length_app, repeat_length; lia).
  unfold write_spec. rewrite !length_app, Hx. replace (p + length a - (p + (length a + length y)))%nat with 0%nat by lia. cbn [repeat]. rewrite app_nil_r.
  rewrite (assoc_L (++) x a y), take_app_length' by (rewrite length_app; lia). rewrite <- !(assoc_L (++)). do 3 f_equal.
  rewrite (assoc_L (++) x a y), drop_app_ge by (rewrite length_app; lia). rewrite length_app, Hx. subst y. rewrite drop_drop. f_equal. lia.
Qed.

Lemma write_at_app d p a b : 0 <= p -> write_at (write_at d p a) (p + Z.of_nat (length a)) b = write_at d p (a ++ b).
Proof.
  intros Hp. unfold write_at. destruct a as [|x a]; [cbn [app length]; change (Z.of_nat 0) with 0; by rewrite Z.add_0_r|].
  destruct b as [|y b]; [by rewrite app_nil_r|]. cbn [app].
  replace (Z.to_nat (p + Z.of_nat (length (x :: a)))) with (Z.to_nat p + length (x :: a))%nat by lia.
  rewrite write_spec_app by (cbn; lia). done.
Qed.

(** The state after writes through a stream: the file has [f] and the stream is at [p]. *)
Definition wrote (s : fs) (sid : nat) (st : stream) (n : node) (f : fdata) (p : Z) : fs :=
  at_position (set_nodes s (<[snode st := with_file n f]> (nodes s))) sid st p.

Lemma wrote_stream s sid st n f p : file_stream s sid st n -> wf f -> 0 <= p ->
  file_stream (wrote s sid st n f p) sid (with_position st p) (with_file n f).
Proof.
  intros [Hs Ho Hops Hn [Hf _] _] Hw Hp. split; try done; cbn; [apply lookup_insert_eq|apply lookup_insert_eq].
Qed.

Lemma wrote_wrote s sid st n f p f' p' :
  wrote (wrote s sid st n f p) sid (with_position st p) (with_file n f) f' p' = wrote s sid st n f' p'.
Proof. unfold wrote, at_position, set_nodes, set_streams. cbn. by rewrite !insert_insert_eq. Qed.

Lemma wrote_same s sid st n : file_stream s sid st n -> wrote s sid st n (file n) (sposition st) = s.
Proof.
  intros [Hs _ _ Hn _ _]. unfold wrote, at_position, set_nodes, set_streams. cbn.
  replace (with_position st (sposition st)) with st by by destruct st. replace (with_file n (file n)) with n by by destruct n.
  rewrite !insert_id by done. by destruct s.
Qed.

Lemma writev_loop_spec w sid st n iov k i total vs :
  file_stream (sfs w) sid st n -> accmode (sflags st) <> 0 -> flag (sflags st) 1024 = false ->
  Forall (fun b => 0 <= b < 256) (heap w) -> iovecs (heap w) iov k i = Some vs -> Forall (in_memory (heap w)) vs ->
  exists f, writev_loop sid iov k i None total w = (Ok (total + total_len vs), with_fs w (wrote (sfs w) sid st n f (sposition st + total_len vs)))
    /\ wf f /\ data f = write_at (data (file n)) (sposition st) (gather (heap w) vs).
Proof.
  revert w st n i total vs. induction k as [|k IH]; intros w st n i total vs Hfs Hacc Hap Hb Hv Hin; cbn [iovecs writev_loop] in *.
  - injection Hv as <-. exists (file n). cbn [total_len foldr gather map concat]. rewrite !Z.add_0_r, wrote_same by done.
    split; [by destruct w|]. split; [apply (fs_file _ _ _ _ Hfs)|done].
  - destruct (load32 _ (js_sar (iov + i * 8) 2)) as [ptr|] eqn:E1; [|done]. destruct (load32 _ (js_sar (iov + (i * 8 + 4)) 2)) as [len|] eqn:E2; [|done].
    destruct (iovecs (heap w) iov k (i + 1)) as [vs'|] eqn:E3; [|done]. injection Hv as <-. inv Hin. destruct H1 as (Hp & Hl & Hr). cbn in Hp, Hl, Hr.
    destruct (write_file (sfs w) sid st n Signed (heap w) ptr len Hfs Hacc Hb Hp Hl Hr) as (f1 & Hwr & Hw1 & Hd1).
    assert (Hst : write_start st n = sposition st) by (unfold write_start; by rewrite Hap). rewrite Hst in *. fold (wrote (sfs w) sid st n f1 (sposition st + len)) in Hwr.
    pose proof (fs_pos _ _ _ _ Hfs) as Hpos.
    pose proof (wrote_stream _ _ _ _ f1 (sposition st + len) Hfs Hw1 ltac:(lia)) as Hfs1.
    destruct (IH (with_fs w (wrote (sfs w) sid st n f1 (sposition st + len))) _ _ (i + 1) (total + len) vs' Hfs1) as (f & Hrun & Hwf & Hd); try done.
    exists f. cbn [total_len foldr snd]. fold (total_len vs'). split.
    { unfold sbind at 1, word_at at 1. rewrite E1. unfold sbind at 1, word_at at 1. rewrite E2. unfold sbind at 1, heap_write, on_fs at 1. rewrite Hwr.
      rewrite (proj2 (Z.ltb_ge len 0)) by lia. rewrite Hrun. cbn [sfs with_fs sposition with_position]. rewrite wrote_wrote. by rewrite !Z.add_assoc. }
    split; [done|].
    rewrite Hd. cbn [file with_file sposition with_position heap with_fs]. rewrite Hd1. unfold gather. cbn [map concat]. fold (gather (heap w) vs').
    rewrite <- write_at_app by done. by rewrite subarray_length, Z2Nat.id by lia.
Qed.

(** [bs] in place of the bytes of [m] from [p] on. *)
Definition put (m : mem) (p : Z) (bs : list Z) : mem := take (Z.to_nat p) m ++ bs ++ drop (Z.to_nat p + length bs) m.

(** The bytes [bs] distributed over the vectors; a vector that is not filled is the last one used. *)
Fixpoint scatter (m : mem) (vs : list (Z * Z)) (bs : list Z) : mem :=
  match vs with
  | [] => m
  | (p, l) :: vs' =>
      let part := take (Z.to_nat l) bs in
      if Z.of_nat (length part) <? l then put m p part else scatter (put m p part) vs' (drop (Z.to_nat l) bs)
  end.

Definition fits (m : mem) (p : Z) (bs : list Z) : Prop := 0 <= p /\ p + Z.of_nat (length bs) <= Z.of_nat (length m).

Lemma put_length m p bs : fits m p bs -> length (put m p bs) = length m.
Proof. intros [Hp Hl]. unfold put. rewrite !length_app, length_take, length_drop. lia. Qed.

Lemma load8_put_other m p bs i : fits m p bs -> i < p \/ p + Z.of_nat (length bs) <= i -> load8 (put m p bs) i = load8 m i.
Proof.
  intros [Hp Hl] Hi. unfold load8. destruct (i <? 0) eqn:E; [done|]. bool_prop. unfold put. destruct Hi as [Hi|Hi].
  - rewrite lookup_app_l by (rewrite length_take; lia). apply lookup_take_lt. lia.
  - rewrite (assoc_L (++)), lookup_app_r by (rewrite length_app, length_take; lia). rewrite lookup_drop. f_equal. rewrite length_app, length_take. lia.
Qed.

Lemma load32_put_other m p bs i : fits m p bs -> 4 * i + 4 <= p \/ p + Z.of_nat (length bs) <= 4 * i -> load32 (put m p bs) i = load32 m i.
Proof. intros Hf Hi. unfold load32, load16. rewrite !load8_put_other by (done || lia). done. Qed.

(** An array of vectors in an aligned place. *)
Definition aligned (iov : Z) (n : nat) : Prop := 0 <= iov /\ iov mod 4 = 0 /\ iov + 8 * Z.of_nat n <= 2 ^ 31.

Lemma iovecs_put m p bs iov k i :
  fits m p bs -> 0 <= i -> aligned iov (Z.to_nat i + k) ->
  (p + Z.of_nat (length bs) <= iov \/ iov + 8 * Z.of_nat (Z.to_nat i + k) <= p) ->
  iovecs (put m p bs) iov k i = iovecs m iov k i.
Proof.
  intros Hf. revert i. induction k as [|k IH]; intros i Hi (Ha & Hm & Hb) Hd; cbn [iovecs]; [done|].
  rewrite IH by (unfold aligned; lia). rewrite !js_sar_small by lia. change (2 ^ 2) with 4.
  rewrite !load32_put_other by (done || (Z.to_euclidean_division_equations; lia)). done.
Qed.

Definition clear_of (iov : Z) (n : nat) (v : Z * Z) : Prop := fst v + snd v <= iov \/ iov + 8 * Z.of_nat n <= fst v.

Lemma at_position_stream s sid st n p : file_stream s sid st n -> 0 <= p -> file_stream (at_position s sid st p) sid (with_position st p) n.
Proof. intros [Hs Ho Hops Hn Hf _] Hp. split; try done. apply lookup_insert_eq. Qed.

Lemma at_position_twice s sid st p q : at_position (at_position s sid st p) sid (with_position st p) q = at_position s sid st q.
Proof. unfold at_position, set_streams. cbn. by rewrite insert_insert_eq. Qed.

Lemma at_position_same s sid st n : file_stream s sid st n -> at_position s sid st (sposition st) = s.
Proof.
  intros [Hs _ _ _ _ _]. unfold at_position, set_streams. replace (with_position st (sposition st)) with st by by destruct st.
  rewrite insert_id by done. by destruct s.
Qed.

Lemma readv_loop_spec w sid st n iov k i total vs :
  file_stream (sfs w) sid st n -> accmode (sflags st) <> 1 -> Forall (fun b => 0 <= b < 256) (data (file n)) ->
  iovecs (heap w) iov k i = Some vs -> Forall (in_memory (heap w)) vs ->
  0 <= i -> aligned iov (Z.to_nat i + k) -> Forall (clear_of iov (Z.to_nat i + k)) vs ->
  let bs := drop (Z.to_nat (sposition st)) (data (file n)) in
  let count := Z.min (total_len vs) (Z.of_nat (length bs)) in
  readv_loop sid iov k i None total w
  = (Ok (total + count), {| sfs := at_position (sfs w) sid st (sposition st + count); heap := scatter (heap w) vs bs; varargs := varargs w |}).
Proof.
  revert w st i total vs. induction k as [|k IH]; intros w st i total vs Hfs Hacc Hb Hv Hin Hi Hal Hcl; cbn [iovecs readv_loop] in *; cbv zeta.
  - injection Hv as <-. cbn [total_len foldr scatter]. rewrite Z.min_l, !Z.add_0_r, (at_position_same _ _ _ _ Hfs) by lia. by destruct w.
  - destruct (load32 _ (js_sar (iov + i * 8) 2)) as [ptr|] eqn:E1; [|done]. destruct (load32 _ (js_sar (iov + (i * 8 + 4)) 2)) as [len|] eqn:E2; [|done].
    destruct (iovecs (heap w) iov k (i + 1)) as [vs'|] eqn:E3; [|done]. injection Hv as <-. inv Hin. inv Hcl. destruct H1 as (Hp & Hl & Hr). cbn in Hp, Hl, Hr.
    pose proof (fs_pos _ _ _ _ Hfs) as Hpos.
    assert (Htl : 0 <= total_len vs') by (clear -H2; induction H2 as [|v vs (_ & ? & _) _ IHv]; unfold total_len in *; cbn; lia).
    pose proof (read_file (sfs w) sid st n (heap w) ptr len None Hfs Hacc Hb Hp Hl Hr ltac:(cbn; lia)) as Hread. cbv zeta in Hread.
    change (default (sposition st) None) with (sposition st) in Hread.
    assert (Hpart : subarray (data (file n)) (sposition st) (sposition st + len) = take (Z.to_nat len) (drop (Z.to_nat (sposition st)) (data (file n))))
      by (unfold subarray; f_equal; lia).
    rewrite Hpart in Hread. set (bs := drop (Z.to_nat (sposition st)) (data (file n))) in *. set (part := take (Z.to_nat len) bs) in *.
    fold (put (heap w) ptr part) in Hread.
    assert (Hlp : length part = Nat.min (Z.to_nat len) (length bs)) by (subst part; apply length_take).
    unfold sbind at 1, word_at at 1. rewrite E1. unfold sbind at 1, word_at at 1. rewrite E2. unfold sbind at 1, heap_read at 1. rewrite Hread.
    rewrite (proj2 (Z.ltb_ge (Z.of_nat (length part)) 0)) by lia. cbn [scatter]. fold part. cbn [total_len foldr snd]. fold (total_len vs').
    destruct (Z.of_nat (length part) <? len) eqn:Eshort; bool_prop.
    { unfold sret. rewrite Z.min_r by lia. replace (Z.of_nat (length part)) with (Z.of_nat (length bs)) by lia. done. }
    assert (Hpl : Z.of_nat (length part) = len) by lia.
    assert (Hfit : fits (heap w) ptr part) by (unfold fits; lia).
    pose proof (at_position_stream _ _ _ _ (sposition st + Z.of_nat (length part)) Hfs ltac:(lia)) as Hfs1.
    rewrite (IH {| sfs := at_position (sfs w) sid st (sposition st + Z.of_nat (length part)); heap := put (heap w) ptr part; varargs := varargs w |}
               _ (i + 1) _ vs' Hfs1); try done; cbn [heap sfs varargs sposition with_position].
    + rewrite at_position_twice. subst bs. rewrite drop_drop, length_drop in *.
      replace (Z.to_nat (sposition st) + Z.to_nat len)%nat with (Z.to_nat (sposition st + Z.of_nat (length part))) by lia.
      rewrite !length_drop in *. match goal with |- (Ok ?x, {| sfs := at_position _ _ _ ?y |}) = (Ok ?x', {| sfs := at_position _ _ _ ?y' |}) =>
        replace x with x' by lia; replace y with y' by lia end. done.
    + rewrite iovecs_put; [done|done|lia| |]; [replace (Z.to_nat (i + 1) + k)%nat with (Z.to_nat i + Datatypes.S k)%nat by lia; done|].
      unfold clear_of in *. cbn in *. lia.
    + eapply Forall_impl; [exact H2|]. intros v. unfold in_memory. by rewrite put_length.
    + lia.
    + replace (Z.to_nat (i + 1) + k)%nat with (Z.to_nat i + Datatypes.S k)%nat by lia. done.
    + replace (Z.to_nat (i + 1) + k)%nat with (Z.to_nat i + Datatypes.S k)%nat by lia. done.
Qed.

(** [_fd_write] on a file is one write of the gathered bytes.  For a descriptor open
    for writing on a regular file, with vectors inside the memory, the call returns
    0, stores the total at [pnum], and the file afterwards has the concatenation of
    the vectors' bytes at the position of the stream, which moves behind them;
    nothing else of the file system changes. *)
Theorem fd_write_gathers (w : sys) (x : Z) (sid : nat) (st : stream) (n : node) (iov iovcnt pnum : Z) (vs : list (Z * Z)) :
  streams (sfs w) !! x = Some sid -> file_stream (sfs w) sid st n -> accmode (sflags st) <> 0 -> flag (sflags st) 1024 = false ->
  Forall (fun b => 0 <= b < 256) (heap w) -> iovecs (heap w) iov (Z.to_nat iovcnt) 0 = Some vs -> Forall (in_memory (heap w)) vs ->
  exists f, _fd_write x iov iovcnt pnum w
      = (Ok 0, {| sfs := wrote (sfs w) sid st n f (sposition st + total_len vs);
                  heap := store32 (heap w) (js_sar pnum 2) (total_len vs); varargs := varargs w |})
    /\ wf f /\ data f = write_at (data (file n)) (sposition st) (gather (heap w) vs).
Proof.
  intros Hx Hfs Hacc Hap Hb Hv Hin. destruct (writev_loop_spec w sid st n iov (Z.to_nat iovcnt) 0 0 vs) as (f & Hrun & Hw & Hd); try done.
  exists f. split; [|done]. unfold _fd_write, sys_try, sbind at 1, getStreamFromFD. rewrite Hx. unfold sbind at 1, doWritev. rewrite Hrun. done.
Qed.

(** [_fd_read] on a file distributes the bytes of the file.  For a descriptor open for
    reading on a regular file, with vectors inside the memory and away from their
    own array, the call returns 0 and stores at [pnum] how many bytes it read: as
    many as the vectors hold and the file still has; they fill the vectors in order,
    the stream moves behind them and the file system is otherwise unchanged. *)
Theorem fd_read_scatters (w : sys) (x : Z) (sid : nat) (st : stream) (n : node) (iov iovcnt pnum : Z) (vs : list (Z * Z)) :
  streams (sfs w) !! x = Some sid -> file_stream (sfs w) sid st n -> accmode (sflags st) <> 1 ->
  Forall (fun b => 0 <= b < 256) (data (file n)) -> iovecs (heap w) iov (Z.to_nat iovcnt) 0 = Some vs -> Forall (in_memory (heap w)) vs ->
  aligned iov (Z.to_nat iovcnt) -> Forall (clear_of iov (Z.to_nat iovcnt)) vs ->
  let bs := drop (Z.to_nat (sposition st)) (data (file n)) in
  let count := Z.min (total_len vs) (Z.of_nat (length bs)) in
  _fd_read x iov iovcnt pnum w
  = (Ok 0, {| sfs := at_position (sfs w) sid st (sposition st + count);
              heap := store32 (scatter (heap w) vs bs) (js_sar pnum 2) count; varargs := varargs w |}).
Proof.
  intros Hx Hfs Hacc Hb Hv Hin Hal Hcl bs count. pose proof (readv_loop_spec w sid st n iov (Z.to_nat iovcnt) 0 0 vs) as Hrun. cbv zeta in Hrun.
  unfold _fd_read, sys_try, sbind at 1, getStreamFromFD. rewrite Hx. unfold sbind at 1, doReadv. rewrite Hrun by (done || lia). done.
Qed.

(** A file of five bytes, open for reading and writing, and two vectors at address 32. *)
Definition sample_files : fs :=
  let '(_, s) := (writeFile 10 (js "/tmp/a") [1; 2; 3; 4; 5] None ;;; open 10 (inl (js "/tmp/a")) 2 None 0 MAX_OPEN_FDS) (snd (boot 10)) in s.
Definition sample_heap : mem :=
  store32 (store32 (store32 (store32 (map Z.of_nat (seq 0 64)) 8 0) 9 2) 10 16) 11 4.
Definition sample_sys : sys := {| sfs := sample_files; heap := sample_heap; varargs := None |}.

(** The stream of the descriptor 0 and its file, once computed. *)
Definition sample_stream : stream :=
  {| snode := 5; spath := js "/tmp/a"; sflags := 2; sposition := 0; seekable := true; sops := FileOps; fd := Some 0; sdev := None |}.
Definition sample_node : node := default {| parent := 0; mount_of := None; mounted := None; name := []; mode := 0; rdev := 0; node_ops := NoOps;
  entries := []; file := new_file; link := []; name_next := None |} (nodes sample_files !! 5%nat).
Lemma sample_file_stream : file_stream sample_files 1 sample_stream sample_node.
Proof.
  split; [vm_compute; reflexivity|discriminate|done|vm_compute; reflexivity| |done].
  split; [vm_compute; reflexivity|]. split; [vm_compute; discriminate|vm_compute; discriminate|].
  intros c Hc. vm_compute in Hc. injection Hc as <-. vm_compute. constructor.
Qed.

Theorem fd_write_witness :
  exists f, _fd_write 0 32 2 60 sample_sys
      = (Ok 0, {| sfs := wrote sample_files 1 sample_stream sample_node f 6; heap := store32 sample_heap (js_sar 60 2) 6; varargs := None |})
    /\ wf f /\ data f = [0; 1; 16; 17; 18; 19].
Proof.
  destruct (fd_write_gathers sample_sys 0 1 sample_stream sample_node 32 2 60 [(0, 2); (16, 4)]) as (f & H1 & H2 & H3).
  - vm_compute. reflexivity.
  - exact sample_file_stream.
  - vm_compute. discriminate.
  - vm_compute. reflexivity.
  - apply Forall_forall. intros b Hb. apply (bool_decide_unpack _). revert b Hb. apply Forall_forall.
    apply (bool_decide_unpack _). vm_compute. exact I.
  - vm_compute. reflexivity.
  - repeat constructor; vm_compute; discriminate.
  - exists f. split; [exact H1|]. split; [exact H2|]. rewrite H3. vm_compute. reflexivity.
Defined.

Theorem fd_read_witness :
  _fd_read 0 32 2 60 sample_sys
  = (Ok 0, {| sfs := at_position sample_files 1 sample_stream 5; heap := store32 (scatter sample_heap [(0, 2); (16, 4)] [1; 2; 3; 4; 5]) (js_sar 60 2) 5;
              varargs := None |}).
Proof.
  pose proof (fd_read_scatters sample_sys 0 1 sample_stream sample_node 32 2 60 [(0, 2); (16, 4)]) as H. cbv zeta in H.
  etransitivity; [apply H|vm_compute; reflexivity].
  - vm_compute. reflexivity.
  - exact sample_file_stream.
  - vm_compute. discriminate.
  - vm_compute. repeat constructor; discriminate.
  - vm_compute. reflexivity.
  - repeat constructor; vm_compute; discriminate.
  - repeat split; vm_compute; discriminate.
  - repeat constructor; vm_compute; discriminate.
Defined.

(** ** Seeking *)

Definition seek_target (st : stream) (n : node) (offset whence : Z) : Z :=
  if whence =? 1 then offset + sposition st else if whence =? 2 then offset + usedBytes (file n) else offset.

Lemma llseek_file s sid st n offset whence :
  file_stream s sid st n -> 0 <= whence <= 2 ->
  llseek sid offset whence s
  = if seek_target st n offset whence <? 0 then (Throw (ErrnoError 28), s)
    else (Ok (seek_target st n offset whence), at_position s sid st (seek_target st n offset whence)).
Proof.
  intros [Hs Ho (Hops & Hdev & Hsk) Hn [Hfile _] _] Hw. unfold llseek, bind at 1, getStream at 1. rewrite Hs, (bool_decide_eq_false_2 (fd st = None)) by done.
  unfold can_seek. rewrite Hsk, Hops. cbn [negb orb]. rewrite (bool_decide_eq_false_2 (FileOps = ChrOps)) by done.
  replace (negb (whence =? 0) && negb (whence =? 1) && negb (whence =? 2)) with false
    by (destruct (Z.eqb_spec whence 0), (Z.eqb_spec whence 1), (Z.eqb_spec whence 2); try done; lia).
  unfold bind at 1, getNode at 1. rewrite Hn, Hfile. unfold bind at 1, lift, memfs_llseek, seek_target. rewrite andb_true_r.
  destruct (_ <? 0); [done|]. unfold bind, update_stream, modify, ret. by rewrite (alter_known _ _ _ st).
Qed.

Lemma high_half_small p : 0 <= p < 2 ^ 53 -> to_uint32 (to_int32 (low_half p)) + 2 ^ 32 * to_int32 (high_half p) = p.
Proof.
  intros Hp. pose proof (halves_exact p ltac:(lia)) as H. rewrite (Z.mod_small p) in H by lia.
  unfold to_uint32 at 1. rewrite to_int32_mod. unfold low_half in *. rewrite Z.mod_small by apply to_uint32_range.
  pose proof (to_uint32_range p). rewrite to_int32_small by lia. exact H.
Qed.

(** [_fd_seek] moves a file and reports the position as 64 bits.  For an offset of
    fewer than 53 bits given in two halves, the call on a file returns 0 and leaves
    the stream at the position counted from the start, from the position or from
    the end, which the two words at [newOffset] give back; a target before the start
    is refused with EINVAL and changes nothing. *)
Theorem fd_seek_reports (w : sys) (x : Z) (sid : nat) (st : stream) (n : node) (low high whence newOffset : Z) :
  streams (sfs w) !! x = Some sid -> file_stream (sfs w) sid st n -> 0 <= whence <= 2 ->
  0 <= newOffset < 2 ^ 31 - 4 -> newOffset mod 4 = 0 -> newOffset + 8 <= Z.of_nat (length (heap w)) ->
  let offset := high * 0x100000000 + to_uint32 low in
  let p := seek_target st n offset whence in
  Z.abs offset < DOUBLE_LIMIT -> p < DOUBLE_LIMIT ->
  if p <? 0 then _fd_seek x low high whence newOffset w = (Ok 28, w)
  else exists w' lo hi, _fd_seek x low high whence newOffset w = (Ok 0, w') /\ sfs w' = at_position (sfs w) sid st p
    /\ load32 (heap w') (newOffset / 4) = Some lo /\ load32 (heap w') (newOffset / 4 + 1) = Some hi /\ to_uint32 lo + 2 ^ 32 * hi = p
    /\ forall i, i < newOffset / 4 \/ newOffset / 4 + 1 < i -> load32 (heap w') i = load32 (heap w) i.
Proof.
  intros Hx Hfs Hwh Hn Hal Hlen offset p Hoff Hp. unfold DOUBLE_LIMIT in *.
  assert (Hrun : _fd_seek x low high whence newOffset w = sys_try (fun w => match llseek sid offset whence (sfs w) with
      | (Ok _, s) => (do! st := on_fs (getStream sid) in do! _ := set_word newOffset (low_half (sposition st)) in
                      do! _ := set_word (newOffset + 4) (high_half (sposition st)) in sret 0) (with_fs w s)
      | (Throw e, s) => (Throw e, with_fs w s) end) w).
  { unfold _fd_seek, sys_try, sbind at 1, getStreamFromFD. rewrite Hx. fold offset. unfold DOUBLE_LIMIT.
    rewrite (proj2 (Z.leb_gt offset _)), (proj2 (Z.leb_gt _ offset)) by lia. cbn [orb].
    unfold sbind at 1, on_fs at 1. destruct (llseek sid offset whence (sfs w)) as [[?|?] ?]; done. }
  rewrite Hrun. unfold sys_try. rewrite (llseek_file _ _ _ n) by done. fold p. destruct (p <? 0) eqn:E; [by destruct w|]. bool_prop.
  unfold sbind, on_fs, getStream, set_word, sret, with_heap, with_fs. cbn [sfs at_position set_streams stream_store]. rewrite lookup_insert_eq.
  cbn [sposition with_position heap varargs]. change 4 with (2 ^ 2) in *. rewrite !js_sar_small by lia. change (2 ^ 2) with 4 in *.
  replace ((newOffset + 4) / 4) with (newOffset / 4 + 1) by (Z.to_euclidean_division_equations; lia).
  do 3 eexists. split; [reflexivity|]. split; [reflexivity|]. cbn [heap].
  assert (H4 : 4 * (newOffset / 4) = newOffset) by (Z.to_euclidean_division_equations; lia).
  split; [rewrite load32_store_other by lia; apply load32_store_same; lia|].
  split; [apply load32_store_same; rewrite ?store32_length; lia|]. split; [apply high_half_small; lia|].
  intros i Hi. rewrite !load32_store_other by lia. done.
Qed.

Theorem fd_seek_witness :
  exists w' lo hi, _fd_seek 0 (-4) (-1) 2 40 sample_sys = (Ok 0, w') /\ sfs w' = at_position sample_files 1 sample_stream 1
    /\ load32 (heap w') 10 = Some lo /\ load32 (heap w') 11 = Some hi /\ to_uint32 lo + 2 ^ 32 * hi = 1
    /\ forall i, i < 10 \/ 11 < i -> load32 (heap w') i = load32 sample_heap i.
Proof.
  assert (Hp : seek_target sample_stream sample_node (-1 * 0x100000000 + to_uint32 (-4)) 2 = 1) by (vm_compute; reflexivity).
  pose proof (fd_seek_reports sample_sys 0 1 sample_stream sample_node (-4) (-1) 2 40 ltac:(vm_compute; reflexivity) sample_file_stream ltac:(lia)
                ltac:(lia) eq_refl ltac:(vm_compute; discriminate)) as H. cbv zeta in H. rewrite Hp in H.
  exact (H ltac:(vm_compute; reflexivity) ltac:(vm_compute; reflexivity)).
Defined.

(** ** Writing to a terminal *)

(** A stream open for writing on a terminal. *)
Record tty_stream (s : fs) (sid : nat) (st : stream) (id : nat) (x : tty) : Prop := {
  ts_store : stream_store s !! sid = Some st;
  ts_open : fd st <> None;
  ts_dev : sops st = ChrOps /\ sdev st = Some (STty (Some id)) /\ seekable st = false;
  ts_node : exists n, nodes s !! snode st = Some n /\ isDir (mode n) = false;
  ts_access : accmode (sflags st) <> 0;
  ts_tty : tty_store (term s) !! id = Some x
}.

Lemma elements_in_range k m p l : in_memory m (p, l) -> elements k m p l = map Some (map (elem (signed k)) (subarray m p (p + l))).
Proof.
  intros (Hp & Hl & Hr). cbn in *. apply list_eq. intros i. unfold elements. rewrite map_map.
  change (map ?f (seq 0 ?n)) with (f <$> seq 0 n). change (map ?f (subarray _ _ _)) with (f <$> subarray m p (p + l)). rewrite !list_lookup_fmap.
  destruct (decide (i < Z.to_nat l)%nat) as [Hi|Hi].
  - rewrite lookup_seq_lt by done. cbn [fmap option_fmap option_map Nat.add]. unfold load8. rewrite (proj2 (Z.ltb_ge _ 0)) by lia.
    unfold subarray. rewrite lookup_take_lt, lookup_drop by lia. replace (Z.to_nat (p + Z.of_nat i)) with (Z.to_nat p + i)%nat by lia.
    destruct (lookup_lt_is_Some_2 m (Z.to_nat p + i)) as [b ->]; [lia|]. done.
  - rewrite lookup_seq_ge by lia. rewrite lookup_ge_None_2; [done|]. rewrite subarray_length by lia. lia.
Qed.

Lemma write_tty s sid st id x m p l :
  tty_stream s sid st id x -> in_memory m (p, l) ->
  write sid Signed m p l None false s
  = (Ok l, at_position (set_term s (write_calls id [map sign8 (subarray m p (p + l))] (term s))) sid st (sposition st + l)).
Proof.
  intros [Hs Ho (Hops & Hdev & Hsk) (n & Hn & Hd) Hacc Ht] Hin. pose proof Hin as (Hp & Hl & Hr). cbn in Hp, Hl, Hr.
  unfold write, bind at 1, getStream at 1. rewrite Hs, (proj2 (Z.ltb_ge l 0)) by lia. cbn [negative orb].
  rewrite bool_decide_eq_false_2 by done. rewrite (proj2 (Z.eqb_neq _ 0)) by done. unfold bind at 1, getNode at 1. rewrite Hn, Hd.
  unfold can_transfer. rewrite Hops, Hdev, Hsk. rewrite bool_decide_eq_true_2 by done. cbn [negb andb]. rewrite (bind_ok _ _ s tt s) by done.
  unfold bind at 1, getStream at 1. rewrite Hs, bool_decide_eq_false_2 by (intros [? ?]; discriminate). cbn [andb]. rewrite Hdev. cbn [dev_write].
  rewrite elements_in_range by done. cbn [signed]. change (elem true) with sign8.
  assert (Hw : tty_write (Some id) (map Some (map sign8 (subarray m p (p + l)))) (term s)
               = (Ok l, write_calls id [map sign8 (subarray m p (p + l))] (term s))).
  { cbn [write_calls tty_write]. rewrite Ht. destruct (put_chars _ x) as [x' ls]. cbn. by rewrite !length_map, subarray_length, Z2Nat.id by lia. }
  unfold bind, on_term, lift. rewrite Hw. unfold update_stream, modify, ret. cbn [streams set_term stream_store]. by rewrite (alter_known _ _ _ st).
Qed.

(** The calls of a vectored write, as the terminal sees them. *)
Definition chunks (m : mem) (vs : list (Z * Z)) : list (list Z) := map (fun '(p, l) => map sign8 (subarray m p (p + l))) vs.

Lemma write_calls_tty id calls t x : tty_store t !! id = Some x ->
  exists y, tty_store (write_calls id calls t) !! id = Some y.
Proof.
  intros Hx. rewrite (write_calls_spec id calls t x Hx). destruct (put_chars _ x) as [y l]. exists y. apply lookup_insert_eq.
Qed.

Lemma writev_tty w sid st id x iov k i total vs :
  tty_stream (sfs w) sid st id x -> iovecs (heap w) iov k i = Some vs -> Forall (in_memory (heap w)) vs ->
  exists s' p, writev_loop sid iov k i None total w = (Ok (total + total_len vs), with_fs w s')
    /\ term s' = write_calls id (chunks (heap w) vs) (term (sfs w)) /\ s' = at_position (set_term (sfs w) (term s')) sid st p.
Proof.
  revert w st x i total vs. induction k as [|k IH]; intros w st x i total vs Hts Hv Hin; cbn [iovecs writev_loop] in *.
  - injection Hv as <-. exists (sfs w), (sposition st). cbn [total_len foldr chunks map write_calls]. rewrite Z.add_0_r. split; [by destruct w|].
    split; [done|]. destruct Hts as [Hs _ _ _ _ _]. unfold at_position, set_streams, set_term. cbn.
    replace (with_position st (sposition st)) with st by by destruct st. rewrite insert_id by done. by destruct (sfs w).
  - destruct (load32 _ (js_sar (iov + i * 8) 2)) as [ptr|] eqn:E1; [|done]. destruct (load32 _ (js_sar (iov + (i * 8 + 4)) 2)) as [len|] eqn:E2; [|done].
    destruct (iovecs (heap w) iov k (i + 1)) as [vs'|] eqn:E3; [|done]. injection Hv as <-. inv Hin.
    pose proof (write_tty (sfs w) sid st id x (heap w) ptr len Hts H1) as Hwr. set (t1 := write_calls id _ _) in Hwr. set (s1 := at_position _ _ _ _) in Hwr.
    assert (Hts1 : exists y, tty_stream s1 sid (with_position st (sposition st + len)) id y).
    { destruct Hts as [Hs Ho Hd Hn Ha Ht]. destruct (write_calls_tty id [map sign8 (subarray (heap w) ptr (ptr + len))] (term (sfs w)) x Ht) as [y Hy].
      exists y. split; try done. apply lookup_insert_eq. }
    destruct Hts1 as [y Hts1]. destruct (IH (with_fs w s1) _ y (i + 1) (total + len) vs' Hts1 E3 H2) as (s' & p & Hrun & Ht & Hs').
    exists s', p. split; [|split].
    + unfold sbind at 1, word_at at 1. rewrite E1. unfold sbind at 1, word_at at 1. rewrite E2. unfold sbind at 1, heap_write, on_fs at 1. rewrite Hwr.
      destruct H1 as (_ & Hl & _). cbn in Hl. rewrite (proj2 (Z.ltb_ge len 0)) by lia. rewrite Hrun. cbn [total_len foldr snd]. fold (total_len vs').
      by rewrite Z.add_assoc.
    + rewrite Ht. done.
    + rewrite Hs' at 1. unfold s1, at_position, set_term, set_streams. cbn. by rewrite insert_insert_eq.
Qed.

Lemma chunks_gather m vs : concat (chunks m vs) = map sign8 (gather m vs).
Proof. unfold gather, chunks. induction vs as [|[p l] vs IH]; [done|]. cbn [map concat]. rewrite map_app. f_equal. exact IH. Qed.

(** The standard output prints text.  For a stream open for writing on a terminal
    with nothing pending, [_fd_write] of vectors whose bytes are the UTF-8 text of
    some lines returns 0 and prints exactly those lines, in order, with [out] or
    [err] as the terminal says; the bytes of an unfinished line stay pending. *)
Theorem fd_write_prints (w : sys) (fd : Z) (sid : nat) (st : stream) (id : nat) (x : tty) (iov iovcnt pnum : Z) (vs : list (Z * Z))
    (ls : list (list Z)) (rest : list Z) :
  streams (sfs w) !! fd = Some sid -> tty_stream (sfs w) sid st id x -> tty_output x = [] ->
  iovecs (heap w) iov (Z.to_nat iovcnt) 0 = Some vs -> Forall (in_memory (heap w)) vs ->
  Forall (Forall line_char) ls -> Forall line_char rest -> gather (heap w) vs = lines_text ls rest ->
  exists w', _fd_write fd iov iovcnt pnum w = (Ok 0, w')
    /\ printed (term (sfs w')) = printed (term (sfs w)) ++ map (fun l => (tty_channel (tty_kind x), utf16 l)) ls
    /\ (exists y, tty_store (term (sfs w')) !! id = Some y /\ tty_output y = map sign8 (utf8 rest)).
Proof.
  intros Hx Hts Ho Hv Hin Hls Hr Hg. destruct (writev_tty w sid st id x iov (Z.to_nat iovcnt) 0 0 vs Hts Hv Hin) as (s' & p & Hrun & Ht & Hs').
  destruct (write_calls_lines (term (sfs w)) id x true ls rest (chunks (heap w) vs) (ts_tty _ _ _ _ _ Hts) Ho Hls Hr) as (H1 & (y & H2 & H3 & _) & _).
  { rewrite chunks_gather, Hg. done. }
  eexists. split; [unfold _fd_write, sys_try, sbind at 1, getStreamFromFD; rewrite Hx; unfold sbind at 1, doWritev; rewrite Hrun; reflexivity|].
  cbn [sfs with_fs with_heap]. rewrite Ht. split; [exact H1|]. by exists y.
Qed.

(** A page that prints a greeting and a question to the standard output of a started module, in two vectors. *)
Definition greeting_heap : mem :=
  store32 (store32 (store32 (store32 ([104; 105; 10; 226; 130; 172; 63] ++ repeat 0 57) 8 0) 9 4) 10 4) 11 3.
Definition stdout_stream : stream :=
  {| snode := 7; spath := js "/dev/tty"; sflags := 1; sposition := 0; seekable := false; sops := ChrOps; fd := Some 1; sdev := Some (STty (Some 0%nat)) |}.

Theorem fd_write_prints_witness :
  exists w', _fd_write 1 32 2 60 {| sfs := started_fs; heap := greeting_heap; varargs := None |} = (Ok 0, w')
    /\ printed (term (sfs w')) = [(Out, js "hi")]
    /\ (exists y, tty_store (term (sfs w')) !! 0%nat = Some y /\ tty_output y = map sign8 [226; 130; 172; 63]).
Proof.
  apply (fd_write_prints {| sfs := started_fs; heap := greeting_heap; varargs := None |} 1 1 stdout_stream 0
           {| tty_input := []; tty_output := []; tty_kind := Tty0 |} 32 2 60 [(0, 4); (4, 3)] [[104; 105]] [8364; 63]).
  - vm_compute. reflexivity.
  - split; [vm_compute; reflexivity|discriminate|done| |vm_compute; discriminate|vm_compute; reflexivity].
    eexists. split; [vm_compute; reflexivity|vm_compute; reflexivity].
  - reflexivity.
  - vm_compute. reflexivity.
  - repeat constructor; vm_compute; discriminate.
  - repeat constructor; unfold scalar; lia.
  - repeat constructor; unfold scalar; lia.
  - vm_compute. reflexivity.
Defined.

(** ** Limits of the code *)

(** With an explicit offset every vector is written at that same offset, so the vectors overwrite each other;
    [_fd_write] gives none. *)
Lemma positional_write_overwrites :
  exists w', doWritev 1 32 2 (Some 0) sample_sys = (Ok 6, w')
    /\ (exists n, nodes (sfs w') !! 5%nat = Some n /\ data (file n) = [16; 17; 18; 19; 5]).
Proof. eexists. split; [vm_compute; reflexivity|]. eexists. split; vm_compute; reflexivity. Qed.

(** A link whose target ends in a character of two bytes, read into a buffer that cuts this character: the
    call returns the size of the buffer, but the last byte is the terminator, not a byte of the target. *)
Lemma readlink_cut_inside_character :
  let s := snd ((symlink 10 (js "/tmp/" ++ [233]) (js "/tmp/l")) (snd (boot 10))) in
  let '(r, w') := doReadlink 10 (js "/tmp/l") 0 6 {| sfs := s; heap := repeat 7 8; varargs := None |} in
  r = Ok 6 /\ heap w' = [47; 116; 109; 112; 47; 0; 7; 7].
Proof. vm_compute. split; reflexivity. Qed.

(** [_fd_seek] reports a number that is too large as -61, all other errors as positive numbers. *)
Lemma fd_seek_too_far (w : sys) (x : Z) (sid : nat) (low high whence newOffset : Z) :
  streams (sfs w) !! x = Some sid -> DOUBLE_LIMIT <= Z.abs (high * 0x100000000 + to_uint32 low) ->
  _fd_seek x low high whence newOffset w = (Ok (-61), w).
Proof.
  intros Hx Hoff. unfold _fd_seek, sys_try, sbind at 1, getStreamFromFD. rewrite Hx.
  destruct (Z.leb_spec (high * 0x100000000 + to_uint32 low) (- DOUBLE_LIMIT)); [done|]. rewrite (proj2 (Z.leb_le _ _)) by lia. done.
Qed.
