(* ===== verification/OpusStat.v ===== *)
(** * The stat call of the Opus module
      ([integrations/lan-remote-access/rustdesk-web-open/libopus.js], [SYSCALLS.doStat])

    [doStat] runs [FS.stat], [FS.lstat] or another function of a path, and lays the
    attributes out in the memory as the C library expects them.  The time stamps of
    a node are no part of the model of the file system and are given. *)

From stdpp Require Import base list numbers strings gmap.
From Stdlib Require Import ZArith Lia.
From S2P Require Import Prelude JsString OpusText OpusValue OpusMemfs OpusPath OpusNode OpusFs OpusFsApi OpusFiles OpusDevices OpusSyscalls.
Local Open Scope Z_scope.

(** The milliseconds of a date, [None] for the NaN of an invalid one. *)
Record times := { atime : option Z; mtime : option Z; ctime : option Z }.

(** [(date.getTime() / 1000) | 0]; the quotient of a time that a date can hold is never rounded up to an integer. *)
Definition seconds (t : option Z) : Z := match t with Some ms => to_int32 (Z.quot ms 1000) | None => 0 end.

(** The stores of [doStat], in its order: offsets from [buf] and values. *)
Definition stat_stores (a : attr) (t : times) : list (Z * Z) :=
  [(0, a_dev a); (4, 0); (8, Z.of_nat (a_ino a)); (12, a_mode a); (16, 1); (20, 0); (24, 0); (28, a_rdev a); (32, 0);
   (40, low_half (a_size a)); (44, high_half (a_size a)); (48, 4096); (52, a_blocks a);
   (56, seconds (atime t)); (60, 0); (64, seconds (mtime t)); (68, 0); (72, seconds (ctime t)); (76, 0);
   (80, low_half (Z.of_nat (a_ino a))); (84, high_half (Z.of_nat (a_ino a)))].

Definition store_all (m : mem) (buf : Z) (l : list (Z * Z)) : mem := fold_left (fun m '(o, v) => store32 m (js_sar (buf + o) 2) v) l m.

(** An error that says where a lookup was refused is reported as -54 when that is not the path itself. *)
Definition doStat (func : jsstr -> M (attr * times)) (path : jsstr) (buf : Z) : S Z :=
  fun w => match on_fs (func path) w with
           | (Throw (ErrnoErrorAt code d), w1) =>
               (do! p := on_fs (pathOf d) in
                if bool_decide (normalize path <> normalize p) then sret (-54) else sraise (ErrnoErrorAt code d)) w1
           | (Throw e, w1) => (Throw e, w1)
           | (Ok (a, t), w1) => (Ok 0, with_heap w1 (store_all (heap w1) buf (stat_stores a t)))
           end.

(** [FS.stat] or [FS.lstat], with the time stamps of the nodes. *)
Definition stat_func (stack : nat) (stamp : nat -> option Z) (dontFollow : bool) (path : jsstr) : M (attr * times) :=
  let! a := stat stack path dontFollow in
  let t := stamp (a_ino a) in
  ret (a, {| atime := t; mtime := t; ctime := t |}).

(** ** Words stored one after another *)

Section Stores.
Variables (m : mem) (buf : Z).
Hypothesis (Hbuf : 0 <= buf) (Hal : buf mod 4 = 0).

(** Offsets of words that end before [n]. *)
Definition word_offset (n o : Z) : Prop := 0 <= o /\ o mod 4 = 0 /\ o + 4 <= n.

Lemma store_all_length l : length (store_all m buf l) = length m.
Proof. unfold store_all. revert m. induction l as [|[o v] l IH]; intros m'; cbn; [done|]. by rewrite IH, store32_length. Qed.

Lemma word_index n o : buf + n <= 2 ^ 31 -> word_offset n o -> js_sar (buf + o) 2 = buf / 4 + o / 4.
Proof. intros Hn (Ho & Hm & Hl). rewrite js_sar_small by lia. change (2 ^ 2) with 4. Z.to_euclidean_division_equations; lia. Qed.

Lemma load8_store_all l n j :
  buf + n <= 2 ^ 31 -> Forall (fun ov => word_offset n (fst ov)) l -> j < buf \/ buf + n <= j -> load8 (store_all m buf l) j = load8 m j.
Proof.
  intros Hn. unfold store_all. revert m. induction l as [|[o v] l IH]; intros m' Hl Hj; cbn; [done|]. apply Forall_cons in Hl as [Ho Hl]. cbn in Ho.
  rewrite IH by done. rewrite (word_index n o Hn Ho). destruct Ho as (? & ? & ?). apply load8_store32_other. Z.to_euclidean_division_equations; lia.
Qed.

Lemma load32_store_all_other l n o :
  buf + n <= 2 ^ 31 -> Forall (fun ov => word_offset n (fst ov)) l -> word_offset n o -> o ∉ map fst l ->
  load32 (store_all m buf l) (buf / 4 + o / 4) = load32 m (buf / 4 + o / 4).
Proof.
  intros Hn. unfold store_all. revert m. induction l as [|[o' v] l IH]; intros m' Hl Ho Hin; cbn; [done|]. apply Forall_cons in Hl as [Ho' Hl]. cbn in Ho', Hin.
  apply not_elem_of_cons in Hin as [Hne Hin]. rewrite IH by done. rewrite (word_index n o' Hn Ho'). apply load32_store_other.
  destruct Ho as (? & ? & ?), Ho' as (? & ? & ?). Z.to_euclidean_division_equations; lia.
Qed.
End Stores.

Lemma load32_store_all m buf l n o v :
  0 <= buf -> buf mod 4 = 0 -> buf + n <= 2 ^ 31 -> buf + n <= Z.of_nat (length m) ->
  Forall (fun ov => word_offset n (fst ov)) l -> NoDup (map fst l) -> (o, v) ∈ l ->
  load32 (store_all m buf l) (buf / 4 + o / 4) = Some (to_int32 v).
Proof.
  intros Hb Hal Hn. revert m. induction l as [|[o' v'] l IH]; intros m Hm Hl Hnd Hin; [by apply not_elem_of_nil in Hin|].
  apply Forall_cons in Hl as [Ho' Hl]. cbn in Hnd. apply NoDup_cons in Hnd as [Hfresh Hnd]. cbn in Ho'.
  change (store_all m buf ((o', v') :: l)) with (store_all (store32 m (js_sar (buf + o') 2) v') buf l).
  apply elem_of_cons in Hin as [Hin|Hin].
  - injection Hin as <- <-. rewrite (load32_store_all_other _ buf Hb Hal l n o) by done. rewrite (word_index buf Hb Hal n o Hn Ho').
    destruct Ho' as (? & ? & ?). apply load32_store_same; Z.to_euclidean_division_equations; lia.
  - apply IH; try done. by rewrite store32_length.
Qed.

Definition stat_size : Z := 88.

Lemma stat_offsets a t : Forall (fun ov => word_offset stat_size (fst ov)) (stat_stores a t).
Proof. repeat constructor; try done; cbn; lia. Qed.

Lemma stat_offsets_distinct a t : NoDup (map fst (stat_stores a t)).
Proof. cbn. apply (bool_decide_unpack _). vm_compute. exact I. Qed.

(** The two halves of a number from 0 to the largest exact one, as the memory has them. *)
Lemma halves value : 0 <= value <= 2 ^ 53 -> to_uint32 (to_int32 (low_half value)) + 2 ^ 32 * to_uint32 (to_int32 (high_half value)) = value.
Proof.
  intros Hv. rewrite <- (Z.mod_small value (2 ^ 64)) at 3 by lia. rewrite <- halves_exact by lia. unfold to_uint32. rewrite !to_int32_mod.
  f_equal; [by rewrite Z.mod_small by apply to_uint32_range|]. f_equal. apply Z.mod_small. unfold high_half. repeat case_match; try apply to_uint32_range; lia.
Qed.

(** The word of the structure at [buf] with this offset. *)
Definition field (w : sys) (buf o : Z) : option Z := load32 (heap w) (buf / 4 + o / 4).

(** A structure in an aligned place of the memory. *)
Definition stat_place (w : sys) (buf : Z) : Prop :=
  0 <= buf /\ buf mod 4 = 0 /\ buf + stat_size <= Z.of_nat (length (heap w)) /\ buf + stat_size <= 2 ^ 31.

(** [struct stat] of the C library of the module, as its header lays it out: words at these offsets, and two fields of
    64 bits with the low word first. *)
Record c_stat := {
  st_dev : Z; st_dev_padding : Z; st_ino_truncated : Z; st_mode : Z; st_nlink : Z; st_uid : Z; st_gid : Z; st_rdev : Z; st_rdev_padding : Z;
  st_size : Z; st_blksize : Z; st_blocks : Z; st_atim : Z * Z; st_mtim : Z * Z; st_ctim : Z * Z; st_ino : Z
}.

Definition field64 (w : sys) (buf o : Z) : option Z :=
  match field w buf o, field w buf (o + 4) with Some lo, Some hi => Some (to_uint32 lo + 2 ^ 32 * to_uint32 hi) | _, _ => None end.

Definition timespec (w : sys) (buf o : Z) : option (Z * Z) :=
  match field w buf o, field w buf (o + 4) with Some sec, Some nsec => Some (sec, nsec) | _, _ => None end.

(** The structure at [buf] is this one. *)
Record holds_stat (w : sys) (buf : Z) (c : c_stat) : Prop := {
  at_0 : field w buf 0 = Some (st_dev c);
  at_4 : field w buf 4 = Some (st_dev_padding c);
  at_8 : field w buf 8 = Some (st_ino_truncated c);
  at_12 : field w buf 12 = Some (st_mode c);
  at_16 : field w buf 16 = Some (st_nlink c);
  at_20 : field w buf 20 = Some (st_uid c);
  at_24 : field w buf 24 = Some (st_gid c);
  at_28 : field w buf 28 = Some (st_rdev c);
  at_32 : field w buf 32 = Some (st_rdev_padding c);
  at_40 : field64 w buf 40 = Some (st_size c);
  at_48 : field w buf 48 = Some (st_blksize c);
  at_52 : field w buf 52 = Some (st_blocks c);
  at_56 : timespec w buf 56 = Some (st_atim c);
  at_64 : timespec w buf 64 = Some (st_mtim c);
  at_72 : timespec w buf 72 = Some (st_ctim c);
  at_80 : field64 w buf 80 = Some (st_ino c)
}.

(** A time stamp from 1970 until the seconds no longer fit in 31 bits. *)
Definition dated (t : option Z) (ms : Z) : Prop := t = Some ms /\ 0 <= ms < 1000 * 2 ^ 31.

Lemma seconds_dated t ms : dated t ms -> to_int32 (seconds t) = ms / 1000.
Proof.
  intros [-> H]. unfold seconds. rewrite Z.quot_div_nonneg by lia. assert (0 <= ms / 1000 < 2 ^ 31) by (Z.to_euclidean_division_equations; lia).
  rewrite (to_int32_small (ms / 1000)) by lia. apply to_int32_small. lia.
Qed.

Lemma stat_stores_read w buf a t ta tm tc :
  (forall o v, (o, v) ∈ stat_stores a t -> field w buf o = Some (to_int32 v)) ->
  0 <= a_size a <= 2 ^ 53 -> Z.of_nat (a_ino a) <= 2 ^ 53 -> dated (atime t) ta -> dated (mtime t) tm -> dated (ctime t) tc ->
  holds_stat w buf {|
    st_dev := to_int32 (a_dev a); st_dev_padding := 0; st_ino_truncated := to_int32 (Z.of_nat (a_ino a)); st_mode := to_int32 (a_mode a);
    st_nlink := 1; st_uid := 0; st_gid := 0; st_rdev := to_int32 (a_rdev a); st_rdev_padding := 0; st_size := a_size a; st_blksize := 4096;
    st_blocks := to_int32 (a_blocks a); st_atim := (ta / 1000, 0); st_mtim := (tm / 1000, 0); st_ctim := (tc / 1000, 0); st_ino := Z.of_nat (a_ino a) |}.
Proof.
  intros Hr Hs Hi Ha Hm Hc. unfold stat_stores in Hr.
  constructor; unfold field64, timespec; cbn [Z.add Pos.add Pos.succ st_dev st_dev_padding st_ino_truncated st_mode st_nlink st_uid st_gid st_rdev
    st_rdev_padding st_size st_blksize st_blocks st_atim st_mtim st_ctim st_ino];
    repeat (erewrite Hr; [|repeat first [apply list_elem_of_here|apply list_elem_of_further]]);
    rewrite ?halves, ?(seconds_dated _ _ Ha), ?(seconds_dated _ _ Hm), ?(seconds_dated _ _ Hc) by lia; done.
Qed.

(** C34. The structure that [doStat] leaves.  When the function gives attributes, the call returns 0, the file system is what the
    function left, and the 88 bytes at [buf] are the [struct stat] of these attributes as the C library reads it, with the size
    and the number of the node as 64-bit numbers and whole seconds; the word at 36, which is no field, keeps what it was, and so
    does every byte outside.  Sizes and numbers of nodes are exact, and the time stamps are from 1970 until 2038. *)
Theorem doStat_structure func path buf w a t s ta tm tc :
  stat_place w buf -> func path (sfs w) = (Ok (a, t), s) ->
  0 <= a_size a <= 2 ^ 53 -> Z.of_nat (a_ino a) <= 2 ^ 53 -> dated (atime t) ta -> dated (mtime t) tm -> dated (ctime t) tc ->
  exists w', doStat func path buf w = (Ok 0, w') /\ sfs w' = s /\ length (heap w') = length (heap w)
    /\ holds_stat w' buf {|
         st_dev := to_int32 (a_dev a); st_dev_padding := 0; st_ino_truncated := to_int32 (Z.of_nat (a_ino a)); st_mode := to_int32 (a_mode a);
         st_nlink := 1; st_uid := 0; st_gid := 0; st_rdev := to_int32 (a_rdev a); st_rdev_padding := 0; st_size := a_size a; st_blksize := 4096;
         st_blocks := to_int32 (a_blocks a); st_atim := (ta / 1000, 0); st_mtim := (tm / 1000, 0); st_ctim := (tc / 1000, 0); st_ino := Z.of_nat (a_ino a) |}
    /\ field w' buf 36 = field w buf 36
    /\ (forall j, j < buf \/ buf + 88 <= j -> load8 (heap w') j = load8 (heap w) j).
Proof.
  intros (Hb & Hal & Hm & Hlt) Hf Hsz Hino Ha Hmt Hc. pose proof (stat_offsets a t) as Ho. pose proof (stat_offsets_distinct a t) as Hd.
  unfold doStat, on_fs at 1. rewrite Hf. eexists. split; [reflexivity|]. cbn [sfs with_heap with_fs heap].
  split; [done|]. split; [apply store_all_length|]. split; [|split].
  - apply (stat_stores_read _ _ _ t); try done. intros o v Hin. by apply (load32_store_all _ _ _ stat_size).
  - apply (load32_store_all_other _ _ Hb Hal _ stat_size); [done|done|split; [lia|split; [done|unfold stat_size; lia]]|].
    apply (bool_decide_unpack _). vm_compute. exact I.
  - intros j Hj. by apply (load8_store_all _ _ Hb Hal _ stat_size).
Qed.

(** A lookup that was refused on the way is reported as ENOTDIR (-54) whatever the reason was, and nothing is written; every
    other error is passed on. *)
Theorem doStat_errors func path buf w e s :
  func path (sfs w) = (Throw e, s) ->
  doStat func path buf w
  = match e with
    | ErrnoErrorAt code d =>
        match pathOf d s with
        | (Ok p, s') => (if bool_decide (normalize path <> normalize p) then Ok (-54) else Throw e, with_fs w s')
        | (Throw e', s') => (Throw e', with_fs w s')
        end
    | _ => (Throw e, with_fs w s)
    end.
Proof.
  intros Hf. unfold doStat, on_fs at 1. rewrite Hf. destruct e; try done. unfold sbind, on_fs. cbn [sfs with_fs].
  destruct (pathOf node s) as [[p|e'] s']; [|done]. by destruct (bool_decide _).
Qed.

(** Below a file, and below a directory that may not be searched, the call says ENOTDIR; of a name that is not there it
    says ENOENT. *)
Example doStat_refused :
  let s := snd ((writeFile 10 (js "/tmp/f") [1; 2; 3] None ;;; mkdir 10 (js "/tmp/d") (Some 0)) started_fs) in
  let call path := fst (doStat (stat_func 10 (fun _ => Some 1700000000999) false) (js path) 8 {| sfs := s; heap := repeat 0 128; varargs := None |}) in
  map call ["/tmp/f"; "/tmp/f/x"; "/tmp/d/x"; "/tmp/x"; "/proc/self/fd/1"]%string
  = [Ok 0; Ok (-54); Ok (-54); Throw (ErrnoError 44); Throw (ErrnoError 63)].
Proof. vm_compute. reflexivity. Qed.

Definition stat_fs : fs := snd (writeFile 10 (js "/tmp/f") [1; 2; 3] None started_fs).
Definition stat_sys : sys := {| sfs := stat_fs; heap := repeat 9 128; varargs := None |}.
Definition stat_found : attr := {| a_dev := 1; a_ino := 20; a_mode := 33206; a_rdev := 0; a_size := 3; a_blocks := 1 |}.
Definition stat_times : times := {| atime := Some 1700000000999; mtime := Some 1700000000999; ctime := Some 1700000000999 |}.

Theorem doStat_witness :
  exists w', doStat (stat_func 10 (fun _ => Some 1700000000999) false) (js "/tmp/f") 8 stat_sys = (Ok 0, w')
    /\ field64 w' 8 40 = Some 3 /\ timespec w' 8 64 = Some (1700000000, 0) /\ field64 w' 8 80 = Some 20.
Proof.
  assert (Ht : dated (Some 1700000000999) 1700000000999) by (split; [reflexivity|lia]).
  destruct (doStat_structure (stat_func 10 (fun _ => Some 1700000000999) false) (js "/tmp/f") 8 stat_sys stat_found stat_times stat_fs
           1700000000999 1700000000999 1700000000999) as (w' & H & _ & _ & Hh & _); [..|exists w'; split; [exact H|]].
  - repeat split; vm_compute; done.
  - vm_compute. reflexivity.
  - cbn. lia.
  - cbn. lia.
  - exact Ht.
  - exact Ht.
  - exact Ht.
  - split; [exact (at_40 _ _ _ Hh)|]. split; [exact (at_64 _ _ _ Hh)|exact (at_80 _ _ _ Hh)].
Defined.
