(* ===== verification/OpusDate.v ===== *)
(** * Calendar arithmetic of the Opus runtime
      ([integrations/lan-remote-access/rustdesk-web-open/libopus.js], [__addDays] and the date functions of [_strftime])

    The code works on [Date] objects at local midnight and reads only their year, month,
    day and weekday.  A date is the number of its day, counted from 1 January 1970, with
    the accessors of the ECMAScript calendar. *)

From stdpp Require Import base list numbers.
From Stdlib Require Import ZArith Lia.
From S2P Require Import Prelude.
Local Open Scope Z_scope.

(** ** The platform's calendar *)

(** [DayFromYear], [InLeapYear] of ECMAScript. *)
Definition day_from_year (y : Z) : Z :=
  365 * (y - 1970) + (y - 1969) / 4 - (y - 1901) / 100 + (y - 1601) / 400.

Definition leap (y : Z) : bool := (y mod 4 =? 0) && (negb (y mod 100 =? 0) || (y mod 400 =? 0)).

(** The year of a day: [YearFromTime], by an estimate corrected by one. *)
Definition getFullYear (d : Z) : Z :=
  let y := 1970 + d * 400 / 146097 in
  if d <? day_from_year y then y - 1
  else if day_from_year (y + 1) <=? d then y + 1
  else y.

(** Days of the year before a month. *)
Definition month_start (lp : bool) (m : Z) : Z :=
  let k := if lp then 1 else 0 in
  if m <=? 0 then 0 else if m =? 1 then 31 else if m =? 2 then 59 + k else if m =? 3 then 90 + k
  else if m =? 4 then 120 + k else if m =? 5 then 151 + k else if m =? 6 then 181 + k else if m =? 7 then 212 + k
  else if m =? 8 then 243 + k else if m =? 9 then 273 + k else if m =? 10 then 304 + k else if m =? 11 then 334 + k
  else 365 + k.

Definition day_in_year (d : Z) : Z := d - day_from_year (getFullYear d).

(** [MonthFromTime]. *)
Definition month_of (lp : bool) (n : Z) : Z :=
  if n <? month_start lp 1 then 0 else if n <? month_start lp 2 then 1 else if n <? month_start lp 3 then 2
  else if n <? month_start lp 4 then 3 else if n <? month_start lp 5 then 4 else if n <? month_start lp 6 then 5
  else if n <? month_start lp 7 then 6 else if n <? month_start lp 8 then 7 else if n <? month_start lp 9 then 8
  else if n <? month_start lp 10 then 9 else if n <? month_start lp 11 then 10 else 11.

Definition getMonth (d : Z) : Z := month_of (leap (getFullYear d)) (day_in_year d).
Definition getDate (d : Z) : Z := day_in_year d - month_start (leap (getFullYear d)) (getMonth d) + 1.
Definition getDay (d : Z) : Z := (d + 4) mod 7.

(** [MakeDay]: months outside 0..11 carry into the year, days outside the month into the date. *)
Definition make_day (y m dt : Z) : Z :=
  let y' := y + m / 12 in day_from_year y' + month_start (leap y') (m mod 12) + dt - 1.

(** [new Date(year, month, day)]: years 0 to 99 are years of the twentieth century. *)
Definition new_Date (y m dt : Z) : Z :=
  make_day (if (0 <=? y) && (y <=? 99) then 1900 + y else y) m dt.

Definition setDate (d dt : Z) : Z := make_day (getFullYear d) (getMonth d) dt.
Definition setMonth (d m : Z) : Z := make_day (getFullYear d) m (getDate d).
Definition setFullYear (d y : Z) : Z := make_day y (getMonth d) (getDate d).

(** ** The code *)

(** [%] on integers keeps the sign of the dividend. *)
Definition __isLeapYear (year : Z) : bool :=
  (Z.rem year 4 =? 0) && (negb (Z.rem year 100 =? 0) || (Z.rem year 400 =? 0)).

(** [array[i]] for [0 <= i <= index]; the indices the code uses are in range. *)
Definition __arraySum (array : list Z) (index : Z) : Z :=
  foldl Z.add 0 (take (Z.to_nat (index + 1)) array).

Definition __MONTH_DAYS_LEAP : list Z := [31;29;31;30;31;30;31;31;30;31;30;31].
Definition __MONTH_DAYS_REGULAR : list Z := [31;28;31;30;31;30;31;31;30;31;30;31].

Definition month_days (y : Z) : list Z := if __isLeapYear y then __MONTH_DAYS_LEAP else __MONTH_DAYS_REGULAR.

(** The loop of [__addDays]; each turn that does not return takes at least one day off [days], so [days] turns
    are enough. *)
Fixpoint addDays_loop (fuel : nat) (newDate days : Z) : Z :=
  match fuel with
  | O => newDate
  | S fuel =>
      if days <=? 0 then newDate
      else
        let currentMonth := getMonth newDate in
        let daysInCurrentMonth := nth (Z.to_nat currentMonth) (month_days (getFullYear newDate)) 0 in
        if daysInCurrentMonth - getDate newDate <? days then
          let days := days - (daysInCurrentMonth - getDate newDate + 1) in
          let newDate := setDate newDate 1 in
          let newDate :=
            if currentMonth <? 11 then setMonth newDate (currentMonth + 1)
            else let newDate := setMonth newDate 0 in setFullYear newDate (getFullYear newDate + 1) in
          addDays_loop fuel newDate days
        else setDate newDate (getDate newDate + days)
  end.

Definition __addDays (date days : Z) : Z := addDays_loop (Z.to_nat days) date days.

Definition sgn (value : Z) : Z := if value <? 0 then -1 else if 0 <? value then 1 else 0.

Definition compareByDay (date1 date2 : Z) : Z :=
  let compare := sgn (getFullYear date1 - getFullYear date2) in
  if compare =? 0 then
    let compare := sgn (getMonth date1 - getMonth date2) in
    if compare =? 0 then sgn (getDate date1 - getDate date2) else compare
  else compare.

Definition getFirstWeekStartDate (janFourth : Z) : Z :=
  let y := getFullYear janFourth in
  match getDay janFourth with
  | 0 => new_Date (y - 1) 11 29
  | 1 => janFourth
  | 2 => new_Date y 0 3
  | 3 => new_Date y 0 2
  | 4 => new_Date y 0 1
  | 5 => new_Date (y - 1) 11 31
  | _ => new_Date (y - 1) 11 30
  end.

(** The fields of a [struct tm] the date functions read. *)
Record tm := {
  tm_sec : Z; tm_min : Z; tm_hour : Z; tm_mday : Z; tm_mon : Z; tm_year : Z; tm_wday : Z; tm_yday : Z;
  tm_isdst : Z; tm_gmtoff : Z
}.

Definition getWeekBasedYear (date : tm) : Z :=
  let thisDate := __addDays (new_Date (tm_year date + 1900) 0 1) (tm_yday date) in
  let y := getFullYear thisDate in
  let firstWeekStartThisYear := getFirstWeekStartDate (new_Date y 0 4) in
  let firstWeekStartNextYear := getFirstWeekStartDate (new_Date (y + 1) 0 4) in
  if compareByDay firstWeekStartThisYear thisDate <=? 0 then
    if compareByDay firstWeekStartNextYear thisDate <=? 0 then y + 1 else y
  else y - 1.

(** [Math.ceil(days/7)]. *)
Definition ceil7 (days : Z) : Z := (days + 6) / 7.

(** What [%U], [%V] and [%W] compute; [inl] is a literal of the code, [inr] a number to be padded. *)
Inductive week_text := Literal (n : Z) | Padded (n : Z).

Definition days_from_first (first endDate : Z) : Z :=
  let februaryFirstUntilEndMonth := __arraySum (month_days (getFullYear endDate)) (getMonth endDate - 1) - 31 in
  let firstUntilEndJanuary := 31 - getDate first in
  firstUntilEndJanuary + februaryFirstUntilEndMonth + getDate endDate.

Definition week_U (date : tm) : week_text :=
  let janFirst := new_Date (tm_year date + 1900) 0 1 in
  let firstSunday := if getDay janFirst =? 0 then janFirst else __addDays janFirst (7 - getDay janFirst) in
  let endDate := new_Date (tm_year date + 1900) (tm_mon date) (tm_mday date) in
  if compareByDay firstSunday endDate <? 0 then Padded (ceil7 (days_from_first firstSunday endDate))
  else if compareByDay firstSunday janFirst =? 0 then Literal 1 else Literal 0.

Definition week_V (date : tm) : week_text :=
  let firstWeekStartThisYear := getFirstWeekStartDate (new_Date (tm_year date + 1900) 0 4) in
  let firstWeekStartNextYear := getFirstWeekStartDate (new_Date (tm_year date + 1901) 0 4) in
  let endDate := __addDays (new_Date (tm_year date + 1900) 0 1) (tm_yday date) in
  if compareByDay endDate firstWeekStartThisYear <? 0 then Literal 53
  else if compareByDay firstWeekStartNextYear endDate <=? 0 then Literal 1
  else
    let daysDifference :=
      if getFullYear firstWeekStartThisYear <? tm_year date + 1900
      then tm_yday date + 32 - getDate firstWeekStartThisYear
      else tm_yday date + 1 - getDate firstWeekStartThisYear in
    Padded (ceil7 daysDifference).

Definition week_W (date : tm) : week_text :=
  let janFirst := new_Date (tm_year date) 0 1 in
  let firstMonday := if getDay janFirst =? 1 then janFirst
    else __addDays janFirst (if getDay janFirst =? 0 then 1 else 7 - getDay janFirst + 1) in
  let endDate := new_Date (tm_year date + 1900) (tm_mon date) (tm_mday date) in
  if compareByDay firstMonday endDate <? 0 then Padded (ceil7 (days_from_first firstMonday endDate))
  else if compareByDay firstMonday janFirst =? 0 then Literal 1 else Literal 0.

(** [%j]. *)
Definition day_of_year (date : tm) : Z :=
  tm_mday date + __arraySum (month_days (tm_year date + 1900)) (tm_mon date - 1).

(** ** The calendar *)

Lemma div_step k c y : 0 < k -> (y + 1 - c) / k - (y - c) / k = if (y + 1 - c) mod k =? 0 then 1 else 0.
Proof. intros Hk. destruct (Z.eqb_spec ((y + 1 - c) mod k) 0); Z.to_euclidean_division_equations; nia. Qed.

Lemma mod_shift y c k : 0 < k -> c mod k = 0 -> (y - c) mod k = y mod k.
Proof.
  intros Hk Hc. replace (y - c) with (y + (- (c / k)) * k) by (Z.to_euclidean_division_equations; nia).
  apply Z.mod_add. lia.
Qed.

Lemma year_length y : day_from_year (y + 1) - day_from_year y = if leap y then 366 else 365.
Proof.
  pose proof (div_step 4 1969 y ltac:(lia)) as H4. pose proof (div_step 100 1901 y ltac:(lia)) as H100.
  pose proof (div_step 400 1601 y ltac:(lia)) as H400. unfold day_from_year, leap.
  replace (y + 1 - 1969) with (y - 1968) in * by lia. replace (y + 1 - 1901) with (y - 1900) in * by lia.
  replace (y + 1 - 1601) with (y - 1600) in * by lia.
  rewrite !mod_shift in * by (lia || reflexivity).
  destruct (Z.eqb_spec (y mod 4) 0), (Z.eqb_spec (y mod 100) 0), (Z.eqb_spec (y mod 400) 0); cbn [andb orb negb]; try lia;
    exfalso; Z.to_euclidean_division_equations; lia.
Qed.

Lemma year_length_bounds y : 365 <= day_from_year (y + 1) - day_from_year y <= 366.
Proof. rewrite year_length. destruct (leap y); lia. Qed.

Lemma day_from_year_mono y1 y2 : y1 <= y2 -> day_from_year y1 + 365 * (y2 - y1) <= day_from_year y2.
Proof.
  intros H. replace y2 with (y1 + Z.of_nat (Z.to_nat (y2 - y1))) by lia. induction (Z.to_nat (y2 - y1)) as [|n IH].
  - rewrite Z.add_0_r. lia.
  - pose proof (year_length_bounds (y1 + Z.of_nat n)).
    replace (y1 + Z.of_nat (S n)) with (y1 + Z.of_nat n + 1) by lia. lia.
Qed.

Lemma getFullYear_range d : day_from_year (getFullYear d) <= d < day_from_year (getFullYear d + 1).
Proof.
  unfold getFullYear. set (y := 1970 + d * 400 / 146097).
  assert (Hlo : day_from_year (y - 1) <= d).
  { subst y. unfold day_from_year. Z.to_euclidean_division_equations; lia. }
  assert (Hhi : d < day_from_year (y + 2)).
  { subst y. unfold day_from_year. Z.to_euclidean_division_equations; lia. }
  destruct (Z.ltb_spec d (day_from_year y)); [replace (y - 1 + 1) with y by lia; lia|].
  destruct (Z.leb_spec (day_from_year (y + 1)) d); [replace (y + 1 + 1) with (y + 2) by lia; lia|lia].
Qed.

Lemma getFullYear_unique d y : day_from_year y <= d < day_from_year (y + 1) -> getFullYear d = y.
Proof.
  intros H. pose proof (getFullYear_range d) as Hr. set (z := getFullYear d) in *.
  destruct (Z.lt_trichotomy z y) as [Hlt|[->|Hgt]]; [|done|].
  - pose proof (day_from_year_mono (z + 1) y). lia.
  - pose proof (day_from_year_mono (y + 1) z). lia.
Qed.

Definition month_length (lp : bool) (m : Z) : Z := month_start lp (m + 1) - month_start lp m.

(** Splits the comparisons of the month tables. *)
Ltac months := unfold month_of, month_length, month_start in *; repeat (case_match; bool_prop); try lia.

(** Evaluates the month tables at constants. *)
Ltac month_const b k H :=
  let v := eval vm_compute in (month_start b k) in
  lazymatch v with Z0 => idtac | Zpos _ => idtac end;
  lazymatch H with
  | tt => change (month_start b k) with v
  | _ => change (month_start b k) with v in H
  end.
Ltac month_consts :=
  repeat match goal with
  | |- context [month_start ?b ?k] => month_const b k tt
  | H : context [month_start ?b ?k] |- _ => month_const b k H
  end.

Lemma month_of_range (lp : bool) (n : Z) : 0 <= n < (if lp then 366 else 365) ->
  0 <= month_of lp n <= 11 /\ month_start lp (month_of lp n) <= n < month_start lp (month_of lp n + 1).
Proof. intros Hn. destruct lp; unfold month_of; repeat (case_match; bool_prop); month_consts; lia. Qed.

Lemma month_of_start (lp : bool) (m k : Z) : 0 <= m <= 11 -> 0 <= k < month_length lp m -> month_of lp (month_start lp m + k) = m.
Proof.
  intros Hm Hk.
  assert (m = 0 \/ m = 1 \/ m = 2 \/ m = 3 \/ m = 4 \/ m = 5 \/ m = 6 \/ m = 7 \/ m = 8 \/ m = 9 \/ m = 10 \/ m = 11) as Hc by lia.
  destruct lp; repeat destruct Hc as [->|Hc]; subst; unfold month_length in Hk; month_consts;
    unfold month_of; month_consts; repeat (case_match; bool_prop); lia.
Qed.

(** A date: year, month (from 0) and day of the month (from 1). *)
Definition valid_date (y m dt : Z) : Prop := 0 <= m <= 11 /\ 1 <= dt <= month_length (leap y) m.

Lemma month_start_range (lp : bool) (m : Z) : 0 <= m <= 11 ->
  0 <= month_start lp m /\ 28 <= month_length lp m /\ month_start lp m + month_length lp m <= (if lp then 366 else 365).
Proof.
  intros Hm.
  assert (m = 0 \/ m = 1 \/ m = 2 \/ m = 3 \/ m = 4 \/ m = 5 \/ m = 6 \/ m = 7 \/ m = 8 \/ m = 9 \/ m = 10 \/ m = 11) as Hc by lia.
  destruct lp; repeat destruct Hc as [->|Hc]; subst; unfold month_length; month_consts; lia.
Qed.

Lemma valid_january y dt : 1 <= dt <= 31 -> valid_date y 0 dt.
Proof. intros Hd. split; [lia|]. unfold month_length. destruct (leap y); month_consts; lia. Qed.

Lemma valid_december y dt : 1 <= dt <= 31 -> valid_date y 11 dt.
Proof. intros Hd. split; [lia|]. unfold month_length. destruct (leap y); month_consts; lia. Qed.

Lemma year_end lp : month_start lp 12 = if lp then 366 else 365.
Proof. by destruct lp. Qed.

Lemma make_day_month y m dt : 0 <= m <= 11 -> make_day y m dt = day_from_year y + month_start (leap y) m + dt - 1.
Proof. intros Hm. unfold make_day. rewrite Z.div_small, Z.mod_small, Z.add_0_r by lia. done. Qed.

Lemma make_day_fields y m dt :
  valid_date y m dt ->
  getFullYear (make_day y m dt) = y /\ getMonth (make_day y m dt) = m /\ getDate (make_day y m dt) = dt.
Proof.
  intros [Hm Hd]. pose proof (month_start_range (leap y) m Hm) as (H0 & H1 & H2).
  rewrite make_day_month by done.
  assert (Hy : getFullYear (day_from_year y + month_start (leap y) m + dt - 1) = y).
  { apply getFullYear_unique. pose proof (year_length y). destruct (leap y); lia. }
  assert (Hmm : getMonth (day_from_year y + month_start (leap y) m + dt - 1) = m).
  { unfold getMonth, day_in_year. rewrite Hy.
    replace (day_from_year y + month_start (leap y) m + dt - 1 - day_from_year y) with (month_start (leap y) m + (dt - 1)) by lia.
    apply month_of_start; lia. }
  split_and!; [done|done|]. unfold getDate, day_in_year. rewrite Hmm, Hy. lia.
Qed.

Lemma day_in_year_range d : 0 <= day_in_year d < (if leap (getFullYear d) then 366 else 365).
Proof. unfold day_in_year. pose proof (getFullYear_range d). pose proof (year_length (getFullYear d)). lia. Qed.

Lemma fields_make_day d :
  valid_date (getFullYear d) (getMonth d) (getDate d) /\ make_day (getFullYear d) (getMonth d) (getDate d) = d.
Proof.
  pose proof (day_in_year_range d) as Hr. pose proof (month_of_range _ _ Hr) as (Hm & Hs).
  fold (getMonth d) in Hm, Hs. split.
  - split; [done|]. unfold getDate, month_length. lia.
  - rewrite make_day_month by done. unfold getDate, day_in_year. lia.
Qed.

(** ** The helpers *)

Lemma rem_mod_zero a b : 0 < b -> (Z.rem a b =? 0) = (a mod b =? 0).
Proof.
  intros Hb. apply eq_true_iff_eq. rewrite !Z.eqb_eq. rewrite Z.rem_divide, Z.mod_divide by lia. done.
Qed.

Lemma isLeapYear_leap y : __isLeapYear y = leap y.
Proof. unfold __isLeapYear, leap. by rewrite !rem_mod_zero by lia. Qed.

Lemma month_days_spec y m : 0 <= m <= 11 ->
  nth (Z.to_nat m) (month_days y) 0 = month_length (leap y) m /\ __arraySum (month_days y) (m - 1) = month_start (leap y) m.
Proof.
  intros Hm. unfold month_days. rewrite isLeapYear_leap.
  assert (m = 0 \/ m = 1 \/ m = 2 \/ m = 3 \/ m = 4 \/ m = 5 \/ m = 6 \/ m = 7 \/ m = 8 \/ m = 9 \/ m = 10 \/ m = 11) as Hc by lia.
  destruct (leap y); repeat destruct Hc as [->|Hc]; subst; done.
Qed.

(** The first day of the month after the one of [d], as the loop computes it. *)
Lemma next_month d :
  let d1 := setDate d 1 in
  (if getMonth d <? 11 then setMonth d1 (getMonth d + 1) else let d2 := setMonth d1 0 in setFullYear d2 (getFullYear d2 + 1))
  = d + (month_length (leap (getFullYear d)) (getMonth d) - getDate d + 1).
Proof.
  destruct (fields_make_day d) as [[Hm Hd] He]. set (y := getFullYear d) in *. set (m := getMonth d) in *.
  pose proof (month_start_range (leap y) m Hm) as (H0 & H1 & H2).
  assert (V1 : valid_date y m 1) by (split; lia). cbn zeta. unfold setDate. fold y m.
  destruct (make_day_fields _ _ _ V1) as (Ey & Em & Ed).
  rewrite make_day_month in He by done. destruct (Z.ltb_spec m 11).
  - unfold setMonth. rewrite Ey, Ed, make_day_month by lia. unfold month_length. lia.
  - pose proof (valid_january y 1 ltac:(lia)) as V0.
    destruct (make_day_fields _ _ _ V0) as (Ey0 & Em0 & Ed0).
        unfold setMonth, setFullYear. rewrite Ey, Ed, Ey0, Em0, Ed0, make_day_month by lia.
    pose proof (year_length y). assert (Hm11 : m = 11) by lia. rewrite Hm11 in *. unfold month_length.
    change (11 + 1) with 12. rewrite year_end. change (month_start (leap (y + 1)) 0) with 0. lia.
Qed.

Lemma addDays_loop_spec fuel d n : n <= Z.of_nat fuel -> addDays_loop fuel d n = d + Z.max n 0.
Proof.
  revert d n. induction fuel as [|fuel IH]; intros d n Hn; cbn [addDays_loop]; [lia|].
  destruct (Z.leb_spec n 0); [lia|]. destruct (fields_make_day d) as [[Hm Hd] He].
  rewrite (proj1 (month_days_spec (getFullYear d) (getMonth d) Hm)).
  destruct (Z.ltb_spec (month_length (leap (getFullYear d)) (getMonth d) - getDate d) n).
  - pose proof (next_month d) as Hnm. cbn zeta in Hnm |- *. rewrite Hnm, IH by lia. lia.
  - unfold setDate. rewrite make_day_month by done. rewrite make_day_month in He by done. lia.
Qed.

Lemma addDays_eq d n : 0 <= n -> __addDays d n = d + n.
Proof. intros Hn. unfold __addDays. rewrite addDays_loop_spec by lia. lia. Qed.

Lemma compareByDay_sgn d1 d2 : compareByDay d1 d2 = sgn (d1 - d2).
Proof.
  destruct (fields_make_day d1) as [[Hm1 Hd1] He1], (fields_make_day d2) as [[Hm2 Hd2] He2].
  pose proof (getFullYear_range d1). pose proof (getFullYear_range d2). unfold compareByDay.
  set (y1 := getFullYear d1) in *. set (y2 := getFullYear d2) in *. set (m1 := getMonth d1) in *. set (m2 := getMonth d2) in *.
  rewrite make_day_month in He1, He2 by done.
  destruct (Z.lt_trichotomy y1 y2) as [Hy|[Hy|Hy]].
  - pose proof (day_from_year_mono (y1 + 1) y2). unfold sgn. repeat (case_match; bool_prop); lia.
  - rewrite Hy in *. destruct (Z.lt_trichotomy m1 m2) as [Hm|[Hm|Hm]].
    + assert (month_start (leap y2) (m1 + 1) <= month_start (leap y2) m2).
      { clear - Hm Hm1 Hm2. destruct (leap y2); months. }
      unfold month_length in *. unfold sgn. repeat (case_match; bool_prop); lia.
    + rewrite Hm in *. unfold sgn. repeat (case_match; bool_prop); lia.
    + assert (month_start (leap y2) (m2 + 1) <= month_start (leap y2) m1).
      { clear - Hm Hm1 Hm2. destruct (leap y2); months. }
      unfold month_length in *. unfold sgn. repeat (case_match; bool_prop); lia.
  - pose proof (day_from_year_mono (y2 + 1) y1). unfold sgn. repeat (case_match; bool_prop); lia.
Qed.

(** ** Weeks *)

(** The Monday and the Thursday of the week of a day, weeks starting on Monday. *)
Definition monday_of (d : Z) : Z := d - (getDay d + 6) mod 7.
Definition thursday_of (d : Z) : Z := monday_of d + 3.

(** ISO 8601: a week belongs to the year its Thursday is in, and the weeks of a year are numbered by their Thursdays. *)
Definition iso_year (d : Z) : Z := getFullYear (thursday_of d).
Definition iso_week (d : Z) : Z := day_in_year (thursday_of d) / 7 + 1.

Lemma new_Date_late y m dt : 99 < y -> new_Date y m dt = make_day y m dt.
Proof. intros Hy. unfold new_Date. by rewrite (proj2 (Z.leb_gt y 99)), andb_false_r by lia. Qed.

Lemma jan_day y dt : make_day y 0 dt = day_from_year y + dt - 1.
Proof. rewrite make_day_month by lia. change (month_start (leap y) 0) with 0. lia. Qed.

Lemma dec_day y dt : make_day (y - 1) 11 dt = day_from_year y + dt - 32.
Proof.
  rewrite make_day_month by lia. pose proof (year_length (y - 1)) as H. replace (y - 1 + 1) with y in H by lia.
  destruct (leap (y - 1)); month_consts; lia.
Qed.

(** The first week of a year starts on the Monday of the week of 4 January. *)
Lemma first_week_start y : 100 < y -> getFirstWeekStartDate (new_Date y 0 4) = monday_of (day_from_year y + 3).
Proof.
  intros Hy. rewrite new_Date_late by lia. unfold getFirstWeekStartDate.
  rewrite (proj1 (make_day_fields y 0 4 (valid_january y 4 ltac:(lia)))). rewrite jan_day.
  replace (day_from_year y + 4 - 1) with (day_from_year y + 3) by lia. unfold monday_of.
  assert (Hd : 0 <= getDay (day_from_year y + 3) < 7) by (apply Z.mod_pos_bound; lia).
  rewrite !new_Date_late, !jan_day, !dec_day by lia.
  set (k := getDay (day_from_year y + 3)) in *. clearbody k.
  assert (k = 0 \/ k = 1 \/ k = 2 \/ k = 3 \/ k = 4 \/ k = 5 \/ k = 6) as Hc by lia.
  repeat destruct Hc as [->|Hc]; subst; rewrite ?Z.mod_small by lia; try change ((1 + 6) mod 7) with 0;
    repeat match goal with |- context [(?a + 6) mod 7] => let v := eval vm_compute in ((a + 6) mod 7) in change ((a + 6) mod 7) with v end; lia.
Qed.

Lemma monday_spec d : monday_of d <= d < monday_of d + 7 /\ (monday_of d + 3) mod 7 = 0.
Proof. unfold monday_of, getDay. split; Z.to_euclidean_division_equations; lia. Qed.

Lemma monday_mono d e : (monday_of d <= e <-> monday_of d <= monday_of e) .
Proof. pose proof (monday_spec d). pose proof (monday_spec e). Z.to_euclidean_division_equations; lia. Qed.

(** Being on or after the first week of [y] is having the Thursday of the week in [y] or later. *)
Lemma first_week_thursday y d : monday_of (day_from_year y + 3) <= d <-> y <= iso_year d.
Proof.
  rewrite monday_mono. unfold iso_year, thursday_of. pose proof (getFullYear_range (monday_of d + 3)) as Hr.
  set (z := getFullYear (monday_of d + 3)) in *. pose proof (monday_spec d). pose proof (monday_spec (day_from_year y + 3)).
  split.
  - intros H1. destruct (Z_lt_le_dec z y) as [Hlt|]; [exfalso|lia].
    pose proof (day_from_year_mono (z + 1) y). Z.to_euclidean_division_equations; lia.
  - intros H1. pose proof (day_from_year_mono y z). Z.to_euclidean_division_equations; lia.
Qed.

(** The day of a [struct tm], from its year and day of the year. *)
Definition tm_day (date : tm) : Z := day_from_year (tm_year date + 1900) + tm_yday date.

(** Its fields name a day of the year. *)
Definition tm_in_year (date : tm) : Prop :=
  101 < tm_year date + 1900 /\ 0 <= tm_yday date < (if leap (tm_year date + 1900) then 366 else 365).

Lemma tm_day_year date : tm_in_year date -> getFullYear (tm_day date) = tm_year date + 1900.
Proof.
  intros [Hy Hd]. apply getFullYear_unique. unfold tm_day. pose proof (year_length (tm_year date + 1900)).
  destruct (leap (tm_year date + 1900)); lia.
Qed.

Lemma tm_addDays date : tm_in_year date -> __addDays (new_Date (tm_year date + 1900) 0 1) (tm_yday date) = tm_day date.
Proof. intros [Hy Hd]. rewrite new_Date_late, jan_day, addDays_eq by lia. unfold tm_day. lia. Qed.

(** Comparison results as comparisons of days. *)
Lemma sgn_le x : (sgn x <=? 0) = (x <=? 0).
Proof. unfold sgn. repeat (case_match; bool_prop); try done; lia. Qed.
Lemma sgn_lt x : (sgn x <? 0) = (x <? 0).
Proof. unfold sgn. repeat (case_match; bool_prop); try done; lia. Qed.
Lemma sgn_eq x : (sgn x =? 0) = (x =? 0).
Proof. unfold sgn. repeat (case_match; bool_prop); try done; lia. Qed.

Create Rewrite HintDb calendar.
#[export] Hint Rewrite compareByDay_sgn sgn_le sgn_lt sgn_eq : calendar.

Lemma iso_year_near d : getFullYear d - 1 <= iso_year d <= getFullYear d + 1.
Proof.
  unfold iso_year, thursday_of. pose proof (monday_spec d). pose proof (getFullYear_range d).
  pose proof (getFullYear_range (monday_of d + 3)). set (z := getFullYear (monday_of d + 3)) in *. set (y := getFullYear d) in *.
  pose proof (year_length_bounds y). pose proof (year_length_bounds (y - 1)) as Hp. replace (y - 1 + 1) with y in Hp by lia.
  split.
  - destruct (Z_lt_le_dec z (y - 1)); [exfalso|lia]. pose proof (day_from_year_mono (z + 1) (y - 1)). lia.
  - destruct (Z_lt_le_dec (y + 1) z); [exfalso|lia]. pose proof (day_from_year_mono (y + 1) z). lia.
Qed.

(** The year printed by [%G] is the year of the ISO week of the date. *)
Theorem getWeekBasedYear_iso (date : tm) :
  tm_in_year date -> getWeekBasedYear date = iso_year (tm_day date).
Proof.
  intros Ht. pose proof (tm_day_year _ Ht) as Hy. unfold getWeekBasedYear. rewrite tm_addDays, Hy by done.
  destruct Ht as [Hlo Hd]. rewrite !first_week_start by lia. autorewrite with calendar.
  set (y := tm_year date + 1900) in *. set (d := tm_day date) in *. pose proof (iso_year_near d) as Hn. rewrite Hy in Hn.
  pose proof (first_week_thursday y d) as H1. pose proof (first_week_thursday (y + 1) d) as H2.
  destruct (Z.leb_spec (monday_of (day_from_year y + 3) - d) 0) as [Ha|Ha];
    [destruct (Z.leb_spec (monday_of (day_from_year (y + 1) + 3) - d) 0) as [Hb|Hb]|]; lia.
Qed.

(** Two days before the new year of 2025, a Monday in ISO week 1 of 2025. *)
Definition dec_30_2024 : tm :=
  {| tm_sec := 0; tm_min := 0; tm_hour := 0; tm_mday := 30; tm_mon := 11; tm_year := 124; tm_wday := 1; tm_yday := 364;
     tm_isdst := 0; tm_gmtoff := 0 |}.

Lemma dec_30_in_year : tm_in_year dec_30_2024.
Proof. repeat split; vm_compute; done. Qed.

Theorem getWeekBasedYear_witness : getWeekBasedYear dec_30_2024 = iso_year (tm_day dec_30_2024) /\ getWeekBasedYear dec_30_2024 = 2025.
Proof. split; [apply (getWeekBasedYear_iso dec_30_2024), dec_30_in_year|vm_compute; reflexivity]. Defined.

(** Days of the first week before the year begins carry the date of December. *)
Lemma first_week_day y : 100 < y ->
  let w := monday_of (day_from_year y + 3) in
  (if getFullYear w <? y then 32 - getDate w else 1 - getDate w) = day_from_year y - w.
Proof.
  intros Hy w. pose proof (monday_spec (day_from_year y + 3)) as [Hw _]. fold w in Hw.
  destruct (Z_lt_le_dec w (day_from_year y)) as [Hlt|Hge].
  - replace w with (make_day (y - 1) 11 (w - day_from_year y + 32)) by (rewrite dec_day; lia).
    destruct (make_day_fields (y - 1) 11 (w - day_from_year y + 32)) as (-> & _ & ->); [apply valid_december; lia|].
    rewrite (proj2 (Z.ltb_lt _ _)) by lia. rewrite dec_day. lia.
  - replace w with (make_day y 0 (w - day_from_year y + 1)) by (rewrite jan_day; lia).
    destruct (make_day_fields y 0 (w - day_from_year y + 1)) as (-> & _ & ->); [apply valid_january; lia|].
    rewrite (proj2 (Z.ltb_ge _ _)) by lia. rewrite jan_day. lia.
Qed.

(** What [%V] prints: inside the year, the ISO week except on Mondays, where it is one too small; after the last week
    of the year 1; and before the first week always 53, although that week of the previous year may be its 52nd. *)
Theorem week_V_spec (date : tm) :
  tm_in_year date ->
  let d := tm_day date in let y := tm_year date + 1900 in
  week_V date = if iso_year d <? y then Literal 53
                else if y <? iso_year d then Literal 1
                else Padded (if getDay d =? 1 then iso_week d - 1 else iso_week d).
Proof.
  intros Ht d y. pose proof (tm_day_year _ Ht) as Hy. unfold week_V. rewrite tm_addDays by done.
  destruct Ht as [Hlo Hd]. fold y in Hlo, Hd, Hy. replace (tm_year date + 1901) with (y + 1) by (unfold y; lia). fold y d.
  rewrite !first_week_start by lia. autorewrite with calendar.
  pose proof (first_week_thursday y d) as H1. pose proof (first_week_thursday (y + 1) d) as H2.
  destruct (Z.ltb_spec (iso_year d) y).
  { by rewrite (proj2 (Z.ltb_lt _ _)) by lia. }
  rewrite (proj2 (Z.ltb_ge _ _)) by lia. destruct (Z.ltb_spec y (iso_year d)).
  { by rewrite (proj2 (Z.leb_le _ _)) by lia. }
  rewrite (proj2 (Z.leb_gt _ _)) by lia.
  assert (Hiy : iso_year d = y) by lia. pose proof (first_week_day y ltac:(lia)) as Hf. cbn zeta in Hf.
  f_equal. unfold iso_week, day_in_year. fold (iso_year d). rewrite Hiy. unfold thursday_of.
  pose proof (monday_spec d). pose proof (monday_spec (day_from_year y + 3)).
  replace (tm_yday date) with (d - day_from_year y) by (subst d y; unfold tm_day; lia).
  set (w := monday_of (day_from_year y + 3)) in *. set (md := monday_of d) in *.
  assert (Hmd : getDay d = 1 <-> d = md) by (unfold md, monday_of, getDay; Z.to_euclidean_division_equations; lia).
  assert (Hc : (if getFullYear w <? y then d - day_from_year y + 32 - getDate w else d - day_from_year y + 1 - getDate w) = d - w)
    by (destruct (getFullYear w <? y); lia).
  rewrite Hc. unfold ceil7. destruct (Z.eqb_spec (getDay d) 1); Z.to_euclidean_division_equations; lia.
Qed.

(** Wednesday 1 January 2025 is in week 1; Monday 6 January starts week 2, for which the code prints 01; Saturday
    1 January 2022 is in week 52 of 2021, for which it prints 53. *)
Definition january_day (year mday : Z) : tm :=
  {| tm_sec := 0; tm_min := 0; tm_hour := 0; tm_mday := mday; tm_mon := 0; tm_year := year - 1900;
     tm_wday := getDay (make_day year 0 mday); tm_yday := mday - 1; tm_isdst := 0; tm_gmtoff := 0 |}.

Theorem week_V_witness :
  week_V (january_day 2025 1) = Padded 1 /\ week_V (january_day 2025 6) = Padded 1 /\ iso_week (tm_day (january_day 2025 6)) = 2
  /\ week_V (january_day 2022 1) = Literal 53 /\ iso_week (tm_day (january_day 2022 1)) = 52.
Proof.
  split; [apply (week_V_spec (january_day 2025 1)); repeat split; vm_compute; done|].
  repeat split; vm_compute; reflexivity.
Defined.

Definition week_value (w : week_text) : Z := match w with Literal n => n | Padded n => n end.

(** The month and the day agree with the year and the day of the year. *)
Definition tm_dated (date : tm) : Prop :=
  tm_in_year date /\ valid_date (tm_year date + 1900) (tm_mon date) (tm_mday date)
  /\ tm_yday date = month_start (leap (tm_year date + 1900)) (tm_mon date) + tm_mday date - 1.

Lemma tm_endDate date : tm_dated date -> new_Date (tm_year date + 1900) (tm_mon date) (tm_mday date) = tm_day date.
Proof.
  intros ([Hy _] & [Hm _] & He). rewrite new_Date_late, make_day_month by lia. unfold tm_day. lia.
Qed.

(** The day of the year printed by [%j]. *)
Theorem day_of_year_spec (date : tm) : tm_dated date -> day_of_year date = tm_yday date + 1.
Proof.
  intros (_ & [Hm _] & He). unfold day_of_year.
  rewrite (proj2 (month_days_spec (tm_year date + 1900) (tm_mon date) Hm)). lia.
Qed.

(** Days between a day of January and a later day of a year, as the code counts them. *)
Lemma days_from_first_spec first d :
  getMonth first = 0 -> days_from_first first d = day_in_year d + 1 - getDate first.
Proof.
  intros Hf. unfold days_from_first. destruct (fields_make_day d) as [[Hm Hd] He].
  rewrite (proj2 (month_days_spec _ _ Hm)). rewrite make_day_month in He by done. unfold day_in_year. lia.
Qed.

(** Weeks that start on Sunday, the first Sunday of the year starting week 1 (C's [%U]). *)
Definition sunday_week (d : Z) : Z := (day_in_year d + 7 - getDay d) / 7.

Lemma first_sunday j : 
  (if getDay j =? 0 then j else __addDays j (7 - getDay j)) = j + (7 - getDay j) mod 7.
Proof.
  assert (0 <= getDay j < 7) by (apply Z.mod_pos_bound; lia).
  destruct (Z.eqb_spec (getDay j) 0) as [->|]; [change ((7 - 0) mod 7) with 0; lia|].
  rewrite addDays_eq, (Z.mod_small (7 - getDay j)) by lia. done.
Qed.

(** What [%U] prints: the week of the year, except on Sundays other than 1 January, where it is one too small. *)
Theorem week_U_spec (date : tm) :
  tm_dated date ->
  week_value (week_U date) = sunday_week (tm_day date) - (if (getDay (tm_day date) =? 0) && negb (tm_yday date =? 0) then 1 else 0).
Proof.
  intros Ht. pose proof (tm_endDate _ Ht) as He. destruct Ht as (Hin & _ & _). pose proof (tm_day_year _ Hin) as Hy.
  destruct Hin as [Hlo Hd]. unfold week_U. rewrite He, first_sunday. rewrite new_Date_late, jan_day by lia.
  set (y := tm_year date + 1900) in *. set (d := tm_day date) in *. set (j := day_from_year y) in *.
  replace (j + 1 - 1) with j by lia. set (k := (7 - getDay j) mod 7).
  assert (Hk : 0 <= k < 7 /\ (j + k + 4) mod 7 = 0) by (unfold k, getDay; split; Z.to_euclidean_division_equations; lia).
  assert (Hdi : day_in_year d = tm_yday date) by (unfold day_in_year; rewrite Hy; subst d; unfold tm_day; fold y j; lia).
  assert (Hfirst : getMonth (j + k) = 0 /\ getDate (j + k) = k + 1).
  { replace (j + k) with (make_day y 0 (k + 1)) by (rewrite jan_day; unfold j; lia).
    destruct (make_day_fields y 0 (k + 1)) as (_ & -> & ->); [apply valid_january; lia|done]. }
  rewrite days_from_first_spec, (proj2 Hfirst), Hdi by apply Hfirst. autorewrite with calendar.
  unfold sunday_week. rewrite Hdi. assert (Hdj : d = j + tm_yday date) by (subst d j; unfold tm_day; fold y; lia).
  unfold getDay. rewrite Hdj. unfold ceil7. clearbody k. clear - Hk Hd.
  assert (0 <= tm_yday date) by lia. set (n := tm_yday date) in *. clearbody n j.
  destruct (Z.eqb_spec ((j + n + 4) mod 7) 0), (Z.eqb_spec n 0); cbn [andb negb];
    (destruct (Z.ltb_spec (j + k - (j + n)) 0); [|destruct (Z.eqb_spec (j + k - j) 0)]); cbn [week_value];
    Z.to_euclidean_division_equations; lia.
Qed.

Lemma january_dated year mday : 102 <= year -> 1 <= mday <= 31 -> tm_dated (january_day year mday).
Proof.
  intros Hy Hd. unfold tm_dated, tm_in_year, january_day. cbn [tm_year tm_yday tm_mon tm_mday].
  replace (year - 1900 + 1900) with year by lia. change (month_start (leap year) 0) with 0.
  split_and!; [lia|lia|destruct (leap year); lia|by apply valid_january|lia].
Qed.

Theorem week_U_witness : week_value (week_U (january_day 2023 8)) = 1 /\ sunday_week (tm_day (january_day 2023 8)) = 2.
Proof.
  split; [|vm_compute; reflexivity].
  rewrite (week_U_spec (january_day 2023 8)) by (apply january_dated; lia). vm_compute; reflexivity.
Defined.

(** [%W] builds the first day of the year without adding 1900, so from 2000 on it looks for the first Monday
    of a year of the second century: 9 January 2024 is in the second week that starts on a Monday, and the code
    computes the first. *)
Theorem week_W_wrong_century :
  week_value (week_W (january_day 2024 9)) = 1 /\ (day_in_year (tm_day (january_day 2024 9)) + 7 - (getDay (tm_day (january_day 2024 9)) + 6) mod 7) / 7 = 2
  /\ week_value (week_W (january_day 1924 9)) = (day_in_year (tm_day (january_day 1924 9)) + 7 - (getDay (tm_day (january_day 1924 9)) + 6) mod 7) / 7.
Proof. vm_compute. done. Qed.

(** [__addDays] moves a date by that number of days, across months and leap years. *)
Theorem addDays_spec (date days : Z) :
  __addDays date days = date + Z.max days 0.
Proof. unfold __addDays. apply addDays_loop_spec. lia. Qed.
