(* ===== verification/OpusStrftime.v ===== *)
(** * Formatting of dates in the Opus runtime
      ([integrations/lan-remote-access/rustdesk-web-open/libopus.js], [_strftime])

    The format is expanded by replacing one directive after the other in the whole
    text.  The reference is a direct reading of the format, directive by directive. *)

From stdpp Require Import base list numbers strings sets.
From Stdlib Require Import ZArith Lia.
From S2P Require Import Prelude JsString Utf8 OpusText OpusWide OpusValue OpusDate.
Local Open Scope Z_scope.

(** ** [String.prototype.replace] with a global literal pattern *)

(** The replacement patterns of ECMAScript; the patterns have no groups, so [$1] and [$<] stand for themselves. *)
Fixpoint substitution (repl matched before after : jsstr) : jsstr :=
  match repl with
  | [] => []
  | 36 :: r =>
      match r with
      | 36 :: r' => 36 :: substitution r' matched before after
      | 38 :: r' => matched ++ substitution r' matched before after
      | 96 :: r' => before ++ substitution r' matched before after
      | 39 :: r' => after ++ substitution r' matched before after
      | _ => 36 :: substitution r matched before after
      end
  | c :: r => c :: substitution r matched before after
  end.

(** [rest] is still to be searched; [skip] characters of it belong to the last match. *)
Fixpoint replace_from (pat repl before rest : jsstr) (skip : nat) : jsstr :=
  match rest with
  | [] => []
  | c :: rest' =>
      match skip with
      | S k => replace_from pat repl (before ++ [c]) rest' k
      | O =>
          if startsWith rest pat
          then substitution repl pat before (drop (length pat) rest) ++ replace_from pat repl (before ++ [c]) rest' (length pat - 1)
          else c :: replace_from pat repl (before ++ [c]) rest' 0
      end
  end.

Definition replace_all (pat repl s : jsstr) : jsstr := replace_from pat repl [] s 0.

Fixpoint includes (s pat : jsstr) : bool :=
  startsWith s pat || match s with [] => false | _ :: s' => includes s' pat end.

(** ** The rules *)

Definition EXPANSION_RULES_1 : list (jsstr * jsstr) := map (fun '(a, b) => (js a, js b))
  [("%c","%a %b %d %H:%M:%S %Y"); ("%D","%m/%d/%y"); ("%F","%Y-%m-%d"); ("%h","%b"); ("%r","%I:%M:%S %p"); ("%R","%H:%M");
   ("%T","%H:%M:%S"); ("%x","%m/%d/%y"); ("%X","%H:%M:%S"); ("%Ec","%c"); ("%EC","%C"); ("%Ex","%m/%d/%y"); ("%EX","%H:%M:%S");
   ("%Ey","%y"); ("%EY","%Y"); ("%Od","%d"); ("%Oe","%e"); ("%OH","%H"); ("%OI","%I"); ("%Om","%m"); ("%OM","%M"); ("%OS","%S");
   ("%Ou","%u"); ("%OU","%U"); ("%OV","%V"); ("%Ow","%w"); ("%OW","%W"); ("%Oy","%y")]%string.

Definition WEEKDAYS : list jsstr := map js ["Sunday"; "Monday"; "Tuesday"; "Wednesday"; "Thursday"; "Friday"; "Saturday"]%string.
Definition MONTHS : list jsstr := map js
  ["January"; "February"; "March"; "April"; "May"; "June"; "July"; "August"; "September"; "October"; "November"; "December"]%string.

Definition leadingSomething (str : jsstr) (digits : nat) (character : Z) : jsstr := replicate (digits - length str) character ++ str.
Definition leadingNulls (value : Z) (digits : nat) : jsstr := leadingSomething (string_of_Z value) digits 48.

Definition element (table : list jsstr) (i : Z) : option jsstr := if i <? 0 then None else table !! Z.to_nat i.

(** [undefined.substring] throws; [undefined] as a replacement is the text "undefined". *)
Definition abbreviated (o : option jsstr) : result jsstr :=
  match o with Some t => Ok (take 3 t) | None => Throw (PlatformError "TypeError") end.
Definition replacement (o : option jsstr) : jsstr := match o with Some t => t | None => js "undefined" end.

Definition week_string (w : week_text) : jsstr := match w with Literal n => leadingNulls n 2 | Padded n => leadingNulls n 2 end.

(** The offset from UTC.  [off] is divided twice by 60 in double arithmetic, which is exact when it is a
    multiple of a quarter of an hour; otherwise the digits are those of a rounded double. *)
Class RoundedOffset := { rounded_offset : Z -> jsstr }.

Definition last_four (s : jsstr) : jsstr := drop (length s - 4) s.

Definition offset_text `{RoundedOffset} (gmtoff : Z) : jsstr :=
  let seconds := Z.abs gmtoff in
  let digits := if seconds mod 900 =? 0 then string_of_Z (seconds / 60 * 100 / 60 + seconds / 60 mod 60) else rounded_offset gmtoff in
  (if 0 <=? gmtoff then 43 else 45) :: last_four (js "0000" ++ digits).

Section Strftime.
Context `{RoundedOffset}.

Definition EXPANSION_RULES_2 (zone : jsstr) : list (jsstr * (tm -> result jsstr)) := [
  (js "%a", fun date => abbreviated (element WEEKDAYS (tm_wday date)));
  (js "%A", fun date => Ok (replacement (element WEEKDAYS (tm_wday date))));
  (js "%b", fun date => abbreviated (element MONTHS (tm_mon date)));
  (js "%B", fun date => Ok (replacement (element MONTHS (tm_mon date))));
  (js "%C", fun date => Ok (leadingNulls (to_int32 (Z.quot (tm_year date + 1900) 100)) 2));
  (js "%d", fun date => Ok (leadingNulls (tm_mday date) 2));
  (js "%e", fun date => Ok (leadingSomething (string_of_Z (tm_mday date)) 2 32));
  (js "%g", fun date => Ok (drop 2 (string_of_Z (getWeekBasedYear date))));
  (js "%G", fun date => Ok (string_of_Z (getWeekBasedYear date)));
  (js "%H", fun date => Ok (leadingNulls (tm_hour date) 2));
  (js "%I", fun date => Ok (leadingNulls (if tm_hour date =? 0 then 12 else if 12 <? tm_hour date then tm_hour date - 12 else tm_hour date) 2));
  (js "%j", fun date => Ok (leadingNulls (day_of_year date) 3));
  (js "%m", fun date => Ok (leadingNulls (tm_mon date + 1) 2));
  (js "%M", fun date => Ok (leadingNulls (tm_min date) 2));
  (js "%n", fun _ => Ok [10]);
  (js "%p", fun date => Ok (if (0 <=? tm_hour date) && (tm_hour date <? 12) then js "AM" else js "PM"));
  (js "%S", fun date => Ok (leadingNulls (tm_sec date) 2));
  (js "%t", fun _ => Ok [9]);
  (js "%u", fun date => Ok (string_of_Z (if tm_wday date =? 0 then 7 else tm_wday date)));
  (js "%U", fun date => Ok (week_string (week_U date)));
  (js "%V", fun date => Ok (week_string (week_V date)));
  (js "%w", fun date => Ok (string_of_Z (tm_wday date)));
  (js "%W", fun date => Ok (week_string (week_W date)));
  (js "%y", fun date => Ok (drop 2 (string_of_Z (tm_year date + 1900))));
  (js "%Y", fun date => Ok (string_of_Z (tm_year date + 1900)));
  (js "%z", fun date => Ok (offset_text (tm_gmtoff date)));
  (js "%Z", fun _ => Ok zone);
  (js "%%", fun _ => Ok [37])].

(** ** The function *)

Definition expand_rules_1 (pattern : jsstr) : jsstr :=
  foldl (fun pattern '(rule, text) => replace_all rule text pattern) pattern EXPANSION_RULES_1.

Definition apply_rule_2 (date : tm) (pattern : jsstr) (rule : jsstr * (tm -> result jsstr)) : result jsstr :=
  if includes pattern (fst rule)
  then let? text := snd rule date in Ok (replace_all (fst rule) text pattern)
  else Ok pattern.

Fixpoint expand_rules_2 (date : tm) (rules : list (jsstr * (tm -> result jsstr))) (pattern : jsstr) : result jsstr :=
  match rules with
  | [] => Ok pattern
  | rule :: rules' => let? pattern := apply_rule_2 date pattern rule in expand_rules_2 date rules' pattern
  end.

Definition expand_format (date : tm) (zone pattern : jsstr) : result jsstr :=
  expand_rules_2 date (EXPANSION_RULES_2 zone) (expand_rules_1 pattern).

(** The first ten fields of the structure; [None] when it is not inside the memory. *)
Definition load_tm (m : mem) (ptr : Z) : option (list Z) := mapM (fun k => load32 m (js_sar (ptr + 4 * k) 2)) [0;1;2;3;4;5;6;7;8;9].

Definition tm_at (m : mem) (ptr : Z) : option tm :=
  match load_tm m ptr with
  | Some [sec; min; hour; mday; mon; year; wday; yday; isdst; gmtoff] =>
      Some {| tm_sec := sec; tm_min := min; tm_hour := hour; tm_mday := mday; tm_mon := mon; tm_year := year;
              tm_wday := wday; tm_yday := yday; tm_isdst := isdst; tm_gmtoff := gmtoff |}
  | _ => None
  end.

(** The result is the number of characters, or 0 when the text does not fit. *)
Definition _strftime (UTF8Decoder : bool) (m : mem) (s maxsize format tm : Z) : option (result Z * mem) :=
  match load32 m (js_sar (tm + 40) 2), tm_at m tm with
  | Some tm_zone, Some date =>
      let zone := if tm_zone =? 0 then [] else UTF8ToString UTF8Decoder m tm_zone None in
      let pattern := UTF8ToString UTF8Decoder m format None in
      Some match expand_format date zone pattern with
           | Throw e => (Throw e, m)
           | Ok text =>
               let bytes := intArrayFromString text false in
               if maxsize <? Z.of_nat (length bytes) then (Ok 0, m)
               else match writeArrayToMemory bytes m s with
                    | Ok m' => (Ok (Z.of_nat (length bytes) - 1), m')
                    | Throw e => (Throw e, m)
                    end
           end
  | _, _ => None
  end.

Definition _strftime_l := _strftime.

(** ** The reference: a format as literal text and directives *)

Inductive seg := Lit (text : jsstr) | Spec (letter : Z).

Definition flat_seg (g : seg) : jsstr := match g with Lit t => t | Spec c => [37; c] end.
Definition flat (gs : list seg) : jsstr := concat (map flat_seg gs).

(** What a directive stands for, directly: the shorthands through the directives they abbreviate. *)
Definition shorthand (c : Z) : list seg :=
  let time := [Spec 72; Lit (js ":"); Spec 77; Lit (js ":"); Spec 83] in
  let day := [Spec 109; Lit (js "/"); Spec 100; Lit (js "/"); Spec 121] in
  if c =? 99 then [Spec 97; Lit (js " "); Spec 98; Lit (js " "); Spec 100; Lit (js " ")] ++ time ++ [Lit (js " "); Spec 89]
  else if (c =? 68) || (c =? 120) then day
  else if c =? 70 then [Spec 89; Lit (js "-"); Spec 109; Lit (js "-"); Spec 100]
  else if c =? 104 then [Spec 98]
  else if c =? 114 then [Spec 73; Lit (js ":"); Spec 77; Lit (js ":"); Spec 83; Lit (js " "); Spec 112]
  else if c =? 82 then [Spec 72; Lit (js ":"); Spec 77]
  else if (c =? 84) || (c =? 88) then time
  else [Spec c].

Fixpoint find_rule (c : Z) (rules : list (jsstr * (tm -> result jsstr))) : option (tm -> result jsstr) :=
  match rules with
  | [] => None
  | (key, f) :: rules' => if str_eqb key [37; c] then Some f else find_rule c rules'
  end.

Definition directive (date : tm) (zone : jsstr) (c : Z) : result jsstr :=
  match find_rule c (EXPANSION_RULES_2 zone) with
  | Some f => f date
  | None => Ok [37; c]
  end.

Definition render_seg (date : tm) (zone : jsstr) (g : seg) : result jsstr :=
  match g with Lit t => Ok t | Spec c => directive date zone c end.

Fixpoint render_segs (date : tm) (zone : jsstr) (gs : list seg) : result jsstr :=
  match gs with
  | [] => Ok []
  | g :: gs' => let? t := render_seg date zone g in let? rest := render_segs date zone gs' in Ok (t ++ rest)
  end.

Definition expand_seg (g : seg) : list seg := match g with Lit t => [Lit t] | Spec c => shorthand c end.

Definition render (date : tm) (zone : jsstr) (gs : list seg) : result jsstr :=
  render_segs date zone (concat (map expand_seg gs)).

End Strftime.

Definition no_rounding : RoundedOffset := {| rounded_offset := fun _ => [] |}.

(** ** Replacement in a segmented text *)

(** No percent sign, and for a replacement no dollar sign. *)
Definition clean (t : jsstr) : Prop := 37 ∉ t.
Definition plain (t : jsstr) : Prop := 37 ∉ t /\ 36 ∉ t.
Definition good_seg (g : seg) : Prop := match g with Lit t => clean t | Spec c => c <> 37 end.

Definition subst_seg (c : Z) (gs : list seg) (g : seg) : list seg :=
  match g with Spec d => if d =? c then gs else [g] | Lit _ => [g] end.
Definition bind_segs (f : seg -> list seg) (gs : list seg) : list seg := concat (map f gs).

Lemma flat_app a b : flat (a ++ b) = flat a ++ flat b.
Proof. unfold flat. by rewrite map_app, concat_app. Qed.

Lemma flat_cons g gs : flat (g :: gs) = flat_seg g ++ flat gs.
Proof. done. Qed.

Lemma substitution_plain repl matched before after : 36 ∉ repl -> substitution repl matched before after = repl.
Proof.
  induction repl as [|c repl IH]; intros Hn; [done|]. apply not_elem_of_cons in Hn as [Hc Hn]. cbn [substitution].
  rewrite IH by done. repeat (case_match; subst; try done).
Qed.

(** A text without a percent sign is copied. *)
Lemma replace_clean p repl t before rest :
  clean t -> replace_from (37 :: p) repl before (t ++ rest) 0 = t ++ replace_from (37 :: p) repl (before ++ t) rest 0.
Proof.
  revert before. induction t as [|x t IH]; intros before Ht; [by rewrite app_nil_r|].
  apply not_elem_of_cons in Ht as [Hx Ht]. cbn [app replace_from startsWith].
  rewrite (proj2 (Z.eqb_neq 37 x)) by done. cbn [andb]. f_equal. rewrite IH by done. by rewrite <- (assoc_L (++)).
Qed.

(** A directive of two characters is replaced where it stands. *)
Lemma replace_flat c rsegs gs before :
  c <> 37 -> 36 ∉ flat rsegs -> Forall good_seg gs ->
  replace_from [37; c] (flat rsegs) before (flat gs) 0 = flat (bind_segs (subst_seg c rsegs) gs).
Proof.
  intros Hc Hr Hg. revert before. induction Hg as [|g gs Hg _ IH]; intros before; [done|].
  rewrite flat_cons. unfold bind_segs in *. cbn [map concat]. rewrite flat_app. destruct g as [t|d]; cbn [flat_seg good_seg subst_seg] in *.
  - rewrite replace_clean, IH by done. change (flat [Lit t]) with (t ++ []). by rewrite app_nil_r.
  - cbn [app replace_from startsWith length]. rewrite Z.eqb_refl, andb_true_r. cbn [andb].
    destruct (Z.eqb_spec d c) as [->|Hd].
    + rewrite Z.eqb_refl. change (2 - 1)%nat with 1%nat. cbn [replace_from]. rewrite substitution_plain, IH by done. done.
    + rewrite (proj2 (Z.eqb_neq c d)) by congruence. cbn [replace_from startsWith]. rewrite (proj2 (Z.eqb_neq 37 d)) by congruence.
      cbn [andb]. by rewrite IH.
Qed.

(** One of three characters is not there. *)
Lemma replace_flat_absent e x repl gs before :
  Forall good_seg gs -> Spec e ∉ gs -> replace_from [37; e; x] repl before (flat gs) 0 = flat gs.
Proof.
  intros Hg. revert before. induction Hg as [|g gs Hg _ IH]; intros before Hn; [done|].
  apply not_elem_of_cons in Hn as [Hne Hn]. rewrite flat_cons. destruct g as [t|d]; cbn [flat_seg good_seg] in *.
  - by rewrite replace_clean, IH.
  - cbn [app replace_from startsWith]. rewrite Z.eqb_refl, (proj2 (Z.eqb_neq e d)) by congruence. cbn [andb replace_from startsWith].
    rewrite (proj2 (Z.eqb_neq 37 d)) by congruence. cbn [andb]. by rewrite IH.
Qed.

Lemma includes_clean p t rest : clean t -> includes (t ++ rest) (37 :: p) = includes rest (37 :: p).
Proof.
  induction t as [|x t IH]; intros Ht; [done|]. apply not_elem_of_cons in Ht as [Hx Ht]. cbn [app includes startsWith].
  rewrite (proj2 (Z.eqb_neq 37 x)) by done. cbn [andb orb]. by apply IH.
Qed.

Definition is_spec (c : Z) (g : seg) : bool := match g with Spec d => c =? d | Lit _ => false end.

Lemma includes_flat c gs : Forall good_seg gs -> includes (flat gs) [37; c] = existsb (is_spec c) gs.
Proof.
  induction 1 as [|g gs Hg _ IH]; [done|]. rewrite flat_cons. destruct g as [t|d]; cbn [flat_seg good_seg existsb is_spec] in *.
  - by rewrite includes_clean.
  - cbn [app includes startsWith]. rewrite Z.eqb_refl, andb_true_r. cbn [andb]. rewrite (proj2 (Z.eqb_neq 37 d)) by congruence.
    cbn [andb orb]. by rewrite IH.
Qed.

Lemma bind_segs_ext f g gs : (forall x, x ∈ gs -> f x = g x) -> bind_segs f gs = bind_segs g gs.
Proof.
  unfold bind_segs. induction gs as [|x gs IH]; intros Hfg; [done|]. cbn. rewrite Hfg by set_solver. f_equal. apply IH. set_solver.
Qed.

Lemma bind_segs_id gs : bind_segs (fun g => [g]) gs = gs.
Proof. unfold bind_segs. induction gs as [|g gs IH]; [done|]. cbn. by rewrite IH. Qed.

Lemma bind_segs_bind f g gs : bind_segs f (bind_segs g gs) = bind_segs (fun x => bind_segs f (g x)) gs.
Proof.
  unfold bind_segs. induction gs as [|x gs IH]; [done|]. cbn. by rewrite map_app, concat_app, IH.
Qed.

Lemma bind_segs_Forall (P : seg -> Prop) f gs : Forall P gs -> (forall g, P g -> Forall P (f g)) -> Forall P (bind_segs f gs).
Proof. intros H Hf. unfold bind_segs. induction H; cbn; [constructor|]. apply Forall_app. auto. Qed.

(** ** The first pass *)

(** The two-character rules on segments; the others need a modifier letter. *)
Definition seg_rules : list (Z * list seg) :=
  let time := [Spec 72; Lit (js ":"); Spec 77; Lit (js ":"); Spec 83] in
  let day := [Spec 109; Lit (js "/"); Spec 100; Lit (js "/"); Spec 121] in
  [(99, [Spec 97; Lit (js " "); Spec 98; Lit (js " "); Spec 100; Lit (js " ")] ++ time ++ [Lit (js " "); Spec 89]);
   (68, day); (70, [Spec 89; Lit (js "-"); Spec 109; Lit (js "-"); Spec 100]); (104, [Spec 98]);
   (114, [Spec 73; Lit (js ":"); Spec 77; Lit (js ":"); Spec 83; Lit (js " "); Spec 112]); (82, [Spec 72; Lit (js ":"); Spec 77]);
   (84, time); (120, day); (88, time)].

(** Segments the first pass keeps apart: no modifier letters. *)
Definition first_pass (g : seg) : Prop := good_seg g /\ g <> Spec 69 /\ g <> Spec 79.

Definition segs_pass (rules : list (Z * list seg)) (gs : list seg) : list seg :=
  foldl (fun gs '(c, rsegs) => bind_segs (subst_seg c rsegs) gs) gs rules.

Definition seg_rule_ok (r : Z * list seg) : Prop := fst r <> 37 /\ 36 ∉ flat (snd r) /\ Forall first_pass (snd r).

Lemma first_pass_good gs : Forall first_pass gs -> Forall good_seg gs.
Proof. intros H. eapply Forall_impl; [exact H|]. by intros g []. Qed.

Lemma subst_first_pass r g : seg_rule_ok r -> first_pass g -> Forall first_pass (subst_seg (fst r) (snd r) g).
Proof. intros (_ & _ & Hr) Hg. destruct g as [t|d]; cbn; [by apply Forall_singleton|]. case_match; [done|]. by apply Forall_singleton. Qed.

Lemma pass_two rules gs :
  Forall seg_rule_ok rules -> Forall first_pass gs ->
  foldl (fun pattern '(rule, text) => replace_all rule text pattern) (flat gs) (map (fun '(c, r) => ([37; c], flat r)) rules)
  = flat (segs_pass rules gs) /\ Forall first_pass (segs_pass rules gs).
Proof.
  intros Hr. revert gs. induction Hr as [|[c r] rules Hok _ IH]; intros gs Hg; [done|]. cbn [map foldl segs_pass].
  pose proof Hok as (Hc & Hd & _). unfold replace_all at 2. rewrite replace_flat by (done || by apply first_pass_good).
  apply IH. apply bind_segs_Forall; [done|]. intros g. by apply (subst_first_pass (c, r)).
Qed.

Lemma pass_three rules gs :
  Forall first_pass gs -> Forall (fun r : jsstr * jsstr => exists e x, fst r = [37; e; x] /\ (e = 69 \/ e = 79)) rules ->
  foldl (fun pattern '(rule, text) => replace_all rule text pattern) (flat gs) rules = flat gs.
Proof.
  intros Hg Hr. induction Hr as [|[k t] rules (e & x & Hk & He) _ IH]; [done|]. cbn in Hk. subst k. cbn [foldl].
  unfold replace_all at 2. rewrite replace_flat_absent; [done|by apply first_pass_good|].
  intros Hin. rewrite Forall_forall in Hg. destruct (Hg _ Hin) as (_ & H1 & H2). destruct He as [->| ->]; congruence.
Qed.

Lemma seg_rules_ok : Forall seg_rule_ok seg_rules.
Proof.
  repeat constructor; try discriminate; cbn; unfold clean; try (intros [= ]);
    try (intros Hin; repeat (apply elem_of_cons in Hin as [Hin|Hin]; [discriminate|]); by apply elem_of_nil in Hin).
Qed.

Lemma rules_1_split : EXPANSION_RULES_1 = map (fun '(c, r) => ([37; c], flat r)) seg_rules ++ drop 9 EXPANSION_RULES_1.
Proof. reflexivity. Qed.

(** The rules on a list of segments are the rules on each. *)
Lemma segs_pass_bind rules gs : segs_pass rules gs = bind_segs (fun g => segs_pass rules [g]) gs.
Proof.
  revert gs. induction rules as [|[c r] rules IH]; intros gs; cbn [segs_pass foldl]; [by rewrite bind_segs_id|].
  change (segs_pass rules (bind_segs (subst_seg c r) gs) = bind_segs (fun g => segs_pass rules (bind_segs (subst_seg c r) [g])) gs).
  rewrite IH, bind_segs_bind. apply bind_segs_ext. intros g _. rewrite IH, bind_segs_bind. unfold bind_segs. cbn. by rewrite app_nil_r.
Qed.

Lemma segs_pass_spec c : segs_pass seg_rules [Spec c] = shorthand c.
Proof.
  unfold shorthand.
  destruct (Z.eqb_spec c 99) as [->|?]; [reflexivity|]. destruct (Z.eqb_spec c 68) as [->|?]; [reflexivity|].
  destruct (Z.eqb_spec c 120) as [->|?]; [reflexivity|]. destruct (Z.eqb_spec c 70) as [->|?]; [reflexivity|].
  destruct (Z.eqb_spec c 104) as [->|?]; [reflexivity|]. destruct (Z.eqb_spec c 114) as [->|?]; [reflexivity|].
  destruct (Z.eqb_spec c 82) as [->|?]; [reflexivity|]. destruct (Z.eqb_spec c 84) as [->|?]; [reflexivity|].
  destruct (Z.eqb_spec c 88) as [->|?]; [reflexivity|]. cbn [orb].
  unfold segs_pass, seg_rules, bind_segs. cbn [foldl].
  do 9 (cbn [map concat subst_seg]; rewrite (proj2 (Z.eqb_neq c _)) by done; rewrite app_nil_r). reflexivity.
Qed.

Lemma expand_rules_1_segs gs :
  Forall first_pass gs ->
  expand_rules_1 (flat gs) = flat (concat (map expand_seg gs)) /\ Forall first_pass (concat (map expand_seg gs)).
Proof.
  intros Hg. destruct (pass_two _ _ seg_rules_ok Hg) as [Hp Hf].
  assert (He : segs_pass seg_rules gs = concat (map expand_seg gs)).
  { rewrite segs_pass_bind. apply bind_segs_ext. intros [t|c] _; [reflexivity|apply segs_pass_spec]. }
  rewrite He in *. split; [|done]. unfold expand_rules_1. rewrite rules_1_split, foldl_app, Hp. apply pass_three; [done|].
  repeat constructor; cbn; eexists _, _; (split; [reflexivity|auto]).
Qed.

(** ** The second pass *)

Section SecondPass.
Context (date : tm).

(** What the rules make of a segment. *)
Definition resolve_seg (rules : list (jsstr * (tm -> result jsstr))) (g : seg) : seg :=
  match g with
  | Lit t => Lit t
  | Spec c => match find_rule c rules with
              | Some f => match f date with Ok t => Lit t | Throw _ => Spec c end
              | None => Spec c
              end
  end.

Definition key_ok (r : jsstr * (tm -> result jsstr)) : Prop := exists c, fst r = [37; c] /\ c <> 37.
Definition texts_ok (rules : list (jsstr * (tm -> result jsstr))) : Prop :=
  Forall (fun r => exists t, snd r date = Ok t /\ plain t) rules.

Lemma resolve_good rules gs : texts_ok rules -> Forall good_seg gs -> Forall good_seg (map (resolve_seg rules) gs).
Proof.
  intros Ht Hg. apply Forall_fmap. eapply Forall_impl; [exact Hg|]. intros [t|c]; cbn; [done|]. intros Hc.
  destruct (find_rule c rules) as [f|] eqn:Ef; [|done].
  assert (exists t, f date = Ok t /\ plain t) as (t & -> & [Hp _]).
  { clear - Ht Ef. induction Ht as [|[k f'] rules Hr _ IH]; [done|]. cbn in Ef. case_match; [by inv Ef|auto]. }
  done.
Qed.

Lemma str_eqb_key c d : str_eqb [37; d] [37; c] = (c =? d).
Proof. unfold str_eqb. case_bool_decide as Hb; [inv Hb; by rewrite Z.eqb_refl|]. symmetry. apply Z.eqb_neq. congruence. Qed.

(** One rule: replaced where it occurs, and not evaluated where it does not. *)
Lemma apply_rule_segs d f t gs :
  d <> 37 -> f date = Ok t -> plain t -> Forall good_seg gs ->
  apply_rule_2 date (flat gs) ([37; d], f) = Ok (flat (map (resolve_seg [([37; d], f)]) gs)).
Proof.
  intros Hd Hf [Hp Hdl] Hg. unfold apply_rule_2. cbn [fst snd]. rewrite includes_flat by done.
  assert (Hm : map (resolve_seg [([37; d], f)]) gs = bind_segs (subst_seg d [Lit t]) gs).
  { unfold bind_segs. clear - Hf. induction gs as [|[u|c] gs IH]; [done| |]; cbn [map concat resolve_seg subst_seg]; [by rewrite IH|].
    cbn [find_rule]. rewrite str_eqb_key. destruct (Z.eqb_spec c d) as [->|]; cbn; [rewrite Hf|]; by rewrite IH. }
  rewrite Hm. destruct (existsb (is_spec d) gs) eqn:Ee.
  - rewrite Hf. cbn [rbind]. f_equal. unfold replace_all.
    replace t with (flat [Lit t]) at 1 by (unfold flat; cbn; by rewrite app_nil_r).
    apply replace_flat; [done|unfold flat; cbn; by rewrite app_nil_r|done].
  - f_equal. f_equal. rewrite <- (bind_segs_id gs) at 1. apply bind_segs_ext. intros [u|c] Hin; cbn; [done|].
    destruct (Z.eqb_spec c d) as [->|]; [|done]. exfalso.
    assert (existsb (is_spec d) gs = true); [|congruence]. apply existsb_exists. exists (Spec d).
    split; [by apply list_elem_of_In|]. cbn. apply Z.eqb_refl.
Qed.

Lemma resolve_cons r rules g : resolve_seg rules (resolve_seg [r] g) = resolve_seg (r :: rules) g \/ exists e, snd r date = Throw e.
Proof.
  destruct r as [k f], g as [t|c]; cbn; [by left|]. destruct (str_eqb k [37; c]); cbn; [|by left].
  destruct (f date) as [t|e] eqn:Ef; [by left|right]. by exists e.
Qed.

Lemma expand_rules_2_segs rules gs :
  Forall key_ok rules -> texts_ok rules -> Forall good_seg gs ->
  expand_rules_2 date rules (flat gs) = Ok (flat (map (resolve_seg rules) gs)).
Proof.
  intros Hk Ht. revert gs. induction rules as [|[k f] rules IH]; intros gs Hg.
  - cbn. do 2 f_equal. induction gs as [|[t|c] gs IHg]; [done| |]; cbn; f_equal; (apply IHg; by inv Hg).
  - inv Hk. inv Ht. destruct H1 as (d & Hd & Hne). cbn in Hd. subst k. destruct H3 as (t & Hf & Hp). cbn [snd] in Hf.
    cbn [expand_rules_2]. rewrite (apply_rule_segs d f t) by done. cbn [rbind].
    rewrite IH; [|done|done|apply resolve_good; [|done]; apply Forall_singleton; by exists t].
    do 2 f_equal. rewrite map_map. apply map_ext. intros g.
    destruct (resolve_cons ([37; d], f) rules g) as [->|[e He]]; [done|]. cbn in He. congruence.
Qed.

End SecondPass.

(** ** The texts of the rules *)

Lemma plain_app a b : plain (a ++ b) <-> plain a /\ plain b.
Proof. unfold plain. rewrite !not_elem_of_app. tauto. Qed.

Lemma plain_forall t : Forall (fun c => c <> 36 /\ c <> 37) t -> plain t.
Proof. intros Ht. rewrite Forall_forall in Ht. split; intros Hin; apply Ht in Hin; lia. Qed.

Lemma plain_take n t : plain t -> plain (take n t).
Proof. intros [H1 H2]. split; intros Hin; [apply H1|apply H2]; eapply elem_of_take in Hin as (? & ? & _); eapply list_elem_of_lookup_2; eauto. Qed.

Lemma plain_drop n t : plain t -> plain (drop n t).
Proof. intros H. rewrite <- (take_drop n t) in H. apply plain_app in H. tauto. Qed.

Lemma plain_string_of_Z n : plain (string_of_Z n).
Proof.
  assert (Hd : forall f k, 0 <= k -> plain (dec_digits f k)).
  { intros f k Hk. apply plain_forall. apply Forall_forall. intros c Hc. pose proof (dec_digits_digit f k Hk) as Hf.
    rewrite forallb_forall in Hf. apply list_elem_of_In in Hc. apply Hf in Hc. unfold is_digit in Hc. lia. }
  unfold string_of_Z. destruct (Z.ltb_spec n 0); [|apply Hd; lia].
  apply (plain_app [45]). split; [|apply Hd; lia]. apply plain_forall. repeat constructor; lia.
Qed.

Lemma plain_replicate n c : c <> 36 -> c <> 37 -> plain (replicate n c).
Proof. intros H1 H2. apply plain_forall. apply Forall_replicate. done. Qed.

Lemma plain_leadingNulls v n : plain (leadingNulls v n).
Proof. apply plain_app. split; [by apply plain_replicate|apply plain_string_of_Z]. Qed.

Lemma plain_element table i : Forall plain table -> 0 <= i < Z.of_nat (length table) -> exists t, element table i = Some t /\ plain t.
Proof.
  intros Ht Hi. unfold element. rewrite (proj2 (Z.ltb_ge i 0)) by lia.
  destruct (lookup_lt_is_Some_2 table (Z.to_nat i)) as [t Hl]; [lia|]. exists t. split; [done|]. eapply Forall_lookup_1; eauto.
Qed.

(** Decided by evaluation for the texts of the code. *)
Definition plainb (t : jsstr) : bool := forallb (fun c => negb (c =? 36) && negb (c =? 37)) t.
Lemma plainb_spec t : plainb t = true -> plain t.
Proof.
  intros H. apply plain_forall. apply Forall_forall. intros c Hc. unfold plainb in H. rewrite forallb_forall in H.
  apply list_elem_of_In in Hc. apply H in Hc. bool_prop. lia.
Qed.

Lemma tables_plain : Forall plain WEEKDAYS /\ Forall plain MONTHS.
Proof. split; repeat constructor; by apply plainb_spec. Qed.

Create HintDb strftime.
#[export] Hint Resolve plain_leadingNulls plain_string_of_Z plain_drop plain_take plain_replicate : strftime.

(** The fields name a weekday and a month, and the texts given from outside have no percent or dollar sign. *)
Definition formattable `{RoundedOffset} (date : tm) (zone : jsstr) : Prop :=
  0 <= tm_wday date <= 6 /\ 0 <= tm_mon date <= 11 /\ plain zone /\ plain (rounded_offset (tm_gmtoff date)).

Section Format.
Context `{RoundedOffset}.

Definition letter_rules (zone : jsstr) : list (jsstr * (tm -> result jsstr)) := take 27 (EXPANSION_RULES_2 zone).

Lemma letter_rules_keys zone : Forall key_ok (letter_rules zone).
Proof. repeat constructor; (eexists; split; [reflexivity|discriminate]). Qed.

Lemma plain_offset off : plain (rounded_offset off) -> plain (offset_text off).
Proof.
  intros Hr. unfold offset_text. apply (plain_app [_]). split; [apply plain_forall; repeat constructor; case_match; lia|].
  apply plain_drop. apply plain_app. split; [by apply plainb_spec|]. case_match; auto with strftime.
Qed.

Lemma letter_rules_texts date zone : formattable date zone -> texts_ok date (letter_rules zone).
Proof.
  intros (Hw & Hm & Hz & Ho). destruct tables_plain as [HW HM].
  destruct (plain_element WEEKDAYS (tm_wday date) HW) as (tw & Ew & Pw); [cbn; lia|].
  destruct (plain_element MONTHS (tm_mon date) HM) as (tmn & Em & Pm); [cbn; lia|].
  repeat constructor; cbn [snd]; rewrite ?Ew, ?Em; cbn [abbreviated replacement]; (eexists; split; [reflexivity|]);
    try (unfold week_string; case_match); auto with strftime; try by apply plainb_spec.
  - apply plain_app. auto with strftime.
  - by apply plain_offset.
Qed.

Lemma find_rule_letters c zone : c <> 37 -> find_rule c (EXPANSION_RULES_2 zone) = find_rule c (letter_rules zone).
Proof.
  intros Hc. rewrite <- (take_drop 27 (EXPANSION_RULES_2 zone)). fold (letter_rules zone).
  change (drop 27 (EXPANSION_RULES_2 zone)) with [(js "%%", fun _ : tm => Ok [37])].
  induction (letter_rules zone) as [|[k f] rules IH]; cbn [find_rule app]; [|case_match; done].
  change (js "%%") with [37; 37]. rewrite str_eqb_key, (proj2 (Z.eqb_neq c 37)) by done. done.
Qed.

Lemma expand_rules_2_app date a b p :
  expand_rules_2 date (a ++ b) p = rbind (expand_rules_2 date a p) (expand_rules_2 date b).
Proof. revert p. induction a as [|r a IH]; intros p; [done|]. cbn. destruct (apply_rule_2 date p r); [apply IH|done]. Qed.

Lemma render_segs_resolve date zone gs :
  formattable date zone -> Forall good_seg gs -> render_segs date zone gs = Ok (flat (map (resolve_seg date (letter_rules zone)) gs)).
Proof.
  intros Hf Hg. pose proof (letter_rules_texts _ _ Hf) as Ht. induction Hg as [|g gs Hg _ IH]; [done|].
  cbn [render_segs map]. rewrite IH, flat_cons. destruct g as [t|c]; cbn [render_seg rbind resolve_seg flat_seg]; [done|].
  unfold directive. cbn in Hg. rewrite find_rule_letters by done.
  destruct (find_rule c (letter_rules zone)) as [f|] eqn:Ef; [|done].
  assert (exists t, f date = Ok t /\ plain t) as (t & -> & _); [|done].
  clear - Ht Ef. induction Ht as [|[k f'] rules Hr _ IH]; [done|]. cbn in Ef. case_match; [by inv Ef|auto].
Qed.

(** Replacing directive after directive in the whole text gives what reading the format from left to right gives: every
    directive stands for its own text, and the text of one is never taken for another.  The formats are
    those without an escaped percent sign and without modifiers. *)
Theorem strftime_reads_format (date : tm) (zone : jsstr) (gs : list seg) :
  formattable date zone -> Forall first_pass gs ->
  expand_format date zone (flat gs) = render date zone gs /\ exists text, render date zone gs = Ok text.
Proof.
  intros Hf Hg. destruct (expand_rules_1_segs gs Hg) as [He Hp]. apply first_pass_good in Hp. unfold expand_format, render. rewrite He.
  set (gs' := concat (map expand_seg gs)) in *. rewrite render_segs_resolve by done. split; [|eauto].
  rewrite <- (take_drop 27 (EXPANSION_RULES_2 zone)). fold (letter_rules zone). rewrite expand_rules_2_app.
  pose proof (letter_rules_texts _ _ Hf) as Ht. rewrite (expand_rules_2_segs date) by (done || apply letter_rules_keys).
  change (drop 27 (EXPANSION_RULES_2 zone)) with [([37; 37], fun _ : tm => Ok [37])]. cbn [rbind expand_rules_2].
  unfold apply_rule_2. cbn [fst]. rewrite includes_flat by (by apply resolve_good).
  replace (existsb (is_spec 37) (map (resolve_seg date (letter_rules zone)) gs')) with false; [done|]. symmetry.
  apply not_true_is_false. intros Hx. apply existsb_exists in Hx as (g & Hin & Hg').
  pose proof (resolve_good date _ gs' Ht Hp) as Hgood. rewrite Forall_forall in Hgood. apply list_elem_of_In in Hin. apply Hgood in Hin.
  destruct g as [t|c]; [done|]. cbn [is_spec good_seg] in *. apply Z.eqb_eq in Hg'. congruence.
Qed.

End Format.

(** A log line: 30 December 2024, 07:05:09. *)
Definition log_date : tm :=
  {| tm_sec := 9; tm_min := 5; tm_hour := 7; tm_mday := 30; tm_mon := 11; tm_year := 124; tm_wday := 1; tm_yday := 364;
     tm_isdst := 0; tm_gmtoff := 3600 |}.

Definition log_format : list seg := [Lit (js "at "); Spec 70; Lit (js " "); Spec 84; Lit (js " week "); Spec 71; Lit (js "/"); Spec 97; Spec 113].

Theorem strftime_reads_witness :
  @expand_format no_rounding log_date [] (flat log_format) = @render no_rounding log_date [] log_format
  /\ @render no_rounding log_date [] log_format = Ok (js "at 2024-12-30 07:05:09 week 2025/Mon%q").
Proof.
  split; [|vm_compute; reflexivity].
  apply (@strftime_reads_format no_rounding log_date [] log_format).
  - split_and!; try (cbn; lia); by apply plainb_spec.
  - unfold log_format. repeat (constructor; [split_and!; [|discriminate..]; try discriminate; cbn; apply plainb_spec; reflexivity|]). constructor.
Defined.

(** An escaped percent sign is not respected: it is the last rule, so the directive that seems to follow it has been
    replaced before.  In C the format [%%Y] prints "%Y". *)
Theorem strftime_escape_lost : @expand_format no_rounding log_date [] (js "%%Y") = Ok (js "%2024").
Proof. vm_compute. reflexivity. Qed.

(** The offset of a zone that is not a whole number of hours is wrong: minutes are counted once as hundredths of an
    hour and once more as minutes. *)
Theorem strftime_offset_wrong `{RoundedOffset} (quarters : Z) :
  0 <= quarters < 96 ->
  exists hhmm, offset_text (900 * quarters) = 43 :: last_four (js "0000" ++ string_of_Z hhmm)
    /\ hhmm = quarters / 4 * 100 + quarters mod 4 * 15 + quarters mod 4 * 25.
Proof.
  intros Hq. unfold offset_text. rewrite Z.abs_eq by lia. replace (900 * quarters) with (quarters * 900) by lia.
  rewrite Z.mod_mul by lia. rewrite (proj2 (Z.leb_le 0 _)) by lia. cbn [Z.eqb].
  eexists. split; [reflexivity|]. replace (quarters * 900) with (quarters * 15 * 60) by lia. rewrite Z.div_mul by lia.
  Z.to_euclidean_division_equations; lia.
Qed.

Theorem strftime_offset_witness :
  exists hhmm, @offset_text no_rounding (900 * 18) = 43 :: last_four (js "0000" ++ string_of_Z hhmm) /\ hhmm = 480.
Proof.
  destruct (@strftime_offset_wrong no_rounding 18 ltac:(lia)) as (hhmm & H1 & H2). exists hhmm. split; [exact H1|]. rewrite H2. reflexivity.
Defined.

Lemma store_block_length m i bs : length (store_block m i bs) = length m.
Proof. revert m i. induction bs as [|b bs IH]; intros m i; [done|]. cbn. by rewrite IH, store8_length. Qed.

Lemma store_block_other m i bs j : ~ (i <= j < i + Z.of_nat (length bs)) -> load8 (store_block m i bs) j = load8 m j.
Proof.
  revert m i. induction bs as [|b bs IH]; intros m i Hj; [done|]. cbn [store_block length] in *.
  rewrite IH, store8_other by lia. done.
Qed.

Lemma store_block_at m i bs k b : 0 <= i -> i + Z.of_nat (length bs) <= Z.of_nat (length m) -> bs !! k = Some b ->
  load8 (store_block m i bs) (i + Z.of_nat k) = Some (b mod 256).
Proof.
  revert m i k. induction bs as [|x bs IH]; intros m i k Hi Hm Hk; [done|]. cbn [store_block length] in *. destruct k as [|k]; cbn in Hk.
  - inv Hk. rewrite Z.add_0_r, store_block_other, load8_store_same by lia. done.
  - replace (i + Z.of_nat (S k)) with (i + 1 + Z.of_nat k) by lia. apply IH; [lia|rewrite store8_length; lia|done].
Qed.

(** [strftime] keeps to its buffer: it changes no byte outside the [maxsize] bytes at [s], a text that does
    not fit gives 0 and changes nothing, and one that fits is followed by a NUL inside the buffer. *)
Theorem strftime_bounds `{RoundedOffset} (decoder : bool) (m m' : mem) (s maxsize format tm n : Z) :
  _strftime decoder m s maxsize format tm = Some (Ok n, m') ->
  length m' = length m
  /\ (forall j, ~ (s <= j < s + maxsize) -> load8 m' j = load8 m j)
  /\ ((n = 0 /\ m' = m) \/ (n < maxsize /\ exists text, n = Z.of_nat (length (intArrayFromString text false)) - 1
        /\ forall k b, intArrayFromString text false !! k = Some b -> load8 m' (s + Z.of_nat k) = Some (b mod 256))).
Proof.
  unfold _strftime. destruct (load32 m _) as [zp|]; [|done]. destruct (tm_at m tm) as [date|]; [|done].
  destruct (expand_format _ _ _) as [text|e]; [|done]. set (bytes := intArrayFromString text false).
  destruct (Z.ltb_spec maxsize (Z.of_nat (length bytes))).
  { intros [= <- <-]. auto. }
  unfold writeArrayToMemory. destruct ((s <? 0) || _) eqn:Eb; [done|]. bool_prop. intros [= <- <-].
  rewrite store_block_length. split; [done|]. split.
  - intros j Hj. apply store_block_other. lia.
  - right. split; [lia|]. exists text. split; [done|]. intros k b Hk. apply store_block_at; [lia|lia|done].
Qed.

(** A memory with the structure at 0, the format at 48 and the buffer at 56. *)
Definition strftime_memory : mem :=
  store_block (repeat 0 80) 0 (concat (map (fun x => bytes32 x) [9; 5; 7; 30; 11; 124; 1; 364; 0; 3600; 0]) ++ replicate 4 0 ++ js "%H:%M").

Theorem strftime_bounds_witness :
  exists m', @_strftime no_rounding true strftime_memory 56 8 48 0 = Some (Ok 5, m') /\ length m' = length strftime_memory /\ load8 m' 61 = Some 0.
Proof.
  destruct (@_strftime no_rounding true strftime_memory 56 8 48 0) as [[[n|e] m']|] eqn:E; [|vm_compute in E; discriminate..].
  pose proof (@strftime_bounds no_rounding true strftime_memory m' 56 8 48 0 n E) as (Hl & _).
  exists m'. vm_compute in E. injection E as <- <-. split; [reflexivity|]. split; [exact Hl|reflexivity].
Defined.
