(* ===== verification/OpusTable.v ===== *)
(** * The function table of the Opus module
      ([integrations/lan-remote-access/rustdesk-web-open/libopus.js])

    Functions get an index in the WebAssembly table so that C code can call them: [addFunction],
    [removeFunction] and what they use, and the module that wraps a JavaScript function. *)

From stdpp Require Import base list numbers strings gmap.
From Stdlib Require Import ZArith Lia.
From S2P Require Import Prelude JsString OpusText.
Local Open Scope Z_scope.

(** ** State *)

(** A function object: written in JavaScript, exported by a WebAssembly instance, or the export that wraps a JavaScript
    function (each wrapping makes a new one). *)
Inductive func := Js (id : nat) | Wasm (id : nat) | Wrapped (source : nat) (id : nat).

#[export] Instance func_eq_dec : EqDecision func.
Proof. solve_decision. Defined.

Definition func_code (f : func) : nat + nat + (nat * nat) :=
  match f with Js n => inl (inl n) | Wasm n => inl (inr n) | Wrapped o n => inr (o, n) end.
Definition func_decode (c : nat + nat + (nat * nat)) : func :=
  match c with inl (inl n) => Js n | inl (inr n) => Wasm n | inr (o, n) => Wrapped o n end.
#[export] Instance func_countable : Countable func.
Proof. apply (inj_countable' func_code func_decode). by intros [|?|? ?]. Defined.

Record tables := {
  wasmTable : list (option func);
  wasmTableMirror : gmap Z func;      (* the slots that are filled *)
  functionsInTableMap : option (gmap func Z);
  freeTableIndexes : list Z;          (* the end of the array first *)
  next_wrapped : nat;
  table_max : Z                       (* the limit of [WebAssembly.Table.grow] *)
}.

Definition table_length (s : tables) : Z := Z.of_nat (length (wasmTable s)).

(** [wasmTable.get(i)]: [None] is a RangeError, [Some None] is [null]. *)
Definition table_get (s : tables) (i : Z) : option (option func) := if i <? 0 then None else wasmTable s !! Z.to_nat i.

Definition set_mirror (s : tables) (m : gmap Z func) : tables :=
  {| wasmTable := wasmTable s; wasmTableMirror := m; functionsInTableMap := functionsInTableMap s;
     freeTableIndexes := freeTableIndexes s; next_wrapped := next_wrapped s; table_max := table_max s |}.
Definition set_entry (s : tables) (i : Z) (f : func) : tables :=
  {| wasmTable := <[Z.to_nat i := Some f]> (wasmTable s); wasmTableMirror := <[i := f]> (wasmTableMirror s);
     functionsInTableMap := functionsInTableMap s; freeTableIndexes := freeTableIndexes s;
     next_wrapped := next_wrapped s; table_max := table_max s |}.
Definition set_map (s : tables) (m : gmap func Z) : tables :=
  {| wasmTable := wasmTable s; wasmTableMirror := wasmTableMirror s; functionsInTableMap := Some m;
     freeTableIndexes := freeTableIndexes s; next_wrapped := next_wrapped s; table_max := table_max s |}.
Definition set_free (s : tables) (l : list Z) : tables :=
  {| wasmTable := wasmTable s; wasmTableMirror := wasmTableMirror s; functionsInTableMap := functionsInTableMap s;
     freeTableIndexes := l; next_wrapped := next_wrapped s; table_max := table_max s |}.
Definition grow_table (s : tables) : tables :=
  {| wasmTable := wasmTable s ++ [None]; wasmTableMirror := wasmTableMirror s; functionsInTableMap := functionsInTableMap s;
     freeTableIndexes := freeTableIndexes s; next_wrapped := next_wrapped s; table_max := table_max s |}.
Definition bump_wrapped (s : tables) : tables :=
  {| wasmTable := wasmTable s; wasmTableMirror := wasmTableMirror s; functionsInTableMap := functionsInTableMap s;
     freeTableIndexes := freeTableIndexes s; next_wrapped := S (next_wrapped s); table_max := table_max s |}.

(** ** Access *)

Definition range_error : jserror := PlatformError "RangeError".

(** The mirror is filled on first use, and checked against the table. *)
Definition getWasmTableEntry (funcPtr : Z) (s : tables) : result (option func) * tables :=
  match wasmTableMirror s !! funcPtr with
  | Some f =>
      match table_get s funcPtr with
      | None => (Throw range_error, s)
      | Some o => if bool_decide (o = Some f) then (Ok (Some f), s) else (Throw aborted, s)
      end
  | None =>
      match table_get s funcPtr with
      | None => (Throw range_error, s)
      | Some None => (Ok None, s)
      | Some (Some f) => (Ok (Some f), set_mirror s (<[funcPtr := f]> (wasmTableMirror s)))
      end
  end.

(** [wasmTable.set] accepts only exported WebAssembly functions. *)
Definition setWasmTableEntry (idx : Z) (f : func) (s : tables) : result unit * tables :=
  match table_get s idx with
  | None => (Throw range_error, s)
  | Some _ =>
      match f with
      | Js _ => (Throw (PlatformError "TypeError"), s)
      | _ => (Ok tt, set_entry s idx f)
      end
  end.

Definition cannot_grow : jserror := ErrorMsg (js "Unable to grow wasm table. Set ALLOW_TABLE_GROWTH.").

Definition getEmptyTableSlot (s : tables) : result Z * tables :=
  match freeTableIndexes s with
  | i :: free => (Ok i, set_free s free)
  | [] => if table_max s <=? table_length s then (Throw cannot_grow, s) else (Ok (table_length s), grow_table s)
  end.

(** The map is written for every filled slot, the last one winning. *)
Fixpoint updateTableMap (offset : Z) (count : nat) (s : tables) : result unit * tables :=
  match count with
  | O => (Ok tt, s)
  | S n =>
      match getWasmTableEntry offset s with
      | (Throw e, s) => (Throw e, s)
      | (Ok None, s) => updateTableMap (offset + 1) n s
      | (Ok (Some f), s) =>
          updateTableMap (offset + 1) n (set_map s (<[f := offset]> (default empty (functionsInTableMap s))))
      end
  end.

(** ** The wrapping module *)

Definition typeCode (c : Z) : option Z :=
  if c =? 105 then Some 0x7f else if c =? 106 then Some 0x7e else if c =? 102 then Some 0x7d else if c =? 100 then Some 0x7c else None.

(** [sig[0]] is the result, [118] is 'v'.  An unknown letter gives [undefined], which a byte array holds as 0.  The lengths
    are one byte each. *)
Definition code_byte (c : Z) : Z := match typeCode c with Some b => b | None => 0 end.

Definition typeSection (sig : jsstr) : list Z :=
  let sigParam := drop 1 sig in
  let body := [0x01; 0x60; Z.of_nat (length sigParam)] ++ map code_byte sigParam
              ++ match head sig with
                 | Some r => if r =? 118 then [0x00] else [0x01; code_byte r]
                 | None => [0x01; 0]
                 end in
  [0x01; Z.of_nat (length body)] ++ body.

Definition wrapper_module (sig : jsstr) : list Z :=
  map (fun b => b mod 256)
    ([0x00; 0x61; 0x73; 0x6d; 0x01; 0x00; 0x00; 0x00] ++ typeSection sig
     ++ [0x02; 0x07; 0x01; 0x01; 0x65; 0x01; 0x66; 0x00; 0x00; 0x07; 0x05; 0x01; 0x01; 0x66; 0x00; 0x00]).

(** [WebAssembly.Function] or the wrapping module; [accepts] says whether the engine takes the module or the type. *)
Definition convertJsFunctionToWasm (accepts : bool) (n : nat) (s : tables) : result func * tables :=
  if accepts then (Ok (Wrapped n (next_wrapped s)), bump_wrapped s)
  else (Throw (PlatformError "CompileError"), s).

(** ** Adding and removing *)

Definition addFunction (f : func) (sig : option jsstr) (accepts : jsstr -> bool) (s : tables) : result Z * tables :=
  let '(r, s) := match functionsInTableMap s with
                 | Some _ => (Ok tt, s)
                 | None => updateTableMap 0 (length (wasmTable s)) (set_map s empty)
                 end in
  match r with
  | Throw e => (Throw e, s)
  | Ok _ =>
      match default empty (functionsInTableMap s) !! f with
      | Some i => (Ok i, s)
      | None =>
          match getEmptyTableSlot s with
          | (Throw e, s) => (Throw e, s)
          | (Ok ret, s) =>
              let finish s := (Ok ret, set_map s (<[f := ret]> (default empty (functionsInTableMap s)))) in
              match setWasmTableEntry ret f s with
              | (Ok _, s) => finish s
              | (Throw e, s) =>
                  if negb (bool_decide (e = PlatformError "TypeError")) then (Throw e, s)
                  else match sig, f with
                       | None, _ => (Throw aborted, s)
                       | Some sig, Js n =>
                           match convertJsFunctionToWasm (accepts sig) n s with
                           | (Throw e, s) => (Throw e, s)
                           | (Ok w, s) => match setWasmTableEntry ret w s with (Throw e, s) => (Throw e, s) | (Ok _, s) => finish s end
                           end
                       | Some _, _ => (Throw e, s)
                       end
              end
          end
      end
  end.

(** The receiver of [delete] is looked up before its argument. *)
Definition removeFunction (index : Z) (s : tables) : result unit * tables :=
  match functionsInTableMap s with
  | None => (Throw (PlatformError "TypeError"), s)
  | Some m =>
      match getWasmTableEntry index s with
      | (Throw e, s) => (Throw e, s)
      | (Ok o, s) =>
          let s := set_map s match o with Some f => delete f m | None => m end in
          (Ok tt, set_free s (index :: freeTableIndexes s))
      end
  end.

(** ** Invariant *)

(** A table entry calls a function: it is the function, or the export that wraps it. *)
Definition calls (e : option func) (f : func) : Prop :=
  match e with
  | None => False
  | Some e => e = f \/ match e, f with Wrapped o _, Js n => o = n | _, _ => False end
  end.

(** The mirror agrees with the table, and the map gives every function it knows an entry that calls it, which is
    not free. *)
Record table_ok (s : tables) : Prop := {
  ok_mirror : forall i f, wasmTableMirror s !! i = Some f -> table_get s i = Some (Some f);
  ok_map : forall m f i, functionsInTableMap s = Some m -> m !! f = Some i ->
           i ∉ freeTableIndexes s /\ exists e, table_get s i = Some e /\ calls e f;
  ok_free : Forall (fun i => exists e, table_get s i = Some e) (freeTableIndexes s);
  ok_nodup : NoDup (freeTableIndexes s);
  ok_first : functionsInTableMap s = None -> freeTableIndexes s = []
}.

Lemma table_get_range s i : (exists e, table_get s i = Some e) <-> 0 <= i < table_length s.
Proof.
  unfold table_get, table_length. destruct (Z.ltb_spec i 0); split; intros Hi; [by destruct Hi|lia| |].
  - destruct Hi as [e He]. apply lookup_lt_Some in He. lia.
  - apply lookup_lt_is_Some_2. lia.
Qed.

Lemma set_entry_get s i f j : (exists e, table_get s i = Some e) ->
  table_get (set_entry s i f) j = if decide (j = i) then Some (Some f) else table_get s j.
Proof.
  intros Hi. apply table_get_range in Hi. unfold table_get, table_length in *. cbn [wasmTable set_entry].
  destruct (decide (j = i)) as [->|Hne].
  - rewrite (proj2 (Z.ltb_ge i 0)) by lia. apply list_lookup_insert_eq. lia.
  - destruct (Z.ltb_spec j 0); [done|]. apply list_lookup_insert_ne. lia.
Qed.

(** Reading an entry fills the mirror and nothing else. *)
Lemma getWasmTableEntry_spec i s :
  table_ok s -> 0 <= i < table_length s ->
  exists e s', getWasmTableEntry i s = (Ok e, s') /\ table_get s i = Some e /\ table_ok s'
    /\ wasmTable s' = wasmTable s /\ functionsInTableMap s' = functionsInTableMap s /\ freeTableIndexes s' = freeTableIndexes s.
Proof.
  intros [Hmi Hmp Hfr Hnd Hfi] Hi. apply table_get_range in Hi as [e He]. unfold getWasmTableEntry.
  destruct (wasmTableMirror s !! i) as [f|] eqn:Em.
  - pose proof (Hmi _ _ Em) as Hg. rewrite Hg. rewrite bool_decide_eq_true_2 by done. by eexists _, s.
  - rewrite He. destruct e as [f|]; [|by eexists _, s]. eexists _, _. split; [done|]. split; [done|]. split; [|done].
    split; cbn; try done. intros j g. rewrite lookup_insert_Some. intros [[<- <-]|[_ H]]; [done|]. by apply Hmi.
Qed.

(** What [updateTableMap] writes: entries of the table, under their own index. *)
Lemma updateTableMap_spec n off s m :
  table_ok s -> functionsInTableMap s = Some m -> freeTableIndexes s = [] -> 0 <= off -> off + Z.of_nat n = table_length s ->
  exists s' m', updateTableMap off n s = (Ok tt, s') /\ table_ok s' /\ functionsInTableMap s' = Some m'
    /\ wasmTable s' = wasmTable s /\ freeTableIndexes s' = []
    /\ (forall f, m !! f <> None -> m' !! f <> None)
    /\ (forall i f, off <= i < table_length s -> table_get s i = Some (Some f) -> m' !! f <> None).
Proof.
  revert off s m. induction n as [|n IH]; intros off s m Hok Hm Hf Ho Hlen.
  - exists s, m. split_and!; try done. intros i f Hi. lia.
  - cbn [updateTableMap]. destruct (getWasmTableEntry_spec off s Hok) as (e & s1 & -> & He & Hok1 & Ht & Hmm & Hff); [lia|].
    assert (Hl1 : table_length s1 = table_length s) by (unfold table_length; by rewrite Ht).
    assert (Hg1 : forall i, table_get s1 i = table_get s i) by (intros i; unfold table_get; by rewrite Ht).
    destruct e as [f|].
    + assert (Hok2 : table_ok (set_map s1 (<[f:=off]> (default ∅ (functionsInTableMap s1))))).
      { destruct Hok1 as [A B C D E]. split; cbn; try done. intros m1 g i [= <-] Hg. rewrite Hmm, Hm in Hg. cbn in Hg.
        apply lookup_insert_Some in Hg as [[<- <-]|[_ Hg]].
        - rewrite Hff, Hf. split; [set_solver|]. exists (Some f). unfold table_get in *. cbn. rewrite Ht. split; [done|by left].
        - apply (B m g i); [congruence|done]. }
      destruct (IH (off + 1) _ (<[f:=off]> m) Hok2) as (s' & m' & Hu & Hok' & Hm' & Ht' & Hf' & Hmono & Hall); cbn; try congruence; try lia.
      { by rewrite Hmm, Hm. }
      { unfold table_length in *. cbn. lia. }
      exists s', m'. rewrite Hu. split_and!; try done.
      * rewrite Ht'. cbn. done.
      * intros g Hg. apply Hmono. destruct (decide (f = g)) as [->|]; [by rewrite lookup_insert_eq|by rewrite lookup_insert_ne].
      * intros i g Hi Hg. destruct (decide (i = off)) as [->|].
        -- apply Hmono. rewrite He in Hg. inv Hg. by rewrite lookup_insert_eq.
        -- apply (Hall i); [unfold table_length in *; cbn; lia|]. unfold table_get in *. cbn. by rewrite Ht.
    + destruct (IH (off + 1) s1 m Hok1) as (s' & m' & Hu & Hok' & Hm' & Ht' & Hf' & Hmono & Hall); try congruence; try lia.
      exists s', m'. rewrite Hu. split_and!; try done; [congruence|].
      intros i g Hi Hg. destruct (decide (i = off)) as [->|]; [congruence|]. apply (Hall i); [lia|by rewrite Hg1].
Qed.

(** An empty slot: taken from the free ones or new; no function of the map is there. *)
Lemma getEmptyTableSlot_spec s m r s' :
  table_ok s -> functionsInTableMap s = Some m -> getEmptyTableSlot s = (r, s') ->
  table_ok s' /\ functionsInTableMap s' = Some m
  /\ (forall j, 0 <= j < table_length s -> table_get s' j = table_get s j)
  /\ (forall i, r = Ok i -> (exists e, table_get s' i = Some e) /\ i ∉ freeTableIndexes s' /\ (forall f, m !! f <> Some i)
        /\ (i ∈ freeTableIndexes s \/ i = table_length s)).
Proof.
  intros [A B C D E] Hm. unfold getEmptyTableSlot. destruct (freeTableIndexes s) as [|k free] eqn:Ef.
  - destruct (table_max s <=? table_length s); intros [= <- <-].
    { rewrite Hm. split_and!; try done. split; try done; by rewrite Ef. }
    assert (Hg : forall j, 0 <= j < table_length s -> table_get (grow_table s) j = table_get s j).
    { intros j Hj. unfold table_get, table_length in *. cbn. case_match; [done|]. by rewrite lookup_app_l by lia. }
    assert (Hin : forall j e, table_get s j = Some e -> 0 <= j < table_length s) by (intros j e He; apply table_get_range; eauto).
    split_and!; [| done | done |].
    + split; cbn; try (by rewrite Ef).
      * intros i f Hi. rewrite Hg; [by apply A|]. eapply Hin, A, Hi.
      * intros m1 f i Hm1 Hi. destruct (B m1 f i Hm1 Hi) as (H1 & e & H2 & H3). rewrite Ef. split; [done|]. exists e. split; [|done].
        rewrite Hg; [done|]. eapply Hin, H2.
    + intros i [= <-]. cbn. rewrite Ef. split_and!; [|set_solver| |by right].
      * exists None. unfold table_get, table_length. cbn. rewrite (proj2 (Z.ltb_ge _ 0)) by lia. rewrite Nat2Z.id. by rewrite list_lookup_middle.
      * intros f Hf. destruct (B m f _ Hm Hf) as (_ & e & He & _). apply Hin in He. lia.
  - intros [= <- <-]. inv C. inv D. split_and!; [|done|done|].
    + split; cbn; try done; [|by rewrite Hm]. intros m1 f i Hm1 Hi. destruct (B m1 f i Hm1 Hi) as (H5 & H6). set_solver.
    + intros i [= <-]. cbn. split_and!; [done|done| |left; set_solver].
      intros f Hf. destruct (B m f _ Hm Hf) as (H5 & _). set_solver.
Qed.

(** Filling a slot that no function has, and recording it. *)
Lemma fill_slot_ok s m f e i :
  table_ok s -> functionsInTableMap s = Some m -> (exists o, table_get s i = Some o) -> i ∉ freeTableIndexes s ->
  (forall g, m !! g <> Some i) -> calls (Some e) f ->
  table_ok (set_map (set_entry s i e) (<[f := i]> m)).
Proof.
  intros [A B C D E] Hm Hi Hf Hnew Hc.
  assert (Hg : forall j, table_get (set_map (set_entry s i e) (<[f := i]> m)) j = if decide (j = i) then Some (Some e) else table_get s j)
    by (intros j; apply (set_entry_get s i e j Hi)).
  split; try done.
  - intros j g. rewrite Hg. cbn. rewrite lookup_insert_Some. intros [[-> ->]|[Hne Hj]]; [by rewrite decide_True|].
    rewrite decide_False by congruence. by apply A.
  - intros m1 g j [= <-] Hj. rewrite Hg. apply lookup_insert_Some in Hj as [[<- <-]|[Hne Hj]].
    + split; [done|]. rewrite decide_True by done. eauto.
    + destruct (B m g j Hm Hj) as (H5 & o & H6 & H7). split; [done|]. rewrite decide_False by (intros ->; by apply (Hnew g)). eauto.
  - cbn. eapply Forall_impl; [exact C|]. intros j [o Ho]. rewrite Hg. case_decide; eauto.
Qed.

Lemma set_map_ok s : table_ok s -> functionsInTableMap s = None -> table_ok (set_map s empty).
Proof. intros [A B C D E] Hn. split; cbn; try done. intros m f i [= <-]. by rewrite lookup_empty. Qed.

(** The map exists after the first step of [addFunction]. *)
Lemma ensure_map_spec s :
  table_ok s ->
  exists s1 m, match functionsInTableMap s with
               | Some _ => (Ok tt, s)
               | None => updateTableMap 0 (length (wasmTable s)) (set_map s empty)
               end = (Ok tt, s1)
    /\ table_ok s1 /\ functionsInTableMap s1 = Some m /\ wasmTable s1 = wasmTable s /\ freeTableIndexes s1 = freeTableIndexes s.
Proof.
  intros Hok. destruct (functionsInTableMap s) as [m|] eqn:Em; [by exists s, m|].
  destruct (updateTableMap_spec (length (wasmTable s)) 0 (set_map s empty) empty (set_map_ok _ Hok Em)) as (s1 & m & H1 & H2 & H3 & H4 & H5 & _);
    try done. { cbn. by apply Hok. }
  exists s1, m. rewrite H5. split_and!; try done. symmetry. by apply Hok.
Qed.

(** Adding a function, whether it succeeds or throws: the index it gives holds an entry that calls the function and is not free;
    every entry outside the free slots stays; and the table keeps its invariant. *)
Theorem addFunction_spec (f : func) (sig : option jsstr) (accepts : jsstr -> bool) (s : tables) :
  table_ok s ->
  let '(r, s') := addFunction f sig accepts s in
  table_ok s'
  /\ (forall j, 0 <= j < table_length s -> j ∉ freeTableIndexes s -> table_get s' j = table_get s j)
  /\ (forall i, r = Ok i -> i ∉ freeTableIndexes s' /\ exists e, table_get s' i = Some e /\ calls e f).
Proof.
  intros Hok. destruct (ensure_map_spec s Hok) as (s1 & m & Hs1 & Hok1 & Hm1 & Ht1 & Hf1). unfold addFunction. rewrite Hs1.
  assert (Hg1 : forall j, table_get s1 j = table_get s j) by (intros j; unfold table_get; by rewrite Ht1).
  assert (Hl1 : table_length s1 = table_length s) by (unfold table_length; by rewrite Ht1).
  rewrite Hm1. cbn [from_option id]. destruct (m !! f) as [i|] eqn:Ei.
  { cbn beta iota zeta. split; [done|]. split; [intros; apply Hg1|]. intros i' [= <-]. by apply (ok_map _ Hok1 m). }
  destruct (getEmptyTableSlot s1) as [[ret|e] s2] eqn:Es;
    destruct (getEmptyTableSlot_spec _ _ _ _ Hok1 Hm1 Es) as (Hok2 & Hm2 & Hg2 & Hret).
  2: { cbn beta iota zeta. split; [done|]. split; [intros j Hj _; by rewrite Hg2, Hg1 by lia|done]. }
  destruct (Hret ret eq_refl) as (Hslot & Hnf & Hnew & Hwhere).
  assert (Hframe2 : forall j, 0 <= j < table_length s -> j ∉ freeTableIndexes s -> table_get s2 j = table_get s j /\ j <> ret).
  { intros j Hj Hjf. rewrite Hg2, Hg1 by lia. split; [done|]. intros ->. rewrite Hf1 in Hwhere. destruct Hwhere; [done|lia]. }
  assert (Hfill : forall e s3, calls (Some e) f -> table_ok s3 -> functionsInTableMap s3 = Some m -> wasmTable s3 = wasmTable s2 ->
     freeTableIndexes s3 = freeTableIndexes s2 ->
     let s' := set_map (set_entry s3 ret e) (<[f := ret]> m) in
     table_ok s' /\ (forall j, 0 <= j < table_length s -> j ∉ freeTableIndexes s -> table_get s' j = table_get s j)
     /\ (forall i, Ok ret = Ok i -> i ∉ freeTableIndexes s' /\ exists e, table_get s' i = Some e /\ calls e f)).
  { intros e s3 Hc Hok3 Hm3 Ht3 Hf3. assert (Hslot3 : exists o, table_get s3 ret = Some o) by (unfold table_get in *; by rewrite Ht3).
    split; [by apply fill_slot_ok; rewrite ?Hf3|].
    assert (Hg3 : forall j, table_get (set_map (set_entry s3 ret e) (<[f := ret]> m)) j = if decide (j = ret) then Some (Some e) else table_get s2 j).
    { intros j. etransitivity; [apply (set_entry_get s3 ret e j Hslot3)|]. case_decide; [done|]. unfold table_get. by rewrite Ht3. }
    split.
    - intros j Hj Hjf. rewrite Hg3. destruct (Hframe2 j Hj Hjf) as [He Hne]. by rewrite decide_False.
    - intros i [= <-]. cbn [freeTableIndexes set_map set_entry]. rewrite Hf3. split; [done|]. exists (Some e). by rewrite Hg3, decide_True. }
  unfold setWasmTableEntry. destruct Hslot as [o Ho]. rewrite Ho.
  destruct f as [n|n|o' n]; cbn [negb]; cbn beta iota zeta.
  - rewrite bool_decide_eq_true_2 by done. cbn [negb].
    assert (Hthrow : forall e : jserror, table_ok s2 /\ (forall j, 0 <= j < table_length s -> j ∉ freeTableIndexes s -> table_get s2 j = table_get s j)
              /\ (forall i, Throw e = Ok i -> i ∉ freeTableIndexes s2 /\ exists e, table_get s2 i = Some e /\ calls e (Js n))).
    { intros e. split; [done|]. split; [intros j Hj Hjf; by apply Hframe2|done]. }
    destruct sig as [sig|]; [|apply Hthrow]. unfold convertJsFunctionToWasm. destruct (accepts sig); [|apply Hthrow].
    assert (Hb : table_get (bump_wrapped s2) ret = Some o) by done. rewrite Hb. cbn [functionsInTableMap set_entry bump_wrapped]. rewrite Hm2. cbn [from_option id].
    apply (Hfill _ (bump_wrapped s2)); try done; [by right|]. by destruct Hok2.
  - cbn [functionsInTableMap set_entry]. rewrite Hm2. cbn [from_option id]. apply Hfill; try done. by left.
  - cbn [functionsInTableMap set_entry]. rewrite Hm2. cbn [from_option id]. apply Hfill; try done. by left.
Qed.

(** Removing the index of a WebAssembly function: the function is forgotten and its index is free. *)
Theorem removeFunction_spec (i : Z) (f : func) (n : nat) (m : gmap func Z) (s : tables) :
  table_ok s -> functionsInTableMap s = Some m -> table_get s i = Some (Some f) -> f = Wasm n -> i ∉ freeTableIndexes s ->
  exists s', removeFunction i s = (Ok tt, s') /\ table_ok s' /\ functionsInTableMap s' = Some (delete f m)
    /\ freeTableIndexes s' = i :: freeTableIndexes s /\ wasmTable s' = wasmTable s.
Proof.
  intros Hok Hm Hi -> Hf. unfold removeFunction. rewrite Hm.
  destruct (getWasmTableEntry_spec i s Hok) as (e & s1 & -> & He & Hok1 & Ht & Hmm & Hff); [apply table_get_range; eauto|].
  assert (e = Some (Wasm n)) as -> by congruence. eexists. split; [done|]. cbn. rewrite Hff. split_and!; try done.
  destruct Hok1 as [A B C D E]. assert (Hg : forall j, table_get s1 j = table_get s j) by (intros j; unfold table_get; by rewrite Ht).
  split; cbn; try done.
  - intros m1 g j [= <-] Hj. apply lookup_delete_Some in Hj as [Hne Hj]. destruct (B m g j) as (H5 & o & H6 & H7); [congruence|done|].
    rewrite Hff in *. split; [|by exists o]. intros Hin. apply elem_of_cons in Hin as [->|Hin]; [|done].
    rewrite Hg, Hi in H6. inv H6. cbn in H7. by destruct H7.
  - constructor; [|by rewrite Hff in *]. exists (Some (Wasm n)). rewrite <- Hi. apply Hg.
  - constructor; [done|by rewrite Hff in *].
Qed.

(** A table with three entries. *)
Definition sample_table : tables :=
  {| wasmTable := [None; Some (Wasm 1); Some (Wasm 2)]; wasmTableMirror := empty; functionsInTableMap := None;
     freeTableIndexes := []; next_wrapped := 0; table_max := 10 |}.

Lemma sample_table_ok : table_ok sample_table.
Proof. split; cbn; try done; constructor. Qed.

Definition accept_all (_ : jsstr) : bool := true.

Theorem addFunction_witness :
  let '(r, s') := addFunction (Js 7) (Some (js "vi")) accept_all sample_table in
  r = Ok 3 /\ table_get s' 3 = Some (Some (Wrapped 7 0)) /\ table_get s' 1 = table_get sample_table 1.
Proof.
  pose proof (addFunction_spec (Js 7) (Some (js "vi")) accept_all sample_table sample_table_ok) as Hs.
  assert (Hr : fst (addFunction (Js 7) (Some (js "vi")) accept_all sample_table) = Ok 3) by (vm_compute; reflexivity).
  assert (H3 : table_get (snd (addFunction (Js 7) (Some (js "vi")) accept_all sample_table)) 3 = Some (Some (Wrapped 7 0)))
    by (vm_compute; reflexivity).
  destruct (addFunction (Js 7) (Some (js "vi")) accept_all sample_table) as [r s']. destruct Hs as (_ & Hframe & _).
  split; [exact Hr|]. split; [exact H3|]. apply Hframe; [change (0 <= 1 < 3); lia|cbn; apply not_elem_of_nil].
Defined.

Definition after_add (f : func) : tables := snd (addFunction f (Some (js "vi")) accept_all sample_table).

Lemma after_add_ok f : table_ok (after_add f).
Proof.
  unfold after_add. pose proof (addFunction_spec f (Some (js "vi")) accept_all sample_table sample_table_ok) as Hs.
  destruct (addFunction f (Some (js "vi")) accept_all sample_table). apply Hs.
Qed.

Theorem removeFunction_witness : exists s', removeFunction 3 (after_add (Wasm 9)) = (Ok tt, s') /\ freeTableIndexes s' = [3].
Proof.
  destruct (functionsInTableMap (after_add (Wasm 9))) as [m|] eqn:Hm; [|vm_compute in Hm; discriminate].
  destruct (removeFunction_spec 3 (Wasm 9) 9 m (after_add (Wasm 9)) (after_add_ok _) Hm) as (s2 & H1 & _ & _ & H2 & _).
  - vm_compute. reflexivity.
  - reflexivity.
  - change (freeTableIndexes (after_add (Wasm 9))) with (@nil Z). apply not_elem_of_nil.
  - exists s2. split; [exact H1|exact H2].
Defined.

(** Removing a JavaScript function does not forget it: the map has the function and the table its wrapper, and
    the wrapper is what is deleted from the map.  Adding the function again gives the freed index without taking it, the next function added
    gets the same index, and what C code calls as the first function is then the second. *)
Theorem removed_js_function_is_stale (n g : nat) (i : Z) (w : nat) (m : gmap func Z) (s : tables) (sig : option jsstr) (accepts : jsstr -> bool) :
  table_ok s -> functionsInTableMap s = Some m -> m !! Js n = Some i -> table_get s i = Some (Some (Wrapped n w)) -> m !! Wasm g = None ->
  exists s1 s2, removeFunction i s = (Ok tt, s1) /\ addFunction (Js n) sig accepts s1 = (Ok i, s1)
    /\ addFunction (Wasm g) sig accepts s1 = (Ok i, s2) /\ table_get s2 i = Some (Some (Wasm g))
    /\ fst (addFunction (Js n) sig accepts s2) = Ok i.
Proof.
  intros Hok Hm Hi He Hg. unfold removeFunction. rewrite Hm.
  destruct (getWasmTableEntry_spec i s Hok) as (e & s0 & -> & He0 & Hok0 & Ht & Hmm & Hff); [apply table_get_range; eauto|].
  assert (e = Some (Wrapped n w)) as -> by congruence. assert (Hg0 : table_get s0 i = table_get s i) by (unfold table_get; by rewrite Ht).
  eexists _, _. split; [done|].
  unfold addFunction. cbn [functionsInTableMap set_map set_free from_option id].
  rewrite (lookup_delete_ne m (Wrapped n w) (Js n)) by done. rewrite Hi. split; [done|].
  rewrite (lookup_delete_ne m (Wrapped n w) (Wasm g)) by done. rewrite Hg.
  unfold getEmptyTableSlot. cbn [freeTableIndexes set_map set_free].
  unfold setWasmTableEntry, table_get. cbn [wasmTable set_map set_free].
  fold (table_get s0 i). rewrite Hg0, He0. cbn [functionsInTableMap set_map set_free set_entry from_option id]. split; [done|].
  cbn [wasmTable set_map set_free set_entry functionsInTableMap]. split.
  - assert (Hr : 0 <= i < table_length s0) by (apply table_get_range; rewrite Hg0; eauto). unfold table_length in Hr.
    rewrite (proj2 (Z.ltb_ge i 0)) by lia. apply list_lookup_insert_eq. lia.
  - cbn [functionsInTableMap set_map set_free set_entry from_option id]. rewrite lookup_insert_ne by done. rewrite (lookup_delete_ne m (Wrapped n w) (Js n)) by done. rewrite Hi. done.
Qed.

Theorem removed_js_function_witness :
  exists s1 s2, removeFunction 3 (after_add (Js 7)) = (Ok tt, s1) /\ addFunction (Js 7) (Some (js "vi")) accept_all s1 = (Ok 3, s1)
    /\ addFunction (Wasm 9) (Some (js "vi")) accept_all s1 = (Ok 3, s2) /\ table_get s2 3 = Some (Some (Wasm 9))
    /\ fst (addFunction (Js 7) (Some (js "vi")) accept_all s2) = Ok 3.
Proof.
  destruct (functionsInTableMap (after_add (Js 7))) as [m|] eqn:Hm; [|vm_compute in Hm; discriminate].
  assert (H7 : m !! Js 7 = Some 3).
  { assert (functionsInTableMap (after_add (Js 7)) ≫= (fun m => m !! Js 7) = Some 3) as Hb by (vm_compute; reflexivity). by rewrite Hm in Hb. }
  assert (H9 : m !! Wasm 9 = None).
  { assert (functionsInTableMap (after_add (Js 7)) ≫= (fun m => m !! Wasm 9) = None) as Hb by (vm_compute; reflexivity). by rewrite Hm in Hb. }
  apply (removed_js_function_is_stale 7 9 3 0 m (after_add (Js 7)) (Some (js "vi")) accept_all (after_add_ok _) Hm H7).
  - vm_compute. reflexivity.
  - exact H9.
Defined.

(** ** The wrapping module *)

(** A reader of the type section: one function type, its parameters and results, with one-byte lengths. *)
Definition value_type (b : Z) : option Z :=
  if b =? 0x7f then Some 105 else if b =? 0x7e then Some 106 else if b =? 0x7d then Some 102 else if b =? 0x7c then Some 100 else None.

Definition parse_type_section (bs : list Z) : option (list Z * list Z) :=
  match bs with
  | 1 :: size :: 1 :: 0x60 :: n :: rest =>
      if (128 <=? size) || negb (size =? Z.of_nat (length rest) + 3) || (Z.of_nat (length rest) <? n) then None
      else match mapM value_type (take (Z.to_nat n) rest), drop (Z.to_nat n) rest with
           | Some params, [0] => Some (params, [])
           | Some params, [1; r] => option_map (fun t => (params, [t])) (value_type r)
           | _, _ => None
           end
  | _ => None
  end.

Definition known_type (c : Z) : Prop := c = 105 \/ c = 106 \/ c = 102 \/ c = 100.

Lemma value_type_code c : known_type c -> value_type (code_byte c) = Some c.
Proof. by intros [->|[->|[->| ->]]]. Qed.

Lemma mapM_codes cs : Forall known_type cs -> mapM value_type (map code_byte cs) = Some cs.
Proof. induction 1 as [|c cs Hc _ IH]; [done|]. cbn. by rewrite value_type_code, IH. Qed.

(** The type section of the wrapping module is the signature: up to 122 parameters, the most for which the length of
    the section fits its one byte. *)
Theorem typeSection_roundtrip (r : Z) (params : list Z) :
  Forall known_type params -> r = 118 \/ known_type r -> (length params <= 122)%nat ->
  parse_type_section (typeSection (r :: params)) = Some (params, if r =? 118 then [] else [r]).
Proof.
  intros Hp Hr Hlen. unfold typeSection. cbn [drop head]. rewrite drop_0. set (res := if r =? 118 then [0x00] else [0x01; code_byte r]).
  assert (Hres : (1 <= length res <= 2)%nat) by (subst res; destruct (r =? 118); cbn; lia).
  cbn [app parse_type_section length]. rewrite !length_app, length_map.
  rewrite (proj2 (Z.leb_gt 128 _)) by lia. cbn [orb].
  replace (Z.of_nat (S (S (S (length params + length res)))) =? Z.of_nat (length params + length res) + 3) with true by (symmetry; apply Z.eqb_eq; lia).
  rewrite (proj2 (Z.ltb_ge _ _)) by lia. cbn [orb negb]. rewrite Nat2Z.id.
  rewrite take_app_length', drop_app_length' by (by rewrite length_map). rewrite mapM_codes by done.
  subst res. destruct (Z.eqb_spec r 118); [done|]. destruct Hr as [->|Hr]; [done|]. by rewrite value_type_code.
Qed.

Theorem typeSection_witness : parse_type_section (typeSection (js "viid")) = Some (js "iid", []).
Proof. apply (typeSection_roundtrip 118 (js "iid")); [repeat constructor; unfold known_type; lia|by left|cbn; lia]. Defined.
