(* ===== verification/OpusRuntime.v ===== *)
(** * Start-up of the Opus runtime
      ([integrations/lan-remote-access/rustdesk-web-open/libopus.js], run dependencies and [run])

    The runtime starts when nothing it waits for is left: [addRunDependency], [removeRunDependency],
    the lists of callbacks, [run] and [abort].  The callbacks belong to the embedding page; they may call back into these
    functions, so the calls in progress are frames of a stack and one step runs the frame at the
    top. *)

From stdpp Require Import base list numbers strings gmap sets.
From Stdlib Require Import ZArith Lia.
From S2P Require Import Prelude JsString.
Local Open Scope Z_scope.

(** ** State *)

(** What a callback of the page does with the runtime. *)
Inductive cmd :=
| CAdd (id : jsstr)                   (* [addRunDependency(id)] *)
| CRemove (id : jsstr)                (* [removeRunDependency(id)] *)
| CRun                                (* [Module.run()] *)
| CSmash                              (* native code overwrites the stack cookie *)
| CThrow.                             (* an exception *)

(** Calls in progress, the innermost first. *)
Inductive frame :=
| FCmds (cs : list cmd)               (* the rest of a callback *)
| FPre                                (* [run]: in [preRun] *)
| FInit                               (* [doRun]: in [initRuntime] *)
| FMain                               (* [doRun]: after [onRuntimeInitialized] *)
| FPost                               (* [doRun]: in [postRun] *)
| FEndRun                             (* [run]: after [doRun] *)
| FRearm.                             (* [runCaller]: after [run] *)

#[export] Instance cmd_eq_dec : EqDecision cmd.
Proof. solve_decision. Defined.
#[export] Instance frame_eq_dec : EqDecision frame.
Proof. solve_decision. Defined.

Inductive event := Initialised (deps : Z) | Aborted.

Record rt := {
  runDependencies : Z;
  runDependencyTracking : gset jsstr;
  runDependencyWatcher : bool;
  dependenciesFulfilled : bool;       (* [runCaller] is set *)
  calledRun : bool;
  ABORT : bool;
  EXITSTATUS : option Z;
  runtimeInitialized : bool;
  cookie : bool;                      (* the stack cookie is intact *)
  module_preRun : list (list cmd);
  module_postRun : list (list cmd);
  onRuntimeInitialized : list cmd;
  atPreRun : list (list cmd);
  atInit : list (list cmd);
  atPostRun : list (list cmd);
  stack : list frame;
  timers : nat;                       (* pending timeouts of [setStatus] *)
  crashed : bool;                     (* an exception left the runtime *)
  log : list event
}.

(** What the page sets on [Module] once. *)
Record settings := { has_setStatus : bool; has_main : bool }.

Definition upd_deps (s : rt) (d : Z) (t : gset jsstr) (w : bool) : rt :=
  {| runDependencies := d; runDependencyTracking := t; runDependencyWatcher := w; dependenciesFulfilled := dependenciesFulfilled s;
     calledRun := calledRun s; ABORT := ABORT s; EXITSTATUS := EXITSTATUS s; runtimeInitialized := runtimeInitialized s; cookie := cookie s;
     module_preRun := module_preRun s; module_postRun := module_postRun s; onRuntimeInitialized := onRuntimeInitialized s;
     atPreRun := atPreRun s; atInit := atInit s; atPostRun := atPostRun s; stack := stack s; timers := timers s; crashed := crashed s; log := log s |}.
Definition upd_flags (s : rt) (armed called init ck : bool) : rt :=
  {| runDependencies := runDependencies s; runDependencyTracking := runDependencyTracking s; runDependencyWatcher := runDependencyWatcher s;
     dependenciesFulfilled := armed; calledRun := called; ABORT := ABORT s; EXITSTATUS := EXITSTATUS s; runtimeInitialized := init; cookie := ck;
     module_preRun := module_preRun s; module_postRun := module_postRun s; onRuntimeInitialized := onRuntimeInitialized s;
     atPreRun := atPreRun s; atInit := atInit s; atPostRun := atPostRun s; stack := stack s; timers := timers s; crashed := crashed s; log := log s |}.
Definition upd_lists (s : rt) (mpre mpost pre init post : list (list cmd)) : rt :=
  {| runDependencies := runDependencies s; runDependencyTracking := runDependencyTracking s; runDependencyWatcher := runDependencyWatcher s;
     dependenciesFulfilled := dependenciesFulfilled s; calledRun := calledRun s; ABORT := ABORT s; EXITSTATUS := EXITSTATUS s;
     runtimeInitialized := runtimeInitialized s; cookie := cookie s; module_preRun := mpre; module_postRun := mpost;
     onRuntimeInitialized := onRuntimeInitialized s; atPreRun := pre; atInit := init; atPostRun := post; stack := stack s;
     timers := timers s; crashed := crashed s; log := log s |}.
Definition upd_ctl (s : rt) (st : list frame) (t : nat) (l : list event) : rt :=
  {| runDependencies := runDependencies s; runDependencyTracking := runDependencyTracking s; runDependencyWatcher := runDependencyWatcher s;
     dependenciesFulfilled := dependenciesFulfilled s; calledRun := calledRun s; ABORT := ABORT s; EXITSTATUS := EXITSTATUS s;
     runtimeInitialized := runtimeInitialized s; cookie := cookie s; module_preRun := module_preRun s; module_postRun := module_postRun s;
     onRuntimeInitialized := onRuntimeInitialized s; atPreRun := atPreRun s; atInit := atInit s; atPostRun := atPostRun s; stack := st;
     timers := t; crashed := crashed s; log := l |}.

(** An exception leaves every call; [abort] sets its flags first. *)
Definition crash (s : rt) (aborting : bool) : rt :=
  {| runDependencies := runDependencies s; runDependencyTracking := runDependencyTracking s; runDependencyWatcher := runDependencyWatcher s;
     dependenciesFulfilled := dependenciesFulfilled s; calledRun := calledRun s; ABORT := ABORT s || aborting;
     EXITSTATUS := if aborting then Some 1 else EXITSTATUS s;
     runtimeInitialized := runtimeInitialized s; cookie := cookie s; module_preRun := module_preRun s; module_postRun := module_postRun s;
     onRuntimeInitialized := onRuntimeInitialized s; atPreRun := atPreRun s; atInit := atInit s; atPostRun := atPostRun s; stack := [];
     timers := timers s; crashed := true; log := if aborting then Aborted :: log s else log s |}.

Definition abort (s : rt) : rt := crash s true.
Definition throw (s : rt) : rt := crash s false.

Definition push (f : frame) (s : rt) : rt := upd_ctl s (f :: stack s) (timers s) (log s).
Definition set_stack (st : list frame) (s : rt) : rt := upd_ctl s st (timers s) (log s).

(** ** Operations *)

Definition checkStackCookie (s : rt) (k : rt -> rt) : rt :=
  if ABORT s then k s else if cookie s then k s else abort s.

(** [unshift] of each in turn. *)
Definition addOnPreRun (cb : list cmd) (s : rt) : rt := upd_lists s (module_preRun s) (module_postRun s) (cb :: atPreRun s) (atInit s) (atPostRun s).
Definition addOnInit (cb : list cmd) (s : rt) : rt := upd_lists s (module_preRun s) (module_postRun s) (atPreRun s) (cb :: atInit s) (atPostRun s).
Definition addOnPostRun (cb : list cmd) (s : rt) : rt := upd_lists s (module_preRun s) (module_postRun s) (atPreRun s) (atInit s) (cb :: atPostRun s).

Definition take_preRun (s : rt) : rt :=
  upd_lists s [] (module_postRun s) (rev (module_preRun s) ++ atPreRun s) (atInit s) (atPostRun s).
Definition take_postRun (s : rt) : rt :=
  upd_lists s (module_preRun s) [] (atPreRun s) (atInit s) (rev (module_postRun s) ++ atPostRun s).

(** [run]: nothing while something is awaited; otherwise the stack is set up and [preRun] begins. *)
Definition run (s : rt) : rt :=
  if 0 <? runDependencies s then s
  else push FPre (take_preRun (upd_flags s (dependenciesFulfilled s) (calledRun s) (runtimeInitialized s) true)).

(** [initRuntime], up to its callbacks; the start of the file system and the terminals leaves this state alone. *)
Definition initRuntime (s : rt) : rt :=
  checkStackCookie s (fun s =>
    if runtimeInitialized s then abort s
    else push FInit (upd_ctl (upd_flags s (dependenciesFulfilled s) (calledRun s) true (cookie s)) (stack s) (timers s)
                             (Initialised (runDependencies s) :: log s))).

(** [doRun], up to [initRuntime]. *)
Definition doRun (s : rt) : rt :=
  if calledRun s then s
  else
    let s := upd_flags s (dependenciesFulfilled s) true (runtimeInitialized s) (cookie s) in
    if ABORT s then s else initRuntime s.

(** The rest of [run] once [preRun] is done. *)
Definition after_preRun (cfg : settings) (s : rt) : rt :=
  if 0 <? runDependencies s then s
  else if has_setStatus cfg then checkStackCookie (upd_ctl s (stack s) (S (timers s)) (log s)) (fun s => s)
  else doRun (push FEndRun s).

(** The callback of [dependenciesFulfilled]. *)
Definition runCaller (s : rt) : rt := if calledRun s then push FRearm s else run (push FRearm s).

Definition addRunDependency (id : jsstr) (s : rt) : rt :=
  let s := upd_deps s (runDependencies s + 1) (runDependencyTracking s) (runDependencyWatcher s) in
  if bool_decide (id = []) then s
  else if bool_decide (id ∈ runDependencyTracking s) then abort s
  else upd_deps s (runDependencies s) ({[id]} ∪ runDependencyTracking s) true.

Definition removeRunDependency (id : jsstr) (s : rt) : rt :=
  let s := upd_deps s (runDependencies s - 1) (runDependencyTracking s) (runDependencyWatcher s) in
  let fulfilled s :=
    if runDependencies s =? 0 then
      let s := upd_deps s 0 (runDependencyTracking s) false in
      if dependenciesFulfilled s then runCaller (upd_flags s false (calledRun s) (runtimeInitialized s) (cookie s)) else s
    else s in
  if bool_decide (id = []) then fulfilled s
  else if bool_decide (id ∈ runDependencyTracking s)
       then fulfilled (upd_deps s (runDependencies s) (runDependencyTracking s ∖ {[id]}) (runDependencyWatcher s))
       else abort s.

Definition exec (c : cmd) (s : rt) : rt :=
  match c with
  | CAdd id => addRunDependency id s
  | CRemove id => removeRunDependency id s
  | CRun => run s
  | CSmash => upd_flags s (dependenciesFulfilled s) (calledRun s) (runtimeInitialized s) false
  | CThrow => throw s
  end.

(** One step of the frame at the top; [callRuntimeCallbacks] takes the first callback off its list. *)
Definition step (cfg : settings) (s : rt) : rt :=
  match stack s with
  | [] => s
  | FCmds [] :: st => set_stack st s
  | FCmds (c :: cs) :: st => exec c (set_stack (FCmds cs :: st) s)
  | FPre :: st =>
      match atPreRun s with
      | cb :: rest => push (FCmds cb) (upd_lists s (module_preRun s) (module_postRun s) rest (atInit s) (atPostRun s))
      | [] => after_preRun cfg (set_stack st s)
      end
  | FInit :: st =>
      match atInit s with
      | cb :: rest => push (FCmds cb) (upd_lists s (module_preRun s) (module_postRun s) (atPreRun s) rest (atPostRun s))
      | [] => let s := set_stack st s in push (FCmds (onRuntimeInitialized s)) (push FMain s)
      end
  | FMain :: st =>
      let s := set_stack st s in
      if has_main cfg then abort s else checkStackCookie s (fun s => push FPost (take_postRun s))
  | FPost :: st =>
      match atPostRun s with
      | cb :: rest => push (FCmds cb) (upd_lists s (module_preRun s) (module_postRun s) (atPreRun s) (atInit s) rest)
      | [] => set_stack st s
      end
  | FEndRun :: st => checkStackCookie (set_stack st s) (fun s => s)
  | FRearm :: st =>
      let s := set_stack st s in
      if calledRun s then s else upd_flags s true (calledRun s) (runtimeInitialized s) (cookie s)
  end.

(** The page and the event loop act between the calls: a callback of the page, or a timeout of [setStatus]. *)
Inductive input := Page (cs : list cmd) | Timeout.

Definition deliver (i : input) (s : rt) : option rt :=
  match stack s, i with
  | [], Page cs => Some (push (FCmds cs) s)
  | [], Timeout => match timers s with S t => Some (doRun (upd_ctl s [] t (log s))) | O => None end
  | _, _ => None
  end.

Inductive reachable (cfg : settings) (s0 : rt) : rt -> Prop :=
| ReachInit : reachable cfg s0 s0
| ReachStep s : reachable cfg s0 s -> reachable cfg s0 (step cfg s)
| ReachInput s i s' : reachable cfg s0 s -> deliver i s = Some s' -> reachable cfg s0 s'.

(** The state when the script has been evaluated: [createWasm] has added its dependency, and [run] has
    found it. *)
Definition initial (mpre mpost : list (list cmd)) (on_init : list cmd) : rt :=
  addRunDependency (js "wasm-instantiate")
    {| runDependencies := 0; runDependencyTracking := empty; runDependencyWatcher := false; dependenciesFulfilled := true;
       calledRun := false; ABORT := false; EXITSTATUS := None; runtimeInitialized := false; cookie := false;
       module_preRun := mpre; module_postRun := mpost; onRuntimeInitialized := on_init;
       atPreRun := []; atInit := [[]]; atPostRun := []; stack := []; timers := 0; crashed := false; log := [] |}.

(** ** Invariant *)

Fixpoint inits (l : list event) : nat :=
  match l with [] => 0 | Initialised _ :: l' => S (inits l') | Aborted :: l' => inits l' end.

(** Frames that a call of [run] leaves on the stack. *)
Definition in_run (f : frame) : bool := match f with FPre | FInit | FMain | FPost | FEndRun => true | _ => false end.
Definition started (f : frame) : bool := match f with FInit | FMain | FPost | FEndRun => true | _ => false end.

(** Under a frame of [runCaller] that is not at the top there is a call of [run]. *)
Fixpoint rearm_covered (st : list frame) : Prop :=
  match st with
  | [] => True
  | f :: st' => match st' with FRearm :: _ => in_run f = true | _ => True end /\ rearm_covered st'
  end.

Record rt_ok (s : rt) : Prop := {
  ok_once : (inits (log s) <= 1)%nat /\ (inits (log s) = 1%nat -> calledRun s = true) /\ (runtimeInitialized s = true -> inits (log s) = 1%nat);
  ok_covered : rearm_covered (stack s);
  ok_started : calledRun s = false -> Forall (fun f => started f = false) (stack s);
  ok_armed : calledRun s = false -> crashed s = false -> dependenciesFulfilled s = true \/ FRearm ∈ stack s;
  ok_awaited : calledRun s = false -> crashed s = false ->
               0 < runDependencies s \/ FPre ∈ stack s \/ (0 < timers s)%nat
}.

(** Without a timeout of [setStatus] the runtime is initialised only when nothing is awaited. *)
Definition sync_ok (s : rt) : Prop := timers s = 0%nat /\ Forall (fun e => match e with Initialised d => d <= 0 | Aborted => True end) (log s).

(** The part of the invariant that holds at every moment of an operation. *)
Definition core (s : rt) : Prop :=
  ((inits (log s) <= 1)%nat /\ (inits (log s) = 1%nat -> calledRun s = true) /\ (runtimeInitialized s = true -> inits (log s) = 1%nat))
  /\ rearm_covered (stack s) /\ (calledRun s = false -> Forall (fun f => started f = false) (stack s)).
Definition armed (s : rt) : Prop := calledRun s = false -> crashed s = false -> dependenciesFulfilled s = true \/ FRearm ∈ stack s.
Definition awaited (s : rt) : Prop :=
  calledRun s = false -> crashed s = false -> 0 < runDependencies s \/ FPre ∈ stack s \/ (0 < timers s)%nat.

Lemma rt_ok_parts s : rt_ok s <-> core s /\ armed s /\ awaited s.
Proof. split; [intros [? ? ? ? ?]; done|intros ((? & ? & ?) & ? & ?); by split]. Qed.

Lemma crash_ok s b : core s -> rt_ok (crash s b).
Proof.
  intros ((H1 & H2 & H3) & _). split; cbn; try done. destruct b; cbn; [|done]. done.
Qed.

(** The frame at the top is not the one of [runCaller]. *)
Definition open_top (s : rt) : Prop := head (stack s) <> Some FRearm.

Lemma covered_push f st : rearm_covered st -> (head st = Some FRearm -> in_run f = true) -> rearm_covered (f :: st).
Proof. intros H Hf. split; [|done]. destruct st as [|[]]; cbn in *; auto. Qed.

Lemma covered_has_pre st :
  rearm_covered st -> FRearm ∈ st -> head st <> Some FRearm -> Forall (fun f => started f = false) st -> FPre ∈ st.
Proof.
  induction st as [|f st IH]; intros Hc Hin Hh Hs; [by apply elem_of_nil in Hin|]. destruct Hc as [Hf Hc]. inv Hs.
  apply elem_of_cons in Hin as [<-|Hin]; [done|]. destruct st as [|g st]; [by apply elem_of_nil in Hin|].
  destruct (decide (g = FRearm)) as [->|Hg].
  - destruct f; cbn in *; try done. set_solver.
  - apply elem_of_cons. right. apply IH; try done. cbn. congruence.
Qed.

Lemma run_core s : core s -> core (run s).
Proof.
  intros (H1 & H2 & H3). unfold run. destruct (0 <? runDependencies s); [done|]. split; [done|]. split; [by apply covered_push|].
  intros Hc. cbn in *. constructor; auto.
Qed.

Lemma run_stack s f : f ∈ stack s -> f ∈ stack (run s).
Proof. intros Hf. unfold run. case_match; [done|]. cbn. set_solver. Qed.

Lemma run_awaited s : awaited (run s).
Proof.
  unfold run, awaited. destruct (Z.ltb_spec 0 (runDependencies s)); [by left|]. intros _ _. right. left. cbn. set_solver.
Qed.

Lemma run_flags s : calledRun (run s) = calledRun s /\ crashed (run s) = crashed s /\ dependenciesFulfilled (run s) = dependenciesFulfilled s.
Proof. unfold run. by case_match. Qed.

(** [doRun] needs no more of the frames than their cover: it ends with [calledRun] set. *)
Lemma doRun_core s :
  (inits (log s) <= 1)%nat /\ (inits (log s) = 1%nat -> calledRun s = true) /\ (runtimeInitialized s = true -> inits (log s) = 1%nat) ->
  rearm_covered (stack s) -> core (doRun s).
Proof.
  intros (H1 & H2 & H3) Hc. unfold doRun, initRuntime. destruct (calledRun s) eqn:Ec; [unfold core; by rewrite Ec|].
  assert (Hz : inits (log s) = 0%nat) by (destruct (inits (log s)) as [|[|]]; try lia; by discriminate H2).
  assert (Hni : runtimeInitialized s = false) by (destruct (runtimeInitialized s); [by rewrite H3 in Hz|done]).
  unfold checkStackCookie. cbn. rewrite Hni. destruct (ABORT s).
  { split; [cbn; split_and!; [lia|done|congruence]|]. by split. }
  destruct (cookie s).
  - split; [|split; [by apply covered_push|done]]. cbn. split_and!; [lia|done|intros _; lia].
  - split; [|by split]. cbn. split_and!; [lia|done|done].
Qed.

Lemma doRun_called s : calledRun (doRun s) = true.
Proof.
  unfold doRun, initRuntime. destruct (calledRun s) eqn:E; [done|]. cbn. unfold checkStackCookie. cbn.
  destruct (ABORT s); [done|]. destruct (cookie s); destruct (runtimeInitialized s); done.
Qed.

Lemma called_ok s : core s -> calledRun s = true -> rt_ok s.
Proof. intros Hc Ht. apply rt_ok_parts. split; [done|]. unfold armed, awaited. rewrite Ht. done. Qed.

Lemma core_same s s' : core s -> log s' = log s -> calledRun s' = calledRun s -> runtimeInitialized s' = runtimeInitialized s -> stack s' = stack s -> core s'.
Proof. unfold core. intros Hc -> -> -> ->. done. Qed.

Lemma run_ok s : core s -> armed s -> rt_ok (run s).
Proof.
  intros Hc Ha. apply rt_ok_parts. split; [by apply run_core|]. split; [|apply run_awaited].
  destruct (run_flags s) as (H1 & H2 & H3). unfold armed in *. rewrite H1, H2, H3. intros Hx Hy.
  destruct (Ha Hx Hy); [by left|right]. by apply run_stack.
Qed.

Lemma runCaller_ok s : core s -> open_top s -> rt_ok (runCaller s).
Proof.
  intros (H1 & H2 & H3) Ho. unfold runCaller.
  assert (Hc : core (push FRearm s)).
  { split; [done|]. split; [by apply covered_push|]. cbn. auto. }
  destruct (calledRun s) eqn:Ec; [by apply called_ok|]. apply run_ok; [done|]. intros _ _. right. cbn. set_solver.
Qed.

Lemma add_ok id s : rt_ok s -> rt_ok (addRunDependency id s).
Proof.
  intros Hok. unfold addRunDependency. apply rt_ok_parts in Hok as (Hc & Ha & Hw).
  assert (Hw' : forall s', calledRun s' = calledRun s -> crashed s' = crashed s -> runDependencies s' = runDependencies s + 1 ->
     stack s' = stack s -> timers s' = timers s -> awaited s').
  { intros s' E1 E2 E3 E4 E5. unfold awaited in *. rewrite E1, E2, E3, E4, E5. intros Hx Hy. destruct (Hw Hx Hy) as [?|?]; [left; lia|by right]. }
  assert (Hmid : rt_ok (upd_deps s (runDependencies s + 1) (runDependencyTracking s) (runDependencyWatcher s))).
  { apply rt_ok_parts. split; [by eapply core_same|]. split; [done|]. by apply Hw'. }
  case_bool_decide; [done|]. case_bool_decide; [apply crash_ok; by eapply core_same|].
  apply rt_ok_parts. split; [by eapply core_same|]. split; [done|]. by apply Hw'.
Qed.

Lemma fulfilled_ok s t w :
  rt_ok s -> open_top s ->
  let s' := upd_deps s (runDependencies s - 1) t w in
  rt_ok (if runDependencies s' =? 0 then
           let s'' := upd_deps s' 0 (runDependencyTracking s') false in
           if dependenciesFulfilled s'' then runCaller (upd_flags s'' false (calledRun s'') (runtimeInitialized s'') (cookie s'')) else s''
         else s').
Proof.
  intros Hok Ho. apply rt_ok_parts in Hok as (Hc & Ha & Hw). cbn.
  destruct (Z.eqb_spec (runDependencies s - 1) 0) as [Hz|Hz].
  - destruct (dependenciesFulfilled s) eqn:Ef.
    + apply runCaller_ok; [by eapply core_same|done].
    + apply rt_ok_parts. split; [by eapply core_same|]. split; [by unfold armed in *; cbn; rewrite Ef in *|].
      intros Hx Hy. cbn in *. destruct (Ha Hx Hy) as [?|Hin]; [congruence|]. right. left.
      destruct Hc as (_ & Hcov & Hst). apply covered_has_pre; auto.
  - apply rt_ok_parts. split; [by eapply core_same|]. split; [done|]. intros Hx Hy. cbn in *.
    destruct (Hw Hx Hy) as [?|?]; [left; lia|by right].
Qed.

Lemma remove_ok id s : rt_ok s -> open_top s -> rt_ok (removeRunDependency id s).
Proof.
  intros Hok Ho. unfold removeRunDependency. case_bool_decide; [by apply fulfilled_ok|].
  case_bool_decide; [by apply (fulfilled_ok s)|]. apply crash_ok. apply rt_ok_parts in Hok as (Hc & _). by eapply core_same.
Qed.

Lemma cookie_ok s k : rt_ok s -> rt_ok (k s) -> rt_ok (checkStackCookie s k).
Proof.
  intros Hok Hk. unfold checkStackCookie. destruct (ABORT s); [done|]. destruct (cookie s); [done|].
  apply crash_ok. by apply rt_ok_parts in Hok as (Hc & _).
Qed.

(** Taking a frame off that neither awaits nor rearms. *)
Lemma pop_ok f st s : rt_ok s -> stack s = f :: st -> f <> FPre -> f <> FRearm -> rt_ok (set_stack st s).
Proof.
  intros Hok Hst Hp Hr. apply rt_ok_parts in Hok as ((H1 & H2 & H3) & Ha & Hw). rewrite Hst in *. apply rt_ok_parts. split.
  { split; [done|]. split; [by destruct H2|]. cbn. intros Hx. specialize (H3 Hx). by inv H3. }
  unfold armed, awaited in *. rewrite Hst in *. cbn. split; intros Hx Hy.
  - destruct (Ha Hx Hy) as [?|Hin]; [by left|]. right. apply elem_of_cons in Hin as [?|?]; [congruence|done].
  - destruct (Hw Hx Hy) as [?|[Hin|?]]; [by left| |auto]. right. left. apply elem_of_cons in Hin as [?|?]; [congruence|done].
Qed.

Lemma push_ok f s : rt_ok s -> (open_top s \/ in_run f = true) -> (calledRun s = false -> started f = false) -> rt_ok (push f s).
Proof.
  intros Hok Ho Hf. apply rt_ok_parts in Hok as ((H1 & H2 & H3) & Ha & Hw). apply rt_ok_parts. split.
  { split; [done|]. split; [|cbn; auto]. apply covered_push; [done|]. unfold open_top in Ho. tauto. }
  unfold armed, awaited in *. cbn. split; intros Hx Hy.
  - destruct (Ha Hx Hy); [by left|right; set_solver].
  - destruct (Hw Hx Hy) as [?|[?|?]]; [by left|right; left; set_solver|auto].
Qed.

Lemma lists_ok s a b c d e : rt_ok s -> rt_ok (upd_lists s a b c d e).
Proof. by intros [? ? ? ? ?]. Qed.

Lemma smash_ok s ck : rt_ok s -> rt_ok (upd_flags s (dependenciesFulfilled s) (calledRun s) (runtimeInitialized s) ck).
Proof. by intros [? ? ? ? ?]. Qed.

Lemma exec_ok c s : rt_ok s -> open_top s -> rt_ok (exec c s).
Proof.
  intros Hok Ho. destruct c; cbn.
  - by apply add_ok.
  - by apply remove_ok.
  - apply rt_ok_parts in Hok as (Hc & Ha & _). by apply run_ok.
  - by apply smash_ok.
  - apply crash_ok. by apply rt_ok_parts in Hok as (Hc & _).
Qed.

Lemma rearm_top_called f st s : rt_ok s -> stack s = f :: st -> started f = true -> calledRun s = true.
Proof.
  intros Hok Hst Hf. destruct (calledRun s) eqn:E; [done|]. pose proof (ok_started _ Hok E) as Hs. rewrite Hst in Hs. inv Hs. congruence.
Qed.

(** A step in which the frame at the top is that of a call of [run] that went on. *)
Lemma covered_tail f st : rearm_covered (f :: st) -> rearm_covered st.
Proof. by intros []. Qed.

Lemma pre_ok cfg st s : rt_ok s -> stack s = FPre :: st -> rt_ok (after_preRun cfg (set_stack st s)).
Proof.
  intros Hok Hst. apply rt_ok_parts in Hok as ((H1 & H2 & H3) & Ha & _). rewrite Hst in *.
  assert (Hc : core (set_stack st s)).
  { split; [done|]. split; [by eapply covered_tail|]. cbn. intros Hx. specialize (H3 Hx). by inv H3. }
  assert (Har : armed (set_stack st s)).
  { unfold armed in *. rewrite Hst in Ha. cbn. intros Hx Hy. destruct (Ha Hx Hy) as [?|Hin]; [by left|right].
    apply elem_of_cons in Hin as [?|?]; [done|done]. }
  unfold after_preRun. cbn. destruct (Z.ltb_spec 0 (runDependencies s)).
  { apply rt_ok_parts. split; [done|]. split; [done|]. by left. }
  destruct (has_setStatus cfg).
  - assert (Hok' : rt_ok (upd_ctl (set_stack st s) st (S (timers s)) (log s))).
    { apply rt_ok_parts. split; [by eapply core_same|]. split; [done|]. intros _ _. right. right. cbn. lia. }
    by apply cookie_ok.
  - apply called_ok; [|apply doRun_called]. destruct Hc as (C1 & C2 & _). apply doRun_core; [done|].
    by apply covered_push.
Qed.

Lemma open_cmds cs st s : open_top (set_stack (FCmds cs :: st) s).
Proof. done. Qed.

(** Replacing the callback at the top by the rest of it. *)
Lemma cmds_ok cs cs' st s : rt_ok s -> stack s = FCmds cs :: st -> rt_ok (set_stack (FCmds cs' :: st) s).
Proof.
  intros Hok Hst. apply rt_ok_parts in Hok as ((H1 & H2 & H3) & Ha & Hw). unfold armed, awaited in *. rewrite Hst in *.
  apply rt_ok_parts. split.
  { split; [done|]. split; [by destruct H2|]. cbn. intros Hx. specialize (H3 Hx). inv H3. by constructor. }
  unfold armed, awaited. cbn. split; intros Hx Hy.
  - destruct (Ha Hx Hy) as [?|Hin]; [by left|right; set_solver].
  - destruct (Hw Hx Hy) as [?|[Hin|?]]; [by left|right; left; set_solver|auto].
Qed.

Lemma step_ok cfg s : rt_ok s -> rt_ok (step cfg s).
Proof.
  intros Hok. unfold step. destruct (stack s) as [|f st] eqn:Hst; [done|].
  assert (Hpush : forall cb, f <> FRearm -> rt_ok (push (FCmds cb) s)).
  { intros cb Hf. apply push_ok; [done| |done]. left. unfold open_top. rewrite Hst. cbn. congruence. }
  destruct f as [[|c cs]| | | | | |].
  - by eapply pop_ok.
  - apply exec_ok; [by eapply cmds_ok|apply open_cmds].
  - destruct (atPreRun s) as [|cb rest]; [by apply pre_ok|]. apply push_ok; [by apply lists_ok| |done]. left. unfold open_top. cbn. by rewrite Hst.
  - pose proof (rearm_top_called _ _ _ Hok Hst eq_refl) as Hc. destruct (atInit s) as [|cb rest].
    + apply push_ok; [apply push_ok; [by eapply pop_ok|by right|cbn; congruence]|by left|done].
    + apply push_ok; [by apply lists_ok|left; unfold open_top; cbn; by rewrite Hst|done].
  - pose proof (rearm_top_called _ _ _ Hok Hst eq_refl) as Hc. assert (Hp : rt_ok (set_stack st s)) by (by eapply pop_ok).
    destruct (has_main cfg); [apply crash_ok; by apply rt_ok_parts in Hp as (? & _)|].
    apply cookie_ok; [done|]. apply push_ok; [by apply lists_ok|by right|cbn; congruence].
  - destruct (atPostRun s) as [|cb rest]; [by eapply pop_ok|].
    apply push_ok; [by apply lists_ok|left; unfold open_top; cbn; by rewrite Hst|done].
  - apply cookie_ok; by eapply pop_ok.
  - apply rt_ok_parts in Hok as ((H1 & H2 & H3) & Ha & Hw). unfold armed, awaited in *. rewrite Hst in *. cbn.
    assert (Hc : core (set_stack st s)).
    { split; [done|]. split; [by eapply covered_tail|]. cbn. intros Hx. specialize (H3 Hx). by inv H3. }
    destruct (calledRun s) eqn:Ec; [by apply called_ok|]. apply rt_ok_parts. split; [by eapply core_same|].
    split; [by left|]. unfold awaited. cbn. intros Hx Hy. destruct (Hw eq_refl Hy) as [?|[Hin|?]]; [by left| |auto].
    right. left. apply elem_of_cons in Hin as [?|?]; done.
Qed.

Lemma deliver_ok i s s' : rt_ok s -> deliver i s = Some s' -> rt_ok s'.
Proof.
  intros Hok. unfold deliver. destruct (stack s) as [|f st] eqn:Hst; [|done]. destruct i as [cs|].
  - intros [= <-]. apply push_ok; [done| |done]. left. unfold open_top. by rewrite Hst.
  - destruct (timers s) as [|t]; [done|]. intros [= <-]. apply called_ok; [|apply doRun_called].
    destruct Hok as [H1 _ _ _ _]. by apply doRun_core.
Qed.

Lemma initial_ok mpre mpost on_init : rt_ok (initial mpre mpost on_init).
Proof.
  unfold initial, addRunDependency. rewrite bool_decide_eq_false_2 by discriminate. cbn. rewrite bool_decide_eq_false_2 by set_solver.
  split; cbn; try done; [split_and!; [lia|done|done]|by left|left; lia].
Qed.

Lemma reachable_ok cfg mpre mpost on_init s : reachable cfg (initial mpre mpost on_init) s -> rt_ok s.
Proof.
  induction 1 as [|s _ IH|s i s' _ IH Hd]; [apply initial_ok|by apply step_ok|by eapply deliver_ok].
Qed.

(** ** Initialised only when nothing is awaited *)

(** What the code ensures besides: an abort crashes, a run that began initialised the runtime or crashed, and without
    [setStatus] no timeout is pending and nothing was awaited at the initialisation. *)
Record effects (cfg : settings) (s : rt) : Prop := {
  ef_abort : ABORT s = true -> crashed s = true;
  ef_called : calledRun s = true -> runtimeInitialized s = true \/ crashed s = true;
  ef_sync : has_setStatus cfg = false -> timers s = 0%nat /\ Forall (fun e => match e with Initialised d => d <= 0 | Aborted => True end) (log s)
}.

Definition same_effects (s s' : rt) : Prop :=
  ABORT s' = ABORT s /\ calledRun s' = calledRun s /\ runtimeInitialized s' = runtimeInitialized s /\ crashed s' = crashed s /\ timers s' = timers s /\ log s' = log s.

Lemma same_effects_ok cfg s s' : same_effects s s' -> effects cfg s -> effects cfg s'.
Proof. intros (E1 & E2 & E3 & E4 & E5 & E6) [H1 H2 H3]. split; rewrite ?E1, ?E2, ?E3, ?E4, ?E5, ?E6; done. Qed.

Lemma crash_effects cfg s b : effects cfg s -> effects cfg (crash s b).
Proof. intros [H1 H2 H3]. split; cbn; auto. intros Hs. destruct (H3 Hs). split; [done|]. destruct b; [by constructor|done]. Qed.

Lemma run_same s : same_effects s (run s).
Proof. unfold run. by case_match. Qed.

Lemma doRun_effects cfg s : effects cfg s -> (has_setStatus cfg = false -> runDependencies s <= 0) -> effects cfg (doRun s).
Proof.
  intros [H1 H2 H3] Hd. unfold doRun, initRuntime. destruct (calledRun s) eqn:Ec; [by split; rewrite ?Ec|]. unfold checkStackCookie. cbn.
  destruct (ABORT s) eqn:Ea.
  { split; cbn; auto. }
  destruct (cookie s), (runtimeInitialized s); (split; cbn; [intros; congruence || done|auto|]); intros Hs; destruct (H3 Hs);
    (split; [done|]); constructor; auto.
Qed.

Lemma cookie_effects cfg s k : effects cfg s -> effects cfg (k s) -> effects cfg (checkStackCookie s k).
Proof. intros Hs Hk. unfold checkStackCookie. destruct (ABORT s); [done|]. destruct (cookie s); [done|]. by apply crash_effects. Qed.

Lemma runCaller_same s : same_effects s (runCaller s).
Proof. unfold runCaller. destruct (calledRun s) eqn:E; [by repeat split|]. destruct (run_same (push FRearm s)) as (?&?&?&?&?&?). by repeat split. Qed.

Lemma exec_effects cfg c s : effects cfg s -> effects cfg (exec c s).
Proof.
  intros He. assert (Hsame : forall s', same_effects s s' -> effects cfg s') by (intros s' Hs; by eapply same_effects_ok).
  destruct c as [id|id| | |]; cbn.
  - unfold addRunDependency. case_bool_decide; [by apply Hsame|]. case_bool_decide; [apply crash_effects; by apply Hsame|by apply Hsame].
  - assert (Hf : forall s1, same_effects s s1 -> effects cfg
        (if runDependencies s1 =? 0 then let s2 := upd_deps s1 0 (runDependencyTracking s1) false in
           if dependenciesFulfilled s2 then runCaller (upd_flags s2 false (calledRun s2) (runtimeInitialized s2) (cookie s2)) else s2 else s1)).
    { intros s1 (E1 & E2 & E3 & E4 & E5 & E6). destruct (runDependencies s1 =? 0); [|by apply Hsame].
      cbn. destruct (dependenciesFulfilled s1); [|by apply Hsame].
      match goal with |- effects _ (runCaller ?x) => destruct (runCaller_same x) as (F1 & F2 & F3 & F4 & F5 & F6) end.
      cbn in *. apply Hsame. unfold same_effects. rewrite F1, F2, F3, F4, F5, F6. done. }
    unfold removeRunDependency. case_bool_decide; [by apply Hf|]. case_bool_decide; [by apply Hf|]. apply crash_effects. by apply Hsame.
  - apply Hsame, run_same.
  - by apply Hsame.
  - by apply crash_effects.
Qed.

Lemma step_effects cfg s : effects cfg s -> effects cfg (step cfg s).
Proof.
  intros He. assert (Hsame : forall s', same_effects s s' -> effects cfg s') by (intros s' Hs; by eapply same_effects_ok).
  unfold step. destruct (stack s) as [|f st]; [done|]. destruct f as [[|c cs]| | | | | |].
  - by apply Hsame.
  - by apply exec_effects, Hsame.
  - destruct (atPreRun s); [|by apply Hsame]. unfold after_preRun. cbn. destruct (Z.ltb_spec 0 (runDependencies s)); [by apply Hsame|].
    destruct (has_setStatus cfg) eqn:Es.
    + destruct He as [H1 H2 _]. apply cookie_effects; (split; cbn; [auto|auto|congruence]).
    + apply doRun_effects; [by apply Hsame|done].
  - destruct (atInit s); by apply Hsame.
  - destruct (has_main cfg); [by apply crash_effects, Hsame|]. apply cookie_effects; by apply Hsame.
  - destruct (atPostRun s); by apply Hsame.
  - apply cookie_effects; by apply Hsame.
  - destruct (calledRun (set_stack st s)) eqn:E; apply Hsame; [done|]. cbn in E. by repeat split.
Qed.

Lemma deliver_effects cfg i s s' : effects cfg s -> deliver i s = Some s' -> effects cfg s'.
Proof.
  intros He. unfold deliver. destruct (stack s); [|done]. destruct i.
  - intros [= <-]. eapply same_effects_ok; [|exact He]. by repeat split.
  - destruct (timers s) as [|t] eqn:Et; [done|]. intros [= <-]. destruct He as [H1 H2 H3].
    destruct (has_setStatus cfg) eqn:Es; [|destruct (H3 eq_refl); lia]. apply doRun_effects; [|congruence]. split; cbn; [auto|auto|congruence].
Qed.

Lemma reachable_effects cfg mpre mpost on_init s : reachable cfg (initial mpre mpost on_init) s -> effects cfg s.
Proof.
  induction 1 as [|s _ IH|s i s' _ IH Hd]; [|by apply step_effects|by eapply deliver_effects].
  unfold initial, addRunDependency. rewrite bool_decide_eq_false_2 by discriminate. cbn. rewrite bool_decide_eq_false_2 by set_solver.
  split; cbn; try done.
Qed.

(** C37. The runtime is initialised at most once, however often the page calls [run] or the dependencies come and go; and without
    [setStatus] only when nothing is awaited. *)
Theorem initialised_once (cfg : settings) (mpre mpost : list (list cmd)) (on_init : list cmd) (s : rt) :
  reachable cfg (initial mpre mpost on_init) s ->
  (inits (log s) <= 1)%nat
  /\ (has_setStatus cfg = false -> forall d, Initialised d ∈ log s -> d <= 0).
Proof.
  intros Hr. pose proof (reachable_ok _ _ _ _ _ Hr) as [[H1 _] _ _ _ _]. pose proof (reachable_effects _ _ _ _ _ Hr) as [_ _ H3].
  split; [done|]. intros Hs d Hin. destruct (H3 Hs) as [_ Hf]. rewrite Forall_forall in Hf. apply (Hf _ Hin).
Qed.

(** C38. No start is missed: whenever all calls have returned and none has thrown, the runtime is initialised, or something is
    still awaited and the runtime will be told when it is there. *)
Theorem start_not_missed (cfg : settings) (mpre mpost : list (list cmd)) (on_init : list cmd) (s : rt) :
  reachable cfg (initial mpre mpost on_init) s -> stack s = [] -> crashed s = false ->
  runtimeInitialized s = true \/ (dependenciesFulfilled s = true /\ (0 < runDependencies s \/ (0 < timers s)%nat)).
Proof.
  intros Hr Hst Hc. pose proof (reachable_ok _ _ _ _ _ Hr) as [_ _ _ Ha Hw]. pose proof (reachable_effects _ _ _ _ _ Hr) as [_ H2 _].
  rewrite Hst in *. destruct (calledRun s) eqn:E.
  - destruct (H2 eq_refl); [by left|congruence].
  - right. destruct (Ha eq_refl Hc) as [Hd|Hin]; [|by apply elem_of_nil in Hin]. split; [done|].
    destruct (Hw eq_refl Hc) as [?|[Hin|?]]; [by left|by apply elem_of_nil in Hin|by right].
Qed.

(** ** Termination *)

(** Every step uses up part of a callback, a frame, or the one start. *)
Definition cmds_weight (cs : list cmd) : nat := 8 * length cs.
Definition list_weight (cbs : list (list cmd)) : nat := list_sum (map (fun cs => 2 + cmds_weight cs)%nat cbs).
Definition start_weight (s : rt) : nat := 12 + cmds_weight (onRuntimeInitialized s).
Definition frame_weight (w : nat) (f : frame) : nat :=
  match f with
  | FCmds cs => 1 + cmds_weight cs
  | FPre => 4
  | FInit => 8 + w
  | FMain => 4
  | FPost => 2
  | FEndRun | FRearm => 1
  end%nat.
Definition stack_weight (w : nat) (st : list frame) : nat := list_sum (map (frame_weight w) st).
Definition measure (s : rt) : nat :=
  (stack_weight (cmds_weight (onRuntimeInitialized s)) (stack s) + list_weight (module_preRun s) + list_weight (module_postRun s) + list_weight (atPreRun s)
   + list_weight (atInit s) + list_weight (atPostRun s) + (if calledRun s then 0 else start_weight s))%nat.

Lemma list_weight_app a b : list_weight (a ++ b) = (list_weight a + list_weight b)%nat.
Proof. unfold list_weight. by rewrite map_app, list_sum_app. Qed.

Lemma list_weight_rev a : list_weight (rev a) = list_weight a.
Proof. induction a as [|x a IH]; [done|]. cbn [rev]. rewrite list_weight_app, IH. change (list_weight [x]) with (2 + cmds_weight x + 0)%nat. change (list_weight (x :: a)) with (2 + cmds_weight x + list_weight a)%nat. lia. Qed.

Lemma list_weight_cons x a : list_weight (x :: a) = (2 + cmds_weight x + list_weight a)%nat.
Proof. done. Qed.

Lemma frame_weight_pos w f : (1 <= frame_weight w f)%nat.
Proof. destruct f; cbn; lia. Qed.

Lemma stack_weight_cons w f st : stack_weight w (f :: st) = (frame_weight w f + stack_weight w st)%nat.
Proof. done. Qed.

Lemma stack_weight_nil w : stack_weight w [] = 0%nat.
Proof. done. Qed.

Ltac weigh := unfold measure, start_weight in *; cbn -[list_weight cmds_weight frame_weight stack_weight] in *;
  rewrite ?stack_weight_nil, ?stack_weight_cons, ?list_weight_app, ?list_weight_rev, ?list_weight_cons in *; cbn [frame_weight] in *.

Lemma run_measure s : (measure (run s) <= measure s + 4)%nat.
Proof. unfold run. case_match; [lia|]. weigh. change (list_weight []) with 0%nat. lia. Qed.

Lemma crash_measure s b : (measure (crash s b) + stack_weight (cmds_weight (onRuntimeInitialized s)) (stack s) <= measure s)%nat.
Proof. weigh. lia. Qed.

Lemma doRun_measure s : (measure (doRun s) <= measure s)%nat.
Proof.
  unfold doRun, initRuntime. destruct (calledRun s) eqn:E; [lia|]. unfold checkStackCookie. cbn.
  destruct (ABORT s), (cookie s), (runtimeInitialized s); weigh; rewrite ?E; lia.
Qed.

Lemma cookie_measure s k : (measure (k s) <= measure s)%nat -> (measure (checkStackCookie s k) <= measure s)%nat.
Proof. intros Hk. unfold checkStackCookie. destruct (ABORT s); [done|]. destruct (cookie s); [done|]. pose proof (crash_measure s true). unfold abort. lia. Qed.

Lemma runCaller_measure s : (measure (runCaller s) <= measure s + 5)%nat.
Proof.
  unfold runCaller. assert (Hp : measure (push FRearm s) = S (measure s)) by (weigh; lia).
  destruct (calledRun s); [lia|]. pose proof (run_measure (push FRearm s)). lia.
Qed.

Lemma exec_measure c s : (measure (exec c s) <= measure s + 5)%nat.
Proof.
  destruct c as [id|id| | |]; cbn [exec].
  - unfold addRunDependency. case_bool_decide; [weigh; lia|]. case_bool_decide; [|weigh; lia]. weigh. lia.
  - assert (Hf : forall s1, (measure s1 <= measure s)%nat -> (measure
        (if (runDependencies s1 =? 0)%Z then let s2 := upd_deps s1 0%Z (runDependencyTracking s1) false in
           if dependenciesFulfilled s2 then runCaller (upd_flags s2 false (calledRun s2) (runtimeInitialized s2) (cookie s2)) else s2 else s1) <= measure s + 5)%nat).
    { intros s1 Hs1. destruct (runDependencies s1 =? 0); [|lia]. cbn. destruct (dependenciesFulfilled s1); [|weigh; lia].
      etransitivity; [apply runCaller_measure|]. weigh. lia. }
    unfold removeRunDependency. case_bool_decide; [apply Hf; weigh; lia|]. case_bool_decide; [apply Hf; weigh; lia|]. weigh. lia.
  - pose proof (run_measure s). lia.
  - weigh. lia.
  - pose proof (crash_measure s false). unfold throw. lia.
Qed.

Lemma step_measure cfg s : stack s <> [] -> (measure (step cfg s) < measure s)%nat.
Proof.
  intros Hne. unfold step. destruct (stack s) as [|f st] eqn:Hst; [done|].
  assert (Hpop : (measure (set_stack st s) + frame_weight (cmds_weight (onRuntimeInitialized s)) f = measure s)%nat) by (weigh; rewrite Hst; weigh; lia).
  pose proof (frame_weight_pos (cmds_weight (onRuntimeInitialized s)) f) as Hpos.
  destruct f as [[|c cs]| | | | | |]; cbn [frame_weight] in *.
  - lia.
  - pose proof (exec_measure c (set_stack (FCmds cs :: st) s)) as He.
    assert (Hc : (measure (set_stack (FCmds cs :: st) s) + 8 = measure s)%nat) by (weigh; rewrite Hst; weigh; unfold cmds_weight; cbn [length]; lia). lia.
  - destruct (atPreRun s) as [|cb rest] eqn:Ea; [|weigh; rewrite Ea; weigh; lia].
    unfold after_preRun. case_match; [lia|]. destruct (has_setStatus cfg).
    + eapply Nat.le_lt_trans; [apply cookie_measure; done|]. weigh. lia.
    + eapply Nat.le_lt_trans; [apply doRun_measure|]. weigh. lia.
  - destruct (atInit s) as [|cb rest] eqn:Ea; weigh; rewrite ?Ea in *; weigh; lia.
  - destruct (has_main cfg); [pose proof (crash_measure (set_stack st s) true); unfold abort; lia|].
    unfold checkStackCookie. cbn. destruct (ABORT s), (cookie s); weigh; change (list_weight []) with 0%nat; try lia.
  - destruct (atPostRun s) as [|cb rest] eqn:Ea; [lia|]. weigh; rewrite ?Ea in *; weigh; lia.
  - eapply Nat.le_lt_trans; [apply cookie_measure; done|]. lia.
  - destruct (calledRun (set_stack st s)) eqn:E; [lia|]. weigh. rewrite E in *. lia.
Qed.

Fixpoint steps (cfg : settings) (n : nat) (s : rt) : rt := match n with O => s | S n' => steps cfg n' (step cfg s) end.

(** C39. Every call returns: whatever the callbacks do with the dependencies and with [run], the calls in progress end. *)
Theorem calls_return (cfg : settings) (s : rt) : stack (steps cfg (measure s) s) = [].
Proof.
  assert (H : forall n s, (measure s <= n)%nat -> stack (steps cfg n s) = []); [|by apply H].
  induction n as [|n IH]; intros t Ht; cbn [steps].
  - destruct (decide (stack t = [])) as [E|E]; [done|]. pose proof (step_measure cfg t E). lia.
  - destruct (decide (stack t = [])) as [E|E].
    + assert (Hst : step cfg t = t) by (unfold step; by rewrite E). rewrite Hst.
      clear - E. induction n as [|n IH]; [done|]. cbn. assert (Hst : step cfg t = t) by (unfold step; by rewrite E). by rewrite Hst.
    + apply IH. pose proof (step_measure cfg t E). lia.
Qed.

(** Witnesses: the module arrives, and a [preRun] callback adds and removes a dependency of its own. *)
Definition plain_page : settings := {| has_setStatus := false; has_main := false |}.
Definition preload : list cmd := [CAdd (js "data"); CRemove (js "data")].

Definition arrived : rt :=
  match deliver (Page [CRemove (js "wasm-instantiate")]) (initial [preload] [] []) with
  | Some s => steps plain_page (measure s) s
  | None => initial [preload] [] []
  end.

Lemma steps_reachable cfg s0 n s : reachable cfg s0 s -> reachable cfg s0 (steps cfg n s).
Proof. revert s. induction n as [|n IH]; intros s Hs; [done|]. apply IH. by constructor. Qed.

Lemma arrived_reachable : reachable plain_page (initial [preload] [] []) arrived.
Proof.
  unfold arrived. destruct (deliver _ _) as [s|] eqn:E; [|constructor]. apply steps_reachable. eapply ReachInput; [constructor|exact E].
Qed.

Theorem initialised_once_witness : (inits (log arrived) <= 1)%nat /\ log arrived = [Initialised 0].
Proof. split; [apply (initialised_once plain_page _ _ _ arrived arrived_reachable)|vm_compute; reflexivity]. Defined.

Theorem start_not_missed_witness : stack arrived = [] /\ crashed arrived = false /\ runtimeInitialized arrived = true.
Proof.
  assert (Hs : stack arrived = []) by (vm_compute; reflexivity). assert (Hc : crashed arrived = false) by (vm_compute; reflexivity).
  split; [exact Hs|]. split; [exact Hc|].
  destruct (start_not_missed plain_page _ _ _ arrived arrived_reachable Hs Hc) as [H|[_ [H|H]]]; [exact H| |]; vm_compute in H; [discriminate|inversion H].
Defined.

(** With [setStatus] the start is put off by a timeout, and nothing is checked again when it fires: a dependency added meanwhile is
    not waited for. *)
Theorem late_dependency_ignored :
  exists s, reachable {| has_setStatus := true; has_main := false |} (initial [] [] []) s /\ log s = [Initialised 1].
Proof.
  pose (cfg := {| has_setStatus := true; has_main := false |}). pose (s1 := push (FCmds [CRemove (js "wasm-instantiate")]) (initial [] [] [])).
  pose (s2 := steps cfg (measure s1) s1). pose (s3 := push (FCmds [CAdd (js "late")]) s2). pose (s4 := steps cfg (measure s3) s3).
  exists (doRun (upd_ctl s4 [] 0 (log s4))). split; [|vm_compute; reflexivity].
  eapply (ReachInput _ _ s4 Timeout); [|vm_compute; reflexivity]. apply steps_reachable.
  eapply (ReachInput _ _ s2 (Page [CAdd (js "late")])); [|vm_compute; reflexivity]. apply steps_reachable.
  eapply (ReachInput _ _ (initial [] [] []) (Page [CRemove (js "wasm-instantiate")])); [constructor|vm_compute; reflexivity].
Qed.

(** ** Exiting *)

(** [noExitRuntime] is [Module['noExitRuntime'] || true]. *)
Definition noExitRuntime (setting : bool) : bool := setting || true.
Definition keepRuntimeAlive (setting : bool) (counter : Z) : bool := noExitRuntime setting || (0 <? counter).

Record exit_state := { x_status : option Z; x_abort : bool; x_exited : bool; x_onExit : list Z }.

(** [exitRuntime] checks the cookie of the stack and marks the runtime; [procExit] ends by throwing an [ExitStatus]. *)
Definition procExit (setting : bool) (counter code : Z) (s : exit_state) : exit_state :=
  if keepRuntimeAlive setting counter
  then {| x_status := Some code; x_abort := x_abort s; x_exited := x_exited s; x_onExit := x_onExit s |}
  else {| x_status := Some code; x_abort := true; x_exited := x_exited s; x_onExit := code :: x_onExit s |}.

Definition exit (setting : bool) (counter status : Z) (s : exit_state) : exit_state :=
  let s := {| x_status := Some status; x_abort := x_abort s;
              x_exited := if keepRuntimeAlive setting counter then x_exited s else true; x_onExit := x_onExit s |} in
  procExit setting counter status s.

(** The page cannot turn [noExitRuntime] off, so [exit] never shuts the runtime down and never calls [onExit]. *)
Theorem exit_keeps_runtime (setting : bool) (counter status : Z) (s : exit_state) :
  exit setting counter status s = {| x_status := Some status; x_abort := x_abort s; x_exited := x_exited s; x_onExit := x_onExit s |}.
Proof. unfold exit, procExit, keepRuntimeAlive, noExitRuntime. by destruct setting. Qed.

(** [createExportWrapper]: an export may be called between initialisation and exit. *)
Definition export_allowed (s : rt) (exited : bool) : bool := runtimeInitialized s && negb exited.
