(* ===== verification/OpusLoad.v ===== *)
(** * Loading the Opus module
      ([integrations/lan-remote-access/rustdesk-web-open/libopus.js], [createWasm])

    Where the module is fetched from, and the chain of promises that fetches, compiles
    and instantiates it with its fallbacks.  What the host offers is a record; what
    fetch, the readers and WebAssembly answer are events.  A continuation runs directly
    after the event that settles what it waits for. *)

From stdpp Require Import base list numbers strings.
From Stdlib Require Import ZArith Lia.
From S2P Require Import Prelude JsString OpusRuntime.
Local Open Scope Z_scope.

(** ** The address of the module *)

Definition dataURIPrefix : jsstr := js "data:application/octet-stream;base64,".
Definition isDataURI (filename : jsstr) : bool := startsWith filename dataURIPrefix.
Definition isFileURI (filename : jsstr) : bool := startsWith filename (js "file://").

(** [replace(/[?#].*/, '')]: the dot stops at a line terminator. *)
Fixpoint drop_line (s : jsstr) : jsstr :=
  match s with
  | [] => []
  | c :: s' => if is_line_terminator c then s else drop_line s'
  end.

Fixpoint cut_query (s : jsstr) : jsstr :=
  match s with
  | [] => []
  | c :: s' => if (c =? 63) || (c =? 35) then drop_line s' else c :: cut_query s'
  end.

(** [lastIndexOf('/')], [-1] when there is none. *)
Fixpoint last_slash (s : jsstr) (i found : Z) : Z :=
  match s with
  | [] => found
  | c :: s' => last_slash s' (i + 1) (if c =? 47 then i else found)
  end.
Definition lastIndexOf_slash (s : jsstr) : Z := last_slash s 0 (-1).

(** [scriptDirectory] of a page or worker, from the address of the script; [includes 'blob:' at 0]. *)
Definition script_directory (href : jsstr) : jsstr :=
  if startsWith href (js "blob:") then []
  else take (Z.to_nat (lastIndexOf_slash (cut_query href) + 1)) href.

Definition wasm_name : jsstr := js "libopus.wasm?v=be6f45f8".

(** [Module.locateFile], which the script sets itself; [LIBOPUS_WASM_URL] may be defined by the page. *)
Definition module_locateFile (LIBOPUS_WASM_URL : option jsstr) (url : jsstr) : jsstr :=
  match LIBOPUS_WASM_URL with
  | Some u => if str_eqb url wasm_name then u else url
  | None => url
  end.

(** [locateFile] with the function of the module, or without one. *)
Definition locateFile (module : option (jsstr -> jsstr)) (scriptDirectory path : jsstr) : jsstr :=
  match module with Some f => f path | None => scriptDirectory ++ path end.

Definition wasmBinaryFile (LIBOPUS_WASM_URL : option jsstr) (scriptDirectory : jsstr) : jsstr :=
  if isDataURI wasm_name then wasm_name
  else locateFile (Some (module_locateFile LIBOPUS_WASM_URL)) scriptDirectory wasm_name.

(** ** The chain of promises *)

(** What the exports of an instance offer. *)
Record instance := { memory_export : bool; table_export : bool }.

Record host := {
  file : jsstr;                                   (* [wasmBinaryFile] *)
  wasmBinary : option (list Z);
  web_or_worker : bool;
  has_fetch : bool;
  has_streaming : bool;
  has_readAsync : bool;
  readBinary : option (jsstr -> result (list Z));
  custom : bool                                   (* [Module.instantiateWasm] *)
}.

(** What is done, apart from waiting. *)
Inductive action :=
| AddDependency                                   (* [addRunDependency('wasm-instantiate')] *)
| RemoveDependency
| OnInit                                          (* [addOnInit(__wasm_call_ctors)] *)
| Views                                           (* [updateGlobalBufferAndViews] *)
| Fetch (streaming : bool)
| ReadAsync
| InstantiateStreaming
| Instantiate (bytes : list Z)
| Err
| Abort.

Inductive load_stage :=
| StreamFetch | StreamCompile                     (* [instantiateAsync] *)
| FetchModule | FetchBody | AwaitRead | AwaitTick (* [getBinaryPromise] *)
| AwaitInstance                                   (* [WebAssembly.instantiate] *)
| AwaitPage                                       (* the page has [receiveInstance] *)
| Declined                                        (* the page's [instantiateWasm] threw, which is printed *)
| Received                                        (* an instance was received *)
| Failed                                          (* after [abort] *)
| Unhandled.                                      (* a rejection nobody handles *)

Record loading := {
  at_stage : load_stage;
  moduleSame : bool;                              (* [Module === trueModule] until [trueModule] is cleared *)
  actions : list action                           (* latest first *)
}.

Inductive event :=
| Responded (ok : bool)
| FetchFailed
| Compiled (i : instance)
| CompileFailed
| BodyRead (bytes : list Z)
| BodyFailed
| ReadDone (bytes : list Z)
| ReadFailed
| Tick
| Instantiated (i : instance)
| InstantiateFailed
| PageReceived (i : instance)
| ModuleReplaced.

Definition does (a : action) (s : loading) : loading := {| at_stage := at_stage s; moduleSame := moduleSame s; actions := a :: actions s |}.
Definition goes (st : load_stage) (s : loading) : loading := {| at_stage := st; moduleSame := moduleSame s; actions := actions s |}.
Definition fails (s : loading) : loading := goes Failed (does Abort s).

Definition is_remove (a : action) : bool := match a with RemoveDependency => true | _ => false end.
Definition is_abort (a : action) : bool := match a with Abort => true | _ => false end.
Definition removed (s : loading) : bool := existsb is_remove (actions s).
Definition aborted (s : loading) : bool := existsb is_abort (actions s).

(** [removeRunDependency] asserts that the dependency is there. *)
Definition receiveInstance (i : instance) (s : loading) : loading :=
  if negb (memory_export i) then fails s
  else
    let s := does Views s in
    if negb (table_export i) then fails s
    else
      let s := does OnInit s in
      if removed s then fails s else goes Received (does RemoveDependency s).

(** The receiver of both paths; [trueModule] is cleared, so that a second call would fail. *)
Definition receiveInstantiationResult (i : instance) (s : loading) : loading :=
  if negb (moduleSame s) then fails s
  else receiveInstance i {| at_stage := at_stage s; moduleSame := false; actions := actions s |}.

(** The rejection handler of [instantiateArrayBuffer]. *)
Definition rejected (h : host) (s : loading) : loading :=
  let s := does Err s in
  let s := if isFileURI (file h) then does Err s else s in
  fails s.

Definition instantiate (bytes : list Z) (s : loading) : loading := goes AwaitInstance (does (Instantiate bytes) s).

(** [getBinary] inside a promise; its own [abort] makes the promise reject. *)
Definition getBinary (h : host) (s : loading) : loading :=
  match wasmBinary h with
  | Some bytes => instantiate bytes s
  | None =>
      match readBinary h with
      | Some f => match f (file h) with Ok bytes => instantiate bytes s | Throw _ => rejected h (does Abort s) end
      | None => rejected h (does Abort s)
      end
  end.

Definition absent {A} (o : option A) : bool := match o with None => true | Some _ => false end.

(** [instantiateArrayBuffer], up to the first wait of [getBinaryPromise]. *)
Definition getBinaryPromise (h : host) (s : loading) : loading :=
  if absent (wasmBinary h) && web_or_worker h then
    if has_fetch h && negb (isFileURI (file h)) then goes FetchModule (does (Fetch false) s)
    else if has_readAsync h then goes AwaitRead (does ReadAsync s)
    else goes AwaitTick s
  else goes AwaitTick s.

Definition instantiateAsync (h : host) (s : loading) : loading :=
  if absent (wasmBinary h) && has_streaming h && negb (isDataURI (file h)) && negb (isFileURI (file h)) && has_fetch h
  then goes StreamFetch (does (Fetch true) s)
  else getBinaryPromise h s.

(** A page's own [instantiateWasm] that throws makes [createWasm] print and return. *)
Definition createWasm (h : host) (custom_throws : bool) : loading :=
  let s := does AddDependency {| at_stage := AwaitPage; moduleSame := true; actions := [] |} in
  if custom h then (if custom_throws then goes Declined (does Err s) else s)
  else instantiateAsync h s.

Definition step (h : host) (e : event) (s : loading) : loading :=
  match e, at_stage s with
  | ModuleReplaced, _ => {| at_stage := at_stage s; moduleSame := false; actions := actions s |}
  | Responded _, StreamFetch => goes StreamCompile (does InstantiateStreaming s)
  | FetchFailed, StreamFetch => goes Unhandled s
  | Compiled i, StreamCompile => receiveInstantiationResult i s
  | CompileFailed, StreamCompile => getBinaryPromise h (does Err (does Err s))
  | Responded ok, FetchModule => if ok then goes FetchBody s else getBinary h s
  | FetchFailed, FetchModule => getBinary h s
  | BodyRead bytes, FetchBody => instantiate bytes s
  | BodyFailed, FetchBody => getBinary h s
  | ReadDone bytes, AwaitRead => instantiate bytes s
  | ReadFailed, AwaitRead => rejected h s
  | Tick, AwaitTick => getBinary h s
  | Instantiated i, AwaitInstance => receiveInstantiationResult i s
  | InstantiateFailed, AwaitInstance => rejected h s
  | PageReceived i, _ => if custom h then receiveInstance i s else s      (* the page may call it at any time *)
  | _, _ => s
  end.

Definition runs (h : host) (es : list event) (s : loading) : loading := fold_left (fun s e => step h e s) es s.

(** ** Properties *)

(** The module is taken from [LIBOPUS_WASM_URL], or by its relative name: the directory of the script plays no part. *)
Lemma wasmBinaryFile_spec LIBOPUS_WASM_URL scriptDirectory :
  wasmBinaryFile LIBOPUS_WASM_URL scriptDirectory = default wasm_name LIBOPUS_WASM_URL.
Proof.
  unfold wasmBinaryFile, locateFile, module_locateFile. assert (isDataURI wasm_name = false) as -> by (vm_compute; reflexivity).
  generalize wasm_name as w. intros w. destruct LIBOPUS_WASM_URL as [u|]; [|reflexivity]. unfold str_eqb. rewrite bool_decide_true by reflexivity. reflexivity.
Qed.

Lemma last_slash_spec s : forall i found, -1 <= found < i ->
  let k := last_slash s i found in
  -1 <= k < i + Z.of_nat (length s) /\ (k = found \/ i <= k /\ s !! Z.to_nat (k - i) = Some 47).
Proof.
  induction s as [|c s IH]; intros i found Hf; cbn [last_slash length]; [split; [lia|by left]|].
  destruct (Z.eqb_spec c 47) as [->|Hc].
  - destruct (IH (i + 1) i ltac:(lia)) as [Hk [->|[Hi Hl]]]; (split; [lia|]); right.
    + split; [lia|]. by rewrite Z.sub_diag.
    + split; [lia|]. replace (Z.to_nat (last_slash s (i + 1) i - i)) with (S (Z.to_nat (last_slash s (i + 1) i - (i + 1)))) by lia. done.
  - destruct (IH (i + 1) found ltac:(lia)) as [Hk [E|[Hi Hl]]]; (split; [lia|]); [by left|right].
    split; [lia|]. replace (Z.to_nat (last_slash s (i + 1) found - i)) with (S (Z.to_nat (last_slash s (i + 1) found - (i + 1)))) by lia. done.
Qed.

Definition one_line (s : jsstr) : Prop := Forall (fun c => is_line_terminator c = false) s.

Lemma drop_line_all s : one_line s -> drop_line s = [].
Proof. induction 1 as [|c s Hc Hs IH]; cbn; [done|]. by rewrite Hc. Qed.

Lemma cut_query_prefix s : one_line s -> exists rest, s = cut_query s ++ rest.
Proof.
  induction 1 as [|c s Hc Hs [rest IH]]; cbn; [by exists []|]. destruct (_ || _).
  - rewrite drop_line_all by done. by exists (c :: s).
  - exists rest. cbn. by f_equal.
Qed.

Lemma cut_query_plain s : one_line s -> Forall (fun c => c <> 63 /\ c <> 35) (cut_query s).
Proof.
  induction 1 as [|c s Hc Hs IH]; cbn; [constructor|]. destruct (_ || _) eqn:E; [by rewrite drop_line_all|]. bool_prop. by constructor.
Qed.

(** The directory of a script is a prefix of its address that ends in a slash, or empty, and has no part of the query. *)
Theorem script_directory_spec (href : jsstr) : one_line href ->
  let d := script_directory href in
  (d = [] \/ exists d', d = d' ++ [47]) /\ (exists rest, href = d ++ rest) /\ Forall (fun c => c <> 63 /\ c <> 35) d.
Proof.
  intros Hl d. subst d. unfold script_directory. destruct (startsWith href _); [split; [by left|]; split; [by exists href|constructor]|].
  destruct (cut_query_prefix href Hl) as [rest Hr]. pose proof (cut_query_plain href Hl) as Hp. set (c := cut_query href) in *.
  destruct (last_slash_spec c 0 (-1) ltac:(lia)) as [Hk Hs]. fold (lastIndexOf_slash c) in *. set (k := lastIndexOf_slash c) in *.
  rewrite Hr, take_app_le by lia. split; [|split].
  - destruct Hs as [->|[H0 Hs]]; [by left|right]. rewrite Z.sub_0_r in Hs. exists (take (Z.to_nat k) c).
    replace (Z.to_nat (k + 1)) with (S (Z.to_nat k)) by lia. by apply take_S_r.
  - exists (drop (Z.to_nat (k + 1)) c ++ rest). by rewrite (assoc_L (++)), take_drop.
  - by apply Forall_take.
Qed.

(** ** The outcome of loading *)

Definition terminal (st : load_stage) : bool := match st with Declined | Received | Failed | Unhandled => true | _ => false end.

(** An answer the stage waits for. *)
Definition answers (e : event) (st : load_stage) : bool :=
  match e, st with
  | Responded _, StreamFetch | FetchFailed, StreamFetch | Compiled _, StreamCompile | CompileFailed, StreamCompile
  | Responded _, FetchModule | FetchFailed, FetchModule | BodyRead _, FetchBody | BodyFailed, FetchBody
  | ReadDone _, AwaitRead | ReadFailed, AwaitRead | Tick, AwaitTick | Instantiated _, AwaitInstance | InstantiateFailed, AwaitInstance => true
  | _, _ => false
  end.

Definition rank (st : load_stage) : nat :=
  match st with
  | StreamFetch => 5 | StreamCompile => 4 | FetchModule => 3 | FetchBody | AwaitRead | AwaitTick => 2 | AwaitInstance => 1
  | AwaitPage | Declined | Received | Failed | Unhandled => 0
  end%nat.

(** Every event of the list is an answer at its time. *)
Fixpoint answered (h : host) (es : list event) (s : loading) : bool :=
  match es with
  | [] => true
  | e :: es => answers e (at_stage s) && answered h es (step h e s)
  end.

Definition is_add (a : action) : bool := match a with AddDependency => true | _ => false end.
Definition adds (s : loading) : nat := length (List.filter is_add (actions s)).

#[export] Instance stage_eq_dec : EqDecision load_stage.
Proof. solve_decision. Defined.

(** The stage tells what has happened. *)
Definition load_ok (h : host) (s : loading) : Prop :=
  adds s = 1%nat /\ removed s = bool_decide (at_stage s = Received) /\ aborted s = bool_decide (at_stage s = Failed)
  /\ at_stage s <> AwaitPage
  /\ (at_stage s = Unhandled -> In (Fetch true) (actions s) /\ ~ In InstantiateStreaming (actions s))
  /\ (at_stage s = StreamFetch -> In (Fetch true) (actions s) /\ ~ In InstantiateStreaming (actions s)).

Lemma fails_ok h s : adds s = 1%nat -> removed s = false -> load_ok h (fails s).
Proof.
  intros Ha Hr. unfold load_ok, adds, removed, aborted in *. cbn. rewrite Ha, Hr. done. Qed.

(** Before the end nothing is removed and nothing aborted. *)
Definition open (s : loading) : Prop := adds s = 1%nat /\ removed s = false /\ aborted s = false.

Lemma open_pending h s : load_ok h s -> terminal (at_stage s) = false -> open s.
Proof. intros (H1 & H2 & H3 & _) Ht. unfold open. rewrite H1, H2, H3. by destruct (at_stage s). Qed.

Lemma open_does a s : is_add a = false -> is_remove a = false -> is_abort a = false -> open s -> open (does a s).
Proof. unfold open, adds, removed, aborted. cbn [does actions List.filter existsb]. by intros -> -> ->. Qed.

Lemma open_goes st s : open s -> open (goes st s).
Proof. done. Qed.

Definition waiting (st : load_stage) : bool :=
  match st with StreamCompile | FetchModule | FetchBody | AwaitRead | AwaitTick | AwaitInstance => true | _ => false end.

Lemma waiting_ok h st s : waiting st = true -> open s -> load_ok h (goes st s).
Proof. intros Hw (H1 & H2 & H3). unfold load_ok, removed, aborted. change (adds (goes st s)) with (adds s). rewrite H1. cbn [goes actions at_stage]. unfold removed, aborted in *. rewrite H2, H3. by destruct st. Qed.

#[local] Hint Resolve open_does open_goes waiting_ok : loading.
#[local] Hint Extern 1 (load_ok _ (fails _)) => apply fails_ok : loading.

Lemma rejected_ok h s : adds s = 1%nat -> removed s = false -> load_ok h (rejected h s).
Proof. intros H1 H2. unfold rejected. apply fails_ok; destruct (isFileURI (file h)); done. Qed.

Lemma instantiate_ok h bytes s : open s -> load_ok h (instantiate bytes s).
Proof. intros Hs. unfold instantiate. auto with loading. Qed.

Lemma getBinary_ok h s : open s -> load_ok h (getBinary h s).
Proof.
  intros Hs. pose proof Hs as (H1 & H2 & H3). unfold getBinary. destruct (wasmBinary h); [by apply instantiate_ok|].
  destruct (readBinary h) as [f|]; [destruct (f (file h)); [by apply instantiate_ok|]|]; by apply rejected_ok.
Qed.

Lemma getBinaryPromise_ok h s : open s -> load_ok h (getBinaryPromise h s).
Proof. intros Hs. unfold getBinaryPromise. repeat case_match; auto 6 with loading. Qed.

Lemma receive_ok h i s : open s -> load_ok h (receiveInstantiationResult i s).
Proof.
  intros (H1 & H2 & H3). unfold receiveInstantiationResult, receiveInstance. destruct (moduleSame s); cbn [negb]; [|by apply fails_ok].
  destruct (memory_export i); cbn [negb]; [|by apply fails_ok]. destruct (table_export i); cbn [negb]; [|by apply fails_ok].
  match goal with |- context [removed ?x] => assert (removed x = false) as -> by exact H2 end.
  unfold load_ok, removed, aborted, adds in *. cbn [goes does actions at_stage List.filter existsb is_remove is_abort is_add orb]. rewrite H1, H3. repeat apply conj; done.
Qed.

Lemma createWasm_ok h : custom h = false -> load_ok h (createWasm h false).
Proof.
  intros Hc. unfold createWasm, instantiateAsync. rewrite Hc. destruct (_ && has_fetch h); [|by apply getBinaryPromise_ok].
  unfold load_ok. cbn. repeat (split; [done|]). intros _. split; [by left|]. intros [?|[?|[]]]; done.
Qed.

Lemma step_load_ok h e s : custom h = false -> load_ok h s -> load_ok h (step h e s).
Proof.
  intros Hc Hs. pose proof Hs as (H1 & H2 & H3 & H4 & H5 & H6).
  assert (Ho : terminal (at_stage s) = false -> open s) by (intros; by eapply open_pending).
  destruct e as [ok| |i| |bytes| |bytes| | |i| |i|]; cbn [step]; rewrite ?Hc; try done.
  all: destruct (at_stage s) eqn:Es; try done; specialize (Ho eq_refl).
  all: try (apply receive_ok; done); try (by apply getBinary_ok); try (by apply instantiate_ok); auto 6 with loading.
  - destruct ok; [auto with loading | by apply getBinary_ok].
  - unfold load_ok. change (adds (goes Unhandled s)) with (adds s). destruct Ho as (-> & Hr & Ha). unfold removed, aborted in *. cbn [goes actions at_stage].
    rewrite Hr, Ha. split; [done|]. do 3 (split; [done|]). split; [auto|done].
  - by apply getBinaryPromise_ok, open_does, open_does.
  - destruct Ho as (? & ? & ?). by apply rejected_ok.
  - destruct Ho as (? & ? & ?). by apply rejected_ok.
Qed.

Lemma runs_ok h es : forall s, custom h = false -> load_ok h s -> load_ok h (runs h es s).
Proof. induction es as [|e es IH]; intros s Hc Hs; [done|]. cbn. apply IH; [done|]. by apply step_load_ok. Qed.

(** Every answer brings the chain closer to its end. *)
Lemma rank_decreases h e s : answers e (at_stage s) = true -> (rank (at_stage (step h e s)) < rank (at_stage s))%nat.
Proof.
  intros H. assert (B : forall s, (rank (at_stage (getBinary h s)) <= 1)%nat).
  { intros t. unfold getBinary, rejected, instantiate. repeat case_match; cbn; lia. }
  assert (P : forall s, (rank (at_stage (getBinaryPromise h s)) <= 3)%nat) by (intros t; unfold getBinaryPromise; repeat case_match; cbn; lia).
  assert (R : forall i s, rank (at_stage (receiveInstantiationResult i s)) = 0%nat).
  { intros i t. unfold receiveInstantiationResult, receiveInstance. repeat case_match; done. }
  destruct e as [ok| |i| |bytes| |bytes| | |i| |i|]; destruct (at_stage s) eqn:Es; try discriminate H; cbn [step]; rewrite Es.
  all: try (specialize (B s)); rewrite ?R; try (cbn [rank goes does fails instantiate rejected at_stage]; lia).
  - destruct ok; cbn [rank goes at_stage] in *; lia.
  - specialize (P (does Err (does Err s))). cbn [rank]. lia.
Qed.

Lemma answered_ends h es : forall s, answered h es s = true -> (rank (at_stage (runs h es s)) + length es <= rank (at_stage s))%nat.
Proof.
  induction es as [|e es IH]; intros s H; cbn [answered runs fold_left length] in *; [lia|].
  apply andb_prop in H as [H1 H2]. specialize (IH _ H2). pose proof (rank_decreases h e s H1). unfold runs in IH. lia.
Qed.

(** *** A page that instantiates the module itself *)

Definition complete (i : instance) : bool := memory_export i && table_export i.

(** The instances that the page hands over: the complete ones, and the others. *)
Definition count_instances (p : instance -> bool) (es : list event) : nat :=
  length (List.filter (fun e => match e with PageReceived i => p i | _ => false end) es).

Definition removals (s : loading) : nat := length (List.filter is_remove (actions s)).
Definition aborts (s : loading) : nat := length (List.filter is_abort (actions s)).

(** Something the loader does by itself to get the module. *)
Definition fetches (a : action) : bool :=
  match a with Fetch _ | ReadAsync | InstantiateStreaming | Instantiate _ => true | _ => false end.

(** The stages of a loader that leaves the module to the page. *)
Definition on_page (st : load_stage) : bool := match st with AwaitPage | Declined | Received | Failed => true | _ => false end.

Record page_ok (s : loading) : Prop := {
  po_stage : on_page (at_stage s) = true;
  po_adds : adds s = 1%nat;
  po_idle : existsb fetches (actions s) = false
}.

Lemma removed_count s : removed s = negb (Nat.eqb (removals s) 0).
Proof. unfold removed, removals. induction (actions s) as [|a l IH]; cbn; [done|]. by destruct (is_remove a). Qed.

Lemma receiveInstance_page i s : page_ok s ->
  page_ok (receiveInstance i s)
  /\ removals (receiveInstance i s) = (removals s + if complete i && negb (removed s) then 1 else 0)%nat
  /\ aborts (receiveInstance i s) = (aborts s + if complete i && negb (removed s) then 0 else 1)%nat.
Proof.
  intros [H1 H2 H3]. unfold receiveInstance, complete. destruct (memory_export i); cbn [negb andb].
  - destruct (table_export i); cbn [negb andb].
    + change (removed (does OnInit (does Views s))) with (removed s).
      destruct (removed s); cbn [negb]; (split; [by constructor|]); unfold removals, aborts; cbn; lia.
    + split; [by constructor|]. unfold removals, aborts; cbn; lia.
  - split; [by constructor|]. unfold removals, aborts; cbn; lia.
Qed.

Lemma custom_runs h es : custom h = true -> forall s, page_ok s -> (removals s <= 1)%nat ->
  let t := runs h es s in
  page_ok t
  /\ removals t = Nat.min 1 (removals s + count_instances complete es)
  /\ (removals t + aborts t = removals s + aborts s + count_instances (fun _ => true) es)%nat.
Proof.
  intros Hc. induction es as [|e es IH]; intros s Hs Hr; cbn [runs fold_left]; [unfold count_instances; cbn [List.filter length]; split; [done|lia]|].
  assert (He : (exists i, e = PageReceived i) \/ ~ exists i, e = PageReceived i) by (destruct e; first [by left; eexists|right; by intros [? ?]]).
  destruct He as [[i ->]|He].
  2: { assert (E : actions (step h e s) = actions s /\ at_stage (step h e s) = at_stage s).
       { pose proof (po_stage s Hs) as Hst. destruct e; cbn [step]; try done; try (by destruct He; eexists); (destruct (at_stage s) eqn:Es; try discriminate Hst; by split). }
       destruct E as [E1 E2]. assert (Hs' : page_ok (step h e s)) by (destruct Hs; constructor; unfold adds; rewrite ?E1, ?E2; done).
       assert (Er : removals (step h e s) = removals s) by (unfold removals; by rewrite E1).
       assert (Ea : aborts (step h e s) = aborts s) by (unfold aborts; by rewrite E1).
       specialize (IH _ Hs'). rewrite Er, Ea in IH. destruct (IH Hr) as (P1 & P2 & P3). split; [done|].
       assert (C : forall p, count_instances p (e :: es) = count_instances p es) by (intros p; unfold count_instances; destruct e; try done; by destruct He; eexists).
       by rewrite !C. }
  change (step h (PageReceived i) s) with (if custom h then receiveInstance i s else s). rewrite Hc.
  destruct (receiveInstance_page i s Hs) as (Hs' & E1 & E2). pose proof (removed_count s) as Hrm.
  destruct (IH _ Hs') as (P1 & P2 & P3); [rewrite E1, Hrm; revert Hr; clear; destruct (removals s) as [|[|]]; destruct (complete i); cbn; lia|].
  split; [done|]. rewrite E1, E2 in *. unfold count_instances in *. cbn [List.filter]. rewrite Hrm in *.
  unfold runs in P2, P3. revert Hr P2 P3. clear. generalize (removals (fold_left (fun s e => step h e s) es (receiveInstance i s))), (aborts (fold_left (fun s e => step h e s) es (receiveInstance i s))).
  destruct (complete i), (removals s) as [|[|]]; cbn [negb Nat.eqb andb length]; lia.
Qed.

Lemma createWasm_page h throws : custom h = true -> page_ok (createWasm h throws) /\ removals (createWasm h throws) = 0%nat /\ aborts (createWasm h throws) = 0%nat.
Proof. intros Hc. unfold createWasm. rewrite Hc. destruct throws; (split; [by constructor|done]). Qed.


(** A fetch that fails in the streaming path ends the loading for good, although the same failure in the path
    without streaming is followed by [getBinary]. *)
Lemma streaming_fetch_lost (h : host) (es : list event) :
  custom h = false -> wasmBinary h = None -> has_streaming h = true -> has_fetch h = true ->
  isDataURI (file h) = false -> isFileURI (file h) = false ->
  at_stage (runs h (FetchFailed :: es) (createWasm h false)) = Unhandled.
Proof.
  intros Hc Hw Hs Hf Hd Hu. cbn [runs fold_left]. unfold createWasm, instantiateAsync, absent. rewrite Hc, Hw, Hs, Hf, Hd, Hu. cbn.
  match goal with |- at_stage (fold_left _ _ ?s) = _ => assert (E : at_stage s = Unhandled) by done; revert E; generalize s end.
  induction es as [|e es IH]; intros s E; [done|]. cbn [fold_left]. apply IH.
  destruct e; cbn [step]; rewrite ?E, ?Hc; done.
Qed.

Definition browser : host := {|
  file := wasm_name; wasmBinary := None; web_or_worker := true; has_fetch := true; has_streaming := true; has_readAsync := true;
  readBinary := None; custom := false |}.


(** With the start-up of OpusRuntime: when the last dependency is the one of the loader, its removal initialises the runtime. *)
Example received_starts_runtime :
  let rt := initial [] [] [] in
  let s := OpusRuntime.push (FCmds [CRemove (js "wasm-instantiate")]) rt in
  runtimeInitialized (Nat.iter 8 (OpusRuntime.step {| has_setStatus := false; has_main := false |}) s) = true.
Proof. vm_compute. reflexivity. Qed.
