(* ===== verification/OpusWorker.v ===== *)
(** * The audio worker
      ([integrations/lan-remote-access/rustdesk-web-open/libopus.js], [Encoder], [Decoder] and the message listener)

    The worker keeps one decoder of the Opus module, replaces it when a message
    gives new audio parameters, and decodes one packet per other message.  The
    functions of the module are parameters: objects are numbered by the allocator
    of the module, and a decoder has a state that packets change. *)

From stdpp Require Import base list numbers strings sets.
From Stdlib Require Import ZArith Lia.
From S2P Require Import Prelude JsString OpusMemfs.
Local Open Scope Z_scope.

(** The state of the module: its live objects and memory blocks, and what it does
    with a decoder.  [Decoder_output] says whether there are samples and fills the
    output array. *)
Class OpusModule := {
  dstate : Type;
  decoder_new : Z -> Z -> dstate;
  decoder_input : dstate -> list Z -> dstate;
  decoder_output : dstate -> option (list Z) * dstate
}.

Section Worker.
Context `{OpusModule}.

Record decoder := { dec : nat; out : nat; st : dstate }.

Record worker := {
  current : option decoder;          (* the variable [dec] *)
  live : list nat;                   (* objects and blocks of the module not yet freed *)
  next : nat
}.

Inductive message :=
| Parameters (channels sampleRate : Z)
| Packet (bytes : list Z).

Inductive output := Post (samples : list Z) | Threw (e : jserror).

Definition alloc (w : worker) : nat * worker :=
  (next w, {| current := current w; live := next w :: live w; next := S (next w) |}).

Definition free_object (w : worker) (o : nat) : worker :=
  {| current := current w; live := List.filter (fun x => negb (x =? o)%nat) (live w); next := next w |}.

Definition set_current (w : worker) (d : option decoder) : worker := {| current := d; live := live w; next := next w |}.

(** [new Decoder(channels, samplerate)] *)
Definition new_Decoder (w : worker) (channels samplerate : Z) : decoder * worker :=
  let '(d, w) := alloc w in
  let '(o, w) := alloc w in
  ({| dec := d; out := o; st := decoder_new channels samplerate |}, w).

Definition destroy (w : worker) (d : decoder) : worker := free_object (free_object w (dec d)) (out d).

(** [input]: the packet is copied to a block of the module and the block freed. *)
Definition input (w : worker) (d : decoder) (packet : list Z) : decoder * worker :=
  let '(ptr, w) := alloc w in
  let d := {| dec := dec d; out := out d; st := decoder_input (st d) packet |} in
  (d, free_object w ptr).

(** [output]: a view of the samples, or [undefined]. *)
Definition decode_output (d : decoder) : option (list Z) * decoder :=
  let '(r, s) := decoder_output (st d) in (r, {| dec := dec d; out := out d; st := s |}).

(** The message listener; a message with [channels > 0] carries parameters, every
    other one is a packet.  An exception ends only this call. *)
Definition on_message (w : worker) (m : message) : worker * list output :=
  match m with
  | Parameters channels sampleRate =>
      let w := match current w with Some d => destroy w d | None => w end in
      let '(d, w) := new_Decoder w channels sampleRate in
      (set_current w (Some d), [])
  | Packet bytes =>
      match current w with
      | None => (w, [Threw type_error])
      | Some d =>
          let '(d, w) := input w d bytes in
          let '(r, d) := decode_output d in
          let w := set_current w (Some d) in
          match r with
          | Some samples => (w, [Post samples])
          | None => (w, [Threw type_error])
          end
      end
  end.

Definition worker_init : worker := {| current := None; live := []; next := 0 |}.

Fixpoint run (w : worker) (ms : list message) : worker * list output :=
  match ms with
  | [] => (w, [])
  | m :: ms' => let '(w, o) := on_message w m in let '(w, os) := run w ms' in (w, o ++ os)
  end.

(** ** Objects of the module *)

(** Only the current decoder and its output array are alive. *)
Record tidy (w : worker) : Prop := {
  tidy_live : live w = match current w with Some d => [out d; dec d] | None => [] end;
  tidy_new : match current w with Some d => (dec d < next w /\ out d < next w /\ dec d <> out d)%nat | None => True end
}.

Lemma tidy_message w m : tidy w -> tidy (fst (on_message w m)).
Proof.
  intros [Hl Hn]. destruct w as [c l k]. cbn in *. subst l. destruct m as [ch sr|bytes]; cbn.
  - destruct c as [d|]; cbn.
    + destruct Hn as (H1 & H2 & H3). unfold free_object. cbn. rewrite (proj2 (Nat.eqb_neq (out d) (dec d))) by lia.
      rewrite Nat.eqb_refl. cbn. rewrite Nat.eqb_refl. cbn. split; cbn; [done|lia].
    + split; cbn; [done|lia].
  - destruct c as [d|]; cbn; [|by split]. destruct Hn as (H1 & H2 & H3).
    unfold decode_output. cbn. destruct (decoder_output (decoder_input (st d) bytes)) as [r s]. unfold free_object. cbn.
    rewrite Nat.eqb_refl, (proj2 (Nat.eqb_neq (out d) k)), (proj2 (Nat.eqb_neq (dec d) k)) by lia. cbn. destruct r; split; cbn; try done; lia.
Qed.

Lemma tidy_run ms w : tidy w -> tidy (fst (run w ms)).
Proof.
  revert w. induction ms as [|m ms IH]; intros w Hw; [done|]. cbn. pose proof (tidy_message w m Hw) as Hm.
  destruct (on_message w m) as [w1 o1]. specialize (IH w1 Hm). by destruct (run w1 ms).
Qed.

End Worker.

(** The worker does not leak: after any messages the module has exactly the current
    decoder and its output array alive; every replaced decoder, its output array and
    every packet buffer has been freed. *)
Theorem worker_no_leak `{OpusModule} (ms : list message) :
  let w := fst (run worker_init ms) in
  live w = match current w with Some d => [out d; dec d] | None => [] end.
Proof. apply tidy_run. by split. Qed.

(** A packet for which the module has no samples, and a packet before any parameters,
    end in a TypeError of the listener and nothing is posted. *)
Theorem silent_packet_throws `{OpusModule} (w : worker) (bytes : list Z) :
  (forall d, current w = Some d -> fst (decoder_output (decoder_input (st d) bytes)) = None) ->
  snd (on_message w (Packet bytes)) = [Threw type_error].
Proof.
  intros Hd. cbn. destruct (current w) as [d|] eqn:E; [|done]. specialize (Hd d eq_refl). cbn. unfold decode_output. cbn.
  destruct (decoder_output (decoder_input (st d) bytes)) as [r s]. cbn in Hd. by subst r.
Qed.

(** ** The encoder *)

(** What the module does with an encoder; it is given bytes and the number of samples. *)
Class OpusEncoder := {
  estate : Type;
  encoder_new : Z -> Z -> Z -> Z -> bool -> estate;
  encoder_input : estate -> list Z -> Z -> estate;
  encoder_output : estate -> option (list Z) * estate
}.

Section Encoding.
Context `{OpusEncoder}.

Record encoder := { enc : nat; enc_out : nat; est : estate }.

(** The objects of the module, as the worker counts them: those alive, and the next number. *)
Record objects := { alive : list nat; fresh : nat }.

Definition take_object (m : objects) : nat * objects := (fresh m, {| alive := fresh m :: alive m; fresh := S (fresh m) |}).
Definition drop_object (o : nat) (m : objects) : objects := {| alive := List.filter (fun x => negb (x =? o)%nat) (alive m); fresh := fresh m |}.

(** [new Encoder(channels, samplerate, bitrate, frame_size, voice_optimization)] *)
Definition new_Encoder (channels samplerate bitrate frame_size : Z) (voice_optimization : bool) (m : objects) : encoder * objects :=
  let '(e, m) := take_object m in
  let '(o, m) := take_object m in
  ({| enc := e; enc_out := o; est := encoder_new channels samplerate bitrate frame_size voice_optimization |}, m).

Definition encoder_destroy (e : encoder) (m : objects) : objects := drop_object (enc_out e) (drop_object (enc e) m).

(** The bytes of an [Int16Array]. *)
Definition sample_bytes (samples : list Z) : list Z := concat (List.map (fun x => [x mod 256; (x / 256) mod 256]) samples).

(** [input]: the samples are copied to a block, which is freed after the call. *)
Definition encode_input (samples : list Z) (e : encoder) (m : objects) : encoder * objects :=
  let '(ptr, m) := take_object m in
  let e := {| enc := enc e; enc_out := enc_out e; est := encoder_input (est e) (sample_bytes samples) (Z.of_nat (length samples)) |} in
  (e, drop_object ptr m).

(** [output]: a view of the packet, or [undefined]. *)
Definition encode_output (e : encoder) : option (list Z) * encoder :=
  let '(r, s) := encoder_output (est e) in (r, {| enc := enc e; enc_out := enc_out e; est := s |}).

(** Samples are given, and after each the packets are taken as long as there are some, up to [n] of them. *)
Fixpoint drain (n : nat) (e : encoder) : list (list Z) * encoder :=
  match n with
  | O => ([], e)
  | S n => match encode_output e with
           | (Some p, e) => let '(ps, e) := drain n e in (p :: ps, e)
           | (None, e) => ([], e)
           end
  end.

Fixpoint encode_all (n : nat) (inputs : list (list Z)) (e : encoder) (m : objects) : list (list Z) * encoder * objects :=
  match inputs with
  | [] => ([], e, m)
  | samples :: inputs =>
      let '(e, m) := encode_input samples e m in
      let '(ps, e) := drain n e in
      let '(qs, e, m) := encode_all n inputs e m in
      (ps ++ qs, e, m)
  end.

Definition objects_ok (m : objects) : Prop := Forall (fun o => (o < fresh m)%nat) (alive m).

Lemma drop_fresh m o : objects_ok m -> (fresh m <= o)%nat -> List.filter (fun x => negb (x =? o)%nat) (alive m) = alive m.
Proof.
  intros Hm Ho. unfold objects_ok in Hm. induction Hm as [|x l Hx Hl IH]; cbn; [done|]. rewrite (proj2 (Nat.eqb_neq x o)) by lia. cbn. by rewrite IH.
Qed.

Lemma drain_objects n e : enc (snd (drain n e)) = enc e /\ enc_out (snd (drain n e)) = enc_out e.
Proof.
  revert e. induction n as [|n IH]; intros e; cbn; [done|]. unfold encode_output. destruct (encoder_output (est e)) as [[p|] s]; [|done].
  specialize (IH {| enc := enc e; enc_out := enc_out e; est := s |}). by destruct (drain n _).
Qed.

Lemma encode_all_objects n inputs : forall e m, objects_ok m ->
  let '(_, e', m') := encode_all n inputs e m in
  enc e' = enc e /\ enc_out e' = enc_out e /\ alive m' = alive m /\ (fresh m <= fresh m')%nat.
Proof.
  induction inputs as [|samples inputs IH]; intros e m Hm; cbn [encode_all]; [done|].
  destruct (encode_input samples e m) as [e1 m1] eqn:E1. unfold encode_input in E1. cbn in E1. injection E1 as <- <-.
  set (m1 := drop_object (fresh m) _).
  assert (Hm1 : alive m1 = alive m /\ fresh m1 = S (fresh m)).
  { subst m1. unfold drop_object. cbn. rewrite Nat.eqb_refl. cbn. by rewrite (drop_fresh m (fresh m)). }
  set (e1 := {| enc := enc e; enc_out := enc_out e; est := _ |}). pose proof (drain_objects n e1) as Hd. destruct (drain n e1) as [ps e2].
  assert (Hok : objects_ok m1) by (unfold objects_ok in *; destruct Hm1 as [-> ->]; eapply Forall_impl; [exact Hm|]; cbn; lia).
  specialize (IH e2 m1 Hok). destruct (encode_all n inputs e2 m1) as [[qs e3] m3]. destruct IH as (H1 & H2 & H3 & H4), Hd as [D1 D2], Hm1 as [M1 M2].
  cbn in D1, D2. rewrite H1, H2, H3, D1, D2, M1. repeat split; lia || done.
Qed.

(** An encoder that is destroyed after any use leaves the module as it was: neither its two objects nor any of the blocks for samples remain. *)
Theorem encoder_no_leak (m : objects) (channels samplerate bitrate frame_size : Z) (voice : bool) (n : nat) (inputs : list (list Z)) :
  objects_ok m ->
  let '(e, m1) := new_Encoder channels samplerate bitrate frame_size voice m in
  let '(_, e', m2) := encode_all n inputs e m1 in
  alive (encoder_destroy e' m2) = alive m.
Proof.
  intros Hm. unfold new_Encoder. cbn [take_object fresh alive]. set (m1 := {| alive := S (fresh m) :: fresh m :: alive m; fresh := S (S (fresh m)) |}).
  set (e := {| enc := fresh m; enc_out := S (fresh m); est := _ |}).
  assert (H1 : objects_ok m1).
  { unfold objects_ok, m1. cbn. constructor; [lia|]. constructor; [lia|]. eapply Forall_impl; [exact Hm|]. cbn. lia. }
  pose proof (encode_all_objects n inputs e m1 H1) as H2. destruct (encode_all n inputs e m1) as [[ps e'] m2]. destruct H2 as (E1 & E2 & E3 & _).
  unfold encoder_destroy, drop_object. cbn [alive]. rewrite E1, E2, E3. subst m1 e. cbn [alive enc enc_out take_object fresh fst snd List.filter].
  rewrite (proj2 (Nat.eqb_neq (S (fresh m)) (fresh m))) by lia. rewrite Nat.eqb_refl. cbn [negb List.filter]. rewrite Nat.eqb_refl. cbn [negb].
  rewrite (drop_fresh m (fresh m)) by done. by rewrite (drop_fresh m (S (fresh m))) by (done || lia).
Qed.
End Encoding.
