(* ===== verification/EpoxyHeap.v ===== *)
(** * The object table of the Epoxy bindings ([web/vendor/epoxy/epoxy_client.js])

    WebAssembly code cannot hold a JavaScript value, so the bindings keep the values
    in an array and pass indices.  A free slot holds the index of the next free slot;
    the first 132 slots are reserved and the last four of them hold [undefined],
    [null], [true] and [false].  The abstract view of the table is a finite map from handles
    to values. *)

From stdpp Require Import base list numbers strings gmap sets.
From Stdlib Require Import ZArith Lia.
From S2P Require Import Prelude JsString.
Local Open Scope Z_scope.

(** ** JavaScript values *)

(** A value.  An object or a function of the platform or of the program is known by its
    identity, as are the closures and the class instances the bindings make; an error object is
    known by its class and message.  Numbers are integers. *)
Inductive jsval :=
| Undefined
| Null
| Bool (b : bool)
| Num (n : Z)
| Str (s : jsstr)
| Sym (id : nat)
| Ref (id : nat)
| Closure (id : nat)
| Wrapper (id : nat)
| Err (e : jserror).

#[export] Instance jsval_eq_dec : EqDecision jsval.
Proof. solve_decision. Defined.

(** ** Arrays *)

(** [a[i]] and [a[i] = v] for [i >= 0]: reading past the end gives [undefined],
    writing there extends the array. *)
Definition array_get (a : list jsval) (i : Z) : jsval :=
  match a !! Z.to_nat i with Some v => v | None => Undefined end.

Definition array_set (a : list jsval) (i : Z) (v : jsval) : list jsval :=
  if i <? Z.of_nat (length a) then <[Z.to_nat i := v]> a
  else a ++ replicate (Z.to_nat i - length a) Undefined ++ [v].

(** ** The table *)

Definition reserved : Z := 132.

Record slab := { heap : list jsval; heap_next : jsval }.

Definition initial_heap : list jsval := replicate 128 Undefined ++ [Undefined; Null; Bool true; Bool false].

Definition initial_slab : slab :=
  {| heap := initial_heap; heap_next := Num (Z.of_nat (length initial_heap)) |}.

Definition getObject (l : slab) (idx : Z) : jsval := array_get (heap l) idx.

(** [None]: [heap_next] is not an index, which makes [heap[heap_next]] the access of
    a named property of the array. *)
Definition addHeapObject (l : slab) (obj : jsval) : option (Z * slab) :=
  let len := Z.of_nat (length (heap l)) in
  let h := if bool_decide (heap_next l = Num len) then heap l ++ [Num (len + 1)] else heap l in
  match heap_next l with
  | Num idx =>
      if 0 <=? idx
      then Some (idx, {| heap := array_set h idx obj; heap_next := array_get h idx |})
      else None
  | _ => None
  end.

Definition dropObject (l : slab) (idx : Z) : slab :=
  if idx <? reserved then l
  else {| heap := array_set (heap l) idx (heap_next l); heap_next := Num idx |}.

Definition takeObject (l : slab) (idx : Z) : jsval * slab := (getObject l idx, dropObject l idx).

Definition isLikeNone (x : jsval) : bool := bool_decide (x = Undefined) || bool_decide (x = Null).

(** ** The invariant: the free slots form a chain *)

Fixpoint chain (h : list jsval) (next : jsval) (free : list Z) : Prop :=
  match free with
  | [] => next = Num (Z.of_nat (length h))
  | i :: free' => next = Num i /\ chain h (array_get h i) free'
  end.

Record slab_wf (l : slab) (free : list Z) : Prop := {
  wf_long : reserved <= Z.of_nat (length (heap l));
  wf_reserved : take 132 (heap l) = initial_heap;
  wf_nodup : NoDup free;
  wf_range : Forall (fun i => reserved <= i < Z.of_nat (length (heap l))) free;
  wf_chain : chain (heap l) (heap_next l) free
}.

(** The table holds exactly the handles of [m], with their values. *)
Definition represents (l : slab) (m : gmap Z jsval) : Prop :=
  exists free, slab_wf l free /\
  forall i v, m !! i = Some v <->
    reserved <= i < Z.of_nat (length (heap l)) /\ i ∉ free /\ array_get (heap l) i = v.

(** ** Lemmas *)

Lemma array_get_set_same a i v : 0 <= i -> array_get (array_set a i v) i = v.
Proof.
  intros Hi. unfold array_get, array_set. destruct (Z.ltb_spec i (Z.of_nat (length a))).
  - by rewrite list_lookup_insert_eq by lia.
  - rewrite lookup_app_r by lia. rewrite lookup_app_r by (rewrite length_replicate; lia).
    rewrite length_replicate. by replace (Z.to_nat i - length a - (Z.to_nat i - length a))%nat with 0%nat by lia.
Qed.

Lemma array_get_set_other a i j v :
  0 <= i < Z.of_nat (length a) -> 0 <= j -> i <> j -> array_get (array_set a i v) j = array_get a j.
Proof.
  intros Hi Hj Hij. unfold array_get, array_set. destruct (Z.ltb_spec i (Z.of_nat (length a))); [|lia].
  by rewrite list_lookup_insert_ne by lia.
Qed.

Lemma array_set_length a i v : i < Z.of_nat (length a) -> length (array_set a i v) = length a.
Proof. intros Hi. unfold array_set. case_match; bool_prop; [apply length_insert | lia]. Qed.

Lemma array_set_take a i v n :
  Z.of_nat n <= i < Z.of_nat (length a) -> take n (array_set a i v) = take n a.
Proof. intros Hi. unfold array_set. case_match; bool_prop; [|lia]. apply take_insert_ge. lia. Qed.

Lemma array_get_snoc a x j : 0 <= j < Z.of_nat (length a) -> array_get (a ++ [x]) j = array_get a j.
Proof. intros Hj. unfold array_get. by rewrite lookup_app_l by lia. Qed.

Lemma array_get_end a x : array_get (a ++ [x]) (Z.of_nat (length a)) = x.
Proof. unfold array_get. rewrite Nat2Z.id. by rewrite list_lookup_middle. Qed.

(** Writing outside the chain keeps it. *)
Lemma chain_set h next free i v :
  chain h next free -> reserved <= i < Z.of_nat (length h) -> i ∉ free ->
  Forall (fun j => reserved <= j) free -> chain (array_set h i v) next free.
Proof.
  unfold reserved. intros Hc Hi Hn Hf. revert next Hc. induction Hf as [|j free Hj Hf IH]; intros next Hc; cbn in *.
  - by rewrite array_set_length by lia.
  - destruct Hc as [-> Hc]. apply not_elem_of_cons in Hn as [Hne Hn]. split; [done|].
    rewrite array_get_set_other by lia. by apply IH.
Qed.

Lemma Forall_impl' {A} (P Q : A -> Prop) l : Forall P l -> (forall x, P x -> Q x) -> Forall Q l.
Proof. intros H HPQ. eapply Forall_impl; eauto. Qed.

Lemma initial_represents : represents initial_slab ∅.
Proof.
  exists []. split.
  - split; [vm_compute; discriminate | reflexivity | constructor | constructor | reflexivity].
  - intros i v. rewrite lookup_empty. split; [discriminate|]. intros (Hi & _).
    change (Z.of_nat (length (heap initial_slab))) with 132 in Hi. unfold reserved in Hi. lia.
Qed.

(** A reserved slot keeps its value. *)
Lemma get_reserved l m i : represents l m -> 0 <= i < reserved -> getObject l i = array_get initial_heap i.
Proof.
  intros (free & Hwf & _) Hi. unfold reserved in Hi. unfold getObject, array_get.
  rewrite <- (wf_reserved _ _ Hwf). by rewrite lookup_take_lt by lia.
Qed.

Lemma get_live l m i v : represents l m -> m !! i = Some v -> getObject l i = v.
Proof. intros (free & Hwf & Hm) H. apply Hm in H. unfold getObject. tauto. Qed.

Lemma live_not_reserved l m i v : represents l m -> m !! i = Some v -> reserved <= i.
Proof. intros (free & Hwf & Hm) H. apply Hm in H. lia. Qed.

(** Allocation: a handle that was not in use, and nothing else changes. *)
Lemma add_spec l m obj :
  represents l m ->
  exists i l', addHeapObject l obj = Some (i, l') /\ m !! i = None /\ reserved <= i
    /\ represents l' (<[i := obj]> m)
    /\ length (heap l') = if bool_decide (heap_next l = Num (Z.of_nat (length (heap l)))) then S (length (heap l)) else length (heap l).
Proof.
  intros (free & [Hlong Hres Hnd Hrng Hch] & Hm). unfold reserved in *. unfold addHeapObject.
  destruct free as [|i free]; cbn in Hch.
  - rewrite Hch. rewrite bool_decide_eq_true_2 by done. rewrite (proj2 (Z.leb_le _ _)) by lia.
    set (n := Z.of_nat (length (heap l))) in *.
    assert (Hlen : Z.of_nat (length (heap l ++ [Num (n + 1)])) = n + 1) by (rewrite length_app; cbn; lia).
    eexists n, _. split; [done|]. repeat split.
    + destruct (m !! n) eqn:E; [|done]. apply Hm in E. lia.
    + lia.
    + exists []. split; [split; cbn|].
      * rewrite array_set_length by lia. unfold reserved. lia.
      * rewrite array_set_take by lia. rewrite take_app_le by lia. done.
      * constructor.
      * constructor.
      * rewrite array_set_length by lia. rewrite Hlen. apply array_get_end.
      * intros j v. cbn [heap]. rewrite array_set_length, Hlen by lia. unfold reserved.
        destruct (decide (j = n)) as [->|Hne].
        -- rewrite lookup_insert_eq, array_get_set_same by lia. split; [|naive_solver].
           intros [= ->]. split_and!; [lia|lia|set_solver|done].
        -- rewrite lookup_insert_ne by done. rewrite Hm. split.
           ++ intros (Hj & Hf & Hv). rewrite array_get_set_other, array_get_snoc by lia. split_and!; [lia|lia|set_solver|done].
           ++ intros (Hj & Hf & Hv). rewrite array_get_set_other, array_get_snoc in Hv by lia. split_and!; [lia|lia|set_solver|done].
    + cbn [heap]. rewrite array_set_length by lia. rewrite length_app. cbn. lia.
  - destruct Hch as [Hnext Hch]. rewrite Hnext. inv Hnd. inv Hrng.
    rewrite bool_decide_eq_false_2 by (intros [= ?]; lia). rewrite (proj2 (Z.leb_le _ _)) by lia.
    eexists i, _. split; [done|]. repeat split.
    + destruct (m !! i) eqn:E; [|done]. apply Hm in E. set_solver.
    + lia.
    + exists free. split; [split; cbn|].
      * rewrite array_set_length by lia. unfold reserved. lia.
      * rewrite array_set_take by lia. done.
      * done.
      * by rewrite array_set_length by lia.
      * apply chain_set; [done|unfold reserved; lia|done|]. eapply Forall_impl'; [done|]. unfold reserved. cbn. lia.
      * intros j v. cbn [heap]. rewrite array_set_length by lia. unfold reserved.
        destruct (decide (j = i)) as [->|Hne].
        -- rewrite lookup_insert_eq, array_get_set_same by lia. naive_solver.
        -- rewrite lookup_insert_ne by done. rewrite Hm. split.
           ++ intros (Hj & Hf & Hv). rewrite array_get_set_other by lia. set_solver.
           ++ intros (Hj & Hf & Hv). rewrite array_get_set_other in Hv by lia. set_solver.
    + cbn [heap]. by rewrite array_set_length by lia.
Qed.

(** Release: the handle is free again, and nothing else changes. *)
Lemma drop_spec l m i v :
  represents l m -> m !! i = Some v ->
  represents (dropObject l i) (delete i m) /\ length (heap (dropObject l i)) = length (heap l).
Proof.
  intros (free & [Hlong Hres Hnd Hrng Hch] & Hm) Hi. pose proof (proj1 (Hm i v) Hi) as (Hr & Hf & Hv).
  unfold dropObject, reserved in *. destruct (Z.ltb_spec i 132); [lia|]. cbn [heap].
  rewrite array_set_length by lia. split; [|done]. exists (i :: free). split; [split; cbn|].
  - rewrite array_set_length by lia. done.
  - rewrite array_set_take by lia. done.
  - by constructor.
  - rewrite array_set_length by lia. constructor; [unfold reserved; lia|done].
  - split; [done|]. rewrite array_get_set_same by lia.
    apply chain_set; [done|unfold reserved; lia|done|]. eapply Forall_impl'; [done|]. unfold reserved. cbn. lia.
  - intros j w. cbn [heap]. rewrite array_set_length by lia. unfold reserved. destruct (decide (j = i)) as [->|Hne].
    + rewrite lookup_delete_eq. split; [done|]. set_solver.
    + rewrite lookup_delete_ne by done. rewrite Hm. rewrite not_elem_of_cons.
      split; intros (Hj & Hf' & Hw).
      * rewrite array_get_set_other by lia. naive_solver.
      * rewrite array_get_set_other in Hw by lia. naive_solver.
Qed.

Lemma drop_reserved l i : i < reserved -> dropObject l i = l.
Proof. intros Hi. unfold dropObject, reserved in *. destruct (Z.ltb_spec i 132); [done|lia]. Qed.

(** The slots above the reserved ones are the live handles and the free ones. *)
Lemma represents_dom l m :
  represents l m -> exists free, slab_wf l free /\
    Z.of_nat (length (heap l)) = reserved + Z.of_nat (size m) + Z.of_nat (length free).
Proof.
  intros (free & Hwf & Hm). exists free. split; [done|]. destruct Hwf as [Hlong _ Hnd Hrng _].
  set (all := list_to_set (C:=gset Z) (seqZ reserved (Z.of_nat (length (heap l)) - reserved))).
  assert (Hd : dom m = all ∖ list_to_set free).
  { apply set_eq. intros i. unfold all. rewrite elem_of_difference, !elem_of_list_to_set, elem_of_seqZ, elem_of_dom.
    split.
    - intros [v Hv]. apply Hm in Hv. split; [lia|tauto].
    - intros [Hi Hf]. eexists. apply Hm. split_and!; [lia|lia|done|done]. }
  assert (Hsub : list_to_set free ⊆ all).
  { intros i. unfold all. rewrite !elem_of_list_to_set, elem_of_seqZ. intros Hi.
    rewrite Forall_forall in Hrng. apply Hrng in Hi. lia. }
  rewrite <- size_dom, Hd, size_difference by done.
  unfold all. rewrite !size_list_to_set by (done || apply NoDup_seqZ). rewrite length_seqZ.
  assert (length free <= length (seqZ reserved (Z.of_nat (length (heap l)) - reserved)))%nat.
  { apply subseteq_size in Hsub. unfold all in Hsub. by rewrite !size_list_to_set in Hsub by (done || apply NoDup_seqZ). }
  rewrite length_seqZ in *. lia.
Qed.

(** A slot is appended only when every slot is in use. *)
Lemma full_iff l m :
  represents l m ->
  heap_next l = Num (Z.of_nat (length (heap l))) <-> Z.of_nat (length (heap l)) = reserved + Z.of_nat (size m).
Proof.
  intros H. destruct (represents_dom _ _ H) as (free & [? ? ? Hrng Hch] & Hlen). rewrite Hlen. destruct free as [|i free]; cbn in *.
  - split; intros; [lia|]. rewrite Hch. f_equal. lia.
  - inv Hrng. destruct Hch as [-> _]. split; [|lia]. intros [= ->]. lia.
Qed.

(** ** Histories *)

(** A client of the table: it adds values and takes handles back. *)
Inductive slab_op := Add (obj : jsval) | Take (idx : Z).

Definition slab_step (l : slab) (o : slab_op) : option slab :=
  match o with
  | Add obj => option_map snd (addHeapObject l obj)
  | Take idx => Some (dropObject l idx)
  end.

Fixpoint slab_run (l : slab) (ops : list slab_op) : option slab :=
  match ops with [] => Some l | o :: ops' => match slab_step l o with Some l' => slab_run l' ops' | None => None end end.

(** The abstract table: handles in use, with the order in which the free ones are reused left open. *)
Inductive map_step : gmap Z jsval -> slab_op -> gmap Z jsval -> Prop :=
| MapAdd m i obj : m !! i = None -> reserved <= i -> map_step m (Add obj) (<[i := obj]> m)
| MapTake m i v : m !! i = Some v -> map_step m (Take i) (delete i m).

Inductive map_run : gmap Z jsval -> list slab_op -> nat -> gmap Z jsval -> Prop :=
| MapDone m : map_run m [] (size m) m
| MapStep m o m' ops peak m'' : map_step m o m' -> map_run m' ops peak m'' -> map_run m (o :: ops) (Nat.max (size m) peak) m''.

(** The handles a client takes back are in use; [client_ok l ops] runs the table to know which. *)
Fixpoint client_ok (l : slab) (m : gmap Z jsval) (ops : list slab_op) : bool :=
  match ops with
  | [] => true
  | Add obj :: ops' => match addHeapObject l obj with Some (i, l') => client_ok l' (<[i := obj]> m) ops' | None => false end
  | Take i :: ops' => match m !! i with Some _ => client_ok (dropObject l i) (delete i m) ops' | None => false end
  end.

Lemma history_spec ops l m :
  represents l m -> client_ok l m ops = true ->
  exists l' m' peak, slab_run l ops = Some l' /\ map_run m ops peak m' /\ represents l' m'
    /\ Z.of_nat (length (heap l')) = Z.max (Z.of_nat (length (heap l))) (reserved + Z.of_nat peak).
Proof.
  revert l m. induction ops as [|[obj|i] ops IH]; intros l m Hr Hok.
  - exists l, m, (size m). split; [done|]. split; [constructor|]. split; [done|].
    destruct (represents_dom _ _ Hr) as (free & _ & ->). lia.
  - pose proof (add_spec l m obj Hr) as (i & l1 & Ha & Hi & Hri & Hr1 & Hl1). cbn in Hok |- *. rewrite Ha in *.
    destruct (IH _ _ Hr1 Hok) as (l' & m' & peak & Hrun & Hmap & Hr' & Hlen). cbn. exists l', m', (Nat.max (size m) peak).
    split; [done|]. split; [econstructor; [by constructor|done]|]. split; [done|]. rewrite Hlen.
    assert (Hpk : (S (size m) <= peak)%nat).
    { clear - Hmap Hi. inv Hmap; rewrite map_size_insert_None in *; try done; lia. }
    pose proof (full_iff _ _ Hr) as Hf. destruct (represents_dom _ _ Hr) as (free & _ & Hsz).
    case_bool_decide as Hb; [apply Hf in Hb|]; lia.
  - cbn in Hok |- *. destruct (m !! i) as [v|] eqn:Hi; [|done].
    destruct (drop_spec _ _ _ _ Hr Hi) as [Hr1 Hl1].
    destruct (IH _ _ Hr1 Hok) as (l' & m' & peak & Hrun & Hmap & Hr' & Hlen). exists l', m', (Nat.max (size m) peak).
    split; [done|]. split; [econstructor; [by econstructor|done]|]. split; [done|]. rewrite Hlen, Hl1.
    destruct (represents_dom _ _ Hr) as (free & _ & Hsz). lia.
Qed.

(** The object table refines a finite map from handles to values: adding gives a handle not in use, taking
    a handle back releases exactly it, every other handle keeps its value, and over a whole
    history the array never grows beyond the largest number of handles in use at one time. *)
Theorem heap_refines_map (ops : list slab_op) :
  client_ok initial_slab ∅ ops = true ->
  exists l m peak, slab_run initial_slab ops = Some l /\ map_run ∅ ops peak m /\ represents l m
    /\ (forall i v, m !! i = Some v -> takeObject l i = (v, dropObject l i))
    /\ Z.of_nat (length (heap l)) = reserved + Z.of_nat peak.
Proof.
  intros Hok. destruct (history_spec ops _ _ initial_represents Hok) as (l & m & peak & ? & ? & Hr & Hlen).
  exists l, m, peak. split_and!; [done|done|done| |].
  - intros i v Hv. unfold takeObject. by erewrite get_live.
  - rewrite Hlen. change (Z.of_nat (length (heap initial_slab))) with reserved. lia.
Qed.

Definition sample_history : list slab_op :=
  [Add (Ref 1); Add (Ref 2); Take 132; Add (Str [65]); Take 133; Take 132; Add Null].

Theorem heap_refines_map_witness :
  exists l m peak, slab_run initial_slab sample_history = Some l /\ map_run ∅ sample_history peak m /\ represents l m
    /\ (forall i v, m !! i = Some v -> takeObject l i = (v, dropObject l i))
    /\ Z.of_nat (length (heap l)) = reserved + Z.of_nat peak.
Proof. apply (heap_refines_map sample_history). reflexivity. Defined.

(** A handle taken back twice: the free list then names the slot twice, so two values that are added afterwards get
    the same handle and the first of them is lost. *)
Theorem double_take_aliases (l : slab) (m : gmap Z jsval) (i : Z) (v a b : jsval) :
  represents l m -> m !! i = Some v ->
  exists l1 l2, addHeapObject (dropObject (dropObject l i) i) a = Some (i, l1)
    /\ addHeapObject l1 b = Some (i, l2) /\ getObject l2 i = b.
Proof.
  intros Hr Hi. pose proof (live_not_reserved _ _ _ _ Hr Hi) as Hres. destruct Hr as (free & [Hlong _ _ _ _] & Hm).
  apply Hm in Hi as (Hi & _). unfold dropObject, reserved in *.
  destruct (Z.ltb_spec i 132); [lia|]. cbn. unfold addHeapObject. cbn.
  rewrite !array_set_length by (rewrite ?array_set_length by lia; lia).
  rewrite bool_decide_eq_false_2 by (intros [= ?]; lia). rewrite (proj2 (Z.leb_le _ _)) by lia.
  rewrite array_get_set_same by lia. eexists _, _. split; [done|]. cbn [heap heap_next].
  rewrite !array_set_length by (rewrite ?array_set_length by (rewrite ?array_set_length by lia; lia); lia).
  rewrite bool_decide_eq_false_2 by (intros [= ?]; lia). rewrite (proj2 (Z.leb_le _ _)) by lia.
  split; [done|]. unfold getObject. cbn [heap]. apply array_get_set_same. lia.
Qed.

Theorem double_take_witness :
  exists l1 l2, addHeapObject (dropObject (dropObject (snd (default (0, initial_slab) (addHeapObject initial_slab (Ref 1)))) 132) 132) (Ref 2) = Some (132, l1)
    /\ addHeapObject l1 (Ref 3) = Some (132, l2) /\ getObject l2 132 = Ref 3.
Proof.
  destruct (add_spec _ _ (Ref 1) initial_represents) as (i & l' & E & _ & _ & Hr & _).
  assert (i = 132 /\ l' = snd (default (0, initial_slab) (addHeapObject initial_slab (Ref 1)))) as [-> ->].
  { rewrite E. vm_compute in E. by inv E. }
  apply (double_take_aliases _ _ _ (Ref 1) (Ref 2) (Ref 3) Hr). apply lookup_insert_eq.
Defined.
