(* ===== verification/OpusShell.v ===== *)
(** * The shell of the Opus module
      ([integrations/lan-remote-access/rustdesk-web-open/libopus.js], the start and the end of the script)

    What the script makes of its environment before it starts ([Environment]), what it
    accepts from the page ([Options]), and what it puts into the module object for the
    page ([Exports]).  Texts of errors are those of the source. *)

From stdpp Require Import base list numbers strings gmap.
From Stdlib Require Import ZArith Lia.
From S2P Require Import Prelude JsString OpusText OpusLoad OpusCxx OpusRuntime.
Local Open Scope Z_scope.

(** ** Environment *)

Module Environment.

(** What the globals are. *)
Record globals := {
  window_object : bool;
  importScripts_function : bool;
  process_object : bool;
  versions_node : bool;                    (* [process.versions.node] is a string *)
  require_function : bool;
  location_href : jsstr;                   (* [self.location.href] *)
  currentScript_src : option jsstr;        (* [document.currentScript.src] *)
  dirname : jsstr;                         (* [__dirname] *)
  process_argv : list jsstr;
  scriptArgs : option (list jsstr);
  arguments : option (list jsstr)
}.

Section Detect.
Variable g : globals.

Definition ENVIRONMENT_IS_WEB : bool := window_object g.
Definition ENVIRONMENT_IS_WORKER : bool := importScripts_function g.
Definition ENVIRONMENT_IS_NODE : bool := process_object g && versions_node g.
Definition ENVIRONMENT_IS_SHELL : bool := negb ENVIRONMENT_IS_WEB && negb ENVIRONMENT_IS_NODE && negb ENVIRONMENT_IS_WORKER.

Definition not_compiled : jserror := ErrorMsg (js "not compiled for this environment (did you build to HTML and try to run it not on the web, or set ENVIRONMENT to something - like node - and run it someplace else - like on the web?)").

(** How [quit_] ends a program. *)
Inductive quit_kind := QuitThrows | QuitNode | QuitShell | QuitPage.

Record shell := {
  scriptDirectory : jsstr;
  thisProgram : jsstr;
  arguments_ : list jsstr;
  quit_kind_of : quit_kind;
  has_readBinary : bool;
  has_setWindowTitle : bool
}.

Definition default_shell : shell :=
  {| scriptDirectory := []; thisProgram := js "./this.program"; arguments_ := []; quit_kind_of := QuitThrows; has_readBinary := false; has_setWindowTitle := false |}.

(** The branch for node: the directory of the script, the program and its arguments. *)
Definition node_directory : jsstr := if ENVIRONMENT_IS_WORKER then js "./" else dirname g ++ js "/".
Definition node_program : jsstr := match process_argv g with _ :: p :: _ => replace_char 92 47 p | _ => thisProgram default_shell end.
Definition node_arguments : list jsstr := drop 2 (process_argv g).

Definition node_shell : result shell :=
  if negb (process_object g && require_function g) then Throw not_compiled
  else Ok {| scriptDirectory := node_directory; thisProgram := node_program; arguments_ := node_arguments; quit_kind_of := QuitNode;
             has_readBinary := true; has_setWindowTitle := false |}.

(** The branch for a shell; [quit_function] is whether [quit] is a function. *)
Definition js_shell (quit_function : bool) : result shell :=
  if (process_object g && require_function g) || window_object g || importScripts_function g then Throw not_compiled
  else Ok {| scriptDirectory := []; thisProgram := thisProgram default_shell;
             arguments_ := match scriptArgs g with Some a => a | None => match arguments g with Some a => a | None => [] end end;
             quit_kind_of := if quit_function then QuitShell else QuitThrows; has_readBinary := true; has_setWindowTitle := false |}.

(** The branch for a page or a worker. *)
Definition web_shell : result shell :=
  let href := if ENVIRONMENT_IS_WORKER then location_href g
              else match currentScript_src g with Some s => s | None => [] end in
  if negb (window_object g || importScripts_function g) then Throw not_compiled
  else Ok {| scriptDirectory := script_directory href; thisProgram := thisProgram default_shell; arguments_ := [];
             quit_kind_of := QuitThrows; has_readBinary := ENVIRONMENT_IS_WORKER; has_setWindowTitle := true |}.

Definition detect (quit_function : bool) : result shell :=
  if ENVIRONMENT_IS_NODE then node_shell
  else if ENVIRONMENT_IS_SHELL then js_shell quit_function
  else if ENVIRONMENT_IS_WEB || ENVIRONMENT_IS_WORKER then web_shell
  else Throw (ErrorMsg (js "environment detection error")).

(** [Module.arguments], [Module.thisProgram] and [Module.quit], when they are truthy. *)
Definition override (m_arguments : option (list jsstr)) (m_thisProgram : option jsstr) (m_quit : bool) (s : shell) : shell :=
  {| scriptDirectory := scriptDirectory s;
     thisProgram := match m_thisProgram with Some (c :: p) => c :: p | _ => thisProgram s end;
     arguments_ := match m_arguments with Some a => a | None => arguments_ s end;
     quit_kind_of := if m_quit then QuitPage else quit_kind_of s;
     has_readBinary := has_readBinary s; has_setWindowTitle := has_setWindowTitle s |}.

(** The last check of the shell: a build for the web and node only. *)
Definition not_enabled : bool := ENVIRONMENT_IS_SHELL.

(** [Module.ENVIRONMENT], when it is truthy, ends the script first. *)
Definition deprecated : jserror := ErrorMsg (js "Module.ENVIRONMENT has been deprecated. To force the environment, use the ENVIRONMENT compile-time option (for example, -s ENVIRONMENT=web or -s ENVIRONMENT=node)").

Definition environment (m_ENVIRONMENT quit_function : bool) (m_arguments : option (list jsstr)) (m_thisProgram : option jsstr) (m_quit : bool) : result shell :=
  if m_ENVIRONMENT then Throw deprecated else
  rbind (detect quit_function) (fun s =>
  if not_enabled then Throw OpusText.aborted else Ok (override m_arguments m_thisProgram m_quit s)).
End Detect.

(** ** Ending and reading *)

(** What ending does: an exception for the caller, or the end of the process. *)
Inductive ending := Throws (e : thrown) (exitCode : option Z) | Exits (code : Z) | Calls (status : Z).

Definition is_exit_status (e : thrown) : bool := match e with ExitStatus _ => true | _ => false end.

(** [quit_] of each kind, and whether it printed what it was given.  For a page's own [quit] it is the page's. *)
Definition quit_with (k : quit_kind) (keepRuntimeAlive : bool) (status : Z) (toThrow : thrown) : ending * bool :=
  match k with
  | QuitThrows => (Throws toThrow None, false)
  | QuitNode => if keepRuntimeAlive then (Throws toThrow (Some status), false) else (Exits status, negb (is_exit_status toThrow))
  | QuitShell => (Exits status, negb (is_exit_status toThrow))
  | QuitPage => (Calls status, false)
  end.

(** [logExceptionOnExit]; [text] is the text of the exception, and [trace] its stack where it is an object that has
    one.  The end of the program as such is not reported. *)
Definition logExceptionOnExit (e : thrown) (text : jsstr) (trace : option jsstr) : option jsstr :=
  if is_exit_status e then None
  else Some (js "exiting due to exception: " ++ match trace with Some t => text ++ js "," ++ t | None => text end).

(** [readAsync] of the web: what the answer of a request leads to.  [None] is an error of the network. *)
Inductive read_outcome := OnLoad (data : list Z) | OnError.

Definition readAsync_answer (answer : option (Z * option (list Z))) : read_outcome :=
  match answer with
  | Some (status, response) =>
      if (status =? 200) || (status =? 0) && bool_decide (is_Some response)
      then OnLoad (default [] response)       (* a missing body is [null], which becomes an array without elements *)
      else OnError
  | None => OnError
  end.

(** [readBinary] of a worker does not look at the status. *)
Definition readBinary_answer (answer : option (Z * option (list Z))) : result (list Z) :=
  match answer with
  | Some (_, response) => Ok (default [] response)
  | None => Throw (PlatformError "NetworkError")
  end.

(** [read_] of the web does not look at it either. *)
Definition read_answer (answer : option (Z * jsstr)) : result jsstr :=
  match answer with
  | Some (_, responseText) => Ok responseText
  | None => Throw (PlatformError "NetworkError")
  end.

(** The readers of node, over [path.normalize] and [fs]; [decode] makes text of the bytes. *)
Section Node.
Variable normalize : jsstr -> jsstr.
Variable readFile : jsstr -> result (list Z).
Variable decode : list Z -> jsstr.

Definition node_read (filename : jsstr) : result jsstr := rmap decode (readFile (normalize filename)).
Definition node_readBinary (filename : jsstr) : result (list Z) := readFile (normalize filename).
Definition node_readAsync (filename : jsstr) : read_outcome :=
  match readFile (normalize filename) with Ok data => OnLoad data | Throw _ => OnError end.
End Node.

(** The readers of a shell: [readbuffer] where there is one, else [read]; the asynchronous one reads in a timer and never
    calls [onerror]. *)
Definition shell_readBinary (readbuffer : option (jsstr -> result (list Z))) (read : jsstr -> result (option (list Z))) (f : jsstr) : result (list Z) :=
  match readbuffer with
  | Some rb => rb f
  | None => rbind (read f) (fun data => match data with Some d => Ok d | None => Throw OpusText.aborted end)
  end.
Definition shell_readAsync (readbuffer : option (jsstr -> result (list Z))) (read : jsstr -> result (option (list Z))) (f : jsstr) : result read_outcome :=
  rmap OnLoad (shell_readBinary readbuffer read f).

(** Exceptions that reach node: the end of the program is not one. *)
Definition on_uncaught (e : thrown) : option thrown := if is_exit_status e then None else Some e.

(** [getRandomDevice]: where a random byte comes from. *)
Inductive random_source := BrowserBytes | NodeBytes | NoBytes.
Definition getRandomDevice (getRandomValues node require_crypto : bool) : random_source :=
  if getRandomValues then BrowserBytes else if node && require_crypto then NodeBytes else NoBytes.

(** ** Traces *)

(** [/\b_Z[\w\d_]+/]: whether a mangled name begins in a text, after a character that is part of a word or not. *)
Fixpoint has_mangled (in_word : bool) (s : jsstr) : bool :=
  match s with
  | [] => false
  | c :: s' =>
      (negb in_word && (c =? 95) && match s' with z :: w :: _ => (z =? 90) && is_word w | _ => false end)
      || has_mangled (is_word c) s'
  end.

Definition demangle_warning : jsstr := js "warning: build with  -s DEMANGLE_SUPPORT=1  to link in libcxxabi demangling".

(** [demangle] returns its argument, so that [demangleAll] puts every name back as it was. *)
Definition demangle (func : jsstr) (s : list jsstr * list jsstr) : jsstr * (list jsstr * list jsstr) := (func, warnOnce demangle_warning s).
Definition demangleAll (text : jsstr) (s : list jsstr * list jsstr) : jsstr * (list jsstr * list jsstr) :=
  (text, if has_mangled false text then snd (demangle [] s) else s).

(** [jsStackTrace]: the stack of a new error, or of one that was thrown. *)
Definition jsStackTrace (fresh caught : option jsstr) : jsstr :=
  match fresh with Some t => t | None => match caught with Some t => t | None => js "(no stack trace available)" end end.

Definition stackTrace (fresh caught extraStackTrace : option jsstr) (s : list jsstr * list jsstr) : jsstr * (list jsstr * list jsstr) :=
  demangleAll (jsStackTrace fresh caught ++ match extraStackTrace with Some t => 10 :: t | None => [] end) s.

(** ** Properties *)

(** The environments the script runs in: node with [require], and, without node, pages and workers.  A shell is refused,
    and the last error of the chain cannot occur. *)
Theorem environment_spec (g : globals) (quit_function : bool) a p q :
  is_ok (environment g false quit_function a p q)
  = if ENVIRONMENT_IS_NODE g then require_function g else window_object g || importScripts_function g.
Proof.
  unfold environment, detect, node_shell, js_shell, web_shell, not_enabled, ENVIRONMENT_IS_SHELL, ENVIRONMENT_IS_NODE, ENVIRONMENT_IS_WEB, ENVIRONMENT_IS_WORKER.
  by destruct (process_object g), (versions_node g), (require_function g), (window_object g), (importScripts_function g).
Qed.

Theorem detection_complete (g : globals) (quit_function : bool) : detect g quit_function <> Throw (ErrorMsg (js "environment detection error")).
Proof.
  unfold detect, node_shell, js_shell, web_shell, ENVIRONMENT_IS_SHELL, ENVIRONMENT_IS_NODE, ENVIRONMENT_IS_WEB, ENVIRONMENT_IS_WORKER.
  destruct (process_object g), (versions_node g), (require_function g), (window_object g), (importScripts_function g); try done; vm_compute; discriminate.
Qed.

(** The runtime is kept alive whatever [Module.noExitRuntime] says, so under node too ending a program only throws. *)
Theorem node_never_exits (setting : bool) (counter status : Z) (e : thrown) :
  quit_with QuitNode (keepRuntimeAlive setting counter) status e = (Throws e (Some status), false).
Proof. unfold keepRuntimeAlive, noExitRuntime. by destruct setting. Qed.

(** A worker takes the page of an error for the module; the asynchronous reader does not. *)
Theorem missing_module_read (page : list Z) :
  readBinary_answer (Some (404, Some page)) = Ok page /\ readAsync_answer (Some (404, Some page)) = OnError.
Proof. by split. Qed.

Example mangled_found : has_mangled false (js "at _Z3foov (x)") = true /\ has_mangled false (js "at x_Z3foov") = false /\ has_mangled false (js "_Z") = false.
Proof. vm_compute. auto. Qed.

End Environment.

(** ** What the page may give *)

Module Options.

(** A property of the module object as the page made it. *)
Inductive property := Absent | Undefined | Given.
Definition options := jsstr -> property.

Definition is_given (p : property) : bool := match p with Given => true | _ => false end.
Definition is_own (p : property) : bool := match p with Absent => false | _ => true end.

(** Options that earlier versions had, with what to do instead. *)
Definition removed : list (jsstr * jsstr) := map (fun p => (js (fst p), js (snd p))) [
  ("memoryInitializerPrefixURL", "Module.memoryInitializerPrefixURL option was removed, use Module.locateFile instead");
  ("pthreadMainPrefixURL", "Module.pthreadMainPrefixURL option was removed, use Module.locateFile instead");
  ("cdInitializerPrefixURL", "Module.cdInitializerPrefixURL option was removed, use Module.locateFile instead");
  ("filePackagePrefixURL", "Module.filePackagePrefixURL option was removed, use Module.locateFile instead");
  ("read", "Module.read option was removed (modify read_ in JS)");
  ("readAsync", "Module.readAsync option was removed (modify readAsync in JS)");
  ("readBinary", "Module.readBinary option was removed (modify readBinary in JS)");
  ("setWindowTitle", "Module.setWindowTitle option was removed (modify setWindowTitle in JS)");
  ("TOTAL_MEMORY", "Module.TOTAL_MEMORY has been renamed Module.INITIAL_MEMORY")]%string.

(** [assert]: the text of the first that is given. *)
Fixpoint check_removed (l : list (jsstr * jsstr)) (o : options) : option jsstr :=
  match l with
  | [] => None
  | (name, text) :: l => if is_given (o name) then Some (js "Assertion failed: " ++ text) else check_removed l o
  end.

(** Properties that are read once; a getter guards them afterwards when the page did not define them. *)
Definition guarded_shell : list (jsstr * jsstr) := map (fun p => (js (fst p), js (snd p))) [
  ("arguments", "arguments_"); ("thisProgram", "thisProgram"); ("quit", "quit_"); ("read", "read_"); ("readAsync", "readAsync");
  ("readBinary", "readBinary"); ("setWindowTitle", "setWindowTitle")]%string.
Definition guarded_preamble : list (jsstr * jsstr) := map (fun p => (js (fst p), js (snd p))) [
  ("wasmBinary", "wasmBinary"); ("noExitRuntime", "noExitRuntime"); ("INITIAL_MEMORY", "INITIAL_MEMORY")]%string.

Definition replaced_text (name loc : jsstr) : jsstr :=
  js "Module." ++ name ++ js " has been replaced with plain " ++ loc
  ++ js " (the initial value can be provided on Module, but after startup the value is only looked for on a local variable of that name)".

(** Reading a property after the script has run: what the page gave, or the text of [abort]. *)
Fixpoint guard (l : list (jsstr * jsstr)) (o : options) (name : jsstr) : property + jsstr :=
  match l with
  | [] => inl (o name)
  | (n, loc) :: l => if str_eqb n name && negb (is_own (o n)) then inr (replaced_text n loc) else guard l o name
  end.
Definition read_property (o : options) (name : jsstr) : property + jsstr := guard (guarded_shell ++ guarded_preamble) o name.

(** The sizes of stack and memory: zero and [undefined] mean the built-in value. *)
Definition TOTAL_STACK : Z := 5242880.
Definition check_memory (module_stack module_memory : option Z) (module_wasmMemory : bool) : result Z :=
  let memory := match module_memory with Some 0 | None => 16777216 | Some m => m end in
  if match module_stack with Some 0 | None => false | Some s => negb (s =? TOTAL_STACK) end then Throw OpusText.aborted
  else if memory <? TOTAL_STACK then Throw OpusText.aborted
  else if module_wasmMemory then Throw OpusText.aborted
  else if negb (memory =? 16777216) then Throw OpusText.aborted
  else Ok memory.

(** The page cannot choose the size of the memory. *)
Theorem check_memory_spec s m w memory : check_memory s m w = Ok memory -> memory = 16777216 /\ w = false.
Proof. unfold check_memory. repeat case_match; try done; intros [= <-]; bool_prop; done. Qed.

(** A script that starts was given none of the removed options. *)
Theorem check_removed_spec l o : check_removed l o = None <-> Forall (fun p => is_given (o p.1) = false) l.
Proof.
  induction l as [|[name text] l IH]; cbn; [done|]. destruct (is_given (o name)) eqn:E.
  - split; [done|]. intros H%Forall_cons. cbn in H. destruct H. congruence.
  - rewrite IH, Forall_cons. cbn. tauto.
Qed.

(** Reading a guarded property that the page did not define ends the program; every other property is what the page made it. *)
Theorem read_property_spec (o : options) (name : jsstr) :
  match read_property o name with
  | inl p => p = o name /\ (o name = Absent -> forall loc, ~ In (name, loc) (guarded_shell ++ guarded_preamble))
  | inr text => o name = Absent /\ exists loc, In (name, loc) (guarded_shell ++ guarded_preamble) /\ text = replaced_text name loc
  end.
Proof.
  unfold read_property. generalize (guarded_shell ++ guarded_preamble). intros l. induction l as [|[n loc] l IH]; cbn [guard]; [split; [done|by intros _ ? []]|].
  unfold str_eqb. destruct (bool_decide (n = name)) eqn:E; [apply bool_decide_eq_true in E; subst n|apply bool_decide_eq_false in E]; cbn [andb].
  - destruct (o name) eqn:Eo; cbn [is_own negb]; [split; [done|]; exists loc; split; [by left|done]|..]; (destruct (guard l o name); destruct IH as [IH1 _]; [by split|done]).
  - destruct (guard l o name).
    + destruct IH as [-> IH]. split; [done|]. intros Ha loc' [[= ? _]|Hin]; [done|]. by eapply IH.
    + destruct IH as [H (loc' & Hin & Ht)]. split; [done|]. exists loc'. split; [by right|done].
Qed.

End Options.

(** ** The module object *)

Module Exports.

(** What a name of the module object stands for. *)
Inductive member :=
| FromPage
| Wrapper (name : jsstr)                 (* [createExportWrapper(name)] *)
| Direct (name : jsstr)                  (* replaces itself by the function of the module when it is called *)
| Unexported (fs : bool)                 (* a function that only aborts *)
| UnexportedConstant                     (* a getter that aborts *)
| ScriptFunction.

Abbreviation object := (gmap jsstr member).

(** The functions of the module, by the name in the object and the name in the module. *)
Definition wrapped : list (jsstr * jsstr) := map (fun p => (js (fst p), js (snd p))) [
  ("___wasm_call_ctors", "__wasm_call_ctors"); ("_Encoder_new", "Encoder_new");
   ("_Encoder_delete", "Encoder_delete"); ("_Encoder_input", "Encoder_input");
   ("_Encoder_output", "Encoder_output"); ("_Decoder_new", "Decoder_new");
   ("_Decoder_delete", "Decoder_delete"); ("_Decoder_input", "Decoder_input");
   ("_Decoder_output", "Decoder_output"); ("_String_size", "String_size"); ("_String_new", "String_new");
   ("_String_data", "String_data"); ("_String_delete", "String_delete");
   ("_Int16Array_size", "Int16Array_size"); ("_Int16Array_new", "Int16Array_new");
   ("_Int16Array_data", "Int16Array_data"); ("_Int16Array_delete", "Int16Array_delete"); ("_malloc", "malloc");
   ("_free", "free"); ("___errno_location", "__errno_location"); ("_fflush", "fflush");
   ("stackSave", "stackSave"); ("stackRestore", "stackRestore"); ("stackAlloc", "stackAlloc");
   ("dynCall_viijii", "dynCall_viijii"); ("dynCall_jiji", "dynCall_jiji");
   ("dynCall_iiiiij", "dynCall_iiiiij"); ("dynCall_iiiiijj", "dynCall_iiiiijj");
   ("dynCall_iiiiiijj", "dynCall_iiiiiijj")]%string.

Definition direct : list (jsstr * jsstr) := map (fun p => (js (fst p), js (snd p))) [
  ("_emscripten_stack_init", "emscripten_stack_init");
   ("_emscripten_stack_get_free", "emscripten_stack_get_free");
   ("_emscripten_stack_get_end", "emscripten_stack_get_end")]%string.

(** Functions of the runtime that this build does not export; [true] where the file system would bring them. *)
Definition unexported1 : list (jsstr * bool) := map (fun p => (js (fst p), snd p)) [
  ("intArrayFromString", false); ("intArrayToString", false); ("ccall", false); ("cwrap", false);
   ("setValue", false); ("getValue", false); ("allocate", false); ("UTF8ArrayToString", false);
   ("UTF8ToString", false); ("stringToUTF8Array", false); ("stringToUTF8", false); ("lengthBytesUTF8", false);
   ("stackTrace", false); ("addOnPreRun", false); ("addOnInit", false); ("addOnPreMain", false);
   ("addOnExit", false); ("addOnPostRun", false); ("writeStringToMemory", false);
   ("writeArrayToMemory", false); ("writeAsciiToMemory", false); ("addRunDependency", true);
   ("removeRunDependency", true); ("FS_createFolder", false); ("FS_createPath", true);
   ("FS_createDataFile", true); ("FS_createPreloadedFile", true); ("FS_createLazyFile", true);
   ("FS_createLink", false); ("FS_createDevice", true); ("FS_unlink", true); ("getLEB", false);
   ("getFunctionTables", false); ("alignFunctionTables", false); ("registerFunctions", false);
   ("addFunction", false); ("removeFunction", false); ("getFuncWrapper", false); ("prettyPrint", false);
   ("dynCall", false); ("getCompilerSetting", false); ("print", false); ("printErr", false);
   ("getTempRet0", false); ("setTempRet0", false); ("callMain", false); ("abort", false);
   ("keepRuntimeAlive", false); ("zeroMemory", false); ("stringToNewUTF8", false); ("setFileTime", false);
   ("abortOnCannotGrowMemory", false); ("emscripten_realloc_buffer", false); ("ENV", false);
   ("withStackSave", false); ("ERRNO_CODES", false); ("ERRNO_MESSAGES", false); ("setErrNo", false);
   ("inetPton4", false); ("inetNtop4", false); ("inetPton6", false); ("inetNtop6", false);
   ("readSockaddr", false); ("writeSockaddr", false); ("DNS", false); ("getHostByName", false);
   ("GAI_ERRNO_MESSAGES", false); ("Protocols", false); ("Sockets", false); ("getRandomDevice", false);
   ("traverseStack", false); ("convertFrameToPC", false); ("UNWIND_CACHE", false);
   ("saveInUnwindCache", false); ("convertPCtoSourceLocation", false); ("readAsmConstArgsArray", false);
   ("readAsmConstArgs", false); ("mainThreadEM_ASM", false); ("jstoi_q", false); ("jstoi_s", false);
   ("getExecutableName", false); ("listenOnce", false); ("autoResumeAudioContext", false);
   ("dynCallLegacy", false); ("getDynCaller", false); ("dynCall", false); ("callRuntimeCallbacks", false);
   ("wasmTableMirror", false); ("setWasmTableEntry", false); ("getWasmTableEntry", false);
   ("handleException", false); ("runtimeKeepalivePush", false); ("runtimeKeepalivePop", false);
   ("callUserCallback", false); ("maybeExit", false); ("safeSetTimeout", false); ("asmjsMangle", false);
   ("asyncLoad", false); ("alignMemory", false); ("mmapAlloc", false); ("reallyNegative", false);
   ("unSign", false); ("reSign", false); ("formatString", false); ("PATH", false); ("PATH_FS", false);
   ("SYSCALLS", false); ("syscallMmap2", false); ("syscallMunmap", false); ("getSocketFromFD", false);
   ("getSocketAddress", false); ("JSEvents", false); ("registerKeyEventCallback", false);
   ("specialHTMLTargets", false); ("maybeCStringToJsString", false); ("findEventTarget", false);
   ("findCanvasEventTarget", false); ("getBoundingClientRect", false); ("fillMouseEventData", false);
   ("registerMouseEventCallback", false); ("registerWheelEventCallback", false);
   ("registerUiEventCallback", false)]%string.

Definition unexported2 : list (jsstr * bool) := map (fun p => (js (fst p), snd p)) [
  ("registerFocusEventCallback", false); ("fillDeviceOrientationEventData", false);
   ("registerDeviceOrientationEventCallback", false); ("fillDeviceMotionEventData", false);
   ("registerDeviceMotionEventCallback", false); ("screenOrientation", false);
   ("fillOrientationChangeEventData", false); ("registerOrientationChangeEventCallback", false);
   ("fillFullscreenChangeEventData", false); ("registerFullscreenChangeEventCallback", false);
   ("registerRestoreOldStyle", false); ("hideEverythingExceptGivenElement", false);
   ("restoreHiddenElements", false); ("setLetterbox", false); ("currentFullscreenStrategy", false);
   ("restoreOldWindowedStyle", false); ("softFullscreenResizeWebGLRenderTarget", false);
   ("doRequestFullscreen", false); ("fillPointerlockChangeEventData", false);
   ("registerPointerlockChangeEventCallback", false); ("registerPointerlockErrorEventCallback", false);
   ("requestPointerLock", false); ("fillVisibilityChangeEventData", false);
   ("registerVisibilityChangeEventCallback", false); ("registerTouchEventCallback", false);
   ("fillGamepadEventData", false); ("registerGamepadEventCallback", false);
   ("registerBeforeUnloadEventCallback", false); ("fillBatteryEventData", false); ("battery", false);
   ("registerBatteryEventCallback", false); ("setCanvasElementSize", false); ("getCanvasElementSize", false);
   ("demangle", false); ("demangleAll", false); ("jsStackTrace", false); ("stackTrace", false);
   ("getEnvStrings", false); ("checkWasiClock", false); ("writeI53ToI64", false);
   ("writeI53ToI64Clamped", false); ("writeI53ToI64Signaling", false); ("writeI53ToU64Clamped", false);
   ("writeI53ToU64Signaling", false); ("readI53FromI64", false); ("readI53FromU64", false);
   ("convertI32PairToI53", false); ("convertU32PairToI53", false); ("setImmediateWrapped", false);
   ("clearImmediateWrapped", false); ("polyfillSetImmediate", false); ("uncaughtExceptionCount", false);
   ("exceptionLast", false); ("exceptionCaught", false); ("ExceptionInfo", false); ("CatchInfo", false);
   ("exception_addRef", false); ("exception_decRef", false); ("Browser", false); ("funcWrappers", false);
   ("getFuncWrapper", false); ("setMainLoop", false); ("wget", false); ("FS", false); ("MEMFS", false);
   ("TTY", false); ("PIPEFS", false); ("SOCKFS", false); ("_setNetworkCallback", false);
   ("tempFixedLengthArray", false); ("miniTempWebGLFloatBuffers", false); ("heapObjectForWebGLType", false);
   ("heapAccessShiftForWebGLHeap", false); ("GL", false); ("emscriptenWebGLGet", false);
   ("computeUnpackAlignedImageSize", false); ("emscriptenWebGLGetTexPixelData", false);
   ("emscriptenWebGLGetUniform", false); ("webglGetUniformLocation", false);
   ("webglPrepareUniformLocationsBeforeFirstUse", false); ("webglGetLeftBracePos", false);
   ("emscriptenWebGLGetVertexAttrib", false); ("writeGLArray", false); ("AL", false); ("SDL_unicode", false);
   ("SDL_ttfContext", false); ("SDL_audio", false); ("SDL", false); ("SDL_gfx", false); ("GLUT", false);
   ("EGL", false); ("GLFW_Window", false); ("GLFW", false); ("GLEW", false); ("IDBStore", false);
   ("runAndAbortIfError", false); ("warnOnce", false); ("stackSave", false); ("stackRestore", false);
   ("stackAlloc", false); ("AsciiToString", false); ("stringToAscii", false); ("UTF16ToString", false);
   ("stringToUTF16", false); ("lengthBytesUTF16", false); ("UTF32ToString", false); ("stringToUTF32", false);
   ("lengthBytesUTF32", false); ("allocateUTF8", false); ("allocateUTF8OnStack", false)]%string.

Definition constants : list jsstr := map js ["ALLOC_NORMAL"; "ALLOC_STACK"]%string.

(** [Module[name] = ...], whatever was there. *)
Definition assign (l : list (jsstr * member)) (m : object) : object := fold_left (fun m p => <[fst p := snd p]> m) l m.

(** [if (!Object.getOwnPropertyDescriptor(Module, name)) ...] *)
Definition define (l : list (jsstr * member)) (m : object) : object :=
  fold_left (fun m p => match m !! fst p with Some _ => m | None => <[fst p := snd p]> m end) l m.

Definition cookies : list (jsstr * member) := [(js "writeStackCookie", ScriptFunction); (js "checkStackCookie", ScriptFunction)].

(** The object after the script has run. *)
Definition install (m : object) : object :=
  let m := assign (map (fun p => (fst p, Wrapper (snd p))) wrapped ++ map (fun p => (fst p, Direct (snd p))) direct) m in
  let m := define (map (fun p => (fst p, Unexported (snd p))) (unexported1 ++ unexported2)) m in
  let m := assign cookies m in
  define (map (fun n => (n, UnexportedConstant)) constants) m.

(** ** Calls *)

Definition before_text (name : jsstr) : jsstr := js "Assertion failed: native function `" ++ name ++ js "` called before runtime initialization".
Definition after_text (name : jsstr) : jsstr :=
  js "Assertion failed: native function `" ++ name ++ js "` called after runtime exit (use NO_EXIT_RUNTIME to keep it alive after main() exits)".
Definition missing_text (name : jsstr) : jsstr := js "Assertion failed: exported native function `" ++ name ++ js "` not found".
Definition unexported_text (name : jsstr) (fs : bool) : jsstr :=
  js "'" ++ name ++ js "' was not exported. add it to EXPORTED_RUNTIME_METHODS (see the FAQ)"
  ++ (if fs then js ". Alternatively, forcing filesystem support (-s FORCE_FILESYSTEM=1) can export this for you" else []).

(** What a call leads to: a function of the module, one of the page or the script, an end, or a TypeError. *)
Inductive called := Native (name : jsstr) | Theirs | Aborts (text : jsstr) | NotCallable.

(** [asm] is what [Module.asm] offers, when the module has been received. *)
Definition createExportWrapper (asm : option (jsstr -> bool)) (runtimeInitialized runtimeExited : bool) (name : jsstr) : called :=
  if negb runtimeInitialized then Aborts (before_text name)
  else if runtimeExited then Aborts (after_text name)
  else match asm with
       | None => NotCallable
       | Some f => if f name then Native name else Aborts (missing_text name)
       end.

Definition call_member (m : object) (asm : option (jsstr -> bool)) (runtimeInitialized runtimeExited : bool) (name : jsstr) : called :=
  match m !! name with
  | None => NotCallable
  | Some FromPage | Some ScriptFunction => Theirs
  | Some (Wrapper n) => createExportWrapper asm runtimeInitialized runtimeExited n
  | Some (Direct n) => match asm with Some f => if f n then Native n else NotCallable | None => NotCallable end
  | Some (Unexported fs) => Aborts (unexported_text name fs)
  | Some UnexportedConstant => Aborts (unexported_text name false)
  end.

(** ** Properties *)

Definition find (x : jsstr) (l : list (jsstr * member)) : option member := option_map (fun r => snd (snd r)) (list_find (fun p => fst p = x) l).
Definition or_else {A} (a b : option A) : option A := match a with Some v => Some v | None => b end.

Lemma assign_lookup l : forall m x, assign l m !! x = or_else (find x (reverse l)) (m !! x).
Proof.
  unfold find. induction l as [|p l IH] using rev_ind; intros m x; [done|]. unfold assign in *. rewrite fold_left_app, reverse_app. cbn [fold_left].
  change (reverse [p]) with [p]. cbn [app list_find]. case_decide as E; [subst; by rewrite lookup_insert_eq|].
  rewrite lookup_insert_ne, IH by done. by destruct (list_find _ (reverse l)) as [[]|].
Qed.

Lemma define_lookup l : forall m x, define l m !! x = or_else (m !! x) (find x l).
Proof.
  unfold find. induction l as [|[n v] l IH]; intros m x; cbn [define fold_left]; [by destruct (m !! x)|]. unfold define in IH. rewrite IH. cbn [fst snd].
  cbn [list_find fst]. destruct (decide (n = x)) as [->|Hne].
  - destruct (m !! x) eqn:E; [by rewrite E|]. by rewrite lookup_insert_eq.
  - destruct (m !! n) eqn:E; [|rewrite lookup_insert_ne by done]; destruct (m !! x); try done; by destruct (list_find _ l) as [[]|].
Qed.

(** What a name stands for in the end, from what the page had put there. *)
Definition assigned : list (jsstr * member) := map (fun p => (fst p, Wrapper (snd p))) wrapped ++ map (fun p => (fst p, Direct (snd p))) direct.
Definition stubs : list (jsstr * member) := map (fun p => (fst p, Unexported (snd p))) (unexported1 ++ unexported2).

Lemma install_lookup m x : install m !! x =
  or_else (or_else (find x (reverse cookies)) (or_else (or_else (find x (reverse assigned)) (m !! x)) (find x stubs)))
          (find x (map (fun n => (n, UnexportedConstant)) constants)).
Proof. unfold install. by rewrite define_lookup, assign_lookup, define_lookup, assign_lookup. Qed.

(** Checked for every name of the lists. *)
Definition stays_wrapped (cookie before : option member) (n : jsstr) : bool :=
  match cookie, before with None, Some (Wrapper n') => str_eqb n' n | _, _ => false end.
Definition stays_stub (cookie before before' stub : option member) : bool :=
  match cookie, before, before', stub with None, None, None, Some (Unexported _) | None, Some _, _, _ => true | _, _, _, _ => false end.

Lemma wrapped_stay : forallb (fun p => stays_wrapped (find p.1 (reverse cookies)) (find p.1 (reverse assigned)) p.2) wrapped = true.
Proof. vm_compute. reflexivity. Qed.
Lemma stubs_stay : forallb (fun p => stays_stub (find p.1 (reverse cookies)) (find p.1 assigned) (find p.1 (reverse assigned)) (find p.1 stubs))
  (unexported1 ++ unexported2) = true.
Proof. vm_compute. reflexivity. Qed.

Lemma wrapped_found x n : In (x, n) wrapped -> stays_wrapped (find x (reverse cookies)) (find x (reverse assigned)) n = true.
Proof. exact (proj1 (forallb_forall _ _) wrapped_stay (x, n)). Qed.
Lemma stub_found x fs : In (x, fs) (unexported1 ++ unexported2) ->
  stays_stub (find x (reverse cookies)) (find x assigned) (find x (reverse assigned)) (find x stubs) = true.
Proof. exact (proj1 (forallb_forall _ _) stubs_stay (x, fs)). Qed.

Lemma wrapped_result ck b n c st k : stays_wrapped ck b n = true -> or_else (or_else ck (or_else (or_else b c) st)) k = Some (Wrapper n).
Proof.
  unfold stays_wrapped. destruct ck; [done|]. destruct b as [[| n' | | | |]|]; try done. unfold str_eqb. by intros ->%bool_decide_eq_true.
Qed.

Lemma stub_result ck b b' st c k : stays_stub ck b b' st = true -> b = None ->
  exists fs, or_else (or_else ck (or_else (or_else b' c) st)) k = Some (match c with Some v => v | None => Unexported fs end).
Proof.
  unfold stays_stub. intros H ->. destruct ck; [done|]. destruct b'; [done|]. destruct st as [[]|]; try done. destruct c; by eexists.
Qed.

Lemma install_wrapped m x n : In (x, n) wrapped -> install m !! x = Some (Wrapper n).
Proof. intros Hin. rewrite install_lookup. by apply wrapped_result, wrapped_found. Qed.

Lemma install_stub m x fs : In (x, fs) (unexported1 ++ unexported2) -> find x assigned = None ->
  exists fs', install m !! x = Some (match m !! x with Some v => v | None => Unexported fs' end).
Proof. intros Hin Ha. rewrite install_lookup. eapply stub_result; [by eapply stub_found|exact Ha]. Qed.

Lemma call_found m asm i e x v : m !! x = Some v -> call_member m asm i e x =
  match v with
  | FromPage | ScriptFunction => Theirs
  | Wrapper n => createExportWrapper asm i e n
  | Direct n => match asm with Some f => if f n then Native n else NotCallable | None => NotCallable end
  | Unexported fs => Aborts (unexported_text x fs)
  | UnexportedConstant => Aborts (unexported_text x false)
  end.
Proof. unfold call_member. by intros ->. Qed.

(** Functions of the module can be called by their name in the object while the runtime runs, whatever the page had put
    there: before and after, the call ends the program, with the name in the text. *)
Theorem exports_callable (m : object) (asm : jsstr -> bool) (runtimeInitialized runtimeExited : bool) (x n : jsstr) :
  In (x, n) wrapped -> asm n = true ->
  call_member (install m) (Some asm) runtimeInitialized runtimeExited x
  = if runtimeInitialized then if runtimeExited then Aborts (after_text n) else Native n else Aborts (before_text n).
Proof.
  intros Hin Ha. rewrite (call_found _ _ _ _ _ _ (install_wrapped m x n Hin)). unfold createExportWrapper. rewrite Ha.
  by destruct runtimeInitialized, runtimeExited.
Qed.

(** A function of the runtime that is not exported ends the program when the page calls it through the object, and the text
    names it; unless the page had a property of that name, which stays. *)
Theorem unexported_aborts (m : object) asm i e (x : jsstr) (fs : bool) :
  In (x, fs) (unexported1 ++ unexported2) -> find x assigned = None ->
  match m !! x with
  | None => exists fs', call_member (install m) asm i e x = Aborts (unexported_text x fs')
  | Some v => install m !! x = Some v
  end.
Proof.
  intros Hin Ha. destruct (install_stub m x fs Hin Ha) as [fs' H]. pose proof (call_found _ asm i e _ _ H) as Hc.
  destruct (m !! x); [exact H|by exists fs'].
Qed.

(** Three names are both exported and listed: they stay exported. *)
Example listed_twice : List.filter (fun p => match find p.1 assigned with Some _ => true | None => false end) (unexported1 ++ unexported2)
  = [(js "stackSave", false); (js "stackRestore", false); (js "stackAlloc", false)].
Proof. vm_compute. reflexivity. Qed.
End Exports.
