(* ===== verification/OgvDemuxer.v ===== *)
(** * The demuxers of ogv.js
      ([integrations/lan-remote-access/rustdesk-web-open/ogvjs-1.8.6/ogv-demuxer-webm-wasm.js], [ogv-demuxer-ogg-wasm.js])

    A demuxer hands bytes of a media file to its WebAssembly module, which calls back
    with packets; they wait in two queues until the player takes them.  Names follow
    the properties of the module object.  What the module does with a call is a
    parameter: the imports it calls, each with the memory at that moment, its answer
    and the memory it leaves. *)

From stdpp Require Import base list numbers strings.
From Stdlib Require Import ZArith Lia SpecFloat.
From S2P Require Import Prelude JsString OpusText OpusMemfs.
Local Open Scope Z_scope.

(** A number that came from the module as a float. *)
Abbreviation number := spec_float.

Definition thousand : number := binary_normalize 53 1024 1000 0 false.
Definition minus_one : number := binary_normalize 53 1024 (-1) 0 false.

Record audio_packet := { a_data : list Z; a_timestamp : number; discardPadding : number }.
Record video_packet := { v_data : list Z; v_timestamp : number; keyframeTimestamp : number; isKeyframe : bool }.

Record video_format := {
  width : Z; height : Z; chromaWidth : Z; chromaHeight : Z;
  cropLeft : Z; cropTop : Z; cropWidth : Z; cropHeight : Z;
  displayWidth : Z; displayHeight : Z; fps : number
}.

(** The functions of the module that the demuxer calls. *)
Inductive export :=
| Init | Malloc (size : Z) | Free (ptr : Z) | Receive_input (ptr size : Z) | Process
| Keypoint_offset (ms : number) | Seek_to_keypoint (ms : number) | Flush | Seekable.

(** The functions of the demuxer that the module calls.  [LoadedMetadata] carries what the module answers when it is
    asked for the duration. *)
Inductive import :=
| AudioPacket (ptr size : Z) (timestamp padding : number)
| VideoPacket (ptr size : Z) (timestamp keyTimestamp : number) (keyframe : Z)
| InitVideo (w h cw ch : Z) (rate : number) (pw ph px py dw dh : Z)
| LoadedMetadata (video audio : Z) (media_duration : number)
| SeekTo (low high : Z)
| FdSeek
| AssertFail (condition filename line func : Z)
| AbortCall.

Class DemuxModule := {
  mstate : Type;
  exec : export -> mstate -> mem -> list (mem * mstate * import) * (result Z * mem * mstate)
}.

(** What happens: calls of the module with the memory they see, packets that arrive and packets that are given away,
    emptied queues, positions asked from the player, lines printed. *)
Inductive happening :=
| Called (x : export) (m : mem)
| Answered (x : export) (r : result Z)
| AudioIn (p : audio_packet) | AudioOut (data : list Z) (padding : number)
| VideoIn (p : video_packet) | VideoOut (data : list Z)
| Cleared
| SeekAsked (position : Z)
| Printed (text : jsstr).

Section Demuxer.
Context `{DemuxModule}.

Record demuxer := {
  memory : mem;
  inner : mstate;
  buffer : Z;                         (* [W], [0] where it is undefined *)
  bufferSize : Z;                     (* [X] *)
  audioPackets : list audio_packet;
  videoPackets : list video_packet;
  loadedMetadata : bool;
  videoCodec : option jsstr;
  audioCodec : option jsstr;
  duration : number;
  videoFormat : option video_format;
  onseek : bool;                      (* whether the player set a handler *)
  aborted : bool;
  log : list happening
}.

Definition new_demuxer (m : mem) (i : mstate) (has_onseek : bool) : demuxer :=
  {| memory := m; inner := i; buffer := 0; bufferSize := 0; audioPackets := []; videoPackets := []; loadedMetadata := false;
     videoCodec := None; audioCodec := None; duration := S754_nan; videoFormat := None; onseek := has_onseek; aborted := false; log := [] |}.

(** ** State and errors *)

Definition D (A : Type) : Type := demuxer -> result A * demuxer.
Definition dret {A} (a : A) : D A := fun s => (Ok a, s).
Definition dbind {A B} (m : D A) (k : A -> D B) : D B :=
  fun s => match m s with (Ok a, s) => k a s | (Throw e, s) => (Throw e, s) end.
Local Notation "'let*' x := m 'in' k" := (dbind m (fun x => k)) (at level 10, x pattern, m at level 100, k at level 200).

Definition upd (f : demuxer -> demuxer) : D unit := fun s => (Ok tt, f s).

Definition note (h : happening) (s : demuxer) : demuxer :=
  {| memory := memory s; inner := inner s; buffer := buffer s; bufferSize := bufferSize s; audioPackets := audioPackets s;
     videoPackets := videoPackets s; loadedMetadata := loadedMetadata s; videoCodec := videoCodec s; audioCodec := audioCodec s;
     duration := duration s; videoFormat := videoFormat s; onseek := onseek s; aborted := aborted s; log := log s ++ [h] |}.

Definition set_module (m : mem) (i : mstate) (s : demuxer) : demuxer :=
  {| memory := m; inner := i; buffer := buffer s; bufferSize := bufferSize s; audioPackets := audioPackets s;
     videoPackets := videoPackets s; loadedMetadata := loadedMetadata s; videoCodec := videoCodec s; audioCodec := audioCodec s;
     duration := duration s; videoFormat := videoFormat s; onseek := onseek s; aborted := aborted s; log := log s |}.

Definition set_buffer (w x : Z) (s : demuxer) : demuxer :=
  {| memory := memory s; inner := inner s; buffer := w; bufferSize := x; audioPackets := audioPackets s;
     videoPackets := videoPackets s; loadedMetadata := loadedMetadata s; videoCodec := videoCodec s; audioCodec := audioCodec s;
     duration := duration s; videoFormat := videoFormat s; onseek := onseek s; aborted := aborted s; log := log s |}.

Definition set_queues (a : list audio_packet) (v : list video_packet) (s : demuxer) : demuxer :=
  {| memory := memory s; inner := inner s; buffer := buffer s; bufferSize := bufferSize s; audioPackets := a;
     videoPackets := v; loadedMetadata := loadedMetadata s; videoCodec := videoCodec s; audioCodec := audioCodec s;
     duration := duration s; videoFormat := videoFormat s; onseek := onseek s; aborted := aborted s; log := log s |}.

Definition set_metadata (v a : option jsstr) (d : number) (loaded : bool) (s : demuxer) : demuxer :=
  {| memory := memory s; inner := inner s; buffer := buffer s; bufferSize := bufferSize s; audioPackets := audioPackets s;
     videoPackets := videoPackets s; loadedMetadata := loaded; videoCodec := v; audioCodec := a;
     duration := d; videoFormat := videoFormat s; onseek := onseek s; aborted := aborted s; log := log s |}.

Definition set_format (f : video_format) (s : demuxer) : demuxer :=
  {| memory := memory s; inner := inner s; buffer := buffer s; bufferSize := bufferSize s; audioPackets := audioPackets s;
     videoPackets := videoPackets s; loadedMetadata := loadedMetadata s; videoCodec := videoCodec s; audioCodec := audioCodec s;
     duration := duration s; videoFormat := Some f; onseek := onseek s; aborted := aborted s; log := log s |}.

Definition set_aborted (s : demuxer) : demuxer :=
  {| memory := memory s; inner := inner s; buffer := buffer s; bufferSize := bufferSize s; audioPackets := audioPackets s;
     videoPackets := videoPackets s; loadedMetadata := loadedMetadata s; videoCodec := videoCodec s; audioCodec := audioCodec s;
     duration := duration s; videoFormat := videoFormat s; onseek := onseek s; aborted := true; log := log s |}.

(** ** What the module calls *)

(** [slice] of a buffer, for positions that are not negative. *)
Definition slice (m : mem) (b e : Z) : list Z := take (Z.to_nat (e - b)) (drop (Z.to_nat b) m).

Definition on_audio_packet (m : mem) (b c : Z) (d e : number) : D unit :=
  let p := {| a_data := slice m b (b + c); a_timestamp := d; discardPadding := e |} in
  upd (fun s => note (AudioIn p) (set_queues (audioPackets s ++ [p]) (videoPackets s) s)).

Definition on_video_packet (m : mem) (b c : Z) (d e : number) (f : Z) : D unit :=
  let p := {| v_data := slice m b (b + c); v_timestamp := d; keyframeTimestamp := e; isKeyframe := negb (f =? 0) |} in
  upd (fun s => note (VideoIn p) (set_queues (audioPackets s) (videoPackets s ++ [p]) s)).

(** The text of a codec, up to a zero.  Without a zero the loop goes on with [undefined] until the text is too long. *)
Fixpoint codec_text (g : mem) : result jsstr :=
  match g with
  | [] => Throw (PlatformError "RangeError")
  | c :: g => if c =? 0 then Ok [] else rmap (cons c) (codec_text g)
  end.

Definition codec (m : mem) (b : Z) (old : option jsstr) : result (option jsstr) :=
  if b =? 0 then Ok old else rmap Some (codec_text (drop (Z.to_nat b) m)).

Definition not_negative (x : number) : bool := SFleb (S754_zero false) x.

Definition on_metadata (m : mem) (b c : Z) (media_duration : number) : D unit := fun s =>
  match codec m b (videoCodec s) with
  | Throw e => (Throw e, s)
  | Ok v =>
      match codec m c (audioCodec s) with
      | Throw e => (Throw e, set_metadata v (audioCodec s) (duration s) (loadedMetadata s) s)
      | Ok a => (Ok tt, set_metadata v a (if not_negative media_duration then media_duration else S754_nan) true s)
      end
  end.

Definition on_seek (b c : Z) : D unit :=
  upd (fun s => if onseek s then note (SeekAsked (b + 4294967296 * c)) s else s).

Definition abort (text : jsstr) : D unit := fun s =>
  (Throw (PlatformError "RuntimeError"), set_aborted (note (Printed (js "Aborted(" ++ text ++ js ")")) s)).

Definition text_at (UTF8Decoder : bool) (m : mem) (b : Z) (other : jsstr) : jsstr :=
  if b =? 0 then other else UTF8ToString UTF8Decoder m b None.

Definition assert_text (UTF8Decoder : bool) (m : mem) (b c d e : Z) : jsstr :=
  js "Assertion failed: " ++ text_at UTF8Decoder m b [] ++ js ", at: "
  ++ text_at UTF8Decoder m c (js "unknown filename") ++ js "," ++ string_of_Z d ++ js ","
  ++ text_at UTF8Decoder m e (js "unknown function").

Definition format_of (w h cw ch : Z) (rate : number) (pw ph px py dw dh : Z) : video_format :=
  {| width := w; height := h; chromaWidth := cw; chromaHeight := ch; cropLeft := px; cropTop := py; cropWidth := pw;
     cropHeight := ph; displayWidth := dw; displayHeight := dh; fps := rate |}.

(** The imports of the WebM module. *)
Definition webm_import (UTF8Decoder : bool) (m : mem) (i : import) : D unit :=
  match i with
  | AudioPacket b c d e => on_audio_packet m b c d e
  | VideoPacket b c d e f => on_video_packet m b c d e f
  | InitVideo b c d e f g p gG x y z => upd (set_format (format_of b c d e f g p gG x y z))
  | LoadedMetadata b c d => on_metadata m b c d
  | SeekTo b c => on_seek b c
  | AssertFail b c d e => abort (assert_text UTF8Decoder m b c d e)
  | AbortCall => abort []
  | FdSeek => dret tt                                   (* not an import of this module *)
  end.

(** The imports of the Ogg module.  [fd_seek] calls functions that the object [ca] does not have. *)
Definition ogg_import (m : mem) (i : import) : D unit :=
  match i with
  | AudioPacket b c d e => on_audio_packet m b c d e
  | VideoPacket b c d e f => on_video_packet m b c d e f
  | LoadedMetadata b c d => on_metadata m b c d
  | FdSeek => fun s => (Throw type_error, s)
  | InitVideo _ _ _ _ _ _ _ _ _ _ _ | SeekTo _ _ | AssertFail _ _ _ _ | AbortCall => dret tt   (* not imports *)
  end.

(** ** What the player calls *)

Inductive request :=
| RInit | ReceiveInput (bytes : list Z) | RProcess | DequeueVideoPacket | DequeueAudioPacket
| GetKeypointOffset (seconds : number) | SeekToKeypoint (seconds : number) | RFlush | Close
| GetSeekable.                                    (* the property [seekable] *)

(** What the callback of a request is given. *)
Inductive reply :=
| Done | Truth (b : bool) | VideoData (data : option (list Z)) | AudioData (data : option (list Z * number)) | Offset (position : Z).

Section Requests.
Variable handle : mem -> import -> D unit.      (* [webm_import] or [ogg_import] *)

Fixpoint imports (l : list (mem * mstate * import)) : D unit :=
  match l with
  | [] => dret tt
  | (m, i, x) :: l => let* _ := upd (set_module m i) in let* _ := handle m x in imports l
  end.

(** A call of the module, with the calls it makes back; an exception of one of them ends the call of the module too. *)
Definition call (x : export) : D Z := fun s =>
  let '(l, (r, m, i)) := exec x (inner s) (memory s) in
  let s := note (Called x (memory s)) s in
  match imports l s with
  | (Throw e, s) => (Throw e, note (Answered x (Throw e)) s)
  | (Ok _, s) => (r, note (Answered x r) (set_module m i s))
  end.

(** [X=d,W=a._malloc(X)] *)
Definition renew (d : Z) : D unit :=
  let* _ := upd (fun s => set_buffer (buffer s) d s) in
  let* w := call (Malloc d) in
  upd (fun s => set_buffer w (bufferSize s) s).

(** [W&&X>=d||(W&&a._free(W),X=d,W=a._malloc(X))] *)
Definition reserve (d : Z) : D unit := fun s =>
  if negb (buffer s =? 0) && (d <=? bufferSize s) then (Ok tt, s)
  else
    (let* _ := if negb (buffer s =? 0) then call (Free (buffer s)) else dret 0 in
     renew d) s.

(** [(new Uint8Array(E.buffer,e,d)).set(...)] *)
Definition put_bytes (ptr : Z) (bytes : list Z) : D unit := fun s =>
  let n := Z.of_nat (length bytes) in
  if (ptr <? 0) || (Z.of_nat (length (memory s)) <? ptr + n) then (Throw (PlatformError "RangeError"), s)
  else (Ok tt, set_module (take (Z.to_nat ptr) (memory s) ++ bytes ++ drop (Z.to_nat (ptr + n)) (memory s)) (inner s) s).

Definition receiveInput (bytes : list Z) : D reply :=
  let d := Z.of_nat (length bytes) in
  let* _ := reserve d in
  let* _ := (fun s => put_bytes (buffer s) bytes s) in
  let* _ := (fun s => call (Receive_input (buffer s) d) s) in
  dret Done.

Definition clear_queues : D unit := upd (fun s => note Cleared (set_queues [] [] s)).

Definition dequeueVideoPacket : D reply := fun s =>
  match videoPackets s with
  | p :: l => (Ok (VideoData (Some (v_data p))), note (VideoOut (v_data p)) (set_queues (audioPackets s) l s))
  | [] => (Ok (VideoData None), s)
  end.

Definition dequeueAudioPacket : D reply := fun s =>
  match audioPackets s with
  | p :: l => (Ok (AudioData (Some (a_data p, discardPadding p))), note (AudioOut (a_data p) (discardPadding p)) (set_queues l (videoPackets s) s))
  | [] => (Ok (AudioData None), s)
  end.

Definition serve (r : request) : D reply :=
  match r with
  | RInit => let* _ := call Init in dret Done
  | ReceiveInput bytes => receiveInput bytes
  | RProcess => let* c := call Process in dret (Truth (negb (c =? 0)))
  | DequeueVideoPacket => dequeueVideoPacket
  | DequeueAudioPacket => dequeueAudioPacket
  | GetKeypointOffset b => let* d := call (Keypoint_offset (SFmul 53 1024 thousand b)) in dret (Offset d)
  | SeekToKeypoint b =>
      let* d := call (Seek_to_keypoint (SFmul 53 1024 thousand b)) in
      let* _ := if negb (d =? 0) then clear_queues else dret tt in
      dret (Truth (negb (d =? 0)))
  | RFlush => let* _ := clear_queues in let* _ := call Flush in dret Done
  | Close => dret Done
  | GetSeekable => let* c := call Seekable in dret (Truth (negb (c =? 0)))
  end.

(** The player's calls one after the other; an exception ends one call. *)
Definition serves (rs : list request) (s : demuxer) : demuxer := fold_left (fun s r => snd (serve r s)) rs s.
End Requests.

(** ** Properties of the module object *)

Definition hasAudio (s : demuxer) : option jsstr := if loadedMetadata s then audioCodec s else None.
Definition hasVideo (s : demuxer) : option jsstr := if loadedMetadata s then videoCodec s else None.
Definition audioReady (s : demuxer) : bool := (0 <? length (audioPackets s))%nat.
Definition frameReady (s : demuxer) : bool := (0 <? length (videoPackets s))%nat.
Definition audioTimestamp (s : demuxer) : number := match audioPackets s with p :: _ => a_timestamp p | [] => minus_one end.
Definition frameTimestamp (s : demuxer) : number := match videoPackets s with p :: _ => v_timestamp p | [] => minus_one end.
Definition first_keyframe (s : demuxer) : number := match videoPackets s with p :: _ => keyframeTimestamp p | [] => minus_one end.

Fixpoint nextKeyframe (l : list video_packet) : number :=
  match l with
  | [] => minus_one
  | c :: l => if isKeyframe c then v_timestamp c else nextKeyframe l
  end.
Definition nextKeyframeTimestamp (s : demuxer) : number := nextKeyframe (videoPackets s).

(** ** Packets *)

(** Of a log: what arrived and what was given away since the queues were last emptied. *)
Definition video_in (l : list happening) : list (list Z) :=
  fold_left (fun a h => match h with VideoIn p => a ++ [v_data p] | Cleared => [] | _ => a end) l [].
Definition video_out (l : list happening) : list (list Z) :=
  fold_left (fun a h => match h with VideoOut d => a ++ [d] | Cleared => [] | _ => a end) l [].
Definition audio_in (l : list happening) : list (list Z * number) :=
  fold_left (fun a h => match h with AudioIn p => a ++ [(a_data p, discardPadding p)] | Cleared => [] | _ => a end) l [].
Definition audio_out (l : list happening) : list (list Z * number) :=
  fold_left (fun a h => match h with AudioOut d p => a ++ [(d, p)] | Cleared => [] | _ => a end) l [].

Definition queued (s : demuxer) : Prop :=
  video_in (log s) = video_out (log s) ++ map v_data (videoPackets s)
  /\ audio_in (log s) = audio_out (log s) ++ map (fun p => (a_data p, discardPadding p)) (audioPackets s).

(** A computation that keeps a property of the state, also when it throws. *)
Definition keeps {A} (P : demuxer -> Prop) (m : D A) : Prop := forall s, P s -> P (snd (m s)).

Lemma dkeeps_ret {A} P (a : A) : keeps P (dret a).
Proof. by intros s Hs. Qed.
Lemma dkeeps_bind {A B} P (m : D A) (k : A -> D B) : keeps P m -> (forall a, keeps P (k a)) -> keeps P (dbind m k).
Proof. intros Hm Hk s Hs. unfold dbind. specialize (Hm s Hs). destruct (m s) as [[a|e] s1]; [by apply Hk|done]. Qed.
Lemma dkeeps_upd P f : (forall s, P s -> P (f s)) -> keeps P (upd f).
Proof. by intros Hf s Hs; apply Hf. Qed.
Lemma dkeeps_if {A} P (b : bool) (m n : D A) : keeps P m -> keeps P n -> keeps P (if b then m else n).
Proof. by destruct b. Qed.

(** [keeps] for everything the player calls follows from a few steps. *)
Lemma keeps_serve P handle r :
  (forall m x, keeps P (handle m x)) -> (forall m i s, P s -> P (set_module m i s)) -> (forall w x s, P s -> P (set_buffer w x s)) ->
  (forall x m s, P s -> P (note (Called x m) s)) -> (forall x r s, P s -> P (note (Answered x r) s)) ->
  keeps P clear_queues -> keeps P dequeueVideoPacket -> keeps P dequeueAudioPacket -> keeps P (serve handle r).
Proof.
  intros Hh Hm Hb Hc Ha Hq Hv Hd.
  assert (Hi : forall l, keeps P (imports handle l)).
  { induction l as [|[[m i] x] l IH]; cbn [imports]; [apply dkeeps_ret|].
    apply dkeeps_bind; [apply dkeeps_upd; auto|intros _]. apply dkeeps_bind; [apply Hh|by intros _]. }
  assert (Hcall : forall x, keeps P (call handle x)).
  { intros x s Hs. unfold call. destruct (exec x (inner s) (memory s)) as [l [[r0 m] i]].
    specialize (Hi l (note (Called x (memory s)) s) (Hc _ _ _ Hs)). destruct (imports handle l _) as [[u|e] s1]; cbn [snd] in *; auto. }
  assert (Hput : forall p b, keeps P (put_bytes p b)).
  { intros p b s Hs. unfold put_bytes. destruct (_ || _); cbn [snd]; auto. }
  assert (Hres : forall d, keeps P (reserve handle d)).
  { intros d s Hs. unfold reserve. destruct (_ && _); [done|]. refine ((_ : keeps P _) s Hs).
    apply dkeeps_bind; [apply dkeeps_if; [apply Hcall|apply dkeeps_ret]|intros _]. unfold renew.
    apply dkeeps_bind; [apply dkeeps_upd; auto|intros _]. apply dkeeps_bind; [apply Hcall|intros w]. apply dkeeps_upd; auto. }
  destruct r; cbn [serve]; try done; try apply dkeeps_ret;
    repeat first [apply dkeeps_bind; [first [apply Hcall|apply Hq|apply Hres|idtac]|intros ?]|apply dkeeps_ret|apply Hcall].
  - intros s Hs. by apply Hput.
  - intros s Hs. by apply Hcall.
  - apply dkeeps_if; [apply Hq|apply dkeeps_ret].
Qed.

(** The two demuxers. *)
Inductive container := WebM (UTF8Decoder : bool) | Ogg.
Definition import_of (c : container) : mem -> import -> D unit :=
  match c with WebM u => webm_import u | Ogg => ogg_import end.

(** What the imports do to the state, one by one. *)
Lemma keeps_import P c m x :
  (forall p s, P s -> P (note (AudioIn p) (set_queues (audioPackets s ++ [p]) (videoPackets s) s))) ->
  (forall p s, P s -> P (note (VideoIn p) (set_queues (audioPackets s) (videoPackets s ++ [p]) s))) ->
  (forall f s, P s -> P (set_format f s)) -> (forall v a d l s, P s -> P (set_metadata v a d l s)) ->
  (forall z s, P s -> P (note (SeekAsked z) s)) -> (forall t s, P s -> P (set_aborted (note (Printed t) s))) ->
  keeps P (import_of c m x).
Proof.
  intros Ha Hv Hf Hm Hs Hp. assert (Hmeta : forall b c d, keeps P (on_metadata m b c d)).
  { intros b c' d s H0. unfold on_metadata. destruct (codec m b (videoCodec s)); cbn [snd]; auto. destruct (codec m c' (audioCodec s)); cbn [snd]; auto. }
  destruct c, x; cbn; try apply dkeeps_ret; try apply Hmeta; try (apply dkeeps_upd; auto); try (by intros s H0; apply Hp); try done.
  intros s H0. destruct (onseek s); auto.
Qed.

Lemma queued_note h s : match h with AudioIn _ | AudioOut _ _ | VideoIn _ | VideoOut _ | Cleared => False | _ => True end ->
  queued s -> queued (note h s).
Proof. intros Hh [H1 H2]. unfold queued, video_in, video_out, audio_in, audio_out in *. cbn. rewrite !fold_left_app. by destruct h. Qed.

Lemma queued_serve c r : keeps queued (serve (import_of c) r).
Proof.
  apply keeps_serve; intros; try (by apply queued_note); try done.
  - apply keeps_import; intros; try done; try (by apply queued_note).
    + destruct H0 as [H1 H2]. unfold queued, video_in, video_out, audio_in, audio_out in *. cbn. rewrite !fold_left_app. cbn.
      rewrite map_app, (assoc_L (++)), <- H2. done.
    + destruct H0 as [H1 H2]. unfold queued, video_in, video_out, audio_in, audio_out in *. cbn. rewrite !fold_left_app. cbn.
      rewrite map_app, (assoc_L (++)), <- H1. done.
  - intros s _. unfold queued, video_in, video_out, audio_in, audio_out. cbn. by rewrite !fold_left_app.
  - intros s [H1 H2]. unfold dequeueVideoPacket. destruct (videoPackets s) as [|p l] eqn:E; [cbn [snd]; unfold queued; by rewrite E|]. cbn [map] in H1.
    unfold queued, video_in, video_out, audio_in, audio_out in *. cbn. rewrite !fold_left_app. cbn. by rewrite <- (assoc_L (++)).
  - intros s [H1 H2]. unfold dequeueAudioPacket. destruct (audioPackets s) as [|p l] eqn:E; [cbn [snd]; unfold queued; by rewrite E|]. cbn [map] in H2.
    unfold queued, video_in, video_out, audio_in, audio_out in *. cbn. rewrite !fold_left_app. cbn. by rewrite <- (assoc_L (++)).
Qed.

(** ** The block the input is written to *)

(** Blocks of the module that [malloc] gave and [free] did not take back, with their sizes. *)
Definition block_step (a : list (Z * Z)) (h : happening) : list (Z * Z) :=
  match h with
  | Answered (Malloc n) (Ok p) => (p, n) :: a
  | Called (Free p) _ => List.filter (fun b => negb (b.1 =? p)) a
  | _ => a
  end.
Definition blocks (l : list happening) : list (Z * Z) := fold_left block_step l [].

(** Memory was never short, and freeing never failed. *)
Definition well_allocated (l : list happening) : Prop :=
  Forall (fun h => match h with
    | Answered (Malloc _) r => exists p, r = Ok p /\ p <> 0
    | Answered (Free _) r => is_ok r = true
    | _ => True end) l.

Definition neutral (h : happening) : Prop :=
  match h with Called (Free _ | Malloc _ | Receive_input _ _) _ | Answered (Free _ | Malloc _) _ => False | _ => True end.

(** From [s0] on nothing concerned the block. *)
Definition quiet (s0 s : demuxer) : Prop :=
  buffer s = buffer s0 /\ bufferSize s = bufferSize s0 /\ exists l, log s = log s0 ++ l /\ Forall neutral l.

Lemma quiet_refl s : quiet s s.
Proof. split; [done|]. split; [done|]. exists []. by rewrite app_nil_r. Qed.

Lemma quiet_note s0 h s : neutral h -> quiet s0 s -> quiet s0 (note h s).
Proof.
  intros Hh (H1 & H2 & l & Hl & Hn). split; [done|]. split; [done|]. exists (l ++ [h]). cbn. rewrite Hl, (assoc_L (++)).
  split; [done|]. apply Forall_app. split; [done|]. by apply Forall_singleton.
Qed.

Lemma quiet_import s0 c m x : keeps (quiet s0) (import_of c m x).
Proof. apply keeps_import; intros; try done; by apply quiet_note. Qed.

Lemma quiet_imports s0 c l : keeps (quiet s0) (imports (import_of c) l).
Proof.
  induction l as [|[[m i] x] l IH]; cbn [imports]; [apply dkeeps_ret|].
  apply dkeeps_bind; [by apply dkeeps_upd|intros _]. apply dkeeps_bind; [apply quiet_import|by intros _].
Qed.

(** A call leaves the block alone; its part of the log. *)
Lemma call_log c x s : exists r l, fst (call (import_of c) x s) = r /\ Forall neutral l
  /\ log (snd (call (import_of c) x s)) = log s ++ Called x (memory s) :: l ++ [Answered x r]
  /\ buffer (snd (call (import_of c) x s)) = buffer s /\ bufferSize (snd (call (import_of c) x s)) = bufferSize s.
Proof.
  unfold call. destruct (exec x (inner s) (memory s)) as [l [[r m] i]].
  destruct (quiet_imports _ c l _ (quiet_refl (note (Called x (memory s)) s))) as (H1 & H2 & l' & Hl & Hn).
  destruct (imports (import_of c) l _) as [[u|e] s1]; cbn in *; eexists _, l'; rewrite Hl, H1, H2; (split; [reflexivity|]); by rewrite <- !(assoc_L (++)).
Qed.

Lemma neutral_step a h : neutral h -> block_step a h = a.
Proof. by destruct h as [[]|[]| | | | | | |]. Qed.

Lemma blocks_app l l' : Forall neutral l' -> blocks (l ++ l') = blocks l.
Proof.
  unfold blocks. rewrite fold_left_app. generalize (fold_left block_step l []). intros a Hn. revert a.
  induction Hn as [|h l' Hh Hn IH]; intros a; cbn; [done|]. by rewrite neutral_step.
Qed.

Definition plain (x : export) : Prop := match x with Malloc _ | Free _ => False | _ => True end.

Lemma blocks_call x m r l l0 : Forall neutral l ->
  blocks (l0 ++ Called x m :: l ++ [Answered x r]) = block_step (block_step (blocks l0) (Called x m)) (Answered x r).
Proof.
  intros Hn. replace (l0 ++ Called x m :: l ++ [Answered x r]) with (((l0 ++ [Called x m]) ++ l) ++ [Answered x r]) by (by rewrite <- !(assoc_L (++))).
  unfold blocks at 1. rewrite fold_left_app. cbn [fold_left]. fold (blocks ((l0 ++ [Called x m]) ++ l)). rewrite blocks_app by done.
  f_equal. unfold blocks. by rewrite fold_left_app.
Qed.

(** The buffer of the demuxer is a block it owns. *)
Definition owns (s : demuxer) : Prop := well_allocated (log s) -> buffer s <> 0 -> In (buffer s, bufferSize s) (blocks (log s)).

Lemma well_allocated_prefix l l' : well_allocated (l ++ l') -> well_allocated l.
Proof. unfold well_allocated. rewrite Forall_app. by intros [H1 _]. Qed.

Lemma well_allocated_last l h l' : well_allocated (l ++ l' ++ [h]) -> well_allocated [h].
Proof. unfold well_allocated. rewrite !Forall_app. tauto. Qed.

Lemma owns_call c x : plain x -> keeps owns (call (import_of c) x).
Proof.
  intros Hx s Hs. destruct (call_log c x s) as (r & l & _ & Hn & Hl & Hb & Hz). unfold owns in *. rewrite Hl, Hb, Hz, blocks_call by done.
  intros Hw. apply well_allocated_prefix in Hw. specialize (Hs Hw). by destruct x.
Qed.

Lemma owns_log s s' l : buffer s' = buffer s -> bufferSize s' = bufferSize s -> log s' = log s ++ l -> Forall neutral l -> owns s -> owns s'.
Proof. unfold owns. intros -> -> -> Hn Hs Hw. rewrite blocks_app by done. apply Hs. by eapply well_allocated_prefix. Qed.

(** What a step towards a block of size [d] has to give while nothing goes wrong in the allocator. *)
Definition reserved (d : Z) (s : demuxer) (res : result unit * demuxer) : Prop :=
  (exists l, log (snd res) = log s ++ l)
  /\ (well_allocated (log (snd res)) ->
      fst res = Ok tt /\ buffer (snd res) <> 0 /\ d <= bufferSize (snd res) /\ In (buffer (snd res), bufferSize (snd res)) (blocks (log (snd res)))).

(** The answer of the last call of a log is judged too. *)
Lemma well_allocated_call s x l r : well_allocated (log s ++ Called x (memory s) :: l ++ [Answered x r]) ->
  match x with Malloc _ => exists p, r = Ok p /\ p <> 0 | Free _ => is_ok r = true | _ => True end.
Proof.
  intros Hw. assert (Hp : well_allocated [Answered x r]) by (apply (well_allocated_last (log s ++ [Called x (memory s)]) _ l); by rewrite <- (assoc_L (++))).
  unfold well_allocated in Hp. apply list.Forall_cons in Hp as [Hp _]. destruct x; first [exact Hp|exact I].
Qed.

Lemma renew_spec c d s : reserved d s (renew (import_of c) d s).
Proof.
  unfold renew, dbind at 1, upd at 1. cbn. set (s0 := set_buffer (buffer s) d s).
  destruct (call_log c (Malloc d) s0) as (r & l & Hr & Hn & Hl & Hb & Hz). unfold dbind.
  destruct (call (import_of c) (Malloc d) s0) as [r' s1]. cbn [fst snd] in *. subst r'. unfold reserved.
  destruct r as [w|e]; cbn [fst snd upd set_buffer log buffer bufferSize]; (split; [eexists; apply Hl|]); rewrite Hl; intros Hw;
    destruct (well_allocated_call _ _ _ _ Hw) as (p & Hp & H0); [|done]. injection Hp as <-.
  rewrite Hz, blocks_call by done. cbn. split; [done|]. split; [done|]. split; [lia|by left].
Qed.

(** While nothing goes wrong in the allocator, [reserve] leaves a block of the size asked for. *)
Lemma reserve_spec c d s : owns s -> reserved d s (reserve (import_of c) d s).
Proof.
  intros Ho. unfold reserve. destruct (negb (buffer s =? 0) && (d <=? bufferSize s)) eqn:E.
  { bool_prop. split; [exists []; by rewrite app_nil_r|]. cbn. auto. }
  destruct (negb (buffer s =? 0)); cbn [negb]; [|apply (renew_spec c d s)].
  destruct (call_log c (Free (buffer s)) s) as (r & l & Hr & Hn & Hl & Hb & Hz). unfold dbind.
  destruct (call (import_of c) (Free (buffer s)) s) as [r' s1]. cbn [fst snd] in *. subst r'. destruct r as [w|e].
  - destruct (renew_spec c d s1) as [[l2 H2] Hm]. split; [|done]. eexists. by rewrite H2, Hl, <- (assoc_L (++)).
  - split; [by eexists|]. cbn [snd]. rewrite Hl. intros Hw. by apply well_allocated_call in Hw.
Qed.

Lemma reserve_owns c d : keeps owns (reserve (import_of c) d).
Proof. intros s Ho Hw Hb. by destruct (reserve_spec c d s Ho) as [_ [_ (_ & _ & H0)]]. Qed.

Lemma put_bytes_log p b s : let s' := snd (put_bytes p b s) in log s' = log s /\ buffer s' = buffer s /\ bufferSize s' = bufferSize s.
Proof. unfold put_bytes. by destruct (_ || _). Qed.

Lemma owns_serve c r : keeps owns (serve (import_of c) r).
Proof.
  assert (Hq : keeps owns clear_queues) by (intros s Hs; by apply (owns_log s _ [Cleared]); [..|apply Forall_singleton|]).
  assert (Hc : forall x, plain x -> keeps owns (call (import_of c) x)) by (intros; by apply owns_call).
  destruct r; cbn [serve]; try apply dkeeps_ret; try (by apply dkeeps_bind; [by apply Hc|intros; apply dkeeps_ret]).
  - unfold receiveInput. apply dkeeps_bind; [apply reserve_owns|intros _].
    apply dkeeps_bind; [|intros _; apply dkeeps_bind; [intros s; by apply Hc|intros _; apply dkeeps_ret]].
    intros s Hs. destruct (put_bytes_log (buffer s) bytes s) as (H1 & H2 & H3). by apply (owns_log s _ []); [..|rewrite app_nil_r| |].
  - intros s Hs. unfold dequeueVideoPacket. destruct (videoPackets s); [done|]. by apply (owns_log s _ [VideoOut (v_data v)]); [..|apply Forall_singleton|].
  - intros s Hs. unfold dequeueAudioPacket. destruct (audioPackets s) as [|p l]; [done|]. by apply (owns_log s _ [AudioOut (a_data p) (discardPadding p)]); [..|apply Forall_singleton|].
  - apply dkeeps_bind; [by apply Hc|intros d]. apply dkeeps_bind; [apply dkeeps_if; [apply Hq|apply dkeeps_ret]|intros; apply dkeeps_ret].
  - apply dkeeps_bind; [apply Hq|intros _]. apply dkeeps_bind; [by apply Hc|intros; apply dkeeps_ret].
Qed.

Lemma serves_keep P c rs : (forall r, keeps P (serve (import_of c) r)) -> forall s, P s -> P (serves (import_of c) rs s).
Proof. intros Hk. induction rs as [|r rs IH]; intros s Hs; [done|]. apply IH. by apply Hk. Qed.

Lemma put_bytes_slice p b s s' : put_bytes p b s = (Ok tt, s') -> slice (memory s') p (p + Z.of_nat (length b)) = b.
Proof.
  unfold put_bytes. destruct (_ || _) eqn:E; [done|]. intros [= <-]. bool_prop. cbn. unfold slice.
  rewrite drop_app_ge, length_take_le, Nat.sub_diag, drop_0 by (rewrite ?length_take; lia).
  replace (Z.to_nat (p + Z.of_nat (length b) - p)) with (length b) by lia. by rewrite take_app_length.
Qed.
End Demuxer.

(** C32. Packets come out as they came in: after any requests, and whatever the module does, the data given away since the
    queues were last emptied, followed by the data still queued, are the data that arrived since, in order.  The data are
    those the memory held when the module delivered them. *)
Theorem packets_in_order `{DemuxModule} (c : container) (m : mem) (i : mstate) (has_onseek : bool) (rs : list request) :
  let s := serves (import_of c) rs (new_demuxer m i has_onseek) in
  video_in (log s) = video_out (log s) ++ map v_data (videoPackets s)
  /\ audio_in (log s) = audio_out (log s) ++ map (fun p => (a_data p, discardPadding p)) (audioPackets s).
Proof. apply (serves_keep queued); [apply queued_serve|]. by split. Qed.

(** While the allocator of the module does not fail, input that is accepted reaches the module whole: it is called
    with the bytes in a block that it gave, that has not been freed since and that is large enough; a block that was
    large enough for earlier input is used again. *)
Theorem input_reaches_module `{DemuxModule} (c : container) (m : mem) (i : mstate) (has_onseek : bool) (rs : list request)
    (bytes : list Z) (s' : demuxer) (a : reply) :
  receiveInput (import_of c) bytes (serves (import_of c) rs (new_demuxer m i has_onseek)) = (Ok a, s') ->
  well_allocated (log s') ->
  exists before after p n m',
    log s' = before ++ Called (Receive_input p (Z.of_nat (length bytes))) m' :: after
    /\ In (p, n) (blocks before) /\ Z.of_nat (length bytes) <= n
    /\ slice m' p (p + Z.of_nat (length bytes)) = bytes.
Proof.
  intros H0 Hw. set (s := serves _ _ _) in *. assert (Ho : owns s) by (apply (serves_keep owns); [apply owns_serve|intros _ Hne; by destruct Hne]).
  unfold receiveInput, dbind in H0. destruct (reserve_spec c (Z.of_nat (length bytes)) s Ho) as [_ Hr].
  destruct (reserve (import_of c) _ s) as [[u|e] s1]; [|done]. cbn [fst snd] in Hr.
  destruct (put_bytes (buffer s1) bytes s1) as [[u2|e] s2] eqn:Hp; [|done]. destruct u2.
  destruct (put_bytes_log (buffer s1) bytes s1) as (L1 & L2 & L3). rewrite Hp in L1, L2, L3. cbn [snd] in *.
  destruct (call_log c (Receive_input (buffer s2) (Z.of_nat (length bytes))) s2) as (r & l & _ & Hn & Hl & _ & _).
  destruct (call (import_of c) _ s2) as [[r'|e] s3]; [|done]. injection H0 as <- <-. cbn [snd] in Hl.
  rewrite Hl in Hw. apply well_allocated_prefix in Hw. rewrite L1 in Hw. destruct (Hr Hw) as (_ & Hb & Hd & Hin).
  eexists _, _, _, _, _. split; [exact Hl|]. rewrite L1, L2. split; [exact Hin|]. split; [done|]. by apply (put_bytes_slice _ _ s1).
Qed.

(** ** A concrete module *)

(** Blocks are given out one after the other, [16] bytes apart at least; [process] delivers the input as one key frame,
    then the codecs. *)
#[local] Instance test_module : DemuxModule := {|
  mstate := Z;
  exec x i m :=
    match x with
    | Malloc n => ([], (Ok i, m, i + Z.max 16 n))
    | Process => ([(m, i, VideoPacket 16 3 (S754_zero false) (S754_zero false) 1); (m, i, LoadedMetadata 32 0 minus_one)], (Ok 1, m, i))
    | _ => ([], (Ok 0, m, i))
    end
|}.

Definition test_memory : mem := repeat 0 32 ++ [118; 112; 56; 0] ++ repeat 0 28.
Definition test_demuxer : @demuxer test_module := @new_demuxer test_module test_memory 16 true.

Lemma input_reaches_witness :
  exists s', receiveInput (import_of Ogg) [1; 2] (serves (import_of Ogg) [ReceiveInput [7; 8; 9]; RProcess] test_demuxer) = (Ok Done, s')
  /\ exists before after p n m',
    log s' = before ++ Called (Receive_input p 2) m' :: after /\ In (p, n) (blocks before) /\ 2 <= n /\ slice m' p (p + 2) = [1; 2].
Proof.
  eexists. split; [vm_compute; reflexivity|].
  apply (@input_reaches_module test_module Ogg test_memory 16 true [ReceiveInput [7; 8; 9]; RProcess] [1; 2] _ Done); [vm_compute; reflexivity|].
  repeat (apply Forall_cons; split; [first [exact I|vm_compute; reflexivity|eexists; split; [reflexivity|lia]]|]). apply Forall_nil. exact I.
Defined.

Example frame_comes_out :
  let s := serves (import_of (WebM true)) [ReceiveInput [7; 8; 9]; RProcess] test_demuxer in
  fst (dequeueVideoPacket s) = Ok (VideoData (Some [7; 8; 9])) /\ hasVideo s = Some (js "vp8") /\ hasAudio s = None
  /\ duration s = S754_nan /\ nextKeyframeTimestamp s = S754_zero false.
Proof. vm_compute. auto. Qed.

(** A block that [malloc] could not give is address zero, and the input is written there. *)
Example failed_malloc_overwrites : exists M : DemuxModule, exists i : @mstate M,
  memory (serves (import_of Ogg) [ReceiveInput [7; 8; 9]] (new_demuxer [1; 1; 1; 1] i false)) = [7; 8; 9; 1].
Proof. exists {| mstate := unit; exec x i m := ([], (Ok 0, m, i)) |}, tt. vm_compute. reflexivity. Qed.

(** The module hands a 64-bit position to the player in two halves, which reach JavaScript as signed numbers: from 2 GiB
    on, in every second stretch of 2 GiB, the player is asked for a position that is 4 GiB too small. *)
Theorem seek_position `{DemuxModule} (position : Z) (s : demuxer) : 0 <= position < 2 ^ 63 -> onseek s = true ->
  log (snd (on_seek (to_int32 position) (position / 2 ^ 32) s))
  = log s ++ [SeekAsked (if position mod 2 ^ 32 <? 2 ^ 31 then position else position - 2 ^ 32)].
Proof.
  intros Hp Hs. unfold on_seek, upd. cbn [snd]. rewrite Hs. cbn [note log]. do 3 f_equal. unfold to_int32.
  change 4294967296 with (2 ^ 32). pose proof (Z.div_mod position (2 ^ 32)) as Hd. destruct (_ <? _); lia.
Qed.

(** An Ogg module that calls [fd_seek] gets an exception. *)
Theorem ogg_fd_seek_throws `{DemuxModule} (m : mem) (s : demuxer) : ogg_import m FdSeek s = (Throw type_error, s).
Proof. reflexivity. Qed.

(** After a seek that succeeded nothing from before is given out. *)
Theorem seek_empties `{DemuxModule} (c : container) (t : number) (s s' : demuxer) :
  serve (import_of c) (SeekToKeypoint t) s = (Ok (Truth true), s') -> audioPackets s' = [] /\ videoPackets s' = [].
Proof.
  cbn [serve]. unfold dbind. destruct (call _ _ s) as [[d|e] s1]; [|done]. destruct (negb (d =? 0)); cbn; [|done]. by intros [= <-].
Qed.
