(* ===== verification/OgvRuntime.v ===== *)
(** * Memory and exceptions of the ogv.js modules
      ([integrations/lan-remote-access/rustdesk-web-open/ogvjs-1.8.6], the functions all modules import)

    Growing the memory of a module, and calling a function of the module from C code that
    catches [longjmp].  Named after the functions of Emscripten. *)

From stdpp Require Import base list numbers strings.
From Stdlib Require Import ZArith Lia SpecFloat.
From S2P Require Import Prelude JsString OpusText OgvDemuxer.
Local Open Scope Z_scope.

(** ** Growing the memory *)

(** [1+.2/d] as a multiple of 2^-52. *)
Definition overgrowth (d : Z) : Z :=
  if d =? 1 then 5404319552844595 else if d =? 2 then 4953959590107546 else 4728779608739021.

(** The rounding of a positive number to 53 bits, half to even. *)
Definition round53 (n : Z) : Z :=
  let k := 2 ^ Z.max 0 (Z.log2 n - 52) in
  let q := n / k in
  let r := 2 * (n mod k) in
  (if (r <? k) || ((r =? k) && Z.even q) then q else q + 1) * k.

(** [c*(1+.2/d)], as a multiple of 2^-52. *)
Definition scaled (c d : Z) : Z := round53 (c * overgrowth d).

(** [e], raised to a whole number of pages; the sums are exact in doubles for memories of at least a page. *)
Definition target (c b d : Z) : Z :=
  let e := Z.max (b * 2 ^ 52) (Z.min (scaled c d) ((b + 100663296) * 2 ^ 52)) in
  65536 * ((e + 2 ^ 68 - 1) / 2 ^ 68).

(** The argument of [E.grow]. *)
Definition pages (c b d : Z) : Z := js_ushr (Z.min 2147483648 (target c b d) - c + 65535) 16.

(** [for(d=1;4>=d;d*=2)]: the first number of pages the engine accepts, and what it was asked.  [grow] may answer
    differently each time. *)
Fixpoint attempts (grow : nat -> Z -> bool) (n : nat) (c b d : Z) (k : nat) : option Z * list Z :=
  match n with
  | O => (None, [])
  | S n =>
      let p := pages c b d in
      if grow k p then (Some p, [p])
      else let '(r, l) := attempts grow n c b (d * 2) (S k) in (r, p :: l)
  end.

(** The import; the size of the memory is [c]. *)
Definition resize_heap (grow : nat -> Z -> bool) (c b : Z) : option Z * list Z :=
  let b := to_uint32 b in
  if 2147483648 <? b then (None, []) else attempts grow 3 c b 1 0.

(** ** Printing *)

(** [ma]: the unfinished lines of both streams. *)
Record lines := { out_line : list Z; err_line : list Z }.

(** The bytes of one vector; a line ends at a newline or a zero. *)
Fixpoint print_bytes (UTF8Decoder : bool) (bs z : list Z) : list jsstr * list Z :=
  match bs with
  | [] => ([], z)
  | y :: bs =>
      if (y =? 0) || (y =? 10) then
        let '(o, z') := print_bytes UTF8Decoder bs [] in (UTF8ArrayToString UTF8Decoder false z 0 None :: o, z')
      else print_bytes UTF8Decoder bs (z ++ [y])
  end.

Definition word32 (m : mem) (i : Z) : Z := match load32 m i with Some x => x | None => 0 end.

(** The bytes a vector names; a byte outside the memory ends the line like a zero. *)
Definition vector (m : mem) (p n : Z) : list Z := map (fun x => num8 m (p + Z.of_nat x)) (seq 0 (Z.to_nat n)).

Fixpoint write_vectors (UTF8Decoder : bool) (m : mem) (c : Z) (n : nat) (z : list Z) (f : Z) : list jsstr * list Z * Z :=
  match n with
  | O => ([], z, f)
  | S n =>
      let p := word32 m (js_sar c 2) in
      let g := word32 m (js_sar (c + 4) 2) in
      let '(o, z) := print_bytes UTF8Decoder (vector m p g) z in
      let '(o', z, f) := write_vectors UTF8Decoder m (c + 8) n z (f + g) in
      (o ++ o', z, f)
  end.

(** [fd_write] of the WebM and AV1 modules, for the two streams; what it prints, and the memory with the count. *)
Definition fd_write (UTF8Decoder : bool) (m : mem) (fd c d e : Z) (s : lines) : list jsstr * mem * lines :=
  let z := if fd =? 1 then out_line s else err_line s in
  let '(o, z, f) := write_vectors UTF8Decoder m c (Z.to_nat d) z 0 in
  (o, store32 m (js_sar e 2) f, if fd =? 1 then {| out_line := z; err_line := err_line s |} else {| out_line := out_line s; err_line := z |}).

(** ** Calls that catch [longjmp] *)

(** What can be thrown through a module. *)
Inductive thrown := Number (n : spec_float) | Text (t : jsstr) | Object.

(** [f!==f+0]: not a number, or [NaN]. *)
Definition not_number (f : thrown) : bool :=
  match f with Number S754_nan => true | Number _ => false | _ => true end.

Definition caught (f : thrown) : bool :=
  negb (not_number f && negb (match f with Text t => str_eqb t (js "longjmp") | _ => false end)).

(** The stack pointer of the module, and the calls of its function [setThrew]. *)
Record machine := { sp : Z; threw : list (Z * Z) }.

(** [try{return N(b)(...)}catch(f){V(d);if(...)throw f;T(1,0)}] *)
Definition invoke {A} (call : machine -> (A + thrown) * machine) (s : machine) : (option A + thrown) * machine :=
  let d := sp s in
  match call s with
  | (inl a, s) => (inl (Some a), s)
  | (inr f, s) =>
      let s := {| sp := d; threw := threw s |} in
      if caught f then (inl None, {| sp := sp s; threw := threw s ++ [(1, 0)] |}) else (inr f, s)
  end.

(** ** Properties *)

(** [overgrowth] and [scaled] are what doubles give. *)
Definition fifth : spec_float := S754_finite false 3602879701896397 (-54).
Definition double (n : Z) : spec_float := binary_normalize 53 1024 n 0 false.
Definition factor (d : Z) : spec_float := SFadd 53 1024 (double 1) (SFdiv 53 1024 fifth (double d)).

Definition as_units (x : spec_float) : Z :=
  match x with S754_finite false m e => Z.shiftl (Zpos m) (e + 52) | _ => 0 end.

Example overgrowth_doubles : map (fun d => as_units (factor d)) [1; 2; 4] = map overgrowth [1; 2; 4].
Proof. vm_compute. reflexivity. Qed.

Example scaled_doubles :
  forallb (fun p => forallb (fun d => as_units (SFmul 53 1024 (double (65536 * p)) (factor d)) =? scaled (65536 * p) d) [1; 2; 4])
    (map Z.of_nat (seq 1 600)) = true.
Proof. vm_compute. reflexivity. Qed.

Lemma target_bounds c b d : 0 <= b -> exists q, target c b d = 65536 * q /\ b <= 65536 * q <= b + 100663296 + 65535.
Proof.
  intros Hb. unfold target. set (e := Z.max _ _).
  assert (H : b * 2 ^ 52 <= e <= (b + 100663296) * 2 ^ 52) by (subst e; lia). clearbody e.
  exists ((e + 2 ^ 68 - 1) / 2 ^ 68). split; [done|]. pose proof (Z.div_mod (e + 2 ^ 68 - 1) (2 ^ 68)). pose proof (Z.mod_pos_bound (e + 2 ^ 68 - 1) (2 ^ 68)).
  change (2 ^ 68) with (65536 * 2 ^ 52) in *. nia.
Qed.

Lemma pages_bounds p c b d : c = 65536 * p -> 0 <= c <= b -> b <= 2 ^ 31 ->
  0 <= pages c b d /\ b <= c + 65536 * pages c b d <= Z.min (2 ^ 31) (b + 100663296 + 65535).
Proof.
  intros -> Hc Hb. destruct (target_bounds (65536 * p) b d ltac:(lia)) as (q & Hq & Hr). unfold pages. rewrite Hq.
  set (k := Z.min 32768 q). assert (Hk : Z.min 2147483648 (65536 * q) = 65536 * k) by (subst k; lia). assert (p <= k) by lia. rewrite Hk.
  unfold js_ushr. rewrite to_uint32_small by lia. change (to_uint32 16 mod 32) with 16. rewrite Z.shiftr_div_pow2 by lia.
  change (2 ^ 16) with 65536. replace (65536 * k - 65536 * p + 65535) with (65535 + (k - p) * 65536) by lia. rewrite Z.div_add by lia.
  change (65535 / 65536) with 0. lia.
Qed.

(** What was asked, in order, was refused up to the page number that is returned. *)
Lemma attempts_spec (P : Z -> Prop) grow n : forall c b d k, (forall d, P (pages c b d)) ->
  let '(r, l) := attempts grow n c b d k in
  Forall P l /\ (length l <= n)%nat /\
  match r with
  | Some x => exists l', l = l' ++ [x] /\ (forall i y, l' !! i = Some y -> grow (k + i)%nat y = false) /\ grow (k + length l')%nat x = true
  | None => length l = n /\ forall i y, l !! i = Some y -> grow (k + i)%nat y = false
  end.
Proof.
  induction n as [|n IH]; intros c b d k HP; cbn [attempts]; [done|]. destruct (grow k (pages c b d)) eqn:E.
  - split; [by apply Forall_singleton|]. split; [cbn; lia|]. exists []. split; [done|]. split; [done|]. by rewrite Nat.add_0_r.
  - specialize (IH c b (d * 2) (S k) HP). destruct (attempts grow n c b (d * 2) (S k)) as [r l]. destruct IH as (H1 & H2 & H3).
    split; [by constructor|]. split; [cbn; lia|]. assert (Hi : forall l0 : list Z, (forall i y, l0 !! i = Some y -> grow (S k + i)%nat y = false) ->
      forall i y, (pages c b d :: l0) !! i = Some y -> grow (k + i)%nat y = false).
    { intros l0 H [|i] y Hy; cbn in Hy; [injection Hy as <-; by rewrite Nat.add_0_r|]. rewrite Nat.add_succ_r. by apply H. }
    destruct r as [x|].
    + destruct H3 as (l' & -> & H3 & H4). exists (pages c b d :: l'). split; [done|]. split; [by apply Hi|]. cbn [length]. by rewrite Nat.add_succ_r.
    + destruct H3 as [H3 H4]. split; [cbn; lia|by apply Hi].
Qed.

(** Growing the memory.  A request beyond 2 GiB fails without asking.  Any other asks the engine at most three times,
    each time for a size that holds what was requested, is at most 2 GiB and at most 96 MiB and a page more than was
    requested; it succeeds with the first size the engine accepts, and fails only when all three are refused. *)
Theorem resize_heap_bounds (grow : nat -> Z -> bool) (p b : Z) :
  let c := 65536 * p in
  0 <= c <= to_uint32 b ->
  let '(r, asked) := resize_heap grow c b in
  (2 ^ 31 < to_uint32 b -> r = None /\ asked = [])
  /\ (length asked <= 3)%nat
  /\ Forall (fun n => 0 <= n /\ to_uint32 b <= c + 65536 * n <= Z.min (2 ^ 31) (to_uint32 b + 100663296 + 65535)) asked
  /\ (to_uint32 b <= 2 ^ 31 ->
      match r with
      | Some n => exists before, asked = before ++ [n] /\ (forall i m, before !! i = Some m -> grow i m = false) /\ grow (length before) n = true
      | None => length asked = 3%nat /\ forall i m, asked !! i = Some m -> grow i m = false
      end).
Proof.
  intros c Hc. unfold resize_heap. change 2147483648 with (2 ^ 31). destruct (2 ^ 31 <? to_uint32 b) eqn:E; bool_prop.
  { split; [done|]. split; [cbn; lia|]. split; [constructor|]. lia. }
  pose proof (attempts_spec (fun n => 0 <= n /\ to_uint32 b <= c + 65536 * n <= Z.min (2 ^ 31) (to_uint32 b + 100663296 + 65535)) grow 3 c (to_uint32 b) 1 0) as H.
  destruct (attempts grow 3 c (to_uint32 b) 1 0) as [r l]. destruct H as (H1 & H2 & H3).
  { intros d. by apply (pages_bounds p). }
  split; [lia|]. done.
Qed.

Lemma resize_heap_witness : 0 <= 65536 * 256 <= to_uint32 20000000 /\
  let '(r, asked) := resize_heap (fun i _ => (1 <=? i)%nat) (65536 * 256) 20000000 in
  (2 ^ 31 < to_uint32 20000000 -> r = None /\ asked = [])
  /\ (length asked <= 3)%nat
  /\ Forall (fun n => 0 <= n /\ to_uint32 20000000 <= 65536 * 256 + 65536 * n <= Z.min (2 ^ 31) (to_uint32 20000000 + 100663296 + 65535)) asked
  /\ (to_uint32 20000000 <= 2 ^ 31 ->
      match r with
      | Some n => exists before, asked = before ++ [n] /\ (forall i m, before !! i = Some m -> (1 <=? i)%nat = false) /\ (1 <=? length before)%nat = true
      | None => length asked = 3%nat /\ forall i m, asked !! i = Some m -> (1 <=? i)%nat = false
      end).
Proof. split; [vm_compute; split; discriminate|]. apply (resize_heap_bounds (fun i _ => (1 <=? i)%nat) 256 20000000). vm_compute. split; discriminate. Defined.

(** A sixteen-megabyte memory, asked for a little more, grows by a fifth; when that is refused, by a tenth. *)
Example growth : resize_heap (fun i _ => (1 <=? i)%nat) 16777216 16800000 = (Some 26, [52; 26]).
Proof. vm_compute. reflexivity. Qed.

(** [longjmp] and the numbers C++ throws are caught, with the stack restored; everything else goes on, with the stack
    restored too. *)
Theorem invoke_spec {A} (call : machine -> (A + thrown) * machine) (s : machine) :
  let '(r, s') := invoke call s in
  match fst (call s) with
  | inl a => r = inl (Some a) /\ s' = snd (call s)
  | inr f => sp s' = sp s /\ if caught f then r = inl None /\ threw s' = threw (snd (call s)) ++ [(1, 0)] else r = inr f /\ threw s' = threw (snd (call s))
  end.
Proof. unfold invoke. destruct (call s) as [[a|f] s1]; cbn; [done|]. by destruct (caught f). Qed.

(** Lines of a print: bytes without a newline wait; a newline prints them with those that waited. *)
Lemma print_bytes_app u bs1 : forall bs2 z, print_bytes u (bs1 ++ bs2) z =
  let '(o1, z1) := print_bytes u bs1 z in let '(o2, z2) := print_bytes u bs2 z1 in (o1 ++ o2, z2).
Proof.
  induction bs1 as [|y bs1 IH]; intros bs2 z; cbn [app print_bytes]; [by destruct (print_bytes u bs2 z)|].
  destruct (_ || _); rewrite IH; [|done]. destruct (print_bytes u bs1 []) as [o1 z1]. by destruct (print_bytes u bs2 z1).
Qed.

Theorem print_line (u : bool) (bs rest z : list Z) : Forall (fun y => y <> 0 /\ y <> 10) bs ->
  print_bytes u (bs ++ 10 :: rest) z
  = (UTF8ArrayToString u false (z ++ bs) 0 None :: fst (print_bytes u rest []), snd (print_bytes u rest [])).
Proof.
  intros Hb. revert z. induction Hb as [|y bs [H0 H1] Hb IH]; intros z; cbn [app print_bytes].
  - rewrite app_nil_r. cbn. by destruct (print_bytes u rest []).
  - rewrite (proj2 (Z.eqb_neq y 0)), (proj2 (Z.eqb_neq y 10)) by done. cbn [orb]. by rewrite IH, <- (assoc_L (++)).
Qed.
