(* ===== verification/OgvVideo.v ===== *)
(** * The video decoders of ogv.js
      ([integrations/lan-remote-access/rustdesk-web-open/ogvjs-1.8.6/ogv-decoder-video-vp8-wasm.js] and the decoders for
      VP9, AV1 and Theora, which have the same text)

    The module of a decoder calls back with the planes of a picture in its memory.  The
    decoder copies them into a frame, blanks what lies outside the visible part, and
    leaves the frame for the player, who may give it back to be used again.  Frames are
    objects: a store holds them, and the player and the list of frames to reuse refer to
    them. *)

From stdpp Require Import base list numbers strings gmap.
From Stdlib Require Import ZArith Lia.
From S2P Require Import Prelude JsString OpusText OpusMemfs.
Local Open Scope Z_scope.

(** ** Copying a plane *)

(** A quotient of whole numbers with a positive denominator.  It is kept exact.  The code divides doubles, which gives the
    same number where that is whole or a half: so it is when a chroma plane has the size of the picture or half of it
    ([sampled] below), and the theorem on the bytes of a frame is about such pictures. *)
Record quotient := { num : Z; den : Z }.
Definition whole (n : Z) : quotient := {| num := n; den := 1 |}.
Definition plus (a b : quotient) : quotient := {| num := num a * den b + num b * den a; den := den a * den b |}.
Definition is_whole (a : quotient) : bool := num a mod den a =? 0.

(** How many of [0], [1], ... are below the quotient: the turns of [for(h=0;h<a;h++)]. *)
Definition below (a : quotient) : Z := Z.max 0 ((num a + den a - 1) / den a).

Definition set_byte (z : list Z) (i x : Z) : list Z := if i <? 0 then z else <[Z.to_nat i := x]> z.

(** [for(...;n turns;h++)z[r+h]=S], from the position [i] on. *)
Fixpoint fill (n : nat) (z : list Z) (i S : Z) : list Z :=
  match n with
  | O => z
  | Datatypes.S n => fill n (set_byte z i S) (i + 1) S
  end.

(** The loops over columns of one row: all of it; or left and right of the visible part.  A store at a position that is
    not whole does nothing. *)
Definition blank_row (u S : Z) (z : list Z) (r : Z) : list Z := fill (Z.to_nat u) z r S.

Definition blank_sides (u : Z) (Aa Sa : quotient) (S : Z) (z : list Z) (r : Z) : list Z :=
  let z := fill (Z.to_nat (below Aa)) z r S in
  let from := plus Aa Sa in
  if is_whole from then let h := num from / den from in fill (Z.to_nat (u - h)) z (r + h) S else z.

(** [n] turns of a loop over rows. *)
Fixpoint rows (row : list Z -> Z -> list Z) (n : nat) (u : Z) (z : list Z) (r : Z) : list Z :=
  match n with
  | O => z
  | S n => rows row n u (row z r) (r + u)
  end.

(** [z.set(new Uint8Array(Ua,h,n))] *)
Definition set_from (z heap : list Z) (h n : Z) : result (list Z) :=
  if (h <? 0) || (n <? 0) || (Z.of_nat (length heap) <? h + n) || (Z.of_nat (length z) <? n) then Throw (PlatformError "RangeError")
  else Ok (take (Z.to_nat n) (drop (Z.to_nat h) heap) ++ drop (Z.to_nat n) z).

(** [fa]: the plane of [za] rows of [u] bytes at [h], with [S] outside the part that starts at column [Aa] and row [Ba] and
    has [Sa] columns and [Ta] rows. *)
Definition copy_plane (z heap : list Z) (h u za : Z) (Aa Ba Sa Ta : quotient) (S : Z) : result (list Z) :=
  let? z := set_from z heap h (u * za) in
  let top := below Ba in
  let bottom := Z.max top (below (plus Ba Ta)) in
  let z := rows (blank_row u S) (Z.to_nat top) u z 0 in
  let z := rows (blank_sides u Aa Sa S) (Z.to_nat (bottom - top)) u z (top * u) in
  Ok (rows (blank_row u S) (Z.to_nat (za - bottom)) u z (bottom * u)).

(** ** Frames *)

Record fmt := {
  width : Z; height : Z; chromaWidth : Z; chromaHeight : Z;
  cropLeft : Z; cropTop : Z; cropWidth : Z; cropHeight : Z; displayWidth : Z; displayHeight : Z
}.
Record plane := { bytes : list Z; stride : Z }.
Record vframe := { format : fmt; y : plane; u : plane; v : plane }.

#[export] Instance fmt_eq_dec : EqDecision fmt.
Proof. solve_decision. Defined.

(** The arguments the module calls back with. *)
Record picture := {
  bufferY : Z; strideY : Z; bufferCb : Z; strideCb : Z; bufferCr : Z; strideCr : Z;
  p_width : Z; p_height : Z; p_chromaWidth : Z; p_chromaHeight : Z;
  picWidth : Z; picHeight : Z; picX : Z; picY : Z; p_displayWidth : Z; p_displayHeight : Z
}.

Record decoder := {
  frames : gmap nat vframe;              (* the frame objects *)
  next : nat;
  recycledFrames : list nat;
  frameBuffer : option nat;
  videoFormat : option fmt
}.

Definition new_decoder (f : option fmt) : decoder :=
  {| frames := empty; next := 0; recycledFrames := []; frameBuffer := None; videoFormat := f |}.

Definition set_recycled (l : list nat) (s : decoder) : decoder :=
  {| frames := frames s; next := next s; recycledFrames := l; frameBuffer := frameBuffer s; videoFormat := videoFormat s |}.
Definition set_frame (w : nat) (f : vframe) (s : decoder) : decoder :=
  {| frames := <[w := f]> (frames s); next := next s; recycledFrames := recycledFrames s; frameBuffer := frameBuffer s; videoFormat := videoFormat s |}.
Definition set_frameBuffer (w : nat) (s : decoder) : decoder :=
  {| frames := frames s; next := next s; recycledFrames := recycledFrames s; frameBuffer := Some w; videoFormat := videoFormat s |}.

(** The format of the frame; a picture of the visible size of the video is shown in the size the video asks for. *)
Definition frame_format (k : fmt) (p : picture) : fmt :=
  let d := if (picWidth p =? cropWidth k) && (picHeight p =? cropHeight k) then (displayWidth k, displayHeight k)
           else (p_displayWidth p, p_displayHeight p) in
  {| width := p_width p; height := p_height p; chromaWidth := p_chromaWidth p; chromaHeight := p_chromaHeight p;
     cropLeft := picX p; cropTop := picY p; cropWidth := picWidth p; cropHeight := picHeight p;
     displayWidth := fst d; displayHeight := snd d |}.

Definition size_y (p : picture) : Z := p_height p * strideY p.
Definition size_u (p : picture) : Z := p_chromaHeight p * strideCb p.
Definition size_v (p : picture) : Z := p_chromaHeight p * strideCr p.

Definition fits (f : fmt) (p : picture) (J : vframe) : bool :=
  bool_decide (format J = f) && (Z.of_nat (length (bytes (y J))) =? size_y p)
  && (Z.of_nat (length (bytes (u J))) =? size_u p) && (Z.of_nat (length (bytes (v J))) =? size_v p).

(** The frames that do not fit are taken from the list for good. *)
Fixpoint take_fitting (store : gmap nat vframe) (f : fmt) (p : picture) (l : list nat) : option nat * list nat :=
  match l with
  | [] => (None, [])
  | J :: l =>
      match store !! J with
      | Some fr => if fits f p fr then (Some J, l) else take_fitting store f p l
      | None => take_fitting store f p l
      end
  end.

Definition zeros (n : Z) : list Z := repeat 0 (Z.to_nat n).

Definition new_frame (f : fmt) (p : picture) : vframe :=
  {| format := f; y := {| bytes := zeros (size_y p); stride := strideY p |};
     u := {| bytes := zeros (size_u p); stride := strideCb p |}; v := {| bytes := zeros (size_v p); stride := strideCr p |} |}.

Definition allocate (f : fmt) (p : picture) (s : decoder) : result nat * decoder :=
  if (size_y p <? 0) || (size_u p <? 0) || (size_v p <? 0) then (Throw (PlatformError "RangeError"), s)
  else (Ok (next s), {| frames := <[next s := new_frame f p]> (frames s); next := Datatypes.S (next s);
                        recycledFrames := recycledFrames s; frameBuffer := frameBuffer s; videoFormat := videoFormat s |}).

Definition pick (f : fmt) (p : picture) (s : decoder) : result nat * decoder :=
  let '(w, l) := take_fitting (frames s) f p (recycledFrames s) in
  let s := set_recycled l s in
  match w with Some J => (Ok J, s) | None => allocate f p s end.

(** [(Q&-2)*P/l] and the like. *)
Definition even (x : Z) : Z := js_and x (-2).
Definition chroma_left (p : picture) : quotient := {| num := even (picX p) * p_chromaWidth p; den := p_width p |}.
Definition chroma_top (p : picture) : quotient := {| num := even (picY p) * p_chromaHeight p; den := p_height p |}.
Definition chroma_width (p : picture) : quotient := {| num := picWidth p * p_chromaWidth p; den := p_width p |}.
Definition chroma_height (p : picture) : quotient := {| num := picHeight p * p_chromaHeight p; den := p_height p |}.

Definition with_y (f : vframe) (b : list Z) : vframe := {| format := format f; y := {| bytes := b; stride := stride (y f) |}; u := u f; v := v f |}.
Definition with_u (f : vframe) (b : list Z) : vframe := {| format := format f; y := y f; u := {| bytes := b; stride := stride (u f) |}; v := v f |}.
Definition with_v (f : vframe) (b : list Z) : vframe := {| format := format f; y := y f; u := u f; v := {| bytes := b; stride := stride (v f) |} |}.

Definition luma (heap : list Z) (p : picture) (z : list Z) : result (list Z) :=
  copy_plane z heap (bufferY p) (strideY p) (p_height p) (whole (picX p)) (whole (picY p)) (whole (picWidth p)) (whole (picHeight p)) 0.
Definition chroma (heap : list Z) (p : picture) (h st : Z) (z : list Z) : result (list Z) :=
  copy_plane z heap h st (p_chromaHeight p) (chroma_left p) (chroma_top p) (chroma_width p) (chroma_height p) 128.

(** The planes are copied one after the other into the frame, which keeps the planes copied before one that fails. *)
Definition copy_planes (heap : list Z) (p : picture) (f : vframe) : result unit * vframe :=
  match luma heap p (bytes (y f)) with
  | Throw e => (Throw e, f)
  | Ok b =>
      let f := with_y f b in
      match chroma heap p (bufferCb p) (strideCb p) (bytes (u f)) with
      | Throw e => (Throw e, f)
      | Ok b =>
          let f := with_u f b in
          match chroma heap p (bufferCr p) (strideCr p) (bytes (v f)) with
          | Throw e => (Throw e, f)
          | Ok b => (Ok tt, with_v f b)
          end
      end
  end.

(** The callback. *)
Definition on_frame (heap : list Z) (p : picture) (s : decoder) : result unit * decoder :=
  match videoFormat s with
  | None => (Throw type_error, s)
  | Some k =>
      match pick (frame_format k p) p s with
      | (Throw e, s) => (Throw e, s)
      | (Ok w, s) =>
          match frames s !! w with
          | None => (Throw type_error, s)              (* does not occur: a frame of the list is in the store *)
          | Some f =>
              match copy_planes heap p f with
              | (Throw e, f) => (Throw e, set_frame w f s)
              | (Ok _, f) => (Ok tt, set_frameBuffer w (set_frame w f s))
              end
          end
      end
  end.

(** [recycleFrame]: at most sixteen frames are kept. *)
Definition recycleFrame (b : nat) (s : decoder) : decoder :=
  let c := recycledFrames s ++ [b] in
  set_recycled (if (16 <? length c)%nat then tail c else c) s.

(** The callback of the Theora module that announces the video. *)
Definition on_init (f : fmt) (s : decoder) : decoder :=
  {| frames := frames s; next := next s; recycledFrames := recycledFrames s; frameBuffer := frameBuffer s; videoFormat := Some f |}.

(** ** A plane after copying *)

Lemma set_byte_lookup z i x (k : nat) : 0 <= i -> set_byte z i x !! k = if (Z.of_nat k =? i) && (k <? length z)%nat then Some x else z !! k.
Proof.
  intros Hi. unfold set_byte. rewrite (proj2 (Z.ltb_ge i 0)) by lia. destruct (Z.eqb_spec (Z.of_nat k) i) as [<-|Hne]; cbn [andb].
  - rewrite Nat2Z.id. destruct (Nat.ltb_spec k (length z)); [by rewrite list_lookup_insert_eq|].
    by rewrite list_insert_ge by lia.
  - rewrite list_lookup_insert_ne by lia. done.
Qed.

Lemma set_byte_length z i x : length (set_byte z i x) = length z.
Proof. unfold set_byte. case_match; [done|apply length_insert]. Qed.

(** [z'] is [z] with [S] where [at_] holds. *)
Definition blanked (at_ : Z -> bool) (S : Z) (z z' : list Z) : Prop :=
  length z' = length z /\ forall k : nat, z' !! k = if at_ (Z.of_nat k) && (k <? length z)%nat then Some S else z !! k.

Lemma blanked_trans f g h S z z1 z2 : (forall k, 0 <= k -> h k = f k || g k) -> blanked f S z z1 -> blanked g S z1 z2 -> blanked h S z z2.
Proof.
  intros Hh [L1 H1] [L2 H2]. split; [congruence|]. intros k. rewrite H2, H1, Hh, L1 by lia.
  by destruct (f _), (g _), (k <? length z)%nat.
Qed.

Lemma blanked_ext f g S z z' : (forall k, 0 <= k -> f k = g k) -> blanked f S z z' -> blanked g S z z'.
Proof. intros He [L H]. split; [done|]. intros k. by rewrite H, He by lia. Qed.

Lemma blanked_refl f S z : (forall k, 0 <= k -> f k = false) -> blanked f S z z.
Proof. intros Hf. split; [done|]. intros k. by rewrite Hf by lia. Qed.

(** The interval [[a, b)]. *)
Definition within (a b k : Z) : bool := (a <=? k) && (k <? b).

Ltac by_cases := repeat match goal with
  | |- context [?a <=? ?b] => destruct (Z.leb_spec a b)
  | |- context [?a <? ?b] => destruct (Z.ltb_spec a b)
  | |- context [?a =? ?b] => destruct (Z.eqb_spec a b) end; cbn; try done; try lia.

Lemma fill_blanked n S : forall z i, 0 <= i -> blanked (within i (i + Z.of_nat n)) S z (fill n z i S).
Proof.
  induction n as [|n IH]; intros z i Hi; cbn [fill].
  - apply blanked_refl. intros k Hk. unfold within. by_cases.
  - eapply (blanked_trans (fun k => k =? i)); [..|apply IH; lia].
    + intros k Hk. unfold within. by_cases.
    + split; [apply set_byte_length|]. intros k. by apply set_byte_lookup.
Qed.

(** A row function that blanks the columns [f] of the row at [r]. *)
Definition row_blanks (u S : Z) (f : Z -> bool) (row : list Z -> Z -> list Z) : Prop :=
  forall z r, 0 <= r -> blanked (fun k => within r (r + u) k && f (k - r)) S z (row z r).

Lemma rows_blanked u S f row : 0 < u -> row_blanks u S f row -> forall n z r, 0 <= r ->
  blanked (fun k => within r (r + Z.of_nat n * u) k && f ((k - r) mod u)) S z (rows row n u z r).
Proof.
  intros Hu Hrow. induction n as [|n IH]; intros z r Hr; cbn [rows].
  - apply blanked_refl. intros k Hk. unfold within. by_cases.
  - eapply blanked_trans; [|exact (Hrow z r Hr)|apply IH; lia]. intros k Hk. cbn beta. unfold within.
    rewrite Nat2Z.inj_succ, Z.mul_succ_l. assert (0 <= Z.of_nat n * u) by lia. destruct (Z.lt_ge_cases k (r + u)).
    + destruct (Z.lt_ge_cases k r); [by_cases|]. rewrite (Z.mod_small (k - r)) by lia. by_cases; by rewrite ?orb_false_r.
    + replace (k - r) with (k - (r + u) + 1 * u) at 1 by lia. rewrite Z.mod_add by lia. by_cases.
Qed.

Lemma blank_row_blanks u S : 0 <= u -> row_blanks u S (fun _ => true) (blank_row u S).
Proof. intros Hu z r Hr. eapply blanked_ext; [|apply fill_blanked; lia]. intros k Hk. rewrite Z2Nat.id by lia. by rewrite andb_true_r. Qed.

(** Left of the visible part, or right of it when that begins at a whole position. *)
Definition beside (Aa Sa : quotient) (c : Z) : bool :=
  (c <? below Aa) || (is_whole (plus Aa Sa) && (num (plus Aa Sa) / den (plus Aa Sa) <=? c)).

Lemma blank_sides_blanks u S Aa Sa : 0 <= u -> below Aa <= u -> 0 <= num (plus Aa Sa) -> 0 < den (plus Aa Sa) ->
  row_blanks u S (beside Aa Sa) (blank_sides u Aa Sa S).
Proof.
  intros Hu Ha Hn Hd z r Hr. assert (0 <= below Aa) by (unfold below; lia). unfold blank_sides. cbn zeta.
  pose proof (fill_blanked (Z.to_nat (below Aa)) S z r Hr) as H1. rewrite Z2Nat.id in H1 by lia.
  destruct (is_whole (plus Aa Sa)) eqn:E; unfold beside; rewrite E; cbn [andb].
  - set (h := num (plus Aa Sa) / den (plus Aa Sa)). assert (0 <= h) by (apply Z.div_pos; lia).
    eapply blanked_trans; [|exact H1|apply fill_blanked; lia]. intros k Hk. cbn beta. unfold within.
    destruct (Z.le_gt_cases h u); [rewrite Z2Nat.id by lia|replace (Z.to_nat (u - h)) with 0%nat by lia]; by_cases.
  - eapply blanked_ext; [|exact H1]. intros k Hk. cbn beta. unfold within. by_cases.
Qed.

(** Whether the loops leave a byte of the plane. *)
Definition visible (Aa Ba Sa Ta : quotient) (row col : Z) : bool :=
  (below Ba <=? row) && (row <? below (plus Ba Ta)) && negb (beside Aa Sa col).

(** [z] is the plane at [h] with [S] where the loops store it. *)
Definition shows (heap : list Z) (h u za : Z) (Aa Ba Sa Ta : quotient) (S : Z) (z : list Z) : Prop :=
  Z.of_nat (length z) = u * za /\
  forall row col, 0 <= row < za -> 0 <= col < u ->
    z !! Z.to_nat (row * u + col) = if visible Aa Ba Sa Ta row col then heap !! Z.to_nat (h + row * u + col) else Some S.

(** The plane lies in the memory, and the visible part begins in it. *)
Definition plane_ok (heap : list Z) (h u za : Z) (Aa Ba Sa Ta : quotient) : Prop :=
  0 <= h /\ 0 < u /\ 0 < za /\ h + u * za <= Z.of_nat (length heap) /\ below Aa <= u
  /\ 0 <= num (plus Aa Sa) /\ 0 < den (plus Aa Sa).

Lemma copy_plane_spec heap h u za Aa Ba Sa Ta S z :
  plane_ok heap h u za Aa Ba Sa Ta -> Z.of_nat (length z) = u * za ->
  exists z', copy_plane z heap h u za Aa Ba Sa Ta S = Ok z' /\ shows heap h u za Aa Ba Sa Ta S z'.
Proof.
  intros (Hh & Hu & Hz & Hr & Ha & Hn & Hd) Hl. unfold copy_plane, set_from.
  assert (0 < u * za) by nia.
  rewrite (proj2 (Z.ltb_ge h 0)), (proj2 (Z.ltb_ge (u * za) 0)), (proj2 (Z.ltb_ge (Z.of_nat (length heap)) _)), (proj2 (Z.ltb_ge (Z.of_nat (length z)) _)) by lia.
  cbn [orb rbind]. rewrite (drop_ge z), app_nil_r by lia. set (z0 := take _ _).
  assert (L0 : length z0 = Z.to_nat (u * za)) by (subst z0; rewrite length_take, length_drop; lia).
  set (top := below Ba). set (bottom := Z.max top (below (plus Ba Ta))).
  assert (0 <= top) by (subst top; unfold below; lia). assert (top <= bottom) by (subst bottom; lia).
  pose proof (rows_blanked u S _ _ Hu (blank_row_blanks u S ltac:(lia)) (Z.to_nat top) z0 0 ltac:(lia)) as B1.
  set (z1 := rows _ _ u z0 0) in *.
  pose proof (rows_blanked u S _ _ Hu (blank_sides_blanks u S Aa Sa ltac:(lia) Ha Hn Hd) (Z.to_nat (bottom - top)) z1 (top * u) ltac:(nia)) as B2.
  set (z2 := rows (blank_sides _ _ _ _) _ _ _ _) in *.
  pose proof (rows_blanked u S _ _ Hu (blank_row_blanks u S ltac:(lia)) (Z.to_nat (za - bottom)) z2 (bottom * u) ltac:(nia)) as B3.
  set (z3 := rows _ (Z.to_nat (za - bottom)) u z2 _) in *.
  eexists. split; [reflexivity|]. destruct B1 as [L1 B1], B2 as [L2 B2], B3 as [L3 B3]. split; [lia|].
  intros row col Hrow Hcol. assert (0 <= row * u + col < u * za) by nia.
  assert (E1 : forall n, (n * u <=? row * u + col) = (n <=? row)) by (intros n; destruct (Z.leb_spec n row); [apply Z.leb_le|apply Z.leb_gt]; nia).
  assert (E2 : forall n, (row * u + col <? n * u) = (row <? n)) by (intros n; destruct (Z.ltb_spec row n); [apply Z.ltb_lt|apply Z.ltb_ge]; nia).
  assert (Hz0 : z0 !! Z.to_nat (row * u + col) = heap !! Z.to_nat (h + row * u + col)).
  { subst z0. rewrite lookup_take_lt by lia. rewrite lookup_drop. f_equal. lia. }
  assert (Hm : (row * u + col - top * u) mod u = col).
  { replace (row * u + col - top * u) with (col + (row - top) * u) by lia. rewrite Z.mod_add by lia. by apply Z.mod_small. }
  rewrite B3, B2, B1, L2, L1, L0, Hz0. rewrite (proj2 (Nat.ltb_lt _ _)), !andb_true_r by lia.
  rewrite (Z2Nat.id (row * u + col)), Hm, (Z2Nat.id top), (Z2Nat.id (bottom - top)) by lia.
  replace (Z.of_nat (Z.to_nat (za - bottom))) with (Z.max 0 (za - bottom)) by lia.
  rewrite <- !Z.mul_add_distr_r, !Z.add_0_l. unfold within. change 0 with (0 * u). rewrite !E1, !E2.
  unfold visible. fold top. clearbody z0 z1 z2 z3. clear - Hrow. subst bottom.
  destruct (beside Aa Sa col); by_cases.
Qed.

(** ** Frames of a decoder *)

(** A plane has its rows, or was handed to another thread, which leaves it empty. *)
Definition plane_wf (n : Z) (p : plane) : Prop := bytes p = [] \/ Z.of_nat (length (bytes p)) = stride p * n.
Definition frame_wf (f : vframe) : Prop :=
  plane_wf (height (format f)) (y f) /\ plane_wf (chromaHeight (format f)) (u f) /\ plane_wf (chromaHeight (format f)) (v f).
Definition decoder_wf (s : decoder) : Prop :=
  map_Forall (fun w f => frame_wf f /\ (w < next s)%nat) (frames s) /\ Forall (fun w => is_Some (frames s !! w)) (recycledFrames s).

Lemma copy_plane_length z heap h u za Aa Ba Sa Ta S z' : copy_plane z heap h u za Aa Ba Sa Ta S = Ok z' -> length z' = length z.
Proof.
  assert (Hs : forall i x l, length (set_byte l i x) = length l) by (intros; apply set_byte_length).
  assert (Hf : forall n l i x, length (fill n l i x) = length l) by (induction n; intros; cbn [fill]; [done|]; rewrite IHn; apply Hs).
  assert (Hr : forall row, (forall l r, length (row l r) = length l) -> forall n u l r, length (rows row n u l r) = length l)
    by (intros row Hrow; induction n; intros; cbn [rows]; [done|]; rewrite IHn; apply Hrow).
  assert (Hside : forall l r, length (blank_sides u Aa Sa S l r) = length l) by (intros; unfold blank_sides; case_match; by rewrite ?Hf).
  unfold copy_plane, set_from. destruct (_ || _) eqn:E; cbn [rbind]; [done|]. intros [= <-]. bool_prop.
  rewrite !Hr by (intros; first [apply Hside|apply Hf]). rewrite length_app, length_take, !length_drop. lia.
Qed.

Lemma take_fitting_spec store f p l : let '(w, l') := take_fitting store f p l in
  (exists l0, l = l0 ++ match w with Some J => J :: l' | None => l' end) /\ match w with Some J => exists fr, store !! J = Some fr /\ fits f p fr = true | None => True end.
Proof.
  induction l as [|J l IH]; cbn [take_fitting]; [split; [by exists []|done]|].
  destruct (store !! J) as [fr|] eqn:E; [destruct (fits f p fr) eqn:Ef|]; [split; [by exists []|eauto]|..];
    destruct (take_fitting store f p l) as [w l'], IH as [[l0 ->] H]; (split; [by exists (J :: l0)|done]).
Qed.

(** The frame that is filled: one from the list, or a new one; its planes have the sizes of the picture. *)
Lemma pick_spec f p s : 0 <= size_y p -> 0 <= size_u p -> 0 <= size_v p -> exists w s' fr,
  pick f p s = (Ok w, s') /\ frames s' !! w = Some fr /\ fits f p fr = true
  /\ videoFormat s' = videoFormat s
  /\ (frames s' = frames s /\ next s' = next s /\ (exists l0, recycledFrames s = l0 ++ w :: recycledFrames s')
      \/ w = next s /\ next s' = S w /\ frames s' = <[w := new_frame f p]> (frames s) /\ fr = new_frame f p /\ recycledFrames s' = []).
Proof.
  intros Hy Hu Hv. unfold pick. pose proof (take_fitting_spec (frames s) f p (recycledFrames s)) as H.
  assert (Hnone : forall l, (fst (take_fitting (frames s) f p l) = None) -> snd (take_fitting (frames s) f p l) = []).
  { induction l as [|J l IH]; cbn [take_fitting]; [done|]. destruct (frames s !! J) as [fr|]; [destruct (fits f p fr)|]; done. }
  specialize (Hnone (recycledFrames s)). destruct (take_fitting _ _ _ _) as [[J|] l']; cbn [fst snd] in *.
  - destruct H as [[l0 Hl] (fr & H1 & H2)]. exists J, (set_recycled l' s), fr. repeat (split; [done|]). left. split; [done|]. split; [done|]. by exists l0.
  - rewrite Hnone in * by done. unfold allocate. rewrite (proj2 (Z.ltb_ge (size_y p) 0)), (proj2 (Z.ltb_ge (size_u p) 0)), (proj2 (Z.ltb_ge (size_v p) 0)) by lia. cbn [orb].
    eexists _, _, (new_frame f p). split; [reflexivity|]. cbn. split; [by rewrite lookup_insert_eq|]. split.
    + unfold fits. cbn. unfold zeros. rewrite !repeat_length, !Z2Nat.id, !Z.eqb_refl by lia. by rewrite bool_decide_true.
    + split; [done|]. right. done.
Qed.

(** The planes of the picture, as the callback announces them, are planes of the memory. *)
Definition luma_ok (heap : list Z) (p : picture) : Prop :=
  plane_ok heap (bufferY p) (strideY p) (p_height p) (whole (picX p)) (whole (picY p)) (whole (picWidth p)) (whole (picHeight p)).
Definition chroma_ok (heap : list Z) (p : picture) (h st : Z) : Prop :=
  plane_ok heap h st (p_chromaHeight p) (chroma_left p) (chroma_top p) (chroma_width p) (chroma_height p).
Definition picture_ok (heap : list Z) (p : picture) : Prop :=
  luma_ok heap p /\ chroma_ok heap p (bufferCb p) (strideCb p) /\ chroma_ok heap p (bufferCr p) (strideCr p).

Lemma plane_wf_stride n pl st : 0 < n -> 0 < st -> plane_wf n pl -> Z.of_nat (length (bytes pl)) = n * st -> stride pl = st.
Proof. intros Hn Hs [H|H] Hl; [rewrite H in Hl; cbn in Hl; nia|nia]. Qed.

Lemma new_frame_wf k p : 0 <= size_y p -> 0 <= size_u p -> 0 <= size_v p -> frame_wf (new_frame (frame_format k p) p).
Proof.
  unfold size_y, size_u, size_v. intros Hy Hu Hv. split; [|split]; right; cbn; unfold zeros, size_y, size_u, size_v; rewrite repeat_length; lia.
Qed.

(** The frame that is shown, in terms of the memory at the call. *)
Definition frame_shows (heap : list Z) (k : fmt) (p : picture) (f : vframe) : Prop :=
  format f = frame_format k p /\ stride (y f) = strideY p /\ stride (u f) = strideCb p /\ stride (v f) = strideCr p
  /\ shows heap (bufferY p) (strideY p) (p_height p) (whole (picX p)) (whole (picY p)) (whole (picWidth p)) (whole (picHeight p)) 0 (bytes (y f))
  /\ shows heap (bufferCb p) (strideCb p) (p_chromaHeight p) (chroma_left p) (chroma_top p) (chroma_width p) (chroma_height p) 128 (bytes (u f))
  /\ shows heap (bufferCr p) (strideCr p) (p_chromaHeight p) (chroma_left p) (chroma_top p) (chroma_width p) (chroma_height p) 128 (bytes (v f)).

Lemma copy_planes_spec heap k p f : picture_ok heap p -> frame_wf f -> fits (frame_format k p) p f = true ->
  exists f', copy_planes heap p f = (Ok tt, f') /\ frame_shows heap k p f'.
Proof.
  intros (Hy & Hu & Hv) (Wy & Wu & Wv) Hf. unfold luma_ok, chroma_ok in *. unfold fits in Hf. bool_prop. unfold size_y, size_u, size_v in *.
  pose proof Hy as (_ & Y1 & Y2 & _). pose proof Hu as (_ & U1 & U2 & _). pose proof Hv as (_ & V1 & V2 & _).
  destruct (copy_plane_spec _ _ _ _ _ _ _ _ 0 (bytes (y f)) Hy ltac:(lia)) as (by' & E1 & S1).
  destruct (copy_plane_spec _ _ _ _ _ _ _ _ 128 (bytes (u f)) Hu ltac:(lia)) as (bu & E2 & S2).
  destruct (copy_plane_spec _ _ _ _ _ _ _ _ 128 (bytes (v f)) Hv ltac:(lia)) as (bv & E3 & S3).
  unfold copy_planes, luma, chroma. rewrite E1. cbn [with_y u v y]. rewrite E2. cbn [with_u with_y u v y bytes]. rewrite E3.
  eexists. split; [reflexivity|]. unfold frame_shows. cbn.
  match goal with H : format f = _ |- _ => rewrite H in Wy, Wu, Wv |- * end. cbn in Wy, Wu, Wv.
  split; [done|]. split; [by apply (plane_wf_stride (p_height p))|]. split; [by apply (plane_wf_stride (p_chromaHeight p))|]. split; [by apply (plane_wf_stride (p_chromaHeight p))|]. done.
Qed.

Lemma copy_planes_wf heap p f : frame_wf f -> frame_wf (snd (copy_planes heap p f)).
Proof.
  assert (Hw : forall n pl b, length b = length (bytes pl) -> plane_wf n pl -> plane_wf n {| bytes := b; stride := stride pl |}).
  { intros n pl b Hl [H|H]; [left|right]; cbn; [|by rewrite Hl]. rewrite H in Hl. by destruct b. }
  intros (Hy & Hu & Hv). unfold copy_planes, luma, chroma.
  destruct (copy_plane (bytes (y f)) _ _ _ _ _ _ _ _ _) as [b1|e] eqn:E1; [|done]. apply copy_plane_length in E1. cbn [with_y u v y].
  destruct (copy_plane (bytes (u f)) _ _ _ _ _ _ _ _ _) as [b2|e] eqn:E2; [apply copy_plane_length in E2|].
  2: { split; [by apply Hw|done]. }
  cbn [with_u with_y u v y bytes]. destruct (copy_plane (bytes (v f)) _ _ _ _ _ _ _ _ _) as [b3|e] eqn:E3; [apply copy_plane_length in E3|]; split; cbn; auto.
Qed.

(** ** A player and its decoder *)

Inductive event :=
| Frame (heap : list Z) (p : picture)      (* the module has a picture *)
| Recycle (w : nat)                        (* the player gives a frame back *)
| Transfer (w : nat)                       (* the player hands its planes to another thread *)
| Announce (f : fmt).                      (* the module announces the video *)

Definition emptied (f : vframe) : vframe := with_v (with_u (with_y f []) []) [].

Definition step (e : event) (s : decoder) : result unit * decoder :=
  match e with
  | Frame heap p => on_frame heap p s
  | Recycle w => (Ok tt, recycleFrame w s)
  | Transfer w => (Ok tt, {| frames := alter emptied w (frames s); next := next s; recycledFrames := recycledFrames s;
                             frameBuffer := frameBuffer s; videoFormat := videoFormat s |})
  | Announce f => (Ok tt, on_init f s)
  end.

(** The decoder together with the frames the player holds, as they were when it got them. *)
Record session := { dec : decoder; held : gmap nat vframe }.

Definition play (se : session) (e : event) : session :=
  let '(r, s) := step e (dec se) in
  {| dec := s;
     held := match e with
             | Frame _ _ =>
                 match r, frameBuffer s with
                 | Ok _, Some w => match frames s !! w with Some f => <[w := f]> (held se) | None => held se end
                 | _, _ => held se
                 end
             | Recycle w => delete w (held se)
             | Transfer w => alter emptied w (held se)
             | Announce _ => held se
             end |}.

Definition plays (es : list event) (se : session) : session := fold_left play es se.

(** The player gives back and hands on only frames it holds. *)
Fixpoint fair (es : list event) (se : session) : bool :=
  match es with
  | [] => true
  | e :: es =>
      match e with Recycle w | Transfer w => bool_decide (is_Some (held se !! w)) | _ => true end && fair es (play se e)
  end.

Definition session_ok (se : session) : Prop :=
  decoder_wf (dec se) /\ NoDup (recycledFrames (dec se)) /\ (length (recycledFrames (dec se)) <= 16)%nat
  /\ map_Forall (fun w f => frames (dec se) !! w = Some f /\ w ∉ recycledFrames (dec se)) (held se).

(** Picking a frame takes it from the list and touches no other. *)
Lemma pick_ok k p se w s1 : session_ok se -> pick (frame_format k p) p (dec se) = (Ok w, s1) ->
  session_ok {| dec := s1; held := held se |} /\ w ∉ recycledFrames s1 /\ held se !! w = None /\ (w < next s1)%nat
  /\ videoFormat s1 = videoFormat (dec se) /\ exists fr, frames s1 !! w = Some fr /\ fits (frame_format k p) p fr = true /\ frame_wf fr.
Proof.
  intros ([Hf Hr] & Hnd & H16 & Hh) E. destruct (decide (0 <= size_y p /\ 0 <= size_u p /\ 0 <= size_v p)) as [(Hy & Hu & Hv)|Hneg].
  - destruct (pick_spec (frame_format k p) p (dec se) Hy Hu Hv) as (w' & s' & fr & E' & Hw & Hfit & Hvf & Hc). rewrite E in E'. injection E' as <- <-.
    destruct Hc as [(Hs & Hx & l0 & Hl)|(Hw1 & Hx & Hs & Hfr & Hl)].
    + rewrite Hl in Hr, Hnd, H16, Hh. apply NoDup_app in Hnd as (_ & _ & Hnd). apply NoDup_cons in Hnd as [Hni Hnd].
      apply Forall_app in Hr as [_ Hr]. apply Forall_cons in Hr as [_ Hr]. rewrite length_app in H16. cbn in H16.
      assert (Hnone : held se !! w = None).
      { destruct (held se !! w) eqn:E2; [|done]. destruct (Hh _ _ E2) as [_ Hnot]. exfalso. apply Hnot. apply elem_of_app. right. by left. }
      rewrite Hs in Hw. split; [|split; [done|split; [done|split; [by destruct (Hf _ _ Hw) as [_ ?]; rewrite Hx|split; [done|]]]]].
      * split; [split; cbn; rewrite Hs, ?Hx; [done|done]|]. split; [done|]. split; [cbn; lia|]. intros w2 f2 H2. cbn in *. rewrite Hs. destruct (Hh _ _ H2) as [? Hnot].
        split; [done|]. intros Hin. apply Hnot, elem_of_app. right. by right.
      * exists fr. rewrite Hs. split; [done|]. split; [done|]. by destruct (Hf _ _ Hw).
    + assert (Hnone : held se !! w = None).
      { destruct (held se !! w) eqn:E2; [|done]. destruct (Hh _ _ E2) as [H3 _]. destruct (Hf _ _ H3) as [_ ?]. lia. }
      pose proof (new_frame_wf k p Hy Hu Hv) as Hnew.
      split; [|split; [rewrite Hl; apply not_elem_of_nil|split; [done|split; [lia|split; [done|]]]]].
      * split; [split; cbn; rewrite ?Hs, ?Hx, ?Hl; [|done]|].
        { apply map_Forall_insert_2; [split; [done|lia]|]. intros w2 f2 H2. destruct (Hf _ _ H2). split; [done|lia]. }
        cbn. rewrite Hl. split; [constructor|]. split; [cbn; lia|]. intros w2 f2 H2. destruct (Hh _ _ H2) as [H3 _].
        rewrite Hs. split; [|apply not_elem_of_nil]. rewrite lookup_insert_ne; [done|]. intros <-. congruence.
      * exists fr. split; [done|]. split; [done|]. by rewrite Hfr.
  - exfalso. unfold pick in E. destruct (take_fitting _ _ _ _) as [[J|] l'] eqn:Et.
    + pose proof (take_fitting_spec (frames (dec se)) (frame_format k p) p (recycledFrames (dec se))) as Hsp. rewrite Et in Hsp.
      destruct Hsp as [_ (fr & _ & Hfit)]. unfold fits in Hfit. bool_prop. lia.
    + unfold allocate in E. destruct (_ || _) eqn:Eb; [done|]. bool_prop. lia.
Qed.

(** Writing a frame that nobody holds and that is not in the list. *)
Lemma session_write se s1 w f : session_ok {| dec := s1; held := held se |} -> w ∉ recycledFrames s1 -> held se !! w = None ->
  (w < next s1)%nat -> frame_wf f -> session_ok {| dec := set_frame w f s1; held := held se |}.
Proof.
  intros ([Hf Hr] & Hnd & H16 & Hh) Hw Hnone Hlt Hwf. cbn in *. split; [split|].
  - cbn. by apply map_Forall_insert_2.
  - cbn. eapply Forall_impl; [exact Hr|]. intros w2 H2. cbn. destruct (decide (w2 = w)) as [->|]; [by rewrite lookup_insert_eq|by rewrite lookup_insert_ne].
  - split; [done|]. split; [done|]. intros w2 f2 H2. cbn in *. destruct (Hh _ _ H2) as [H3 H4]. split; [|done]. rewrite lookup_insert_ne; [done|]. intros <-. congruence.
Qed.

Lemma emptied_wf f : frame_wf f -> frame_wf (emptied f).
Proof. intros _. split; [|split]; by left. Qed.

Lemma play_frame_ok heap p se : session_ok se -> session_ok (play se (Frame heap p)).
Proof.
  intros Hs. unfold play. cbn [step]. unfold on_frame. destruct (videoFormat (dec se)) as [k|]; [|done].
  destruct (pick (frame_format k p) p (dec se)) as [[w|e] s1] eqn:E.
  - destruct (pick_ok k p se w s1 Hs E) as (Ho & Hn & Hnone & Hlt & Hv & fr & Hfr & Hfit & Hwf). rewrite Hfr.
    pose proof (copy_planes_wf heap p fr Hwf) as Hwf'. destruct (copy_planes heap p fr) as [[[]|e] f]; cbn [snd] in Hwf'; [|by apply session_write].
    pose proof (session_write se s1 w f Ho Hn Hnone Hlt Hwf') as ([Hf Hr] & Hnd & H16 & Hh). cbn in *. rewrite lookup_insert_eq.
    split; [done|]. split; [done|]. split; [done|]. cbn. apply map_Forall_insert_2; [|done]. split; [by rewrite lookup_insert_eq|done].
  - unfold pick in E. destruct (take_fitting _ _ _ _) as [[J|] l'] eqn:Et; [done|]. unfold allocate in E. destruct (_ || _); [|done]. injection E as <- <-.
    destruct Hs as ([Hf Hr] & Hnd & H16 & Hh). pose proof (take_fitting_spec (frames (dec se)) (frame_format k p) p (recycledFrames (dec se))) as Hsp.
    rewrite Et in Hsp. destruct Hsp as [[l0 Hl] _]. rewrite Hl in Hr, Hnd, H16, Hh. apply NoDup_app in Hnd as (_ & _ & Hnd). apply Forall_app in Hr as [_ Hr].
    rewrite length_app in H16. split; [done|]. split; [done|]. split; [cbn; lia|]. intros w2 f2 H2. cbn in *. destruct (Hh _ _ H2) as [H3 Hnot].
    split; [done|]. intros Hin. apply Hnot, elem_of_app. by right.
Qed.

Lemma play_ok e se : session_ok se -> match e with Recycle w | Transfer w => is_Some (held se !! w) | _ => True end -> session_ok (play se e).
Proof.
  intros Hs He. destruct e as [heap p|w|w|f]; [by apply play_frame_ok|..]; destruct Hs as ([Hf Hr] & Hnd & H16 & Hh); unfold play; cbn [step].
  - destruct He as [fw Hw]. destruct (Hh _ _ Hw) as [Hin Hni].
    assert (Hnd' : NoDup (recycledFrames (dec se) ++ [w])).
    { apply NoDup_app. split; [done|]. split; [|apply NoDup_singleton]. intros x Hx ->%list_elem_of_singleton. done. }
    assert (Hr' : Forall (fun w => is_Some (frames (dec se) !! w)) (recycledFrames (dec se) ++ [w])) by (apply Forall_app; split; [done|apply Forall_singleton; eauto]).
    assert (Hh' : map_Forall (fun w' f => frames (dec se) !! w' = Some f /\ w' ∉ recycledFrames (dec se) ++ [w]) (delete w (held se))).
    { intros w2 f2 [Hne H2]%lookup_delete_Some. destruct (Hh _ _ H2) as [H3 H4]. split; [done|]. rewrite elem_of_app, list_elem_of_singleton. naive_solver. }
    unfold recycleFrame. destruct (16 <? _)%nat eqn:E.
    + apply Nat.ltb_lt in E. rewrite length_app in E. cbn in E. destruct (recycledFrames (dec se) ++ [w]) as [|x l] eqn:El; [apply (f_equal length) in El; rewrite length_app in El; cbn in El; lia|].
      apply (f_equal length) in El. rewrite length_app in El. cbn in El. apply NoDup_cons in Hnd' as [_ Hnd']. apply Forall_cons in Hr' as [_ Hr'].
      split; [done|]. split; [done|]. split; [cbn; lia|]. intros w2 f2 H2. destruct (Hh' _ _ H2) as [H3 H4]. split; [done|]. intros Hl. apply H4. by right.
    + apply Nat.ltb_ge in E. split; [done|]. split; [done|]. by split.
  - destruct He as [fw Hw]. split; [split|split; [done|split; [done|]]]; cbn.
    + intros w2 f2. rewrite lookup_alter. case_decide as Hd.
      * intros (f & H2 & ->)%fmap_Some. destruct (Hf _ _ H2). split; [by apply emptied_wf|by subst].
      * apply Hf.
    + eapply Forall_impl; [exact Hr|]. intros w2 [f2 H2]. cbn. rewrite lookup_alter. case_decide; [subst; rewrite H2|rewrite H2]; by eexists.
    + intros w2 f2. rewrite !lookup_alter. case_decide as Hd.
      * intros (f & H2 & ->)%fmap_Some. destruct (Hh _ _ H2) as [H3 H4]. rewrite H3. subst. done.
      * intros H2. by destruct (Hh _ _ H2).
  - by split.
Qed.

Lemma plays_ok es : forall se, fair es se = true -> session_ok se -> session_ok (plays es se).
Proof.
  induction es as [|e es IH]; intros se Hf Hs; [done|]. cbn [fair] in Hf. apply andb_true_iff in Hf as [He Hf]. apply IH; [done|]. apply play_ok; [done|].
  destruct e; try done; by apply bool_decide_eq_true in He.
Qed.

Definition new_session (f : option fmt) : session := {| dec := new_decoder f; held := empty |}.

Lemma new_session_ok f : session_ok (new_session f).
Proof. split; [split; [apply map_Forall_empty|constructor]|]. split; [constructor|]. split; [cbn; lia|]. apply map_Forall_empty. Qed.

(** C22. A frame the player holds does not change, whatever pictures come after it, until the player gives it back; and at
    most sixteen frames wait to be used again. *)
Theorem held_frames_unchanged (f : option fmt) (es : list event) :
  fair es (new_session f) = true ->
  let se := plays es (new_session f) in
  (forall w fr, held se !! w = Some fr -> frames (dec se) !! w = Some fr) /\ (length (recycledFrames (dec se)) <= 16)%nat.
Proof.
  intros Hf se. destruct (plays_ok es _ Hf (new_session_ok f)) as (_ & _ & H16 & Hh). split; [|done]. intros w fr Hw. by destruct (Hh _ _ Hw).
Qed.

(** *** The frame of a picture *)

(** A plane of [n] rows of [u] bytes that shows the rectangle of [w] by [h] bytes at column [l] and row [t] of the plane at [buf] in the
    memory, and [blank] everywhere else. *)
Definition plane_shows (heap : list Z) (buf u n l t w h blank : Z) (z : list Z) : Prop :=
  Z.of_nat (length z) = u * n /\
  forall row col, 0 <= row < n -> 0 <= col < u ->
    z !! Z.to_nat (row * u + col)
    = if (t <=? row) && (row <? t + h) && (l <=? col) && (col <? l + w) then heap !! Z.to_nat (buf + row * u + col) else Some blank.

(** Chroma planes of the size of the picture or of half of it, on each axis ([sx], [sy]); a visible part inside the picture that begins at
    even positions and covers whole chroma bytes; and planes that lie in the memory. *)
Record sampled (heap : list Z) (p : picture) (sx sy : Z) : Prop := {
  sm_ratio : (sx = 1 \/ sx = 2) /\ (sy = 1 \/ sy = 2);
  sm_chroma : 0 < p_chromaWidth p /\ 0 < p_chromaHeight p;
  sm_size : p_width p = sx * p_chromaWidth p /\ p_height p = sy * p_chromaHeight p;
  sm_limit : p_width p < 2 ^ 31 /\ p_height p < 2 ^ 31;
  sm_start : 0 <= picX p /\ 0 <= picY p /\ picX p mod 2 = 0 /\ picY p mod 2 = 0;
  sm_part : 0 <= picWidth p /\ 0 <= picHeight p /\ picWidth p mod sx = 0 /\ picHeight p mod sy = 0;
  sm_inside : picX p + picWidth p <= p_width p /\ picY p + picHeight p <= p_height p;
  sm_strides : p_width p <= strideY p /\ p_chromaWidth p <= strideCb p /\ p_chromaWidth p <= strideCr p;
  sm_y : 0 <= bufferY p /\ bufferY p + strideY p * p_height p <= Z.of_nat (length heap);
  sm_cb : 0 <= bufferCb p /\ bufferCb p + strideCb p * p_chromaHeight p <= Z.of_nat (length heap);
  sm_cr : 0 <= bufferCr p /\ bufferCr p + strideCr p * p_chromaHeight p <= Z.of_nat (length heap)
}.

(** A frame with the format and the strides of the picture, its visible part in the three planes, and black around it. *)
Definition frame_is (heap : list Z) (k : fmt) (p : picture) (sx sy : Z) (f : vframe) : Prop :=
  format f = frame_format k p /\ stride (y f) = strideY p /\ stride (u f) = strideCb p /\ stride (v f) = strideCr p
  /\ plane_shows heap (bufferY p) (strideY p) (p_height p) (picX p) (picY p) (picWidth p) (picHeight p) 0 (bytes (y f))
  /\ plane_shows heap (bufferCb p) (strideCb p) (p_chromaHeight p) (picX p / sx) (picY p / sy) (picWidth p / sx) (picHeight p / sy) 128 (bytes (u f))
  /\ plane_shows heap (bufferCr p) (strideCr p) (p_chromaHeight p) (picX p / sx) (picY p / sy) (picWidth p / sx) (picHeight p / sy) 128 (bytes (v f)).

(** The quotient is the whole number [n]. *)
Definition is_int (q : quotient) (n : Z) : Prop := num q = n * den q /\ 0 < den q.

Lemma is_int_whole n : is_int (whole n) n.
Proof. split; cbn; lia. Qed.

Lemma is_int_plus a b n m : is_int a n -> is_int b m -> is_int (plus a b) (n + m).
Proof. intros [E1 H1] [E2 H2]. split; cbn; [rewrite E1, E2; ring|nia]. Qed.

Lemma is_int_below a n : is_int a n -> 0 <= n -> below a = n.
Proof. intros [E H] Hn. unfold below. rewrite E. replace (n * den a + den a - 1) with (den a - 1 + n * den a) by lia. rewrite Z.div_add, Z.div_small by lia. lia. Qed.

Lemma is_int_beside a b n m c : is_int a n -> is_int b m -> 0 <= n -> beside a b c = (c <? n) || (n + m <=? c).
Proof.
  intros Ha Hb Hn. unfold beside. rewrite (is_int_below a n) by done. destruct (is_int_plus a b n m Ha Hb) as [E H].
  unfold is_whole. rewrite E, Z.mod_mul, Z.div_mul by lia. done.
Qed.

Lemma shows_part heap buf u n Aa Ba Sa Ta S z l t w h :
  is_int Aa l -> is_int Ba t -> is_int Sa w -> is_int Ta h -> 0 <= l -> 0 <= t -> 0 <= w -> 0 <= h ->
  shows heap buf u n Aa Ba Sa Ta S z -> plane_shows heap buf u n l t w h S z.
Proof.
  intros HA HB HS HT Hl Ht Hw Hh [L H]. split; [done|]. intros row col Hr Hc. rewrite H by done. unfold visible.
  rewrite (is_int_below Ba t), (is_int_below (plus Ba Ta) (t + h)), (is_int_beside Aa Sa l w) by (try done; try lia; by apply is_int_plus).
  f_equal. by_cases.
Qed.

Lemma even_id x : 0 <= x < 2 ^ 31 -> x mod 2 = 0 -> even x = x.
Proof.
  intros Hx Hm. unfold even, js_and. rewrite (to_int32_small x) by lia. change (to_int32 (-2)) with (Z.lnot (Z.ones 1)).
  rewrite <- Z.ldiff_land, Z.ldiff_ones_r by lia. rewrite Z.shiftl_mul_pow2, Z.shiftr_div_pow2 by lia. change (2 ^ 1) with 2.
  Z.to_euclidean_division_equations; lia.
Qed.

Lemma scaled_int s c a q : (s = 1 \/ s = 2) -> 0 < c -> a mod s = 0 -> num q = a * c -> den q = s * c -> is_int q (a / s).
Proof. intros Hs Hc Ha En Ed. split; rewrite ?En, ?Ed; [|nia]. pose proof (Z.div_mod a s ltac:(lia)). nia. Qed.

Section Sampled.
Variables (heap : list Z) (p : picture) (sx sy : Z).
Hypothesis Hp : sampled heap p sx sy.

Lemma mod_ratio x s : (s = 1 \/ s = 2) -> x mod 2 = 0 -> x mod s = 0.
Proof. intros [->| ->]; [|done]. intros _. apply Z.mod_1_r. Qed.

Lemma sampled_quotients : is_int (chroma_left p) (picX p / sx) /\ is_int (chroma_top p) (picY p / sy)
  /\ is_int (chroma_width p) (picWidth p / sx) /\ is_int (chroma_height p) (picHeight p / sy).
Proof.
  destruct Hp as [[Hsx Hsy] [Hw Hh] [Ew Eh] [L1 L2] (X1 & Y1 & X2 & Y2) (W1 & H1 & W2 & H2) [I1 I2] _ _ _ _].
  split; [|split; [|split]].
  - apply (scaled_int sx (p_chromaWidth p)); try done; [by apply mod_ratio|]. unfold chroma_left. cbn. by rewrite even_id by lia.
  - apply (scaled_int sy (p_chromaHeight p)); try done; [by apply mod_ratio|]. unfold chroma_top. cbn. by rewrite even_id by lia.
  - by apply (scaled_int sx (p_chromaWidth p)).
  - by apply (scaled_int sy (p_chromaHeight p)).
Qed.

Lemma plane_part_ok buf u n Aa Ba Sa Ta l w : is_int Aa l -> is_int Sa w -> 0 <= l -> 0 <= w -> l <= u -> 0 < u -> 0 < n ->
  0 <= buf /\ buf + u * n <= Z.of_nat (length heap) -> plane_ok heap buf u n Aa Ba Sa Ta.
Proof.
  intros HA HS Hl Hw Hlu Hu Hn [Hb Hm]. destruct (is_int_plus _ _ _ _ HA HS) as [E H].
  repeat (split; [first [done|lia|rewrite (is_int_below Aa l) by done; lia|rewrite E; nia]|]). done.
Qed.

Lemma sampled_ok : picture_ok heap p.
Proof.
  pose proof sampled_quotients as (Q1 & Q2 & Q3 & Q4).
  destruct Hp as [[Hsx Hsy] [Hw Hh] [Ew Eh] [L1 L2] (X1 & Y1 & X2 & Y2) (W1 & H1 & W2 & H2) [I1 I2] (S1 & S2 & S3) My Mb Mr].
  assert (0 <= picX p / sx <= p_chromaWidth p) by (destruct Hsx; subst sx; Z.to_euclidean_division_equations; lia).
  assert (0 <= picWidth p / sx) by (apply Z.div_pos; lia).
  split; [|split]; (eapply plane_part_ok; [first [exact Q1|apply is_int_whole]|first [exact Q3|apply is_int_whole]|..]); try done; try lia; nia.
Qed.

Lemma sampled_frame k f : frame_shows heap k p f -> frame_is heap k p sx sy f.
Proof.
  intros (F1 & F2 & F3 & F4 & F5 & F6 & F7). pose proof sampled_quotients as (Q1 & Q2 & Q3 & Q4).
  destruct Hp as [[Hsx Hsy] _ _ _ (X1 & Y1 & X2 & Y2) (W1 & H1 & W2 & H2) _ _ _ _ _].
  assert (D : forall a s, 0 <= a -> s = 1 \/ s = 2 -> 0 <= a / s) by (intros; apply Z.div_pos; lia).
  do 4 (split; [done|]). split; [|split]; (eapply shows_part; [..|eassumption]); auto using is_int_whole.
Qed.
End Sampled.

(** C21. A picture with chroma planes of its size or of half of it, whose planes lie in the memory and whose visible part begins at
    even positions and covers whole chroma bytes, is left in [frameBuffer], in a frame that the player did not hold, with its
    format and strides: in each plane the bytes of the visible rectangle are those of the memory, and all others are blank,
    whatever the frame held before.  (Where the visible part ends inside a chroma byte the loop blanks nothing to its right:
    [odd_width_not_blanked].) *)
Theorem frame_shows_picture (f : option fmt) (es : list event) (heap : list Z) (p : picture) (k : fmt) (sx sy : Z) :
  let se := plays es (new_session f) in
  fair es (new_session f) = true -> videoFormat (dec se) = Some k -> sampled heap p sx sy ->
  exists w fr s', on_frame heap p (dec se) = (Ok tt, s') /\ frameBuffer s' = Some w /\ frames s' !! w = Some fr
    /\ frame_is heap k p sx sy fr /\ held se !! w = None.
Proof.
  intros se Hf Hk Hsm. pose proof (sampled_ok _ _ _ _ Hsm) as Hp. pose proof (plays_ok es _ Hf (new_session_ok f)) as Hs. fold se in Hs. unfold on_frame. rewrite Hk.
  pose proof Hp as ((_ & Y1 & Y2 & _) & (_ & U1 & U2 & _) & (_ & V1 & V2 & _)).
  destruct (pick_spec (frame_format k p) p (dec se)) as (w & s1 & fr & E & _); [unfold size_y; nia|unfold size_u; nia|unfold size_v; nia|].
  destruct (pick_ok k p se w s1 Hs E) as (_ & _ & Hnone & _ & _ & fr' & Hfr & Hfit & Hwf). rewrite E, Hfr.
  destruct (copy_planes_spec heap k p fr' Hp Hwf Hfit) as (f' & -> & Hsh). eexists w, f', _. split; [reflexivity|]. cbn. rewrite lookup_insert_eq.
  do 2 (split; [done|]). split; [by apply sampled_frame|done].
Qed.

(** ** A picture of eight by two *)

Definition test_fmt : fmt :=
  {| width := 8; height := 2; chromaWidth := 4; chromaHeight := 1; cropLeft := 0; cropTop := 0; cropWidth := 6; cropHeight := 2;
     displayWidth := 12; displayHeight := 4 |}.
Definition test_picture (w : Z) : picture :=
  {| bufferY := 0; strideY := 8; bufferCb := 16; strideCb := 4; bufferCr := 20; strideCr := 4; p_width := 8; p_height := 2;
     p_chromaWidth := 4; p_chromaHeight := 1; picWidth := w; picHeight := 2; picX := 0; picY := 0; p_displayWidth := w; p_displayHeight := 2 |}.
Definition test_heap : list Z := repeat 9 24.

Lemma held_frames_witness : fair [Frame test_heap (test_picture 6); Frame (repeat 5 24) (test_picture 6); Recycle 0; Frame (repeat 4 24) (test_picture 6)] (new_session (Some test_fmt)) = true
  /\ let se := plays [Frame test_heap (test_picture 6); Frame (repeat 5 24) (test_picture 6); Recycle 0; Frame (repeat 4 24) (test_picture 6)] (new_session (Some test_fmt)) in
     (forall w fr, held se !! w = Some fr -> frames (dec se) !! w = Some fr) /\ (length (recycledFrames (dec se)) <= 16)%nat.
Proof. split; [vm_compute; reflexivity|]. apply held_frames_unchanged. vm_compute. reflexivity. Defined.

Lemma picture_shown_witness :
  let se := plays [Frame test_heap (test_picture 6); Recycle 0] (new_session (Some test_fmt)) in
  exists w fr s', on_frame (repeat 5 24) (test_picture 6) (dec se) = (Ok tt, s') /\ frameBuffer s' = Some w /\ frames s' !! w = Some fr
    /\ frame_is (repeat 5 24) test_fmt (test_picture 6) 2 2 fr /\ held se !! w = None.
Proof.
  apply (frame_shows_picture (Some test_fmt) [Frame test_heap (test_picture 6); Recycle 0] (repeat 5 24) (test_picture 6) test_fmt 2 2);
    [vm_compute; reflexivity|vm_compute; reflexivity|].
  constructor; cbn; first [lia|repeat split; (lia || reflexivity)].
Defined.

(** The frame of the first picture is used again; the two columns right of the picture are blank. *)
Example frame_reused :
  let se := plays [Frame test_heap (test_picture 6); Recycle 0; Frame (repeat 5 24) (test_picture 6)] (new_session (Some test_fmt)) in
  frameBuffer (dec se) = Some 0%nat /\ recycledFrames (dec se) = []
  /\ option_map (fun f => (bytes (y f), bytes (u f), displayWidth (format f))) (frames (dec se) !! 0%nat)
     = Some ([5; 5; 5; 5; 5; 5; 0; 0; 5; 5; 5; 5; 5; 5; 0; 0], [5; 5; 5; 128], 12).
Proof. vm_compute. auto. Qed.

(** A visible part of five columns ends in the middle of a chroma byte; the loop that blanks what is right of it starts at a
    position that is not whole, and blanks nothing. *)
Example odd_width_not_blanked :
  let se := plays [Frame test_heap (test_picture 5)] (new_session (Some test_fmt)) in
  option_map (fun f => (bytes (y f), bytes (u f))) (frames (dec se) !! 0%nat)
  = Some ([9; 9; 9; 9; 9; 0; 0; 0; 9; 9; 9; 9; 9; 0; 0; 0], [9; 9; 9; 9]).
Proof. vm_compute. reflexivity. Qed.

(** A picture with chroma planes of its own size whose visible part begins at an odd column: the start is rounded down to an even one
    for the chroma planes too, which blanks the chroma of the last visible column. *)
Example odd_start_shifts_chroma :
  let p := {| bufferY := 0; strideY := 8; bufferCb := 8; strideCb := 8; bufferCr := 16; strideCr := 8; p_width := 8; p_height := 1;
              p_chromaWidth := 8; p_chromaHeight := 1; picWidth := 4; picHeight := 1; picX := 1; picY := 0; p_displayWidth := 4; p_displayHeight := 1 |} in
  let se := plays [Frame test_heap p] (new_session (Some test_fmt)) in
  option_map (fun f => (bytes (y f), bytes (u f))) (frames (dec se) !! 0%nat)
  = Some ([0; 9; 9; 9; 9; 0; 0; 0], [9; 9; 9; 9; 128; 128; 128; 128]).
Proof. vm_compute. reflexivity. Qed.

(** Without a format, which only the page or the Theora module provides, every picture ends in an exception. *)
Theorem no_format_throws (heap : list Z) (p : picture) (s : decoder) :
  videoFormat s = None -> on_frame heap p s = (Throw type_error, s).
Proof. intros H. unfold on_frame. by rewrite H. Qed.

(** ** Feeding the decoder *)

(** The blocks of the module that are not free; [processFrame] gives the bytes to the module in a block of its own, and
    frees it when the module is done, which modules that work in another thread report later. *)
Record feeding := { blocks : list nat; fresh : nat; pending : list nat }.

Section Feed.
Variable _async : bool.                              (* [_ogv_video_decoder_async()] *)
Variable process : list Z -> result Z.               (* [_ogv_video_decoder_process_frame] *)

Definition finished (g : nat) (s : feeding) : feeding :=
  {| blocks := List.filter (fun x => negb (x =? g)%nat) (blocks s); fresh := fresh s; pending := pending s |}.

(** The result is what the callback is given, [None] when it is called later. *)
Definition processFrame (b : list Z) (s : feeding) : result (option Z) * feeding :=
  let g := fresh s in
  let s := {| blocks := g :: blocks s; fresh := S g; pending := if _async then pending s ++ [g] else pending s |} in
  match process b with
  | Throw e => (Throw e, s)
  | Ok l => if _async then (Ok None, s) else (Ok (Some l), finished g s)
  end.
End Feed.

(** A decoder in the same thread leaves no block behind; but an exception, such as that of a picture without a format,
    does. *)
Theorem processFrame_frees (process : list Z -> result Z) (b : list Z) (s : feeding) :
  Forall (fun x => (x < fresh s)%nat) (blocks s) ->
  blocks (snd (processFrame false process b s)) = if is_ok (process b) then blocks s else fresh s :: blocks s.
Proof.
  intros Hb. unfold processFrame. destruct (process b) as [l|e]; cbn; [|done]. rewrite Nat.eqb_refl. cbn.
  induction Hb as [|x l' Hx Hb IH]; cbn; [done|]. rewrite (proj2 (Nat.eqb_neq x _)) by lia. cbn. by rewrite IH.
Qed.
