(* ===== verification/OgvAudio.v ===== *)
(** * The audio decoders of ogv.js
      ([integrations/lan-remote-access/rustdesk-web-open/ogvjs-1.8.6/ogv-decoder-audio-opus-wasm.js]; the Vorbis decoder
      has the same functions)

    A packet goes to the module in a block that is kept for the next packets; the module
    calls back with the format and with the samples of every channel, which are copied
    out of its memory.  A sample is kept as its four bytes. *)

From stdpp Require Import base list numbers strings.
From Stdlib Require Import ZArith Lia.
From S2P Require Import Prelude OpusText OpusMemfs OgvDemuxer.
Local Open Scope Z_scope.

(** ** Samples *)

Definition range_error : jserror := PlatformError "RangeError".

(** An element of a [Uint32Array] on the memory. *)
Definition word (m : mem) (i : Z) : Z := num8 m i + 256 * num8 m (i + 1) + 65536 * num8 m (i + 2) + 16777216 * num8 m (i + 3).

(** [new Uint32Array(d,b,c)]: elements have to be aligned and in the memory. *)
Definition words (m : mem) (b c : Z) : result (list Z) :=
  if negb (b mod 4 =? 0) || (b <? 0) || (c <? 0) || (Z.of_nat (length m) <? b + 4 * c) then Throw range_error
  else Ok (map (fun i => word m (b + 4 * Z.of_nat i)) (seq 0 (Z.to_nat c))).

(** [new Float32Array(l)] of copied bytes: their number has to be a multiple of four. *)
Fixpoint groups (l : list Z) : result (list (list Z)) :=
  match l with
  | [] => Ok []
  | a :: b :: c :: d :: l => rmap (cons [a; b; c; d]) (groups l)
  | _ => Throw range_error
  end.

(** The samples of one channel; [slice] stops at the end of the memory. *)
Definition channel (m : mem) (samples l : Z) : result (list (list Z)) := groups (slice m l (l + 4 * samples)).

(** What the callback with the samples makes [audioBuffer]. *)
Definition audio_buffer (m : mem) (b c e : Z) : result (list (list (list Z))) :=
  let? f := words m b c in
  if b =? 0 then Ok [] else rmapM (channel m e) f.

(** ** The decoder *)

Record audio_format := { channels : Z; rate : Z }.

(** The functions of the decoder that the module calls, with the memory they see. *)
Inductive aimport := Samples (m : mem) (b c e : Z) | InitAudio (f : audio_format).

Class AudioModule := {
  astate : Type;
  malloc : Z -> astate -> Z * astate;
  free : Z -> astate -> astate;
  process_header : Z -> Z -> mem -> astate -> list aimport * Z * mem * astate;
  process_audio : Z -> Z -> mem -> astate -> list aimport * Z * mem * astate
}.

Section Decoder.
Context `{AudioModule}.

Record adecoder := {
  amemory : mem; ainner : astate;
  W : Z; X : Z;                                   (* the block and its size; [W] is [0] where it is undefined *)
  audioFormat : option audio_format; loaded : bool;
  audioBuffer : option (list (list (list Z)))
}.

Definition new_adecoder (m : mem) (i : astate) (f : option audio_format) : adecoder :=
  {| amemory := m; ainner := i; W := 0; X := 0; audioFormat := f; loaded := match f with Some _ => true | None => false end; audioBuffer := None |}.

(** [fa]: the block for [b] bytes. *)
Definition reserve_input (b : Z) (s : adecoder) : adecoder :=
  if negb (W s =? 0) && (b <=? X s) then s
  else
    let i := if negb (W s =? 0) then free (W s) (ainner s) else ainner s in
    let '(w, i) := malloc b i in
    {| amemory := amemory s; ainner := i; W := w; X := b; audioFormat := audioFormat s; loaded := loaded s; audioBuffer := audioBuffer s |}.

Definition on_import (x : aimport) (s : adecoder) : result unit * adecoder :=
  match x with
  | InitAudio f => (Ok tt, {| amemory := amemory s; ainner := ainner s; W := W s; X := X s; audioFormat := Some f; loaded := true; audioBuffer := audioBuffer s |})
  | Samples m b c e =>
      match audio_buffer m b c e with
      | Throw er => (Throw er, s)
      | Ok k => (Ok tt, {| amemory := amemory s; ainner := ainner s; W := W s; X := X s; audioFormat := audioFormat s; loaded := loaded s; audioBuffer := Some k |})
      end
  end.

Fixpoint on_imports (l : list aimport) (s : adecoder) : result unit * adecoder :=
  match l with
  | [] => (Ok tt, s)
  | x :: l => match on_import x s with (Ok _, s) => on_imports l s | (Throw e, s) => (Throw e, s) end
  end.

(** [processHeader] and [processAudio]: what the callback is given. *)
Definition feed (f : Z -> Z -> mem -> astate -> list aimport * Z * mem * astate) (bytes : list Z) (s : adecoder) : result Z * adecoder :=
  let d := Z.of_nat (length bytes) in
  let s := reserve_input d s in
  if (W s <? 0) || (Z.of_nat (length (amemory s)) <? W s + d) then (Throw range_error, s)
  else
    let m := take (Z.to_nat (W s)) (amemory s) ++ bytes ++ drop (Z.to_nat (W s + d)) (amemory s) in
    let '(l, r, m', i) := f (W s) d m (ainner s) in
    match on_imports l s with
    | (Throw e, s) => (Throw e, s)
    | (Ok _, s) =>
        (Ok r, {| amemory := m'; ainner := i; W := W s; X := X s; audioFormat := audioFormat s; loaded := loaded s; audioBuffer := audioBuffer s |})
    end.

Definition processHeader := feed process_header.
Definition processAudio := feed process_audio.
End Decoder.

(** ** Properties *)

Lemma groups_spec l : Z.of_nat (length l) mod 4 = 0 -> exists g, groups l = Ok g /\ Z.of_nat (length l) = 4 * Z.of_nat (length g)
  /\ forall i, (i < length g)%nat -> g !! i = Some (take 4 (drop (4 * i) l)).
Proof.
  remember (length l) as n eqn:Hn. revert l Hn. induction (lt_wf n) as [n _ IH]. intros l -> Hm.
  destruct l as [|a [|b [|c [|d l]]]]; cbn [length] in *; try done.
  { exists []. split; [done|]. split; [done|]. intros i Hi. cbn in Hi. lia. }
  assert (Hm' : Z.of_nat (length l) mod 4 = 0).
  { rewrite <- Hm. replace (Z.of_nat (S (S (S (S (length l)))))) with (Z.of_nat (length l) + 1 * 4) by lia. by rewrite Z.mod_add. }
  destruct (IH (length l) ltac:(lia) l eq_refl Hm') as (g & Hg & Hl & Hi). exists ([a; b; c; d] :: g). cbn [groups]. rewrite Hg. cbn [rmap rbind].
  split; [done|]. split; [cbn [length]; lia|]. intros [|i] H; [done|]. cbn [lookup list_lookup length] in *.
  replace (4 * S i)%nat with (S (S (S (S (4 * i))))) by lia. cbn [drop]. apply Hi. lia.
Qed.

(** A channel whose samples lie in the memory. *)
Definition channel_ok (m : mem) (samples l : Z) : Prop := 0 <= l /\ l + 4 * samples <= Z.of_nat (length m).

Lemma channel_spec m samples l : 0 <= samples -> channel_ok m samples l ->
  exists g, channel m samples l = Ok g /\ Z.of_nat (length g) = samples
  /\ forall i, 0 <= i < samples -> g !! Z.to_nat i = Some (slice m (l + 4 * i) (l + 4 * i + 4)).
Proof.
  intros Hs [Hl Hm]. unfold channel. set (sl := slice m l (l + 4 * samples)).
  assert (Hlen : Z.of_nat (length sl) = 4 * samples) by (subst sl; unfold slice; rewrite length_take, length_drop; lia).
  destruct (groups_spec sl) as (g & Hg & Hl' & Hi); [rewrite Hlen, Z.mul_comm; apply Z.mod_mul; lia|].
  exists g. split; [done|]. split; [lia|]. intros i Hir. rewrite Hi by lia. f_equal. subst sl. unfold slice.
  replace (Z.to_nat (l + 4 * samples - l)) with (4 * Z.to_nat i + (4 * Z.to_nat samples - 4 * Z.to_nat i))%nat by lia.
  rewrite <- take_drop_commute, drop_drop, take_take. f_equal; [lia|]. f_equal. lia.
Qed.

(** The samples the player gets: one list per channel, in the order of the module, of all the samples that the memory
    holds at the address of the channel when the module calls. *)
Theorem audio_channels (m : mem) (b c e : Z) (ptrs : list Z) :
  0 < b -> 0 <= e -> words m b c = Ok ptrs -> Forall (channel_ok m e) ptrs ->
  exists k, audio_buffer m b c e = Ok k /\ length k = length ptrs
    /\ forall j l g, ptrs !! j = Some l -> k !! j = Some g ->
         Z.of_nat (length g) = e /\ forall i, 0 <= i < e -> g !! Z.to_nat i = Some (slice m (l + 4 * i) (l + 4 * i + 4)).
Proof.
  intros Hb He Hw Hp. unfold audio_buffer. rewrite Hw. cbn [rbind]. rewrite (proj2 (Z.eqb_neq b 0)) by lia. clear Hw.
  induction Hp as [|l ptrs Hl Hp IH]; cbn [rmapM]; [exists []; split; [done|]; split; [done|]; by intros j l g|].
  destruct (channel_spec m e l He Hl) as (g & Hg & Hlen & Hi), IH as (k & Hk & Hkl & Hkj). rewrite Hg, Hk. cbn [rbind].
  exists (g :: k). split; [done|]. split; [cbn; lia|]. intros [|j] l' g' H1 H2; [|by eapply Hkj]. cbn in H1, H2. injection H1 as <-. by injection H2 as <-.
Qed.

Definition test_memory : mem := [0; 0; 0; 0; 12; 0; 0; 0; 16; 0; 0; 0; 1; 2; 3; 4; 5; 6; 7; 8].

Lemma audio_channels_witness : exists k, audio_buffer test_memory 4 2 1 = Ok k /\ length k = 2%nat
  /\ forall j l g, [12; 16] !! j = Some l -> k !! j = Some g ->
       Z.of_nat (length g) = 1 /\ forall i, 0 <= i < 1 -> g !! Z.to_nat i = Some (slice test_memory (l + 4 * i) (l + 4 * i + 4)).
Proof.
  apply (audio_channels test_memory 4 2 1 [12; 16]); [lia|lia|vm_compute; reflexivity|].
  repeat constructor; vm_compute; discriminate.
Defined.

(** Without an array of channels there is no sound, whatever the number of samples. *)
Theorem no_channels (m : mem) (c e : Z) : 0 <= c -> 4 * c <= Z.of_nat (length m) -> audio_buffer m 0 c e = Ok [].
Proof.
  intros Hc Hm. unfold audio_buffer, words. rewrite (proj2 (Z.ltb_ge c 0)), (proj2 (Z.ltb_ge (Z.of_nat (length m)) _)) by lia. done.
Qed.

(** The module may call with samples more than once for a packet; the player sees the last. *)
Theorem last_samples_stay `{AudioModule} (l : list aimport) (m : mem) (b c e : Z) (s s' : adecoder) :
  on_imports (l ++ [Samples m b c e]) s = (Ok tt, s') -> exists k, audio_buffer m b c e = Ok k /\ audioBuffer s' = Some k.
Proof.
  revert s. induction l as [|x l IH]; intros s; cbn [app on_imports].
  - cbn. destruct (audio_buffer m b c e) as [k|er]; [|done]. intros [= <-]. by exists k.
  - destruct (on_import x s) as [[u|er] s1]; [apply IH|done].
Qed.

(** A packet that is not longer than one before uses its block again. *)
Theorem block_reused `{AudioModule} (b : Z) (s : adecoder) : W s <> 0 -> b <= X s -> reserve_input b s = s.
Proof. intros Hw Hb. unfold reserve_input. by rewrite (proj2 (Z.eqb_neq _ _)), (proj2 (Z.leb_le _ _)) by done. Qed.
