(* ===== verification/OgvLoad.v ===== *)
(** * Loading a module of ogv.js
      ([integrations/lan-remote-access/rustdesk-web-open/ogvjs-1.8.6/ogv-demuxer-webm-wasm.js]; the other modules of
      ogv.js are loaded by the same text)

    The chain of promises of [OpusLoad] in the build that ogv.js uses: no checks, and a
    promise [ready] for the page that is settled when the module has started or failed.
    The host, the answers and the stages are those of [OpusLoad].  Minified names are
    given in brackets. *)

From stdpp Require Import base list numbers.
From Stdlib Require Import ZArith Lia.
From S2P Require Import Prelude JsString OpusLoad.
Local Open Scope Z_scope.

(** What the page put into the module object: callbacks that throw, and [setStatus]. *)
Record hooks := { preRun_throws : bool; ctors_throw : bool; has_setStatus : bool }.

Record lstate := {
  at_stage : load_stage;
  deps : Z;                          (* [O] *)
  waiting : bool;                    (* [Q], [dependenciesFulfilled], is set *)
  calledRun : bool;                  (* [U] *)
  aborted : bool;                    (* [F] *)
  delayed : bool;                    (* the timer that runs [doRun] *)
  ready : option bool;               (* the promise: fulfilled or rejected *)
  acts : list action                 (* latest first *)
}.

(** ** Changes of the state *)

Definition goes (st : load_stage) (s : lstate) : lstate :=
  {| at_stage := st; deps := deps s; waiting := waiting s; calledRun := calledRun s; aborted := aborted s; delayed := delayed s; ready := ready s; acts := acts s |}.
Definition does (a : action) (s : lstate) : lstate :=
  {| at_stage := at_stage s; deps := deps s; waiting := waiting s; calledRun := calledRun s; aborted := aborted s; delayed := delayed s; ready := ready s; acts := a :: acts s |}.
Definition set_deps (d : Z) (s : lstate) : lstate :=
  {| at_stage := at_stage s; deps := d; waiting := waiting s; calledRun := calledRun s; aborted := aborted s; delayed := delayed s; ready := ready s; acts := acts s |}.
Definition set_waiting (b : bool) (s : lstate) : lstate :=
  {| at_stage := at_stage s; deps := deps s; waiting := b; calledRun := calledRun s; aborted := aborted s; delayed := delayed s; ready := ready s; acts := acts s |}.
Definition set_called (s : lstate) : lstate :=
  {| at_stage := at_stage s; deps := deps s; waiting := waiting s; calledRun := true; aborted := aborted s; delayed := delayed s; ready := ready s; acts := acts s |}.
Definition set_aborted (s : lstate) : lstate :=
  {| at_stage := at_stage s; deps := deps s; waiting := waiting s; calledRun := calledRun s; aborted := true; delayed := delayed s; ready := ready s; acts := acts s |}.
Definition set_delayed (b : bool) (s : lstate) : lstate :=
  {| at_stage := at_stage s; deps := deps s; waiting := waiting s; calledRun := calledRun s; aborted := aborted s; delayed := b; ready := ready s; acts := acts s |}.

(** A promise is settled once. *)
Definition settle (b : bool) (s : lstate) : lstate :=
  {| at_stage := at_stage s; deps := deps s; waiting := waiting s; calledRun := calledRun s; aborted := aborted s; delayed := delayed s;
     ready := match ready s with Some r => Some r | None => Some b end; acts := acts s |}.

(** [D]: what it throws ends the caller. *)
Definition abort (s : lstate) : lstate := settle false (set_aborted (does Abort s)).

(** The end of a chain with a rejection: [.catch(l)]. *)
Definition ends_rejected (s : lstate) : lstate := goes Failed (settle false s).

Section Load.
Variable h : host.
Variable k : hooks.

(** ** Running *)

(** The inner function of [V]; whether it threw.  What the page's later callbacks do comes after the promise is settled. *)
Definition doRun (s : lstate) : bool * lstate :=
  if calledRun s then (false, s)
  else
    let s := set_called s in
    if aborted s then (false, s)
    else if ctors_throw k then (true, s)
    else (false, settle true s).

(** [V] *)
Definition run (s : lstate) : bool * lstate :=
  if 0 <? deps s then (false, s)
  else if preRun_throws k then (true, s)
  else if has_setStatus k then (false, set_delayed true s)
  else doRun s.

(** [oa]: [U||V();U||(Q=oa)] *)
Definition runCaller (s : lstate) : bool * lstate :=
  let '(threw, s) := if calledRun s then (false, s) else run s in
  if threw then (true, s) else (false, if calledRun s then s else set_waiting true s).

(** [b]: without a memory, [N] throws. *)
Definition receiveInstance (i : instance) (s : lstate) : bool * lstate :=
  if negb (memory_export i) then (true, s)
  else
    let s := does OnInit (does Views s) in
    let s := does RemoveDependency (set_deps (deps s - 1) s) in
    if (deps s =? 0) && waiting s then runCaller (set_waiting false s) else (false, s).

(** The receiver inside the chain: an exception is a rejection of the chain. *)
Definition received (i : instance) (s : lstate) : lstate :=
  let '(threw, s) := receiveInstance i s in if threw then ends_rejected s else goes Received s.

(** ** Fetching *)

(** The handler of [d]: it prints and aborts. *)
Definition instantiation_failed (s : lstate) : lstate := ends_rejected (abort (does Err s)).

(** [ja] inside a promise; its own [D] makes the promise reject. *)
Definition getBinary (s : lstate) : lstate :=
  match wasmBinary h with
  | Some bytes => goes AwaitInstance (does (Instantiate bytes) s)
  | None =>
      match readBinary h with
      | Some f =>
          match f (file h) with
          | Ok bytes => goes AwaitInstance (does (Instantiate bytes) s)
          | Throw _ => instantiation_failed (abort s)
          end
      | None => instantiation_failed (abort s)
      end
  end.

(** [ka] *)
Definition getBinaryPromise (s : lstate) : lstate :=
  if absent (wasmBinary h) && web_or_worker h then
    if has_fetch h && negb (isFileURI (file h)) then goes FetchModule (does (Fetch false) s)
    else if has_readAsync h then goes AwaitRead (does ReadAsync s)
    else goes AwaitTick s
  else goes AwaitTick s.

Definition start_state : lstate :=
  {| at_stage := AwaitPage; deps := 0; waiting := false; calledRun := false; aborted := false; delayed := false; ready := None; acts := [] |}.

(** The function that is called when the script runs; afterwards the script sets [Q] and calls [V], which waits for the
    dependency.  A page's own [instantiateWasm] that throws is printed, and nothing else. *)
Definition createWasm (custom_throws : bool) : lstate :=
  let s := does AddDependency (set_deps 1 start_state) in
  let s :=
    if custom h then (if custom_throws then goes Declined (does Err s) else s)
    else if absent (wasmBinary h) && has_streaming h && negb (isDataURI (file h)) && negb (isFileURI (file h)) && has_fetch h
    then goes StreamFetch (does (Fetch true) s)
    else getBinaryPromise s in
  snd (run (set_waiting true s)).

Inductive event :=
| Answer (e : OpusLoad.event)
| Timer.                                             (* the second timer of [setStatus] only clears the status *)

Definition step (e : event) (s : lstate) : lstate :=
  match e with
  | Timer => if delayed s then snd (doRun (set_delayed false s)) else s
  | Answer (PageReceived i) => if custom h then snd (receiveInstance i s) else s
  | Answer e =>
      match e, at_stage s with
      | Responded _, StreamFetch => goes StreamCompile (does InstantiateStreaming s)
      | FetchFailed, StreamFetch => ends_rejected s
      | Compiled i, StreamCompile => received i s
      | CompileFailed, StreamCompile => getBinaryPromise (does Err (does Err s))
      | Responded ok, FetchModule => if ok then goes FetchBody s else getBinary s
      | FetchFailed, FetchModule => getBinary s
      | BodyRead bytes, FetchBody => goes AwaitInstance (does (Instantiate bytes) s)
      | BodyFailed, FetchBody => getBinary s
      | ReadDone bytes, AwaitRead => goes AwaitInstance (does (Instantiate bytes) s)
      | ReadFailed, AwaitRead => instantiation_failed s
      | Tick, AwaitTick => getBinary s
      | Instantiated i, AwaitInstance => received i s
      | InstantiateFailed, AwaitInstance => instantiation_failed s
      | _, _ => s
      end
  end.

Definition runs (es : list event) (s : lstate) : lstate := fold_left (fun s e => step e s) es s.

(** Every event of the list is an answer at its time. *)
Fixpoint answered (es : list OpusLoad.event) (s : lstate) : bool :=
  match es with
  | [] => true
  | e :: es => answers e (at_stage s) && answered es (step (Answer e) s)
  end.
End Load.

(** ** The promise *)

Definition ended (st : load_stage) : bool := match st with Received | Failed => true | _ => false end.
Definition pending_stage (st : load_stage) : bool := match st with Received | Failed | Unhandled | AwaitPage | Declined => false | _ => true end.

(** While the chain runs, nothing is settled and the module waits for one dependency; at its end the promise is settled,
    or the timer of [setStatus] runs. *)
Definition chain_ok (k : hooks) (s : lstate) : Prop :=
  if pending_stage (at_stage s)
  then deps s = 1 /\ waiting s = true /\ calledRun s = false /\ aborted s = false /\ delayed s = false /\ ready s = None
  else match at_stage s with
       | Failed => ready s = Some false
       | Received => preRun_throws k = false /\ aborted s = false
           /\ (if has_setStatus k then delayed s = negb (calledRun s) /\ ready s = if calledRun s then (if ctors_throw k then None else Some true) else None
               else ctors_throw k = false /\ ready s = Some true)
       | _ => False
       end.

Lemma pending_does k a s : pending_stage (at_stage s) = true -> chain_ok k s -> chain_ok k (does a s).
Proof. unfold chain_ok. cbn. by intros ->. Qed.

Lemma pending_goes k st s : pending_stage (at_stage s) = true -> pending_stage st = true -> chain_ok k s -> chain_ok k (goes st s).
Proof. unfold chain_ok. cbn. by intros -> ->. Qed.

Lemma failed_ok k s : ready s = None \/ ready s = Some false -> chain_ok k (ends_rejected s).
Proof. unfold chain_ok. cbn. intros [-> | ->]; done. Qed.

Lemma instantiation_failed_ok k s : ready s = None \/ ready s = Some false -> chain_ok k (instantiation_failed s).
Proof. intros [H|H]; apply failed_ok; cbn; rewrite H; by right. Qed.

Lemma ogv_getBinary_ok h k s : pending_stage (at_stage s) = true -> chain_ok k s -> chain_ok k (getBinary h s).
Proof.
  intros Hp Hs. assert (Hr : ready s = None) by (unfold chain_ok in Hs; rewrite Hp in Hs; tauto).
  assert (Hf : chain_ok k (instantiation_failed (abort s))) by (apply instantiation_failed_ok; cbn; rewrite Hr; by right).
  unfold getBinary. repeat case_match; try done; apply pending_goes; try done; by apply pending_does.
Qed.

Lemma ogv_getBinaryPromise_ok h k s : pending_stage (at_stage s) = true -> chain_ok k s -> chain_ok k (getBinaryPromise h s).
Proof. intros Hp Hs. unfold getBinaryPromise. repeat case_match; apply pending_goes; try done; by apply pending_does. Qed.

Lemma received_ok k i s : pending_stage (at_stage s) = true -> chain_ok k s -> chain_ok k (received k i s).
Proof.
  intros Hp Hs. unfold chain_ok in Hs. rewrite Hp in Hs. destruct Hs as (H1 & H2 & H3 & H4 & H5 & H6).
  unfold received, receiveInstance. destruct (memory_export i); cbn [negb]; [|apply failed_ok; by left].
  cbn [set_deps does deps waiting]. rewrite H1, H2. change ((1 - 1 =? 0) && true) with true. cbv iota.
  unfold runCaller. cbn [set_waiting does set_deps calledRun]. rewrite H3.
  unfold run. cbn [deps set_waiting does set_deps]. change (0 <? 1 - 1) with false. destruct (preRun_throws k) eqn:Ep; [apply failed_ok; left; exact H6|].
  destruct (has_setStatus k) eqn:Es.
  - cbn. rewrite H3. unfold chain_ok. cbn. rewrite Ep, Es, H3, H4. done.
  - unfold doRun. cbn. rewrite H3, H4. destruct (ctors_throw k) eqn:Ec; [apply failed_ok; left; exact H6|].
    unfold chain_ok. cbn. rewrite Ep, Es, Ec, H4, H6. done.
Qed.

Lemma ogv_createWasm_ok h k : custom h = false -> chain_ok k (createWasm h k false).
Proof.
  intros Hc. unfold createWasm. rewrite Hc. set (s0 := does AddDependency (set_deps 1 start_state)).
  assert (Hw : forall s, pending_stage (at_stage s) = true -> deps s = 1 -> calledRun s = false -> aborted s = false -> delayed s = false -> ready s = None ->
    chain_ok k (snd (run k (set_waiting true s)))).
  { intros s Hp H1 H2 H3 H4 H5. unfold run. cbn [set_waiting deps]. rewrite H1. change (0 <? 1) with true. cbn [snd]. unfold chain_ok. cbn. by rewrite Hp. }
  destruct (_ && has_fetch h); [by apply Hw|]. unfold getBinaryPromise. repeat case_match; by apply Hw.
Qed.

Lemma timer_ok k s : chain_ok k s -> delayed s = true -> chain_ok k (snd (doRun k (set_delayed false s))).
Proof.
  intros Hs Hd. unfold chain_ok in Hs. destruct (pending_stage (at_stage s)) eqn:Ep; [by rewrite Hd in Hs; destruct Hs as (? & ? & ? & ? & ? & ?)|].
  unfold doRun. cbn. destruct (at_stage s) eqn:Es; try done; cbn in *.
  - destruct Hs as (H1 & H2 & Hs). destruct (has_setStatus k) eqn:Ek.
    + destruct Hs as [H3 H4]. rewrite Hd in H3. destruct (calledRun s); [done|]. rewrite H2. destruct (ctors_throw k) eqn:Ec; unfold chain_ok; cbn; rewrite ?Es, ?Ek, ?Ec, ?H1, ?H2, ?H4; done.
    + destruct Hs as [H3 H4]. rewrite H3. repeat case_match; unfold chain_ok; cbn; rewrite ?Es, ?Ek, ?H1, ?H3, ?H4; done.
  - repeat case_match; unfold chain_ok; cbn; rewrite ?Es, ?Hs; done.
Qed.

Lemma ogv_step_ok h k e s : custom h = false -> chain_ok k s -> chain_ok k (step h k e s).
Proof.
  intros Hc Hs. destruct e as [e|]; cbn [step]; [|destruct (delayed s) eqn:Ed; [by apply timer_ok|done]].
  assert (Hr : pending_stage (at_stage s) = true -> ready s = None) by (intros Hp; unfold chain_ok in Hs; rewrite Hp in Hs; tauto).
  destruct e as [ok| |i| |bytes| |bytes| | |i| |i|]; rewrite ?Hc; try done.
  all: destruct (at_stage s) eqn:Es; try done; specialize (Hr eq_refl).
  all: try (apply received_ok; by rewrite ?Es); try (apply ogv_getBinary_ok; by rewrite ?Es); try (apply instantiation_failed_ok; by left).
  all: try (apply failed_ok; by left).
  all: try (apply pending_goes; [by cbn; rewrite Es|done|]; apply pending_does; [by rewrite Es|done]).
  - destruct ok; [apply pending_goes; by rewrite ?Es|apply ogv_getBinary_ok; by rewrite ?Es].
  - apply ogv_getBinaryPromise_ok; [by cbn; rewrite Es|]. apply pending_does; [by cbn; rewrite Es|]. apply pending_does; by rewrite ?Es.
Qed.

Lemma ogv_runs_ok h k es : forall s, custom h = false -> chain_ok k s -> chain_ok k (runs h k es s).
Proof. induction es as [|e es IH]; intros s Hc Hs; [done|]. cbn. apply IH; [done|]. by apply ogv_step_ok. Qed.

Lemma getBinary_rank h s : (rank (at_stage (getBinary h s)) <= 1)%nat.
Proof. unfold getBinary, instantiation_failed, ends_rejected. repeat case_match; cbn; lia. Qed.

Lemma received_rank k i s : rank (at_stage (received k i s)) = 0%nat.
Proof. unfold received. by destruct (receiveInstance k i s) as [[|] s1]. Qed.

(** Every answer brings the chain closer to its end. *)
Lemma ogv_rank_decreases h k e s : answers e (at_stage s) = true -> (rank (at_stage (step h k (Answer e) s)) < rank (at_stage s))%nat.
Proof.
  intros H. assert (P : forall s, (rank (at_stage (getBinaryPromise h s)) <= 3)%nat) by (intros t; unfold getBinaryPromise; repeat case_match; cbn; lia).
  pose proof (getBinary_rank h s) as B. destruct e as [ok| |i| |bytes| |bytes| | |i| |i|]; destruct (at_stage s) eqn:Es; try discriminate H; cbn [step]; rewrite Es, ?received_rank.
  all: try (cbn [rank goes does ends_rejected instantiation_failed at_stage]; lia).
  - destruct ok; cbn [rank goes at_stage] in *; lia.
  - specialize (P (does Err (does Err s))). cbn [rank]. lia.
Qed.

Lemma ogv_answered_ends h k es : forall s, answered h k es s = true -> (rank (at_stage (runs h k (map Answer es) s)) + length es <= rank (at_stage s))%nat.
Proof.
  induction es as [|e es IH]; intros s H; cbn [answered map runs fold_left length] in *; [lia|].
  apply andb_prop in H as [H1 H2]. specialize (IH _ H2). pose proof (ogv_rank_decreases h k e s H1). unfold runs in IH. lia.
Qed.

(** What the page learns, whatever the host offers and answers and whatever the page's hooks do.  The promise is not
    settled before the chain ends; a chain that failed, also one whose first fetch is rejected, rejects it; it is
    fulfilled only after an instance was received and nothing was aborted; and without [setStatus] it is fulfilled by
    then.  Every run of answers reaches an end after five of them at most. *)
Theorem ready_settles (h : host) (k : hooks) (es : list event) : custom h = false ->
  let s := runs h k es (createWasm h k false) in
  (pending_stage (at_stage s) = true -> ready s = None)
  /\ (at_stage s = Failed -> ready s = Some false)
  /\ (ready s = Some true -> at_stage s = Received /\ aborted s = false)
  /\ (at_stage s = Received -> has_setStatus k = false -> ready s = Some true)
  /\ at_stage s <> Unhandled
  /\ (forall l, es = map Answer l -> answered h k l (createWasm h k false) = true ->
       (length l <= 5)%nat /\ (length l = 5%nat -> ended (at_stage s) = true)).
Proof.
  intros Hc s. pose proof (ogv_runs_ok h k es _ Hc (ogv_createWasm_ok h k Hc)) as Hs. fold s in Hs. unfold chain_ok in Hs.
  assert (Hu : pending_stage (at_stage s) = false -> ended (at_stage s) = true).
  { intros E. rewrite E in Hs. by destruct (at_stage s). }
  split; [intros Hp; rewrite Hp in Hs; tauto|]. split; [by intros E; rewrite E in Hs|]. split.
  { intros Hr. destruct (pending_stage (at_stage s)) eqn:Ep; [destruct Hs as (_ & _ & _ & _ & _ & H); by rewrite H in Hr|].
    destruct (at_stage s); try done; cbn in Hs; [split; [done|tauto]|by rewrite Hs in Hr]. }
  split; [intros E Hk; rewrite E, Hk in Hs; cbn in Hs; tauto|]. split; [by intros E; rewrite E in Hs|].
  intros l -> Ha. apply ogv_answered_ends in Ha. fold s in Ha.
  assert (Hr : (rank (at_stage (createWasm h k false)) <= 5)%nat) by (destruct (at_stage (createWasm h k false)); cbn; lia).
  split; [lia|]. intros E. apply Hu. destruct (at_stage s); cbn in Ha |- *; (done || lia).
Qed.

Definition plain_hooks : hooks := {| preRun_throws := false; ctors_throw := false; has_setStatus := false |}.
Definition both : instance := {| memory_export := true; table_export := true |}.

(** The fetch of the streaming path fails, where the other runtime hangs. *)
Lemma ready_settles_witness :
  let s := runs browser plain_hooks [Answer FetchFailed] (createWasm browser plain_hooks false) in
  at_stage s = Failed /\ ready s = Some false.
Proof.
  intros s. split; [vm_compute; reflexivity|]. apply (ready_settles browser plain_hooks [Answer FetchFailed] eq_refl). vm_compute. reflexivity.
Defined.

Example loaded_and_started :
  ready (runs browser plain_hooks [Answer (Responded true); Answer (Compiled both)] (createWasm browser plain_hooks false)) = Some true.
Proof. vm_compute. reflexivity. Qed.

(** With [setStatus] the start is left to a timer, where nobody handles an exception: the promise is never settled when
    the constructors of the module throw. *)
Theorem delayed_exception_lost (h : host) (k : hooks) (es : list event) (s : lstate) : custom h = false ->
  chain_ok k s -> at_stage s = Received -> has_setStatus k = true -> ctors_throw k = true ->
  ready (runs h k es s) = None.
Proof.
  intros Hc Hs Hr Hk Ht. assert (H : at_stage (runs h k es s) = Received).
  { clear Hk Ht. revert s Hs Hr. induction es as [|e es IH]; intros s Hs Hr; [done|]. cbn. apply IH; [by apply ogv_step_ok|].
    destruct e as [e|]; cbn [step]; [destruct e; rewrite ?Hc, ?Hr; done|]. destruct (delayed s); [|done]. unfold doRun. repeat case_match; done. }
  pose proof (ogv_runs_ok h k es s Hc Hs) as Ho. unfold chain_ok in Ho. rewrite H, Hk, Ht in Ho. cbn in Ho. destruct Ho as (_ & _ & _ & ->). by case_match.
Qed.

(** A page's own [instantiateWasm] that throws is printed; the promise stays open for ever. *)
Theorem custom_exception_lost (h : host) (k : hooks) : custom h = true -> ready (createWasm h k true) = None.
Proof. intros Hc. unfold createWasm, run. rewrite Hc. reflexivity. Qed.
