(* ===== verification/OgvLoader.v ===== *)
(** * The loader of ogv.js
      ([integrations/lan-remote-access/rustdesk-web-open/ogvjs-1.8.6/ogv.js], [OGVLoaderBase] and [OGVLoaderWeb])

    The page asks the loader for the class of a demuxer or a decoder.  The loader puts
    a script element into the page once for every script and calls back when it has
    loaded; for a decoder in a worker it starts a worker, from the text of two scripts
    when they come from another place.  A callback is a number of the page. *)

From stdpp Require Import base list numbers strings.
From Stdlib Require Import ZArith Lia.
From S2P Require Import Prelude JsString Regex Json ApiClient.
Local Open Scope Z_scope.

(** ** Names and URLs *)

Definition version : jsstr := js "1.8.6-20220111173019-1f60d9d".

Definition scripts : list (jsstr * jsstr) :=
  [(js "OGVDemuxerOggW", js "ogv-demuxer-ogg-wasm.js"); (js "OGVDemuxerWebMW", js "ogv-demuxer-webm-wasm.js");
   (js "OGVDecoderAudioOpusW", js "ogv-decoder-audio-opus-wasm.js"); (js "OGVDecoderAudioVorbisW", js "ogv-decoder-audio-vorbis-wasm.js");
   (js "OGVDecoderVideoTheoraW", js "ogv-decoder-video-theora-wasm.js"); (js "OGVDecoderVideoVP8W", js "ogv-decoder-video-vp8-wasm.js");
   (js "OGVDecoderVideoVP8MTW", js "ogv-decoder-video-vp8-mt-wasm.js"); (js "OGVDecoderVideoVP9W", js "ogv-decoder-video-vp9-wasm.js");
   (js "OGVDecoderVideoVP9SIMDW", js "ogv-decoder-video-vp9-simd-wasm.js"); (js "OGVDecoderVideoVP9MTW", js "ogv-decoder-video-vp9-mt-wasm.js");
   (js "OGVDecoderVideoVP9SIMDMTW", js "ogv-decoder-video-vp9-simd-mt-wasm.js"); (js "OGVDecoderVideoAV1W", js "ogv-decoder-video-av1-wasm.js");
   (js "OGVDecoderVideoAV1SIMDW", js "ogv-decoder-video-av1-simd-wasm.js"); (js "OGVDecoderVideoAV1MTW", js "ogv-decoder-video-av1-mt-wasm.js");
   (js "OGVDecoderVideoAV1SIMDMTW", js "ogv-decoder-video-av1-simd-mt-wasm.js")].

Fixpoint named {A} (l : list (jsstr * A)) (x : jsstr) : option A :=
  match l with [] => None | (y, a) :: l' => if str_eqb y x then Some a else named l' x end.

Definition scriptForClass (name : jsstr) : option jsstr := named scripts name.

(** The classes that can run in a worker, and the script of the worker. *)
Definition worker_scripts : list (jsstr * jsstr) :=
  map (fun c => (c, js "ogv-worker-audio.js")) [js "OGVDecoderAudioOpusW"; js "OGVDecoderAudioVorbisW"]
  ++ map (fun c => (c, js "ogv-worker-video.js"))
       [js "OGVDecoderVideoTheoraW"; js "OGVDecoderVideoVP8W"; js "OGVDecoderVideoVP9W"; js "OGVDecoderVideoVP9SIMDW"; js "OGVDecoderVideoAV1W";
        js "OGVDecoderVideoAV1SIMDW"].

Definition versioned (script : jsstr) : jsstr := script ++ js "?version=" ++ default [] (encodeURIComponent version).

Definition urlForScript (base : option jsstr) (script : jsstr) : result jsstr :=
  match script with
  | [] => Throw (ErrorMsg (js "asked for URL for unknown script "))
  | _ => Ok (match base with None => [] | Some b => b ++ js "/" end ++ versioned script)
  end.

Definition urlForClass (base : option jsstr) (name : jsstr) : result jsstr :=
  match scriptForClass name with
  | Some script => urlForScript base script
  | None => Throw (ErrorMsg (js "asked for URL for unknown class " ++ name))
  end.

(** The pattern of [defaultBase]: at the start, nothing or a captured text up to a slash; [ogv], with [-support] or [-es2017] or
    neither; [.js]; a question mark, a hash or the end. *)
Definition lit (s : jsstr) : regex := foldr (fun c r => RSeq (RSet (Z.eqb c)) r) REps s.
Definition not_newline (c : Z) : bool := negb (includes_char [10; 13; 0x2028; 0x2029] c).
Definition own_script : regex :=
  RSeq RBol (RSeq (RAlt REps (RSeq (RGroup (RStar not_newline)) (lit (js "/"))))
    (RSeq (lit (js "ogv")) (RSeq (RAlt (RAlt (lit (js "-support")) (lit (js "-es2017"))) REps)
      (RSeq (lit (js ".js")) (RAlt (RAlt (lit (js "?")) (lit (js "#"))) REol))))).

(** [defaultBase]: the directory of the first script element of ogv.js; the attributes [src] of the elements are given. *)
Fixpoint defaultBase (srcs : list (option jsstr)) : option jsstr :=
  match srcs with
  | [] => None
  | Some ((_ :: _) as t) :: srcs' => match exec own_script t with Some (_, st) => head (caps st) | None => defaultBase srcs' end
  | _ :: srcs' => defaultBase srcs'
  end.

(** The object that a class gets: where its files are, and its own script. *)
Definition locateFile (base : option jsstr) (file : jsstr) : result jsstr := if startsWith file (js "data:") then Ok file else urlForScript base file.

(** [http:] or [https:] at the start, or two slashes, in any case. *)
Definition ci (c d : Z) : bool := (d =? c) || (d =? c - 32).
Definition elsewhere : regex :=
  RAlt (RSeq RBol (foldr (fun c r => RSeq (RSet (ci c)) r) (RSeq (RAlt (RSet (ci 115)) REps) (lit (js ":"))) (js "http"))) (lit (js "//")).

(** ** The loader of a page *)

(** A class for a worker whose two texts are being read. *)
Record reading := { r_class : jsstr; r_callback : nat; class_text : option jsstr; worker_text : option jsstr }.

(** What a worker was started from: a URL, or a text. *)
Inductive worker_source := FromURL (url : jsstr) | FromText (text : jsstr).

Record loader := {
  base : option jsstr;
  globals : list jsstr;                        (* the classes that are functions of the page *)
  scriptStatus : list (jsstr * bool);          (* [true] is done, [false] loading *)
  scriptCallbacks : list (jsstr * list nat);
  elements : list jsstr;                       (* script elements, by their URL *)
  readings : list reading;
  workers : list worker_source;
  called : list nat;                           (* callbacks called with a class *)
  lost : list nat                              (* callbacks behind one that threw *)
}.

Definition fresh (b : option jsstr) : loader :=
  {| base := b; globals := []; scriptStatus := []; scriptCallbacks := []; elements := []; readings := []; workers := []; called := []; lost := [] |}.

Definition call (cb : nat) (s : loader) : loader :=
  {| base := base s; globals := globals s; scriptStatus := scriptStatus s; scriptCallbacks := scriptCallbacks s; elements := elements s;
     readings := readings s; workers := workers s; called := called s ++ [cb]; lost := lost s |}.

Fixpoint push_at (l : list (jsstr * list nat)) (x : jsstr) (cb : nat) : list (jsstr * list nat) :=
  match l with [] => [] | (y, cs) :: l' => if str_eqb y x then (y, cs ++ [cb]) :: l' else (y, cs) :: push_at l' x cb end.

Fixpoint set_done (l : list (jsstr * bool)) (x : jsstr) : list (jsstr * bool) :=
  match l with [] => [] | (y, b) :: l' => if str_eqb y x then (y, true) :: l' else (y, b) :: set_done l' x end.

Definition without_key {A} (l : list (jsstr * A)) (x : jsstr) : list (jsstr * A) := List.filter (fun y => negb (str_eqb (fst y) x)) l.

Definition loadScript (url : jsstr) (cb : nat) (s : loader) : loader :=
  match named (scriptStatus s) url with
  | Some true => call cb s
  | Some false =>
      {| base := base s; globals := globals s; scriptStatus := scriptStatus s; scriptCallbacks := push_at (scriptCallbacks s) url cb; elements := elements s;
         readings := readings s; workers := workers s; called := called s; lost := lost s |}
  | None =>
      {| base := base s; globals := globals s; scriptStatus := (url, false) :: scriptStatus s; scriptCallbacks := (url, [cb]) :: scriptCallbacks s;
         elements := elements s ++ [url]; readings := readings s; workers := workers s; called := called s; lost := lost s |}
  end.

(** [done.forEach]: a callback that throws ends the loop. *)
Fixpoint call_all (throws : nat -> bool) (cs : list nat) : list nat * list nat :=
  match cs with
  | [] => ([], [])
  | c :: cs' => if throws c then ([c], cs') else let '(a, b) := call_all throws cs' in (c :: a, b)
  end.

(** [done]: the script has loaded, with the classes it defines, or has failed, with none. *)
Definition script_done (url : jsstr) (defines : list jsstr) (throws : nat -> bool) (s : loader) : loader :=
  match named (scriptStatus s) url, named (scriptCallbacks s) url with
  | Some false, Some cs =>
      let '(a, b) := call_all throws cs in
      {| base := base s; globals := defines ++ globals s; scriptStatus := set_done (scriptStatus s) url;
         scriptCallbacks := without_key (scriptCallbacks s) url; elements := elements s; readings := readings s; workers := workers s;
         called := called s ++ a; lost := lost s ++ b |}
  | _, _ => s
  end.

Definition workerProxy (name : jsstr) (cb : nat) (s : loader) : result unit * loader :=
  match named worker_scripts name with
  | None => (Throw (ErrorMsg (js "Requested worker for class with no proxy: " ++ name)), s)
  | Some w =>
      match urlForScript (base s) w with
      | Throw e => (Throw e, s)
      | Ok url =>
      if test elsewhere url then
        (Ok tt, {| base := base s; globals := globals s; scriptStatus := scriptStatus s; scriptCallbacks := scriptCallbacks s; elements := elements s;
                   readings := readings s ++ [{| r_class := name; r_callback := cb; class_text := None; worker_text := None |}];
                   workers := workers s; called := called s; lost := lost s |})
      else
        (Ok tt, call cb {| base := base s; globals := globals s; scriptStatus := scriptStatus s; scriptCallbacks := scriptCallbacks s; elements := elements s;
                           readings := readings s; workers := workers s ++ [FromURL url]; called := called s; lost := lost s |})
      end
  end.

Definition loadClass (name : jsstr) (worker : bool) (cb : nat) (s : loader) : result unit * loader :=
  if worker then workerProxy name cb s
  else
    match urlForClass (base s) name with
    | Throw e => (Throw e, s)
    | Ok url => (Ok tt, if existsb (str_eqb name) (globals s) then call cb s else loadScript url cb s)
    end.

(** The text of a worker: both scripts, and the base of the page. *)
Definition worker_program (b : option jsstr) (class_text worker_text : jsstr) : jsstr :=
  class_text ++ js " " ++ worker_text ++ 10 :: js "OGVLoader.base = " ++ match b with Some b => stringify (OStr b) | None => js "undefined" end.

(** The answer to one of the two requests of a reading; [None] is an answer with another status than 200, after which
    nothing happens any more. *)
Definition response (i : nat) (of_class : bool) (text : option jsstr) (s : loader) : loader :=
  match readings s !! i, text with
  | Some r, Some x =>
      let r' := if of_class then {| r_class := r_class r; r_callback := r_callback r; class_text := Some x; worker_text := worker_text r |}
                else {| r_class := r_class r; r_callback := r_callback r; class_text := class_text r; worker_text := Some x |} in
      if bool_decide (is_Some (if of_class then class_text r else worker_text r)) then s   (* answered already *)
      else
        match class_text r', worker_text r' with
        | Some c, Some w =>
            call (r_callback r)
              {| base := base s; globals := globals s; scriptStatus := scriptStatus s; scriptCallbacks := scriptCallbacks s; elements := elements s;
                 readings := <[i := r']> (readings s); workers := workers s ++ [FromText (worker_program (base s) c w)]; called := called s; lost := lost s |}
        | _, _ =>
            {| base := base s; globals := globals s; scriptStatus := scriptStatus s; scriptCallbacks := scriptCallbacks s; elements := elements s;
               readings := <[i := r']> (readings s); workers := workers s; called := called s; lost := lost s |}
        end
  | _, _ => s
  end.

(** The function a callback is given: it needs the class to be there. *)
Definition classWrapper (name : jsstr) (s : loader) : result jsstr :=
  if existsb (str_eqb name) (globals s) then Ok (versioned (default (js "undefined") (scriptForClass name))) else Throw (PlatformError "TypeError").

(** ** Runs *)

Inductive event :=
| LoadClass (name : jsstr) (worker : bool) (cb : nat)
| ScriptDone (url : jsstr) (defines : list jsstr) (throws : nat -> bool)
| Response (i : nat) (of_class : bool) (text : option jsstr).

Definition step (s : loader * list nat) (e : event) : loader * list nat :=
  let '(l, asked) := s in
  match e with
  | LoadClass name w cb => match loadClass name w cb l with (Ok _, l') => (l', asked ++ [cb]) | (Throw _, l') => (l', asked) end
  | ScriptDone url defines throws => (script_done url defines throws l, asked)
  | Response i c x => (response i c x l, asked)
  end.

(** The loader, and the callbacks of the calls that did not throw. *)
Definition run (b : option jsstr) (es : list event) : loader * list nat := fold_left step es (fresh b, []).

(** ** Every callback is accounted for *)

(** The callbacks that wait for a script, and those of classes whose texts are not both there. *)
Definition waiting (s : loader) : list nat := concat (map snd (scriptCallbacks s)).
Definition incomplete (r : reading) : bool := negb (bool_decide (is_Some (class_text r)) && bool_decide (is_Some (worker_text r))).
Definition unread (s : loader) : list nat := map r_callback (List.filter incomplete (readings s)).

Record sound (s : loader) (asked : list nat) : Prop := {
  s_sum : called s ++ waiting s ++ unread s ++ lost s ≡ₚ asked;
  s_keys : NoDup (map fst (scriptCallbacks s));
  s_loading : forall url, named (scriptStatus s) url = Some false <-> is_Some (named (scriptCallbacks s) url);
  s_elements : elements s ≡ₚ map fst (scriptStatus s);
  s_once : NoDup (elements s)
}.

Lemma named_none {A} (l : list (jsstr * A)) x : named l x = None -> x ∉ map fst l.
Proof.
  induction l as [|[y a] l IH]; cbn; intros H Hin; [by apply not_elem_of_nil in Hin|]. destruct (str_eqb y x) eqn:E; [done|].
  apply elem_of_cons in Hin as [->|Hin]; [by rewrite str_eqb_refl in E|by apply IH].
Qed.

Lemma named_push l x cb y : named (push_at l x cb) y = if str_eqb y x then option_map (fun cs => cs ++ [cb]) (named l y) else named l y.
Proof.
  induction l as [|[z cs] l IH]; cbn; [by destruct (str_eqb y x)|]. destruct (str_eqb z x) eqn:E; cbn.
  - apply str_eqb_eq in E. subst z. destruct (str_eqb x y) eqn:E2; [apply str_eqb_eq in E2; subst y; by rewrite str_eqb_refl|].
    destruct (str_eqb y x) eqn:E3; [apply str_eqb_eq in E3; subst y; by rewrite str_eqb_refl in E2|done].
  - destruct (str_eqb z y) eqn:E2; [|apply IH]. apply str_eqb_eq in E2. subst z. by rewrite E.
Qed.

Lemma push_keys l x cb : map fst (push_at l x cb) = map fst l.
Proof. induction l as [|[z cs] l IH]; cbn; [done|]. destruct (str_eqb z x); cbn; [done|]. by rewrite IH. Qed.

Lemma push_values l x cb : is_Some (named l x) -> concat (map snd (push_at l x cb)) ≡ₚ cb :: concat (map snd l).
Proof.
  induction l as [|[z cs] l IH]; cbn; intros H; [by destruct H|]. destruct (str_eqb z x); cbn; [solve_Permutation|]. rewrite IH by done. solve_Permutation.
Qed.

Lemma set_done_named l x y : named (set_done l x) y = if str_eqb y x then option_map (fun _ => true) (named l y) else named l y.
Proof.
  induction l as [|[z b] l IH]; cbn; [by destruct (str_eqb y x)|]. destruct (str_eqb z x) eqn:E; cbn.
  - apply str_eqb_eq in E. subst z. destruct (str_eqb x y) eqn:E2; [apply str_eqb_eq in E2; subst y; by rewrite str_eqb_refl|].
    destruct (str_eqb y x) eqn:E3; [apply str_eqb_eq in E3; subst y; by rewrite str_eqb_refl in E2|done].
  - destruct (str_eqb z y) eqn:E2; [|apply IH]. apply str_eqb_eq in E2. subst z. by rewrite E.
Qed.

Lemma set_done_keys l x : map fst (set_done l x) = map fst l.
Proof. induction l as [|[z b] l IH]; cbn; [done|]. destruct (str_eqb z x); cbn; [done|]. by rewrite IH. Qed.

Lemma without_named {A} (l : list (jsstr * A)) x y : named (without_key l x) y = if str_eqb y x then None else named l y.
Proof.
  unfold without_key. induction l as [|[z a] l IH]; cbn; [by destruct (str_eqb y x)|]. destruct (str_eqb z x) eqn:E; cbn.
  - rewrite IH. apply str_eqb_eq in E. subst z. destruct (str_eqb y x) eqn:E2; [done|]. destruct (str_eqb x y) eqn:E3; [apply str_eqb_eq in E3; subst y; by rewrite str_eqb_refl in E2|done].
  - destruct (str_eqb z y) eqn:E2; [|apply IH]. apply str_eqb_eq in E2. subst z. by rewrite E.
Qed.

Lemma without_keys {A} (l : list (jsstr * A)) x : NoDup (map fst l) -> NoDup (map fst (without_key l x)).
Proof.
  unfold without_key. induction l as [|[z a] l IH]; cbn; [done|]. intros H. apply NoDup_cons in H as [Hz H]. destruct (str_eqb z x); cbn; [by apply IH|]. constructor; [|by apply IH].
  intros Hin. apply Hz. apply list_elem_of_In, in_map_iff in Hin as (w & E & Hin). apply filter_In in Hin as [Hin _]. apply list_elem_of_In, in_map_iff. by exists w.
Qed.

(** Taking out the list of a key. *)
Lemma without_values (l : list (jsstr * list nat)) x cs :
  NoDup (map fst l) -> named l x = Some cs -> concat (map snd l) ≡ₚ cs ++ concat (map snd (without_key l x)).
Proof.
  induction l as [|[z a] l IH]; cbn; intros Hn H; [done|]. apply NoDup_cons in Hn as [Hz Hn]. destruct (str_eqb z x) eqn:E; cbn.
  - injection H as ->. apply str_eqb_eq in E. subst z. enough (Ew : without_key l x = l) by (unfold without_key in *; by rewrite Ew).
    clear -Hz. induction l as [|[z a] l IH]; cbn in *; [done|]. apply not_elem_of_cons in Hz as [Hzx Hz]. rewrite (proj2 (str_eqb_neq z x)) by congruence.
    cbn. f_equal. by apply IH.
  - rewrite (IH Hn H). unfold without_key. solve_Permutation.
Qed.

Lemma call_all_perm throws cs : let '(a, b) := call_all throws cs in a ++ b ≡ₚ cs.
Proof. induction cs as [|c cs IH]; cbn; [done|]. destruct (throws c); [done|]. destruct (call_all throws cs) as [a b]. cbn. by rewrite IH. Qed.

(** A callback called at once. *)
Lemma sound_call s asked cb : sound s asked -> sound (call cb s) (asked ++ [cb]).
Proof. intros [H1 H2 H3 H4 H5]. split; try done. rewrite <- H1. unfold waiting, unread. cbn. solve_Permutation. Qed.

Lemma sound_loadScript s asked url cb : sound s asked -> sound (loadScript url cb s) (asked ++ [cb]).
Proof.
  intros H. unfold loadScript. destruct (named (scriptStatus s) url) as [[]|] eqn:E; [by apply sound_call| |]; destruct H as [H1 H2 H3 H4 H5].
  - split; cbn; try done; [| |].
    + pose proof (proj1 (H3 url) E) as Hs. unfold waiting. cbn. rewrite (push_values _ _ _ Hs), <- H1. unfold unread, waiting. cbn. solve_Permutation.
    + by rewrite push_keys.
    + intros x. rewrite named_push, H3. destruct (str_eqb x url); [|done]. destruct (named (scriptCallbacks s) x); cbn; [by split; eexists|]. by split; intros [? ?].
  - assert (Hn : named (scriptCallbacks s) url = None). { destruct (named (scriptCallbacks s) url) eqn:En; [|done]. assert (Hx : is_Some (named (scriptCallbacks s) url)) by by eexists. apply H3 in Hx. congruence. }
    split; cbn; [| | | |].
    + rewrite <- H1. unfold unread, waiting. cbn. solve_Permutation.
    + constructor; [by apply named_none|done].
    + intros x. destruct (str_eqb url x) eqn:Ex; [by split; [eexists|]|]. apply H3.
    + rewrite H4. solve_Permutation.
    + rewrite (comm (++)). cbn. constructor; [|done]. rewrite H4. by apply named_none.
Qed.

Lemma sound_done s asked url defines throws : sound s asked -> sound (script_done url defines throws s) asked.
Proof.
  intros [H1 H2 H3 H4 H5]. unfold script_done. destruct (named (scriptStatus s) url) as [[]|] eqn:E; try by split.
  destruct (named (scriptCallbacks s) url) as [cs|] eqn:Ec; [|by split]. pose proof (call_all_perm throws cs) as Hp. destruct (call_all throws cs) as [a b].
  split; cbn; try done.
  - rewrite <- H1. unfold waiting, unread. cbn [called scriptCallbacks readings lost]. rewrite (without_values _ _ _ H2 Ec), <- Hp. solve_Permutation.
  - by apply without_keys.
  - intros x. rewrite set_done_named, without_named. destruct (str_eqb x url) eqn:Ex; [|apply H3]. split; [by destruct (named _ x)|by intros [? ?]].
  - by rewrite set_done_keys.
Qed.

Lemma sound_response s asked i c x : sound s asked -> sound (response i c x s) asked.
Proof.
  intros H. unfold response. destruct (readings s !! i) as [r|] eqn:Er; [|done]. destruct x as [x|]; [|done]. destruct (bool_decide _) eqn:Eb; [done|]. bool_prop.
  set (r' := if c then _ else _). assert (Hcb : r_callback r' = r_callback r) by (unfold r'; by destruct c).
  assert (Hinc : incomplete r = true).
  { unfold incomplete. destruct c; [by rewrite (bool_decide_eq_false_2 (is_Some (class_text r)))|]. by rewrite (bool_decide_eq_false_2 (is_Some (worker_text r))), andb_false_r. }
  assert (Hsplit : List.filter incomplete (<[i := r']> (readings s)) ≡ₚ (if incomplete r' then [r'] else []) ++ List.filter incomplete (take i (readings s) ++ drop (S i) (readings s))
     /\ List.filter incomplete (readings s) ≡ₚ r :: List.filter incomplete (take i (readings s) ++ drop (S i) (readings s))).
  { assert (Hi : (i < length (readings s))%nat) by (by eapply lookup_lt_Some). split.
    - rewrite insert_take_drop by done. rewrite !List.filter_app. cbn. destruct (incomplete r'); cbn; [solve_Permutation|done].
    - rewrite <- (take_drop_middle _ _ _ Er) at 1. rewrite !List.filter_app. cbn. rewrite Hinc. solve_Permutation. }
  destruct Hsplit as [Hs1 Hs2]. destruct H as [H1 H2 H3 H4 H5].
  assert (Hfull : incomplete r' = negb (bool_decide (is_Some (class_text r')) && bool_decide (is_Some (worker_text r')))) by done.
  destruct (class_text r') as [ct|] eqn:E1, (worker_text r') as [wt|] eqn:E2; split; cbn; try done; rewrite <- H1; unfold unread, waiting in *; cbn;
    rewrite Hs1, Hs2, Hfull; cbn; rewrite ?Hcb; solve_Permutation.
Qed.

Lemma loader_sound_step s e : sound (fst s) (snd s) -> sound (fst (step s e)) (snd (step s e)).
Proof.
  destruct s as [s asked]. cbn [fst snd]. intros H. destruct e as [name w cb|url defines throws|i c x]; cbn [step fst snd].
  - unfold loadClass. destruct w.
    + unfold workerProxy. destruct (named worker_scripts name) as [ws|]; [|done]. destruct (urlForScript (base s) ws) as [url|]; [|done]. destruct (test elsewhere url); cbn [fst snd].
      * destruct H as [H1 H2 H3 H4 H5]. split; cbn; try done. rewrite <- H1. unfold unread, waiting. cbn. rewrite List.filter_app, map_app. cbn. solve_Permutation.
      * apply sound_call. by destruct H as [H1 H2 H3 H4 H5]; split.
    + destruct (urlForClass (base s) name) as [url|]; [|done]. cbn. destruct (existsb _ _); [by apply sound_call|by apply sound_loadScript].
  - by apply sound_done.
  - by apply sound_response.
Qed.

(** C33. Every callback is called once.  In every run a script is put into the page at most once; the callbacks called, those that
    wait for a script or for the texts of a worker, and those behind a callback that threw are together the callbacks the
    page has given, each as often as it was given. *)
Theorem callbacks_accounted (b : option jsstr) (es : list event) :
  let '(s, asked) := run b es in
  NoDup (elements s) /\ called s ++ waiting s ++ unread s ++ lost s ≡ₚ asked.
Proof.
  enough (H : sound (fst (run b es)) (snd (run b es))). { destruct (run b es) as [s asked]. destruct H as [H1 _ _ _ H5]. done. }
  unfold run. assert (H0 : sound (fst (fresh b, @nil nat)) (snd (fresh b, @nil nat))).
  { split; cbn; try done; constructor. }
  revert H0. generalize (fresh b, @nil nat). induction es as [|e es IH]; intros s H0; cbn; [done|]. apply IH. by apply loader_sound_step.
Qed.

(** ** Examples *)

(** The directory of the scripts, from the elements of a page. *)
Example bases :
  map (fun src => defaultBase [None; Some []; Some (js "app.js"); Some (js src)])
    ["ogvjs-1.8.6/ogv.js?v=1"; "https://a.test/x/ogv-es2017.js"; "ogv.js"; "/ogv-support.js#x"; "x/myogv.js"; "x/ogv.json"]%string
  = [Some (js "ogvjs-1.8.6"); Some (js "https://a.test/x"); None; Some []; None; None].
Proof. vm_compute. reflexivity. Qed.

Example urls :
  urlForClass (Some (js "ogvjs-1.8.6")) (js "OGVDecoderVideoVP9W") = Ok (js "ogvjs-1.8.6/ogv-decoder-video-vp9-wasm.js?version=1.8.6-20220111173019-1f60d9d")
  /\ urlForClass None (js "OGVDemuxerOggW") = Ok (js "ogv-demuxer-ogg-wasm.js?version=1.8.6-20220111173019-1f60d9d")
  /\ urlForClass None (js "OGVNothing") = Throw (ErrorMsg (js "asked for URL for unknown class OGVNothing"))
  /\ map (fun u => test elsewhere (js u)) ["ogvjs-1.8.6/ogv-worker-video.js"; "HTTPS://a.test/w.js"; "//a.test/w.js"; "/ogv/w.js"]%string
     = [false; true; true; false].
Proof. vm_compute. repeat split. Qed.

(** A script that fails counts as loaded: the callbacks get a class that is not there, and it is never asked for again. *)
Lemma failed_script_counts_as_loaded :
  let url := js "ogv-decoder-video-vp9-simd-wasm.js?version=1.8.6-20220111173019-1f60d9d" in
  let '(s, _) := run None [LoadClass (js "OGVDecoderVideoVP9SIMDW") false 1; ScriptDone url [] (fun _ => false);
                           LoadClass (js "OGVDecoderVideoVP9SIMDW") false 2] in
  called s = [1; 2]%nat /\ elements s = [url] /\ classWrapper (js "OGVDecoderVideoVP9SIMDW") s = Throw (PlatformError "TypeError").
Proof. vm_compute. repeat split. Qed.

(** When one of the two texts of a worker cannot be read, the callback is never called, whatever comes afterwards. *)
Lemma failed_text_waits (s : loader) (i : nat) (c : bool) : response i c None s = s.
Proof. unfold response. by destruct (readings s !! i). Qed.

(** A worker from another place: its program has both texts and the base, in whichever order they arrive. *)
Example worker_texts :
  let es a b := [LoadClass (js "OGVDecoderVideoVP9W") true 1; a; b] in
  let class := Response 0 true (Some (js "C")) in let worker := Response 0 false (Some (js "W")) in
  let out es := (called (fst (run (Some (js "https://a.test/o")) es)), workers (fst (run (Some (js "https://a.test/o")) es))) in
  out (es class worker) = out (es worker class)
  /\ out (es class worker) = ([1%nat], [FromText (js "C W" ++ 10 :: js "OGVLoader.base = " ++ [34] ++ js "https://a.test/o" ++ [34])]).
Proof. vm_compute. split; reflexivity. Qed.

(** A callback that throws takes those behind it with it. *)
Example callback_throws :
  let url := js "ogv-decoder-video-vp9-wasm.js?version=1.8.6-20220111173019-1f60d9d" in
  let '(s, _) := run None [LoadClass (js "OGVDecoderVideoVP9W") false 1; LoadClass (js "OGVDecoderVideoVP9W") false 2;
                           ScriptDone url [js "OGVDecoderVideoVP9W"] (fun cb => (cb =? 1)%nat)] in
  called s = [1%nat] /\ lost s = [2%nat].
Proof. vm_compute. repeat split. Qed.
