(* ===== verification/OgvProxy.v ===== *)
(** * Decoders of ogv.js in a worker
      ([integrations/lan-remote-access/rustdesk-web-open/ogvjs-1.8.6/ogv.js], [OGVProxyClass] with the audio and video
      proxies, and [ogv-worker-video.js], [ogv-worker-audio.js], [OGVWorkerSupport])

    A decoder that runs in a worker is an object of the page that turns every method
    into a message with the number of a callback, and an object of the worker that
    calls the decoder and sends back a message with the result and the properties of
    the decoder that have changed.  The two run at the same time: an event lets one
    of them take the next message, lets the page call a method or the decoder call a
    callback.  Array buffers are moved with the messages. *)

From stdpp Require Import base list numbers strings gmap.
From Stdlib Require Import ZArith Lia.
From S2P Require Import Prelude JsString JsNumber.
Local Open Scope Z_scope.

(** ** Values and messages *)

(** What a message carries.  An object has an identity and the array buffers in it; its copy on the other side is named
    like the original, and so is a buffer that is moved. *)
Inductive value :=
| Undef | Null | NotANumber
| Bool (b : bool)
| Num (z : Z)
| Obj (id : nat) (bufs : list nat).
#[export] Instance value_eq_dec : EqDecision value.
Proof. solve_decision. Defined.

(** [a !== b] *)
Definition strict_neq (a b : value) : bool :=
  match a, b with
  | NotANumber, _ | _, NotANumber => true
  | Obj i _, Obj j _ => negb (i =? j)%nat
  | _, _ => negb (bool_decide (a = b))
  end.

Definition isNaN (v : value) : bool := match v with Undef | NotANumber | Obj _ _ => true | _ => false end.

(** The buffers of an [audioBuffer] or a [frameBuffer]; [null] has none. *)
Definition buffers_of (v : value) : list nat := match v with Obj _ l => l | _ => [] end.

Record request := { action : jsstr; callbackId : jsstr; args : list value; moved : list nat }.

(** To the worker, and back.  Both sides begin by sending a buffer to see whether it is moved. *)
Inductive wmsg := WTest | WCall (r : request).
Inductive pmsg := PTest | PCallback (callbackId : jsstr) (args : list value) (props : list (jsstr * value)) (moved : list nat).

(** ** The two kinds of decoder *)

(** What the worker does for an action: load the class; pass a callback to the decoder, which calls it when it is done;
    call the decoder and answer at once. *)
Inductive handler := Construct | Passed | AtOnce.

Record kind := { propList : list jsstr; handlers : list (jsstr * handler); initial : list (jsstr * value) }.

Definition video : kind :=
  {| propList := [js "loadedMetadata"; js "videoFormat"; js "frameBuffer"; js "cpuTime"];
     handlers := [(js "construct", Construct); (js "init", Passed); (js "processHeader", Passed); (js "processFrame", Passed);
                  (js "sync", AtOnce); (js "recycleFrame", AtOnce)];
     initial := [(js "loadedMetadata", Bool false); (js "videoFormat", Null); (js "frameBuffer", Null); (js "cpuTime", Num 0)] |}.

Definition audio : kind :=
  {| propList := [js "loadedMetadata"; js "audioFormat"; js "audioBuffer"; js "cpuTime"];
     handlers := [(js "construct", Construct); (js "init", Passed); (js "processHeader", Passed); (js "processAudio", Passed)];
     initial := [(js "loadedMetadata", Bool false); (js "audioFormat", Null); (js "audioBuffer", Null); (js "cpuTime", Num 0)] |}.

Fixpoint assoc {A} (l : list (jsstr * A)) (x : jsstr) : option A :=
  match l with [] => None | (y, a) :: l' => if str_eqb y x then Some a else assoc l' x end.

(** ** The proxy on the page *)

(** The methods of the proxies: the action, its arguments and the buffers that are moved. *)
Inductive method :=
| Init
| ProcessHeader (packet : nat)
| ProcessFrame (packet : nat)
| ProcessAudio (packet : nat)
| Sync
| RecycleFrame (frame : nat) (y u v : nat).

Definition method_request (m : method) : jsstr * list value * list nat :=
  match m with
  | Init => (js "init", [], [])
  | ProcessHeader b => (js "processHeader", [Obj b [b]], [b])
  | ProcessFrame b => (js "processFrame", [Obj b [b]], [b])
  | ProcessAudio b => (js "processAudio", [Obj b [b]], [b])
  | Sync => (js "sync", [], [])
  | RecycleFrame f y u v => (js "recycleFrame", [Obj f [y; u; v]], [y; u; v])
  end.

Record proxy := {
  worker : bool;                                (* not closed *)
  transferables : bool;
  members : gmap jsstr value;                   (* the properties of the decoder *)
  processingQueue : Z;
  messageCount : nat;
  pendingCallbacks : list (jsstr * nat);        (* the number of the call a callback was given with *)
  page_buffers : list nat                       (* the buffers that can be used here *)
}.

Definition processing (p : proxy) : bool := 0 <? processingQueue p.

Definition id_text (n : nat) (a : jsstr) : jsstr := js "callback-" ++ string_of_Z (Z.of_nat n) ++ js "-" ++ a.

(** A buffer can be moved once, and only from where it is. *)
Definition can_move (l have : list nat) : bool := bool_decide (NoDup l) && forallb (fun b => bool_decide (b ∈ have)) l.

(** [proxy]: the request that was posted.  A buffer that cannot be moved makes [postMessage] throw, after the callback has
    been noted and the call counted. *)
Definition proxy_call (a : jsstr) (vs : list value) (d : list nat) (p : proxy) : result request * proxy :=
  if negb (worker p) then (Throw (PlatformError "closed"), p)
  else
    let n := S (messageCount p) in
    let c := id_text n a in
    let p' := {| worker := true; transferables := transferables p; members := members p; processingQueue := processingQueue p + 1;
                 messageCount := n; pendingCallbacks := (c, n) :: pendingCallbacks p; page_buffers := page_buffers p |} in
    if negb (transferables p) then (Ok {| action := a; callbackId := c; args := vs; moved := [] |}, p')
    else if can_move d (page_buffers p) then
      (Ok {| action := a; callbackId := c; args := vs; moved := d |},
       {| worker := true; transferables := true; members := members p; processingQueue := processingQueue p + 1;
          messageCount := n; pendingCallbacks := (c, n) :: pendingCallbacks p; page_buffers := list_difference (page_buffers p) d |})
    else (Throw (PlatformError "DataCloneError"), p').

Definition terminate (p : proxy) : proxy :=
  if worker p then
    {| worker := false; transferables := transferables p; members := members p; processingQueue := 0; messageCount := messageCount p;
       pendingCallbacks := []; page_buffers := page_buffers p |}
  else p.

Definition set_members (l : list (jsstr * value)) (m : gmap jsstr value) : gmap jsstr value := fold_left (fun m '(x, v) => <[x := v]> m) l m.

Definition drop_id (c : jsstr) (l : list (jsstr * nat)) : list (jsstr * nat) := List.filter (fun x => negb (str_eqb (fst x) c)) l.

(** [handleMessage], and the callback that is called.  Every message counts as an answer. *)
Definition handleMessage (m : pmsg) (p : proxy) : option (nat * list value) * proxy :=
  match m with
  | PTest => (None, {| worker := worker p; transferables := transferables p; members := members p; processingQueue := processingQueue p - 1;
                       messageCount := messageCount p; pendingCallbacks := pendingCallbacks p; page_buffers := page_buffers p |})
  | PCallback c vs ps d =>
      let cb := assoc (pendingCallbacks p) c in
      (option_map (fun n => (n, vs)) cb,
       {| worker := worker p; transferables := transferables p; members := set_members ps (members p); processingQueue := processingQueue p - 1;
          messageCount := messageCount p; pendingCallbacks := match cb with Some _ => drop_id c (pendingCallbacks p) | None => pendingCallbacks p end;
          page_buffers := page_buffers p ++ d |})
  end.

(** ** The worker *)

(** What the decoder does when it is called: throw, or return, and whether it has called its callback before that; with the
    properties it then has. *)
Inductive reaction := Throws | Returns (now : option (list value)) (props : jsstr -> value).

Record support := {
  w_transferables : bool;
  constructing : option request;      (* the class is being loaded *)
  target : bool;                      (* the decoder is there *)
  sentProps : gmap jsstr value;
  pendingEvents : list request;
  open_calls : list jsstr;            (* callbacks the decoder has and has not called *)
  given : list request;               (* the calls made on the decoder *)
  uncaught : nat;                     (* exceptions that ended a task *)
  worker_buffers : list nat
}.

Section Worker.
Variable k : kind.

(** The properties that have changed since they were sent, with the buffers to move. *)
Fixpoint changed (l : list jsstr) (now : jsstr -> value) (sent : gmap jsstr value) : list (jsstr * value) * list nat * gmap jsstr value :=
  match l with
  | [] => ([], [], sent)
  | e :: l' =>
      let r := now e in
      if strict_neq (default Undef (sent !! e)) r then
        let '(o, s, sent') := changed l' now (<[e := r]> sent) in
        if str_eqb e (js "duration") && isNaN r then (o, s, sent')
        else ((e, r) :: o, (if str_eqb e (js "audioBuffer") || str_eqb e (js "frameBuffer") then buffers_of r else []) ++ s, sent')
      else changed l' now sent
  end.

Definition with_sent (w : support) (m : gmap jsstr value) (b : list nat) : support :=
  {| w_transferables := w_transferables w; constructing := constructing w; target := target w; sentProps := m; pendingEvents := pendingEvents w;
     open_calls := open_calls w; given := given w; uncaught := uncaught w; worker_buffers := b |}.
Definition with_uncaught (w : support) : support :=
  {| w_transferables := w_transferables w; constructing := constructing w; target := target w; sentProps := sentProps w; pendingEvents := pendingEvents w;
     open_calls := open_calls w; given := given w; uncaught := S (uncaught w); worker_buffers := worker_buffers w |}.
Definition with_open (w : support) (l : list jsstr) : support :=
  {| w_transferables := w_transferables w; constructing := constructing w; target := target w; sentProps := sentProps w; pendingEvents := pendingEvents w;
     open_calls := l; given := given w; uncaught := uncaught w; worker_buffers := worker_buffers w |}.
Definition with_given (w : support) (e : request) : support :=
  {| w_transferables := w_transferables w; constructing := constructing w; target := target w; sentProps := sentProps w; pendingEvents := pendingEvents w;
     open_calls := open_calls w; given := given w ++ [e]; uncaught := uncaught w; worker_buffers := worker_buffers w |}.
Definition with_pending (w : support) (l : list request) : support :=
  {| w_transferables := w_transferables w; constructing := constructing w; target := target w; sentProps := sentProps w; pendingEvents := l;
     open_calls := open_calls w; given := given w; uncaught := uncaught w; worker_buffers := worker_buffers w |}.
Definition with_loading (w : support) (c : option request) (t : bool) : support :=
  {| w_transferables := w_transferables w; constructing := c; target := t; sentProps := sentProps w; pendingEvents := pendingEvents w;
     open_calls := open_calls w; given := given w; uncaught := uncaught w; worker_buffers := worker_buffers w |}.

(** The callback that [handleEvent] makes: the message it posts, or nothing when [postMessage] throws; the properties count
    as sent all the same. *)
Definition answer (c : jsstr) (vs : list value) (now : jsstr -> value) (w : support) : option pmsg * support :=
  let '(o, s, sent') := changed (propList k) now (sentProps w) in
  if negb (w_transferables w) then (Some (PCallback c vs o []), with_sent w sent' (worker_buffers w))
  else if can_move s (worker_buffers w) then (Some (PCallback c vs o s), with_sent w sent' (list_difference (worker_buffers w) s))
  else (None, with_sent w sent' (worker_buffers w)).

(** [handleEvent]; [false]: an exception left it. *)
Definition handleEvent (e : request) (r : reaction) (w : support) : list pmsg * support * bool :=
  match assoc (handlers k) (action e), r with
  | None, _ => ([], w, true)
  | Some Construct, Throws => ([], w, false)
  | Some Construct, Returns _ _ => ([], with_loading w (Some e) (target w), true)
  | Some _, Throws => ([], with_given w e, false)
  | Some Passed, Returns None _ => ([], with_open (with_given w e) (open_calls w ++ [callbackId e]), true)
  | Some Passed, Returns (Some vs) now =>
      match answer (callbackId e) vs now (with_given w e) with
      | (Some m, w') => ([m], w', true)
      | (None, w') => ([], w', false)
      end
  | Some AtOnce, Returns _ now =>
      match answer (callbackId e) [] now (with_given w e) with
      | (Some m, w') => ([m], w', true)
      | (None, w') => ([], w', false)
      end
  end.

Definition ends (r : list pmsg * support * bool) : list pmsg * support :=
  let '(ms, w, b) := r in (ms, if b then w else with_uncaught w).

(** [workerOnMessage] *)
Definition workerOnMessage (m : wmsg) (r : reaction) (w : support) : list pmsg * support :=
  match m with
  | WTest => ([], w)
  | WCall e =>
      let w := with_sent w (sentProps w) (worker_buffers w ++ moved e) in
      match assoc (handlers k) (action e) with
      | None => ([], w)
      | Some _ => if str_eqb (action e) (js "construct") || target w then ends (handleEvent e r w) else ([], with_pending w (pendingEvents w ++ [e]))
      end
  end.

(** The loop over the calls that came before the decoder was there. *)
Fixpoint drain (es : list request) (rs : list reaction) (w : support) : list pmsg * support * bool :=
  match es with
  | [] => ([], w, true)
  | e :: es' =>
      let '(ms, w1, b) := handleEvent e (hd Throws rs) (with_pending w es') in
      if b then let '(ms', w2, b') := drain es' (tl rs) w1 in (ms ++ ms', w2, b') else (ms, w1, false)
  end.

(** The class has been loaded and the decoder made. *)
Definition loaded (now : jsstr -> value) (rs : list reaction) (w : support) : list pmsg * support :=
  match constructing w with
  | None => ([], w)
  | Some e =>
      match answer (callbackId e) [] now (with_loading w None true) with
      | (None, w1) => ([], with_uncaught w1)
      | (Some m, w1) => ends (let '(ms, w2, b) := drain (pendingEvents w1) rs w1 in (m :: ms, w2, b))
      end
  end.

(** The decoder calls a callback it was given. *)
Definition called_back (n : nat) (vs : list value) (now : jsstr -> value) (w : support) : list pmsg * support :=
  match open_calls w !! n with
  | None => ([], w)
  | Some c =>
      match answer c vs now (with_open w (delete n (open_calls w))) with
      | (Some m, w') => ([m], w')
      | (None, w') => ([], with_uncaught w')
      end
  end.

(** ** Both together *)

Record sys := {
  page : proxy;
  work : support;
  running : bool;                     (* the worker has not been terminated *)
  to_worker : list wmsg;
  to_page : list pmsg;
  posted : list request;              (* the requests posted after the first one *)
  sent_back : list pmsg;              (* what the worker has posted, as far as the page can hear it *)
  called : list (nat * list value);   (* the callbacks called *)
  heard : bool                        (* the test of the worker has reached the page *)
}.

Inductive event :=
| Call (m : method)
| Close
| Deliver (r : reaction)
| Load (now : jsstr -> value) (rs : list reaction)
| Callback (n : nat) (vs : list value) (now : jsstr -> value)
| Receive
| NewBuffer (on_page : bool) (b : nat).

Definition msg_buffers (m : pmsg) : list nat := match m with PTest => [] | PCallback _ _ _ d => d end.
Definition req_buffers (m : wmsg) : list nat := match m with WTest => [] | WCall e => moved e end.

(** Where the buffers are. *)
Definition places (s : sys) : list nat :=
  page_buffers (page s) ++ concat (map req_buffers (to_worker s)) ++ concat (map msg_buffers (to_page s)) ++ worker_buffers (work s).

Definition from_worker (s : sys) (r : list pmsg * support) (rest : list wmsg) : sys :=
  {| page := page s; work := snd r; running := running s; to_worker := rest; to_page := to_page s ++ fst r; posted := posted s;
     sent_back := sent_back s ++ fst r; called := called s; heard := heard s |}.

Definition step (s : sys) (e : event) : sys :=
  match e with
  | Call m =>
      let '(a, vs, d) := method_request m in
      if bool_decide (is_Some (assoc (handlers k) a)) then
        match proxy_call a vs d (page s) with
        | (Ok q, p) => {| page := p; work := work s; running := running s; to_worker := to_worker s ++ [WCall q]; to_page := to_page s;
                          posted := posted s ++ [q]; sent_back := sent_back s; called := called s; heard := heard s |}
        | (Throw _, p) => {| page := p; work := work s; running := running s; to_worker := to_worker s; to_page := to_page s;
                             posted := posted s; sent_back := sent_back s; called := called s; heard := heard s |}
        end
      else s                                    (* the proxy has no such method *)
  | Close => {| page := terminate (page s); work := work s; running := false; to_worker := to_worker s; to_page := to_page s; posted := posted s;
                sent_back := sent_back s; called := called s; heard := heard s |}
  | Deliver r =>
      match running s, to_worker s with
      | true, m :: rest => from_worker s (workerOnMessage m r (work s)) rest
      | _, _ => s
      end
  | Load now rs => if running s then from_worker s (loaded now rs (work s)) (to_worker s) else s
  | Callback n vs now => if running s then from_worker s (called_back n vs now (work s)) (to_worker s) else s
  | Receive =>
      match to_page s with
      | [] => s
      | m :: rest =>
          let '(c, p) := handleMessage m (page s) in
          {| page := p; work := work s; running := running s; to_worker := to_worker s; to_page := rest; posted := posted s;
             sent_back := sent_back s; called := called s ++ match c with Some x => [x] | None => [] end;
             heard := heard s || match m with PTest => true | _ => false end |}
      end
  | NewBuffer on_page b =>
      if bool_decide (b ∈ places s) then s
      else if on_page then
        {| page := {| worker := worker (page s); transferables := transferables (page s); members := members (page s);
                      processingQueue := processingQueue (page s); messageCount := messageCount (page s);
                      pendingCallbacks := pendingCallbacks (page s); page_buffers := b :: page_buffers (page s) |};
           work := work s; running := running s; to_worker := to_worker s; to_page := to_page s; posted := posted s; sent_back := sent_back s;
           called := called s; heard := heard s |}
      else
        {| page := page s; work := with_sent (work s) (sentProps (work s)) (b :: worker_buffers (work s)); running := running s;
           to_worker := to_worker s; to_page := to_page s; posted := posted s; sent_back := sent_back s; called := called s; heard := heard s |}
  end.

(** A new proxy: the test, the initial properties and the request to construct the class.  [early]: the test of the worker
    comes while the proxy listens. *)
Definition start (tp tw early : bool) : sys :=
  let c := id_text 1 (js "construct") in
  {| page := {| worker := true; transferables := tp; members := set_members (initial k) ∅; processingQueue := 1; messageCount := 1;
                pendingCallbacks := [(c, 1%nat)]; page_buffers := [] |};
     work := {| w_transferables := tw; constructing := None; target := false; sentProps := ∅; pendingEvents := []; open_calls := []; given := [];
                uncaught := 0; worker_buffers := [] |};
     running := true;
     to_worker := [WTest; WCall {| action := js "construct"; callbackId := c; args := []; moved := [] |}];
     to_page := if early then [PTest] else []; posted := []; sent_back := if early then [PTest] else []; called := []; heard := false |}.

Definition run (tp tw early : bool) (es : list event) : sys := fold_left step es (start tp tw early).

End Worker.

(** ** Numbers of callbacks *)

Lemma digits_text n x : 0 <= n -> exists m, digits 10 0 0 (string_of_Z n ++ 45 :: x) = (n, m, 45 :: x).
Proof.
  intros Hn. unfold string_of_Z. rewrite (proj2 (Z.ltb_ge n 0)) by lia. set (f := S (Z.to_nat (Z.log2 n))).
  destruct (digits_dec f n) as (m & _ & E); [split; [lia|apply log2_lt_pow10; lia]|lia|]. exists m. rewrite digits_app, E; [done|].
  apply Forall_forall. intros c Hc. pose proof (dec_digits_digit f n Hn) as Hd. rewrite forallb_forall in Hd. apply (decimal_digit c), Hd.
  by apply list_elem_of_In.
Qed.

Lemma id_text_inj n m a b : id_text n a = id_text m b -> n = m.
Proof.
  unfold id_text. intros H. apply (inj (app _)) in H. destruct (digits_text (Z.of_nat n) a ltac:(lia)) as (x & Hx).
  destruct (digits_text (Z.of_nat m) b ltac:(lia)) as (y & Hy). change (js "-") with [45] in H. cbn [app] in H. rewrite H, Hy in Hx. injection Hx. lia.
Qed.

(** ** What the worker's functions change *)

Section Facts.
Variable k : kind.
Notation answer := (answer k).
Notation handleEvent := (handleEvent k).
Notation drain := (drain k).

Lemma answer_core c vs now w o w' :
  answer c vs now w = (o, w') ->
  target w' = target w /\ pendingEvents w' = pendingEvents w /\ given w' = given w /\ constructing w' = constructing w
  /\ open_calls w' = open_calls w /\ uncaught w' = uncaught w
  /\ match o with Some m => exists ps d, m = PCallback c vs ps d | None => True end.
Proof.
  unfold OgvProxy.answer. destruct (changed _ now (sentProps w)) as [[o' s] sent'].
  destruct (negb (w_transferables w)); [|destruct (can_move s (worker_buffers w))]; intros H; injection H as <- <-; cbn; eauto 10.
Qed.

(** The handlers that pass a call on to the decoder. *)
Definition passes (a : jsstr) : Prop := assoc (handlers k) a = Some Passed \/ assoc (handlers k) a = Some AtOnce.

Definition reply_id (m : pmsg) : option jsstr := match m with PTest => None | PCallback c _ _ _ => Some c end.
Definition reply_ids (ms : list pmsg) : list jsstr := omap reply_id ms.

(** The callbacks that are waiting in the worker. *)
Definition waiting (w : support) : list jsstr :=
  map callbackId (pendingEvents w) ++ match constructing w with Some e => [callbackId e] | None => [] end ++ open_calls w.

Lemma handleEvent_core e r w ms w' b :
  handleEvent e r w = (ms, w', b) ->
  target w' = target w /\ pendingEvents w' = pendingEvents w
  /\ (passes (action e) -> given w' = given w ++ [e] /\ constructing w' = constructing w)
  /\ (assoc (handlers k) (action e) = Some Construct -> given w' = given w /\ ms = [])
  /\ Forall (fun m => is_Some (reply_id m)) ms
  /\ (uncaught w <= uncaught w')%nat.
Proof.
  unfold OgvProxy.handleEvent, passes. destruct (assoc (handlers k) (action e)) as [[]|], r as [|[vs|] now]; intros H;
    try (injection H as <- <- <-; cbn; repeat split; (by intros [?|?]) || intuition (try done; try constructor)).
  all: destruct (answer _ _ _ _) as [[m|] w1] eqn:Ea; injection H as <- <- <-;
    apply answer_core in Ea as (E1 & E2 & E3 & E4 & E5 & E6 & E7); cbn in *; rewrite E1, E2, E3, ?E4, E6.
  all: try destruct E7 as (ps & d & ->); repeat split; try (intros; discriminate); try (by intros [?|?]); try done; try (constructor; [by eexists|constructor]); try constructor; try lia.
Qed.

End Facts.

(** ** Calls reach the decoder in order *)

Section Order.
Variable k : kind.
Hypothesis Hk : k = video \/ k = audio.

Definition flight (l : list wmsg) : list request := omap (fun m => match m with WCall e => Some e | WTest => None end) l.
Definition is_construct (e : request) : bool := str_eqb (action e) (js "construct").
Definition is_call (e : request) : bool := negb (is_construct e).

Lemma construct_handler : assoc (handlers k) (js "construct") = Some Construct.
Proof. by destruct Hk as [-> | ->]. Qed.

Lemma method_passes m : let '(a, _, _) := method_request m in
  is_Some (assoc (handlers k) a) -> passes k a /\ str_eqb a (js "construct") = false.
Proof. unfold passes. destruct Hk as [-> | ->], m; cbn; intros [h Hh]; try discriminate Hh; auto. Qed.

Record ordered (s : sys) : Prop := {
  o_pending : Forall (fun e => passes k (action e)) (pendingEvents (work s));
  o_flight : Forall (fun e => is_construct e = true \/ passes k (action e)) (flight (to_worker s));
  o_once : List.filter is_construct (flight (to_worker s)) = []
           \/ length (List.filter is_construct (flight (to_worker s))) = 1%nat /\ constructing (work s) = None /\ target (work s) = false;
  o_loading : is_Some (constructing (work s)) -> target (work s) = false;
  o_order : target (work s) = false \/ pendingEvents (work s) = [] ->
            given (work s) ++ pendingEvents (work s) ++ List.filter is_call (flight (to_worker s)) = posted s
}.

Lemma drain_core es : forall rs w ms w' b,
  Forall (fun e => passes k (action e)) es -> pendingEvents w = es -> drain k es rs w = (ms, w', b) ->
  target w' = target w /\ constructing w' = constructing w /\ given w' ++ pendingEvents w' = given w ++ es
  /\ Forall (fun e => passes k (action e)) (pendingEvents w') /\ Forall (fun m => is_Some (reply_id m)) ms /\ (uncaught w <= uncaught w')%nat.
Proof.
  induction es as [|e es IH]; intros rs w ms w' b Hp He; cbn [drain].
  - intros [= <- <- <-]. rewrite He. by repeat split.
  - apply Forall_cons in Hp as [Hpe Hp]. destruct (handleEvent k e (hd Throws rs) (with_pending w es)) as [[ms1 w1] b1] eqn:E1.
    apply handleEvent_core in E1 as (T1 & P1 & G1 & _ & R1 & U1). destruct (G1 Hpe) as [G1' C1]. cbn in T1, P1, G1', C1, U1.
    destruct b1.
    + destruct (drain k es (tl rs) w1) as [[ms2 w2] b2] eqn:E2. intros [= <- <- <-].
      apply IH in E2 as (T2 & C2 & G2 & Q2 & R2 & U2); [|done|done]. rewrite T2, C2, G2, T1, C1, G1'. rewrite <- (assoc_L (++)).
      repeat split; try done; [by apply Forall_app|lia].
    + intros [= <- <- <-]. rewrite T1, C1, G1', P1, <- (assoc_L (++)). by repeat split.
Qed.

Lemma flight_app a b : flight (a ++ b) = flight a ++ flight b.
Proof. unfold flight. apply omap_app. Qed.

Lemma passes_not_construct a : passes k a -> str_eqb a (js "construct") = false.
Proof. intros [H|H]; apply str_eqb_neq; intros ->; rewrite construct_handler in H; discriminate. Qed.

Lemma ordered_deliver s m rest r : ordered s -> to_worker s = m :: rest -> ordered (from_worker s (workerOnMessage k m r (work s)) rest).
Proof.
  intros [H1 H2 H3 H4 H5] Em. rewrite Em in *. destruct m as [|e].
  { by split. }
  cbn [flight omap] in H2. change (flight (WCall e :: rest)) with (e :: flight rest) in *. apply Forall_cons in H2 as [He H2].
  cbn [List.filter] in H3, H5. cbn [workerOnMessage]. set (w := with_sent (work s) _ _).
  destruct (is_construct e) eqn:Ec.
  - unfold is_call in H5. rewrite Ec in H5. cbn [negb] in H5. pose proof Ec as Ea. unfold is_construct in Ea. rewrite Ea. apply str_eqb_eq in Ea. rewrite Ea, construct_handler. cbn [orb].
    destruct H3 as [H3|(H3 & Hc & Ht)]; [done|]. cbn in H3. injection H3 as H3. apply nil_length_inv in H3.
    unfold handleEvent. rewrite Ea, construct_handler. destruct r as [|now props]; cbn; (split; cbn; try done; try (by left)).
  - unfold is_call in H5. rewrite Ec in H5. cbn [negb List.filter] in H5. destruct He as [He|He]; [done|].
    pose proof Ec as Ea. unfold is_construct in Ea. rewrite Ea. cbn [orb].
    assert (Hs : exists h, assoc (handlers k) (action e) = Some h) by (destruct He; eauto). destruct Hs as [h ->].
    destruct (target w) eqn:Et.
    + destruct (handleEvent k e r w) as [[ms w'] b] eqn:E. apply handleEvent_core in E as (T & P & G & _ & _ & _). destruct (G He) as [G' C']. cbn [ends].
      assert (Hx : forall w1, w1 = w' \/ w1 = with_uncaught w' -> target w1 = target (work s) /\ pendingEvents w1 = pendingEvents (work s)
        /\ given w1 = given (work s) ++ [e] /\ constructing w1 = constructing (work s)).
      { intros w1 [-> | ->]; cbn; rewrite T, P, G', C'; done. }
      destruct (Hx (if b then w' else with_uncaught w')) as (T1 & P1 & G1 & C1); [destruct b; auto|].
      split; cbn; rewrite ?T1, ?P1, ?G1, ?C1; try done.
      intros Hcond. rewrite <- (H5 Hcond). destruct Hcond as [Hcond|Hcond]; [change (target w) with (target (work s)) in Et; congruence|].
      rewrite Hcond. by rewrite <- !(assoc_L (++)).
    + split; cbn; try done; [by apply Forall_app; split; [|constructor]|].
      intros _. change (target w) with (target (work s)) in Et. rewrite <- H5 by (by left). by rewrite <- !(assoc_L (++)).
Qed.

Lemma ordered_load s now rs : ordered s -> ordered (from_worker s (loaded k now rs (work s)) (to_worker s)).
Proof.
  intros [H1 H2 H3 H4 H5]. unfold loaded. destruct (constructing (work s)) as [e|] eqn:Ec; [|by split; cbn; rewrite ?Ec].
  assert (Ht : target (work s) = false) by (apply H4; by eexists).
  assert (H3' : List.filter is_construct (flight (to_worker s)) = []) by (destruct H3 as [H3|(_ & H3 & _)]; [done|congruence]).
  destruct (OgvProxy.answer k _ _ _ _) as [[m|] w1] eqn:Ea; apply answer_core in Ea as (T & P & G & C & O & U & _); cbn in T, P, G, C.
  - destruct (drain k (pendingEvents w1) rs w1) as [[ms w2] b] eqn:Ed. rewrite P in Ed.
    apply drain_core in Ed as (T2 & C2 & G2 & Q2 & _); [|done|done]. cbn [ends].
    assert (Hx : forall w3, w3 = w2 \/ w3 = with_uncaught w2 -> target w3 = true /\ pendingEvents w3 = pendingEvents w2 /\ given w3 = given w2 /\ constructing w3 = None).
    { intros w3 [-> | ->]; cbn; rewrite T2, C2, T, C; done. }
    destruct (Hx (if b then w2 else with_uncaught w2)) as (T3 & P3 & G3 & C3); [destruct b; auto|].
    split; cbn; rewrite ?T3, ?P3, ?G3, ?C3; try done; [by left|].
    intros [Hcond|Hcond]; [done|]. rewrite <- H5 by (by left). rewrite Hcond in *. rewrite app_nil_r in G2. rewrite G2, G. cbn. by rewrite <- (assoc_L (++)).
  - split; cbn; rewrite ?T, ?P, ?G, ?C; try done; [by left|]. intros [Hcond|Hcond]; [done|]. apply H5. by left.
Qed.

Lemma ordered_called_back s n vs now : ordered s -> ordered (from_worker s (called_back k n vs now (work s)) (to_worker s)).
Proof.
  intros [H1 H2 H3 H4 H5]. unfold called_back. destruct (open_calls (work s) !! n) as [c|]; [|by split].
  destruct (OgvProxy.answer k _ _ _ _) as [[m|] w1] eqn:Ea; apply answer_core in Ea as (T & P & G & C & O & U & _); cbn in T, P, G, C;
    split; cbn; rewrite ?T, ?P, ?G, ?C; done.
Qed.

(** Nothing but the worker's own state matters. *)
Lemma ordered_page s p rn tp sb cl h :
  ordered s -> ordered {| page := p; work := work s; running := rn; to_worker := to_worker s; to_page := tp; posted := posted s; sent_back := sb; called := cl; heard := h |}.
Proof. by intros [H1 H2 H3 H4 H5]; split. Qed.

Lemma ordered_step s e : ordered s -> ordered (step k s e).
Proof.
  intros H. destruct e as [m| |r|now rs|n vs now| |on_page b]; cbn [step].
  - pose proof (method_passes m) as Hm. destruct (method_request m) as [[a vs] d]. destruct (bool_decide _) eqn:Eb; [|done]. bool_prop. apply Hm in Eb as [Hp Hc].
    destruct (proxy_call a vs d (page s)) as [[q|x] p] eqn:Eq; [|by apply ordered_page].
    assert (Ha : action q = a) by (revert Eq; unfold proxy_call; repeat (case_match; try done); intros [= <- _]; done).
    destruct H as [H1 H2 H3 H4 H5]. split; cbn [work to_worker posted]; rewrite ?flight_app, ?List.filter_app; change (flight [WCall q]) with [q]; cbn [List.filter]; try done.
    + apply Forall_app. split; [done|]. constructor; [right; by rewrite Ha|constructor].
    + assert (Eq0 : is_construct q = false) by (unfold is_construct; by rewrite Ha). rewrite Eq0, app_nil_r. done.
    + assert (Eq0 : is_call q = true) by (unfold is_call, is_construct; by rewrite Ha, Hc). rewrite Eq0. intros Hcond. rewrite <- (H5 Hcond). by rewrite <- !(assoc_L (++)).
  - by apply ordered_page.
  - destruct (running s); [|done]. destruct (to_worker s) as [|m rest] eqn:Em; [done|]. by apply ordered_deliver.
  - destruct (running s); [by apply ordered_load|done].
  - destruct (running s); [by apply ordered_called_back|done].
  - destruct (to_page s) as [|m rest]; [done|]. destruct (handleMessage m (page s)) as [c p]. by apply ordered_page.
  - destruct (bool_decide _); [done|]. destruct on_page; [by apply ordered_page|]. destruct H as [H1 H2 H3 H4 H5]. by split.
Qed.

Lemma calls_ordered tp tw early es : ordered (run k tp tw early es).
Proof.
  unfold run. assert (H0 : ordered (start k tp tw early)).
  { split; cbn; try done; [constructor; [by left|constructor]|by right]. }
  revert H0. generalize (start k tp tw early). induction es as [|e es IH]; intros s H0; cbn; [done|]. apply IH. by apply ordered_step.
Qed.
End Order.

(** ** Answers find their callbacks *)

Section Answers.
Variable k : kind.

#[local] Instance app_sub {A} : Proper (submseteq ==> submseteq ==> submseteq) (@app A).
Proof. intros a a' Ha b b' Hb. by apply submseteq_app. Qed.

Lemma NoDup_sub {A} (l l' : list A) : l ⊆+ l' -> NoDup l' -> NoDup l.
Proof. intros Hs Hn. apply submseteq_Permutation in Hs as (x & Hx). rewrite Hx in Hn. by apply NoDup_app in Hn as [? _]. Qed.

Lemma Forall_sub {A} (P : A -> Prop) (l l' : list A) : l ⊆+ l' -> Forall P l' -> Forall P l.
Proof. rewrite !Forall_forall. intros Hs H x Hx. apply H. by eapply elem_of_submseteq. Qed.

Lemma reply_ids_app a b : reply_ids (a ++ b) = reply_ids a ++ reply_ids b.
Proof. apply omap_app. Qed.

Lemma answer_waiting c vs now w o w' :
  OgvProxy.answer k c vs now w = (o, w') -> waiting w' = waiting w /\ reply_ids (match o with Some m => [m] | None => [] end) ⊆+ [c].
Proof.
  intros H. apply answer_core in H as (_ & P & _ & C & O & _ & M). unfold waiting. rewrite P, C, O. split; [done|].
  destruct o as [m|]; [|apply submseteq_nil_l]. destruct M as (ps & d & ->). done.
Qed.

Lemma handleEvent_waiting e r w ms w' b :
  handleEvent k e r w = (ms, w', b) -> waiting w' ++ reply_ids ms ⊆+ callbackId e :: waiting w.
Proof.
  unfold handleEvent. destruct (assoc (handlers k) (action e)) as [[]|], r as [|[vs|] now]; intros H;
    try (injection H as <- <- <-; unfold waiting, reply_ids; cbn; solve_submseteq).
  all: destruct (OgvProxy.answer _ _ _ _ _) as [o w1] eqn:Ea; apply answer_waiting in Ea as [Ew Er];
    destruct o as [m|]; injection H as <- <- <-; rewrite Ew; unfold waiting at 1; cbn [with_given pendingEvents constructing open_calls];
    fold (waiting w); rewrite Er; solve_submseteq.
Qed.

Lemma drain_waiting es : forall rs w ms w' b, pendingEvents w = es -> drain k es rs w = (ms, w', b) -> waiting w' ++ reply_ids ms ⊆+ waiting w.
Proof.
  induction es as [|e es IH]; intros rs w ms w' b He; cbn [drain].
  - intros [= <- <- <-]. cbn. by rewrite app_nil_r.
  - destruct (handleEvent k e (hd Throws rs) (with_pending w es)) as [[ms1 w1] b1] eqn:E1.
    assert (Hw : callbackId e :: waiting (with_pending w es) ≡ₚ waiting w) by (unfold waiting; rewrite He; done).
    pose proof (handleEvent_waiting _ _ _ _ _ _ E1) as H1. apply handleEvent_core in E1 as (_ & P1 & _). rewrite Hw in H1.
    destruct b1; [|by intros [= <- <- <-]].
    destruct (drain k es (tl rs) w1) as [[ms2 w2] b2] eqn:E2. intros [= <- <- <-]. apply IH in E2; [|done].
    rewrite reply_ids_app. etrans; [|exact H1]. etrans; [|exact (submseteq_skips_r _ _ _ E2)]. solve_submseteq.
Qed.

Definition msg_id (m : wmsg) : list jsstr := match m with WTest => [] | WCall e => [callbackId e] end.

Lemma ends_waiting r X : (let '(ms, w, _) := r in waiting w ++ reply_ids ms ⊆+ X) -> waiting (snd (ends r)) ++ reply_ids (fst (ends r)) ⊆+ X.
Proof. destruct r as [[ms w] []]; done. Qed.

Lemma workerOnMessage_waiting m r w :
  waiting (snd (workerOnMessage k m r w)) ++ reply_ids (fst (workerOnMessage k m r w)) ⊆+ msg_id m ++ waiting w.
Proof.
  destruct m as [|e]; cbn [workerOnMessage msg_id]; [cbn; by rewrite app_nil_r|]. set (w0 := with_sent w _ _). change (waiting w) with (waiting w0).
  destruct (assoc (handlers k) (action e)); [|cbn; solve_submseteq]. destruct (_ || _).
  - apply ends_waiting. destruct (handleEvent k e r w0) as [[ms w'] b] eqn:E. by apply handleEvent_waiting in E.
  - unfold waiting. cbn. rewrite map_app. cbn. solve_submseteq.
Qed.

Lemma loaded_waiting now rs w : waiting (snd (loaded k now rs w)) ++ reply_ids (fst (loaded k now rs w)) ⊆+ waiting w.
Proof.
  unfold loaded. destruct (constructing w) as [e|] eqn:Ec; [|cbn; by rewrite app_nil_r].
  destruct (OgvProxy.answer _ _ _ _ _) as [o w1] eqn:Ea. pose proof (answer_waiting _ _ _ _ _ _ Ea) as [Ew Er]. apply answer_core in Ea as (_ & P & _).
  assert (Hw : callbackId e :: waiting w1 ≡ₚ waiting w) by (rewrite Ew; unfold waiting; cbn; rewrite Ec; solve_Permutation).
  destruct o as [m|]; [|cbn; rewrite app_nil_r, <- Hw; solve_submseteq].
  destruct (drain k (pendingEvents w1) rs w1) as [[ms w2] b] eqn:Ed. apply drain_waiting in Ed; [|done]. apply ends_waiting.
  change (m :: ms) with ([m] ++ ms). rewrite reply_ids_app, Er, <- Hw. etrans; [|exact (submseteq_skip _ _ _ Ed)]. solve_submseteq.
Qed.

Lemma called_back_waiting n vs now w : waiting (snd (called_back k n vs now w)) ++ reply_ids (fst (called_back k n vs now w)) ⊆+ waiting w.
Proof.
  unfold called_back. destruct (open_calls w !! n) as [c|] eqn:Ec; [|cbn; by rewrite app_nil_r].
  destruct (OgvProxy.answer _ _ _ _ _) as [o w1] eqn:Ea. apply answer_waiting in Ea as [Ew Er].
  assert (Hw : c :: waiting w1 ≡ₚ waiting w).
  { rewrite Ew. unfold waiting. cbn. apply delete_Permutation in Ec. set (rest := delete n (open_calls w)) in *. clearbody rest. rewrite Ec. solve_Permutation. }
  destruct o as [m|]; cbn [fst snd]; [|change (waiting (with_uncaught w1)) with (waiting w1)]; rewrite ?Er, <- Hw; cbn; solve_submseteq.
Qed.
End Answers.

Section Matched.
Variable k : kind.

Definition out (s : sys) : list jsstr := map callbackId (flight (to_worker s)) ++ waiting (work s) ++ reply_ids (to_page s).

(** The callback a message answers, and with what. *)
Definition answers_of (ms : list pmsg) : list (jsstr * list value) :=
  omap (fun m => match m with PTest => None | PCallback c vs _ _ => Some (c, vs) end) ms.

Definition answers (x : jsstr * list value) (y : nat * list value) : Prop := (exists a, fst x = id_text (fst y) a) /\ snd x = snd y.

Record matched (s : sys) : Prop := {
  m_ids : Forall (fun x => (exists a, fst x = id_text (snd x) a) /\ (snd x <= messageCount (page s))%nat) (pendingCallbacks (page s));
  m_once : NoDup (map snd (pendingCallbacks (page s)) ++ map fst (called s));
  m_called : Forall (fun x => (fst x <= messageCount (page s))%nat) (called s);
  m_tests : exists rest, Forall (fun m => is_Some (reply_id m)) rest /\ (to_page s = rest \/ heard s = false /\ to_page s = PTest :: rest);
  m_closed : worker (page s) = false -> pendingCallbacks (page s) = [];
  m_out : worker (page s) = true -> NoDup (out s) /\ Forall (fun c => c ∈ map fst (pendingCallbacks (page s))) (out s);
  m_fifo : exists recv, sent_back s = recv ++ to_page s
           /\ if worker (page s) then Forall2 answers (answers_of recv) (called s)
              else exists got, got `sublist_of` answers_of recv /\ Forall2 answers got (called s);
  m_queue : worker (page s) = true -> processingQueue (page s) = Z.of_nat (length (pendingCallbacks (page s))) - (if heard s then 1 else 0)
}.

Lemma answers_of_app a b : answers_of (a ++ b) = answers_of a ++ answers_of b.
Proof. apply omap_app. Qed.

(** Noted callbacks are told apart by their texts. *)
Lemma pending_texts s : matched s -> NoDup (map fst (pendingCallbacks (page s))).
Proof.
  intros [H1 H2 _ _ _ _ _ _]. apply NoDup_app in H2 as [H2 _]. revert H1 H2. generalize (pendingCallbacks (page s)) as l.
  induction l as [|[c n] l IH]; cbn; intros H1 H2; [constructor|]. apply Forall_cons in H1 as [[(a & Ha) _] H1]. apply NoDup_cons in H2 as [Hn H2].
  constructor; [|by apply IH]. intros Hin. apply Hn. apply list_elem_of_In, in_map_iff in Hin as ([c' n'] & E & Hin). cbn in E, Ha. subst c' c.
  rewrite Forall_forall in H1. destruct (H1 (id_text n a, n')) as [(a' & Ha') _]; [by apply list_elem_of_In|]. cbn in Ha'. apply id_text_inj in Ha' as ->.
  apply list_elem_of_In, in_map_iff. by exists (id_text n' a, n').
Qed.

Lemma assoc_in {A} (l : list (jsstr * A)) c a : assoc l c = Some a -> (c, a) ∈ l.
Proof.
  induction l as [|[y b] l IH]; cbn; [done|]. destruct (str_eqb y c) eqn:E; intros H; [|by apply elem_of_cons; right; apply IH].
  apply str_eqb_eq in E. subst y. injection H as ->. by apply elem_of_cons; left.
Qed.

Lemma assoc_known {A} (l : list (jsstr * A)) c : c ∈ map fst l -> is_Some (assoc l c).
Proof.
  induction l as [|[y b] l IH]; cbn; intros H; [by apply not_elem_of_nil in H|]. destruct (str_eqb y c) eqn:E; [by eexists|].
  apply elem_of_cons in H as [->|H]; [by rewrite str_eqb_refl in E|by apply IH].
Qed.

Lemma drop_id_in c l x : x ∈ drop_id c l <-> x ∈ l /\ fst x <> c.
Proof. unfold drop_id. rewrite !list_elem_of_In, filter_In, negb_true_iff, str_eqb_neq. done. Qed.

(** A text that occurs once is dropped once. *)
Lemma drop_id_perm c n l : NoDup (map fst l) -> (c, n) ∈ l -> l ≡ₚ (c, n) :: drop_id c l.
Proof.
  induction l as [|[y b] l IH]; cbn; intros Hn Hin; [by apply not_elem_of_nil in Hin|]. apply NoDup_cons in Hn as [Hy Hn].
  apply elem_of_cons in Hin as [Hin|Hin].
  - injection Hin as <- <-. rewrite str_eqb_refl. cbn. enough (E : drop_id c l = l) by (unfold drop_id in E; by rewrite E).
    unfold drop_id. clear -Hy. induction l as [|[z d] l IH]; cbn in *; [done|]. apply not_elem_of_cons in Hy as [Hz Hy].
    rewrite (proj2 (str_eqb_neq z c)) by congruence. cbn. f_equal. by apply IH.
  - destruct (str_eqb y c) eqn:E; cbn.
    { apply str_eqb_eq in E. subst y. exfalso. apply Hy. apply list_elem_of_In, in_map_iff. exists (c, n). split; [done|]. by apply list_elem_of_In. }
    rewrite (IH Hn Hin) at 1. constructor.
Qed.

(** What the worker does leaves the page and its callbacks alone. *)
Lemma matched_worker s r rest :
  matched s -> (forall l, map callbackId (flight rest) ++ waiting (snd r) ++ reply_ids (l ++ fst r) ⊆+ map callbackId (flight (to_worker s)) ++ waiting (work s) ++ reply_ids l) ->
  Forall (fun m => is_Some (reply_id m)) (fst r) -> matched (from_worker s r rest).
Proof.
  intros H Hsub Hr. destruct H as [H1 H2 H3 (tl & Ht & H4) H5 H6 (recv & H7 & H7') H8]. split; cbn; try done.
  - exists (tl ++ fst r). split; [by apply Forall_app|]. destruct H4 as [-> | (Eh & ->)]; [by left|right; by split].
  - intros Hw. destruct (H6 Hw) as [Hn Hf]. split; [by eapply NoDup_sub; [apply Hsub|]|by eapply Forall_sub; [apply Hsub|]].
  - exists recv. rewrite H7, <- (assoc_L (++)). done.
Qed.

(** The worker's messages are answers. *)
Lemma drain_replies es : forall rs w ms w' b, drain k es rs w = (ms, w', b) -> Forall (fun m => is_Some (reply_id m)) ms.
Proof.
  induction es as [|e es IH]; intros rs w ms w' b; cbn [drain]; [intros [= <- _ _]; constructor|].
  destruct (handleEvent k e (hd Throws rs) (with_pending w es)) as [[ms1 w1] b1] eqn:E1. apply handleEvent_core in E1 as (_ & _ & _ & _ & R1 & _).
  destruct b1; [|by intros [= <- _ _]]. destruct (drain k es (tl rs) w1) as [[ms2 w2] b2] eqn:E2. intros [= <- _ _]. apply Forall_app. split; [done|by eapply IH].
Qed.

Lemma answer_reply c vs now w o w' : OgvProxy.answer k c vs now w = (o, w') -> match o with Some m => is_Some (reply_id m) | None => True end.
Proof. intros H. apply answer_core in H as (_ & _ & _ & _ & _ & _ & H). destruct o; [|done]. destruct H as (ps & d & ->). by eexists. Qed.

Lemma ends_fst r : fst (ends r) = fst (fst r).
Proof. by destruct r as [[ms w] b]. Qed.

Lemma onMessage_replies m r w : Forall (fun m => is_Some (reply_id m)) (fst (workerOnMessage k m r w)).
Proof.
  destruct m as [|e]; cbn [workerOnMessage]; [constructor|]. destruct (assoc _ _); [|constructor]. destruct (_ || _); [|constructor].
  rewrite ends_fst. destruct (handleEvent k e r _) as [[ms w'] b] eqn:E. by apply handleEvent_core in E as (_ & _ & _ & _ & R & _).
Qed.

Lemma loaded_replies now rs w : Forall (fun m => is_Some (reply_id m)) (fst (loaded k now rs w)).
Proof.
  unfold loaded. destruct (constructing w) as [e|]; [|constructor]. destruct (OgvProxy.answer _ _ _ _ _) as [[m|] w1] eqn:Ea; [|constructor]. apply answer_reply in Ea.
  rewrite ends_fst. destruct (drain k (pendingEvents w1) rs w1) as [[ms w2] b] eqn:Ed. apply drain_replies in Ed. by constructor.
Qed.

Lemma called_back_replies n vs now w : Forall (fun m => is_Some (reply_id m)) (fst (called_back k n vs now w)).
Proof.
  unfold called_back. destruct (open_calls w !! n) as [c|]; [|constructor]. destruct (OgvProxy.answer _ _ _ _ _) as [[m|] w1] eqn:Ea; [|constructor].
  apply answer_reply in Ea. by repeat constructor.
Qed.

Lemma matched_call s m : matched s -> matched (step k s (Call m)).
Proof.
  intros H. pose proof H as [H1 H2 H3 H4 H5 H6 (recv & H7 & H7') H8]. cbn [step]. destruct (method_request m) as [[a vs] d]. destruct (bool_decide _); [|done].
  unfold proxy_call. destruct (worker (page s)) eqn:Ew; cbn [negb]; [|destruct s; exact H].
  set (n := S (messageCount (page s))). set (c := id_text n a). specialize (H6 eq_refl). specialize (H8 eq_refl). destruct H6 as [Hnd Hin].
  assert (Hfresh : c ∉ map fst (pendingCallbacks (page s))).
  { intros Hc. apply list_elem_of_In, in_map_iff in Hc as ([c' n'] & E & Hc). cbn in E. subst c'. rewrite Forall_forall in H1.
    destruct (H1 (c, n')) as [(a' & Ha') Hle]; [by apply list_elem_of_In|]. cbn in Ha', Hle. apply id_text_inj in Ha'. unfold n in Ha'. lia. }
  assert (Hids : Forall (fun x => (exists a, fst x = id_text (snd x) a) /\ (snd x <= n)%nat) ((c, n) :: pendingCallbacks (page s))).
  { constructor; [split; [by exists a|done]|]. eapply Forall_impl; [exact H1|]. cbn. intros x (Hx & Hle). split; [done|unfold n; lia]. }
  assert (Honce : NoDup (map snd ((c, n) :: pendingCallbacks (page s)) ++ map fst (called s))).
  { cbn. constructor; [|done]. intros Hx. apply elem_of_app in Hx as [Hx|Hx]; apply list_elem_of_In, in_map_iff in Hx as (x & E & Hx); apply list_elem_of_In in Hx.
    - rewrite Forall_forall in H1. destruct (H1 x Hx) as [_ Hle]. unfold n in E. lia.
    - rewrite Forall_forall in H3. pose proof (H3 x Hx) as Hle. cbn in Hle. unfold n in E. lia. }
  assert (Hcalled : Forall (fun x => (fst x <= n)%nat) (called s)) by (eapply Forall_impl; [exact H3|]; cbn; unfold n; lia).
  assert (Hq : processingQueue (page s) + 1 = Z.of_nat (length ((c, n) :: pendingCallbacks (page s))) - (if heard s then 1 else 0)) by (cbn [length]; lia).
  assert (Hout : forall q, callbackId q = c ->
    NoDup (map callbackId (flight (to_worker s ++ [WCall q])) ++ waiting (work s) ++ reply_ids (to_page s))
    /\ Forall (fun x => x ∈ map fst ((c, n) :: pendingCallbacks (page s))) (map callbackId (flight (to_worker s ++ [WCall q])) ++ waiting (work s) ++ reply_ids (to_page s))).
  { intros q Eq. assert (Hp : map callbackId (flight (to_worker s ++ [WCall q])) ++ waiting (work s) ++ reply_ids (to_page s) ≡ₚ c :: out s).
    { rewrite flight_app, map_app. change (flight [WCall q]) with [q]. cbn [map]. rewrite Eq. unfold out. solve_Permutation. }
    assert (Hold : Forall (fun x => x ∈ map fst ((c, n) :: pendingCallbacks (page s))) (out s)).
    { eapply Forall_impl; [exact Hin|]. cbn. intros x Hx. apply elem_of_cons. by right. }
    rewrite Hp. split; [|constructor; [by apply elem_of_cons; left|done]]. constructor; [|done]. intros Hc. rewrite Forall_forall in Hin. by apply Hfresh, Hin. }
  assert (Hin' : Forall (fun x => x ∈ map fst ((c, n) :: pendingCallbacks (page s))) (out s)).
  { eapply Forall_impl; [exact Hin|]. cbn. intros x Hx. apply elem_of_cons. by right. }
  destruct (transferables (page s)); cbn [negb]; [destruct (can_move d (page_buffers (page s)))|]; split; cbn; try done; try (by intros); eauto.
  all: try (intros _; apply Hout; done). all: exists recv; by rewrite ?Ew in H7'.
Qed.

Lemma matched_close s : matched s -> matched (step k s Close).
Proof.
  intros [H1 H2 H3 H4 H5 H6 (recv & H7 & H7') H8]. cbn [step]. unfold terminate. destruct (worker (page s)) eqn:Ew.
  - split; cbn; try done.
    + apply NoDup_app in H2 as (_ & _ & H2). done.
    + exists recv. split; [done|]. by exists (answers_of recv).
  - split; cbn; rewrite ?Ew; try done. by exists recv.
Qed.

(** The message that comes next: the test, an answer to a callback that waits, or one that comes after closing. *)
Lemma matched_test s rest : matched s -> to_page s = PTest :: rest -> matched (step k s Receive).
Proof.
  intros H Em. pose proof (pending_texts s H) as Htx. pose proof H as [H1 H2 H3 (tl & Ht & H4) H5 H6 (recv & H7 & H7') H8]. cbn [step]. rewrite Em in H4, H7 |- *. cbn [handleMessage].
  assert (Hh : heard s = false /\ rest = tl).
  { destruct H4 as [H4|[H4 H4']]; [|by injection H4']. rewrite <- H4 in Ht. apply Forall_cons in Ht as [[x Hx] _]. done. }
  destruct Hh as [Hh ->]. split; cbn; rewrite ?app_nil_r, ?Hh; cbn; try done; [by exists tl; split; [|left]| | |].
  + intros Hw. specialize (H6 Hw). unfold out in H6. rewrite Em in H6. done.
  + exists (recv ++ [PTest]). rewrite H7, answers_of_app, <- (assoc_L (++)). cbn. rewrite app_nil_r. by split.
  + intros Hw. rewrite (H8 Hw), Hh. lia.
Qed.

Lemma later_answers s m rest :
  matched s -> is_Some (reply_id m) -> to_page s = m :: rest -> Forall (fun m => is_Some (reply_id m)) rest.
Proof.
  intros [_ _ _ (tl & Ht & H4) _ _ _ _] [x Hx] Em. rewrite Em in H4. destruct H4 as [H4|[_ H4]]; [|by injection H4 as -> _].
  rewrite <- H4 in Ht. by apply Forall_cons in Ht as [_ Ht].
Qed.

Lemma matched_answered s c vs ps d rest n :
  matched s -> to_page s = PCallback c vs ps d :: rest -> assoc (pendingCallbacks (page s)) c = Some n -> matched (step k s Receive).
Proof.
  intros H Em Ea. pose proof (later_answers s (PCallback c vs ps d) rest H ltac:(by eexists) Em) as Hrest. pose proof (pending_texts s H) as Htx. pose proof H as [H1 H2 H3 (tl & Ht & H4) H5 H6 (recv & H7 & H7') H8]. cbn [step]. rewrite Em in H4, H7 |- *. cbn [handleMessage].
  rewrite Ea.
  apply assoc_in in Ea. pose proof (drop_id_perm c n _ Htx Ea) as Hp.
  assert (Hsub : Forall (fun x => x ∈ pendingCallbacks (page s)) (drop_id c (pendingCallbacks (page s)))).
  { apply Forall_forall. intros x Hx. by apply drop_id_in in Hx as [Hx _]. }
  assert (Hid : (exists a, c = id_text n a) /\ (n <= messageCount (page s))%nat) by (rewrite Forall_forall in H1; apply (H1 (c, n) Ea)).
  destruct Hid as [Hid Hle].
  assert (Hans : answers (c, vs) (n, vs)) by (split; [exact Hid|done]).
  split; cbn; rewrite ?orb_false_r; try done.
  * eapply Forall_impl; [exact Hsub|]. intros x Hx. rewrite Forall_forall in H1. by apply H1.
  * rewrite map_app. cbn. rewrite Hp in H2. cbn in H2. eapply NoDup_sub; [|exact H2]. solve_submseteq.
  * apply Forall_app. split; [done|]. by constructor.
  * exists rest. split; [done|by left].
  * intros Hw. rewrite (H5 Hw) in Ea. by apply not_elem_of_nil in Ea.
  * intros Hw. destruct (H6 Hw) as [Hnd Hin]. unfold out in *. rewrite Em in *. cbn [reply_ids omap reply_id] in *.
    change (reply_ids (PCallback c vs ps d :: rest)) with (c :: reply_ids rest) in *.
    assert (Hpo : map callbackId (flight (to_worker s)) ++ waiting (work s) ++ c :: reply_ids rest ≡ₚ c :: (map callbackId (flight (to_worker s)) ++ waiting (work s) ++ reply_ids rest)) by solve_Permutation.
    rewrite Hpo in Hnd, Hin. apply NoDup_cons in Hnd as [Hc Hnd]. apply Forall_cons in Hin as [_ Hin]. split; [done|].
    apply Forall_forall. intros x Hx. rewrite Forall_forall in Hin. specialize (Hin x Hx). apply list_elem_of_In, in_map_iff in Hin as (y & <- & Hy).
    apply list_elem_of_In, in_map_iff. exists y. split; [done|]. apply list_elem_of_In, drop_id_in. split; [by apply list_elem_of_In|]. intros E. apply Hc. by rewrite <- E.
  * exists (recv ++ [PCallback c vs ps d]). rewrite H7, answers_of_app, <- (assoc_L (++)). split; [done|]. cbn [answers_of omap].
    destruct (worker (page s)); [apply Forall2_app; [done|by constructor]|].
    destruct H7' as (got & Hs & Hg). exists (got ++ [(c, vs)]). split; [by apply sublist_app|]. apply Forall2_app; [done|by constructor].
  * intros Hw. rewrite (H8 Hw). rewrite Hp at 1. cbn [length]. lia.
Qed.

Lemma matched_unknown s c vs ps d rest :
  matched s -> to_page s = PCallback c vs ps d :: rest -> assoc (pendingCallbacks (page s)) c = None -> matched (step k s Receive).
Proof.
  intros H Em Ea. pose proof (later_answers s (PCallback c vs ps d) rest H ltac:(by eexists) Em) as Hrest. pose proof (pending_texts s H) as Htx. pose proof H as [H1 H2 H3 (tl & Ht & H4) H5 H6 (recv & H7 & H7') H8]. cbn [step]. rewrite Em in H4, H7 |- *. cbn [handleMessage].
  rewrite Ea.
  assert (Hw : worker (page s) = false).
  { destruct (worker (page s)) eqn:Ew; [|done]. destruct (H6 eq_refl) as [_ Hin]. rewrite Forall_forall in Hin.
    assert (Hc : c ∈ map fst (pendingCallbacks (page s))).
    { apply Hin. unfold out. rewrite Em. rewrite !elem_of_app. right. right. cbn. by apply elem_of_cons; left. }
    apply assoc_known in Hc as [n Hn]. congruence. }
  split; cbn; rewrite ?app_nil_r, ?orb_false_r, ?Hw; try done; [by exists rest; split; [|left]|auto|].
  exists (recv ++ [PCallback c vs ps d]). rewrite H7, answers_of_app, <- (assoc_L (++)). split; [done|]. rewrite Hw in H7'. destruct H7' as (got & Hs & Hg).
  exists got. split; [|done]. by apply sublist_inserts_r.
Qed.

Lemma matched_receive s : matched s -> matched (step k s Receive).
Proof.
  intros H. destruct (to_page s) as [|[|c vs ps d] rest] eqn:Em; [cbn; by rewrite Em|by eapply matched_test|].
  destruct (assoc (pendingCallbacks (page s)) c) as [n|] eqn:Ea; [by eapply matched_answered|by eapply matched_unknown].
Qed.

Lemma sub_worker (x fl w w' ms l : list jsstr) : w' ++ ms ⊆+ x ++ w -> fl ++ w' ++ l ++ ms ⊆+ (x ++ fl) ++ w ++ l.
Proof.
  intros H. etrans; [|etrans; [exact (submseteq_app (fl ++ l) (fl ++ l) _ _ (reflexivity _) H)|]]; solve_submseteq.
Qed.

Lemma matched_step s e : matched s -> matched (step k s e).
Proof.
  intros H. destruct e as [m| |r|now rs|n vs now| |on_page b].
  - by apply matched_call.
  - by apply matched_close.
  - cbn [step]. destruct (running s); [|done]. destruct (to_worker s) as [|m rest] eqn:Em; [done|]. apply matched_worker; [done| |apply onMessage_replies].
    intros l. rewrite Em, reply_ids_app. replace (map callbackId (flight (m :: rest))) with (msg_id m ++ map callbackId (flight rest)) by by destruct m.
    apply sub_worker, workerOnMessage_waiting.
  - cbn [step]. destruct (running s); [|done]. apply matched_worker; [done| |apply loaded_replies].
    intros l. rewrite reply_ids_app. apply (sub_worker []), loaded_waiting.
  - cbn [step]. destruct (running s); [|done]. apply matched_worker; [done| |apply called_back_replies].
    intros l. rewrite reply_ids_app. apply (sub_worker []), called_back_waiting.
  - by apply matched_receive.
  - cbn [step]. destruct (bool_decide _); [done|]. destruct H as [H1 H2 H3 H4 H5 H6 H7 H8]. by destruct on_page; split.
Qed.

Lemma matched_run tp tw early es : matched (run k tp tw early es).
Proof.
  unfold run. assert (H0 : matched (start k tp tw early)).
  { split; cbn; try done.
    - constructor; [|constructor]. split; [by exists (js "construct")|done].
    - apply NoDup_singleton.
    - exists []. split; [constructor|]. destruct early; [by right|by left].
    - intros _. unfold out. cbn. destruct early; cbn; (split; [apply NoDup_singleton|]); (constructor; [|constructor]); by apply elem_of_cons; left.
    - exists []. split; [by destruct early|constructor]. }
  revert H0. generalize (start k tp tw early). induction es as [|e es IH]; intros s H0; cbn; [done|]. apply IH. by apply matched_step.
Qed.

End Matched.

(** ** Every buffer is in one place *)

Section Buffers.
Variable k : kind.

Lemma move_perm (l have : list nat) : NoDup have -> can_move l have = true -> list_difference have l ++ l ≡ₚ have.
Proof.
  unfold can_move. intros Hh H. apply andb_true_iff in H as [Hl H]. bool_prop. rewrite forallb_forall in H.
  apply NoDup_Permutation; [|done|].
  - apply NoDup_app. split; [by apply NoDup_list_difference|]. split; [|done]. intros x Hx. by apply list_elem_of_difference in Hx as [_ Hx].
  - intros x. rewrite elem_of_app, list_elem_of_difference. split.
    + intros [[Hx _]|Hx]; [done|]. apply list_elem_of_In, H in Hx. by bool_prop.
    + intros Hx. destruct (decide (x ∈ l)); auto.
Qed.

Definition bufs (r : list pmsg * support) : list nat := worker_buffers (snd r) ++ concat (map msg_buffers (fst r)).

Lemma answer_bufs c vs now w o w' :
  NoDup (worker_buffers w) -> OgvProxy.answer k c vs now w = (o, w') ->
  bufs (match o with Some m => [m] | None => [] end, w') ⊆+ worker_buffers w.
Proof.
  intros Hn. unfold OgvProxy.answer, bufs. destruct (changed _ now (sentProps w)) as [[o' s] sent'].
  destruct (negb (w_transferables w)); [|destruct (can_move s (worker_buffers w)) eqn:Em]; intros H; injection H as <- <-; cbn; rewrite ?app_nil_r; try done.
  by rewrite move_perm.
Qed.

Lemma handleEvent_bufs e r w ms w' b : NoDup (worker_buffers w) -> handleEvent k e r w = (ms, w', b) -> bufs (ms, w') ⊆+ worker_buffers w.
Proof.
  intros Hn. unfold handleEvent. destruct (assoc (handlers k) (action e)) as [[]|], r as [|[vs|] now]; intros H;
    try (injection H as <- <- <-; unfold bufs; cbn; rewrite app_nil_r; done).
  all: destruct (OgvProxy.answer _ _ _ _ _) as [o w1] eqn:Ea; apply answer_bufs in Ea; [|done]; destruct o as [m|]; injection H as <- <- <-; exact Ea.
Qed.

Lemma bufs_NoDup r l : bufs r ⊆+ l -> NoDup l -> NoDup (worker_buffers (snd r)).
Proof. intros Hs Hn. apply (NoDup_sub _ _ Hs) in Hn. unfold bufs in Hn. by apply NoDup_app in Hn as [Hn _]. Qed.

Lemma drain_bufs es : forall rs w ms w' b, NoDup (worker_buffers w) -> drain k es rs w = (ms, w', b) -> bufs (ms, w') ⊆+ worker_buffers w.
Proof.
  induction es as [|e es IH]; intros rs w ms w' b Hn; cbn [drain]; [intros [= <- <- <-]; unfold bufs; cbn; by rewrite app_nil_r|].
  destruct (handleEvent k e (hd Throws rs) (with_pending w es)) as [[ms1 w1] b1] eqn:E1. apply handleEvent_bufs in E1; [|done].
  destruct b1; [|by intros [= <- <- <-]]. destruct (drain k es (tl rs) w1) as [[ms2 w2] b2] eqn:E2. intros [= <- <- <-].
  apply IH in E2; [|by eapply bufs_NoDup in E1]. unfold bufs in *. cbn [fst snd] in *. rewrite map_app, concat_app.
  etrans; [|exact E1]. etrans; [|exact (submseteq_skips_r _ _ _ E2)]. solve_submseteq.
Qed.

Lemma ends_bufs r l : bufs (fst r) ⊆+ l -> bufs (ends r) ⊆+ l.
Proof. by destruct r as [[ms w] []]. Qed.

Lemma onMessage_bufs m r w : NoDup (worker_buffers w ++ req_buffers m) -> bufs (workerOnMessage k m r w) ⊆+ worker_buffers w ++ req_buffers m.
Proof.
  intros Hn. destruct m as [|e]; cbn [workerOnMessage req_buffers]; [unfold bufs; cbn; by rewrite app_nil_r|].
  set (w0 := with_sent w _ _). change (worker_buffers w ++ moved e) with (worker_buffers w0). cbn [req_buffers] in Hn.
  destruct (assoc _ _); [|unfold bufs; cbn; by rewrite app_nil_r]. destruct (_ || _); [|unfold bufs; cbn; by rewrite app_nil_r].
  apply ends_bufs. destruct (handleEvent k e r w0) as [[ms w'] b] eqn:E. by eapply handleEvent_bufs.
Qed.

Lemma loaded_bufs now rs w : NoDup (worker_buffers w) -> bufs (loaded k now rs w) ⊆+ worker_buffers w.
Proof.
  intros Hn. unfold loaded. destruct (constructing w) as [e|]; [|unfold bufs; cbn; by rewrite app_nil_r].
  destruct (OgvProxy.answer _ _ _ _ _) as [o w1] eqn:Ea. apply answer_bufs in Ea; [|done]. destruct o as [m|]; [|done].
  apply ends_bufs. destruct (drain k (pendingEvents w1) rs w1) as [[ms w2] b] eqn:Ed. apply drain_bufs in Ed; [|by eapply bufs_NoDup in Ea].
  unfold bufs in *. cbn [fst snd map concat] in *. rewrite app_nil_r in Ea. cbn [worker_buffers with_loading] in Ea. etrans; [|exact Ea]. etrans; [|exact (submseteq_skips_r _ _ _ Ed)]. solve_submseteq.
Qed.

Lemma called_back_bufs n vs now w : NoDup (worker_buffers w) -> bufs (called_back k n vs now w) ⊆+ worker_buffers w.
Proof.
  intros Hn. unfold called_back. destruct (open_calls w !! n) as [c|]; [|unfold bufs; cbn; by rewrite app_nil_r].
  destruct (OgvProxy.answer _ _ _ _ _) as [o w1] eqn:Ea. apply answer_bufs in Ea; [|done]. by destruct o.
Qed.

Lemma places_worker s r rest :
  bufs r ++ concat (map req_buffers rest) ⊆+ worker_buffers (work s) ++ concat (map req_buffers (to_worker s)) -> places (from_worker s r rest) ⊆+ places s.
Proof.
  intros H. unfold places, from_worker, bufs in *. cbn. rewrite map_app, concat_app.
  etrans; [|etrans; [exact (submseteq_app (page_buffers (page s) ++ concat (map msg_buffers (to_page s))) _ _ _ (reflexivity _) H)|]]; solve_submseteq.
Qed.

Lemma places_step s e : NoDup (places s) -> NoDup (places (step k s e)).
Proof.
  intros H.
  assert (Hparts : NoDup (page_buffers (page s)) /\ NoDup (worker_buffers (work s) ++ concat (map req_buffers (to_worker s)))).
  { unfold places in H. split; [by apply NoDup_app in H as [H _]|]. eapply NoDup_sub; [|exact H]. solve_submseteq. }
  destruct Hparts as [Hpg Hwk]. assert (Hw : NoDup (worker_buffers (work s))) by (by apply NoDup_app in Hwk as [Hwk _]).
  destruct e as [m| |r|now rs|n vs now| |on_page b]; cbn [step].
  - destruct (method_request m) as [[a vs] d]. destruct (bool_decide _); [|done]. unfold proxy_call.
    destruct (worker (page s)); cbn [negb]; [|exact H]. destruct (transferables (page s)); cbn [negb].
    + destruct (can_move d (page_buffers (page s))) eqn:Em; [|exact H].
      eapply NoDup_sub; [|exact H]. unfold places. cbn. rewrite map_app, concat_app. cbn. rewrite app_nil_r.
      rewrite <- (move_perm d (page_buffers (page s)) Hpg Em) at 2. solve_submseteq.
    + unfold places in *. cbn. rewrite map_app, concat_app. cbn. by rewrite app_nil_r.
  - unfold places, terminate in *. by destruct (worker (page s)).
  - destruct (running s); [|done]. destruct (to_worker s) as [|m rest] eqn:Em; [done|]. eapply NoDup_sub; [|exact H]. apply places_worker. rewrite Em. cbn [map concat].
    cbn [map concat] in Hwk. rewrite (assoc_L (++)) in Hwk |- *. apply NoDup_app in Hwk as [Hwk _]. apply submseteq_skips_r. by apply onMessage_bufs.
  - destruct (running s); [|done]. eapply NoDup_sub; [|exact H]. apply places_worker, submseteq_skips_r. by apply loaded_bufs.
  - destruct (running s); [|done]. eapply NoDup_sub; [|exact H]. apply places_worker, submseteq_skips_r. by apply called_back_bufs.
  - destruct (to_page s) as [|m rest] eqn:Em; [done|]. eapply NoDup_sub; [|exact H]. unfold places. rewrite Em. destruct m as [|c vs ps d]; cbn; [done|]. solve_submseteq.
  - destruct (bool_decide _) eqn:Eb; [done|]. bool_prop. destruct on_page; unfold places in *; cbn; [by constructor|].
    eapply NoDup_sub; [|exact (NoDup_cons_2 _ _ Eb H)]. solve_submseteq.
Qed.
End Buffers.

(** ** The properties of the decoder on the page *)

Section Mirror.
Variable k : kind.
Hypothesis Hdur : js "duration" ∉ propList k.

Definition props_of (m : pmsg) : list (jsstr * value) := match m with PTest => [] | PCallback _ _ ps _ => ps end.

(** What the page shows once it has received everything: the last value sent, or the initial one. *)
Definition shown (sent : gmap jsstr value) (p : jsstr) : option value :=
  match sent !! p with Some v => Some v | None => set_members (initial k) ∅ !! p end.

Definition mirrors (sent : gmap jsstr value) (ms : list pmsg) (sent' : gmap jsstr value) : Prop :=
  forall M : gmap jsstr value, (forall p, M !! p = shown sent p) -> forall p, set_members (concat (map props_of ms)) M !! p = shown sent' p.

Lemma set_members_app a b M : set_members (a ++ b) M = set_members b (set_members a M).
Proof. unfold set_members. apply fold_left_app. Qed.

Lemma mirrors_app a ms b ms' c : mirrors a ms b -> mirrors b ms' c -> mirrors a (ms ++ ms') c.
Proof. intros H1 H2 M HM p. rewrite map_app, concat_app, set_members_app. by apply H2, H1. Qed.

Lemma changed_shown l now : js "duration" ∉ l -> forall sent o b sent', changed l now sent = (o, b, sent') ->
  forall M : gmap jsstr value, (forall p, M !! p = shown sent p) -> forall p, set_members o M !! p = shown sent' p.
Proof.
  induction l as [|e l IH]; intros Hd sent o b sent' H M HM p; cbn [changed] in H; [injection H as <- <- <-; apply HM|].
  apply not_elem_of_cons in Hd as [He Hd]. destruct (strict_neq _ _); [|by eapply IH].
  destruct (changed l now (<[e := now e]> sent)) as [[o' b'] sent1] eqn:E. rewrite (proj2 (str_eqb_neq e (js "duration"))) in H by done. cbn [andb] in H.
  injection H as <- <- <-. cbn. eapply IH; [done|exact E|]. intros q. unfold shown.
  destruct (decide (q = e)) as [->|]; [by rewrite !lookup_insert_eq|rewrite !lookup_insert_ne by done; apply HM].
Qed.

Lemma answer_mirrors c vs now w m w' : OgvProxy.answer k c vs now w = (Some m, w') -> mirrors (sentProps w) [m] (sentProps w').
Proof.
  unfold OgvProxy.answer. destruct (changed (propList k) now (sentProps w)) as [[o s] sent'] eqn:E.
  destruct (negb (w_transferables w)); [|destruct (can_move _ _)]; intros H; simplify_eq; intros M HM p; cbn; rewrite app_nil_r; by eapply changed_shown.
Qed.

Lemma mirrors_nil a : mirrors a [] a.
Proof. by intros M HM p. Qed.

Lemma handleEvent_mirrors e r w ms w' : handleEvent k e r w = (ms, w', true) -> mirrors (sentProps w) ms (sentProps w') /\ uncaught w' = uncaught w.
Proof.
  unfold handleEvent. destruct (assoc (handlers k) (action e)) as [[]|], r as [|[vs|] now]; intros H;
    try discriminate H; try (injection H as <- <-; split; [apply mirrors_nil|done]).
  all: destruct (OgvProxy.answer _ _ _ _ _) as [[m|] w1] eqn:Ea; try discriminate H; injection H as <- <-; split;
    [by apply answer_mirrors in Ea|by apply answer_core in Ea as (_ & _ & _ & _ & _ & -> & _)].
Qed.

Lemma drain_mirrors es : forall rs w ms w', drain k es rs w = (ms, w', true) -> mirrors (sentProps w) ms (sentProps w') /\ uncaught w' = uncaught w.
Proof.
  induction es as [|e es IH]; intros rs w ms w'; cbn [drain]; [intros H; simplify_eq; split; [apply mirrors_nil|done]|].
  destruct (handleEvent k e (hd Throws rs) (with_pending w es)) as [[ms1 w1] [|]] eqn:E1; [|done].
  destruct (drain k es (tl rs) w1) as [[ms2 w2] b2] eqn:E2. intros H. simplify_eq. apply handleEvent_mirrors in E1 as [E1 U1]. apply IH in E2 as [E2 U2].
  split; [by eapply mirrors_app|]. by rewrite U2, U1.
Qed.

(** A step of the worker that ends without an exception. *)
Definition tells (w : support) (r : list pmsg * support) : Prop :=
  uncaught (snd r) = 0%nat -> uncaught w = 0%nat /\ mirrors (sentProps w) (fst r) (sentProps (snd r)).

Lemma onMessage_tells m r w : tells w (workerOnMessage k m r w).
Proof.
  destruct m as [|e]; cbn [workerOnMessage]; [intros H; split; [done|apply mirrors_nil]|]. set (w0 := with_sent w _ _).
  destruct (assoc _ _); [|intros H; split; [done|apply mirrors_nil]]. destruct (_ || _); [|intros H; split; [done|apply mirrors_nil]].
  destruct (handleEvent k e r w0) as [[ms w'] [|]] eqn:E; cbn [ends]; intros H; [|done]. cbn in H. apply handleEvent_mirrors in E as [E U]. change (uncaught w0) with (uncaught w) in U. split; [congruence|exact E].
Qed.

Lemma loaded_tells now rs w : tells w (loaded k now rs w).
Proof.
  unfold loaded. destruct (constructing w) as [e|]; [|intros H; split; [done|apply mirrors_nil]].
  destruct (OgvProxy.answer _ _ _ _ _) as [[m|] w1] eqn:Ea; [|done]. destruct (drain k (pendingEvents w1) rs w1) as [[ms w2] [|]] eqn:Ed; cbn [ends]; intros H; [|done].
  cbn in H. apply drain_mirrors in Ed as [Ed U]. pose proof Ea as Ea'. apply answer_core in Ea' as (_ & _ & _ & _ & _ & U' & _). cbn in U'. split; [congruence|].
  change (fst (m :: ms, w2)) with ([m] ++ ms). eapply mirrors_app; [exact (answer_mirrors _ _ _ _ _ _ Ea)|exact Ed].
Qed.

Lemma called_back_tells n vs now w : tells w (called_back k n vs now w).
Proof.
  unfold called_back. destruct (open_calls w !! n) as [c|]; [|intros H; split; [done|apply mirrors_nil]].
  destruct (OgvProxy.answer _ _ _ _ _) as [[m|] w1] eqn:Ea; intros H; [|done]. cbn in H.
  pose proof Ea as Ea'. apply answer_core in Ea' as (_ & _ & _ & _ & _ & U' & _). cbn in U'. split; [congruence|]. exact (answer_mirrors _ _ _ _ _ _ Ea).
Qed.

Definition mirrored (s : sys) : Prop :=
  uncaught (work s) = 0%nat ->
  forall p, set_members (concat (map props_of (to_page s))) (members (page s)) !! p = shown (sentProps (work s)) p.

Lemma mirrored_worker s r rest : mirrored s -> tells (work s) r -> mirrored (from_worker s r rest).
Proof.
  intros H Ht Hu p. cbn in *. destruct (Ht Hu) as [Hu0 Hm]. rewrite map_app, concat_app, set_members_app. apply Hm. by apply H.
Qed.

Lemma mirrored_step s e : mirrored s -> mirrored (step k s e).
Proof.
  intros H. destruct e as [m| |r|now rs|n vs now| |on_page b]; cbn [step].
  - destruct (method_request m) as [[a vs] d]. destruct (bool_decide _); [|done]. unfold proxy_call. destruct (worker (page s)); cbn [negb]; [|exact H].
    destruct (transferables (page s)); cbn [negb]; [destruct (can_move _ _)|]; exact H.
  - intros Hu p. specialize (H Hu p). cbn. unfold terminate. by destruct (worker (page s)).
  - destruct (running s); [|done]. destruct (to_worker s) as [|m rest]; [done|]. by apply mirrored_worker, onMessage_tells.
  - destruct (running s); [|done]. by apply mirrored_worker, loaded_tells.
  - destruct (running s); [|done]. by apply mirrored_worker, called_back_tells.
  - unfold mirrored in *. destruct (to_page s) as [|m rest] eqn:Em; [by rewrite Em|]. destruct m as [|c vs ps d]; cbn in *; [done|]. intros Hu p. rewrite <- (H Hu p). by rewrite set_members_app.
  - destruct (bool_decide _); [done|]. by destruct on_page.
Qed.

Lemma mirrored_run tp tw early es : mirrored (run k tp tw early es).
Proof.
  unfold run. assert (H0 : mirrored (start k tp tw early)).
  { intros _ p. unfold shown. cbn. by destruct early. }
  revert H0. generalize (start k tp tw early). induction es as [|e es IH]; intros s H0; cbn; [done|]. apply IH. by apply mirrored_step.
Qed.

(** The same value for the page: identical, or not a number twice. *)
Definition same (a b : value) : Prop := strict_neq a b = false \/ a = NotANumber /\ b = NotANumber.

Lemma same_refl v : same v v.
Proof. destruct v; try (by right); left; cbn; rewrite ?Nat.eqb_refl, ?bool_decide_eq_true_2; done. Qed.

Lemma changed_same l now : forall sent o b sent' p, changed l now sent = (o, b, sent') -> now p <> Undef ->
  p ∈ l \/ (exists v, sent !! p = Some v /\ same v (now p)) -> exists v, sent' !! p = Some v /\ same v (now p).
Proof.
  induction l as [|e l IH]; intros sent o b sent' p H Hp Hc; cbn [changed] in H.
  - injection H as <- <- <-. destruct Hc as [Hc|Hc]; [by apply not_elem_of_nil in Hc|done].
  - destruct (strict_neq _ _) eqn:Es.
    + destruct (changed l now (<[e := now e]> sent)) as [[o' b'] sent1] eqn:E.
      assert (Hs : exists v, sent1 !! p = Some v /\ same v (now p)).
      { eapply IH; [exact E|done|]. destruct (decide (p = e)) as [->|Hne]; [right; exists (now e); rewrite lookup_insert_eq; split; [done|apply same_refl]|].
        rewrite lookup_insert_ne by done. destruct Hc as [Hc|Hc]; [left; by apply elem_of_cons in Hc as [Hc|Hc]|by right]. }
      destruct (str_eqb e (js "duration") && isNaN (now e)); injection H as <- <- <-; exact Hs.
    + eapply IH; [exact H|done|]. destruct Hc as [Hc|Hc]; [|by right]. apply elem_of_cons in Hc as [->|Hc]; [|by left]. right.
      destruct (sent !! e) as [v|]; [exists v; split; [done|by left]|]. cbn in Es. destruct (now e); try done.
Qed.

Lemma answer_same c vs now w o w' p :
  OgvProxy.answer k c vs now w = (o, w') -> p ∈ propList k -> now p <> Undef -> exists v, sentProps w' !! p = Some v /\ same v (now p).
Proof.
  unfold OgvProxy.answer. destruct (changed (propList k) now (sentProps w)) as [[o' s] sent'] eqn:E. intros H Hp Hn.
  assert (Hs : exists v, sent' !! p = Some v /\ same v (now p)) by (eapply changed_same; [exact E|done|by left]).
  destruct (negb _); [|destruct (can_move _ _)]; injection H as <- <-; exact Hs.
Qed.

(** The page receives what is on its way. *)
Definition receive_all (s : sys) : sys := fold_left (step k) (repeat Receive (length (to_page s))) s.

Lemma receive_all_members s : members (page (receive_all s)) = set_members (concat (map props_of (to_page s))) (members (page s)).
Proof.
  unfold receive_all. remember (to_page s) as l eqn:El. revert s El. induction l as [|m l IH]; intros s El; [done|].
  cbn [length repeat fold_left map concat]. rewrite set_members_app. rewrite (IH (step k s Receive)); cbn [step]; rewrite <- El; by destruct m.
Qed.
End Mirror.

(** ** What holds in every run *)

(** The calls that came early are all made before the first one that comes later, unless an exception ended the loop. *)
Definition none_stranded (w : support) : Prop := uncaught w = 0%nat -> target w = true -> pendingEvents w = [].

Lemma drain_empties k es : forall rs w ms w', pendingEvents w = es -> drain k es rs w = (ms, w', true) -> pendingEvents w' = [].
Proof.
  induction es as [|e es IH]; intros rs w ms w' He; cbn [drain]; [intros [= <- <-]; done|].
  destruct (handleEvent k e (hd Throws rs) (with_pending w es)) as [[ms1 w1] [|]] eqn:E1; [|done]. apply handleEvent_core in E1 as (_ & P1 & _).
  destruct (drain k es (tl rs) w1) as [[ms2 w2] b2] eqn:E2. intros H. simplify_eq. by eapply IH.
Qed.

Lemma none_stranded_step k s e : none_stranded (work s) -> none_stranded (work (step k s e)).
Proof.
  intros H. destruct e as [m| |r|now rs|n vs now| |on_page b]; cbn [step].
  - destruct (method_request m) as [[a vs] d]. destruct (bool_decide _); [|done]. by destruct (proxy_call a vs d (page s)) as [[]].
  - done.
  - destruct (running s); [|done]. destruct (to_worker s) as [|m rest]; [done|]. cbn [from_worker work]. destruct m as [|e]; cbn [workerOnMessage]; [done|].
    set (w0 := with_sent (work s) _ _). destruct (assoc _ _); [|done]. destruct (_ || _) eqn:Ec.
    + destruct (handleEvent k e r w0) as [[ms w'] b] eqn:E. apply handleEvent_core in E as (T & P & _ & _ & _ & U). cbn [ends snd].
      destruct b; intros Hu Ht; [|done]. rewrite P. change (target w0) with (target (work s)) in T. apply H; [cbn in U; lia|congruence].
    + apply orb_false_iff in Ec as [_ Ec]. intros Hu Ht. cbn in Ht, Ec. congruence.
  - destruct (running s); [|done]. cbn [from_worker work]. unfold loaded. destruct (constructing (work s)) as [e|]; [|done].
    destruct (OgvProxy.answer _ _ _ _ _) as [[m|] w1] eqn:Ea; [|done]. destruct (drain k (pendingEvents w1) rs w1) as [[ms w2] [|]] eqn:Ed; [|done].
    intros _ _. by eapply drain_empties.
  - destruct (running s); [|done]. cbn [from_worker work]. unfold called_back. destruct (open_calls (work s) !! n) as [c|]; [|done].
    destruct (OgvProxy.answer _ _ _ _ _) as [[m|] w1] eqn:Ea; [|done]. apply answer_core in Ea as (T & P & _ & _ & _ & U & _). cbn in *.
    intros Hu Ht. rewrite P. apply H; congruence.
  - destruct (to_page s) as [|m rest]; [done|]. by destruct (handleMessage m (page s)).
  - destruct (bool_decide _); [done|]. by destruct on_page.
Qed.

Lemma none_stranded_run k tp tw early es : none_stranded (work (run k tp tw early es)).
Proof.
  unfold run. assert (H0 : none_stranded (work (start k tp tw early))) by done. revert H0. generalize (start k tp tw early).
  induction es as [|e es IH]; intros s H0; cbn; [done|]. apply IH. by apply none_stranded_step.
Qed.

(** C24. Calls reach the decoder in order.  As long as no exception was left uncaught in the worker, the calls made on the
    decoder, then those that wait for it to be loaded, then those on their way, are exactly the calls the page has made, in
    its order. *)
Theorem calls_in_order (k : kind) (tp tw early : bool) (es : list event) :
  k = video \/ k = audio ->
  let s := run k tp tw early es in
  uncaught (work s) = 0%nat ->
  given (work s) ++ pendingEvents (work s) ++ List.filter is_call (flight (to_worker s)) = posted s.
Proof.
  intros Hk s Hu. apply (o_order k s (calls_ordered k Hk tp tw early es)). destruct (target (work s)) eqn:Et; [right|by left].
  by apply (none_stranded_run k tp tw early es).
Qed.

(** C23. Answers find their callbacks.  No callback is called twice.  The page receives the messages of the worker in order;
    while it has not closed the proxy, every answer received has called the callback of the call with its number, in this
    order and with the results of the answer, and no other callback has been called; after closing, none is called any
    more. *)
Theorem answers_matched (k : kind) (tp tw early : bool) (es : list event) :
  let s := run k tp tw early es in
  NoDup (map fst (called s))
  /\ exists recv, sent_back s = recv ++ to_page s
     /\ (worker (page s) = true -> Forall2 answers (answers_of recv) (called s))
     /\ (worker (page s) = false -> pendingCallbacks (page s) = []).
Proof.
  intros s. destruct (matched_run k tp tw early es) as [_ H2 _ _ H5 _ (recv & H7 & H7') _]. fold s in H2, H5, H7, H7'.
  split; [by apply NoDup_app in H2 as (_ & _ & H2)|]. exists recv. split; [done|]. split; [|done]. intros Hw. by rewrite Hw in H7'.
Qed.

(** The count of calls in progress.  [processingQueue] is the number of callbacks that wait, less one as soon as the test
    message of the worker has been heard: it is counted like an answer.  From then on [processing] is false while a
    single call is in progress. *)
Theorem processing_count (k : kind) (tp tw early : bool) (es : list event) :
  let s := run k tp tw early es in
  worker (page s) = true ->
  processingQueue (page s) = Z.of_nat (length (pendingCallbacks (page s))) - (if heard s then 1 else 0)
  /\ processing (page s) = bool_decide ((if heard s then 1 else 0) < Z.of_nat (length (pendingCallbacks (page s)))).
Proof.
  intros s Hw. pose proof (m_queue _ (matched_run k tp tw early es) Hw) as Hq. fold s in Hq. split; [done|]. unfold processing. rewrite Hq.
  destruct (heard s); symmetry; case_bool_decide; bool_prop; lia.
Qed.

(** Every buffer is in one place: usable on the page, usable in the worker, or in one message on its way. *)
Theorem buffers_in_one_place (k : kind) (tp tw early : bool) (es : list event) : NoDup (places (run k tp tw early es)).
Proof.
  unfold run. assert (H0 : NoDup (places (start k tp tw early))) by (unfold places; cbn; destruct early; constructor).
  revert H0. generalize (start k tp tw early). induction es as [|e es IH]; intros s H0; cbn; [done|]. apply IH. by apply places_step.
Qed.

(** The page follows the properties.  When the decoder calls a callback and no exception is left uncaught, then once the
    messages on their way have been received, every property the decoder has is on the page what it was on the decoder. *)
Theorem properties_follow (k : kind) (tp tw early : bool) (es : list event) (n : nat) (vs : list value) (now : jsstr -> value) (p : jsstr) :
  k = video \/ k = audio ->
  let s := run k tp tw early es in
  let s' := step k s (Callback n vs now) in
  running s = true -> is_Some (open_calls (work s) !! n) -> uncaught (work s') = 0%nat -> p ∈ propList k -> now p <> Undef ->
  exists v, members (page (receive_all k s')) !! p = Some v /\ same v (now p).
Proof.
  intros Hk s s' Hr [c Hc] Hu Hp Hn.
  assert (Hd : js "duration" ∉ propList k) by (destruct Hk as [-> | ->]; apply (bool_decide_unpack _); vm_compute; exact I).
  assert (Hm : mirrored k s') by (apply mirrored_step; [done|]; by apply mirrored_run).
  assert (Hs : exists v, sentProps (work s') !! p = Some v /\ same v (now p)).
  { unfold s'. cbn [step]. rewrite Hr. cbn [from_worker work]. unfold called_back. rewrite Hc.
    destruct (OgvProxy.answer k c vs now _) as [[m|] w1] eqn:Ea; eapply answer_same in Ea; eauto. }
  destruct Hs as (v & Hv & Hsame). exists v. split; [|done]. rewrite receive_all_members, (Hm Hu p). unfold shown. by rewrite Hv.
Qed.

(** *** Runs *)

Definition idle_props (x : jsstr) : value :=
  if str_eqb x (js "loadedMetadata") then Bool false else if str_eqb x (js "cpuTime") then Num 0 else Null.
Definition frame_props (x : jsstr) : value :=
  if str_eqb x (js "loadedMetadata") then Bool true else if str_eqb x (js "cpuTime") then Num 5
  else if str_eqb x (js "frameBuffer") then Obj 7 [11; 12; 13]%nat else Obj 8 [].

(** The page calls [init] and [processFrame] before the decoder is loaded; the frame is decoded and sent. *)
Definition sample_run : list event :=
  [NewBuffer true 1; Call Init; Call (ProcessFrame 1); Deliver Throws; Deliver (Returns None idle_props); Deliver Throws; Deliver Throws;
   Load idle_props [Returns (Some []) idle_props; Returns None idle_props]; NewBuffer false 11; NewBuffer false 12; NewBuffer false 13].

Theorem calls_in_order_witness :
  map action (given (work (run video true true true sample_run))) = [js "init"; js "processFrame"]
  /\ given (work (run video true true true sample_run)) ++ [] ++ [] = posted (run video true true true sample_run).
Proof.
  split; [vm_compute; reflexivity|].
  exact (calls_in_order video true true true sample_run ltac:(by left) ltac:(vm_compute; reflexivity)).
Defined.

Theorem processing_count_witness :
  let s := run video true true true (sample_run ++ [Receive; Receive; Receive]) in
  pendingCallbacks (page s) = [(js "callback-3-processFrame", 3%nat)] /\ processing (page s) = false.
Proof.
  intros s. split; [vm_compute; reflexivity|].
  exact (eq_trans (proj2 (processing_count video true true true (sample_run ++ [Receive; Receive; Receive]) ltac:(vm_compute; reflexivity))) ltac:(vm_compute; reflexivity)).
Defined.

Theorem properties_follow_witness :
  exists v, members (page (receive_all video (step video (run video true true true sample_run) (Callback 0 [Bool true] frame_props)))) !! js "frameBuffer" = Some v
    /\ same v (Obj 7 [11; 12; 13]%nat).
Proof.
  apply (properties_follow video true true true sample_run 0 [Bool true] frame_props (js "frameBuffer")).
  - by left. - vm_compute. reflexivity. - vm_compute. by eexists. - vm_compute. reflexivity.
  - apply (bool_decide_unpack _). vm_compute. exact I. - discriminate.
Defined.

(** An exception in a call that came early strands the calls behind it: they are never made, and later calls overtake
    them. *)
Example early_exception_strands :
  let s := run video true true true
    [NewBuffer true 1; NewBuffer true 2; Call Init; Call (ProcessFrame 1); Call (ProcessFrame 2); Deliver Throws; Deliver (Returns None idle_props);
     Deliver Throws; Deliver Throws; Deliver Throws; Load idle_props [Throws]; Call Sync; Deliver (Returns None idle_props)] in
  map action (given (work s)) = [js "init"; js "sync"] /\ map action (pendingEvents (work s)) = [js "processFrame"; js "processFrame"]
  /\ uncaught (work s) = 1%nat.
Proof. vm_compute. repeat split. Qed.

(** A frame cannot be given back twice: the second call throws after it was counted, and stays in progress for ever. *)
Example recycled_twice :
  let s := run video true true true (sample_run ++ [Callback 0 [Bool true] frame_props; Receive; Receive; Receive; Receive;
                                                    Call (RecycleFrame 7 11 12 13); Call (RecycleFrame 7 11 12 13); Deliver (Returns None frame_props); Receive]) in
  map fst (pendingCallbacks (page s)) = [js "callback-5-recycleFrame"] /\ length (posted s) = 3%nat /\ to_worker s = [] /\ to_page s = [].
Proof. vm_compute. repeat split. Qed.
